(* ===== verification/_CoqProject ===== *)
-Q . S2P
Prelude.v
Types.v
Json.v
Text.v
VectorClock.v
Versions.v
Cursor.v
Errors.v
MemStore.v
MemChan.v
StateMachine.v
SyncState.v
DcrState.v
TransportState.v
TransportWrapper.v
Resolvers.v
Composite.v
Interfaces.v
Detect.v
Manager.v
ManagerSafety.v
ManagerBuild.v
Convergence.v
VersionedStore.v
Projection.v
Workflow.v
StatefulResolver.v
Timeout.v
Observer.v
Memento.v
RuleConfig.v
CanonicalConfig.v
Idempotency.v
Limits.v
HttpServer.v
WireCodec.v
HttpClient.v
LegacyCursor.v
HttpSync.v
PushInterleaving.v
Health.v
HealthChecks.v
SqlDriver.v
Sqlite.v
Realtime.v
StatefulRealtime.v
Middleware.v
Sse.v
PgListener.v
Postgres.v
RabbitMq.v
BadgerOffsets.v
Metrics.v
SqlitePull.v
StateObservability.v
ProjectionMetrics.v
Tracing.v
KeyValue.v
Logging.v
MachineExport.v
ProjectionPool.v
Backoff.v
