(* ===== verification/Prelude.v ===== *)
(** * go-sync-kit: a verification development (root file)

    go-sync-kit is a library for event synchronisation between replicas.  An
    application appends events to an [EventStore]; a sync manager exchanges
    them with other replicas over a [Transport], resolves conflicts with a
    [ConflictResolver], and keeps a state machine of the operation under way.
    This library translates the core of the program into executable
    definitions and proves what makes them correct.

    ** The parts and where they are

    - [Prelude] (this file): Go runtime outcomes (return, panic, error pairs),
      machine-width integers, string and list helpers, the [bind] notations
      and the tactics of the development.
    - [Types] (src/synckit/types, src/event): events, versions, conflicts,
      dynamic values, error values.  Every interface type is closed over the
      implementations of the repository.
    - [Json]: the parts of strconv, fmt, encoding/json and encoding/binary the
      versions rely on.
    - [VectorClock] (src/version/vector_clock.go), [Cursor]
      (src/cursor/cursor.go) and [Versions] (the dynamic dispatch of
      [types.Version]).
    - [Errors] (src/errors/errors.go): structured errors and retryability.
    - [MemStore] (src/storage/memstore) and [MemChan] (src/transport/memchan):
      the two in-memory implementations of store and transport.
    - [StateMachine] (src/synckit/statemachine: types.go, machine.go,
      persistence.go): the generic machine; its three instances are
      [SyncState] (src/synckit/sync_state.go), [DcrState] (dcr_state.go) and
      [TransportState] (transport_states.go, transport_manager.go), with
      [TransportWrapper] for the wrapper of the latter.
    - [Resolvers] (src/synckit: resolvers.go, spec.go, resolver.go) and
      [Composite] (composite.go): conflict strategies, matchers, the dynamic
      resolver, rule groups.
    - [Interfaces] (src/synckit/types/interfaces.go): the operations of stores
      and transports as classes, the promises [LogStore] and [LogTransport],
      and the instances that discharge them for [MemStore] and [MemChan].
    - [Detect] (src/synckit/manager.go): conflict detection and the latest
      version of a batch.
    - [Manager] (src/synckit: manager.go, sync.go): [Sync], [Push], [Pull],
      auto-sync, subscriptions, retries, closing, projections.  A state monad
      threads the [World]: store, transport, manager and recorded effects.
    - [ProjectionPool] (src/synckit/manager.go, runProjectionsAfterSync): the
      goroutines of the projection phase with their worker pool and channels, a
      step relation whose messages [Manager] takes from its environment.
    - [Backoff] (manager.go, exponentialBackoff; realtime.go): the delays between
      retries in binary64 arithmetic, beside those of [Realtime].
    - [ManagerSafety] and [Convergence]: the theorems about [Manager]; the
      first over any store and transport that do not panic, the second over
      any store and transport that keep the log promises.
    - [ManagerBuild] (src/synckit: sync.go, builder.go, manager_options.go,
      node.go, node_presets.go): the ways to make a manager.
    - [VersionedStore] (src/version/store_decorator.go): the version manager
      and the store decorator, over a heap of clock objects.
    - [Projection] (src/projection): the projection runner over any offset store
      that keeps the promise [DurableOffsets]; [BadgerOffsets]
      (src/projection/badger) is one.
    - Around the resolver: [StatefulResolver] (stateful_resolver.go) records a
      resolution in a state machine and a [Workflow] (conflict_workflow.go),
      [Timeout] (timeout.go) watches the time a state may take, [Observer]
      (observer.go) adds hooks and metrics, [Memento] (memento.go) the audit
      trail; [RuleConfig] (config.go, with [Text] for its string functions)
      builds resolvers from a configuration, [CanonicalConfig]
      (canonical_config.go) a manager.
    - HTTP (src/transport/httptransport): [Idempotency], [Limits]
      (compression.go), [HttpServer] (http.go, query.go, cursor_api.go, ...),
      [HttpClient] (client.go, cursor_client.go); [HttpSync] joins client and
      server by a network that carries requests and proves the end-to-end
      theorems, [PushInterleaving] serves several pushes at a time, in the steps
      of handlePush ([HttpServer.push_check], [push_events], [push_record]).
      [Middleware] (middleware/) holds the handlers around it;
      [Sse] (src/transport/sse) the event stream.  [WireCodec] (wire_format.go, src/synckit/codec) and
      [LegacyCursor] (cursor.go) are the other wire formats.
    - [Health] and [HealthChecks] (src/observability/health): the registry of
      checks, their runs, their HTTP endpoints, and the checks.
    - [SqlDriver]: database/sql as the stores use it.  [Sqlite]
      (src/storage/sqlite/store.go) is the SQLite store over a database whose
      transactions and statements behave as documented ([SQLiteLaws]),
      [SqlitePull] (pull.go) its pages by cursor, over a pool that may close
      idle and old connections and opens new ones up to its limit ([PullLaws]);
      [Postgres] (src/storage/postgres/store.go) the PostgreSQL store, with
      several transactions open at a time ([PgLaws]); [PgListener] (listener.go)
      its notifications.
    - [Logging] (src/logging): configuration, thresholds, the default logger.
    - [KeyValue] (src/storage/storage.go, src/transport/transport.go): the generic
      in-memory storage with the byte slices its callers share, the mock transport.
    - [MachineExport] (statemachine: ExportDOT, AtomicState, JSON persistence;
      sync_state.go): what a machine shows of itself.
    - [Tracing] (src/observability/tracing): the tracer, limits of attributes, and
      the HTTP middleware over the response writer of net/http and handlers that
      are programs: calls of the writer, a type assertion, panics, recovery;
    - [ProjectionMetrics] (src/projection/metrics.go): the vectors of the projection
      package and what a run of a runner records;
    - [StateObservability] (statemachine/observability.go): the hooks of a state
      machine, the adapters to metrics, spans and health, the health a machine is
      reported with;
    - [Metrics] (src/observability/metrics): the Prometheus vectors, what each
      recording does to them, and the adapter the manager reports to.
    - [RabbitMq] (src/transport/rabbitmq): publishing to an exchange and
      consuming a queue of a broker that behaves as documented ([BrokerLaws]);
      the consumer keeps a ledger of what it took, handed on and settled.
    - [Realtime] (src/synckit/realtime.go): real-time synchronisation with its
      goroutines as steps of a schedule; [StatefulRealtime]
      (stateful_realtime.go) adds the transport machine and reconnection.

    Definitions keep the names of the Go functions; where two methods share a
    name the receiver's type is part of it.  A pointer receiver becomes an
    argument and a returned new value; objects that are aliased (rule groups,
    clocks of events) live in explicit heaps.

    ** What the theorems show

    - The manager: every [Sync] returns, brings the state machine back to idle
      and reports to every subscriber ([ManagerSafety.Sync_returns_to_idle]);
      an operation that resolved conflicts cannot push, and contradictory
      options block a manager for good.
    - Exchange: over log stores and transports, which events one [Sync] stores
      and sends, to the event ([Convergence.Sync_exchanges]); a replica that
      only reads catches up with one that only writes; two writers of equally
      many events never exchange any; a filter makes pulls store twice.
    - The projection phase: it never has more workers than slots, no send blocks,
      every schedule ends, and the error reported is what happened to the runners.
    - Delays: the doubling back-offs in closed form, also past 64 bits.
    - State machines: the outcome of a transition on every branch, the history
      as an explanation of the state, snapshots as faithful resumption points,
      the interleaving of two callers; the graphs of the sync, conflict
      resolution and transport machines by rule induction over reachability.
    - Stores and transports: the reads of the in-memory store are exactly the
      stored events past the position; the indexed read is the filtered scan;
      a channel push delivers to every subscriber with room, under every
      schedule of the subscriber goroutines, and no operation panics.
    - Versions: comparison of vector clocks decides the causal order, merge is
      the least upper bound, increment is strictly larger up to the 64-bit
      wrap-around; cursors survive the wire format.
    - Resolution: the dynamic resolver runs the first matching rule and falls
      back; composite groups flatten to exactly their rules in order; whether
      two replicas agree under last-write-wins.
    - Construction: which configurations [NewManager] refuses, and that every
      accepted one can synchronise.
    - Resolution around the resolver: the stateful and observed resolvers answer
      as the resolver they wrap; what a panic leaves behind; the audit trails
      hold exactly what was resolved; a configuration resolves as its entries
      say.
    - HTTP: a push appends exactly the pushed events; a key that is recorded is
      not carried out again, two requests that overlap both are; following cursors delivers the server's log; limits cut at the
      byte; where the transport hides failures; which requests pass the
      middleware, and that a token's tenant limits nothing.
    - SSE: the stream holds the log from its cursor on, versions are lost, and
      a subscription without a cursor gets nothing.
    - Health: what a probe answers for which checks, on every branch.
    - SQLite: the store keeps the log promise for fresh identifiers; a failed
      batch leaves its transaction open; following integer cursors delivers every
      row, vector pulls use up the connections and can lose events.
    - PostgreSQL: the store is a log as long as one writer stores fresh events;
      a refused event leaves a gap, concurrent commits hide events from readers,
      failed batches use up the connections; a second subscription to a channel
      silences it.
    - RabbitMQ: which events reach the queue under the default bindings; that a
      consumer settles each delivery once, and how.
    - Generic storage: it refines a map from keys to contents, whatever callers
      write to their slices; the mock transport is a queue.
    - Logging: what the environment decides, which records a level lets through,
      the outcome of a logged operation.
    - Exports of a machine: the graph drawn is that of the rules; JSON persistence
      forgets.
    - Tracing: the middleware is transparent but for informational codes and
      flushing; attribute limits; the client transport changes its request.
    - Projection metrics: which counts, error names and health a run leaves; a
      reset removes the series of one projection and no others.
    - State observability: the health that is reported is the current state's
      when notifications arrive in order and no snapshot is restored, and can be
      that of a state left behind otherwise; what the counters say of transitions.
    - Metrics: recording cannot panic, registration can; what a synchronisation
      adds to the counters.
    - Real time: what is left to run after disabling, and which goroutine can
      panic then; what restarting during a subscription leaves behind; that
      disabling through the transport machine is final.
    - Projections: one run from a stored offset applies exactly the events past
      it, in order, and a failed run resumes where the offset stands, also in a
      new process over the same database.

    ** Conventions, bounds and fuel

    - Integers keep their width: unsigned counters are reduced modulo 2^64,
      [int64] arithmetic wraps, lengths are nat.
    - A context is a sequence of polls ([CtxView]): the n-th check sees whether
      the context has ended.  Clock readings, random identifiers, the polls of
      every context handed out, and the messages of projection runners come
      from an environment [Env]; theorems quantify over it.
    - Fuel: [Manager.batches] takes the number of events, since each batch
      consumes at least one; a retry loop runs [MaxAttempts - 1] times; [itoa]
      writes at most 20 digits; the walks of [Composite] have enough fuel when
      it exceeds the rank of a group, and running out stands for the overflow
      of the stack by a group that contains itself; the projection loop needs
      one step more than the log has entries.  In each case a lemma shows that
      the fuel suffices.
    - The order of [for range] over a map is any enumeration ([MapRange]).
    - Goroutines: subscriber goroutines of the channel transport run under an
      explicit schedule, observers of the transport machine as a multiset of
      pending notifications, two callers of one machine as interleaved atomic
      steps.  The goroutines inside one operation of the manager are run to
      completion where they are joined, those of the projection phase step by
      step ([ProjectionPool]).

    ** Not modelled

    The passing of time (a retry waits for one event of the environment,
    whatever its delay); [math.Pow] but for powers of two; the sharing of a
    history slice between snapshots; statistics of
    the SQL stores, which the SQL library counts; mocks for tests; scripts and
    examples. *)
From stdpp Require Export base gmap strings list fin_maps sorting.
From Stdlib Require Export ZArith Lia.
From stdpp Require Import options.
#[global] Open Scope Z_scope.

(** ** Runtime outcomes

    A Go computation either returns or panics (nil map write, nil interface
    call, comparison of uncomparable dynamic values). *)
Inductive outcome (A : Type) : Type :=
  | Done (a : A)
  | Panic (why : string).
Arguments Done {A} a.
Arguments Panic {A} why.

(** A Go pair [(value, error)] where exactly one side is meaningful. *)
Inductive result (E A : Type) : Type :=
  | Ok (a : A)
  | Err (e : E).
Arguments Ok {E A} a.
Arguments Err {E A} e.

Definition obind {A B} (m : outcome A) (f : A → outcome B) : outcome B :=
  match m with Done a => f a | Panic w => Panic w end.

Declare Scope go_scope.
Delimit Scope go_scope with go.
Notation "'let*' x := m 'in' k" := (obind m (λ x, k))
  (at level 10, x pattern, m at level 100, k at level 200) : go_scope.
#[global] Open Scope go_scope.

(** ** Machine integers *)
Definition u64_modulus : Z := 2 ^ 64.
Definition u64 (z : Z) : Z := z mod u64_modulus.
Definition is_u64 (z : Z) : Prop := 0 ≤ z < u64_modulus.
(** [int64(x)]: two's complement reading of the low 64 bits. *)
Definition i64 (z : Z) : Z := (z + 2 ^ 63) mod 2 ^ 64 - 2 ^ 63.

#[global] Instance is_u64_dec z : Decision (is_u64 z).
Proof. unfold is_u64. apply _. Defined.

(** Dereferencing a nil interface or pointer panics. *)
Definition deref {A} (o : option A) : outcome A :=
  match o with Some a => Done a | None => Panic "nil pointer dereference" end.

Lemma u64_range z : is_u64 (u64 z).
Proof. unfold is_u64, u64, u64_modulus. apply Z.mod_pos_bound. lia. Qed.
Lemma u64_small z : is_u64 z → u64 z = z.
Proof. unfold is_u64, u64, u64_modulus. intros. by apply Z.mod_small. Qed.
Lemma i64_small z : 0 ≤ z < 2 ^ 63 → i64 z = z.
Proof. intros H. unfold i64. rewrite Z.mod_small; lia. Qed.

Lemma strings_app_assoc (a b c : string) : (a +:+ b) +:+ c = a +:+ b +:+ c.
Proof. induction a as [|x a IH]; [done|]. change (String x ((a +:+ b) +:+ c) = String x (a +:+ b +:+ c)). by rewrite IH. Qed.

(** ** Tactics *)

(** Split every conditional and match of the goal. *)
Ltac go_cases :=
  repeat (case_match || case_decide); simplify_eq/=; try done.

(** Turn boolean comparisons of [Z] and [nat] into propositions. *)
Ltac zbool :=
  repeat match goal with
  | H : (_ <? _) = true |- _ => apply Z.ltb_lt in H
  | H : (_ <? _) = false |- _ => apply Z.ltb_ge in H
  | H : (_ <=? _) = true |- _ => apply Z.leb_le in H
  | H : (_ <=? _) = false |- _ => apply Z.leb_gt in H
  | H : (_ =? _) = true |- _ => apply Z.eqb_eq in H
  | H : (_ =? _) = false |- _ => apply Z.eqb_neq in H
  | H : Nat.ltb _ _ = true |- _ => apply Nat.ltb_lt in H
  | H : Nat.ltb _ _ = false |- _ => apply Nat.ltb_ge in H
  | H : Nat.leb _ _ = true |- _ => apply Nat.leb_le in H
  | H : Nat.leb _ _ = false |- _ => apply Nat.leb_gt in H
  end.

Create HintDb go.
Create Rewrite HintDb go.
#[export] Hint Resolve u64_range : go.
#[export] Hint Rewrite u64_small i64_small using (unfold is_u64, u64_modulus in *; lia) : go.

(** ** Map iteration

    Go leaves the order of [for k, v := range m] unspecified.  A [MapRange]
    is any choice of enumeration; definitions that iterate over a map take
    one, and theorems hold for all of them. *)
Class MapRange := {
  range : ∀ {V}, gmap string V → list (string * V);
  range_perm : ∀ {V} (m : gmap string V), range m ≡ₚ map_to_list m
}.

(** A concrete enumeration, used by the examples and witnesses. *)
Definition canonical_range : MapRange :=
  {| range := λ V m, map_to_list m; range_perm := λ V m, reflexivity _ |}.

Section range.
Context {MR : MapRange} {V : Type}.
Implicit Types m : gmap string V.

Lemma elem_of_range m k v : (k, v) ∈ range m ↔ m !! k = Some v.
Proof. by rewrite range_perm, elem_of_map_to_list. Qed.
Lemma range_NoDup m : NoDup (range m).*1.
Proof. rewrite (range_perm m). apply NoDup_fst_map_to_list. Qed.
Lemma length_range m : length (range m) = size m.
Proof. by rewrite (range_perm m), length_map_to_list. Qed.
Lemma list_to_map_range m : list_to_map (range m) = m.
Proof.
  rewrite <-(list_to_map_to_list m) at 2.
  apply list_to_map_proper; [apply range_NoDup|apply range_perm].
Qed.
End range.
#[export] Hint Rewrite @elem_of_range @length_range @list_to_map_range : go.

(** The copy loop [for k, v := range m { dst[k] = v }] on a fresh map. *)
Definition copy_map {V} (l : list (string * V)) : gmap string V :=
  fold_left (λ acc kv, <[kv.1 := kv.2]> acc) l ∅.

Lemma copy_map_NoDup {V} (l : list (string * V)) : NoDup l.*1 → copy_map l = list_to_map l.
Proof.
  unfold copy_map. intros Hl.
  assert (∀ acc : gmap string V, dom acc ## list_to_set l.*1 →
    fold_left (λ acc kv, <[kv.1 := kv.2]> acc) l acc = list_to_map l ∪ acc) as Hgen.
  { induction l as [|[k v] l IH]; intros acc Hd.
    - cbn. by rewrite map_empty_union.
    - rewrite fmap_cons in Hl, Hd. apply NoDup_cons in Hl as [Hk Hl]. cbn in Hk, Hd.
      cbn [fold_left fst snd]. rewrite IH by (done || set_solver).
      rewrite list_to_map_cons, <-insert_union_l.
      symmetry. by apply insert_union_r, not_elem_of_list_to_map_1. }
  rewrite Hgen by set_solver. by rewrite map_union_empty.
Qed.

Lemma copy_range `{!MapRange} {V} (m : gmap string V) : copy_map (range m) = m.
Proof. rewrite copy_map_NoDup by apply range_NoDup. apply list_to_map_range. Qed.

(** ** Filtering loops whose test may panic *)
Fixpoint filterM {A} (f : A → outcome bool) (l : list A) : outcome (list A) :=
  match l with
  | [] => Done []
  | x :: l =>
      let* b := f x in
      let* r := filterM f l in
      Done (if b : bool then x :: r else r)
  end.

Lemma filterM_Done {A} (P : A → Prop) `{!∀ x, Decision (P x)} f (l : list A) :
  (∀ x, x ∈ l → f x = Done (bool_decide (P x))) → filterM f l = Done (filter P l).
Proof.
  induction l as [|x l IH]; intros Hf; [done|].
  cbn [filterM]. rewrite Hf by set_solver. cbn [obind]. rewrite IH by set_solver. cbn [obind].
  rewrite filter_cons. by case_bool_decide; case_decide.
Qed.

(** ** A constraint that is only imposed when present *)
Definition when {A} (o : option A) (P : A → Prop) : Prop :=
  match o with Some a => P a | None => True end.
#[global] Instance when_dec {A} (o : option A) P `{!∀ a, Decision (P a)} : Decision (when o P).
Proof. destruct o; apply _. Defined.

(** ** Filters of lists *)
Section filters.
Context {A : Type}.
Implicit Types l : list A.

Lemma filter_ext_elem (P Q : A → Prop) `{!∀ x, Decision (P x), !∀ x, Decision (Q x)} l :
  (∀ x, x ∈ l → P x ↔ Q x) → filter P l = filter Q l.
Proof.
  induction l as [|x l IH]; intros Heq; [done|].
  rewrite !filter_cons, IH by (intros; apply Heq; set_solver).
  assert (P x ↔ Q x) as Hx by (apply Heq; set_solver).
  destruct (decide (P x)), (decide (Q x)); tauto.
Qed.
Lemma filter_none (P : A → Prop) `{!∀ x, Decision (P x)} l :
  (∀ x, x ∈ l → ¬ P x) → filter P l = [].
Proof.
  induction l as [|x l IH]; intros Hn; [done|].
  rewrite filter_cons, decide_False by (apply Hn; set_solver). apply IH. set_solver.
Qed.
Lemma filter_all (P : A → Prop) `{!∀ x, Decision (P x)} l :
  (∀ x, x ∈ l → P x) → filter P l = l.
Proof.
  induction l as [|x l IH]; intros Hy; [done|].
  rewrite filter_cons, decide_True by (apply Hy; set_solver). f_equal. apply IH. set_solver.
Qed.
Lemma filter_comm (P Q : A → Prop) `{!∀ x, Decision (P x), !∀ x, Decision (Q x)} l :
  filter P (filter Q l) = filter Q (filter P l).
Proof. rewrite !list_filter_filter. apply filter_ext_elem. naive_solver. Qed.
End filters.
