(* ===== verification/Types.v ===== *)
(** * Shared data of the sync kit (src/synckit/types, src/event)

    Dynamic values, versions, events, conflicts and the error values that the
    components exchange.  Every Go interface type is closed over the
    implementations found in the repository. *)
From S2P Require Import Prelude.
From stdpp Require Import options.

(** ** Errors *)

(** [context.Canceled] and [context.DeadlineExceeded]. *)
Inductive CtxErr := Canceled | DeadlineExceeded.

(** src/errors/errors.go: the operation names and kinds are string types. *)
Inductive error :=
  | ErrNil                                     (* a nil error held in a field *)
  | ErrMsg (msg : string)                      (* errors.New / fmt.Errorf without %w *)
  | ErrCtx (e : CtxErr)
  | ErrWrap (msg : string) (inner : error)     (* fmt.Errorf("msg: %w", inner) *)
  | SyncError (Op Component : string) (Err : error)
              (Retryable : bool) (Code Kind : string).

(** ** Dynamic values ([interface{}]) *)

(** [AnyOther ty repr] is a comparable value of some other dynamic type, with
    its [%v] rendering. *)
Inductive any :=
  | AnyNil
  | AnyString (s : string)
  | AnyInt (z : Z)
  | AnyInt64 (z : Z)
  | AnyUint64 (z : Z)
  | AnyBool (b : bool)
  | AnyBytes (bs : list Z)
  | AnyErrors (es : list error)
  | AnyOther (ty repr : string).

(** A Go map; [None] is the nil map, which reads as empty. *)
Abbreviation gomap V := (option (gmap string V)).
Definition map_of {V} (m : gomap V) : gmap string V := default ∅ m.

(** ** Versions *)

(** src/version/vector_clock.go: [VectorClock.clocks]. *)
Record VectorClock := mkVectorClock { clocks : gomap Z }.

(** The implementations of [types.Version]: the two cursor kinds, the pointer
    type [*VectorClock] (possibly a typed nil) and the null transport's
    version.  A nil interface is [None] at type [option Version]. *)
Inductive Version :=
  | IntegerCursor (Seq : Z)
  | VectorCursor (Counters : gomap Z)
  | VectorClockV (p : option VectorClock)
  | nullVersion.

(** ** Events *)

(** The observations of [types.Event]. *)
Record Event := mkEvent {
  ID : string;
  Type_ : string;
  AggregateID : string;
  Data : any;
  Metadata : gomap any
}.

Record EventWithVersion := mkEWV { ev_event : option Event; ev_version : option Version }.

(** The zero value [EventWithVersion{}]. *)
Definition zero_ewv : EventWithVersion := mkEWV None None.

Record Filter := mkFilter { Key : string; Value : string }.

(** ** Conflicts *)

Record Conflict := mkConflict {
  c_EventType : string;
  c_AggregateID : string;
  c_ChangedFields : list string;
  c_Metadata : gomap any;
  c_Local : EventWithVersion;
  c_Remote : EventWithVersion
}.

Record ResolvedConflict := mkResolved {
  ResolvedEvents : list EventWithVersion;
  Decision_ : string;
  Reasons : list string
}.

(** The Go zero value [ResolvedConflict{}]. *)
Definition no_resolution : ResolvedConflict := mkResolved [] "" [].

(** ** Equality *)
#[global] Instance CtxErr_eq_dec : EqDecision CtxErr.
Proof. solve_decision. Defined.
#[global] Instance error_eq_dec : EqDecision error.
Proof. solve_decision. Defined.
#[global] Instance any_eq_dec : EqDecision any.
Proof. solve_decision. Defined.
#[global] Instance VectorClock_eq_dec : EqDecision VectorClock.
Proof. solve_decision. Defined.
#[global] Instance Version_eq_dec : EqDecision Version.
Proof. solve_decision. Defined.
#[global] Instance Event_eq_dec : EqDecision Event.
Proof. solve_decision. Defined.
#[global] Instance EventWithVersion_eq_dec : EqDecision EventWithVersion.
Proof. solve_decision. Defined.

(** Go's [a == b] on interface values: values of one uncomparable dynamic type
    panic, different dynamic types are unequal. *)
Definition any_eqop (a b : any) : outcome bool :=
  match a, b with
  | AnyBytes _, AnyBytes _ => Panic "comparing uncomparable type []uint8"
  | AnyErrors _, AnyErrors _ => Panic "comparing uncomparable type []error"
  | _, _ => Done (bool_decide (a = b))
  end.

(** ** Contexts

    A context is seen through the polls a call makes: [ctx k] is what
    [ctx.Err()] gives at the [k]-th poll inside the call. *)
Abbreviation CtxView := (nat → option CtxErr).
Definition background : CtxView := λ _, None.
