(* ===== verification/Json.v ===== *)
(** * Text encodings used by versions and cursors

    The parts of the Go standard library (strconv, fmt, encoding/json,
    encoding/binary) that versions and cursors rely on: decimal numbers, JSON
    strings, [map[string]uint64] objects and unsigned varints. *)
From S2P Require Import Prelude Types.
From Stdlib Require Import Ascii.
From stdpp Require Import options.

Definition ch (z : Z) : ascii := ascii_of_N (Z.to_N z).
Definition code (c : ascii) : Z := Z.of_N (N_of_ascii c).

(** ** Decimal numbers (strconv.FormatUint / ParseUint, base 10, 64 bits) *)

Definition digit (d : Z) : ascii := ch (48 + d).
Definition is_digit (c : ascii) : bool := (48 <=? code c) && (code c <=? 57).
Definition digit_val (c : ascii) : Z := code c - 48.

Fixpoint format_go (fuel : nat) (n : Z) (acc : string) : string :=
  match fuel with
  | O => acc
  | S f =>
      let acc := String (digit (n mod 10)) acc in
      if n <? 10 then acc else format_go f (n / 10) acc
  end.
(** 20 digits are enough: 2^64 < 10^20. *)
Definition format_uint (n : Z) : string := format_go 20 n "".

Fixpoint parse_digits (s : string) (acc : Z) : option Z :=
  match s with
  | EmptyString => Some acc
  | String c rest => if is_digit c then parse_digits rest (10 * acc + digit_val c) else None
  end.
(** [ParseUint(s, 10, 64)]: digits only, at least one, in range. *)
Definition parse_uint (s : string) : option Z :=
  match s with
  | EmptyString => None
  | _ => match parse_digits s 0 with
         | Some z => if z <? u64_modulus then Some z else None
         | None => None
         end
  end.

(** The longest prefix of digits and the rest. *)
Fixpoint span_digits (s : string) : string * string :=
  match s with
  | String c rest =>
      if is_digit c then let '(ds, r) := span_digits rest in (String c ds, r)
      else (EmptyString, s)
  | EmptyString => (EmptyString, EmptyString)
  end.

(** ** JSON strings *)

(** Validity of a UTF-8 sequence starting with the given bytes. *)
Definition cont (b : ascii) : bool := (128 <=? code b) && (code b <=? 191).
Definition utf8_2 (b1 b2 : ascii) : bool :=
  (194 <=? code b1) && (code b1 <=? 223) && cont b2.
Definition utf8_3 (b1 b2 b3 : ascii) : bool :=
  (224 <=? code b1) && (code b1 <=? 239) && cont b2 && cont b3
  && (if code b1 =? 224 then 160 <=? code b2 else true)
  && (if code b1 =? 237 then code b2 <=? 159 else true).
Definition utf8_4 (b1 b2 b3 b4 : ascii) : bool :=
  (240 <=? code b1) && (code b1 <=? 244) && cont b2 && cont b3 && cont b4
  && (if code b1 =? 240 then 144 <=? code b2 else true)
  && (if code b1 =? 244 then code b2 <=? 143 else true).

Definition hex_digit (z : Z) : ascii := ch (if z <? 10 then 48 + z else 87 + z).
Definition backslash : ascii := ch 92.
Definition dquote : ascii := ch 34.

(** [\u00XX] for a byte. *)
Definition u_escape (z : Z) : string :=
  String backslash (String "u" (String "0" (String "0"
    (String (hex_digit (z / 16)) (String (hex_digit (z mod 16)) ""))))).
Definition u_fffd : string := String backslash "ufffd".

(** encoding/json [appendString] on one ASCII byte, with HTML escaping. *)
Definition json_ascii (b : ascii) : string :=
  if (code b =? 34) || (code b =? 92) then String backslash (String b "")
  else if code b =? 8 then String backslash "b"
  else if code b =? 12 then String backslash "f"
  else if code b =? 10 then String backslash "n"
  else if code b =? 13 then String backslash "r"
  else if code b =? 9 then String backslash "t"
  else if (code b <? 32) || (code b =? 60) || (code b =? 62) || (code b =? 38)
  then u_escape (code b)
  else String b "".

(** U+2028 and U+2029 are escaped, invalid bytes become the text [\ufffd]. *)
Fixpoint json_body (s : string) : string :=
  match s with
  | EmptyString => EmptyString
  | String b1 r1 =>
      if code b1 <? 128 then json_ascii b1 +:+ json_body r1
      else match r1 with
      | EmptyString => u_fffd
      | String b2 r2 =>
          if utf8_2 b1 b2 then String b1 (String b2 (json_body r2))
          else match r2 with
          | EmptyString => u_fffd +:+ json_body r1
          | String b3 r3 =>
              if utf8_3 b1 b2 b3 then
                (if (code b1 =? 226) && (code b2 =? 128) && (code b3 =? 168)
                 then String backslash "u2028"
                 else if (code b1 =? 226) && (code b2 =? 128) && (code b3 =? 169)
                 then String backslash "u2029"
                 else String b1 (String b2 (String b3 ""))) +:+ json_body r3
              else match r3 with
              | EmptyString => u_fffd +:+ json_body r1
              | String b4 r4 =>
                  if utf8_4 b1 b2 b3 b4
                  then String b1 (String b2 (String b3 (String b4 (json_body r4))))
                  else u_fffd +:+ json_body r1
              end
          end
      end
  end.

Definition json_string (s : string) : string :=
  String dquote (json_body s +:+ String dquote "").

(** ** [json.Marshal] of a [map[string]uint64]: keys in byte order *)

#[global] Instance string_pair_le_dec :
  RelDecision (λ x y : string * Z, String.le x.1 y.1).
Proof. intros x y. apply _. Defined.

Definition sorted_entries (m : gmap string Z) : list (string * Z) :=
  merge_sort (λ x y, String.le x.1 y.1) (map_to_list m).

Definition json_entry (kv : string * Z) : string :=
  json_string kv.1 +:+ String ":" (format_uint kv.2).

Fixpoint json_entries (l : list (string * Z)) : string :=
  match l with
  | [] => ""
  | [kv] => json_entry kv
  | kv :: rest => json_entry kv +:+ String "," (json_entries rest)
  end.

Definition json_marshal_map (m : gomap Z) : string :=
  match m with
  | None => "null"
  | Some m => String "{" (json_entries (sorted_entries m) +:+ "}")
  end.

(** [bytes.Compare]. *)
Definition bytes_compare (a b : string) : Z :=
  match String.compare a b with Lt => -1 | Eq => 0 | Gt => 1 end.

Example json_ex1 : json_marshal_map (Some (list_to_map [("node-2", 3); ("node-1", 5)]))
  = "{" +:+ json_string "node-1" +:+ ":5," +:+ json_string "node-2" +:+ ":3}".
Proof. vm_compute. reflexivity. Qed.

(** ** [json.Unmarshal] into [uint64] and [map[string]uint64]

    Only the accepted inputs matter to the callers: every other input gives an
    error and the target is dropped. *)

Definition json_ws (c : ascii) : bool :=
  (code c =? 32) || (code c =? 9) || (code c =? 10) || (code c =? 13).
Fixpoint skip_ws (s : string) : string :=
  match s with
  | String c rest => if json_ws c then skip_ws rest else s
  | EmptyString => s
  end.

(** [literal p s]: the rest of [s] after the literal [p]. *)
Fixpoint literal (p s : string) : option string :=
  match p, s with
  | EmptyString, _ => Some s
  | String a p', String b s' => if Ascii.eqb a b then literal p' s' else None
  | _, _ => None
  end.

(** A value for a [uint64] target: an unsigned decimal number without leading
    zeros, fraction or exponent, or [null], which leaves 0. *)
Definition json_uint (s : string) : option (Z * string) :=
  match literal "null" s with
  | Some rest => Some (0, rest)
  | None =>
      let '(ds, rest) := span_digits s in
      match ds with
      | String c (String _ _) => if code c =? 48 then None
                                 else z ← parse_uint ds; Some (z, rest)
      | _ => z ← parse_uint ds; Some (z, rest)
      end
  end.

Definition json_unmarshal_uint (data : string) : option Z :=
  match json_uint (skip_ws data) with
  | Some (z, rest) => if bool_decide (skip_ws rest = "") then Some z else None
  | None => None
  end.

Definition hex_val (c : ascii) : option Z :=
  let z := code c in
  if (48 <=? z) && (z <=? 57) then Some (z - 48)
  else if (97 <=? z) && (z <=? 102) then Some (z - 87)
  else if (65 <=? z) && (z <=? 70) then Some (z - 55)
  else None.

(** The four hex digits after [\u]. *)
Definition hex4 (s : string) : option (Z * string) :=
  match s with
  | String a (String b (String c (String d rest))) =>
      x ← hex_val a; y ← hex_val b; z ← hex_val c; w ← hex_val d;
      Some (((x * 16 + y) * 16 + z) * 16 + w, rest)
  | _ => None
  end.

(** utf8.EncodeRune; surrogate halves become U+FFFD. *)
Definition encode_rune (r : Z) : string :=
  if r <? 128 then String (ch r) ""
  else if r <? 2048 then String (ch (192 + r / 64)) (String (ch (128 + r mod 64)) "")
  else
    let r := if (55296 <=? r) && (r <=? 57343) then 65533 else r in
    if r <? 65536 then
      String (ch (224 + r / 4096))
        (String (ch (128 + (r / 64) mod 64)) (String (ch (128 + r mod 64)) ""))
    else String (ch (240 + r / 262144))
           (String (ch (128 + (r / 4096) mod 64))
              (String (ch (128 + (r / 64) mod 64)) (String (ch (128 + r mod 64)) ""))).

(** A [\u] escape: a surrogate pair is joined when its second half follows. *)
Definition unicode_escape (s : string) : option (string * string) :=
  '(r, rest) ← hex4 s;
  if (55296 <=? r) && (r <=? 56319) then
    match literal (String backslash "u") rest with
    | Some rest2 =>
        match hex4 rest2 with
        | Some (r2, rest3) =>
            if (56320 <=? r2) && (r2 <=? 57343)
            then Some (encode_rune (65536 + (r - 55296) * 1024 + (r2 - 56320)), rest3)
            else Some (encode_rune 65533, rest)
        | None => Some (encode_rune 65533, rest)
        end
    | None => Some (encode_rune 65533, rest)
    end
  else Some (encode_rune r, rest).

Definition simple_escape (c : ascii) : option ascii :=
  let z := code c in
  if (z =? 34) || (z =? 92) || (z =? 47) then Some c
  else if z =? 98 then Some (ch 8) else if z =? 102 then Some (ch 12)
  else if z =? 110 then Some (ch 10) else if z =? 114 then Some (ch 13)
  else if z =? 116 then Some (ch 9) else None.

(** The rest of a JSON string after its opening quote: decoded bytes and what
    follows the closing quote.  Fuel bounds the number of steps. *)
Fixpoint json_unquote (fuel : nat) (s : string) : option (string * string) :=
  match fuel, s with
  | S f, String b1 r1 =>
      if code b1 =? 34 then Some ("", r1)
      else if code b1 =? 92 then
        match r1 with
        | String c r2 =>
            if code c =? 117 then
              '(u, rest) ← unicode_escape r2;
              '(t, out) ← json_unquote f rest; Some (u +:+ t, out)
            else
              e ← simple_escape c;
              '(t, out) ← json_unquote f r2; Some (String e t, out)
        | EmptyString => None
        end
      else if code b1 <? 32 then None
      else if code b1 <? 128 then
        '(t, out) ← json_unquote f r1; Some (String b1 t, out)
      else
        match r1 with
        | String b2 r2 =>
            if utf8_2 b1 b2 then
              '(t, out) ← json_unquote f r2; Some (String b1 (String b2 t), out)
            else match r2 with
            | String b3 r3 =>
                if utf8_3 b1 b2 b3 then
                  '(t, out) ← json_unquote f r3;
                  Some (String b1 (String b2 (String b3 t)), out)
                else match r3 with
                | String b4 r4 =>
                    if utf8_4 b1 b2 b3 b4 then
                      '(t, out) ← json_unquote f r4;
                      Some (String b1 (String b2 (String b3 (String b4 t))), out)
                    else '(t, out) ← json_unquote f r1; Some (encode_rune 65533 +:+ t, out)
                | EmptyString =>
                    '(t, out) ← json_unquote f r1; Some (encode_rune 65533 +:+ t, out)
                end
            | EmptyString =>
                '(t, out) ← json_unquote f r1; Some (encode_rune 65533 +:+ t, out)
            end
        | EmptyString => None
        end
  | _, _ => None
  end.

(** Members after the opening brace or a comma; a repeated key is overwritten. *)
Fixpoint json_members (fuel : nat) (s : string) (acc : gmap string Z)
    : option (gmap string Z * string) :=
  match fuel with
  | O => None
  | S f =>
      match skip_ws s with
      | String q r =>
          if negb (code q =? 34) then None else
          '(key, r) ← json_unquote (S (String.length r)) r;
          r ← literal ":" (skip_ws r);
          '(v, r) ← json_uint (skip_ws r);
          let acc := <[key := v]> acc in
          match skip_ws r with
          | String c r =>
              if code c =? 44 then json_members f r acc
              else if code c =? 125 then Some (acc, r) else None
          | EmptyString => None
          end
      | EmptyString => None
      end
  end.

(** [json.Unmarshal(data, &m)] for a [map[string]uint64] holding [m0]: [null]
    makes it nil, an object adds its members. *)
Definition json_unmarshal_map (data : string) (m0 : gmap string Z) : option (gomap Z) :=
  let s := skip_ws data in
  match literal "null" s with
  | Some rest => if bool_decide (skip_ws rest = "") then Some None else None
  | None =>
      r ← literal "{" s;
      '(m, rest) ← match literal "}" (skip_ws r) with
                   | Some rest => Some (m0, rest)
                   | None => json_members (S (String.length r)) r m0
                   end;
      if bool_decide (skip_ws rest = "") then Some (Some m) else None
  end.

Example json_ex2 :
  json_unmarshal_map (json_marshal_map (Some (list_to_map [("b<é", 18446744073709551615); ("a", 5)]))) ∅
  = Some (Some (list_to_map [("b<é", 18446744073709551615); ("a", 5)])).
Proof. vm_compute. reflexivity. Qed.
Example json_ex3 : json_unmarshal_map "null" ∅ = Some None.
Proof. vm_compute. reflexivity. Qed.
Example json_ex4 : json_unmarshal_map ("{" +:+ json_string "a" +:+ ": 1.5}") ∅ = None.
Proof. vm_compute. reflexivity. Qed.

(** ** Unsigned varints (encoding/binary.PutUvarint) *)

Fixpoint put_uvarint (fuel : nat) (x : Z) : list Z :=
  match fuel with
  | O => []
  | S f => if x <? 128 then [x] else Z.lor (Z.land x 127) 128 :: put_uvarint f (Z.shiftr x 7)
  end.

(** The inverse read: base-128 digits, least significant first. *)
Fixpoint get_uvarint (bs : list Z) : option (Z * list Z) :=
  match bs with
  | [] => None
  | b :: rest =>
      if b <? 128 then Some (b, rest)
      else '(hi, out) ← get_uvarint rest; Some (Z.land b 127 + Z.shiftl hi 7, out)
  end.

(** ** Lemmas *)

Lemma code_ch z : 0 ≤ z < 256 → code (ch z) = z.
Proof.
  intros H. unfold code, ch. rewrite N_ascii_embedding; [lia|].
  apply N2Z.inj_lt. rewrite Z2N.id by lia. simpl. lia.
Qed.
Lemma is_digit_digit d : 0 ≤ d < 10 → is_digit (digit d) = true.
Proof. intros H. unfold is_digit, digit. rewrite code_ch by lia. apply andb_true_iff; lia. Qed.
Lemma digit_val_digit d : 0 ≤ d < 10 → digit_val (digit d) = d.
Proof. intros H. unfold digit_val, digit. rewrite code_ch by lia. lia. Qed.

(** Reading the digits of [n] shifts the accumulator past them. *)
Lemma parse_format_go fuel n acc :
  0 ≤ n < 10 ^ Z.of_nat (S fuel) →
  ∃ k, ∀ a, parse_digits (format_go (S fuel) n acc) a = parse_digits acc (a * 10 ^ k + n).
Proof.
  revert n acc. induction fuel as [|f IH]; intros n acc Hn.
  - exists 1. intros a. cbn [format_go]. change (10 ^ Z.of_nat 1) with 10 in Hn.
    rewrite (Z.mod_small n 10) by lia. replace (n <? 10) with true by lia.
    cbn [parse_digits]. rewrite is_digit_digit, digit_val_digit by lia. f_equal. lia.
  - rewrite Nat2Z.inj_succ, Z.pow_succ_r in Hn by lia.
    pose proof (Z.mod_pos_bound n 10 ltac:(lia)) as Hm.
    pose proof (Z.div_mod n 10 ltac:(lia)) as Hdm.
    cbn [format_go]. destruct (n <? 10) eqn:Hlt; zbool.
    + exists 1. intros a. cbn [parse_digits].
      rewrite is_digit_digit, digit_val_digit by lia. f_equal.
      rewrite (Z.mod_small n 10) by lia. lia.
    + destruct (IH (n / 10) (String (digit (n mod 10)) acc)) as [k Hk].
      { split; [apply Z.div_pos; lia|]. apply Z.div_lt_upper_bound; lia. }
      destruct (decide (0 ≤ k)) as [Hk0|Hk0].
      * exists (k + 1). intros a. cbn [format_go] in Hk. rewrite Hk. cbn [parse_digits].
        rewrite is_digit_digit, digit_val_digit by lia. f_equal.
        rewrite Z.pow_add_r by lia. lia.
      * exists k. intros a. cbn [format_go] in Hk. rewrite Hk. cbn [parse_digits].
        rewrite is_digit_digit, digit_val_digit by lia. f_equal.
        rewrite (Z.pow_neg_r 10 k) by lia. lia.
Qed.

Lemma format_go_cons fuel n acc :
  ∃ c rest, format_go (S fuel) n acc = String c rest.
Proof.
  revert n acc. induction fuel as [|f IH]; intros n acc.
  - cbn. case_match; eauto.
  - cbn [format_go]. case_match; [eauto|]. apply IH.
Qed.

Lemma parse_format_uint n : is_u64 n → parse_uint (format_uint n) = Some n.
Proof.
  intros Hn. unfold is_u64, u64_modulus in Hn. unfold parse_uint, format_uint.
  destruct (parse_format_go 19 n "") as [k Hk]; [lia|].
  destruct (format_go_cons 19 n "") as (c & rest & Hc).
  rewrite Hk, Hc. cbn [parse_digits]. rewrite Z.mul_0_l, Z.add_0_l.
  unfold u64_modulus. by replace (n <? 2 ^ 64) with true by lia.
Qed.

Lemma format_uint_inj n m : is_u64 n → is_u64 m → format_uint n = format_uint m → n = m.
Proof.
  intros Hn Hm H. apply parse_format_uint in Hn, Hm. congruence.
Qed.

Lemma byte_bits y :
  0 ≤ y < 128 → Z.lor y 128 = y + 128 ∧ Z.land (y + 128) 127 = y.
Proof.
  intros Hy.
  assert (forallb (λ n, (Z.lor (Z.of_nat n) 128 =? Z.of_nat n + 128)
                        && (Z.land (Z.of_nat n + 128) 127 =? Z.of_nat n)) (seq 0 128) = true)
    as Hall by (vm_compute; reflexivity).
  rewrite forallb_forall in Hall. specialize (Hall (Z.to_nat y)).
  rewrite Z2Nat.id in Hall by lia. rewrite andb_true_iff, !Z.eqb_eq in Hall. apply Hall.
  apply in_seq. lia.
Qed.

Lemma put_uvarint_S f x :
  put_uvarint (S f) x =
    if x <? 128 then [x] else Z.lor (Z.land x 127) 128 :: put_uvarint f (Z.shiftr x 7).
Proof. done. Qed.

Lemma get_put_uvarint fuel x rest :
  0 ≤ x < 2 ^ (7 * Z.of_nat (S fuel)) →
  get_uvarint (put_uvarint (S fuel) x ++ rest) = Some (x, rest)
  ∧ (1 ≤ length (put_uvarint (S fuel) x) ≤ S fuel)%nat.
Proof.
  revert x. induction fuel as [|f IH]; intros x Hx.
  - change (2 ^ _) with 128 in Hx. cbn [put_uvarint].
    replace (x <? 128) with true by lia. cbn. replace (x <? 128) with true by lia.
    split; [done|lia].
  - rewrite put_uvarint_S. destruct (x <? 128) eqn:Hlt.
    { cbn. rewrite Hlt. split; [done|lia]. }
    zbool. change 127 with (Z.ones 7). rewrite Z.land_ones by lia. change (2 ^ 7) with 128.
    pose proof (Z.mod_pos_bound x 128 ltac:(lia)) as Hm.
    pose proof (Z.div_mod x 128 ltac:(lia)) as Hdm.
    destruct (byte_bits (x mod 128) Hm) as [-> Hland].
    rewrite Z.shiftr_div_pow2 by lia. change (2 ^ 7) with 128.
    destruct (IH (x / 128)) as [IHg IHl].
    { split; [apply Z.div_pos; lia|]. apply Z.div_lt_upper_bound; [lia|].
      replace (2 ^ (7 * Z.of_nat (S (S f)))) with (128 * 2 ^ (7 * Z.of_nat (S f))) in Hx; [lia|].
      change 128 with (2 ^ 7) at 1. rewrite <-Z.pow_add_r by lia. f_equal. lia. }
    remember (put_uvarint (S f) (x / 128)) as tail.
    rewrite <-app_comm_cons. cbn [get_uvarint].
    replace (x mod 128 + 128 <? 128) with false by lia.
    rewrite IHg. cbn. rewrite Hland, Z.shiftl_mul_pow2 by lia.
    change (2 ^ 7) with 128. split; [do 2 f_equal; lia|]. cbn. lia.
Qed.

(** A formatted number is a plain run of digits without a leading zero. *)
Fixpoint all_digits (s : string) : bool :=
  match s with
  | EmptyString => true
  | String c rest => is_digit c && all_digits rest
  end.

Lemma span_all_digits s : all_digits s = true → span_digits s = (s, "").
Proof.
  induction s as [|c s IH]; cbn; [done|]. intros [-> H]%andb_true_iff. by rewrite IH.
Qed.

Lemma format_go_all_digits fuel n acc :
  all_digits acc = true → all_digits (format_go fuel n acc) = true.
Proof.
  revert n acc. induction fuel as [|f IH]; intros n acc Hacc; [done|].
  pose proof (Z.mod_pos_bound n 10 ltac:(lia)) as Hm. cbn [format_go].
  assert (all_digits (String (digit (n mod 10)) acc) = true) as Hd.
  { cbn [all_digits]. by rewrite is_digit_digit. }
  case_match; [done|]. by apply IH.
Qed.

Lemma format_go_lead fuel n acc :
  0 < n < 10 ^ Z.of_nat (S fuel) →
  ∃ c rest, format_go (S fuel) n acc = String c rest ∧ code c ≠ 48.
Proof.
  revert n acc. induction fuel as [|f IH]; intros n acc Hn.
  - change (10 ^ _) with 10 in Hn. cbn [format_go]. replace (n <? 10) with true by lia.
    do 2 eexists. split; [done|]. unfold digit. rewrite Z.mod_small, code_ch by lia. lia.
  - rewrite Nat2Z.inj_succ, Z.pow_succ_r in Hn by lia. cbn [format_go].
    destruct (n <? 10) eqn:Hlt; zbool.
    + do 2 eexists. split; [done|]. unfold digit. rewrite Z.mod_small, code_ch by lia. lia.
    + apply (IH (n / 10)). split; [apply Z.div_str_pos; lia|]. apply Z.div_lt_upper_bound; lia.
Qed.

Lemma literal_digit c s : is_digit c = true → literal "null" (String c s) = None.
Proof.
  intros H.
  change (literal "null" (String c s))
    with (if Ascii.eqb "n"%char c then literal "ull" s else None).
  destruct (Ascii.eqb_spec "n"%char c) as [<-|]; [by vm_compute in H|done].
Qed.

Lemma json_ws_digit c : is_digit c = true → json_ws c = false.
Proof.
  unfold is_digit, json_ws. intros [? ?]%andb_true_iff. zbool.
  repeat (apply orb_false_iff; split); apply Z.eqb_neq; lia.
Qed.

Lemma json_unmarshal_format_uint n :
  is_u64 n → json_unmarshal_uint (format_uint n) = Some n.
Proof.
  intros Hn. pose proof (parse_format_uint n Hn) as Hp.
  assert (all_digits (format_uint n) = true) as Hall by by apply format_go_all_digits.
  pose proof (span_all_digits _ Hall) as Hspan.
  unfold json_unmarshal_uint, json_uint.
  destruct (format_uint n) as [|c rest] eqn:E.
  { destruct (format_go_cons 19 n "") as (? & ? & E'). unfold format_uint in E. congruence. }
  pose proof Hall as [Hc _]%andb_true_iff.
  cbn [skip_ws]. rewrite (json_ws_digit c Hc), literal_digit, Hspan by done.
  destruct rest as [|c2 rest]; [by rewrite Hp|].
  replace (code c =? 48) with false; [by rewrite Hp|]. symmetry. apply Z.eqb_neq.
  destruct (decide (n = 0)) as [->|Hnz]; [by vm_compute in E|].
  unfold is_u64, u64_modulus in Hn.
  destruct (format_go_lead 19 n "") as (c' & r' & Hl & Hne); [lia|].
  unfold format_uint in E. congruence.
Qed.
