(* ===== verification/Text.v ===== *)
(** * Text functions of the standard library (strings, time)

    What configuration and transports use of [strings] on their inputs, and the
    text of durations. *)
From S2P Require Import Prelude Json.
From stdpp Require Import options.

(** ** strings *)
(** [strings.ToLower] as far as a comparison with ASCII text can tell: besides
    the ASCII letters only U+0130 and U+212A lower to ASCII (i and k). *)
Definition lower_ascii (c : Ascii.ascii) : Ascii.ascii :=
  if (65 <=? code c) && (code c <=? 90) then ch (code c + 32) else c.
Fixpoint ToLower (s : string) : string :=
  match s with
  | EmptyString => EmptyString
  | String a r =>
      match r with
      | String b r' =>
          if (code a =? 196) && (code b =? 176) then String (ch 105) (ToLower r')
          else match r' with
               | String c r'' =>
                   if (code a =? 226) && (code b =? 132) && (code c =? 170)
                   then String (ch 107) (ToLower r'') else String (lower_ascii a) (ToLower r)
               | EmptyString => String (lower_ascii a) (ToLower r)
               end
      | EmptyString => String (lower_ascii a) EmptyString
      end
  end.
Fixpoint HasPrefix (s p : string) : bool :=
  match p, s with
  | EmptyString, _ => true
  | String a p, String b s => bool_decide (a = b) && HasPrefix s p
  | _, _ => false
  end.
Fixpoint Contains (s sub : string) : bool :=
  HasPrefix s sub || match s with EmptyString => false | String _ r => Contains r sub end.
(** [strings.TrimSpace], for the ASCII white space that headers can hold. *)
Definition is_space (c : Ascii.ascii) : bool := (code c =? 32) || ((9 <=? code c) && (code c <=? 13)).
Fixpoint trim_left (s : string) : string :=
  match s with String c r => if is_space c then trim_left r else s | EmptyString => s end.
Fixpoint trim_right (s : string) : string :=
  match s with
  | EmptyString => EmptyString
  | String c r => match trim_right r with
                  | EmptyString => if is_space c then EmptyString else String c EmptyString
                  | r' => String c r'
                  end
  end.
Definition TrimSpace (s : string) : string := trim_right (trim_left s).
Example contains_ex : Contains "deflate, gzip;q=1" "gzip" = true.
Proof. reflexivity. Qed.
Example trim_ex : TrimSpace "  a b " = "a b".
Proof. reflexivity. Qed.

(** ** Durations as text ([time.Duration.String]) *)

(** The lowest [prec] digits of [v] after a point, without trailing zeros, in
    front of [acc]; and the rest of [v]. *)
Fixpoint frac_digits (prec : nat) (v : Z) (print : bool) (acc : string) : bool * string * Z :=
  match prec with
  | O => (print, acc, v)
  | S prec =>
      let d := v mod 10 in
      let print := print || negb (d =? 0) in
      frac_digits prec (v / 10) print (if print then String (digit d) acc else acc)
  end.
Definition fmt_frac (prec : nat) (v : Z) (acc : string) : string * Z :=
  let '(print, s, v) := frac_digits prec v false acc in
  (if print then "." +:+ s else s, v).
Definition micro_sign : string := String (ch 194) (String (ch 181) "").
Definition duration_text (u : Z) : string :=
  if u =? 0 then "0s"
  else if u <? 1000 then format_uint u +:+ "ns"
  else if u <? 1000000 then
    let '(s, v) := fmt_frac 3 u (micro_sign +:+ "s") in format_uint v +:+ s
  else if u <? 1000000000 then let '(s, v) := fmt_frac 6 u "ms" in format_uint v +:+ s
  else
    let '(s, v) := fmt_frac 9 u "s" in
    let secs := format_uint (v mod 60) +:+ s in
    let minutes := v / 60 in
    if minutes =? 0 then secs
    else
      let mins := format_uint (minutes mod 60) +:+ "m" +:+ secs in
      let hours := minutes / 60 in
      if hours =? 0 then mins else format_uint hours +:+ "h" +:+ mins.
Definition duration_String (d : Z) : string :=
  if d <? 0 then "-" +:+ duration_text (- d) else duration_text d.
Example duration_ex1 : duration_String (90 * 1000000000) = "1m30s".
Proof. reflexivity. Qed.
Example duration_ex2 : duration_String (150 * 1000000) = "150ms".
Proof. reflexivity. Qed.
Example duration_ex3 : duration_String (- 3661500 * 1000000) = "-1h1m1.5s".
Proof. reflexivity. Qed.

