(* ===== verification/VectorClock.v ===== *)
(** * Vector clocks (src/version/vector_clock.go)

    The clock map with its limits, increment, merge, comparison and equality.
    The comparison is proved to be the standard causal order, merge its least
    upper bound. *)
From S2P Require Import Prelude Types.
From stdpp Require Import options.

Definition MaxNodeIDLength : nat := 255.
Definition MaxNodes : nat := 1000.
Arguments MaxNodeIDLength : simpl never.
Arguments MaxNodes : simpl never.

(** A read of a missing key gives 0. *)
Definition clock_at (m : gmap string Z) (k : string) : Z := default 0 (m !! k).

(** [vc.clocks[k] = v]: a write to a nil map panics. *)
Definition set_clock (vc : VectorClock) (k : string) (v : Z) : outcome VectorClock :=
  match clocks vc with
  | Some m => Done (mkVectorClock (Some (<[k := v]> m)))
  | None => Panic "assignment to entry in nil map"
  end.

Definition NewVectorClock : VectorClock := mkVectorClock (Some ∅).

Section operations.
Context {MR : MapRange}.

Definition NewVectorClockFromMap (m : gomap Z) : VectorClock :=
  mkVectorClock (Some (copy_map (range (map_of m)))).

Definition Clone (vc : VectorClock) : VectorClock :=
  mkVectorClock (Some (copy_map (range (map_of (clocks vc))))).

Definition GetAllClocks (vc : VectorClock) : gmap string Z :=
  copy_map (range (map_of (clocks vc))).

Definition GetClock (vc : VectorClock) (nodeID : string) : Z :=
  clock_at (map_of (clocks vc)) nodeID.

Definition Size (vc : VectorClock) : nat := size (map_of (clocks vc)).

Definition IsZero (vc : VectorClock) : bool := Nat.eqb (Size vc) 0.

Definition Increment (nodeID : string) (vc : VectorClock)
    : outcome (VectorClock * option error) :=
  if bool_decide (nodeID = "") then
    Done (vc, Some (ErrMsg "node ID cannot be empty"))
  else if Nat.ltb MaxNodeIDLength (String.length nodeID) then
    Done (vc, Some (ErrMsg "node ID length exceeds maximum of 255 characters"))
  else if bool_decide (map_of (clocks vc) !! nodeID = None)
          && Nat.leb MaxNodes (Size vc) then
    Done (vc, Some (ErrMsg "cannot track more than 1000 nodes"))
  else
    let* vc' := set_clock vc nodeID (u64 (GetClock vc nodeID + 1)) in
    Done (vc', None).

(** First loop of [Merge]: length check and count of the new nodes. *)
Fixpoint merge_scan (vc : VectorClock) (entries : list (string * Z))
    (newNodeCount : nat) : result error nat :=
  match entries with
  | [] => Ok newNodeCount
  | (nodeID, _) :: rest =>
      if Nat.ltb MaxNodeIDLength (String.length nodeID) then
        Err (ErrMsg "other clock contains node ID exceeding maximum length of 255")
      else if bool_decide (map_of (clocks vc) !! nodeID = None)
      then merge_scan vc rest (S newNodeCount)
      else merge_scan vc rest newNodeCount
  end.

(** Second loop of [Merge]. *)
Fixpoint merge_apply (vc : VectorClock) (entries : list (string * Z))
    : outcome VectorClock :=
  match entries with
  | [] => Done vc
  | (nodeID, otherClock) :: rest =>
      match map_of (clocks vc) !! nodeID with
      | Some currentClock =>
          if currentClock <? otherClock
          then let* vc' := set_clock vc nodeID otherClock in merge_apply vc' rest
          else merge_apply vc rest
      | None => let* vc' := set_clock vc nodeID otherClock in merge_apply vc' rest
      end
  end.

Definition Merge (other : option VectorClock) (vc : VectorClock)
    : outcome (VectorClock * option error) :=
  match other with
  | None => Done (vc, None)
  | Some o =>
      match merge_scan vc (range (map_of (clocks o))) 0 with
      | Err e => Done (vc, Some e)
      | Ok newNodeCount =>
          if Nat.ltb MaxNodes (Size vc + newNodeCount) then
            Done (vc, Some (ErrMsg "merging would exceed maximum of 1000 nodes"))
          else
            let* vc' := merge_apply vc (range (map_of (clocks o))) in
            Done (vc', None)
      end
  end.

(** The key set [allNodes] of [Compare], built by two loops. *)
Definition all_nodes (a b : gmap string Z) : gmap string bool :=
  fold_left (λ acc kv, <[kv.1 := true]> acc) (range b)
    (fold_left (λ acc kv, <[kv.1 := true]> acc) (range a) ∅).

(** The comparison loop: the two [HappenedBefore] flags. *)
Fixpoint compare_loop (a b : gmap string Z) (nodes : list (string * bool))
    (thisBefore otherBefore : bool) : bool * bool :=
  match nodes with
  | [] => (thisBefore, otherBefore)
  | (nodeID, _) :: rest =>
      if clock_at a nodeID <? clock_at b nodeID then
        compare_loop a b rest true otherBefore
      else if clock_at b nodeID <? clock_at a nodeID then
        compare_loop a b rest thisBefore true
      else compare_loop a b rest thisBefore otherBefore
  end.

Definition compare_clocks (a b : gmap string Z) : Z :=
  match compare_loop a b (range (all_nodes a b)) false false with
  | (true, false) => -1
  | (false, true) => 1
  | _ => 0
  end.

(** [(vc *VectorClock) Compare(other types.Version)]. *)
Definition Compare (vc : option VectorClock) (other : option Version) : outcome Z :=
  match other with
  | Some (VectorClockV None) =>
      let* this := deref vc in
      Done (if IsZero this then 0 else 1)
  | Some (VectorClockV (Some o)) =>
      let* this := deref vc in
      Done (compare_clocks (map_of (clocks this)) (map_of (clocks o)))
  | _ => Done 0
  end.

(** The loop of [IsEqual], returning at the first difference. *)
Fixpoint equal_loop (other : gmap string Z) (entries : list (string * Z)) : bool :=
  match entries with
  | [] => true
  | (nodeID, clockValue) :: rest =>
      if clock_at other nodeID =? clockValue then equal_loop other rest else false
  end.

Definition IsEqual (vc : VectorClock) (other : option VectorClock) : bool :=
  match other with
  | None => IsZero vc
  | Some o =>
      if negb (Nat.eqb (Size vc) (Size o)) then false
      else equal_loop (map_of (clocks o)) (range (map_of (clocks vc)))
  end.

Definition HappenedBefore (vc : VectorClock) (other : option VectorClock) : outcome bool :=
  let* c := Compare (Some vc) (Some (VectorClockV other)) in Done (c =? -1).
Definition HappenedAfter (vc : VectorClock) (other : option VectorClock) : outcome bool :=
  let* c := Compare (Some vc) (Some (VectorClockV other)) in Done (c =? 1).
Definition IsConcurrentWith (vc : VectorClock) (other : option VectorClock) : outcome bool :=
  let* c := Compare (Some vc) (Some (VectorClockV other)) in
  Done ((c =? 0) && negb (IsEqual vc other)).
End operations.

(** ** The causal order *)

Definition vc_le (a b : gmap string Z) : Prop := ∀ k, clock_at a k ≤ clock_at b k.
Definition vc_lt (a b : gmap string Z) : Prop :=
  vc_le a b ∧ ∃ k, clock_at a k < clock_at b k.
(** Clocks that agree at every node, a missing node counting as 0. *)
Definition vc_equiv (a b : gmap string Z) : Prop := ∀ k, clock_at a k = clock_at b k.

#[global] Instance vc_le_preorder : PreOrder vc_le.
Proof. split; [intros a k; lia|]. intros a b c H1 H2 k. specialize (H1 k); specialize (H2 k); lia. Qed.
#[global] Instance vc_lt_irrefl : Irreflexive vc_lt.
Proof. intros a [_ [k Hk]]. lia. Qed.
#[global] Instance vc_lt_trans : Transitive vc_lt.
Proof.
  intros a b c [H1 [k Hk]] [H2 _]. split; [by etrans|].
  exists k. specialize (H2 k). lia.
Qed.
#[global] Instance vc_equiv_equivalence : Equivalence vc_equiv.
Proof.
  split; [done|by intros a b H k|].
  intros a b c H1 H2 k. by rewrite H1.
Qed.
#[global] Instance vc_le_proper : Proper (vc_equiv ==> vc_equiv ==> iff) vc_le.
Proof.
  intros a a' Ha b b' Hb; split; intros H k; specialize (H k);
    [rewrite <-Ha, <-Hb|rewrite Ha, Hb]; done.
Qed.
#[global] Instance vc_lt_proper : Proper (vc_equiv ==> vc_equiv ==> iff) vc_lt.
Proof.
  intros a a' Ha b b' Hb. unfold vc_lt. rewrite Ha, Hb.
  split; intros [? [k Hk]]; (split; [done|]); exists k;
    [rewrite <-Ha, <-Hb|rewrite Ha, Hb]; done.
Qed.

(** ** Lemmas on the loops *)

Lemma clock_at_insert m k v j :
  clock_at (<[k := v]> m) j = if decide (k = j) then v else clock_at m j.
Proof. unfold clock_at. rewrite lookup_insert. by case_decide. Qed.

Lemma fold_insert_key_lookup {V} (l : list (string * V)) (acc : gmap string bool) k :
  fold_left (λ acc kv, <[kv.1 := true]> acc) l acc !! k =
    if decide (k ∈ l.*1) then Some true else acc !! k.
Proof.
  revert acc; induction l as [|[k' v'] l IH]; intros acc.
  { by rewrite decide_False by (cbn; set_solver). }
  cbn [fold_left fst]. rewrite IH, lookup_insert, fmap_cons. cbn [fst].
  destruct (decide (k' = k)) as [->|].
  - rewrite (decide_True (P := k ∈ k :: _)) by set_solver. by case_decide.
  - destruct (decide (k ∈ l.*1)) as [Hin|Hin].
    + by rewrite decide_True by (by apply elem_of_cons; right).
    + by rewrite decide_False by (rewrite elem_of_cons; naive_solver).
Qed.

Section lemmas.
Context {MR : MapRange}.
Implicit Types a b m : gmap string Z.

Lemma elem_of_all_nodes a b k :
  (∃ x, (k, x) ∈ range (all_nodes a b)) ↔ is_Some (a !! k) ∨ is_Some (b !! k).
Proof.
  assert (∀ m : gmap string Z, k ∈ (range m).*1 ↔ is_Some (m !! k)) as Hd.
  { intros m. rewrite list_elem_of_fmap. split.
    - intros ([k' v] & -> & Hv%elem_of_range). by eexists.
    - intros [v Hv]. exists (k, v). by rewrite elem_of_range. }
  transitivity (is_Some (all_nodes a b !! k)).
  { split; [intros [x Hx%elem_of_range]; by eexists|].
    intros [x Hx]. exists x. by rewrite elem_of_range. }
  unfold all_nodes. rewrite !fold_insert_key_lookup, lookup_empty, <-!Hd.
  repeat case_decide; rewrite ?is_Some_alt; naive_solver.
Qed.

(** The flags say whether some visited node is behind, resp. ahead. *)
Lemma compare_loop_spec a b nodes tb ob :
  compare_loop a b nodes tb ob =
    (tb || existsb (λ kx, clock_at a kx.1 <? clock_at b kx.1) nodes,
     ob || existsb (λ kx, clock_at b kx.1 <? clock_at a kx.1) nodes).
Proof.
  revert tb ob; induction nodes as [|[k x] nodes IH]; intros tb ob; simpl.
  - by rewrite !orb_false_r.
  - destruct (clock_at a k <? clock_at b k) eqn:H1;
    destruct (clock_at b k <? clock_at a k) eqn:H2; rewrite IH; simpl;
      zbool; try lia; by rewrite ?orb_true_r.
Qed.

Lemma exists_node_behind a b c d :
  (c = a ∧ d = b ∨ c = b ∧ d = a) →
  existsb (λ kx, clock_at c kx.1 <? clock_at d kx.1) (range (all_nodes a b)) = true
    ↔ ∃ k, clock_at c k < clock_at d k.
Proof.
  intros Hcd. rewrite existsb_exists. split.
  - intros ([k x] & _ & H). zbool. eauto.
  - intros [k Hk].
    assert (is_Some (a !! k) ∨ is_Some (b !! k)) as [x Hx]%elem_of_all_nodes.
    { destruct (a !! k) eqn:Ea, (b !! k) eqn:Eb; eauto.
      exfalso. unfold clock_at in Hk. destruct Hcd as [[-> ->]|[-> ->]];
        rewrite Ea, Eb in Hk; simpl in Hk; lia. }
    exists (k, x). rewrite <-list_elem_of_In. split; [done|]. by apply Z.ltb_lt.
Qed.

(** The two flags of the loop as propositions. *)
Lemma compare_clocks_lt a b : compare_clocks a b = -1 ↔ vc_lt a b.
Proof.
  unfold compare_clocks. rewrite compare_loop_spec, !orb_false_l.
  pose proof (exists_node_behind a b a b ltac:(auto)) as H1.
  pose proof (exists_node_behind a b b a ltac:(auto)) as H2.
  assert (vc_lt a b ↔ (∃ k, clock_at a k < clock_at b k)
                       ∧ ¬ (∃ k, clock_at b k < clock_at a k)) as ->.
  { unfold vc_lt, vc_le. split.
    - intros [Hle Hlt]. split; [done|]. intros [k Hk]. specialize (Hle k). lia.
    - intros [Hlt Hn]. split; [|done]. intros k.
      destruct (Z.le_gt_cases (clock_at a k) (clock_at b k)); [done|].
      exfalso; eauto. }
  rewrite <-H1, <-H2. destruct (existsb _ _), (existsb _ _); naive_solver.
Qed.

Lemma compare_clocks_gt a b : compare_clocks a b = 1 ↔ vc_lt b a.
Proof.
  rewrite <-compare_clocks_lt. unfold compare_clocks.
  rewrite !compare_loop_spec, !orb_false_l.
  pose proof (exists_node_behind a b a b ltac:(auto)) as H1.
  pose proof (exists_node_behind a b b a ltac:(auto)) as H2.
  pose proof (exists_node_behind b a a b ltac:(auto)) as H3.
  pose proof (exists_node_behind b a b a ltac:(auto)) as H4.
  rewrite <-H4 in H2. rewrite <-H3 in H1.
  do 4 destruct (existsb _ _); naive_solver.
Qed.

Lemma compare_clocks_range a b : compare_clocks a b ∈ [-1; 0; 1].
Proof. unfold compare_clocks. repeat case_match; set_solver. Qed.

(** The comparison only looks at the clock values, so it is invariant under
    the pointwise equivalence. *)
#[global] Instance compare_clocks_proper :
  Proper (vc_equiv ==> vc_equiv ==> eq) compare_clocks.
Proof.
  intros a a' Ha b b' Hb.
  pose proof (compare_clocks_lt a b) as L1. pose proof (compare_clocks_lt a' b') as L2.
  pose proof (compare_clocks_gt a b) as G1. pose proof (compare_clocks_gt a' b') as G2.
  rewrite (vc_lt_proper _ _ Ha _ _ Hb), <-L2 in L1.
  rewrite (vc_lt_proper _ _ Hb _ _ Ha), <-G2 in G1.
  pose proof (compare_clocks_range a b) as R1. pose proof (compare_clocks_range a' b') as R2.
  set_unfold. intuition congruence.
Qed.

(** *** Merge *)

Lemma merge_scan_ok vc es n r :
  merge_scan vc es n = Ok r →
  Forall (λ kv, (String.length kv.1 ≤ MaxNodeIDLength)%nat) es
  ∧ r = (n + length (filter (λ kv, map_of (clocks vc) !! kv.1 = None) es))%nat.
Proof.
  revert n; induction es as [|[k v] es IH]; intros n; simpl.
  - intros [= ->]. split; [constructor|]. cbn. lia.
  - destruct (Nat.ltb _ _) eqn:Hl; [done|]. zbool. rewrite filter_cons.
    case_bool_decide as Hk; cbn [fst].
    + rewrite decide_True by done. intros [? ->]%IH. split; [by constructor|]. cbn. lia.
    + rewrite decide_False by done. intros [? ->]%IH. split; [by constructor|]. lia.
Qed.

Lemma merge_scan_err vc es n e :
  merge_scan vc es n = Err e →
  Exists (λ kv, (MaxNodeIDLength < String.length kv.1)%nat) es.
Proof.
  revert n; induction es as [|[k v] es IH]; intros n; simpl; [done|].
  destruct (Nat.ltb _ _) eqn:Hl; zbool; [by left|].
  case_bool_decide; intros ?%IH; by right.
Qed.

(** The value merged at one node. *)
Definition merge_at (cur : option Z) (new : option Z) : option Z :=
  match cur, new with
  | Some c, Some n => Some (if c <? n then n else c)
  | None, n => n
  | c, None => c
  end.

Lemma merge_apply_spec m es :
  NoDup es.*1 →
  ∃ m', merge_apply (mkVectorClock (Some m)) es = Done (mkVectorClock (Some m'))
        ∧ ∀ k, m' !! k = merge_at (m !! k) ((list_to_map es : gmap string Z) !! k).
Proof.
  revert m; induction es as [|[k v] es IH]; intros m Hnd.
  { exists m. split; [done|]. intros k. cbn. rewrite lookup_empty. by destruct (m !! k). }
  rewrite fmap_cons in Hnd. apply NoDup_cons in Hnd as [Hk Hnd].
  setoid_rewrite list_to_map_cons. simpl.
  assert ((list_to_map es : gmap string Z) !! k = None) as Hnone
    by by apply not_elem_of_list_to_map_1.
  destruct (m !! k) as [c|] eqn:Hc; [destruct (c <? v) eqn:Hcv|].
  - destruct (IH (<[k := v]> m) Hnd) as (m' & -> & Hm'). exists m'. split; [done|].
    intros j. rewrite Hm', !lookup_insert. case_decide as Hj; subst; [|done].
    rewrite Hnone, Hc. simpl. by rewrite Hcv.
  - destruct (IH m Hnd) as (m' & -> & Hm'). exists m'. split; [done|].
    intros j. rewrite Hm', lookup_insert. case_decide as Hj; subst; [|done].
    rewrite Hnone, Hc. simpl. by rewrite Hcv.
  - destruct (IH (<[k := v]> m) Hnd) as (m' & -> & Hm'). exists m'. split; [done|].
    intros j. rewrite Hm', !lookup_insert. case_decide as Hj; subst; [|done].
    by rewrite Hnone, Hc.
Qed.
End lemmas.

(** ** Well-formed clocks

    A clock with an allocated map, at most [MaxNodes] nodes, non-empty node ids
    of bounded length and 64-bit counters. *)
Record clock_wf (vc : VectorClock) : Prop := {
  wf_alloc : is_Some (clocks vc);
  wf_size : (size (map_of (clocks vc)) ≤ MaxNodes)%nat;
  wf_entries : map_Forall
    (λ k v, k ≠ "" ∧ (String.length k ≤ MaxNodeIDLength)%nat ∧ is_u64 v)
    (map_of (clocks vc))
}.

Lemma wf_clock_at vc k : clock_wf vc → is_u64 (clock_at (map_of (clocks vc)) k).
Proof.
  intros Hwf. unfold clock_at. destruct (map_of (clocks vc) !! k) eqn:E; simpl.
  - by apply (wf_entries vc Hwf) in E as (_ & _ & ?).
  - unfold is_u64, u64_modulus. lia.
Qed.

Section results.
Context {MR : MapRange}.

Lemma merge_at_Some x y v : merge_at x y = Some v → x = Some v ∨ y = Some v.
Proof. destruct x, y; simpl; repeat case_match; naive_solver. Qed.

Lemma merge_at_clock_at a b k c :
  map_Forall (λ _ v, is_u64 v) b →
  c !! k = merge_at (a !! k) (b !! k) →
  (∀ v, a !! k = Some v → 0 ≤ v) →
  clock_at c k = Z.max (clock_at a k) (clock_at b k).
Proof.
  intros Hb Hc Ha. unfold clock_at. rewrite Hc.
  destruct (a !! k) as [x|] eqn:Ea, (b !! k) as [y|] eqn:Eb; simpl; [|..].
  - destruct (x <? y) eqn:E; zbool; lia.
  - specialize (Ha x eq_refl). lia.
  - apply Hb in Eb. unfold is_u64 in Eb. lia.
  - done.
Qed.

(** The number counted by [merge_scan] is the number of nodes added. *)
Lemma size_union_count (a b : gmap string Z) :
  size (a ∪ b) = (size a + length (filter (λ kv, a !! kv.1 = None) (range b)))%nat.
Proof.
  set (P := λ kv : string * Z, a !! kv.1 = None).
  assert (a ∪ b = a ∪ filter P b) as ->.
  { apply map_eq; intros k. rewrite !lookup_union, map_lookup_filter.
    destruct (a !! k) eqn:Ea, (b !! k) eqn:Eb; simpl; try done.
    - by case_guard.
    - by rewrite option_guard_True. }
  rewrite map_size_disj_union.
  2:{ apply map_disjoint_spec. intros k x y Hx [_ Hy]%map_lookup_filter_Some.
      unfold P in Hy; simpl in Hy. congruence. }
  f_equal. rewrite map_filter_alt, <-length_map_to_list.
  rewrite map_to_list_to_map; [by rewrite range_perm|].
  eapply sublist_NoDup; [apply (NoDup_fst_map_to_list b)|].
  apply fmap_sublist, sublist_filter.
Qed.

Lemma size_merge_result (a b c : gmap string Z) :
  (∀ k, c !! k = merge_at (a !! k) (b !! k)) → size c = size (a ∪ b).
Proof.
  intros Hc. rewrite <-!size_dom. f_equal. apply set_eq; intros k.
  rewrite !elem_of_dom, Hc, lookup_union.
  destruct (a !! k), (b !! k); simpl; rewrite ?is_Some_alt; done.
Qed.

(** What a successful merge of allocated clocks computes. *)
Lemma Merge_done (a b : gmap string Z) vc' :
  Merge (Some (mkVectorClock (Some b))) (mkVectorClock (Some a)) = Done (vc', None) →
  ∃ c, vc' = mkVectorClock (Some c)
       ∧ (∀ k, c !! k = merge_at (a !! k) (b !! k))
       ∧ (size (a ∪ b) ≤ MaxNodes)%nat.
Proof.
  unfold Merge. destruct (merge_scan _ _ _) as [n|e] eqn:Hs; [|done].
  apply merge_scan_ok in Hs as [_ ->]. cbn [map_of clocks default].
  destruct (Nat.ltb _ _) eqn:Hl; [done|]. zbool.
  destruct (merge_apply_spec a (range b) (range_NoDup b)) as (c & Hc & Hlk).
  cbn in Hc |- *. rewrite Hc. intros [= <-]. exists c. split_and!; [done| |].
  - intros k. by rewrite Hlk, list_to_map_range.
  - rewrite size_union_count. cbn in Hl. unfold Size in Hl; cbn in Hl. lia.
Qed.

(** *** Properties *)

(** C11: the comparison is the causal order of vector clocks: it answers -1
    exactly when the receiver happened before the other clock (no node ahead,
    some node behind), 1 exactly when it happened after, and 0 exactly when
    the clocks are concurrent or agree at every node. *)
Theorem Compare_is_causal_order (a b : VectorClock) :
  ∃ c, Compare (Some a) (Some (VectorClockV (Some b))) = Done c
    ∧ (c = -1 ↔ vc_lt (map_of (clocks a)) (map_of (clocks b)))
    ∧ (c = 1 ↔ vc_lt (map_of (clocks b)) (map_of (clocks a)))
    ∧ (c = 0 ↔ ¬ vc_lt (map_of (clocks a)) (map_of (clocks b))
               ∧ ¬ vc_lt (map_of (clocks b)) (map_of (clocks a))).
Proof.
  eexists. split; [done|].
  pose proof (compare_clocks_lt (map_of (clocks a)) (map_of (clocks b))) as L.
  pose proof (compare_clocks_gt (map_of (clocks a)) (map_of (clocks b))) as G.
  pose proof (compare_clocks_range (map_of (clocks a)) (map_of (clocks b))) as R.
  set_unfold. split_and!; [done..|]. rewrite <-L, <-G. intuition lia.
Qed.

(** Remark: a successful merge of well-formed clocks gives a well-formed clock
    that is the least upper bound of the two in the causal order; a merge
    that fails leaves the receiver unchanged. *)
Theorem Merge_least_upper_bound (a b : VectorClock) :
  clock_wf a → clock_wf b →
  ∃ c err, Merge (Some b) a = Done (c, err)
    ∧ (err ≠ None → c = a)
    ∧ (err = None →
         clock_wf c
         ∧ vc_le (map_of (clocks a)) (map_of (clocks c))
         ∧ vc_le (map_of (clocks b)) (map_of (clocks c))
         ∧ ∀ u, vc_le (map_of (clocks a)) u → vc_le (map_of (clocks b)) u →
                vc_le (map_of (clocks c)) u).
Proof.
  intros Ha Hb. destruct a as [[a|]], b as [[b|]];
    try by (destruct Ha as [[? ?]], Hb as [[? ?]]).
  assert (∃ c err, Merge (Some (mkVectorClock (Some b))) (mkVectorClock (Some a))
            = Done (c, err) ∧ (err ≠ None → c = mkVectorClock (Some a)))
    as (c & err & Hm & Herr).
  { unfold Merge. destruct (merge_scan _ _ _); [|by eauto].
    destruct (Nat.ltb _ _); [by eauto|].
    destruct (merge_apply_spec a (range b) (range_NoDup b)) as (c & Hc & _).
    cbn in Hc |- *. rewrite Hc. by do 2 eexists. }
  exists c, err. split_and!; [done..|]. intros ->.
  apply Merge_done in Hm as (m & -> & Hlk & Hsz).
  assert (∀ k, clock_at m k = Z.max (clock_at a k) (clock_at b k)) as Hmax.
  { intros k. apply merge_at_clock_at; [|done|].
    - intros j v Hj. by apply (wf_entries _ Hb) in Hj as (_ & _ & ?).
    - intros v Hv. by apply (wf_entries _ Ha) in Hv as (_ & _ & ? & _). }
  cbn in *. split_and!.
  - split; cbn; [by eexists|by rewrite (size_merge_result a b m Hlk)|].
    intros k v. rewrite Hlk. intros [Hv|Hv]%merge_at_Some.
    + by apply (wf_entries _ Ha) in Hv.
    + by apply (wf_entries _ Hb) in Hv.
  - intros k. rewrite Hmax. lia.
  - intros k. rewrite Hmax. lia.
  - intros u H1 H2 k. rewrite Hmax. specialize (H1 k); specialize (H2 k). lia.
Qed.
(** When [Increment] refuses a node id. *)
Definition increment_refused (vc : VectorClock) (nodeID : string) : Prop :=
  nodeID = "" ∨ (MaxNodeIDLength < String.length nodeID)%nat
  ∨ (map_of (clocks vc) !! nodeID = None ∧ (MaxNodes ≤ Size vc)%nat).

Lemma Increment_cases vc nodeID :
  (increment_refused vc nodeID ∧ ∃ e, Increment nodeID vc = Done (vc, Some e))
  ∨ (¬ increment_refused vc nodeID
     ∧ Increment nodeID vc =
         let* vc' := set_clock vc nodeID (u64 (GetClock vc nodeID + 1)) in Done (vc', None)).
Proof.
  unfold Increment, increment_refused. case_bool_decide; [left; eauto|].
  destruct (Nat.ltb _ _) eqn:Hl; zbool; [left; eauto|].
  case_bool_decide; rewrite ?andb_true_l, ?andb_false_l;
    [destruct (Nat.leb _ _) eqn:Hs; zbool|].
  - left. naive_solver.
  - right. split; [|done]. intros [?|[?|[? ?]]]; [done|lia..].
  - right. split; [|done]. intros [?|[?|[? ?]]]; [done|lia|done].
Qed.

Lemma clock_wf_insert m k v :
  clock_wf (mkVectorClock (Some m)) → k ≠ "" →
  (String.length k ≤ MaxNodeIDLength)%nat → is_u64 v →
  (m !! k = None → (size m < MaxNodes)%nat) →
  clock_wf (mkVectorClock (Some (<[k := v]> m))).
Proof.
  intros Hwf Hne Hlen Hv Hsz. split; cbn; [by eexists| |].
  - rewrite map_size_insert. destruct (m !! k) eqn:E; simpl; [|specialize (Hsz eq_refl); lia].
    by apply (wf_size _ Hwf).
  - apply map_Forall_insert_2; [done|]. by apply (wf_entries _ Hwf).
Qed.

(** Remark: [Increment] either refuses (empty id, id longer than 255 bytes, or a
    new node on a full clock) and changes nothing, or keeps the clock
    well-formed, changes only the given node and makes the old clock happen
    before the new one, except that a counter at 2^64-1 wraps to 0 and makes
    the new clock happen before the old one. *)
Theorem Increment_advances (vc : VectorClock) (nodeID : string) :
  clock_wf vc →
  ∃ vc' err, Increment nodeID vc = Done (vc', err)
    ∧ (err ≠ None ↔ increment_refused vc nodeID)
    ∧ (err ≠ None → vc' = vc)
    ∧ (err = None →
         clock_wf vc'
         ∧ (∀ k, k ≠ nodeID → GetClock vc' k = GetClock vc k)
         ∧ (GetClock vc nodeID < 2 ^ 64 - 1 →
              GetClock vc' nodeID = GetClock vc nodeID + 1
              ∧ HappenedBefore vc (Some vc') = Done true)
         ∧ (GetClock vc nodeID = 2 ^ 64 - 1 →
              GetClock vc' nodeID = 0 ∧ HappenedAfter vc (Some vc') = Done true)).
Proof.
  intros Hwf. destruct (Increment_cases vc nodeID) as [[Href (e & ->)]|[Href ->]].
  { exists vc, (Some e). split_and!; naive_solver. }
  destruct vc as [[m|]]; [|by destruct Hwf as [[? ?]]]. cbn.
  pose proof (wf_clock_at _ nodeID Hwf) as Hr. cbn in Hr. unfold GetClock; cbn.
  do 2 eexists. split; [reflexivity|]. cbn.
  unfold increment_refused, Size in Href; cbn in Href.
  split_and!; [naive_solver..|]. intros _. split_and!.
  - apply clock_wf_insert; [done|naive_solver|lia|apply u64_range|].
    intros Hn. destruct (decide (size m < MaxNodes)%nat); [done|]. exfalso. apply Href. right; right.
    split; [done|lia].
  - intros k Hk. by rewrite clock_at_insert, decide_False.
  - intros Hlt. unfold is_u64, u64_modulus in Hr.
    assert (clock_at (<[nodeID:=u64 (clock_at m nodeID + 1)]> m) nodeID
            = clock_at m nodeID + 1) as Hn.
    { rewrite clock_at_insert, decide_True by done. apply u64_small.
      unfold is_u64, u64_modulus. lia. }
    split; [done|]. unfold HappenedBefore, Compare; cbn. do 2 f_equal.
    apply Z.eqb_eq, compare_clocks_lt. split.
    + intros k. destruct (decide (nodeID = k)) as [<-|Hk]; [rewrite Hn; lia|].
      rewrite clock_at_insert, decide_False by done. lia.
    + exists nodeID. rewrite Hn. lia.
  - intros Heq.
    assert (clock_at (<[nodeID:=u64 (clock_at m nodeID + 1)]> m) nodeID = 0) as Hn.
    { by rewrite clock_at_insert, decide_True, Heq. }
    split; [done|]. unfold HappenedAfter, Compare; cbn. do 2 f_equal.
    apply Z.eqb_eq, compare_clocks_gt. split.
    + intros k. destruct (decide (nodeID = k)) as [<-|Hk]; [rewrite Hn; lia|].
      rewrite clock_at_insert, decide_False by done. lia.
    + exists nodeID. rewrite Hn, Heq. lia.
Qed.

(** The clocks a program can build from the empty clock with the operations
    that check their arguments. *)
Inductive clock_reachable : VectorClock → Prop :=
  | reach_new : clock_reachable NewVectorClock
  | reach_increment vc nodeID vc' err :
      clock_reachable vc → Increment nodeID vc = Done (vc', err) → clock_reachable vc'
  | reach_merge vc other vc' err :
      clock_reachable vc → clock_reachable other → Merge (Some other) vc = Done (vc', err) → clock_reachable vc'
  | reach_clone vc : clock_reachable vc → clock_reachable (Clone vc).

Lemma Clone_wf vc : clock_wf vc → clock_wf (Clone vc).
Proof. intros [Ha Hs He]. unfold Clone. rewrite copy_range. by split. Qed.
Lemma reachable_wf vc : clock_reachable vc → clock_wf vc.
Proof.
  induction 1 as [|vc nodeID vc' err _ IH Hi|vc other vc' err _ IH _ IHo Hm|vc _ IH].
  - split; cbn; [by eexists|rewrite map_size_empty; lia|apply map_Forall_empty].
  - destruct (Increment_advances vc nodeID IH) as (c & e & Hi' & _ & Hk & Hok).
    rewrite Hi in Hi'. injection Hi' as <- <-. destruct err; [by rewrite Hk|by apply Hok].
  - destruct (Merge_least_upper_bound vc other IH IHo) as (c & e & Hm' & Hk & Hok).
    rewrite Hm in Hm'. injection Hm' as <- <-. destruct err; [by rewrite Hk|by apply Hok].
  - by apply Clone_wf.
Qed.

(** C27: every clock built from the empty clock by incrementing, merging and
    cloning is well formed: allocated, at most 1000 nodes, every identifier non-empty
    and at most 255 bytes long, every counter within 64 bits; and no
    increment, merge or comparison of such clocks panics. *)
Theorem reachable_clocks_well_typed (vc other : VectorClock) (nodeID : string) :
  clock_reachable vc → clock_reachable other →
  clock_wf vc ∧ (∃ r, Increment nodeID vc = Done r) ∧ (∃ r, Merge (Some other) vc = Done r)
  ∧ ∃ c, Compare (Some vc) (Some (VectorClockV (Some other))) = Done c ∧ c ∈ [-1; 0; 1].
Proof.
  intros Hv%reachable_wf Ho%reachable_wf. split; [done|]. split_and!.
  - destruct (Increment_advances vc nodeID Hv) as (c & e & H & _). by eexists.
  - destruct (Merge_least_upper_bound vc other Hv Ho) as (c & e & H & _). by eexists.
  - eexists. split; [reflexivity|].
    pose proof (compare_clocks_range (map_of (clocks vc)) (map_of (clocks other))) as R. exact R.
Qed.

Lemma equal_loop_spec other es :
  equal_loop other es = true ↔ Forall (λ kv, clock_at other kv.1 = kv.2) es.
Proof.
  induction es as [|[k v] es IH]; cbn; [split; constructor|].
  destruct (clock_at other k =? v) eqn:E; zbool.
  - rewrite IH, Forall_cons. naive_solver.
  - rewrite Forall_cons. naive_solver.
Qed.

Lemma IsEqual_spec a b :
  IsEqual a (Some b) = true ↔
    Size a = Size b
    ∧ ∀ k v, map_of (clocks a) !! k = Some v → GetClock b k = v.
Proof.
  unfold IsEqual. destruct (Nat.eqb (Size a) (Size b)) eqn:E; cbn.
  - apply Nat.eqb_eq in E. rewrite equal_loop_spec, Forall_forall. unfold GetClock.
    split; [intros H; split; [done|]|intros [_ H]].
    + intros k v Hk. by apply (H (k, v)), elem_of_range.
    + intros [k v] Hk%elem_of_range. by apply H.
  - apply Nat.eqb_neq in E. naive_solver.
Qed.

(** Remark: on clocks whose counters are all positive, [IsEqual] decides equality
    of the two clocks; the positivity is needed, since a missing node reads
    as 0 (see [IsEqual_zero_entries]). *)
Theorem IsEqual_decides_equality (a b : gmap string Z) :
  map_Forall (λ _ v, 0 < v) a → map_Forall (λ _ v, 0 < v) b →
  IsEqual (mkVectorClock (Some a)) (Some (mkVectorClock (Some b))) = true ↔ a = b.
Proof.
  intros Ha Hb. rewrite IsEqual_spec. unfold Size, GetClock; cbn. split.
  - intros [Hsz Hin].
    assert (a ⊆ b) as Hsub.
    { apply map_subseteq_spec. intros k v Hk. specialize (Hin k v Hk).
      unfold clock_at in Hin. apply Ha in Hk. destruct (b !! k); simpl in Hin; [by subst|lia]. }
    assert (dom a = dom b) as Hdom.
    { apply set_subseteq_size_eq; [by apply subseteq_dom|]. rewrite !size_dom. lia. }
    apply map_eq; intros k. destruct (a !! k) as [v|] eqn:E.
    + symmetry. by eapply lookup_weaken.
    + symmetry. apply not_elem_of_dom. rewrite <-Hdom. by apply not_elem_of_dom.
  - intros ->. split; [done|]. intros k v Hk. unfold clock_at. by rewrite Hk.
Qed.

(** Remark: [IsEqual] reports two different clocks equal when they hold zero
    counters for different nodes, although [Compare] ignores such entries. *)
Theorem IsEqual_zero_entries :
  IsEqual (mkVectorClock (Some {["a" := 0]})) (Some (mkVectorClock (Some {["b" := 0]}))) = true
  ∧ ({["a" := 0]} : gmap string Z) ≠ {["b" := 0]}.
Proof.
  split; [|by vm_compute].
  apply IsEqual_spec. split; [done|]. cbn. intros k v Hk.
  apply lookup_singleton_Some in Hk as [<- <-]. done.
Qed.
End results.

#[global] Instance clock_wf_dec vc : Decision (clock_wf vc).
Proof.
  refine (cast_if (decide (is_Some (clocks vc)
    ∧ (size (map_of (clocks vc)) ≤ MaxNodes)%nat
    ∧ map_Forall (λ k v, k ≠ "" ∧ (String.length k ≤ MaxNodeIDLength)%nat ∧ is_u64 v)
        (map_of (clocks vc)))));
    abstract (split || (intros []); naive_solver).
Defined.

(** ** Witnesses *)

Definition sample_clock (l : list (string * Z)) : VectorClock :=
  mkVectorClock (Some (list_to_map l)).

Ltac decide_it := apply (bool_decide_unpack _); vm_compute; exact I.

Lemma Merge_least_upper_bound_witness :
  ∃ c err, Merge (MR := canonical_range) (Some (sample_clock [("n1", 1); ("n3", 2)]))
             (sample_clock [("n1", 2); ("n2", 1)]) = Done (c, err)
           ∧ (err ≠ None → c = sample_clock [("n1", 2); ("n2", 1)]).
Proof.
  destruct (Merge_least_upper_bound (MR := canonical_range)
    (sample_clock [("n1", 2); ("n2", 1)]) (sample_clock [("n1", 1); ("n3", 2)]))
    as (c & err & H1 & H2 & _); [decide_it|decide_it|].
  exists c, err. split; [exact H1|exact H2].
Defined.

Lemma Increment_advances_witness :
  clock_wf (sample_clock [("n1", 5)])
  ∧ ∃ vc' err, Increment "n1" (sample_clock [("n1", 5)]) = Done (vc', err)
      ∧ (err ≠ None ↔ increment_refused (sample_clock [("n1", 5)]) "n1").
Proof.
  split; [decide_it|].
  destruct (Increment_advances (MR := canonical_range) (sample_clock [("n1", 5)]) "n1")
    as (vc' & err & H1 & H2 & _); [decide_it|].
  exists vc', err. split; [exact H1|exact H2].
Defined.

Lemma reachable_clocks_well_typed_witness :
  clock_wf (sample_clock [("n1", 1)])
  ∧ ∃ c, Compare (MR := canonical_range) (Some (sample_clock [("n1", 1)]))
           (Some (VectorClockV (Some NewVectorClock))) = Done c ∧ c ∈ [-1; 0; 1].
Proof.
  assert (clock_reachable (MR := canonical_range) (sample_clock [("n1", 1)])) as Hr.
  { eapply (reach_increment _ "n1" _ None); [apply reach_new|by vm_compute]. }
  destruct (reachable_clocks_well_typed (MR := canonical_range) _ _ "n1" Hr (reach_new (MR := canonical_range)))
    as (Hwf & _ & _ & Hc).
  split; [exact Hwf|exact Hc].
Defined.

Lemma IsEqual_decides_equality_witness :
  IsEqual (MR := canonical_range) (sample_clock [("a", 1); ("b", 2)])
    (Some (sample_clock [("b", 2); ("a", 1)])) = true
  ↔ (list_to_map [("a", 1); ("b", 2)] : gmap string Z) = list_to_map [("b", 2); ("a", 1)].
Proof.
  apply (IsEqual_decides_equality (MR := canonical_range)); decide_it.
Defined.
