(* ===== verification/Versions.v ===== *)
(** * The version implementations behind [types.Version]

    [Compare], [String] and [IsZero] of the integer cursor and vector cursor
    (src/cursor/cursor.go), the vector clock (src/version/vector_clock.go) and
    the null version (src/synckit/manager_options.go), and the dynamic dispatch
    that the rest of the kit uses. *)
From S2P Require Import Prelude Types Json VectorClock.
From Stdlib Require Import Ascii.
From stdpp Require Import options.

(** ** Integer cursor *)

Definition IntegerCursor_Compare (Seq : Z) (other : option Version) : Z :=
  match other with
  | None => 1
  | Some (IntegerCursor ocSeq) =>
      if Seq <? ocSeq then -1 else if ocSeq <? Seq then 1 else 0
  | Some _ => 0
  end.
Definition IntegerCursor_String (Seq : Z) : string := format_uint Seq.
Definition IntegerCursor_IsZero (Seq : Z) : bool := Seq =? 0.

(** ** Vector cursor: the comparison is on the JSON texts *)

Definition VectorCursor_Compare (Counters : gomap Z) (other : option Version) : Z :=
  match other with
  | None => 1
  | Some (VectorCursor oc) => bytes_compare (json_marshal_map Counters) (json_marshal_map oc)
  | Some _ => 0
  end.
Definition VectorCursor_String (Counters : gomap Z) : string := json_marshal_map Counters.
Definition VectorCursor_IsZero (Counters : gomap Z) : bool :=
  Nat.eqb (size (map_of Counters)) 0.

(** ** Vector clock text *)

Definition VectorClock_String (vc : VectorClock) : string :=
  if IsZero vc then "{}" else json_marshal_map (clocks vc).

(** Unicode white space at the head of a UTF-8 text (unicode.IsSpace). *)
Definition space_rune (s : string) : option string :=
  match s with
  | String a r =>
      let x := code a in
      if ((9 <=? x) && (x <=? 13)) || (x =? 32) then Some r
      else match r with
      | String b r =>
          let y := code b in
          if (x =? 194) && ((y =? 133) || (y =? 160)) then Some r
          else match r with
          | String c r =>
              let z := code c in
              if ((x =? 225) && (y =? 154) && (z =? 128))
                 || ((x =? 226) && (y =? 128)
                     && (((128 <=? z) && (z <=? 138)) || (z =? 168) || (z =? 169) || (z =? 175)))
                 || ((x =? 226) && (y =? 129) && (z =? 159))
                 || ((x =? 227) && (y =? 128) && (z =? 128))
              then Some r else None
          | _ => None
          end
      | _ => None
      end
  | EmptyString => None
  end.
(** [strings.TrimSpace(s) == ""]: the text is a run of white space. *)
Fixpoint all_space (fuel : nat) (s : string) : bool :=
  match s, fuel with
  | EmptyString, _ => true
  | _, O => false
  | _, S f => match space_rune s with Some r => all_space f r | None => false end
  end.
Definition trims_to_empty (s : string) : bool := all_space (String.length s) s.

(** [fmt.Sscanf(s, "%d", &seq)] for a [uint64]: white space is skipped (a
    newline is an error), then the longest run of digits is read; what follows
    is ignored. *)
Fixpoint sscanf_skip (fuel : nat) (s : string) : option string :=
  match fuel, s with
  | S f, String c rest =>
      if (code c =? 13) && (match rest with String d _ => code d =? 10 | _ => false end)
      then match rest with String _ rest2 => sscanf_skip f rest2 | _ => None end
      else if code c =? 10 then None
      else match space_rune s with Some r => sscanf_skip f r | None => Some s end
  | _, _ => Some s
  end.
Definition sscanf_uint (s : string) : option Z :=
  s ← sscanf_skip (String.length s) s;
  parse_uint (span_digits s).1.

Definition NewVectorClockFromString (data : string) : result error VectorClock :=
  if trims_to_empty data || bool_decide (data = "{}") then Ok NewVectorClock
  else
    match json_unmarshal_map data ∅ with
    | None => Err (ErrWrap ("failed to unmarshal vector clock from '" +:+ data +:+ "'")
                     (ErrMsg "json"))
    | Some m =>
        if bool_decide (is_Some (map_of m !! "")) then
          Err (ErrMsg "vector clock contains empty node ID")
        else Ok (mkVectorClock m)
    end.

(** ** Dynamic dispatch *)

Section dispatch.
Context {MR : MapRange}.

Definition version_Compare (v : Version) (other : option Version) : outcome Z :=
  match v with
  | IntegerCursor seq => Done (IntegerCursor_Compare seq other)
  | VectorCursor cs => Done (VectorCursor_Compare cs other)
  | VectorClockV p => Compare p other
  | nullVersion => Done 0
  end.
End dispatch.

Definition version_IsZero (v : Version) : outcome bool :=
  match v with
  | IntegerCursor seq => Done (IntegerCursor_IsZero seq)
  | VectorCursor cs => Done (VectorCursor_IsZero cs)
  | VectorClockV p => let* vc := deref p in Done (IsZero vc)
  | nullVersion => Done true
  end.

Definition version_String (v : Version) : outcome string :=
  match v with
  | IntegerCursor seq => Done (IntegerCursor_String seq)
  | VectorCursor cs => Done (VectorCursor_String cs)
  | VectorClockV p => let* vc := deref p in Done (VectorClock_String vc)
  | nullVersion => Done "0"
  end.

(** [v.(cursor.IntegerCursor)]: the cursor and the [ok] flag; a failed
    assertion gives the zero cursor. *)
Definition as_integer (v : option Version) : Z * bool :=
  match v with
  | Some (IntegerCursor seq) => (seq, true)
  | _ => (0, false)
  end.

(** ** The version bound of the integer stores *)

Definition err_version : error :=
  ErrMsg "incompatible version type: expected cursor.IntegerCursor".

(** The version check: a failed type assertion is accepted only for a zero
    version, and a nil interface panics in [IsZero]. *)
Definition check_since (since : option Version) : outcome (option error) :=
  if snd (as_integer since) then Done None
  else let* v := deref since in
       let* z := version_IsZero v in
       Done (if z then None else Some err_version).

(** An entry whose version is an integer cursor past [sinceSeq]. *)
Definition after (sinceSeq : Z) (ev : EventWithVersion) : Prop :=
  when (ev_version ev) (λ v, match v with IntegerCursor seq => sinceSeq < seq | _ => False end)
  ∧ ev_version ev ≠ None.
#[global] Instance after_dec n ev : Decision (after n ev).
Proof.
  unfold after. destruct (ev_version ev) as [[]|]; simpl; apply _.
Defined.

(** ** Properties *)

(** Remark: the comparison of vector cursors is the byte order of their JSON texts,
    not an order on counters: a cursor whose only counter goes from 9 to 10
    compares as later before the step than after it. *)
Theorem VectorCursor_Compare_not_causal :
  VectorCursor_Compare (Some {["a" := 9]}) (Some (VectorCursor (Some {["a" := 10]}))) = 1
  ∧ vc_lt {["a" := 9]} {["a" := 10]}.
Proof.
  split; [by vm_compute|]. split.
  - intros k. unfold clock_at. rewrite !lookup_singleton. case_decide; cbn; lia.
  - exists "a". by vm_compute.
Qed.

(** Remark: [NewVectorClockFromString] accepts the JSON text [null], yielding a
    clock whose map is nil, and incrementing any valid node id on that clock
    panics. *)
Theorem null_text_clock_panics {MR : MapRange} (nodeID : string) :
  nodeID ≠ "" → (String.length nodeID ≤ MaxNodeIDLength)%nat →
  ∃ vc, NewVectorClockFromString "null" = Ok vc
        ∧ ∃ why, Increment nodeID vc = Panic why.
Proof.
  intros Hne Hlen. exists (mkVectorClock None). split; [by vm_compute|].
  unfold Increment. rewrite bool_decide_false by done.
  replace (Nat.ltb _ _) with false by (symmetry; by apply Nat.ltb_ge).
  cbn. by eexists.
Qed.
Lemma null_text_clock_panics_witness :
  ∃ vc, NewVectorClockFromString "null" = Ok vc ∧ ∃ why, Increment "node-1" vc = Panic why.
Proof.
  apply (null_text_clock_panics (MR := canonical_range) "node-1"); [done|].
  unfold MaxNodeIDLength. cbn. lia.
Defined.

(** The texts of sequence numbers are read back. *)
Lemma sscanf_format_uint n : is_u64 n → sscanf_uint (format_uint n) = Some n.
Proof.
  intros Hn. pose proof (parse_format_uint n Hn) as Hp. unfold sscanf_uint.
  assert (all_digits (format_uint n) = true) as Hall by by apply format_go_all_digits.
  destruct (format_go_cons 19 n "") as (c & rest & E). unfold format_uint in *. rewrite E in *.
  pose proof (span_all_digits _ Hall) as Hspan. pose proof Hall as [Hc _]%andb_true_iff.
  unfold is_digit in Hc. apply andb_true_iff in Hc as [H1 H2]. zbool.
  assert (sscanf_skip (String.length (String c rest)) (String c rest) = Some (String c rest)) as ->.
  { cbn [String.length sscanf_skip]. rewrite !(proj2 (Z.eqb_neq (code c) _)) by lia. cbn [andb].
    assert (space_rune (String c rest) = None) as ->; [|done]. unfold space_rune. cbv zeta.
    rewrite !(proj2 (Z.eqb_neq (code c) _)) by lia. replace (code c <=? 13) with false by (symmetry; apply Z.leb_gt; lia).
    rewrite andb_false_r. cbn [orb andb]. destruct rest as [|? [|? ?]]; done. }
  cbn [mbind option_bind]. by rewrite Hspan.
Qed.
