(* ===== verification/Cursor.v ===== *)
(** * Cursors and their wire format (src/cursor/cursor.go)

    The codec registry, the wire form with its size limit, the two default
    codecs and the uvarint helper.  A codec's promise is the class [WireCodec];
    the wire round trip is proved against it. *)
From S2P Require Import Prelude Types Json VectorClock Versions.
From stdpp Require Import options.

Definition KindInteger : string := "integer".
Definition KindVector : string := "vector".
Definition maxWireCursorSize : nat := Z.to_nat (64 * 1024).
Arguments maxWireCursorSize : simpl never.

(** Implementations of the [Cursor] interface: the two of the package and any
    other type, of which only the kind is observed here. *)
Inductive Cursor :=
  | IntegerC (Seq : Z)
  | VectorC (Counters : gomap Z)
  | OtherC (kind : string).

Definition cursor_Kind (c : Cursor) : string :=
  match c with
  | IntegerC _ => KindInteger
  | VectorC _ => KindVector
  | OtherC k => k
  end.

(** The [Codec] interface; JSON payloads are texts. *)
Record Codec := mkCodec {
  codec_Kind : string;
  codec_Marshal : Cursor → result error string;
  codec_Unmarshal : string → result error Cursor
}.

(** The global registry is threaded as state. *)
Abbreviation Registry := (gmap string Codec).

Definition Register (c : Codec) (registry : Registry) : Registry :=
  <[codec_Kind c := c]> registry.
Definition Lookup (kind : string) (registry : Registry) : option Codec := registry !! kind.

Record WireCursor := mkWire { wire_Kind : string; wire_Data : string }.

Definition MarshalWire (registry : Registry) (c : Cursor) : result error WireCursor :=
  match Lookup (cursor_Kind c) registry with
  | None => Err (ErrMsg ("unknown cursor kind: " +:+ cursor_Kind c))
  | Some codec =>
      match codec_Marshal codec c with
      | Err e => Err e
      | Ok data => Ok (mkWire (codec_Kind codec) data)
      end
  end.

Definition ValidateWireCursor (registry : Registry) (wc : option WireCursor)
    : result error WireCursor :=
  match wc with
  | None => Err (ErrMsg "nil wire cursor")
  | Some wc =>
      if Nat.ltb maxWireCursorSize (String.length (wire_Data wc)) then
        Err (ErrMsg ("cursor payload too large: " +:+
                     format_uint (Z.of_nat (String.length (wire_Data wc))) +:+ " bytes"))
      else match Lookup (wire_Kind wc) registry with
           | None => Err (ErrMsg ("unknown cursor kind: " +:+ wire_Kind wc))
           | Some _ => Ok wc
           end
  end.

Definition UnmarshalWire (registry : Registry) (wc : option WireCursor)
    : result error Cursor :=
  match ValidateWireCursor registry wc with
  | Err e => Err e
  | Ok wc =>
      match Lookup (wire_Kind wc) registry with
      | None => Err (ErrMsg ("unknown cursor kind: " +:+ wire_Kind wc))
      | Some codec => codec_Unmarshal codec (wire_Data wc)
      end
  end.

(** ** The default codecs *)

Definition integerCodec : Codec := {|
  codec_Kind := KindInteger;
  codec_Marshal c :=
    match c with
    | IntegerC seq => Ok (format_uint seq)
    | _ => Err (ErrMsg "expected IntegerCursor")
    end;
  codec_Unmarshal data :=
    match json_unmarshal_uint data with
    | Some seq => Ok (IntegerC seq)
    | None => Err (ErrMsg "json")
    end
|}.

Definition vectorCodec : Codec := {|
  codec_Kind := KindVector;
  codec_Marshal c :=
    match c with
    | VectorC counters => Ok (json_marshal_map counters)
    | _ => Err (ErrMsg "expected VectorCursor")
    end;
  codec_Unmarshal data :=
    match json_unmarshal_map data ∅ with
    | Some m => Ok (VectorC m)
    | None => Err (ErrMsg "json")
    end
|}.

Definition InitDefaultCodecs (registry : Registry) : Registry :=
  Register vectorCodec (Register integerCodec registry).

Definition NewInteger (seq : Z) : Cursor := IntegerC seq.
Definition NewVector (counters : gomap Z) : Cursor := VectorC counters.

Definition MustMarshalWire (registry : Registry) (c : Cursor) : outcome WireCursor :=
  match MarshalWire registry c with
  | Ok wc => Done wc
  | Err _ => Panic "failed to marshal cursor"
  end.

(** [EncodeUvarint]: at most [binary.MaxVarintLen64] = 10 bytes. *)
Definition EncodeUvarint (u : Z) : list Z := put_uvarint 10 u.

(** ** The codec contract *)

(** [WireCodec codec P]: the codec encodes every cursor satisfying [P], which
    is of its kind, to a payload within the limit that decodes to it. *)
Class WireCodec (codec : Codec) (P : Cursor → Prop) : Prop := {
  codec_kind_ok c : P c → cursor_Kind c = codec_Kind codec;
  codec_roundtrip c : P c →
    ∃ data, codec_Marshal codec c = Ok data
      ∧ (String.length data ≤ maxWireCursorSize)%nat
      ∧ codec_Unmarshal codec data = Ok c
}.

Lemma wire_roundtrip codec P (registry : Registry) c :
  WireCodec codec P → P c → Lookup (codec_Kind codec) registry = Some codec →
  ∃ wc, MarshalWire registry c = Ok wc ∧ UnmarshalWire registry (Some wc) = Ok c.
Proof.
  intros Hc HP Hlk. destruct (codec_roundtrip c HP) as (data & Hm & Hlen & Hu).
  unfold MarshalWire. rewrite (codec_kind_ok c HP), Hlk, Hm.
  eexists. split; [done|]. unfold UnmarshalWire, ValidateWireCursor. cbn [wire_Data wire_Kind].
  replace (Nat.ltb _ _) with false by (symmetry; by apply Nat.ltb_ge).
  rewrite Hlk. cbn [wire_Data wire_Kind]. by rewrite Hlk.
Qed.

Lemma length_format_go fuel n acc :
  (String.length (format_go fuel n acc) ≤ fuel + String.length acc)%nat.
Proof.
  revert n acc. induction fuel as [|f IH]; intros n acc; [done|].
  cbn [format_go]. case_match; cbn [String.length]; [lia|].
  etrans; [apply IH|]. cbn [String.length]. lia.
Qed.

Lemma Lookup_default_integer registry :
  Lookup KindInteger (InitDefaultCodecs registry) = Some integerCodec.
Proof. unfold Lookup, InitDefaultCodecs, Register. by rewrite lookup_insert_ne, lookup_insert_eq. Qed.

Definition integer_cursor (c : Cursor) : Prop := ∃ seq, c = IntegerC seq ∧ is_u64 seq.

#[global] Instance integerCodec_lawful : WireCodec integerCodec integer_cursor.
Proof.
  split; intros c (seq & -> & Hseq); [done|].
  exists (format_uint seq). split_and!; [done| |].
  - pose proof (length_format_go 20 seq "") as H. change (String.length "") with 0%nat in H.
    unfold format_uint, maxWireCursorSize. lia.
  - cbn [integerCodec codec_Unmarshal]. by rewrite json_unmarshal_format_uint.
Qed.

(** Remark: with the default codecs registered, in any registry, every integer
    cursor with a 64-bit sequence number survives the wire: marshalling gives a
    wire cursor that passes validation and unmarshals to the same cursor. *)
Theorem integer_wire_roundtrip (registry : Registry) (seq : Z) :
  is_u64 seq →
  ∃ wc, MarshalWire (InitDefaultCodecs registry) (NewInteger seq) = Ok wc
        ∧ UnmarshalWire (InitDefaultCodecs registry) (Some wc) = Ok (NewInteger seq).
Proof.
  intros Hseq. apply (wire_roundtrip integerCodec integer_cursor); [apply _|by eexists|].
  apply Lookup_default_integer.
Qed.
Lemma integer_wire_roundtrip_witness :
  is_u64 18446744073709551615
  ∧ ∃ wc, MarshalWire (InitDefaultCodecs ∅) (NewInteger 18446744073709551615) = Ok wc.
Proof.
  split; [by vm_compute|].
  destruct (integer_wire_roundtrip ∅ 18446744073709551615) as (wc & H & _); [by vm_compute|].
  exists wc. exact H.
Defined.

(** Remark: unmarshalling refuses a nil wire cursor, a payload over 64 KiB whatever
    its kind, and a kind without a registered codec; any other wire cursor is
    handed to exactly the codec registered for its kind. *)
Theorem UnmarshalWire_validates (registry : Registry) (wc : WireCursor) :
  (∃ e, UnmarshalWire registry None = Err e)
  ∧ ((maxWireCursorSize < String.length (wire_Data wc))%nat →
       ∃ e, UnmarshalWire registry (Some wc) = Err e)
  ∧ (registry !! wire_Kind wc = None → ∃ e, UnmarshalWire registry (Some wc) = Err e)
  ∧ (∀ codec, (String.length (wire_Data wc) ≤ maxWireCursorSize)%nat →
       registry !! wire_Kind wc = Some codec →
       UnmarshalWire registry (Some wc) = codec_Unmarshal codec (wire_Data wc)).
Proof.
  unfold UnmarshalWire, ValidateWireCursor, Lookup. split_and!.
  - eexists. reflexivity.
  - intros H%Nat.ltb_lt. rewrite H. eexists. reflexivity.
  - intros ->. destruct (Nat.ltb _ _); eexists; reflexivity.
  - intros codec H%Nat.ltb_ge Hc. rewrite H, Hc. cbn [wire_Data wire_Kind]. by rewrite Hc.
Qed.

(** Remark: the uvarint of a 64-bit number takes 1 to 10 bytes and reads back as
    the number, whatever follows it. *)
Theorem EncodeUvarint_roundtrip (u : Z) (rest : list Z) :
  is_u64 u →
  get_uvarint (EncodeUvarint u ++ rest) = Some (u, rest)
  ∧ (1 ≤ length (EncodeUvarint u) ≤ 10)%nat.
Proof.
  intros Hu. apply (get_put_uvarint 9). unfold is_u64, u64_modulus in Hu.
  replace (7 * Z.of_nat 10) with 70 by lia. split; [lia|].
  eapply Z.lt_trans; [apply Hu|]. apply Z.pow_lt_mono_r; lia.
Qed.
Lemma EncodeUvarint_roundtrip_witness :
  get_uvarint (EncodeUvarint 300 ++ [7]) = Some (300, [7]).
Proof. apply (EncodeUvarint_roundtrip 300 [7]). by vm_compute. Defined.
