(* ===== verification/Errors.v ===== *)
(** * Structured errors (src/errors/errors.go)

    The [SyncError] constructors, its text, the walk along wrapped errors
    ([errors.Is], [errors.As]) and retryability. *)
From S2P Require Import Prelude Types Json.
From stdpp Require Import options.

(** Operation names. *)
Definition OpSync : string := "sync".
Definition OpPush : string := "push".
Definition OpPull : string := "pull".
Definition OpStore : string := "store".
Definition OpLoad : string := "load".
Definition OpConflictResolve : string := "conflict_resolve".
Definition OpTransport : string := "transport".
Definition OpClose : string := "close".
Definition OpOffsetStore : string := "offset_store".

Definition KindInvalid : string := "INVALID".
Definition KindNotFound : string := "NOT_FOUND".
Definition KindPermission : string := "PERMISSION".
Definition KindInternal : string := "INTERNAL".
Definition KindTimeout : string := "TIMEOUT".
Definition KindUnavailable : string := "UNAVAILABLE".
Definition KindConflict : string := "CONFLICT".
Definition KindTooLarge : string := "TOO_LARGE".
Definition KindMethodNotAllowed : string := "METHOD_NOT_ALLOWED".

Definition New (op : string) (err : error) : error := SyncError op "" err false "" "".
Definition NewWithComponent (op component : string) (err : error) : error :=
  SyncError op component err false "" "".
Definition NewRetryable (op : string) (err : error) : error := SyncError op "" err true "" "".
Definition NewStorageError (op : string) (cause : error) : error :=
  SyncError op "store" cause true "STORAGE_FAILURE" "".
Definition NewConflictError (op : string) (cause : error) : error :=
  SyncError op "sync" cause false "CONFLICT_FAILURE" "".
Definition NewValidationError (op : string) (cause : error) : error :=
  SyncError op "" cause false "VALIDATION_FAILURE" "".
Definition NewNetworkError (op : string) (cause : error) : error :=
  SyncError op "transport" cause true "NETWORK_FAILURE" "".

(** [Error()] of each error value. *)
Definition ctx_err_string (e : CtxErr) : string :=
  match e with
  | Canceled => "context canceled"
  | DeadlineExceeded => "context deadline exceeded"
  end.
Fixpoint error_string (e : error) : string :=
  match e with
  | ErrNil => "<nil>"
  | ErrMsg m => m
  | ErrCtx c => ctx_err_string c
  | ErrWrap m inner => m +:+ ": " +:+ error_string inner
  | SyncError op component err _ code _ =>
      (if bool_decide (component = "") then op +:+ " operation failed"
       else op +:+ " operation failed in " +:+ component +:+ " component")
      +:+ (if bool_decide (code = "") then "" else " [" +:+ code +:+ "]")
      +:+ ": " +:+ error_string err
  end.

(** [errors.Is(err, target)] for the two context errors, following [Unwrap]. *)
Fixpoint errors_Is (err : error) (target : CtxErr) : bool :=
  match err with
  | ErrCtx c => bool_decide (c = target)
  | ErrWrap _ inner => errors_Is inner target
  | SyncError _ _ inner _ _ _ => errors_Is inner target
  | _ => false
  end.

(** [errors.As] to a SyncError finds the outermost one. *)
Fixpoint IsRetryable (err : error) : bool :=
  match err with
  | SyncError _ _ _ retryable _ _ => retryable
  | ErrWrap _ inner => IsRetryable inner
  | _ => false
  end.

(** The arguments that [E] distinguishes by their dynamic type. *)
Inductive EArg :=
  | AOp (op : string)
  | AKind (k : string)
  | ACode (c : string)
  | AComponent (c : string)
  | AErr (e : error)
  | AText (s : string).

(** One step of the argument loop of [E]: fields and the collected texts. *)
Record EState := mkE {
  e_op : string; e_component : string; e_kind : string; e_code : string;
  e_err : error; e_msgs : list string
}.
Definition e_step (s : EState) (a : EArg) : EState :=
  match a with
  | AOp op => mkE op (e_component s) (e_kind s) (e_code s) (e_err s) (e_msgs s)
  | AKind k => mkE (e_op s) (e_component s) k (e_code s) (e_err s) (e_msgs s)
  | ACode c => mkE (e_op s) (e_component s) (e_kind s) c (e_err s) (e_msgs s)
  | AComponent c => mkE (e_op s) c (e_kind s) (e_code s) (e_err s) (e_msgs s)
  | AErr e => mkE (e_op s) (e_component s) (e_kind s) (e_code s) e (e_msgs s)
  | AText t => mkE (e_op s) (e_component s) (e_kind s) (e_code s) (e_err s) (e_msgs s ++ [t])
  end.

Definition retryable_kind (k : string) : bool :=
  bool_decide (k = KindInternal) || bool_decide (k = KindTimeout)
  || bool_decide (k = KindUnavailable).

Definition E (args : list EArg) : error :=
  let s := fold_left e_step args (mkE "" "" "" "" ErrNil []) in
  let err :=
    match e_msgs s with
    | [] => e_err s
    | m :: _ => if bool_decide (e_err s = ErrNil) then ErrMsg m else ErrWrap m (e_err s)
    end in
  SyncError (e_op s) (e_component s) err (retryable_kind (e_kind s)) (e_code s) (e_kind s).

(** src/errors/helpers.go: a nil error stays nil. *)
Definition WrapOpComponent (err : option error) (op component : string) : option error :=
  match err with None => None | Some e => Some (E [AOp op; AComponent component; AErr e]) end.
Definition WrapOpComponentKind (err : option error) (op component kind : string) : option error :=
  match err with None => None | Some e => Some (E [AOp op; AComponent component; AKind kind; AErr e]) end.

(** ** Rendering of dynamic values ([fmt.Sprintf("%v", x)]) *)

Definition format_int (z : Z) : string :=
  if z <? 0 then "-" +:+ format_uint (- z) else format_uint z.
Fixpoint join (sep : string) (l : list string) : string :=
  match l with
  | [] => ""
  | [x] => x
  | x :: rest => x +:+ sep +:+ join sep rest
  end.
Definition sprintf_v (a : any) : string :=
  match a with
  | AnyNil => "<nil>"
  | AnyString s => s
  | AnyInt z | AnyInt64 z | AnyUint64 z => format_int z
  | AnyBool b => if b then "true" else "false"
  | AnyBytes bs => "[" +:+ join " " (map format_uint bs) +:+ "]"
  | AnyErrors es => "[" +:+ join " " (map error_string es) +:+ "]"
  | AnyOther _ repr => repr
  end.
Fixpoint bytes_of (s : string) : list Z :=
  match s with
  | EmptyString => []
  | String c rest => code c :: bytes_of rest
  end.

(** Remark: wrapping keeps nil nil and the wrapped error on the unwrap chain, so
    that a context error is still found; the wrapper without a kind hides that
    the error was retryable, the one with a kind decides it anew. *)
Theorem WrapOp_outcome (err : error) (op component kind : string) (target : CtxErr) :
  WrapOpComponent None op component = None ∧ WrapOpComponentKind None op component kind = None
  ∧ ∃ e e', WrapOpComponent (Some err) op component = Some e
      ∧ WrapOpComponentKind (Some err) op component kind = Some e'
      ∧ errors_Is e target = errors_Is err target ∧ errors_Is e' target = errors_Is err target
      ∧ IsRetryable e = false ∧ IsRetryable e' = retryable_kind kind.
Proof. split_and!; [done|done|]. eexists _, _. by split_and!. Qed.

(** Remark: an error is retryable exactly when the outermost [SyncError] on its
    unwrap chain says so; in particular what [New], [NewWithComponent],
    [NewConflictError] and [NewValidationError] build is never retried, whatever
    they wrap, and what the storage and network constructors build always is. *)
Theorem IsRetryable_outermost (op component : string) (inner : error) (msgs : list string) :
  let wrapped e := fold_right ErrWrap e msgs in
  IsRetryable (wrapped (NewWithComponent op component inner)) = false
  ∧ IsRetryable (wrapped (New op inner)) = false
  ∧ IsRetryable (wrapped (NewConflictError op inner)) = false
  ∧ IsRetryable (wrapped (NewValidationError op inner)) = false
  ∧ IsRetryable (wrapped (NewStorageError op inner)) = true
  ∧ IsRetryable (wrapped (NewNetworkError op inner)) = true
  ∧ IsRetryable (wrapped (NewRetryable op inner)) = true.
Proof.
  assert (∀ e, IsRetryable (fold_right ErrWrap e msgs) = IsRetryable e) as Hw.
  { intros e. by induction msgs. }
  cbn. by rewrite !Hw.
Qed.
