(* ===== verification/MemStore.v ===== *)
(** * The in-memory event store (src/storage/memstore/memstore.go)

    State, operations and the invariant that ties the event log, the stream
    index and the sequence counter together; the indexed read is proved equal
    to a filtered scan. *)
From S2P Require Import Prelude Types Json Errors VectorClock Versions.
From stdpp Require Import options.

(** src/event/event.go: the concrete event. *)
Record EventStruct := mkEventStruct {
  EventID : string;
  EventType : string;
  EventAggregateID : string;
  EventData : list Z;
  EventMetadata : gomap any;
  Offset : Z
}.
(** Its accessors; a nil metadata map reads as a fresh empty one. *)
Definition event_view (e : EventStruct) : Event :=
  mkEvent (EventID e) (EventType e) (EventAggregateID e) (AnyBytes (EventData e))
    (Some (map_of (EventMetadata e))).

Record MemStore := mkMemStore {
  events : list EventWithVersion;
  streams : gomap (list nat);
  nextSeq : Z;
  closed : bool
}.

Definition New : MemStore := mkMemStore [] (Some ∅) 1 false.

Definition err_closed : error := ErrMsg "store is closed".
Section operations.
Context {MR : MapRange}.

(** The private copy of an event that the store keeps. *)
Definition event_copy (evt : Event) (seq : Z) : EventStruct :=
  mkEventStruct (ID evt) (Type_ evt) (AggregateID evt)
    (match Data evt with
     | AnyNil => []
     | AnyBytes bs => bs
     | d => bytes_of (sprintf_v d)
     end)
    (Some (copy_map (range (map_of (Metadata evt)))))
    (i64 seq).

(** The body shared by [Store] and the loop of [StoreBatch], under the lock. *)
Definition append_event (evt : Event) (s : MemStore) : outcome MemStore :=
  let ev := mkEWV (Some (event_view (event_copy evt (nextSeq s))))
              (Some (IntegerCursor (nextSeq s))) in
  match streams s with
  | None => Panic "assignment to entry in nil map"
  | Some m =>
      Done (mkMemStore (events s ++ [ev])
              (Some (<[AggregateID evt :=
                         default [] (m !! AggregateID evt) ++ [length (events s)]]> m))
              (u64 (nextSeq s + 1)) (closed s))
  end.

Definition Store (ctx : CtxView) (evt : option Event) (version : option Version)
    (s : MemStore) : outcome (MemStore * option error) :=
  match ctx 0%nat with
  | Some e => Done (s, Some (ErrCtx e))
  | None =>
      if closed s then Done (s, Some err_closed)
      else
        let* evt := deref evt in
        let* s' := append_event evt s in
        Done (s', None)
  end.

Fixpoint store_all (evs : list EventWithVersion) (s : MemStore) : outcome MemStore :=
  match evs with
  | [] => Done s
  | ev :: rest =>
      let* evt := deref (ev_event ev) in
      let* s' := append_event evt s in
      store_all rest s'
  end.

Definition StoreBatch (ctx : CtxView) (evs : list EventWithVersion)
    (s : MemStore) : outcome (MemStore * option error) :=
  match ctx 0%nat with
  | Some e => Done (s, Some (ErrCtx e))
  | None =>
      match evs with
      | [] => Done (s, None)
      | _ =>
          if closed s then Done (s, Some err_closed)
          else let* s' := store_all evs s in Done (s', None)
      end
  end.

(** The filter map: a later filter on a key replaces an earlier one. *)
Definition filter_map_of (filters : list Filter) : gmap string string :=
  fold_left (λ m f, <[Key f := Value f]> m) filters ∅.

Definition matchesFilters (event : option Event) (filters : gmap string string)
    : outcome bool :=
  if Nat.eqb (size filters) 0 then Done true
  else
    let* ok_type :=
      match filters !! "type" with
      | Some t => let* e := deref event in Done (bool_decide (Type_ e = t))
      | None => Done true
      end in
    if negb ok_type then Done false else
    let* ok_agg :=
      match filters !! "aggregate_id" with
      | Some a => let* e := deref event in Done (bool_decide (AggregateID e = a))
      | None => Done true
      end in
    if negb ok_agg then Done false else
    match filters !! "tenant" with
    | Some tenant =>
        let* e := deref event in
        match Metadata e with
        | None => Done false
        | Some meta =>
            match meta !! "tenant" with
            | None => Done false
            | Some eventTenant => Done (bool_decide (eventTenant = AnyString tenant))
            end
        end
    | None => Done true
    end.

(** The test on one stored event in [Load] and [LoadByAggregate]. *)
Definition selected (sinceSeq : Z) (filters : gmap string string)
    (ev : EventWithVersion) : outcome bool :=
  let '(seq, ok) := as_integer (ev_version ev) in
  if ok && (sinceSeq <? seq) then matchesFilters (ev_event ev) filters else Done false.

Definition Load (ctx : CtxView) (since : option Version) (filters : list Filter)
    (s : MemStore) : outcome (result error (list EventWithVersion)) :=
  match ctx 0%nat with
  | Some e => Done (Err (ErrCtx e))
  | None =>
      if closed s then Done (Err err_closed)
      else
        let* bad := check_since since in
        match bad with
        | Some e => Done (Err e)
        | None =>
            let* r := filterM (selected (fst (as_integer since)) (filter_map_of filters))
                        (events s) in
            Done (Ok r)
        end
  end.

(** The indexed events of a stream, indices out of range being skipped. *)
Definition stream_events (s : MemStore) (indices : list nat) : list EventWithVersion :=
  omap (λ i, events s !! i) indices.

Definition LoadByAggregate (ctx : CtxView) (aggregateID : string)
    (since : option Version) (filters : list Filter)
    (s : MemStore) : outcome (result error (list EventWithVersion)) :=
  match ctx 0%nat with
  | Some e => Done (Err (ErrCtx e))
  | None =>
      if closed s then Done (Err err_closed)
      else
        let* bad := check_since since in
        match bad with
        | Some e => Done (Err e)
        | None =>
            match map_of (streams s) !! aggregateID with
            | None => Done (Ok [])
            | Some indices =>
                let* r := filterM (selected (fst (as_integer since)) (filter_map_of filters))
                            (stream_events s indices) in
                Done (Ok r)
            end
        end
  end.

Definition LatestVersion (ctx : CtxView) (s : MemStore) : result error Version :=
  match ctx 0%nat with
  | Some e => Err (ErrCtx e)
  | None =>
      if closed s then Err err_closed
      else match events s with
           | [] => Ok (IntegerCursor 0)
           | _ => Ok (IntegerCursor (u64 (nextSeq s - 1)))
           end
  end.

Definition ParseVersion (versionStr : string) : result error Version :=
  if bool_decide (versionStr = "") || bool_decide (versionStr = "0")
  then Ok (IntegerCursor 0)
  else match sscanf_uint versionStr with
       | Some seq => Ok (IntegerCursor seq)
       | None => Err (ErrWrap ("invalid version string '" +:+ versionStr +:+ "'")
                        (ErrMsg "scan"))
       end.

Definition Close (s : MemStore) : MemStore :=
  if closed s then s else mkMemStore [] None (nextSeq s) true.

Record MemStoreStats := mkStats {
  TotalEvents : nat; TotalStreams : nat; NextSequence : Z; Closed : bool
}.
Definition Stats (s : MemStore) : MemStoreStats :=
  mkStats (length (events s)) (size (map_of (streams s))) (nextSeq s) (closed s).
End operations.

(** ** Specification vocabulary *)

Definition in_stream (a : string) (ev : EventWithVersion) : Prop :=
  AggregateID <$> ev_event ev = Some a.
#[global] Instance in_stream_dec a ev : Decision (in_stream a ev).
Proof. unfold in_stream. apply _. Defined.

Definition event_matches (fm : gmap string string) (ev : EventWithVersion) : Prop :=
  when (ev_event ev) (λ e,
    when (fm !! "type") (λ t, Type_ e = t)
    ∧ when (fm !! "aggregate_id") (λ a, AggregateID e = a)
    ∧ when (fm !! "tenant") (λ t, map_of (Metadata e) !! "tenant" = Some (AnyString t))).
#[global] Instance event_matches_dec fm ev : Decision (event_matches fm ev).
Proof. unfold event_matches. apply _. Defined.

(** The positions of a stream's events in the log. *)
Fixpoint positions_from (k : nat) (a : string) (evs : list EventWithVersion) : list nat :=
  match evs with
  | [] => []
  | ev :: rest =>
      if decide (in_stream a ev) then k :: positions_from (S k) a rest
      else positions_from (S k) a rest
  end.

(** The log of an open store: its versions are 1, 2, 3, ... in order, the next
    sequence number follows the last one, and the stream index lists exactly
    the positions of each stream. *)
Record mem_inv (s : MemStore) : Prop := {
  inv_open : closed s = false;
  inv_seq : nextSeq s = Z.of_nat (length (events s)) + 1;
  inv_bound : Z.of_nat (length (events s)) < 2 ^ 64 - 1;
  inv_events : ∀ i ev, events s !! i = Some ev →
    is_Some (ev_event ev) ∧ ev_version ev = Some (IntegerCursor (Z.of_nat i + 1));
  inv_streams : ∃ m, streams s = Some m
    ∧ ∀ a, default [] (m !! a) = positions_from 0 a (events s)
}.

Lemma positions_from_app k a evs ev :
  positions_from k a (evs ++ [ev]) =
    positions_from k a evs ++ (if decide (in_stream a ev) then [(k + length evs)%nat] else []).
Proof.
  revert k; induction evs as [|e evs IH]; intros k; cbn.
  - rewrite Nat.add_0_r. by case_decide.
  - rewrite Nat.add_succ_r, !IH. by destruct (decide (in_stream a e)).
Qed.

Lemma positions_from_lt k a evs i :
  i ∈ positions_from k a evs → (k ≤ i < k + length evs)%nat.
Proof.
  revert k; induction evs as [|e evs IH]; intros k; cbn.
  { rewrite elem_of_nil. done. }
  case_decide; [rewrite elem_of_cons; intros [->|Hi]; [lia|]|intros Hi]; apply IH in Hi; lia.
Qed.

(** Looking the positions up gives the filtered log. *)
Lemma stream_lookup a evs :
  omap (λ i, evs !! i) (positions_from 0 a evs) = filter (in_stream a) evs.
Proof.
  induction evs as [|ev evs IH] using rev_ind; [done|].
  rewrite positions_from_app, omap_app, filter_app, <-IH. f_equal.
  - apply list_omap_ext, Forall2_same_length_lookup. split; [done|].
    intros i x y Hx Hy. simplify_eq. apply lookup_app_l.
    apply list_elem_of_lookup_2 in Hx. apply positions_from_lt in Hx. lia.
  - cbn [Nat.add]. rewrite filter_cons. case_decide; [|done].
    cbn [omap list_omap]. by rewrite list_lookup_middle.
Qed.

Section results.
Context {MR : MapRange}.
Implicit Types s : MemStore.

Lemma New_inv : mem_inv New.
Proof.
  split; cbn; [done|done|lia|by intros ??|].
  eexists. split; [done|]. intros a. by rewrite lookup_empty.
Qed.

(** What is appended to the log. *)
Definition stored (evt : Event) (seq : Z) : EventWithVersion :=
  mkEWV (Some (event_view (event_copy evt seq))) (Some (IntegerCursor seq)).

Lemma in_stream_stored a evt seq : in_stream a (stored evt seq) ↔ AggregateID evt = a.
Proof. unfold in_stream, stored. cbn. naive_solver. Qed.

Lemma append_event_inv evt s :
  mem_inv s → Z.of_nat (S (length (events s))) < 2 ^ 64 - 1 →
  ∃ s', append_event evt s = Done s' ∧ mem_inv s'
        ∧ events s' = events s ++ [stored evt (nextSeq s)].
Proof.
  intros Hinv Hb. destruct (inv_streams s Hinv) as (m & Hm & Hpos).
  unfold append_event. rewrite Hm. eexists. split; [done|]. split; [|done].
  split; cbn -[Z.of_nat]; rewrite ?length_app; cbn [length].
  - apply (inv_open s Hinv).
  - rewrite (inv_seq s Hinv), u64_small; [lia|unfold is_u64, u64_modulus; lia].
  - lia.
  - intros i ev [Hi|[Hle Hi]]%lookup_app_Some; [by apply (inv_events s Hinv)|].
    apply list_lookup_singleton_Some in Hi as [Hi <-]. split; [by eexists|].
    cbn. rewrite (inv_seq s Hinv). do 2 f_equal. lia.
  - eexists. split; [done|]. intros a. rewrite positions_from_app, lookup_insert.
    fold (stored evt (nextSeq s)). rewrite <-(Hpos a).
    destruct (decide (AggregateID evt = a)) as [<-|Hne].
    + rewrite decide_True by (by apply in_stream_stored). cbn. by rewrite (Hpos _).
    + rewrite decide_False by (by rewrite in_stream_stored). by rewrite app_nil_r.
Qed.

(** *** What the reads compute *)

Lemma matchesFilters_cases fm e :
  ∃ b, matchesFilters (Some e) fm = Done b ∧ (b = true ↔ event_matches fm (mkEWV (Some e) None)).
Proof.
  unfold matchesFilters, event_matches. cbn [ev_event when deref obind].
  destruct (Nat.eqb_spec (size fm) 0) as [Hz|_].
  { apply map_size_empty_inv in Hz as ->. exists true. split; [done|]. by rewrite !lookup_empty. }
  destruct (fm !! "type") as [t|]; cbn [obind when];
    [case_bool_decide; cbn [negb]; [|exists false; naive_solver]|cbn [negb]];
  (destruct (fm !! "aggregate_id") as [a|]; cbn [obind when];
    [case_bool_decide; cbn [negb]; [|exists false; naive_solver]|cbn [negb]]);
  (destruct (fm !! "tenant") as [n|]; cbn [when]; [|exists true; naive_solver]);
  (destruct (Metadata e) as [meta|]; cbn;
    [|exists false; split; [done|rewrite lookup_empty; naive_solver]]);
  (destruct (meta !! "tenant") as [x|]; [|exists false; naive_solver]);
  eexists; (split; [done|]); rewrite bool_decide_eq_true; naive_solver.
Qed.

Lemma matchesFilters_spec fm e :
  matchesFilters (Some e) fm = Done (bool_decide (event_matches fm (mkEWV (Some e) None))).
Proof.
  destruct (matchesFilters_cases fm e) as (b & -> & Hb). f_equal.
  apply eq_true_iff_eq. by rewrite bool_decide_eq_true.
Qed.

Definition wanted (n : Z) (filters : list Filter) (ev : EventWithVersion) : Prop :=
  after n ev ∧ event_matches (filter_map_of filters) ev.
#[global] Instance wanted_dec n filters ev : Decision (wanted n filters ev).
Proof. unfold wanted. apply _. Defined.

Lemma selected_spec n filters ev :
  is_Some (ev_event ev) →
  selected n (filter_map_of filters) ev = Done (bool_decide (wanted n filters ev)).
Proof.
  intros [e He]. destruct ev as [oe ov]. cbn in He. subst oe.
  unfold selected, wanted. cbn [ev_version ev_event].
  destruct ov as [[seq| | |]|]; cbn [as_integer andb];
    try (rewrite bool_decide_false; [done|unfold after; cbn; naive_solver]).
  destruct (Z.ltb_spec n seq) as [Hn|Hn].
  - rewrite matchesFilters_spec. f_equal. apply bool_decide_ext.
    unfold after, event_matches; cbn. naive_solver.
  - rewrite bool_decide_false; [done|]. unfold after; cbn. intros [[? _] _]. lia.
Qed.

Lemma filterM_selected n filters l :
  (∀ ev, ev ∈ l → is_Some (ev_event ev)) →
  filterM (selected n (filter_map_of filters)) l = Done (filter (wanted n filters) l).
Proof. intros Hl. apply filterM_Done. intros ev Hev. by apply selected_spec, Hl. Qed.

Lemma inv_is_event s ev : mem_inv s → ev ∈ events s → is_Some (ev_event ev).
Proof.
  intros Hinv [i Hi]%list_elem_of_lookup. by apply (inv_events s Hinv) in Hi as [? _].
Qed.

(** *** Stores *)

(** An open store with room for [n] more events. *)
Definition has_room (s : MemStore) (n : nat) : Prop :=
  Z.of_nat (length (events s) + n) < 2 ^ 64 - 1.

(** What a sequence of stores appends. *)
Definition stored_all (seq : Z) (evs : list Event) : list EventWithVersion :=
  imap (λ i e, stored e (seq + Z.of_nat i)) evs.

Lemma stored_all_cons seq e evs :
  stored_all seq (e :: evs) = stored e seq :: stored_all (seq + 1) evs.
Proof.
  unfold stored_all. cbn. rewrite Z.add_0_r. f_equal. apply imap_ext.
  intros i x _. cbn. f_equal. lia.
Qed.

Lemma store_all_inv (es : list (Event * option Version)) s :
  mem_inv s → has_room s (length es) →
  ∃ s', store_all ((λ ev, mkEWV (Some ev.1) ev.2) <$> es) s = Done s' ∧ mem_inv s'
        ∧ events s' = events s ++ stored_all (nextSeq s) es.*1.
Proof.
  revert s; induction es as [|[e v] es IH]; intros s Hinv Hroom.
  - exists s. by rewrite app_nil_r.
  - unfold has_room in Hroom. cbn [length] in Hroom.
    destruct (append_event_inv e s Hinv) as (s1 & Happ & Hinv1 & Hev1); [lia|].
    assert (nextSeq s1 = nextSeq s + 1) as Hseq.
    { rewrite (inv_seq s Hinv), (inv_seq s1 Hinv1), Hev1, length_app. cbn. lia. }
    destruct (IH s1 Hinv1) as (s2 & Hall & Hinv2 & Hev2).
    { unfold has_room. rewrite Hev1, length_app. cbn [length]. lia. }
    exists s2. rewrite fmap_cons. cbn [store_all ev_event fst deref obind]. rewrite Happ.
    cbn [obind]. split; [done|]. split; [done|].
    by rewrite Hev2, Hev1, Hseq, fmap_cons, stored_all_cons, <-app_assoc.
Qed.

Lemma Store_ok evt version s :
  mem_inv s → has_room s 1 →
  ∃ s', Store background (Some evt) version s = Done (s', None) ∧ mem_inv s'
        ∧ events s' = events s ++ [stored evt (nextSeq s)].
Proof.
  intros Hinv Hroom.
  destruct (append_event_inv evt s Hinv) as (s' & Happ & Hinv' & Hev).
  { unfold has_room in Hroom. lia. }
  exists s'. unfold Store, background. rewrite (inv_open s Hinv). cbn. by rewrite Happ.
Qed.

(** *** Reads *)

Lemma elem_of_stream_events ev s l : ev ∈ stream_events s l → ev ∈ events s.
Proof.
  unfold stream_events. intros (i & _ & Hi)%list_elem_of_omap. by eapply list_elem_of_lookup_2.
Qed.

Lemma Load_since ctx since filters s :
  mem_inv s →
  Load ctx since filters s =
    match ctx 0%nat with
    | Some e => Done (Err (ErrCtx e))
    | None =>
        let* bad := check_since since in
        Done (match bad with
              | Some e => Err e
              | None => Ok (filter (wanted (fst (as_integer since)) filters) (events s))
              end)
    end.
Proof.
  intros Hinv. unfold Load. rewrite (inv_open s Hinv).
  destruct (ctx 0%nat); [done|]. destruct (check_since since) as [[]|]; cbn; [done| |done].
  rewrite filterM_selected; [done|]. intros ev. by apply inv_is_event.
Qed.

Lemma Load_wanted n filters s :
  mem_inv s →
  Load background (Some (IntegerCursor n)) filters s = Done (Ok (filter (wanted n filters) (events s))).
Proof. intros Hinv. by rewrite Load_since. Qed.

Lemma LoadByAggregate_since ctx a since filters s :
  mem_inv s →
  LoadByAggregate ctx a since filters s =
    match ctx 0%nat with
    | Some e => Done (Err (ErrCtx e))
    | None =>
        let* bad := check_since since in
        Done (match bad with
              | Some e => Err e
              | None => Ok (filter (wanted (fst (as_integer since)) filters)
                              (filter (in_stream a) (events s)))
              end)
    end.
Proof.
  intros Hinv. destruct (inv_streams s Hinv) as (m & Hm & Hpos). specialize (Hpos a).
  unfold LoadByAggregate. rewrite (inv_open s Hinv), Hm.
  destruct (ctx 0%nat); [done|]. destruct (check_since since) as [[]|]; cbn; [done| |done].
  rewrite <-stream_lookup, <-Hpos. destruct (m !! a) as [l|]; [|done].
  rewrite filterM_selected; [done|].
  intros ev Hev. by eapply inv_is_event, elem_of_stream_events.
Qed.

(** On the log of versions 1, 2, 3, ... reading since [n] drops [n] entries. *)
Lemma filter_after_drop n s :
  mem_inv s → filter (after (Z.of_nat n)) (events s) = drop n (events s).
Proof.
  intros Hinv. rewrite <-(take_drop n (events s)) at 1. rewrite filter_app.
  assert (∀ i ev, events s !! i = Some ev → after (Z.of_nat n) ev ↔ (n ≤ i)%nat) as Hafter.
  { intros i ev Hi. destruct (inv_events s Hinv i ev Hi) as [_ Hv].
    unfold after. rewrite Hv. cbn. split; [lia|]. intros ?. split; [lia|done]. }
  rewrite (filter_none _ (take n _)), (filter_all _ (drop n _)); [done| |];
    intros ev [i Hi]%list_elem_of_lookup.
  - rewrite lookup_drop in Hi. apply (Hafter _ _ Hi). lia.
  - apply lookup_take_Some in Hi as [Hi Hlt]. rewrite (Hafter _ _ Hi). lia.
Qed.

Lemma wanted_nil n ev : wanted n [] ev ↔ after n ev.
Proof.
  unfold wanted, event_matches, filter_map_of. cbn.
  destruct (ev_event ev); cbn; rewrite ?lookup_empty; cbn; naive_solver.
Qed.

Lemma LatestVersion_length s :
  mem_inv s → LatestVersion background s = Ok (IntegerCursor (Z.of_nat (length (events s)))).
Proof.
  intros Hinv. unfold LatestVersion, background. rewrite (inv_open s Hinv), (inv_seq s Hinv).
  pose proof (inv_bound s Hinv). destruct (events s) as [|e l] eqn:He; [done|].
  do 2 f_equal. rewrite u64_small; [lia|]. unfold is_u64, u64_modulus. cbn [length] in *. lia.
Qed.
End results.

(** ** Properties *)

(** Remark: every sequence of stores on an open store with room keeps the log, the
    sequence counter and the stream index consistent: the store succeeds, the
    private copy of the event is appended with the next version and nothing
    already stored is touched. *)
Theorem Store_appends {MR : MapRange} (evt : Event) (version : option Version) (s : MemStore)
    (Hinv : mem_inv s) (Hroom : has_room s 1) :
  ∃ s', Store background (Some evt) version s = Done (s', None)
        ∧ mem_inv s'
        ∧ events s' = events s ++ [stored evt (Z.of_nat (length (events s)) + 1)].
Proof.
  destruct (Store_ok evt version s Hinv Hroom) as (s' & ? & ? & Hev).
  exists s'. by rewrite Hev, (inv_seq s Hinv).
Qed.

(** Remark: [StoreBatch] is the sequence of single stores, and it appends the whole
    batch in order with consecutive versions. *)
Theorem StoreBatch_is_Stores {MR : MapRange} (evs : list (Event * option Version)) (s : MemStore)
    (Hinv : mem_inv s) (Hroom : has_room s (length evs)) :
  ∃ s', StoreBatch background ((λ ev, mkEWV (Some ev.1) ev.2) <$> evs) s = Done (s', None)
        ∧ foldl (λ m ev, let* (s, _) := m in Store background (Some ev.1) ev.2 s)
            (Done (s, None)) evs = Done (s', None)
        ∧ mem_inv s'
        ∧ events s' = events s ++ stored_all (nextSeq s) evs.*1.
Proof.
  destruct (store_all_inv evs s Hinv Hroom) as (s' & Hall & Hinv' & Hev).
  exists s'. split; [|split; [|done]].
  - unfold StoreBatch, background. rewrite (inv_open s Hinv), Hall.
    destruct evs; [|done]. cbn in Hall. by injection Hall as ->.
  - clear Hev Hinv'. revert s Hinv Hroom Hall.
    induction evs as [|[e v] evs IH]; intros s Hinv Hroom Hall.
    + cbn in Hall. by injection Hall as ->.
    + rewrite fmap_cons in Hall. cbn [store_all ev_event fst deref obind] in Hall.
      cbn [foldl obind fst snd]. unfold has_room in Hroom. cbn [length] in Hroom.
      destruct (append_event_inv e s Hinv) as (s1 & Happ & Hinv1 & Hev1); [lia|].
      rewrite Happ in Hall. cbn [obind] in Hall.
      assert (Store background (Some e) v s = Done (s1, None)) as ->.
      { unfold Store, background. rewrite (inv_open s Hinv). cbn. by rewrite Happ. }
      apply IH; [done| |done]. unfold has_room. rewrite Hev1, length_app. cbn [length]. lia.
Qed.

(** Remark: [Load] returns exactly the stored events after [since] that satisfy
    every filter, in store order; it reports a cancelled context, a version of
    another kind that is not zero, and panics only on a nil version. *)
Theorem Load_exact (ctx : CtxView) (since : Version) (filters : list Filter)
    (s : MemStore) (Hinv : mem_inv s) (Hctx : ctx 0%nat = None) :
  (∀ n, since = IntegerCursor n →
     Load ctx (Some since) filters s = Done (Ok (filter (wanted n filters) (events s))))
  ∧ (∀ cs, since = VectorCursor cs → Load ctx (Some since) filters s =
       Done (if VectorCursor_IsZero cs then Ok (filter (wanted 0 filters) (events s))
             else Err err_version))
  ∧ ∃ why, Load ctx None filters s = Panic why.
Proof.
  split; [|split].
  - intros n ->. by rewrite Load_since, Hctx.
  - intros cs ->. rewrite Load_since, Hctx by done. cbn. by destruct (VectorCursor_IsZero cs).
  - eexists. by rewrite Load_since, Hctx.
Qed.

(** Remark: reading a stream through its index is the same as loading the whole
    store and keeping that stream's events, on every input: same events in the
    same order, same errors, same panics. *)
Theorem LoadByAggregate_is_filtered_Load (ctx : CtxView) (a : string)
    (since : option Version) (filters : list Filter) (s : MemStore) (Hinv : mem_inv s) :
  LoadByAggregate ctx a since filters s =
    let* r := Load ctx since filters s in
    Done (match r with
          | Ok evs => Ok (filter (in_stream a) evs)
          | Err e => Err e
          end).
Proof.
  rewrite LoadByAggregate_since, Load_since by done.
  destruct (ctx 0%nat); [done|]. destruct (check_since since) as [[]|]; cbn; [done| |done].
  do 2 f_equal. apply filter_comm.
Qed.

(** Remark: incremental reading neither loses nor repeats an event: since version
    [n] one gets exactly the log without its first [n] entries, and since the
    latest version nothing, whatever the filters. *)
Theorem Load_resumes (n : nat) (filters : list Filter) (s : MemStore)
    (Hinv : mem_inv s) :
  Load background (Some (IntegerCursor (Z.of_nat n))) [] s = Done (Ok (drop n (events s)))
  ∧ ∃ v, LatestVersion background s = Ok v ∧ Load background (Some v) filters s = Done (Ok []).
Proof.
  split.
  - rewrite Load_wanted by done. rewrite <-(filter_after_drop n s Hinv). do 2 f_equal.
    apply filter_ext_elem. intros ev _. apply wanted_nil.
  - eexists. split; [by apply LatestVersion_length|]. rewrite Load_wanted by done. do 2 f_equal.
    apply filter_none. intros ev Hev [Haft _].
    assert (ev ∈ filter (after (Z.of_nat (length (events s)))) (events s)) as Hin
      by (by apply list_elem_of_filter).
    rewrite filter_after_drop, drop_ge in Hin by done. by apply not_elem_of_nil in Hin.
Qed.

(** Remark: after [Close] every operation fails with the same error and leaves the
    store as it is, and closing again changes nothing. *)
Theorem Close_final {MR : MapRange} (s : MemStore) (evt : Event) (a : string)
    (v since : option Version) (evs : list EventWithVersion) (filters : list Filter) :
  let s' := Close s in
  Store background (Some evt) v s' = Done (s', Some err_closed)
  ∧ StoreBatch background evs s' = Done (s', match evs with [] => None | _ => Some err_closed end)
  ∧ Load background since filters s' = Done (Err err_closed)
  ∧ LoadByAggregate background a since filters s' = Done (Err err_closed)
  ∧ LatestVersion background s' = Err err_closed
  ∧ Close s' = s'.
Proof.
  assert (closed (Close s) = true) as Hc by (unfold Close; destruct (closed s) eqn:?; done).
  unfold Store, StoreBatch, Load, LoadByAggregate, LatestVersion, background.
  cbn zeta. rewrite Hc. repeat split; [by destruct evs|]. unfold Close at 1. by rewrite Hc.
Qed.

(** Remark: storing is not idempotent: an event stored again under the same id is
    kept twice, under two versions, so a reader sees it twice. *)
Theorem Store_not_idempotent {MR : MapRange} (evt : Event) (v : option Version) (s : MemStore)
    (Hinv : mem_inv s) (Hroom : has_room s 2) :
  ∃ s1 s2, Store background (Some evt) v s = Done (s1, None)
    ∧ Store background (Some evt) v s1 = Done (s2, None)
    ∧ filter (λ ev, ID <$> ev_event ev = Some (ID evt)) (drop (length (events s)) (events s2))
      = [stored evt (nextSeq s); stored evt (nextSeq s + 1)].
Proof.
  destruct (Store_ok evt v s Hinv) as (s1 & H1 & Hinv1 & Hev1); [unfold has_room in *; lia|].
  destruct (Store_ok evt v s1 Hinv1) as (s2 & H2 & Hinv2 & Hev2).
  { unfold has_room in *. rewrite Hev1, length_app. cbn [length]. lia. }
  exists s1, s2. split; [done|]. split; [done|].
  rewrite Hev2, Hev1, <-app_assoc, drop_app_length.
  replace (nextSeq s1) with (nextSeq s + 1)
    by (rewrite (inv_seq s Hinv), (inv_seq s1 Hinv1), Hev1, length_app; cbn; lia).
  cbn [app]. rewrite !filter_cons, filter_nil. by rewrite !decide_True by done.
Qed.

(** ** Concrete instances *)

(** [ParseVersion] reads what [String] writes. *)
Lemma ParseVersion_String n : is_u64 n → ParseVersion (IntegerCursor_String n) = Ok (IntegerCursor n).
Proof.
  intros Hn. unfold ParseVersion, IntegerCursor_String. rewrite sscanf_format_uint by done.
  destruct (bool_decide_reflect (format_uint n = "")) as [E|_].
  { destruct (format_go_cons 19 n "") as (? & ? & E'). unfold format_uint in E. congruence. }
  destruct (bool_decide_reflect (format_uint n = "0")) as [E|_]; [|done].
  apply (format_uint_inj n 0) in E as ->; done.
Qed.

Definition demo_order : Event :=
  mkEvent "e1" "OrderCreated" "order-1" (AnyString "x") (Some {["tenant" := AnyString "t1"]}).
Definition demo_user : Event := mkEvent "e2" "UserCreated" "user-1" AnyNil None.
(** Three events in two streams. *)
Definition demo_store : MemStore :=
  match store_all (MR := canonical_range)
          ((λ ev, mkEWV (Some ev.1) ev.2) <$> [(demo_order, None); (demo_user, None); (demo_order, None)])
          New with
  | Done s => s
  | Panic _ => New
  end.

Lemma demo_store_inv : mem_inv demo_store.
Proof.
  destruct (store_all_inv (MR := canonical_range)
              [(demo_order, None); (demo_user, None); (demo_order, None)] New New_inv)
    as (s' & Hs & Hinv & _); [unfold has_room; cbn; lia|].
  unfold demo_store. by rewrite Hs.
Qed.
Lemma demo_store_room n : (n < 100)%nat → has_room demo_store n.
Proof. intros Hn. unfold has_room. replace (length (events demo_store)) with 3%nat by done. lia. Qed.

Lemma Store_appends_witness :
  ∃ s', Store (MR := canonical_range) background (Some demo_user) None demo_store = Done (s', None)
        ∧ mem_inv s'
        ∧ events s' = events demo_store
            ++ [stored (MR := canonical_range) demo_user
                  (Z.of_nat (length (events demo_store)) + 1)].
Proof.
  apply (Store_appends (MR := canonical_range) demo_user None demo_store demo_store_inv).
  apply demo_store_room. lia.
Defined.

Lemma StoreBatch_is_Stores_witness :
  ∃ s', StoreBatch (MR := canonical_range) background
          ((λ ev, mkEWV (Some ev.1) ev.2) <$> [(demo_user, None); (demo_order, None)]) demo_store
        = Done (s', None)
        ∧ foldl (λ m ev, let* (s, _) := m in
                          Store (MR := canonical_range) background (Some ev.1) ev.2 s)
            (Done (demo_store, None)) [(demo_user, None); (demo_order, None)] = Done (s', None)
        ∧ mem_inv s'
        ∧ events s' = events demo_store
            ++ stored_all (MR := canonical_range) (nextSeq demo_store) [demo_user; demo_order].
Proof.
  apply (StoreBatch_is_Stores (MR := canonical_range)
           [(demo_user, None); (demo_order, None)] demo_store demo_store_inv).
  apply demo_store_room. cbn. lia.
Defined.

Lemma Load_exact_witness :
  Load background (Some (IntegerCursor 1)) [mkFilter "tenant" "t1"] demo_store
  = Done (Ok (filter (wanted 1 [mkFilter "tenant" "t1"]) (events demo_store)))
  ∧ length (filter (wanted 1 [mkFilter "tenant" "t1"]) (events demo_store)) = 1%nat.
Proof.
  split; [|vm_compute; reflexivity].
  by apply (Load_exact background (IntegerCursor 1)
              [mkFilter "tenant" "t1"] demo_store demo_store_inv eq_refl).
Defined.

Lemma LoadByAggregate_is_filtered_Load_witness :
  LoadByAggregate background "order-1" (Some (IntegerCursor 1)) [] demo_store =
    (let* r := Load background (Some (IntegerCursor 1)) [] demo_store in
     Done (match r with
           | Ok evs => Ok (filter (in_stream "order-1") evs)
           | Err e => Err e
           end)).
Proof.
  apply (LoadByAggregate_is_filtered_Load background "order-1"
           (Some (IntegerCursor 1)) [] demo_store demo_store_inv).
Defined.

Lemma Load_resumes_witness :
  Load background (Some (IntegerCursor 2)) [] demo_store = Done (Ok (drop 2 (events demo_store)))
  ∧ ∃ v, LatestVersion background demo_store = Ok v
         ∧ Load background (Some v) [mkFilter "type" "UserCreated"] demo_store = Done (Ok []).
Proof.
  apply (Load_resumes 2 [mkFilter "type" "UserCreated"] demo_store
           demo_store_inv).
Defined.

Lemma Store_not_idempotent_witness :
  ∃ s1 s2, Store (MR := canonical_range) background (Some demo_order) None demo_store = Done (s1, None)
    ∧ Store (MR := canonical_range) background (Some demo_order) None s1 = Done (s2, None)
    ∧ filter (λ ev, ID <$> ev_event ev = Some (ID demo_order))
        (drop (length (events demo_store)) (events s2))
      = [stored (MR := canonical_range) demo_order (nextSeq demo_store);
         stored (MR := canonical_range) demo_order (nextSeq demo_store + 1)].
Proof.
  apply (Store_not_idempotent (MR := canonical_range) demo_order None demo_store demo_store_inv).
  apply demo_store_room. lia.
Defined.
