(* ===== verification/MemChan.v ===== *)
(** * The in-memory channel transport (src/transport/memchan/memchan.go)

    The shared event list, the subscriber channels with their goroutines and
    the hub.  [Push] holds the mutex, but the subscriber goroutines receive
    from their channels concurrently with its delivery loop: a [Sched] says
    what they take before each send and which ready case each [select] picks,
    and the theorems hold for every schedule. *)
From S2P Require Import Prelude Types Json Errors VectorClock Versions.
From stdpp Require Import options.

(** A subscriber: its channel, and the local state of the goroutine reading it. *)
Record Sub := mkSub {
  buf : list (option Event);
  chan_closed : bool;
  batch : list EventWithVersion;
  handled : list (list EventWithVersion);
  running : bool
}.

(** [subs] holds channel identities, [chans] the channels themselves. *)
Record MemChan := mkMemChan {
  events : list EventWithVersion;
  subs : list nat;
  chans : gmap nat Sub;
  next_chan : nat;
  capacity : nat;
  closed : bool
}.

Definition err_transport_closed : error := ErrMsg "transport is closed".

Definition New (cap : Z) : MemChan :=
  mkMemChan [] [] ∅ 0 (if cap <=? 0 then 16%nat else Z.to_nat cap) false.

(** ** The subscriber goroutine *)

(** [case ev, ok := <-ch] with a value: the event joins the batch under a
    version made from the clock. *)
Definition recv (now : Z) (c : Sub) : Sub :=
  match buf c with
  | [] => c
  | e :: rest =>
      mkSub rest (chan_closed c)
        (batch c ++ [mkEWV e (Some (IntegerCursor (u64 now)))]) (handled c) (running c)
  end.

(** Hand the batch over when there is one. *)
Definition flush (c : Sub) : Sub :=
  match batch c with
  | [] => c
  | b => mkSub (buf c) (chan_closed c) [] (handled c ++ [b]) (running c)
  end.

Definition stop (c : Sub) : Sub :=
  mkSub (buf c) (chan_closed c) (batch c) (handled c) false.

Definition close_chan (c : Sub) : outcome Sub :=
  if chan_closed c then Panic "close of closed channel"
  else Done (mkSub (buf c) true (batch c) (handled c) (running c)).

Definition get_chan (id : nat) (s : MemChan) : outcome Sub :=
  match chans s !! id with Some c => Done c | None => Panic "no such channel" end.
Definition set_chan (id : nat) (c : Sub) (s : MemChan) : MemChan :=
  mkMemChan (events s) (subs s) (<[id := c]> (chans s)) (next_chan s) (capacity s) (closed s).

(** The deferred cleanup: the first matching entry is cut out of the slice and
    its channel closed; nothing happens when it is not listed. *)
Fixpoint remove_first (id : nat) (l : list nat) : option (list nat) :=
  match l with
  | [] => None
  | x :: rest => if Nat.eqb x id then Some rest else (x ::.) <$> remove_first id rest
  end.
Definition cleanup (id : nat) (s : MemChan) : outcome MemChan :=
  match remove_first id (subs s) with
  | None => Done s
  | Some subs' =>
      let* c := get_chan id s in
      let* c' := close_chan c in
      Done (mkMemChan (events s) subs' (<[id := c']> (chans s)) (next_chan s)
              (capacity s) (closed s))
  end.

(** The three cases of the goroutine's [select]. *)
Definition on_recv (now : Z) (id : nat) (s : MemChan) : outcome MemChan :=
  let* c := get_chan id s in Done (set_chan id (recv now c) s).
Definition on_tick (id : nat) (s : MemChan) : outcome MemChan :=
  let* c := get_chan id s in Done (set_chan id (flush c) s).
(** The context is done, or the channel is closed and drained. *)
Definition on_exit (id : nat) (s : MemChan) : outcome MemChan :=
  let* c := get_chan id s in cleanup id (set_chan id (stop (flush c)) s).

(** ** Operations *)

Record Sched := mkSched {
  drained : nat → nat → nat;      (* receives of a channel before the k-th send *)
  stamp : nat → nat → nat → Z;    (* and the clock at each of them *)
  prefers_send : nat → bool       (* the choice between two ready cases *)
}.

Fixpoint recvs (now : nat → Z) (n : nat) (c : Sub) : Sub :=
  match n with O => c | S n => recvs now n (recv (now n) c) end.
Definition receive_round (sch : Sched) (k : nat) (cs : gmap nat Sub) : gmap nat Sub :=
  map_imap (λ id c, Some (if running c then recvs (stamp sch k id) (drained sch k id) c else c)) cs.

Definition send (e : option Event) (c : Sub) : Sub :=
  mkSub (buf c ++ [e]) (chan_closed c) (batch c) (handled c) (running c).

(** The [select] of the delivery loop: send, context done, or drop. *)
Definition offer (cap : nat) (done : option CtxErr) (prefer : bool) (e : option Event)
    (c : Sub) : outcome (result CtxErr Sub) :=
  let ready := chan_closed c || Nat.ltb (length (buf c)) cap in
  match done with
  | Some err => if ready && prefer
                then if chan_closed c then Panic "send on closed channel" else Done (Ok (send e c))
                else Done (Err err)
  | None => if ready
            then if chan_closed c then Panic "send on closed channel" else Done (Ok (send e c))
            else Done (Ok c)
  end.

Fixpoint deliver (cap : nat) (ctx : CtxView) (sch : Sched) (k : nat)
    (work : list (option Event * nat)) (cs : gmap nat Sub)
    : outcome (gmap nat Sub * option error) :=
  match work with
  | [] => Done (cs, None)
  | (e, id) :: rest =>
      let cs := receive_round sch k cs in
      match cs !! id with
      | None => Panic "no such channel"
      | Some c =>
          let* r := offer cap (ctx (S k)) (prefers_send sch k) e c in
          match r with
          | Err err => Done (cs, Some (ErrCtx err))
          | Ok c' => deliver cap ctx sch (S k) rest (<[id := c']> cs)
          end
      end
  end.

(** [for _, ev := range events { for i, sub := range c.subs { ... } }]. *)
Definition deliveries (evs : list EventWithVersion) (ids : list nat) : list (option Event * nat) :=
  flat_map (λ ev, (λ id, (ev_event ev, id)) <$> ids) evs.

Definition Push (ctx : CtxView) (sch : Sched) (evs : list EventWithVersion) (s : MemChan)
    : outcome (MemChan * option error) :=
  match ctx 0%nat with
  | Some e => Done (s, Some (ErrCtx e))
  | None =>
      if closed s then Done (s, Some err_transport_closed)
      else
        let* (cs, err) := deliver (capacity s) ctx sch 0 (deliveries evs (subs s)) (chans s) in
        Done (mkMemChan (events s ++ evs) (subs s) cs (next_chan s) (capacity s) false, err)
  end.

Definition Pull (ctx : CtxView) (since : option Version) (s : MemChan)
    : outcome (result error (list EventWithVersion)) :=
  match ctx 0%nat with
  | Some e => Done (Err (ErrCtx e))
  | None =>
      if closed s then Done (Err err_transport_closed)
      else
        let* bad := check_since since in
        Done (match bad with
              | Some e => Err e
              | None => Ok (filter (λ ev, let '(seq, ok) := as_integer (ev_version ev) in
                                          ok && (fst (as_integer since) <? seq)) (events s))
              end)
  end.

Definition max_version (evs : list EventWithVersion) : Z :=
  fold_left (λ m ev, let '(seq, ok) := as_integer (ev_version ev) in
                     if ok && (m <? seq) then seq else m) evs 0.
Definition GetLatestVersion (ctx : CtxView) (s : MemChan) : result error Version :=
  match ctx 0%nat with
  | Some e => Err (ErrCtx e)
  | None =>
      if closed s then Err err_transport_closed
      else match events s with
           | [] => Ok (IntegerCursor 0)
           | _ => Ok (IntegerCursor (max_version (events s)))
           end
  end.

(** [has_handler] is [handler != nil]; the closed flag is not consulted. *)
Definition Subscribe (has_handler : bool) (s : MemChan) : MemChan * option error :=
  if has_handler then
    (mkMemChan (events s) (subs s ++ [next_chan s])
       (<[next_chan s := mkSub [] false [] [] true]> (chans s)) (S (next_chan s))
       (capacity s) (closed s), None)
  else (s, Some (ErrMsg "handler cannot be nil")).

Fixpoint close_all (ids : list nat) (s : MemChan) : outcome MemChan :=
  match ids with
  | [] => Done s
  | id :: rest =>
      let* c := get_chan id s in
      let* c' := close_chan c in
      close_all rest (set_chan id c' s)
  end.
Definition Close (s : MemChan) : outcome MemChan :=
  if closed s then Done s
  else
    let* s' := close_all (subs s) s in
    Done (mkMemChan [] [] (chans s') (next_chan s) (capacity s) true).

Record MemChanStats := mkStats {
  TotalEvents : nat; ActiveSubscribers : nat; ChannelCapacity : nat; Closed : bool
}.
Definition Stats (s : MemChan) : MemChanStats :=
  mkStats (length (events s)) (length (subs s)) (capacity s) (closed s).
Definition GetEvents (s : MemChan) : list EventWithVersion := events s.
Definition ClearEvents (s : MemChan) : MemChan :=
  mkMemChan [] (subs s) (chans s) (next_chan s) (capacity s) (closed s).
Definition CreatePair (cap : Z) : MemChan * MemChan := (New cap, New cap).

(** ** The hub: named transports (by identity) and the events broadcast *)
Record Hub := mkHub { transports : gmap string nat; hub_events : list EventWithVersion }.
Definition NewHub : Hub := mkHub ∅ [].
Definition AddTransport (name : string) (t : nat) (h : Hub) : Hub :=
  mkHub (<[name := t]> (transports h)) (hub_events h).
Definition RemoveTransport (name : string) (h : Hub) : Hub :=
  mkHub (delete name (transports h)) (hub_events h).
Definition GetHubEvents (h : Hub) : list EventWithVersion := hub_events h.

Fixpoint broadcast_loop (ctx : string → CtxView) (sch : string → Sched)
    (evs : list EventWithVersion) (ts : list (string * nat)) (heap : gmap nat MemChan)
    : outcome (gmap nat MemChan * option error) :=
  match ts with
  | [] => Done (heap, None)
  | (name, t) :: rest =>
      let* s := deref (heap !! t) in
      let* (s', err) := Push (ctx name) (sch name) evs s in
      let heap := <[t := s']> heap in
      match err with
      | Some e =>
          Done (heap, Some (ErrWrap ("failed to broadcast to transport " +:+ name) e))
      | None => broadcast_loop ctx sch evs rest heap
      end
  end.
Definition Broadcast `{!MapRange} (ctx : string → CtxView) (sch : string → Sched)
    (evs : list EventWithVersion) (h : Hub) (heap : gmap nat MemChan)
    : outcome (Hub * gmap nat MemChan * option error) :=
  let h := mkHub (transports h) (hub_events h ++ evs) in
  let* (heap, err) := broadcast_loop ctx sch evs (range (transports h)) heap in
  Done (h, heap, err).

(** ** Steps of the transport and its goroutines *)

Inductive mc_step : MemChan → MemChan → Prop :=
  | step_push ctx sch evs s s' err : Push ctx sch evs s = Done (s', err) → mc_step s s'
  | step_subscribe h s s' err : Subscribe h s = (s', err) → mc_step s s'
  | step_recv now id s s' c :
      chans s !! id = Some c → running c = true → on_recv now id s = Done s' → mc_step s s'
  | step_tick id s s' c :
      chans s !! id = Some c → running c = true → on_tick id s = Done s' → mc_step s s'
  | step_exit id s s' c :
      chans s !! id = Some c → running c = true → on_exit id s = Done s' → mc_step s s'
  | step_close s s' : Close s = Done s' → mc_step s s'
  | step_clear s : mc_step s (ClearEvents s).

(** Every listed channel exists, is open and is listed once; every buffer
    respects the capacity; identities are fresh. *)
Record mc_inv (s : MemChan) : Prop := {
  inv_capacity : (0 < capacity s)%nat;
  inv_subs : NoDup (subs s);
  inv_open : ∀ id, id ∈ subs s → ∃ c, chans s !! id = Some c ∧ chan_closed c = false;
  inv_chans : ∀ id c, chans s !! id = Some c → (id < next_chan s ∧ length (buf c) ≤ capacity s)%nat
}.

(** What a subscriber has been handed, holds in its batch, or has still in its
    channel: the sequence of events that reaches its handler. *)
Definition received (c : Sub) : list (option Event) :=
  (ev_event <$> concat (handled c)) ++ (ev_event <$> batch c) ++ buf c.

Lemma received_recv now c : received (recv now c) = received c.
Proof.
  unfold received, recv. destruct (buf c) as [|e rest] eqn:Hb; [by rewrite Hb|]. cbn [handled batch buf].
  rewrite fmap_app. by rewrite <-app_assoc.
Qed.
Lemma received_recvs now n c : received (recvs now n c) = received c.
Proof. revert c; induction n as [|n IH]; intros c; [done|]. cbn. by rewrite IH, received_recv. Qed.
Lemma received_flush c : received (flush c) = received c.
Proof.
  unfold received, flush. destruct (batch c) as [|x b] eqn:Hb; [by rewrite Hb|].
  cbn [handled batch buf]. rewrite concat_app, fmap_app. cbn [concat].
  by rewrite app_nil_r, <-app_assoc.
Qed.
Lemma received_send e c : received (send e c) = received c ++ [e].
Proof. unfold received, send. cbn [handled batch buf]. by rewrite <-!app_assoc. Qed.

(** Receiving leaves the channel open or closed and only shortens the buffer. *)
Definition quieter (c c' : Sub) : Prop :=
  received c' = received c ∧ chan_closed c' = chan_closed c ∧ running c' = running c
  ∧ (length (buf c') ≤ length (buf c))%nat.
#[global] Instance quieter_preorder : PreOrder quieter.
Proof. unfold quieter. split; [by intros ?|]. intros ??? (?&?&?&?) (?&?&?&?). split_and!; try congruence. lia. Qed.

Lemma recv_quieter now c : quieter c (recv now c).
Proof.
  split; [apply received_recv|]. unfold recv. destruct (buf c) as [|e l] eqn:Hb; [by rewrite Hb|].
  cbn. split_and!; [done|done|lia].
Qed.
Lemma recvs_quieter now n c : quieter c (recvs now n c).
Proof.
  revert c; induction n as [|n IH]; intros c; [done|]. cbn. etrans; [apply recv_quieter|apply IH].
Qed.
Lemma receive_round_lookup sch k cs id :
  receive_round sch k cs !! id =
    (λ c, if running c then recvs (stamp sch k id) (drained sch k id) c else c) <$> cs !! id.
Proof. unfold receive_round. rewrite map_lookup_imap. by destruct (cs !! id). Qed.
Lemma receive_round_quieter sch k cs id c :
  cs !! id = Some c → ∃ c', receive_round sch k cs !! id = Some c' ∧ quieter c c'.
Proof.
  intros Hc. rewrite receive_round_lookup, Hc. cbn. eexists. split; [done|].
  destruct (running c); [apply recvs_quieter|done].
Qed.
Lemma receive_round_inv sch k cs id c' :
  receive_round sch k cs !! id = Some c' → ∃ c, cs !! id = Some c ∧ quieter c c'.
Proof.
  rewrite receive_round_lookup. destruct (cs !! id) as [c|] eqn:Hc; [|done]. cbn. intros [= <-].
  exists c. split; [done|]. destruct (running c); [apply recvs_quieter|done].
Qed.

(** On an open channel an offer sends, drops or stops; it never panics. *)
Lemma offer_cases cap done prefer e c :
  chan_closed c = false → (length (buf c) ≤ cap)%nat →
  (offer cap done prefer e c = Done (Ok (send e c)) ∧ (length (buf c) < cap)%nat)
  ∨ (offer cap done prefer e c = Done (Ok c) ∧ done = None ∧ length (buf c) = cap)
  ∨ ∃ err, offer cap done prefer e c = Done (Err err) ∧ done = Some err.
Proof.
  intros Hc Hlen. unfold offer. rewrite Hc, orb_false_l.
  destruct done as [err|]; destruct (Nat.ltb_spec (length (buf c)) cap); cbn;
    try destruct prefer;
    first [left; split; [done|lia]|right; left; split_and!; [done|done|lia]|right; right; by eexists].
Qed.

(** The part of the work addressed to one channel. *)
Definition work_for (id : nat) (work : list (option Event * nat)) : list (option Event) :=
  (filter (λ w : option Event * nat, w.2 = id) work).*1.

(** What a call has done to the channels: existing ones got a subsequence of
    what was offered to them, within the capacity; none appeared or closed. *)
Definition delivered (cap : nat) (work : list (option Event * nat)) (cs cs' : gmap nat Sub) : Prop :=
  ∀ id, match cs !! id, cs' !! id with
        | Some c, Some c' =>
            (∃ l, sublist l (work_for id work) ∧ received c' = received c ++ l)
            ∧ chan_closed c' = chan_closed c ∧ running c' = running c
            ∧ (length (buf c) ≤ cap → length (buf c') ≤ cap)%nat
        | None, None => True
        | _, _ => False
        end.

Lemma delivered_quiet cap work cs sch k : delivered cap work cs (receive_round sch k cs).
Proof.
  intros id. rewrite receive_round_lookup. destruct (cs !! id) as [c|]; cbn; [|done].
  assert (quieter c (if running c then recvs (stamp sch k id) (drained sch k id) c else c))
    as (Hr & Hcl & Hrun & Hlen) by (destruct (running c); [apply recvs_quieter|done]).
  split_and!; [|done|done|lia]. exists []. rewrite app_nil_r. split; [apply sublist_nil_l|done].
Qed.

Lemma delivered_cons cap e id c1 work cs cs1 cs2 :
  delivered cap [] cs cs1 → cs1 !! id = Some c1 →
  (∃ c2, (c2 = c1 ∨ (c2 = send e c1 ∧ (length (buf c1) < cap)%nat))
         ∧ delivered cap work (<[id := c2]> cs1) cs2) →
  delivered cap ((e, id) :: work) cs cs2.
Proof.
  intros Hd1 Hc1 (c2 & Hc2 & Hd2) j. specialize (Hd1 j). specialize (Hd2 j).
  unfold work_for in *. rewrite filter_nil in Hd1. rewrite filter_cons. cbn [snd].
  destruct (decide (id = j)) as [<-|Hne].
  - rewrite Hc1 in Hd1. rewrite lookup_insert_eq in Hd2. destruct (cs !! id) as [c|]; [|done].
    destruct Hd1 as ((l1 & Hl1 & Hr1) & Hcl1 & Hrun1 & Hb1). destruct (cs2 !! id) as [c3|]; [|done].
    destruct Hd2 as ((l2 & Hl2 & Hr2) & Hcl2 & Hrun2 & Hb2).
    apply sublist_nil_r in Hl1 as ->. rewrite app_nil_r in Hr1.
    destruct Hc2 as [->|[-> Hroom]].
    + split_and!; try congruence; [|lia]. exists l2. split; [by apply sublist_cons|congruence].
    + cbn [chan_closed running buf send] in *. rewrite received_send in Hr2.
      split_and!; try congruence.
      * exists (e :: l2). split; [by apply sublist_skip|]. rewrite Hr2, Hr1. by rewrite <-app_assoc.
      * intros _. apply Hb2. rewrite length_app. cbn. lia.
  - rewrite lookup_insert_ne in Hd2 by done.
    destruct (cs !! j) as [c|], (cs1 !! j) as [c'|], (cs2 !! j) as [c''|]; try done.
    destruct Hd1 as ((l1 & Hl1 & Hr1) & Hcl1 & Hrun1 & Hb1).
    destruct Hd2 as ((l2 & Hl2 & Hr2) & Hcl2 & Hrun2 & Hb2).
    apply sublist_nil_r in Hl1 as ->. rewrite app_nil_r in Hr1.
    split_and!; try congruence; [|lia]. exists l2. split; [done|congruence].
Qed.

Lemma delivered_cap cap work cs cs' :
  delivered cap work cs cs' → map_Forall (λ _ c, (length (buf c) ≤ cap)%nat) cs →
  map_Forall (λ _ c, (length (buf c) ≤ cap)%nat) cs'.
Proof.
  intros Hd Hcs id c' Hc'. specialize (Hd id). rewrite Hc' in Hd.
  destruct (cs !! id) as [c|] eqn:Hc; [|done]. apply Hd. by eapply Hcs.
Qed.
Lemma delivered_open cap work cs cs' id :
  delivered cap work cs cs' →
  (∃ c, cs !! id = Some c ∧ chan_closed c = false) → ∃ c, cs' !! id = Some c ∧ chan_closed c = false.
Proof.
  intros Hd (c & Hc & Ho). specialize (Hd id). rewrite Hc in Hd.
  destruct (cs' !! id) as [c'|]; [|done]. exists c'. split; [done|]. by destruct Hd as (_ & -> & _).
Qed.

Definition all_open (work : list (option Event * nat)) (cs : gmap nat Sub) : Prop :=
  ∀ id, id ∈ work.*2 → ∃ c, cs !! id = Some c ∧ chan_closed c = false.

Lemma offered_open e id (c1 c2 : Sub) (cs : gmap nat Sub) j :
  cs !! id = Some c1 → chan_closed c1 = false → c2 = c1 ∨ c2 = send e c1 →
  (∃ c, cs !! j = Some c ∧ chan_closed c = false) →
  ∃ c, <[id := c2]> cs !! j = Some c ∧ chan_closed c = false.
Proof.
  intros Hc1 Ho Hc2 Hj. destruct (decide (id = j)) as [<-|Hne].
  - rewrite lookup_insert_eq. exists c2. split; [done|]. by destruct Hc2 as [->| ->].
  - by rewrite lookup_insert_ne.
Qed.
Lemma offered_cap cap e id (c1 c2 : Sub) (cs : gmap nat Sub) :
  map_Forall (λ _ c, (length (buf c) ≤ cap)%nat) cs → cs !! id = Some c1 →
  c2 = c1 ∨ (c2 = send e c1 ∧ (length (buf c1) < cap)%nat) →
  map_Forall (λ _ c, (length (buf c) ≤ cap)%nat) (<[id := c2]> cs).
Proof.
  intros Hcs Hc1 Hc2. apply map_Forall_insert_2; [|done].
  destruct Hc2 as [->|[-> ?]]; [by eapply Hcs|]. cbn. rewrite length_app. cbn. lia.
Qed.

Lemma deliver_spec cap ctx sch work k cs :
  all_open work cs → map_Forall (λ _ c, (length (buf c) ≤ cap)%nat) cs →
  ∃ cs' err, deliver cap ctx sch k work cs = Done (cs', err) ∧ delivered cap work cs cs'
             ∧ (err = None ∨ ∃ n e, ctx n = Some e ∧ err = Some (ErrCtx e)).
Proof.
  revert k cs; induction work as [|[e id] work IH]; intros k cs Hopen Hcap.
  - exists cs, None. split; [done|]. split; [|by left]. intros id.
    destruct (cs !! id) as [c|]; [|done]. split_and!; [|done|done|lia].
    exists []. by rewrite app_nil_r.
  - cbn [deliver].
    pose proof (delivered_quiet cap [] cs sch k) as Hq.
    set (cs1 := receive_round sch k cs) in *.
    pose proof (delivered_cap _ _ _ _ Hq Hcap) as Hcap1.
    destruct (delivered_open _ _ _ _ id Hq) as (c1 & Hc1 & Ho1).
    { apply Hopen. rewrite fmap_cons. set_solver. }
    rewrite Hc1.
    assert (∀ c2, c2 = c1 ∨ (c2 = send e c1 ∧ (length (buf c1) < cap)%nat) →
      ∃ cs' err, deliver cap ctx sch (S k) work (<[id := c2]> cs1) = Done (cs', err)
        ∧ delivered cap ((e, id) :: work) cs cs'
        ∧ (err = None ∨ ∃ n e, ctx n = Some e ∧ err = Some (ErrCtx e))) as Hgo.
    { intros c2 Hc2. destruct (IH (S k) (<[id := c2]> cs1)) as (cs' & err & Hrun & Hd & Herr).
      - intros j Hj. apply (offered_open e id c1); [done..|naive_solver|].
        eapply delivered_open; [done|]. apply Hopen. rewrite fmap_cons. set_solver.
      - by eapply offered_cap.
      - exists cs', err. split; [done|]. split; [|done].
        eapply delivered_cons; [exact Hq|exact Hc1|]. eauto. }
    destruct (offer_cases cap (ctx (S k)) (prefers_send sch k) e c1 Ho1)
      as [[-> Hroom]|[(-> & _ & _)|(err & -> & Hdone)]]; [by eapply Hcap1| | |]; cbn [obind].
    + apply Hgo. by right.
    + apply Hgo. by left.
    + exists cs1, (Some (ErrCtx err)). split; [done|]. split; [apply delivered_quiet|]. right.
      by exists (S k), err.
Qed.

(** With room for everything and no cancellation nothing is dropped. *)
Lemma deliver_all cap ctx sch work k cs :
  (∀ n, ctx n = None) → all_open work cs →
  (∀ id c, cs !! id = Some c → (length (buf c) + length (work_for id work) ≤ cap)%nat) →
  ∃ cs', deliver cap ctx sch k work cs = Done (cs', None)
    ∧ ∀ id c, cs !! id = Some c →
        ∃ c', cs' !! id = Some c' ∧ received c' = received c ++ work_for id work.
Proof.
  intros Hctx. revert k cs; induction work as [|[e id] work IH]; intros k cs Hopen Hroom.
  - exists cs. split; [done|]. intros id c Hc. exists c. by rewrite app_nil_r.
  - cbn [deliver].
    destruct (Hopen id) as (c & Hc & Ho); [rewrite fmap_cons; set_solver|].
    destruct (receive_round_quieter sch k cs id c Hc) as (c1 & Hc1 & Hr1 & Hcl1 & Hrun1 & Hlen1).
    set (cs1 := receive_round sch k cs) in *. rewrite Hc1.
    assert (length (buf c1) < cap)%nat as Hlt.
    { pose proof (Hroom id c Hc) as Hr. unfold work_for in Hr.
      rewrite filter_cons, decide_True in Hr by done. cbn in Hr. lia. }
    destruct (offer_cases cap (ctx (S k)) (prefers_send sch k) e c1) as [[-> _]|[(_ & _ & ?)|(err & _ & Hd)]];
      [congruence|lia| |lia|by rewrite Hctx in Hd]. cbn [obind].
    destruct (IH (S k) (<[id := send e c1]> cs1)) as (cs' & Hrun & Hall).
    + intros j Hj. apply (offered_open e id c1); [done|congruence|by right|].
      eapply (delivered_open cap [] cs); [apply delivered_quiet|]. apply Hopen.
      rewrite fmap_cons. set_solver.
    + intros j cj. destruct (decide (id = j)) as [<-|Hne].
      * rewrite lookup_insert_eq. intros [= <-]. cbn. rewrite length_app. cbn.
        pose proof (Hroom id c Hc) as Hr. unfold work_for in *.
        rewrite filter_cons, decide_True in Hr by done. cbn in Hr. lia.
      * rewrite lookup_insert_ne by done. intros (c0 & Hc0 & _ & _ & _ & Hl)%receive_round_inv.
        pose proof (Hroom j c0 Hc0) as Hr. unfold work_for in *.
        rewrite filter_cons, decide_False in Hr by done. lia.
    + exists cs'. split; [done|]. intros j cj Hj. unfold work_for. rewrite filter_cons. cbn [snd].
      destruct (decide (id = j)) as [<-|Hne].
      * destruct (Hall id (send e c1)) as (c' & Hc' & Hr'); [by rewrite lookup_insert_eq|].
        exists c'. split; [done|]. rewrite Hr', received_send, Hr1, Hc in *.
        simplify_eq. by rewrite <-app_assoc.
      * destruct (receive_round_quieter sch k cs j cj Hj) as (c2 & Hc2 & Hr2 & _).
        destruct (Hall j c2) as (c' & Hc' & Hr'); [by rewrite lookup_insert_ne|].
        exists c'. split; [done|]. by rewrite Hr', Hr2.
Qed.

Lemma work_for_deliveries id evs ids :
  NoDup ids →
  work_for id (deliveries evs ids) = if decide (id ∈ ids) then ev_event <$> evs else [].
Proof.
  intros Hnd. unfold work_for, deliveries.
  assert (∀ ev : EventWithVersion,
    (filter (λ w : option Event * nat, w.2 = id) ((λ j, (ev_event ev, j)) <$> ids)).*1
    = if decide (id ∈ ids) then [ev_event ev] else []) as Hone.
  { intros ev. induction Hnd as [|j ids Hj _ IH]; [done|].
    rewrite fmap_cons, filter_cons. cbn [snd]. destruct (decide (j = id)) as [->|Hne].
    - rewrite fmap_cons, IH. rewrite decide_False by done. by rewrite decide_True by set_solver.
    - rewrite IH. by apply decide_ext; set_solver. }
  induction evs as [|ev evs IH]; cbn [flat_map]; [by destruct (decide (id ∈ ids))|].
  rewrite filter_app, fmap_app, Hone, IH. by destruct (decide (id ∈ ids)).
Qed.

(** ** The invariant *)

Lemma New_chan_inv cap : mc_inv (New cap).
Proof. split; cbn; [|apply NoDup_nil_2|set_solver|done]. destruct (Z.leb_spec cap 0); lia. Qed.

Lemma inv_all_open s evs : mc_inv s → all_open (deliveries evs (subs s)) (chans s).
Proof.
  intros Hinv id Hid. apply (inv_open s Hinv). unfold deliveries in Hid.
  induction evs as [|ev evs IH]; cbn [flat_map] in Hid; [by apply not_elem_of_nil in Hid|].
  rewrite fmap_app, elem_of_app in Hid. destruct Hid as [Hid|Hid]; [|by apply IH].
  rewrite <-list_fmap_compose in Hid. apply list_elem_of_fmap in Hid as (j & -> & Hj). done.
Qed.
Lemma inv_all_cap s : mc_inv s → map_Forall (λ _ c, (length (buf c) ≤ capacity s)%nat) (chans s).
Proof. intros Hinv id c Hc. by apply (inv_chans s Hinv) in Hc as [_ ?]. Qed.

Lemma Push_spec ctx sch evs s :
  mc_inv s → closed s = false → ctx 0%nat = None →
  ∃ cs err, Push ctx sch evs s
              = Done (mkMemChan (events s ++ evs) (subs s) cs (next_chan s) (capacity s) false, err)
    ∧ delivered (capacity s) (deliveries evs (subs s)) (chans s) cs
    ∧ (err = None ∨ ∃ n e, ctx n = Some e ∧ err = Some (ErrCtx e)).
Proof.
  intros Hinv Hc Hctx. unfold Push. rewrite Hctx, Hc.
  destruct (deliver_spec (capacity s) ctx sch (deliveries evs (subs s)) 0 (chans s))
    as (cs & err & -> & Hd & Herr); [by apply inv_all_open|by apply inv_all_cap|].
  by exists cs, err.
Qed.

Lemma remove_first_spec id l : NoDup l →
  match remove_first id l with
  | Some l' => id ∈ l ∧ NoDup l' ∧ ∀ j, j ∈ l' ↔ j ∈ l ∧ j ≠ id
  | None => id ∉ l
  end.
Proof.
  induction 1 as [|x l Hx Hnd IH]; cbn; [set_solver|].
  destruct (Nat.eqb_spec x id) as [->|Hne]; [set_solver|].
  destruct (remove_first id l) as [l'|]; cbn; [|set_solver].
  destruct IH as (Hid & Hnd' & Hl'). split; [set_solver|]. split; [|set_solver].
  apply NoDup_cons. split; [|done]. by intros []%Hl'.
Qed.

(** Replacing a channel by a quieter one keeps the invariant. *)
Lemma set_chan_inv id c c' s :
  mc_inv s → chans s !! id = Some c → chan_closed c' = chan_closed c →
  (length (buf c') ≤ length (buf c))%nat → mc_inv (set_chan id c' s).
Proof.
  intros Hinv Hc Hcl Hlen. destruct (inv_chans s Hinv id c Hc) as [Hid Hcap].
  split; cbn; [apply Hinv|apply Hinv| |].
  - intros j Hj. destruct (inv_open s Hinv j Hj) as (cj & Hcj & Ho).
    destruct (decide (id = j)) as [<-|Hne].
    + exists c'. rewrite lookup_insert_eq. split; [done|]. congruence.
    + exists cj. by rewrite lookup_insert_ne.
  - intros j cj. destruct (decide (id = j)) as [<-|Hne].
    + rewrite lookup_insert_eq. intros [= <-]. lia.
    + rewrite lookup_insert_ne by done. apply (inv_chans s Hinv).
Qed.

Lemma flush_quieter c : quieter c (flush c).
Proof. split; [apply received_flush|]. unfold flush. by destruct (batch c). Qed.

Lemma cleanup_inv id s : mc_inv s → ∃ s', cleanup id s = Done s' ∧ mc_inv s'.
Proof.
  intros Hinv. unfold cleanup. pose proof (remove_first_spec id (subs s) (inv_subs s Hinv)) as Hr.
  destruct (remove_first id (subs s)) as [l'|]; [|by exists s].
  destruct Hr as (Hid & Hnd & Hl'). destruct (inv_open s Hinv id Hid) as (c & Hc & Ho).
  unfold get_chan, close_chan. rewrite Hc. cbn [obind]. rewrite Ho. cbn [obind].
  eexists. split; [done|]. split; cbn; [apply Hinv|done| |].
  - intros j [Hj Hne]%Hl'. rewrite lookup_insert_ne by done. by apply (inv_open s Hinv).
  - intros j cj. destruct (decide (id = j)) as [<-|Hne].
    + rewrite lookup_insert_eq. intros [= <-]. by apply (inv_chans s Hinv) in Hc.
    + rewrite lookup_insert_ne by done. apply (inv_chans s Hinv).
Qed.

Lemma close_all_ok ids s :
  NoDup ids → (∀ id, id ∈ ids → ∃ c, chans s !! id = Some c ∧ chan_closed c = false) →
  (∀ id c, chans s !! id = Some c → (id < next_chan s ∧ length (buf c) ≤ capacity s)%nat) →
  ∃ s', close_all ids s = Done s' ∧ next_chan s' = next_chan s
    ∧ ∀ id c, chans s' !! id = Some c → (id < next_chan s ∧ length (buf c) ≤ capacity s)%nat.
Proof.
  intros Hnd; revert s; induction Hnd as [|id ids Hid _ IH]; intros s Ho Hb; [by exists s|].
  destruct (Ho id) as (c & Hc & Hcl); [set_solver|]. cbn [close_all]. unfold get_chan, close_chan.
  rewrite Hc. cbn [obind]. rewrite Hcl. cbn [obind].
  destruct (IH (set_chan id (mkSub (buf c) true (batch c) (handled c) (running c)) s))
    as (s' & Hs' & Hn & Hb'); [| |by exists s'].
  - intros j Hj. cbn. rewrite lookup_insert_ne by set_solver. apply Ho. set_solver.
  - intros j cj. cbn. destruct (decide (id = j)) as [<-|Hne].
    + rewrite lookup_insert_eq. intros [= <-]. by apply (Hb _ _ Hc).
    + rewrite lookup_insert_ne by done. apply Hb.
Qed.

Lemma Close_inv s : mc_inv s → ∃ s', Close s = Done s' ∧ mc_inv s' ∧ closed s' = true.
Proof.
  intros Hinv. unfold Close. destruct (closed s) eqn:Hcl; [by exists s|].
  destruct (close_all_ok (subs s) s) as (s' & -> & Hn & Hb);
    [apply Hinv|apply (inv_open s Hinv)|apply (inv_chans s Hinv)|].
  cbn [obind]. eexists. split; [done|]. split; [|done].
  split; cbn; [apply Hinv|apply NoDup_nil_2|set_solver|done].
Qed.

Lemma Push_inv ctx sch evs s :
  mc_inv s → ∃ s' err, Push ctx sch evs s = Done (s', err) ∧ mc_inv s'.
Proof.
  intros Hinv. destruct (ctx 0%nat) as [e|] eqn:Hctx.
  { exists s, (Some (ErrCtx e)). unfold Push. by rewrite Hctx. }
  destruct (closed s) eqn:Hcl.
  { exists s, (Some err_transport_closed). unfold Push. by rewrite Hctx, Hcl. }
  destruct (Push_spec ctx sch evs s Hinv Hcl Hctx) as (cs & err & Hp & Hd & _).
  eexists _, err. split; [exact Hp|]. split; cbn; [apply Hinv|apply Hinv| |].
  - intros id Hid. eapply delivered_open; [done|]. by apply (inv_open s Hinv).
  - intros id c' Hc'. pose proof (Hd id) as Hid. rewrite Hc' in Hid.
    destruct (chans s !! id) as [c|] eqn:Hc; [|done].
    apply (inv_chans s Hinv) in Hc as [Hlt Hlen]. split; [done|]. by apply Hid.
Qed.

Lemma Subscribe_inv h s : mc_inv s → mc_inv (Subscribe h s).1.
Proof.
  intros Hinv. unfold Subscribe. destruct h; [|done]. cbn.
  assert (next_chan s ∉ subs s) as Hfresh.
  { intros Hin. destruct (inv_open s Hinv _ Hin) as (c & Hc & _).
    apply (inv_chans s Hinv) in Hc as [? _]. lia. }
  split; cbn; [apply Hinv| | |].
  - apply NoDup_app. split_and!; [apply Hinv|set_solver|apply NoDup_singleton].
  - intros id. rewrite elem_of_app, list_elem_of_singleton. intros [Hid| ->].
    + rewrite lookup_insert_ne by congruence. by apply (inv_open s Hinv).
    + rewrite lookup_insert_eq. by eexists.
  - intros id c. destruct (decide (next_chan s = id)) as [<-|Hne].
    + rewrite lookup_insert_eq. intros [= <-]. cbn. pose proof (inv_capacity s Hinv). lia.
    + rewrite lookup_insert_ne by done. intros Hc%(inv_chans s Hinv). lia.
Qed.

Lemma mc_step_inv s s' : mc_inv s → mc_step s s' → mc_inv s'.
Proof.
  intros Hinv Hstep. revert Hinv.
  destruct Hstep as [ctx sch evs s0 s1 err Hp|h s0 s1 err Hs|now id s0 s1 c Hc _ Hs
    |id s0 s1 c Hc _ Hs|id s0 s1 c Hc _ Hs|s0 s1 Hs|s0]; intros Hinv.
  - destruct (Push_inv ctx sch evs s0 Hinv) as (s2 & err2 & Hp2 & ?). congruence.
  - pose proof (Subscribe_inv h s0 Hinv) as Hi. by rewrite Hs in Hi.
  - unfold on_recv, get_chan in Hs. rewrite Hc in Hs. injection Hs as <-.
    destruct (recv_quieter now c) as (_ & ? & _ & ?). by eapply set_chan_inv.
  - unfold on_tick, get_chan in Hs. rewrite Hc in Hs. injection Hs as <-.
    destruct (flush_quieter c) as (_ & ? & _ & ?). by eapply set_chan_inv.
  - unfold on_exit, get_chan in Hs. rewrite Hc in Hs. cbn [obind] in Hs.
    destruct (cleanup_inv id (set_chan id (stop (flush c)) s0)) as (s2 & Hs2 & ?); [|congruence].
    destruct (flush_quieter c) as (_ & ? & _ & ?). by eapply set_chan_inv.
  - destruct (Close_inv s0 Hinv) as (s2 & ? & ? & _). congruence.
  - split; cbn; apply Hinv.
Qed.

Lemma max_version_spec evs m :
  let step := λ m ev, let '(seq, ok) := as_integer (ev_version ev) in
                      if ok && (m <? seq) then seq else m in
  let r := fold_left step evs m in
  m ≤ r ∧ (∀ ev seq, ev ∈ evs → ev_version ev = Some (IntegerCursor seq) → seq ≤ r)
  ∧ (r = m ∨ ∃ ev, ev ∈ evs ∧ ev_version ev = Some (IntegerCursor r)).
Proof.
  intros step. revert m; induction evs as [|ev evs IH]; intros m; cbn [fold_left].
  { split_and!; [done|intros ?? []%not_elem_of_nil|by left]. }
  destruct (IH (step m ev)) as (Hm & Hall & Hr).
  assert (m ≤ step m ev ∧ (∀ seq, ev_version ev = Some (IntegerCursor seq) → seq ≤ step m ev)
          ∧ (step m ev = m ∨ ev_version ev = Some (IntegerCursor (step m ev)))) as (H1 & H2 & H3).
  { unfold step. destruct (ev_version ev) as [[seq| | |]|]; cbn [as_integer andb];
      try (split_and!; [lia|naive_solver|by left]).
    destruct (Z.ltb_spec m seq); (split_and!; [lia| |by auto]); intros ? [= <-]; lia. }
  cbn zeta. split_and!; [lia| |].
  - intros ev' seq [->|Hin]%elem_of_cons Hv; [pose proof (H2 _ Hv); lia|by eapply Hall].
  - destruct Hr as [->|(ev' & Hin & Hv)]; [|right; exists ev'; set_solver].
    destruct H3 as [->|Hv]; [by left|right; exists ev]. split; [set_solver|done].
Qed.

Lemma Pull_after n s :
  closed s = false →
  Pull background (Some (IntegerCursor n)) s = Done (Ok (filter (after n) (events s))).
Proof.
  intros Hopen. unfold Pull, background. rewrite Hopen. cbn. do 2 f_equal. apply filter_ext_elem.
  intros ev _. unfold after. destruct (ev_version ev) as [[seq| | |]|]; cbn; try naive_solver.
  rewrite Is_true_true, Z.ltb_lt. naive_solver.
Qed.
Lemma GetLatestVersion_max s :
  closed s = false → GetLatestVersion background s = Ok (IntegerCursor (max_version (events s))).
Proof. intros Hopen. unfold GetLatestVersion, background. rewrite Hopen. by destruct (events s). Qed.

(** ** Properties *)

(** C14: a push to an open transport always records the whole batch for later
    pulls, even when it then reports a cancellation; under every interleaving
    with the subscriber goroutines each subscriber receives, after what it had
    already been sent, a subsequence of the pushed events in order, and the
    whole batch when its channel has room for it and nothing is cancelled. *)
Theorem Push_delivers (ctx : CtxView) (sch : Sched) (evs : list EventWithVersion) (s : MemChan)
    (Hinv : mc_inv s) (Hopen : closed s = false) (Hctx : ctx 0%nat = None) :
  ∃ s' err, Push ctx sch evs s = Done (s', err)
    ∧ events s' = events s ++ evs ∧ subs s' = subs s
    ∧ (∀ id c, chans s !! id = Some c →
         ∃ c' l, chans s' !! id = Some c' ∧ received c' = received c ++ l
           ∧ sublist l (if decide (id ∈ subs s) then ev_event <$> evs else [])
           ∧ (length (buf c') ≤ capacity s)%nat)
    ∧ ((∀ n, ctx n = None) →
       (∀ id c, chans s !! id = Some c → (length (buf c) + length evs ≤ capacity s)%nat) →
       err = None ∧ ∀ id c, id ∈ subs s → chans s !! id = Some c →
         ∃ c', chans s' !! id = Some c' ∧ received c' = received c ++ (ev_event <$> evs)).
Proof.
  destruct (Push_spec ctx sch evs s Hinv Hopen Hctx) as (cs & err & Hp & Hd & Herr).
  eexists _, err. split; [exact Hp|]. cbn. split_and!; [done|done| |].
  - intros id c Hc. specialize (Hd id). rewrite Hc in Hd.
    rewrite (work_for_deliveries id evs (subs s) (inv_subs s Hinv)) in Hd.
    destruct (cs !! id) as [c'|]; [|done]. destruct Hd as ((l & Hl & Hr) & _ & _ & Hcap).
    exists c', l. split_and!; try done. apply Hcap. by apply (inv_chans s Hinv) in Hc as [_ ?].
  - intros Hnever Hroom.
    destruct (deliver_all (capacity s) ctx sch (deliveries evs (subs s)) 0 (chans s) Hnever)
      as (cs' & Hdl & Hall); [by apply inv_all_open| |].
    + intros id c Hc. rewrite (work_for_deliveries id evs (subs s) (inv_subs s Hinv)).
      pose proof (Hroom id c Hc). destruct (decide _); rewrite ?length_fmap; cbn; lia.
    + unfold Push in Hp. rewrite Hctx, Hopen, Hdl in Hp. injection Hp as -> <-. split; [done|].
      intros id c Hid Hc. destruct (Hall id c Hc) as (c' & Hc' & Hr). exists c'. split; [done|].
      by rewrite Hr, (work_for_deliveries id evs (subs s) (inv_subs s Hinv)), decide_True.
Qed.

(** Remark: in every state the transport and its goroutines can reach from [New],
    channels are listed once, open and within capacity, and no operation
    panics: no send on a closed channel, no channel closed twice. *)
Theorem transport_never_panics (cap : Z) (s : MemChan) (Hreach : rtc mc_step (New cap) s) :
  mc_inv s
  ∧ (∀ ctx sch evs, ∃ s' err, Push ctx sch evs s = Done (s', err))
  ∧ (∃ s', Close s = Done s' ∧ closed s' = true)
  ∧ (∀ id c, chans s !! id = Some c → ∃ s', on_exit id s = Done s').
Proof.
  assert (mc_inv s) as Hinv.
  { remember (New cap) as s0 eqn:H0. assert (mc_inv s0) as Hi by (subst; apply New_chan_inv).
    clear H0. induction Hreach as [|s0 s1 s2 Hstep _ IH]; [done|]. by eapply IH, mc_step_inv. }
  split_and!; [done| | |].
  - intros ctx sch evs. destruct (Push_inv ctx sch evs s Hinv) as (s' & err & ? & _). eauto.
  - destruct (Close_inv s Hinv) as (s' & ? & _ & ?). eauto.
  - intros id c Hc. unfold on_exit, get_chan. rewrite Hc. cbn [obind].
    destruct (flush_quieter c) as (_ & ? & _ & ?).
    destruct (cleanup_inv id (set_chan id (stop (flush c)) s)) as (s' & ? & _); [|eauto].
    by eapply set_chan_inv.
Qed.

(** Remark: a pull returns the events whose version is past [since], in the order
    they were pushed; the latest version is an upper bound of all of them, so a
    pull since the latest version returns nothing. *)
Theorem Pull_complete (n : Z) (s : MemChan) (Hopen : closed s = false) :
  Pull background (Some (IntegerCursor n)) s = Done (Ok (filter (after n) (events s)))
  ∧ ∃ latest, GetLatestVersion background s = Ok (IntegerCursor latest)
      ∧ (∀ ev seq, ev ∈ events s → ev_version ev = Some (IntegerCursor seq) → seq ≤ latest)
      ∧ Pull background (Some (IntegerCursor latest)) s = Done (Ok []).
Proof.
  split; [by apply Pull_after|].
  destruct (max_version_spec (events s) 0) as (_ & Hmax & _).
  exists (max_version (events s)). split_and!.
  - by apply GetLatestVersion_max.
  - exact Hmax.
  - rewrite Pull_after by done. do 2 f_equal. apply filter_none. intros ev Hev [Haft Hne].
    destruct (ev_version ev) as [[seq| | |]|] eqn:Hv; cbn in Haft; try done.
    specialize (Hmax ev seq Hev Hv). unfold max_version in Haft. lia.
Qed.

(** ** Concrete instances *)

Definition demo_event (id : string) (seq : Z) : EventWithVersion :=
  mkEWV (Some (mkEvent id "T" "a" AnyNil None)) (Some (IntegerCursor seq)).
(** Two subscribers on channels of capacity two. *)
Definition demo_transport : MemChan := (Subscribe true (Subscribe true (New 2)).1).1.
Definition eager : Sched := mkSched (λ _ _, 1%nat) (λ _ _ _, 7) (λ _, true).

Lemma demo_transport_inv : mc_inv demo_transport.
Proof. apply Subscribe_inv, Subscribe_inv, New_chan_inv. Qed.

Lemma Push_delivers_witness :
  ∃ s' err, Push background eager [demo_event "x" 1; demo_event "y" 2] demo_transport = Done (s', err)
    ∧ events s' = events demo_transport ++ [demo_event "x" 1; demo_event "y" 2]
    ∧ subs s' = subs demo_transport
    ∧ (∀ id c, chans demo_transport !! id = Some c →
         ∃ c' l, chans s' !! id = Some c' ∧ received c' = received c ++ l
           ∧ sublist l (if decide (id ∈ subs demo_transport)
                        then ev_event <$> [demo_event "x" 1; demo_event "y" 2] else [])
           ∧ (length (buf c') ≤ capacity demo_transport)%nat)
    ∧ ((∀ n, background n = None) →
       (∀ id c, chans demo_transport !! id = Some c →
          (length (buf c) + length [demo_event "x" 1; demo_event "y" 2] ≤ capacity demo_transport)%nat) →
       err = None ∧ ∀ id c, id ∈ subs demo_transport → chans demo_transport !! id = Some c →
         ∃ c', chans s' !! id = Some c'
           ∧ received c' = received c ++ (ev_event <$> [demo_event "x" 1; demo_event "y" 2])).
Proof.
  apply (Push_delivers background eager [demo_event "x" 1; demo_event "y" 2] demo_transport
           demo_transport_inv); vm_compute; reflexivity.
Defined.

Lemma transport_never_panics_witness :
  mc_inv demo_transport
  ∧ (∀ ctx sch evs, ∃ s' err, Push ctx sch evs demo_transport = Done (s', err))
  ∧ (∃ s', Close demo_transport = Done s' ∧ closed s' = true)
  ∧ (∀ id c, chans demo_transport !! id = Some c → ∃ s', on_exit id demo_transport = Done s').
Proof.
  apply (transport_never_panics 2). eapply rtc_l; [|apply rtc_once];
    eapply (step_subscribe true); reflexivity.
Defined.

Lemma Pull_complete_witness :
  let s := match Push background eager [demo_event "x" 1; demo_event "y" 2] demo_transport with
           | Done (s, _) => s
           | Panic _ => demo_transport
           end in
  Pull background (Some (IntegerCursor 1)) s = Done (Ok (filter (after 1) (events s)))
  ∧ ∃ latest, GetLatestVersion background s = Ok (IntegerCursor latest)
      ∧ (∀ ev seq, ev ∈ events s → ev_version ev = Some (IntegerCursor seq) → seq ≤ latest)
      ∧ Pull background (Some (IntegerCursor latest)) s = Done (Ok []).
Proof. apply (Pull_complete 1). vm_compute. reflexivity. Defined.
