(* ===== verification/StateMachine.v ===== *)
(** * The generic state machine (src/synckit/statemachine: types.go, machine.go,
    persistence.go)

    Rules, validation, bounded history, observers, metrics, snapshots and the
    builder, for any type of states; then the same transition split at its
    atomic accesses, to say what concurrent callers can do. *)
From S2P Require Import Prelude Types Json Errors.
From stdpp Require Import options.

(** States print with their [String] method. *)
Class StateKind (T : Type) := { show_state : T → string }.

(** Texts of the standard library's time package: a time in RFC 3339 format
    and a duration. *)
Class TimeText := { rfc3339 : Z → string; duration_string : Z → string }.

(** [time.Time.Sub]: a saturating difference in nanoseconds. *)
Definition time_sub (a b : Z) : Z := Z.max (- 2 ^ 63) (Z.min (2 ^ 63 - 1) (a - b)).

Section machine.
Context {T : Type} `{EqDecision0 : EqDecision T} `{!Countable T} {SK : StateKind T}.

(** A nil rule map is [None]. *)
Definition TransitionRules := option (gmap T (list T)).

Definition Contains (tr : TransitionRules) (from to : T) : bool :=
  match tr ≫= (.!! from) with
  | None => false
  | Some allowedStates => bool_decide (to ∈ allowedStates)
  end.

Record StateTransition := mkTransition {
  From : T; To : T; Timestamp : Z; Duration : Z; TMetadata : gomap any; TransitionID : string
}.

(** [Metrics] is whether a collector is configured. *)
Record StateMachineConfig := mkConfig {
  InitialState : T;
  Rules : TransitionRules;
  Validator : option (T → T → option error);
  Metrics : bool;
  MaxHistorySize : Z;
  MetricsEnabled : bool;
  Name : string
}.

Definition DefaultConfig (initialState : T) (rules : TransitionRules) : StateMachineConfig :=
  mkConfig initialState rules None false 50 true "".

(** What a machine does to the outside: goroutines started for observers (by
    identity), calls of the metrics collector, and asynchronous saves. *)
Inductive Effect :=
  | OnTransition (observer : nat) (tr : StateTransition)
  | OnTransitionFailed (observer : nat) (from to : T) (err : error) (metadata : gomap any)
  | RecordTransition (from to : T) (duration : Z) (metadata : gomap any)
  | RecordTransitionError (from to : T) (err : error) (metadata : gomap any)
  | RecordCurrentState (s : T)
  | RecordStateDuration (s : T) (duration : Z)
  | AutoSaved (machineID : string).

Record PersistenceConfig := mkPersistence { AutoSave : bool }.

Record machine := mkMachine {
  config : StateMachineConfig;
  state : T;
  stateStart : Z;
  observers : list nat;
  history : list StateTransition;
  validator : option (T → T → option error);
  metrics : bool;
  persistence : option nat;
  machineID : string;
  persistenceEnabled : bool;
  persistenceConfig : PersistenceConfig;
  effects : list Effect
}.

Definition emit (es : list Effect) (m : machine) : machine :=
  mkMachine (config m) (state m) (stateStart m) (observers m) (history m) (validator m)
    (metrics m) (persistence m) (machineID m) (persistenceEnabled m) (persistenceConfig m)
    (effects m ++ es).
Definition set_history (h : list StateTransition) (m : machine) : machine :=
  mkMachine (config m) (state m) (stateStart m) (observers m) h (validator m) (metrics m)
    (persistence m) (machineID m) (persistenceEnabled m) (persistenceConfig m) (effects m).
Definition set_observers (o : list nat) (m : machine) : machine :=
  mkMachine (config m) (state m) (stateStart m) o (history m) (validator m) (metrics m)
    (persistence m) (machineID m) (persistenceEnabled m) (persistenceConfig m) (effects m).
Definition set_state (s : T) (start : Z) (m : machine) : machine :=
  mkMachine (config m) s start (observers m) (history m) (validator m) (metrics m)
    (persistence m) (machineID m) (persistenceEnabled m) (persistenceConfig m) (effects m).

(** The metrics collector is used when it is there and enabled. *)
Definition collects (m : machine) : bool := metrics m && MetricsEnabled (config m).

Definition New (now : Z) (cfg : StateMachineConfig) : result error machine :=
  match Rules cfg with
  | None => Err (ErrMsg "transition rules cannot be nil")
  | Some _ =>
      let cfg := if MaxHistorySize cfg <=? 0 then
                   mkConfig (InitialState cfg) (Rules cfg) (Validator cfg) (Metrics cfg) 50
                     (MetricsEnabled cfg) (Name cfg)
                 else cfg in
      let m := mkMachine cfg (InitialState cfg) now [] [] (Validator cfg) (Metrics cfg) None ""
                 false (mkPersistence false) [] in
      Ok (if collects m then emit [RecordCurrentState (InitialState cfg)] m else m)
  end.

Definition Current (m : machine) : T := state m.
Definition CanTransition (to : T) (m : machine) : bool := Contains (Rules (config m)) (state m) to.
Definition History (m : machine) : list StateTransition := history m.

Definition addToHistory (tr : StateTransition) (m : machine) : machine :=
  let h := history m ++ [tr] in
  set_history (if MaxHistorySize (config m) <? Z.of_nat (length h) then drop 1 h else h) m.

Definition notifyTransition (tr : StateTransition) (m : machine) : machine :=
  emit ((λ o, OnTransition o tr) <$> observers m) m.
Definition notifyTransitionFailed (from to : T) (err : error) (metadata : gomap any)
    (m : machine) : machine :=
  emit ((λ o, OnTransitionFailed o from to err metadata) <$> observers m) m.

(** Both failure branches: observers, then the error metric. *)
Definition reject (from to : T) (err : error) (metadata : gomap any) (m : machine) : machine :=
  let m := notifyTransitionFailed from to err metadata m in
  if collects m then emit [RecordTransitionError from to err metadata] m else m.

(** The part after the checks. *)
Definition commit (now : Z) (transitionID : string) (from to : T) (metadata : gomap any)
    (m : machine) : machine :=
  let duration := time_sub now (stateStart m) in
  let m := set_state to now m in
  let tr := mkTransition from to now duration metadata transitionID in
  let m := addToHistory tr m in
  let m := notifyTransition tr m in
  let m := if collects m then
             emit [RecordTransition from to duration metadata; RecordCurrentState to;
                   RecordStateDuration from duration] m
           else m in
  if persistenceEnabled m && AutoSave (persistenceConfig m)
     && bool_decide (is_Some (persistence m))
  then emit [AutoSaved (machineID m)] m else m.

Definition invalid_transition (from to : T) : error :=
  ErrMsg ("invalid transition from " +:+ show_state from +:+ " to " +:+ show_state to).

(** [now] and [transitionID] are the clock reading and the random identifier. *)
Definition TransitionWithContext (now : Z) (transitionID : string) (to : T)
    (metadata : gomap any) (m : machine) : machine * option error :=
  let from := state m in
  if negb (CanTransition to m) then
    let err := invalid_transition from to in
    (reject from to err metadata m, Some err)
  else
    match validator m ≫= (λ v, v from to) with
    | Some err =>
        (reject from to err metadata m, Some (ErrWrap "transition validation failed" err))
    | None => (commit now transitionID from to metadata m, None)
    end.

Definition Transition (now : Z) (transitionID : string) (to : T) (m : machine)
    : machine * option error := TransitionWithContext now transitionID to None m.

Definition Subscribe (observer : option nat) (m : machine) : machine :=
  match observer with None => m | Some o => set_observers (observers m ++ [o]) m end.

(** [&obs == &observer] compares the addresses of two distinct local
    variables, so no entry is ever found. *)
Definition Unsubscribe (observer : option nat) (m : machine) : machine :=
  match observer with
  | None => m
  | Some _ =>
      let same_address := λ _ : nat, false in
      match list_find (λ o, same_address o = true) (observers m) with
      | Some (i, _) => set_observers (delete i (observers m)) m
      | None => m
      end
  end.

Definition Reset (now : Z) (transitionID : string) (m : machine) : machine * option error :=
  TransitionWithContext now transitionID (InitialState (config m))
    (Some {["reset" := AnyBool true]}) m.

(** ** Snapshots *)
Record StateMachineSnapshot := mkSnapshot {
  MachineID : string; CurrentState : T; SnapInitialState : T; StateEnteredAt : Z;
  Config : StateMachineConfig; SnapHistory : list StateTransition; SnapshotTime : Z;
  SnapVersion : Z
}.

Definition createSnapshot (now : Z) (m : machine) : StateMachineSnapshot :=
  mkSnapshot (machineID m) (state m) (InitialState (config m)) (stateStart m) (config m)
    (history m) now 1.

(** The validator and the metrics collector stay those of the machine. *)
Definition restoreFromSnapshot (s : StateMachineSnapshot) (m : machine) : machine :=
  mkMachine (Config s) (CurrentState s) (StateEnteredAt s) (observers m) (SnapHistory s)
    (validator m) (metrics m) (persistence m) (machineID m) (persistenceEnabled m)
    (persistenceConfig m) (effects m).

(** [MemoryStatePersistence]. *)
Definition StateStore := gmap string StateMachineSnapshot.
Definition SaveState (id : string) (s : StateMachineSnapshot) (p : StateStore) : StateStore :=
  <[id := s]> p.
Definition LoadState (id : string) (p : StateStore) : option StateMachineSnapshot := p !! id.
Definition DeleteState (id : string) (p : StateStore) : StateStore := delete id p.
Definition ListMachines `{!MapRange} (p : StateStore) : list string := (range p).*1.

(** [loaded] is what the given persistence answers for [id]; [None] stands for
    a nil snapshot as well as for an error. *)
Definition EnablePersistence (p : option nat) (loaded : option StateMachineSnapshot)
    (id : string) (cfg : PersistenceConfig) (m : machine) : machine :=
  let m := mkMachine (config m) (state m) (stateStart m) (observers m) (history m) (validator m)
             (metrics m) p id true cfg (effects m) in
  match p with
  | None => m
  | Some _ => match loaded with Some s => restoreFromSnapshot s m | None => m end
  end.
Definition DisablePersistence (m : machine) : machine :=
  mkMachine (config m) (state m) (stateStart m) (observers m) (history m) (validator m)
    (metrics m) None "" false (mkPersistence false) (effects m).

(** ** The builder *)
Definition NewBuilder (initialState : T) : StateMachineConfig :=
  mkConfig initialState (Some ∅) None false 50 true "".
Definition Allow (from : T) (to : list T) (b : StateMachineConfig) : StateMachineConfig :=
  let rules := default ∅ (Rules b) in
  mkConfig (InitialState b) (Some (<[from := default [] (rules !! from) ++ to]> rules))
    (Validator b) (Metrics b) (MaxHistorySize b) (MetricsEnabled b) (Name b).
Definition WithValidator (v : option (T → T → option error)) (b : StateMachineConfig) :=
  mkConfig (InitialState b) (Rules b) v (Metrics b) (MaxHistorySize b) (MetricsEnabled b) (Name b).
Definition WithMetrics (present : bool) (b : StateMachineConfig) : StateMachineConfig :=
  mkConfig (InitialState b) (Rules b) (Validator b) present (MaxHistorySize b) (MetricsEnabled b)
    (Name b).
Definition WithHistorySize (n : Z) (b : StateMachineConfig) : StateMachineConfig :=
  mkConfig (InitialState b) (Rules b) (Validator b) (Metrics b) n (MetricsEnabled b) (Name b).
Definition WithName (n : string) (b : StateMachineConfig) : StateMachineConfig :=
  mkConfig (InitialState b) (Rules b) (Validator b) (Metrics b) (MaxHistorySize b)
    (MetricsEnabled b) n.
Definition EnableMetrics (on : bool) (b : StateMachineConfig) : StateMachineConfig :=
  mkConfig (InitialState b) (Rules b) (Validator b) (Metrics b) (MaxHistorySize b) on (Name b).
Definition Build (now : Z) (b : StateMachineConfig) : result error machine := New now b.
End machine.
Arguments TransitionRules T {_ _}.
Arguments StateTransition T : clear implicits.
Arguments StateMachineConfig T {_ _}.
Arguments StateMachineSnapshot T {_ _}.
Arguments machine T {_ _}.
Arguments Effect T : clear implicits.

(** ** What a transition does *)

(** The last [n] entries. *)
Definition keep {A} (n : nat) (l : list A) : list A := drop (length l - n) l.

Lemma length_keep {A} n (l : list A) : (length (keep n l) ≤ n)%nat.
Proof. unfold keep. rewrite length_drop. lia. Qed.
Lemma keep_short {A} n (l : list A) : (length l ≤ n)%nat → keep n l = l.
Proof. intros. unfold keep. by replace (length l - n)%nat with 0%nat by lia. Qed.
Lemma keep_app {A} n (l : list A) x : (0 < n)%nat → keep n (keep n l ++ [x]) = keep n (l ++ [x]).
Proof.
  intros Hn. unfold keep. rewrite !length_app, !length_drop. cbn [length].
  rewrite !drop_app, !drop_drop, !length_drop. f_equal; f_equal; lia.
Qed.

Section results.
Context {T : Type} `{EqDecision0 : EqDecision T} `{!Countable T} {SK : StateKind T}.
Implicit Types m : machine T.

(** A transition is accepted by the rules and by the validator. *)
Definition accepts m (from to : T) : Prop :=
  Contains (Rules (config m)) from to = true ∧ validator m ≫= (λ v, v from to) = None.
#[global] Instance accepts_dec m from to : Decision (accepts m from to).
Proof. unfold accepts. apply _. Defined.

Definition max_history m : nat := Z.to_nat (MaxHistorySize (config m)).
Definition well_formed m : Prop :=
  0 < MaxHistorySize (config m) ∧ (length (history m) ≤ max_history m)%nat.

(** The fields no transition touches. *)
Definition same_setup m m' : Prop :=
  config m' = config m ∧ validator m' = validator m ∧ metrics m' = metrics m
  ∧ observers m' = observers m ∧ persistence m' = persistence m ∧ machineID m' = machineID m
  ∧ persistenceEnabled m' = persistenceEnabled m ∧ persistenceConfig m' = persistenceConfig m.

Lemma emit_fields es m :
  same_setup m (emit es m) ∧ state (emit es m) = state m ∧ history (emit es m) = history m
  ∧ stateStart (emit es m) = stateStart m ∧ effects (emit es m) = effects m ++ es.
Proof. by unfold same_setup. Qed.

Lemma reject_fields from to err md m :
  same_setup m (reject from to err md m) ∧ state (reject from to err md m) = state m
  ∧ history (reject from to err md m) = history m
  ∧ stateStart (reject from to err md m) = stateStart m
  ∧ effects (reject from to err md m) =
      effects m ++ ((λ o, OnTransitionFailed o from to err md) <$> observers m)
      ++ (if collects m then [RecordTransitionError from to err md] else []).
Proof.
  unfold reject, notifyTransitionFailed, collects, same_setup. cbn.
  destruct (metrics m && MetricsEnabled (config m)); cbn; rewrite <-?app_assoc, ?app_nil_r; done.
Qed.

Definition record_of (now : Z) (tid : string) (from to : T) (md : gomap any) m : StateTransition T :=
  mkTransition from to now (time_sub now (stateStart m)) md tid.

Lemma commit_fields now tid from to md m :
  well_formed m →
  let m' := commit now tid from to md m in
  same_setup m m' ∧ state m' = to ∧ stateStart m' = now
  ∧ history m' = keep (max_history m) (history m ++ [record_of now tid from to md m])
  ∧ ∃ rest, effects m' = effects m
      ++ ((λ o, OnTransition o (record_of now tid from to md m)) <$> observers m) ++ rest.
Proof.
  intros [Hpos Hlen]. unfold commit, addToHistory, notifyTransition, collects, same_setup. cbn.
  assert (∀ h : list (StateTransition T),
    length h = S (length (history m)) →
    (if MaxHistorySize (config m) <? Z.of_nat (length h) then drop 1 h else h) = keep (max_history m) h)
    as Hkeep.
  { intros h Hh. unfold max_history in *. destruct (Z.ltb_spec (MaxHistorySize (config m)) (Z.of_nat (length h))).
    - unfold keep. f_equal. lia.
    - rewrite keep_short; [done|lia]. }
  rewrite <-Hkeep by (rewrite length_app; cbn; lia).
  destruct (metrics m && MetricsEnabled (config m)); cbn;
    destruct (persistenceEnabled m && AutoSave (persistenceConfig m) && bool_decide (is_Some (persistence m)));
    cbn; split_and!; try done; rewrite <-?app_assoc; eexists; try done; by rewrite app_nil_r.
Qed.

Lemma Transition_accepted now tid to md m :
  accepts m (state m) to →
  TransitionWithContext now tid to md m = (commit now tid (state m) to md m, None).
Proof. intros [Hc Hv]. unfold TransitionWithContext, CanTransition. by rewrite Hc, Hv. Qed.
Lemma Transition_rejected now tid to md m :
  ¬ accepts m (state m) to →
  ∃ err e, TransitionWithContext now tid to md m = (reject (state m) to err md m, Some e).
Proof.
  intros Hn. unfold TransitionWithContext, CanTransition, accepts in *.
  destruct (Contains (Rules (config m)) (state m) to); cbn; [|eauto].
  destruct (validator m ≫= _); [eauto|naive_solver].
Qed.

(** *** Runs *)

(** [l] is a chain of transitions from [s] to [t]. *)
Fixpoint chain (s : T) (l : list (StateTransition T)) (t : T) : Prop :=
  match l with
  | [] => s = t
  | tr :: l => From tr = s ∧ chain (To tr) l t
  end.
Lemma chain_app s l tr : chain s l (From tr) → chain s (l ++ [tr]) (To tr).
Proof. revert s; induction l as [|x l IH]; intros s; cbn; [by intros ->|]. intros [? ?]. auto. Qed.

(** The operations that restore nothing. *)
Inductive calm_step : machine T → machine T → Prop :=
  | st_transition now tid to md m :
      calm_step m (TransitionWithContext now tid to md m).1
  | st_reset now tid m : calm_step m (Reset now tid m).1
  | st_subscribe o m : calm_step m (Subscribe o m)
  | st_unsubscribe o m : calm_step m (Unsubscribe o m)
  | st_enable p id cfg m : calm_step m (EnablePersistence p None id cfg m)
  | st_disable m : calm_step m (DisablePersistence m).
(** A snapshot that a machine with the same rules, initial state and validator
    can have made, whatever the size of its history. *)
Definition coherent m (s : StateMachineSnapshot T) : Prop :=
  0 < MaxHistorySize (Config s)
  ∧ InitialState (Config s) = InitialState (config m) ∧ Rules (Config s) = Rules (config m)
  ∧ ∃ full, chain (InitialState (config m)) full (CurrentState s)
      ∧ Forall (λ tr, accepts m (From tr) (To tr)) full
      ∧ SnapHistory s = keep (Z.to_nat (MaxHistorySize (Config s))) full.
Inductive sm_step : machine T → machine T → Prop :=
  | st_calm m m' : calm_step m m' → sm_step m m'
  | st_restore p s id cfg m : coherent m s → sm_step m (EnablePersistence (Some p) (Some s) id cfg m).

(** The machine was set up by [cfg], and its history is the tail of a chain of
    allowed transitions from the initial state to the current one. *)
Definition explained (cfg : StateMachineConfig T) m : Prop :=
  well_formed m
  ∧ InitialState (config m) = InitialState cfg ∧ Rules (config m) = Rules cfg
  ∧ validator m = Validator cfg
  ∧ ∃ full, chain (InitialState cfg) full (state m)
      ∧ Forall (λ tr, accepts m (From tr) (To tr)) full
      ∧ history m = keep (max_history m) full.

Lemma Unsubscribe_id o m : Unsubscribe o m = m.
Proof.
  destruct o as [o|]; [|done]. cbn.
  destruct (list_find (λ _ : nat, false = true) (observers m)) as [[i x]|] eqn:Hf; [|done].
  by apply list_find_Some in Hf as (_ & ? & _).
Qed.

Lemma explained_transition cfg now tid to md m :
  explained cfg m → explained cfg (TransitionWithContext now tid to md m).1.
Proof.
  intros (Hwf & Hi & Hr & Hv & full & Hch & Hall & Hh).
  destruct (decide (accepts m (state m) to)) as [Hacc|Hrej].
  - rewrite Transition_accepted by done. cbn [fst].
    destruct (commit_fields now tid (state m) to md m Hwf)
      as ((Hcfg & Hval & _) & Hst & _ & Hhist & _).
    set (m' := commit now tid (state m) to md m) in *.
    assert (max_history m' = max_history m) as Hmax by (unfold max_history; by rewrite Hcfg).
    unfold explained, well_formed, accepts. rewrite Hcfg, Hval, Hmax, Hst, Hhist.
    split_and!; [apply Hwf|apply length_keep|done|done|done|].
    exists (full ++ [record_of now tid (state m) to md m]). split_and!.
    + by apply (chain_app _ _ (record_of now tid (state m) to md m)).
    + apply Forall_app. split; [done|]. by apply Forall_singleton.
    + rewrite Hh. apply keep_app. unfold max_history. destruct Hwf. lia.
  - destruct (Transition_rejected now tid to md m Hrej) as (err & e & ->). cbn [fst].
    destruct (reject_fields (state m) to err md m) as ((Hcfg & Hval & _) & Hst & Hhist & _).
    set (m' := reject (state m) to err md m) in *.
    assert (max_history m' = max_history m) as Hmax by (unfold max_history; by rewrite Hcfg).
    unfold explained, well_formed, accepts. rewrite Hcfg, Hval, Hmax, Hst, Hhist.
    split_and!; [apply Hwf|apply Hwf|done|done|done|]. by exists full.
Qed.

Lemma explained_restore cfg p s id pc m :
  explained cfg m → coherent m s → explained cfg (EnablePersistence (Some p) (Some s) id pc m).
Proof.
  intros (_ & Hi & Hr & Hv & _) (Hpos & Hsi & Hsr & full & Hch & Hall & Hh).
  unfold explained, well_formed, max_history, accepts in *. cbn.
  rewrite Hsi, Hsr, Hh. split_and!; [done|apply length_keep|done|done|done|].
  exists full. by rewrite <-Hi.
Qed.
Lemma explained_step cfg m m' : explained cfg m → sm_step m m' → explained cfg m'.
Proof.
  intros Hex Hs. revert Hex. destruct Hs as [m m' Hs|p s id pc m Hs]; [|intros; by apply explained_restore].
  destruct Hs as [now tid to md m|now tid m|o m|o m|p id pc m|m]; intros Hex.
  - by apply explained_transition.
  - by apply explained_transition.
  - by destruct o.
  - by rewrite Unsubscribe_id.
  - by destruct p.
  - done.
Qed.
(** The snapshots of a machine of the same set-up are such snapshots. *)
Lemma createSnapshot_coherent cfg now m m' :
  explained cfg m → explained cfg m' → coherent m (createSnapshot now m').
Proof.
  intros (_ & Hi & Hr & Hv & _) ([Hpos _] & Hi' & Hr' & Hv' & full & Hch & Hall & Hh).
  unfold coherent, createSnapshot, accepts in *. cbn [Config CurrentState SnapHistory].
  split_and!; [done|congruence|congruence|]. exists full. rewrite Hi. split; [done|]. split; [|done].
  by rewrite Hr, Hv, <-Hr', <-Hv'.
Qed.

Lemma explained_New now cfg m : New now cfg = Ok m → explained cfg m.
Proof.
  unfold New. destruct (Rules cfg) as [r|] eqn:Hr; [|done].
  unfold explained, well_formed, max_history.
  destruct (Z.leb_spec (MaxHistorySize cfg) 0); intros [= <-]; case_match; cbn;
    (split_and!; [lia|lia|done|done|done|by exists []]).
Qed.

(** *** Restored machines *)

(** The two machines cannot be told apart by what transitions return. *)
Definition agree m m' : Prop :=
  config m' = config m ∧ state m' = state m ∧ stateStart m' = stateStart m
  ∧ history m' = history m ∧ validator m' = validator m.

Definition request := (Z * string * T * gomap any)%type.
Fixpoint run_requests (reqs : list request) m : machine T * list (option error) :=
  match reqs with
  | [] => (m, [])
  | (now, tid, to, md) :: reqs =>
      let '(m, err) := TransitionWithContext now tid to md m in
      let '(m, errs) := run_requests reqs m in
      (m, err :: errs)
  end.

Lemma emit_agree es m : agree m (emit es m).
Proof. done. Qed.
Lemma reject_agree from to err md m : agree m (reject from to err md m).
Proof. unfold reject. by destruct (collects _). Qed.
Lemma commit_agree now tid from to md m m' :
  agree m m' → agree (commit now tid from to md m) (commit now tid from to md m').
Proof.
  intros (Hc & Hs & Ht & Hh & Hv). unfold commit, agree, addToHistory.
  cbn -[collects]. rewrite ?Hc, ?Ht, ?Hh.
  repeat match goal with |- context [if ?b then emit _ _ else _] => destruct b end;
    cbn; rewrite ?Hc, ?Ht, ?Hh, ?Hv; done.
Qed.
Lemma agree_trans m1 m2 m3 : agree m1 m2 → agree m2 m3 → agree m1 m3.
Proof. unfold agree. intros (?&?&?&?&?) (?&?&?&?&?). split_and!; congruence. Qed.
Lemma agree_sym m1 m2 : agree m1 m2 → agree m2 m1.
Proof. unfold agree. intros (?&?&?&?&?). split_and!; congruence. Qed.

Lemma Transition_agree now tid to md m m' :
  agree m m' →
  (TransitionWithContext now tid to md m').2 = (TransitionWithContext now tid to md m).2
  ∧ agree (TransitionWithContext now tid to md m).1 (TransitionWithContext now tid to md m').1.
Proof.
  intros Ha. pose proof Ha as (Hc & Hs & Ht & Hh & Hv).
  unfold TransitionWithContext, CanTransition. rewrite Hc, Hs, Hv.
  assert (∀ from err, agree (reject from to err md m) (reject from to err md m')) as Hrej.
  { intros from err. eapply agree_trans, agree_trans; [apply agree_sym, reject_agree|exact Ha|].
    apply reject_agree. }
  destruct (Contains (Rules (config m)) (state m) to); cbn; [|by split].
  destruct (validator m ≫= (λ v, v (state m) to)); cbn; [by split|].
  split; [done|by apply commit_agree].
Qed.

Lemma run_requests_agree reqs m m' :
  agree m m' →
  (run_requests reqs m').2 = (run_requests reqs m).2
  ∧ agree (run_requests reqs m).1 (run_requests reqs m').1.
Proof.
  revert m m'; induction reqs as [|[[[now tid] to] md] reqs IH]; intros m m' Ha; cbn; [done|].
  destruct (Transition_agree now tid to md m m' Ha) as [He Ha'].
  destruct (TransitionWithContext now tid to md m) as [m1 e1].
  destruct (TransitionWithContext now tid to md m') as [m1' e1']. cbn in He, Ha'. subst e1'.
  destruct (IH m1 m1' Ha') as [Hes Ha2].
  destruct (run_requests reqs m1), (run_requests reqs m1'). cbn in *. by subst.
Qed.
End results.
Arguments request T : clear implicits.

(** ** Concurrent callers

    [TransitionWithContext] takes no lock: it loads the state, loads it again
    in [CanTransition], and only then stores.  A caller is followed through
    these points; [sched] says which caller moves next. *)
Section concurrent.
Context {T : Type} `{EqDecision0 : EqDecision T} `{!Countable T} {SK : StateKind T}.

Inductive phase :=
  | Called
  | Loaded (from : T)
  | Checked (from : T)
  | Returned (err : option error).

Record caller := mkCaller { target : T; at_phase : phase }.

Definition caller_step (now : Z) (tid : string) (m : machine T) (c : caller) : machine T * caller :=
  let to := target c in
  match at_phase c with
  | Called => (m, mkCaller to (Loaded (state m)))
  | Loaded from =>
      if negb (CanTransition to m) then
        let err := invalid_transition from to in
        (reject from to err None m, mkCaller to (Returned (Some err)))
      else
        match validator m ≫= (λ v, v from to) with
        | Some err =>
            (reject from to err None m,
             mkCaller to (Returned (Some (ErrWrap "transition validation failed" err))))
        | None => (m, mkCaller to (Checked from))
        end
  | Checked from => (commit now tid from to None m, mkCaller to (Returned None))
  | Returned _ => (m, c)
  end.

(** The clock reads the number of steps left. *)
Fixpoint run_callers (sched : list nat) (m : machine T) (cs : list caller)
    : machine T * list caller :=
  match sched with
  | [] => (m, cs)
  | i :: sched =>
      match cs !! i with
      | None => run_callers sched m cs
      | Some c =>
          let '(m', c') := caller_step (Z.of_nat (length sched)) "" m c in
          run_callers sched m' (<[i := c']> cs)
      end
  end.
End concurrent.
Arguments caller T : clear implicits.
Arguments phase T : clear implicits.

(** ** Properties *)

(** C8: a transition succeeds exactly when the rules list it and the validator
    accepts it; it then moves the state, appends one record to the bounded
    history and notifies every observer; otherwise state, history and timer
    stay as they are and every observer hears of the failure. *)
Theorem Transition_outcome {T} `{EqDecision0 : EqDecision T} `{!Countable T} {SK : StateKind T}
    (now : Z) (tid : string) (to : T) (md : gomap any) (m : machine T) (Hwf : well_formed m) :
  let '(m', err) := TransitionWithContext now tid to md m in
  same_setup m m'
  ∧ (err = None ↔ accepts m (state m) to)
  ∧ match err with
    | None =>
        state m' = to ∧ stateStart m' = now
        ∧ history m' = keep (max_history m) (history m ++ [record_of now tid (state m) to md m])
        ∧ (length (history m') ≤ max_history m)%nat
        ∧ ∀ o, o ∈ observers m →
            OnTransition o (record_of now tid (state m) to md m) ∈ drop (length (effects m)) (effects m')
    | Some _ =>
        state m' = state m ∧ stateStart m' = stateStart m ∧ history m' = history m
        ∧ ∀ o, o ∈ observers m → ∃ e,
            OnTransitionFailed o (state m) to e md ∈ drop (length (effects m)) (effects m')
    end.
Proof.
  destruct (decide (accepts m (state m) to)) as [Hacc|Hrej].
  - rewrite Transition_accepted by done.
    destruct (commit_fields now tid (state m) to md m Hwf) as (Hs & Hst & Hstart & Hh & rest & He).
    split_and!; try done; [by rewrite Hh; apply length_keep|].
    intros o Ho. rewrite He, drop_app_length. apply elem_of_app. left.
    by apply (list_elem_of_fmap_2 (λ o, OnTransition o _)).
  - destruct (Transition_rejected now tid to md m Hrej) as (err & e & ->).
    destruct (reject_fields (state m) to err md m) as (Hs & Hst & Hh & Hstart & He).
    split_and!; try done. intros o Ho. exists err. rewrite He, drop_app_length. apply elem_of_app. left.
    by apply (list_elem_of_fmap_2 (λ o, OnTransitionFailed o _ _ _ _)).
Qed.

(** C9: whatever sequence of transitions, resets, (un)subscriptions and changes of
    the persistence a machine goes through, its history is the tail of an
    unbroken chain of allowed transitions that starts in the initial state and
    ends in the current one, and never exceeds the configured size. A snapshot
    that is restored on the way is one that a machine with the same rules, initial
    state and validator can have made ([createSnapshot_coherent]). *)
Theorem history_explains_state {T} `{EqDecision0 : EqDecision T} `{!Countable T} {SK : StateKind T}
    (now : Z) (cfg : StateMachineConfig T) (m0 m : machine T)
    (Hnew : New now cfg = Ok m0) (Hrun : rtc sm_step m0 m) :
  (length (History m) ≤ max_history m)%nat
  ∧ ∃ full, chain (InitialState cfg) full (Current m)
      ∧ Forall (λ tr, accepts m (From tr) (To tr)) full
      ∧ History m = keep (max_history m) full.
Proof.
  apply explained_New in Hnew.
  assert (explained cfg m) as (Hwf & _ & _ & _ & Hfull).
  { induction Hrun as [|m0 m1 m2 Hstep _ IH]; [done|]. by eapply IH, explained_step. }
  split; [apply Hwf|done].
Qed.

(** Remark: an observer cannot be removed: after [Subscribe] and [Unsubscribe] of
    the same observer a successful transition still calls it. *)
Theorem Unsubscribe_keeps_observer {T} `{EqDecision0 : EqDecision T} `{!Countable T}
    {SK : StateKind T} (now : Z) (tid : string) (to : T) (o : nat) (m : machine T)
    (Hwf : well_formed m) (Hacc : accepts m (state m) to) :
  let m1 := Unsubscribe (Some o) (Subscribe (Some o) m) in
  OnTransition o (record_of now tid (state m) to None m1)
    ∈ effects (Transition now tid to m1).1.
Proof.
  cbn zeta. rewrite Unsubscribe_id. set (m1 := Subscribe (Some o) m).
  unfold Transition. rewrite (Transition_accepted now tid to None m1) by exact Hacc. cbn [fst].
  destruct (commit_fields now tid (state m1) to None m1 Hwf) as (_ & _ & _ & _ & rest & ->).
  rewrite !elem_of_app. right. left. apply (list_elem_of_fmap_2 (λ o, OnTransition o _)).
  cbn. set_solver.
Qed.

(** C10: a caller left alone behaves as the sequential [Transition], but two
    concurrent callers that want the same state both succeed although the rules
    do not allow that state to follow itself: neither call is told of the other
    one and the history shows the same step twice. *)
Theorem concurrent_transitions_both_succeed {T} `{EqDecision0 : EqDecision T} `{!Countable T}
    {SK : StateKind T} (to : T) (m : machine T) (Hwf : well_formed m)
    (Hhist : 2 ≤ MaxHistorySize (config m)) (Hempty : history m = [])
    (Hacc : accepts m (state m) to)
    (Honce : Contains (Rules (config m)) to to = false) :
  (let '(m', cs) := run_callers [0; 0; 0]%nat m [mkCaller to Called] in
   m' = (Transition 0 "" to m).1 ∧ cs = [mkCaller to (Returned None)])
  ∧ let '(m', cs) := run_callers [0; 1; 0; 1; 0; 1]%nat m [mkCaller to Called; mkCaller to Called] in
    cs = [mkCaller to (Returned None); mkCaller to (Returned None)]
    ∧ state m' = to
    ∧ (λ tr, (From tr, To tr)) <$> history m' = [(state m, to); (state m, to)]
    ∧ ¬ chain (state m) (history m') to.
Proof.
  pose proof Hacc as [Hc Hv]. split.
  - unfold Transition. rewrite Transition_accepted by done.
    cbn. unfold CanTransition. rewrite Hc. cbn. by rewrite Hv.
  - cbn. unfold CanTransition. rewrite Hc. cbn. rewrite Hv. cbn. rewrite Hc. cbn. rewrite Hv. cbn.
    change (Z.of_nat 0) with 0. change (Z.of_nat 1) with 1.
    destruct (commit_fields 1 "" (state m) to None m Hwf) as ((Hcfg & _) & _ & _ & Hh1 & _).
    set (m1 := commit 1 "" (state m) to None m) in *.
    assert (max_history m1 = max_history m) as Hmax by (unfold max_history; by rewrite Hcfg).
    rewrite Hempty, keep_short in Hh1 by (unfold max_history; cbn; lia).
    destruct (commit_fields 0 "" (state m) to None m1) as (_ & Hst2 & _ & Hh2 & _).
    { unfold well_formed. rewrite Hmax, Hh1, Hcfg. cbn. unfold max_history. lia. }
    rewrite Hmax, Hh1, keep_short in Hh2 by (unfold max_history; cbn; lia).
    fold m1. split; [done|]. split; [done|]. rewrite Hh2. split; [done|].
    cbn. intros (_ & Heq & _). congruence.
Qed.

(** C16: a snapshot saved to the in-memory persistence and restored into another
    machine with the same validator resumes the first one exactly: every later
    sequence of transitions is answered with the same errors and leads to the
    same state and history. *)
Theorem snapshot_resumes {T} `{EqDecision0 : EqDecision T} `{!Countable T} {SK : StateKind T}
    (now : Z) (id : string) (p : nat) (cfg : PersistenceConfig) (store : gmap string (StateMachineSnapshot T))
    (m other : machine T) (reqs : list (request T)) (Hv : validator other = validator m) :
  let restored := EnablePersistence (Some p) (LoadState id (SaveState id (createSnapshot now m) store))
                    id cfg other in
  (run_requests reqs restored).2 = (run_requests reqs m).2
  ∧ Current (run_requests reqs restored).1 = Current (run_requests reqs m).1
  ∧ History (run_requests reqs restored).1 = History (run_requests reqs m).1.
Proof.
  cbn zeta. unfold LoadState, SaveState, StateStore. rewrite lookup_insert_eq. cbn [EnablePersistence].
  edestruct (run_requests_agree reqs m) as [-> (_ & Hs & _ & Hh & _)]; [by split_and!|].
  unfold Current, History. by rewrite Hs, Hh.
Qed.

(** ** Concrete instances *)

(** States 0, 1 and 2 in a cycle, two records of history, one observer. *)
Definition demo_kind : StateKind nat := {| show_state := λ n, format_uint (Z.of_nat n) |}.
Definition demo_config : StateMachineConfig nat :=
  WithHistorySize 2 (Allow 2%nat [0%nat] (Allow 1%nat [2%nat] (Allow 0%nat [1%nat] (NewBuilder 0%nat)))).
Definition demo_machine : machine nat :=
  match New 0 demo_config with Ok m => Subscribe (Some 7%nat) m | Err _ => DisablePersistence
    (mkMachine demo_config 0%nat 0 [] [] None false None "" false (mkPersistence false) []) end.

Lemma demo_machine_wf : well_formed demo_machine.
Proof. split; vm_compute; [done|lia]. Qed.
Lemma demo_machine_accepts : accepts demo_machine (state demo_machine) 1%nat.
Proof. split; vm_compute; reflexivity. Qed.

Lemma Transition_outcome_witness :
  let '(m', err) := TransitionWithContext (SK := demo_kind) 5 "t" 1%nat None demo_machine in
  same_setup demo_machine m'
  ∧ (err = None ↔ accepts demo_machine (state demo_machine) 1%nat)
  ∧ match err with
    | None =>
        state m' = 1%nat ∧ stateStart m' = 5
        ∧ history m' = keep (max_history demo_machine)
            (history demo_machine ++ [record_of 5 "t" (state demo_machine) 1%nat None demo_machine])
        ∧ (length (history m') ≤ max_history demo_machine)%nat
        ∧ ∀ o, o ∈ observers demo_machine →
            OnTransition o (record_of 5 "t" (state demo_machine) 1%nat None demo_machine)
              ∈ drop (length (effects demo_machine)) (effects m')
    | Some _ =>
        state m' = state demo_machine ∧ stateStart m' = stateStart demo_machine
        ∧ history m' = history demo_machine
        ∧ ∀ o, o ∈ observers demo_machine → ∃ e,
            OnTransitionFailed o (state demo_machine) 1%nat e None
              ∈ drop (length (effects demo_machine)) (effects m')
    end.
Proof. apply (Transition_outcome (SK := demo_kind) 5 "t" 1%nat None demo_machine demo_machine_wf). Defined.

Lemma history_explains_state_witness :
  let m0 := match New 0 demo_config with Ok m => m | Err _ => demo_machine end in
  let m := (TransitionWithContext (SK := demo_kind) 5 "t" 1%nat None m0).1 in
  (length (History m) ≤ max_history m)%nat
  ∧ ∃ full, chain (InitialState demo_config) full (Current m)
      ∧ Forall (λ tr, accepts m (From tr) (To tr)) full
      ∧ History m = keep (max_history m) full.
Proof.
  apply (history_explains_state (SK := demo_kind) 0 demo_config
           (match New 0 demo_config with Ok m => m | Err _ => demo_machine end)); [reflexivity|].
  apply rtc_once, st_calm, st_transition.
Defined.

Lemma Unsubscribe_keeps_observer_witness :
  let m1 := Unsubscribe (Some 9%nat) (Subscribe (Some 9%nat) demo_machine) in
  OnTransition 9 (record_of 5 "t" (state demo_machine) 1%nat None m1)
    ∈ effects (Transition (SK := demo_kind) 5 "t" 1%nat m1).1.
Proof.
  apply (Unsubscribe_keeps_observer (SK := demo_kind) 5 "t" 1%nat 9 demo_machine demo_machine_wf
           demo_machine_accepts).
Defined.

Lemma concurrent_transitions_both_succeed_witness :
  (let '(m', cs) := run_callers (SK := demo_kind) [0; 0; 0]%nat demo_machine [mkCaller 1%nat Called] in
   m' = (Transition (SK := demo_kind) 0 "" 1%nat demo_machine).1 ∧ cs = [mkCaller 1%nat (Returned None)])
  ∧ let '(m', cs) := run_callers (SK := demo_kind) [0; 1; 0; 1; 0; 1]%nat demo_machine
                       [mkCaller 1%nat Called; mkCaller 1%nat Called] in
    cs = [mkCaller 1%nat (Returned None); mkCaller 1%nat (Returned None)]
    ∧ state m' = 1%nat
    ∧ (λ tr, (From tr, To tr)) <$> history m' = [(state demo_machine, 1%nat); (state demo_machine, 1%nat)]
    ∧ ¬ chain (state demo_machine) (history m') 1%nat.
Proof.
  apply (concurrent_transitions_both_succeed (SK := demo_kind) 1%nat demo_machine demo_machine_wf);
    [vm_compute; discriminate|reflexivity|exact demo_machine_accepts|reflexivity].
Defined.

Lemma snapshot_resumes_witness :
  let reqs := [(5, "t", 1%nat, None); (6, "u", 1%nat, None)] in
  let restored := EnablePersistence (Some 0%nat)
                    (LoadState "m" (SaveState "m" (createSnapshot 4 demo_machine) ∅)) "m"
                    (mkPersistence true)
                    (TransitionWithContext (SK := demo_kind) 2 "s" 1%nat None demo_machine).1 in
  (run_requests (SK := demo_kind) reqs restored).2 = (run_requests (SK := demo_kind) reqs demo_machine).2
  ∧ Current (run_requests (SK := demo_kind) reqs restored).1
    = Current (run_requests (SK := demo_kind) reqs demo_machine).1
  ∧ History (run_requests (SK := demo_kind) reqs restored).1
    = History (run_requests (SK := demo_kind) reqs demo_machine).1.
Proof.
  apply (snapshot_resumes (SK := demo_kind) 4 "m" 0 (mkPersistence true) ∅ demo_machine). reflexivity.
Defined.
