(* ===== verification/SyncState.v ===== *)
(** * The states of a sync operation (src/synckit/sync_state.go)

    The state type, its predicates, the transition table, the machine built
    from the fluent builder, and the shape of the transition graph. *)
From S2P Require Import Prelude Types Json Errors StateMachine.
From stdpp Require Import options.

Inductive SyncState :=
  | SyncIdle | SyncInitializing | SyncPushing | SyncPulling | SyncResolvingConflicts
  | SyncCompleted | SyncFailed | SyncCancelled.

(** The [iota] numbering. *)
Definition sync_state_int (s : SyncState) : nat :=
  match s with
  | SyncIdle => 0 | SyncInitializing => 1 | SyncPushing => 2 | SyncPulling => 3
  | SyncResolvingConflicts => 4 | SyncCompleted => 5 | SyncFailed => 6 | SyncCancelled => 7
  end%nat.
Definition sync_states : list SyncState :=
  [SyncIdle; SyncInitializing; SyncPushing; SyncPulling; SyncResolvingConflicts;
   SyncCompleted; SyncFailed; SyncCancelled].

#[global] Instance SyncState_eq_dec : EqDecision SyncState.
Proof. solve_decision. Defined.
#[global] Program Instance SyncState_countable : Countable SyncState :=
  inj_countable sync_state_int (λ n, sync_states !! n) _.
Next Obligation. by intros []. Qed.

Definition SyncState_String (s : SyncState) : string :=
  match s with
  | SyncIdle => "idle"
  | SyncInitializing => "initializing"
  | SyncPushing => "pushing"
  | SyncPulling => "pulling"
  | SyncResolvingConflicts => "resolving_conflicts"
  | SyncCompleted => "completed"
  | SyncFailed => "failed"
  | SyncCancelled => "cancelled"
  end.
#[global] Instance SyncState_kind : StateKind SyncState := {| show_state := SyncState_String |}.

Definition IsTerminal (s : SyncState) : bool :=
  bool_decide (s = SyncCompleted) || bool_decide (s = SyncFailed) || bool_decide (s = SyncCancelled).
Definition IsActive (s : SyncState) : bool :=
  bool_decide (s = SyncInitializing) || bool_decide (s = SyncPushing)
  || bool_decide (s = SyncPulling) || bool_decide (s = SyncResolvingConflicts).
Definition CanAutoSync (s : SyncState) : bool := bool_decide (s = SyncIdle).

Definition SyncStateTransitionRules : TransitionRules SyncState :=
  Some (list_to_map
    [(SyncIdle, [SyncInitializing]);
     (SyncInitializing, [SyncPushing; SyncPulling; SyncFailed; SyncCancelled]);
     (SyncPushing, [SyncPulling; SyncCompleted; SyncFailed; SyncCancelled]);
     (SyncPulling, [SyncPushing; SyncResolvingConflicts; SyncCompleted; SyncFailed; SyncCancelled]);
     (SyncResolvingConflicts, [SyncCompleted; SyncFailed; SyncCancelled]);
     (SyncCompleted, [SyncIdle]);
     (SyncFailed, [SyncIdle]);
     (SyncCancelled, [SyncIdle])]).

Definition sync_config : StateMachineConfig SyncState :=
  WithName "sync_operations"
  (Allow SyncCancelled [SyncIdle]
  (Allow SyncFailed [SyncIdle]
  (Allow SyncCompleted [SyncIdle]
  (Allow SyncResolvingConflicts [SyncCompleted; SyncFailed; SyncCancelled]
  (Allow SyncPulling [SyncPushing; SyncResolvingConflicts; SyncCompleted; SyncFailed; SyncCancelled]
  (Allow SyncPushing [SyncPulling; SyncCompleted; SyncFailed; SyncCancelled]
  (Allow SyncInitializing [SyncPushing; SyncPulling; SyncFailed; SyncCancelled]
  (Allow SyncIdle [SyncInitializing]
  (NewBuilder SyncIdle))))))))).
Definition NewSyncStateMachine (now : Z) : result error (machine SyncState) := Build now sync_config.

(** The observer adapter: the calls its optional callbacks receive. *)
Record SyncStateObserver := mkObserver { OnStateChange : bool; OnStateChangeError : bool }.
Inductive ObserverCall :=
  | StateChanged (from to : SyncState) (duration : Z) (metadata : gomap any)
  | StateChangeFailed (from to : SyncState) (err : error) (metadata : gomap any).
Definition Observer_OnTransition (o : SyncStateObserver) (tr : StateTransition SyncState)
    : list ObserverCall :=
  if OnStateChange o then [StateChanged (From tr) (To tr) (Duration tr) (TMetadata tr)] else [].
Definition Observer_OnTransitionFailed (o : SyncStateObserver) (from to : SyncState) (err : error)
    (metadata : gomap any) : list ObserverCall :=
  if OnStateChangeError o then [StateChangeFailed from to err metadata] else [].

(** ** The graph *)

Definition sync_edge (s t : SyncState) : Prop := Contains SyncStateTransitionRules s t = true.
#[global] Instance sync_edge_dec s t : Decision (sync_edge s t).
Proof. unfold sync_edge. apply _. Defined.


Lemma sync_rules_of_builder : Rules sync_config = SyncStateTransitionRules.
Proof. vm_compute. reflexivity. Qed.

Lemma resolving_next t : sync_edge SyncResolvingConflicts t → IsTerminal t = true.
Proof. by destruct t; vm_compute. Qed.
Lemma terminal_next s t : IsTerminal s = true → sync_edge s t → t = SyncIdle.
Proof. by destruct s, t; vm_compute. Qed.

(** The machine [NewSyncStateMachine] returns. *)
Definition new_sync_machine (now : Z) : machine SyncState :=
  mkMachine sync_config SyncIdle now [] [] None false None "" false (mkPersistence false) [].
Lemma NewSyncStateMachine_ok now : NewSyncStateMachine now = Ok (new_sync_machine now).
Proof. reflexivity. Qed.

(** Machines that follow the sync rules. *)
Definition sync_ruled (m : machine SyncState) : Prop :=
  Rules (config m) = SyncStateTransitionRules ∧ validator m = None ∧ well_formed m.

Lemma sync_accepts m s t : sync_ruled m → accepts m s t ↔ sync_edge s t.
Proof. intros (Hr & Hv & _). unfold accepts, sync_edge. rewrite Hr, Hv. naive_solver. Qed.

Lemma new_sync_machine_ruled now : sync_ruled (new_sync_machine now).
Proof.
  split; [apply sync_rules_of_builder|]. split; [done|]. split; [done|]. vm_compute. lia.
Qed.

(** ** Properties *)

(** Remark: the machine the builder makes has exactly the documented table, and the
    table has the documented shape: only Idle starts an operation, an active
    state can always fail or be cancelled, terminal states lead only to Idle and
    are the only ones that do, and from every state Idle can be reached again in
    at most two more steps. *)
Theorem sync_graph (now : Z) :
  (∃ m, NewSyncStateMachine now = Ok m ∧ Current m = SyncIdle
        ∧ ∀ s t, accepts m s t ↔ sync_edge s t)
  ∧ (∀ s, sync_edge s SyncInitializing ↔ CanAutoSync s = true)
  ∧ (∀ s, IsActive s = true ↔ sync_edge s SyncFailed ∧ sync_edge s SyncCancelled)
  ∧ (∀ s, IsTerminal s = true ↔ sync_edge s SyncIdle)
  ∧ (∀ s t, IsTerminal s = true → sync_edge s t → t = SyncIdle)
  ∧ (∀ s, ∃ l, (length l ≤ 2)%nat ∧
       match l with
       | [] => s = SyncIdle
       | [t] => sync_edge s t ∧ t = SyncIdle
       | t :: u :: _ => sync_edge s t ∧ sync_edge t u ∧ u = SyncIdle
       end).
Proof.
  split_and!.
  - exists (new_sync_machine now). split_and!; [apply NewSyncStateMachine_ok|done|].
    intros s t. apply sync_accepts, new_sync_machine_ruled.
  - intros []; vm_compute; naive_solver.
  - intros []; vm_compute; naive_solver.
  - intros []; vm_compute; naive_solver.
  - apply terminal_next.
  - intros []; [exists []|exists [SyncFailed; SyncIdle]..|exists [SyncIdle]|exists [SyncIdle]|exists [SyncIdle]];
      (split; [cbn; lia|]); vm_compute; naive_solver.
Qed.

(** Remark: once an operation is resolving conflicts it cannot push any more: in
    every history the machine can produce, no push follows conflict resolution
    before the machine is idle again. *)
Theorem no_push_after_resolving (l : list (StateTransition SyncState)) (s : SyncState)
    (Hch : chain SyncResolvingConflicts l s)
    (Hedges : Forall (λ tr, sync_edge (From tr) (To tr)) l)
    (Hbusy : Forall (λ tr, To tr ≠ SyncIdle) l) :
  (length l ≤ 1)%nat ∧ s ≠ SyncPushing ∧ ∀ tr, tr ∈ l → To tr ≠ SyncPushing.
Proof.
  destruct l as [|tr l]; cbn in Hch.
  { subst. split_and!; [cbn; lia|done|set_solver]. }
  destruct Hch as [Hfrom Hch]. apply Forall_cons in Hedges as [He Hes].
  rewrite Hfrom in He. apply resolving_next in He.
  assert (To tr ≠ SyncPushing) as Hne by (intros Heq; by rewrite Heq in He).
  destruct l as [|tr' l].
  - cbn in Hch. subst s. split_and!; [cbn; lia|done|]. by intros tr' ->%list_elem_of_singleton.
  - exfalso. cbn in Hch. destruct Hch as [Hfrom' _].
    apply Forall_cons in Hes as [He' _]. rewrite Hfrom' in He'.
    apply Forall_cons in Hbusy as [_ [Hi _]%Forall_cons]. by apply Hi, (terminal_next (To tr)).
Qed.

Lemma no_push_after_resolving_witness :
  let l := [mkTransition SyncResolvingConflicts SyncCompleted 1 1 None "t"] in
  (length l ≤ 1)%nat ∧ SyncCompleted ≠ SyncPushing ∧ ∀ tr, tr ∈ l → To tr ≠ SyncPushing.
Proof.
  apply no_push_after_resolving; [by split|..]; (apply Forall_cons; split; [|apply Forall_nil_2]);
    vm_compute; [reflexivity|discriminate].
Defined.
