(* ===== verification/DcrState.v ===== *)
(** * The states of a conflict resolution (src/synckit/statemachine/dcr_state.go)

    The conflict-resolution machine: the generic machine plus the record of the
    resolution in progress. *)
From S2P Require Import Prelude Types Json Errors StateMachine.
From stdpp Require Import options.

Inductive ConflictResolutionState :=
  | DCRIdle | DCRAnalyzing | DCRApplyingRules | DCRResolved | DCRManualReview | DCREscalated
  | DCRFailed.

Definition dcr_state_int (s : ConflictResolutionState) : nat :=
  match s with
  | DCRIdle => 0 | DCRAnalyzing => 1 | DCRApplyingRules => 2 | DCRResolved => 3
  | DCRManualReview => 4 | DCREscalated => 5 | DCRFailed => 6
  end%nat.
Definition dcr_states : list ConflictResolutionState :=
  [DCRIdle; DCRAnalyzing; DCRApplyingRules; DCRResolved; DCRManualReview; DCREscalated; DCRFailed].
#[global] Instance dcr_eq_dec : EqDecision ConflictResolutionState.
Proof. solve_decision. Defined.
#[global] Program Instance dcr_countable : Countable ConflictResolutionState :=
  inj_countable dcr_state_int (λ n, dcr_states !! n) _.
Next Obligation. by intros []. Qed.

Definition dcr_String (s : ConflictResolutionState) : string :=
  match s with
  | DCRIdle => "idle"
  | DCRAnalyzing => "analyzing"
  | DCRApplyingRules => "applying_rules"
  | DCRResolved => "resolved"
  | DCRManualReview => "manual_review"
  | DCREscalated => "escalated"
  | DCRFailed => "failed"
  end.
#[global] Instance dcr_kind : StateKind ConflictResolutionState := {| show_state := dcr_String |}.

Definition IsTerminalState (s : ConflictResolutionState) : bool :=
  match s with DCRResolved | DCREscalated | DCRFailed => true | _ => false end.
Definition IsActiveState (s : ConflictResolutionState) : bool :=
  match s with DCRAnalyzing | DCRApplyingRules => true | _ => false end.
Definition RequiresIntervention (s : ConflictResolutionState) : bool :=
  match s with DCRManualReview | DCREscalated => true | _ => false end.

(** [startTime] is [None] when it is the zero time. *)
Record ConflictResolutionStateMachine := mkDCR {
  stateMachine : machine ConflictResolutionState;
  currentConflictID : string;
  resolutionPath : list string;
  matchedRules : list string;
  failedRules : list string;
  startTime : option Z;
  analysisMetadata : gmap string any
}.

Definition dcr_rules : TransitionRules ConflictResolutionState :=
  Some (list_to_map
    [(DCRIdle, [DCRAnalyzing]);
     (DCRAnalyzing, [DCRApplyingRules; DCRFailed]);
     (DCRApplyingRules, [DCRResolved; DCRManualReview; DCREscalated; DCRFailed]);
     (DCRResolved, [DCRIdle]);
     (DCRManualReview, [DCRResolved; DCREscalated; DCRFailed; DCRIdle]);
     (DCREscalated, [DCRResolved; DCRFailed; DCRIdle]);
     (DCRFailed, [DCRIdle])]).

Definition dcr_default_config : StateMachineConfig ConflictResolutionState :=
  mkConfig DCRIdle dcr_rules None false 100 true "ConflictResolutionStateMachine".

(** A configuration without rules is filled in in place: the caller's struct is
    changed, which the second component gives back. *)
Definition NewConflictResolutionStateMachine (now : Z)
    (cfg : option (StateMachineConfig ConflictResolutionState))
    : option ConflictResolutionStateMachine * option (StateMachineConfig ConflictResolutionState) :=
  let used := default dcr_default_config cfg in
  let used := match Rules used with
              | Some _ => used
              | None => mkConfig (InitialState used) dcr_rules (Validator used) (Metrics used)
                          (MaxHistorySize used) (MetricsEnabled used) (Name used)
              end in
  let sm :=
    match New now used with
    | Ok sm => Some sm
    | Err _ =>
        let fallback := WithName "ConflictResolutionStateMachine" (DefaultConfig DCRIdle (Rules used)) in
        match New now fallback with Ok sm => Some sm | Err _ => None end
    end in
  ((λ sm, mkDCR sm "" [] [] [] None ∅) <$> sm, (λ _, used) <$> cfg).

Definition with_machine (sm : machine ConflictResolutionState) (d : ConflictResolutionStateMachine)
    : ConflictResolutionStateMachine :=
  mkDCR sm (currentConflictID d) (resolutionPath d) (matchedRules d) (failedRules d) (startTime d)
    (analysisMetadata d).

Definition goto (now : Z) (tid : string) (to : ConflictResolutionState)
    (d : ConflictResolutionStateMachine) : ConflictResolutionStateMachine * option error :=
  let '(sm, err) := Transition now tid to (stateMachine d) in (with_machine sm d, err).

Definition StartResolution (now : Z) (tid : string) (conflictID : string)
    (d : ConflictResolutionStateMachine) : ConflictResolutionStateMachine * option error :=
  let '(sm, err) := Transition now tid DCRAnalyzing (stateMachine d) in
  match err with
  | Some e => (with_machine sm d, Some e)
  | None => (mkDCR sm conflictID [] [] [] (Some now) ∅, None)
  end.

Definition AddAnalysisMetadata (key : string) (value : any) (d : ConflictResolutionStateMachine) :=
  mkDCR (stateMachine d) (currentConflictID d) (resolutionPath d) (matchedRules d) (failedRules d)
    (startTime d) (<[key := value]> (analysisMetadata d)).
Definition RecordRuleEvaluation (ruleName : string) (d : ConflictResolutionStateMachine) :=
  mkDCR (stateMachine d) (currentConflictID d) (resolutionPath d ++ [ruleName]) (matchedRules d)
    (failedRules d) (startTime d) (analysisMetadata d).
Definition RecordRuleMatched (ruleName : string) (d : ConflictResolutionStateMachine) :=
  mkDCR (stateMachine d) (currentConflictID d) (resolutionPath d) (matchedRules d ++ [ruleName])
    (failedRules d) (startTime d) (analysisMetadata d).
Definition RecordRuleFailed (ruleName : string) (d : ConflictResolutionStateMachine) :=
  mkDCR (stateMachine d) (currentConflictID d) (resolutionPath d) (matchedRules d)
    (failedRules d ++ [ruleName]) (startTime d) (analysisMetadata d).

Definition BeginRuleApplication (now : Z) (tid : string) := goto now tid DCRApplyingRules.
Definition CompleteResolution (now : Z) (tid : string) := goto now tid DCRResolved.
Definition RequireManualReview (now : Z) (tid : string) := goto now tid DCRManualReview.
Definition EscalateConflict (now : Z) (tid : string) := goto now tid DCREscalated.
Definition FailResolution (now : Z) (tid : string) := goto now tid DCRFailed.

Definition Reset (now : Z) (tid : string) (d : ConflictResolutionStateMachine)
    : ConflictResolutionStateMachine * option error :=
  let '(sm, err) := Transition now tid DCRIdle (stateMachine d) in
  match err with
  | Some e => (with_machine sm d, Some e)
  | None => (mkDCR sm "" [] [] [] None ∅, None)
  end.

Definition Current (d : ConflictResolutionStateMachine) : ConflictResolutionState :=
  StateMachine.Current (stateMachine d).
Definition History (d : ConflictResolutionStateMachine) := StateMachine.History (stateMachine d).
Definition Subscribe (o : option nat) (d : ConflictResolutionStateMachine) :=
  with_machine (StateMachine.Subscribe o (stateMachine d)) d.
Definition Unsubscribe (o : option nat) (d : ConflictResolutionStateMachine) :=
  with_machine (StateMachine.Unsubscribe o (stateMachine d)) d.

Record ConflictResolutionSummary := mkSummary {
  sum_ConflictID : string; sum_CurrentState : ConflictResolutionState;
  sum_ResolutionPath : list string; sum_MatchedRules : list string; sum_FailedRules : list string;
  sum_AnalysisMetadata : gmap string any; sum_Duration : Z; sum_StartTime : option Z
}.
Definition copyMetadata `{!MapRange} (src : gmap string any) : gmap string any :=
  copy_map (range src).
Definition GetResolutionSummary `{!MapRange} (now : Z) (d : ConflictResolutionStateMachine) :=
  mkSummary (currentConflictID d) (Current d) (resolutionPath d) (matchedRules d) (failedRules d)
    (copyMetadata (analysisMetadata d))
    (match startTime d with None => 0 | Some t => time_sub now t end) (startTime d).

(** ** The steps of a resolution *)

Definition dcr_edge (s t : ConflictResolutionState) : Prop := Contains dcr_rules s t = true.
#[global] Instance dcr_edge_dec s t : Decision (dcr_edge s t).
Proof. unfold dcr_edge. apply _. Defined.

Inductive dcr_step : ConflictResolutionStateMachine → ConflictResolutionStateMachine → Prop :=
  | dcr_start now tid id d : dcr_step d (StartResolution now tid id d).1
  | dcr_begin now tid d : dcr_step d (BeginRuleApplication now tid d).1
  | dcr_complete now tid d : dcr_step d (CompleteResolution now tid d).1
  | dcr_review now tid d : dcr_step d (RequireManualReview now tid d).1
  | dcr_escalate now tid d : dcr_step d (EscalateConflict now tid d).1
  | dcr_fail now tid d : dcr_step d (FailResolution now tid d).1
  | dcr_reset now tid d : dcr_step d (Reset now tid d).1
  | dcr_metadata k v d : dcr_step d (AddAnalysisMetadata k v d)
  | dcr_evaluated r d : dcr_step d (RecordRuleEvaluation r d)
  | dcr_matched r d : dcr_step d (RecordRuleMatched r d)
  | dcr_failed r d : dcr_step d (RecordRuleFailed r d)
  | dcr_subscribe o d : dcr_step d (Subscribe o d).

(** Default rules, and a start time and conflict exactly while not idle. *)
Record dcr_inv (d : ConflictResolutionStateMachine) : Prop := {
  inv_rules : Rules (config (stateMachine d)) = dcr_rules;
  inv_validator : validator (stateMachine d) = None;
  inv_wf : well_formed (stateMachine d);
  inv_idle : Current d = DCRIdle → currentConflictID d = "";
  inv_started : Current d = DCRIdle ↔ startTime d = None
}.

Lemma dcr_accepts d s t : dcr_inv d → accepts (stateMachine d) s t ↔ dcr_edge s t.
Proof.
  intros Hinv. unfold accepts, dcr_edge. rewrite (inv_rules d Hinv), (inv_validator d Hinv).
  naive_solver.
Qed.

(** One transition of the underlying machine. *)
Lemma dcr_transition now tid to d :
  dcr_inv d →
  ∃ sm err, Transition now tid to (stateMachine d) = (sm, err)
    ∧ Rules (config sm) = dcr_rules ∧ validator sm = None ∧ well_formed sm
    ∧ ((err = None ∧ dcr_edge (Current d) to ∧ state sm = to)
       ∨ (err ≠ None ∧ ¬ dcr_edge (Current d) to ∧ state sm = Current d)).
Proof.
  intros Hinv. pose proof (inv_wf d Hinv) as Hwf.
  destruct (decide (dcr_edge (Current d) to)) as [He|He].
  - assert (accepts (stateMachine d) (state (stateMachine d)) to) as Ha by (by apply dcr_accepts).
    unfold Transition. rewrite (Transition_accepted now tid to None _ Ha).
    destruct (commit_fields now tid (state (stateMachine d)) to None _ Hwf)
      as ((Hc & Hv & _) & Hs & _ & Hh & _).
    eexists _, None. split; [reflexivity|]. unfold well_formed, max_history in *.
    rewrite Hc, Hv, Hs, Hh, (inv_rules d Hinv), (inv_validator d Hinv).
    split_and!; [done|done|apply Hwf|apply length_keep|by left].
  - assert (¬ accepts (stateMachine d) (state (stateMachine d)) to) as Ha by (by rewrite dcr_accepts).
    unfold Transition. destruct (Transition_rejected now tid to None _ Ha) as (err & e & ->).
    destruct (reject_fields (state (stateMachine d)) to err None (stateMachine d))
      as ((Hc & Hv & _) & Hs & Hh & _).
    eexists _, (Some e). split; [reflexivity|]. unfold well_formed, max_history in *.
    rewrite Hc, Hv, Hs, Hh, (inv_rules d Hinv), (inv_validator d Hinv).
    split_and!; [done|done|apply Hwf|apply Hwf|by right].
Qed.

Lemma goto_inv now tid to d :
  to ≠ DCRIdle → to ≠ DCRAnalyzing → dcr_inv d → dcr_inv (goto now tid to d).1.
Proof.
  intros Hne Hna Hinv. unfold goto.
  destruct (dcr_transition now tid to d Hinv) as (sm & err & -> & Hr & Hv & Hwf & Hcase).
  pose proof (inv_idle d Hinv) as Hi. pose proof (inv_started d Hinv) as Hst.
  unfold Current, StateMachine.Current in *.
  split; cbn; try done; unfold Current, StateMachine.Current in *; cbn;
    destruct Hcase as [(_ & He & ->)|(_ & _ & ->)]; try done.
  split; [done|]. intros Hnone. exfalso. apply Hst in Hnone. rewrite Hnone in He.
  by destruct to; vm_compute in He.
Qed.

Lemma dcr_step_inv d d' : dcr_inv d → dcr_step d d' → dcr_inv d'.
Proof.
  intros Hinv Hs. revert Hinv.
  destruct Hs as [now tid id d|now tid d|now tid d|now tid d|now tid d|now tid d|now tid d
    |k v d|r d|r d|r d|o d]; intros Hinv; try (by apply goto_inv); try (by destruct Hinv; split).
  - unfold StartResolution.
    destruct (dcr_transition now tid DCRAnalyzing d Hinv) as (sm & err & -> & Hr & Hv & Hwf & Hcase).
    destruct Hcase as [(-> & _ & Hst)|(Hne & _ & Hst)].
    + split; cbn; try done; unfold Current, StateMachine.Current; cbn; by rewrite Hst.
    + destruct err; [|done]. destruct Hinv. by split; cbn; unfold Current, StateMachine.Current; cbn;
        try rewrite Hst.
  - unfold Reset.
    destruct (dcr_transition now tid DCRIdle d Hinv) as (sm & err & -> & Hr & Hv & Hwf & Hcase).
    destruct Hcase as [(-> & _ & Hst)|(Hne & _ & Hst)].
    + by split; cbn.
    + destruct err; [|done]. destruct Hinv. by split; cbn; unfold Current, StateMachine.Current; cbn;
        try rewrite Hst.
  - destruct Hinv. by destruct o; split.
Qed.

(** ** Properties *)

(** Remark: a machine with the default table, however it has been driven, holds a
    conflict and a start time exactly while it is not idle; a resolution can be
    started only when idle and starts with empty records; it can be reset only
    once decided, under review, escalated or failed, and a reset forgets it;
    any refused call changes nothing of the records. *)
Theorem dcr_lifecycle (now : Z) (d0 d : ConflictResolutionStateMachine)
    (Hnew : NewConflictResolutionStateMachine now None = (Some d0, None))
    (Hrun : rtc dcr_step d0 d) :
  dcr_inv d
  ∧ (∀ now tid id, let '(d', err) := StartResolution now tid id d in
       (err = None ↔ Current d = DCRIdle)
       ∧ (err = None → Current d' = DCRAnalyzing ∧ currentConflictID d' = id
            ∧ resolutionPath d' = [] ∧ matchedRules d' = [] ∧ failedRules d' = [])
       ∧ (err ≠ None → d' = with_machine (stateMachine d') d ∧ Current d' = Current d))
  ∧ (∀ now tid, let '(d', err) := Reset now tid d in
       (err = None ↔ Current d ∈ [DCRResolved; DCRManualReview; DCREscalated; DCRFailed])
       ∧ (err = None → Current d' = DCRIdle ∧ currentConflictID d' = "" ∧ resolutionPath d' = [])
       ∧ (err ≠ None → d' = with_machine (stateMachine d') d ∧ Current d' = Current d)).
Proof.
  assert (dcr_inv d) as Hinv.
  { assert (dcr_inv d0) as H0.
    { injection Hnew as <-. split; try done. split; [done|]. vm_compute. lia. }
    clear Hnew. induction Hrun as [|d0 d1 d2 Hs _ IH]; [done|]. by eapply IH, dcr_step_inv. }
  split; [done|]. split.
  - intros now' tid id. unfold StartResolution.
    destruct (dcr_transition now' tid DCRAnalyzing d Hinv) as (sm & err & -> & _ & _ & _ & Hcase).
    assert (dcr_edge (Current d) DCRAnalyzing ↔ Current d = DCRIdle) as Hedge
      by (destruct (Current d); vm_compute; naive_solver).
    destruct Hcase as [(-> & He & Hst)|(Hne & He & Hst)].
    + split_and!; [naive_solver|done|done].
    + destruct err as [e|]; [|done]. split_and!; [naive_solver|done|done].
  - intros now' tid. unfold Reset.
    destruct (dcr_transition now' tid DCRIdle d Hinv) as (sm & err & -> & _ & _ & _ & Hcase).
    assert (dcr_edge (Current d) DCRIdle ↔ Current d ∈ [DCRResolved; DCRManualReview; DCREscalated; DCRFailed])
      as Hedge by (rewrite !elem_of_cons, elem_of_nil; destruct (Current d); vm_compute; naive_solver).
    destruct Hcase as [(-> & He & Hst)|(Hne & He & Hst)].
    + split_and!; [naive_solver|done|done].
    + destruct err as [e|]; [|done]. split_and!; [naive_solver|done|done].
Qed.

(** A machine half-way through a resolution. *)
Definition demo_dcr : ConflictResolutionStateMachine :=
  match NewConflictResolutionStateMachine 0 None with
  | (Some d, _) => (BeginRuleApplication 2 "b" (RecordRuleMatched "r" (StartResolution 1 "a" "c-1" d).1)).1
  | (None, _) => mkDCR (mkMachine dcr_default_config DCRIdle 0 [] [] None false None "" false
                          (mkPersistence false) []) "" [] [] [] None ∅
  end.

Lemma dcr_lifecycle_witness :
  dcr_inv demo_dcr
  ∧ (∀ now tid id, let '(d', err) := StartResolution now tid id demo_dcr in
       (err = None ↔ Current demo_dcr = DCRIdle)
       ∧ (err = None → Current d' = DCRAnalyzing ∧ currentConflictID d' = id
            ∧ resolutionPath d' = [] ∧ matchedRules d' = [] ∧ failedRules d' = [])
       ∧ (err ≠ None → d' = with_machine (stateMachine d') demo_dcr ∧ Current d' = Current demo_dcr))
  ∧ (∀ now tid, let '(d', err) := Reset now tid demo_dcr in
       (err = None ↔ Current demo_dcr ∈ [DCRResolved; DCRManualReview; DCREscalated; DCRFailed])
       ∧ (err = None → Current d' = DCRIdle ∧ currentConflictID d' = "" ∧ resolutionPath d' = [])
       ∧ (err ≠ None → d' = with_machine (stateMachine d') demo_dcr ∧ Current d' = Current demo_dcr)).
Proof.
  apply (dcr_lifecycle 0 (mkDCR (mkMachine dcr_default_config DCRIdle 0 [] [] None false None "" false
                                   (mkPersistence false) []) "" [] [] [] None ∅)); [reflexivity|].
  eapply rtc_l; [apply (dcr_start 1 "a" "c-1")|].
  eapply rtc_l; [apply (dcr_matched "r")|].
  apply rtc_once, (dcr_begin 2 "b").
Defined.
