(* ===== verification/TransportState.v ===== *)
(** * Connection states (src/synckit/statemachine: transport_states.go,
    transport_manager.go)

    The transport state machine and the manager that tracks it.  The manager
    observes its own machine: the machine starts a goroutine per transition,
    and [pending] holds the notifications whose goroutine has not run yet, in
    no fixed order of execution. *)
From S2P Require Import Prelude Types Json Errors StateMachine.
From stdpp Require Import options.

Inductive TransportState :=
  | TransportDisconnected | TransportConnecting | TransportConnected | TransportReconnecting
  | TransportFailed | TransportShuttingDown.

Definition transport_state_int (s : TransportState) : nat :=
  match s with
  | TransportDisconnected => 0 | TransportConnecting => 1 | TransportConnected => 2
  | TransportReconnecting => 3 | TransportFailed => 4 | TransportShuttingDown => 5
  end%nat.
Definition transport_states : list TransportState :=
  [TransportDisconnected; TransportConnecting; TransportConnected; TransportReconnecting;
   TransportFailed; TransportShuttingDown].
#[global] Instance TransportState_eq_dec : EqDecision TransportState.
Proof. solve_decision. Defined.
#[global] Program Instance TransportState_countable : Countable TransportState :=
  inj_countable transport_state_int (λ n, transport_states !! n) _.
Next Obligation. by intros []. Qed.

Definition TransportState_String (s : TransportState) : string :=
  match s with
  | TransportDisconnected => "disconnected"
  | TransportConnecting => "connecting"
  | TransportConnected => "connected"
  | TransportReconnecting => "reconnecting"
  | TransportFailed => "failed"
  | TransportShuttingDown => "shutting_down"
  end.
#[global] Instance TransportState_kind : StateKind TransportState :=
  {| show_state := TransportState_String |}.

Definition CanConnect (s : TransportState) : bool :=
  match s with TransportDisconnected | TransportFailed => true | _ => false end.
Definition CanReconnect (s : TransportState) : bool :=
  match s with TransportConnected | TransportDisconnected | TransportFailed => true | _ => false end.
Definition CanSendData (s : TransportState) : bool := bool_decide (s = TransportConnected).
Definition CanReceiveData (s : TransportState) : bool := bool_decide (s = TransportConnected).
Definition IsConnected (s : TransportState) : bool := bool_decide (s = TransportConnected).
Definition IsTerminal (s : TransportState) : bool := bool_decide (s = TransportFailed).

Definition ValidateTransition (from to : TransportState) : option error :=
  if bool_decide (from = TransportShuttingDown)
  then Some (ErrMsg "cannot transition from shutting down state") else None.

Definition transport_rules : TransitionRules TransportState :=
  Some (list_to_map
    [(TransportDisconnected, [TransportConnecting; TransportShuttingDown]);
     (TransportConnecting,
       [TransportConnected; TransportFailed; TransportDisconnected; TransportShuttingDown]);
     (TransportConnected,
       [TransportReconnecting; TransportDisconnected; TransportFailed; TransportShuttingDown]);
     (TransportReconnecting,
       [TransportConnected; TransportFailed; TransportDisconnected; TransportShuttingDown]);
     (TransportFailed, [TransportConnecting; TransportShuttingDown]);
     (TransportShuttingDown, [])]).
Definition transport_config : StateMachineConfig TransportState :=
  mkConfig TransportDisconnected transport_rules (Some ValidateTransition) false 50 true
    "transport_connection".
Definition NewTransportStateMachine (now : Z) : result error (machine TransportState) :=
  New now transport_config.

(** ** Metadata *)

Section manager.
Context {TT : TimeText}.

Definition any_duration (d : Z) : any := AnyOther "time.Duration" (duration_string d).
Definition ConnectingMetadata (now : Z) (endpoint : string) (timeout : Z) : gmap string any :=
  {["endpoint" := AnyString endpoint; "timeout" := any_duration timeout;
    "started_at" := AnyString (rfc3339 now); "operation" := AnyString "connecting"]}.
Definition ConnectedMetadata (now : Z) (endpoint : string) (connectionTime : Z) : gmap string any :=
  {["endpoint" := AnyString endpoint; "connection_time" := any_duration connectionTime;
    "connected_at" := AnyString (rfc3339 now); "operation" := AnyString "connected"]}.
Definition ReconnectingMetadata (now : Z) (reason : string) (attempt nextRetry : Z)
    : gmap string any :=
  {["disconnect_reason" := AnyString reason; "attempt" := AnyInt attempt;
    "next_retry" := any_duration nextRetry; "started_at" := AnyString (rfc3339 now);
    "operation" := AnyString "reconnecting"]}.
(** [err.Error()] on a nil error panics. *)
Definition FailedMetadata (now : Z) (err : option error) (attempts duration : Z)
    : outcome (gmap string any) :=
  let* err := deref err in
  Done {["error" := AnyString (error_string err); "total_attempts" := AnyInt attempts;
         "total_duration" := any_duration duration; "failed_at" := AnyString (rfc3339 now);
         "operation" := AnyString "failed"]}.
Definition DisconnectedMetadata (now : Z) (reason : string) (graceful : bool) : gmap string any :=
  {["disconnect_reason" := AnyString reason; "graceful" := AnyBool graceful;
    "disconnected_at" := AnyString (rfc3339 now); "operation" := AnyString "disconnected"]}.
Definition ShuttingDownMetadata (now : Z) (reason : string) : gmap string any :=
  {["shutdown_reason" := AnyString reason; "started_at" := AnyString (rfc3339 now);
    "operation" := AnyString "shutting_down"]}.

(** ** The manager *)

(** [handled] lists the calls of the external handlers (by identity). *)
Record TransportStateManager := mkTSM {
  stateMachine : machine TransportState;
  endpoint : string;
  lastError : option error;
  connectionTime : option Z;
  totalAttempts : Z;
  stateHandlers : list nat;
  pending : list (StateTransition TransportState);
  handled : list (nat * StateTransition TransportState)
}.

(** Observer identities: the observability hooks and the manager itself. *)
Definition hooks_id : nat := 0.
Definition manager_id : nat := 1.

Definition NewTransportStateManager (now : Z) (endpoint : string) (observability : bool)
    : result error TransportStateManager :=
  match NewTransportStateMachine now with
  | Err e => Err (ErrWrap "failed to create transport state machine" e)
  | Ok sm =>
      let sm := if observability then Subscribe (Some hooks_id) sm else sm in
      let sm := Subscribe (Some manager_id) sm in
      Ok (mkTSM sm endpoint None None 0 [] [] [])
  end.

Definition on_transition_error (tr : StateTransition TransportState) (last : option error)
    : option error :=
  match map_of (TMetadata tr) !! "error" with
  | Some (AnyString s) => Some (ErrMsg s)
  | _ => last
  end.

(** [OnTransition]: tracking, then a goroutine per handler. *)
Definition OnTransition (tr : StateTransition TransportState) (t : TransportStateManager)
    : TransportStateManager :=
  let '(attempts, err, conn) :=
    match To tr with
    | TransportConnecting => (i64 (totalAttempts t + 1), None, connectionTime t)
    | TransportConnected => (totalAttempts t, None, Some (Timestamp tr))
    | TransportFailed => (totalAttempts t, on_transition_error tr (lastError t), connectionTime t)
    | TransportDisconnected => (totalAttempts t, None, connectionTime t)
    | _ => (totalAttempts t, lastError t, connectionTime t)
    end in
  mkTSM (stateMachine t) (endpoint t) err conn attempts (stateHandlers t) (pending t)
    (handled t ++ ((λ h, (h, tr)) <$> stateHandlers t)).

(** Some goroutine runs: any of the pending notifications. *)
Definition run_notification (i : nat) (t : TransportStateManager) : TransportStateManager :=
  match pending t !! i with
  | None => t
  | Some tr =>
      OnTransition tr
        (mkTSM (stateMachine t) (endpoint t) (lastError t) (connectionTime t) (totalAttempts t)
           (stateHandlers t) (delete i (pending t)) (handled t))
  end.

(** The notifications for the manager among new effects of its machine. *)
Definition for_manager (es : list (Effect TransportState)) : list (StateTransition TransportState) :=
  omap (λ e, match e with
             | StateMachine.OnTransition o tr => if Nat.eqb o manager_id then Some tr else None
             | _ => None
             end) es.

Definition move (now : Z) (tid : string) (to : TransportState) (md : gmap string any)
    (t : TransportStateManager) : TransportStateManager * option error :=
  let '(sm, err) := TransitionWithContext now tid to (Some md) (stateMachine t) in
  (mkTSM sm (endpoint t) (lastError t) (connectionTime t) (totalAttempts t) (stateHandlers t)
     (pending t ++ for_manager (drop (length (effects (stateMachine t))) (effects sm))) (handled t), err).

Definition GetConnectionState (t : TransportStateManager) : TransportState :=
  Current (stateMachine t).

(** The handler is an identity, [None] when nil. *)
Definition SubscribeToStateChanges (handler : option nat) (t : TransportStateManager)
    : TransportStateManager * option error :=
  match handler with
  | None => (t, Some (ErrMsg "handler cannot be nil"))
  | Some h =>
      (mkTSM (stateMachine t) (endpoint t) (lastError t) (connectionTime t) (totalAttempts t)
         (stateHandlers t ++ [h]) (pending t) (handled t), None)
  end.

Definition TransitionToConnecting (now : Z) (tid : string) (timeout : Z) (t : TransportStateManager)
    : TransportStateManager * option error :=
  let currentState := GetConnectionState t in
  if negb (CanConnect currentState) then
    (t, Some (ErrMsg ("cannot connect from state: " +:+ TransportState_String currentState)))
  else move now tid TransportConnecting (ConnectingMetadata now (endpoint t) timeout) t.
Definition TransitionToConnected (now : Z) (tid : string) (connTime : Z) (t : TransportStateManager)
    : TransportStateManager * option error :=
  move now tid TransportConnected (ConnectedMetadata now (endpoint t) connTime) t.
Definition TransitionToReconnecting (now : Z) (tid : string) (reason : string)
    (attempt nextRetry : Z) (t : TransportStateManager) : TransportStateManager * option error :=
  let currentState := GetConnectionState t in
  if negb (CanReconnect currentState) then
    (t, Some (ErrMsg ("cannot reconnect from state: " +:+ TransportState_String currentState)))
  else move now tid TransportReconnecting (ReconnectingMetadata now reason attempt nextRetry) t.
Definition TransitionToFailed (now : Z) (tid : string) (err : option error) (attempts duration : Z)
    (t : TransportStateManager) : outcome (TransportStateManager * option error) :=
  let* md := FailedMetadata now err attempts duration in
  Done (move now tid TransportFailed md t).
Definition TransitionToDisconnected (now : Z) (tid : string) (reason : string) (graceful : bool)
    (t : TransportStateManager) : TransportStateManager * option error :=
  move now tid TransportDisconnected (DisconnectedMetadata now reason graceful) t.
Definition TransitionToShuttingDown (now : Z) (tid : string) (reason : string)
    (t : TransportStateManager) : TransportStateManager * option error :=
  move now tid TransportShuttingDown (ShuttingDownMetadata now reason) t.

Definition IsHealthy (t : TransportStateManager) : bool :=
  CanSendData (GetConnectionState t) || CanReceiveData (GetConnectionState t).
Definition GetLastError (t : TransportStateManager) : option error := lastError t.
Definition GetConnectionMetadata (now : Z) (t : TransportStateManager) : gmap string any :=
  let s := GetConnectionState t in
  let base : gmap string any :=
    {["current_state" := AnyString (TransportState_String s); "endpoint" := AnyString (endpoint t);
      "total_attempts" := AnyInt (totalAttempts t); "is_connected" := AnyBool (IsConnected s);
      "can_send_data" := AnyBool (CanSendData s);
      "can_receive_data" := AnyBool (CanReceiveData s)]} in
  let base := match connectionTime t with
              | None => base
              | Some c => <["connection_duration" := AnyString (duration_string (time_sub now c))]>
                            (<["connected_at" := AnyString (rfc3339 c)]> base)
              end in
  match lastError t with
  | None => base
  | Some e => <["last_error" := AnyString (error_string e)]> base
  end.

Definition tsm_Close (now : Z) (tid : string) (t : TransportStateManager) : TransportStateManager :=
  let t := if bool_decide (GetConnectionState t = TransportShuttingDown) then t
           else (TransitionToShuttingDown now tid "manager_close" t).1 in
  mkTSM (stateMachine t) (endpoint t) (lastError t) (connectionTime t) (totalAttempts t) []
    (pending t) (handled t).

(** [StatefulTransportWrapper.Close]; [close_err] is the error of the wrapped
    transport's own [Close]. *)
Definition Wrapper_Close (now : Z) (tid : string) (close_err : option error)
    (t : TransportStateManager) : TransportStateManager * option error :=
  let t := tsm_Close now tid t in
  let errs := match close_err with
              | None => []
              | Some e => [ErrWrap "transport close error" e]
              end in
  (t, match errs with
      | [] => None
      | _ => Some (ErrMsg ("multiple close errors: " +:+ sprintf_v (AnyErrors errs)))
      end).
End manager.

(** ** The graph and the manager's invariant *)

Definition transport_edge (s t : TransportState) : Prop := Contains transport_rules s t = true.
#[global] Instance transport_edge_dec s t : Decision (transport_edge s t).
Proof. unfold transport_edge. apply _. Defined.

Record tsm_inv (t : TransportStateManager) : Prop := {
  inv_rules : Rules (config (stateMachine t)) = transport_rules;
  inv_validator : validator (stateMachine t) = Some ValidateTransition;
  inv_wf : well_formed (stateMachine t);
  inv_observers : observers (stateMachine t) = [manager_id]
                  ∨ observers (stateMachine t) = [hooks_id; manager_id]
}.

Lemma tsm_accepts t s u : tsm_inv t → accepts (stateMachine t) s u ↔ transport_edge s u.
Proof.
  intros Hinv. unfold accepts, transport_edge. rewrite (inv_rules t Hinv), (inv_validator t Hinv).
  cbn. by destruct s, u; vm_compute; naive_solver.
Qed.

Section results.
Context {TT : TimeText}.

(** What an accepted move records for the manager. *)
Definition moved (now : Z) (tid : string) (to : TransportState) (md : gmap string any)
    (t : TransportStateManager) : StateTransition TransportState :=
  record_of now tid (GetConnectionState t) to (Some md) (stateMachine t).

Lemma for_manager_app es es' : for_manager (es ++ es') = for_manager es ++ for_manager es'.
Proof. apply omap_app. Qed.
Lemma for_manager_failed from to err md (os : list nat) :
  for_manager ((λ o, OnTransitionFailed o from to err md) <$> os) = [].
Proof. induction os as [|o os IH]; [done|exact IH]. Qed.

(** An accepted move leaves one pending notification, a refused one none. *)
Lemma move_cases now tid to md t :
  tsm_inv t →
  let r := move now tid to md t in
  tsm_inv r.1 ∧ lastError r.1 = lastError t ∧ totalAttempts r.1 = totalAttempts t
  ∧ ((r.2 = None ∧ transport_edge (GetConnectionState t) to ∧ GetConnectionState r.1 = to
      ∧ pending r.1 = pending t ++ [moved now tid to md t])
     ∨ (r.2 ≠ None ∧ ¬ transport_edge (GetConnectionState t) to
        ∧ GetConnectionState r.1 = GetConnectionState t ∧ pending r.1 = pending t)).
Proof.
  intros Hinv. pose proof (inv_wf t Hinv) as Hwf. cbn zeta. unfold move.
  destruct (decide (transport_edge (GetConnectionState t) to)) as [He|He].
  - assert (accepts (stateMachine t) (state (stateMachine t)) to) as Ha by (by apply tsm_accepts).
    rewrite (Transition_accepted now tid to (Some md) _ Ha). cbn [fst snd lastError totalAttempts].
    destruct (commit_fields now tid (state (stateMachine t)) to (Some md) _ Hwf)
      as ((Hc & Hv & Hm & Ho & _) & Hs & _ & Hh & _).
    split_and!; [|done|done|left; split_and!; [done|done|exact Hs|]].
    + split; cbn -[commit]; unfold well_formed, max_history;
        rewrite ?Hc, ?Hv, ?Ho, ?Hh; try apply Hinv. split; [apply Hwf|apply length_keep].
    + cbn [pending]. f_equal. unfold commit, collects, moved, record_of, notifyTransition. cbn.
      destruct (inv_observers t Hinv) as [Hobs|Hobs]; rewrite Hobs;
        repeat match goal with |- context [if ?b then emit _ _ else _] => destruct b end;
        cbn; rewrite <-?app_assoc, drop_app_length; reflexivity.
  - assert (¬ accepts (stateMachine t) (state (stateMachine t)) to) as Ha by (by rewrite tsm_accepts).
    destruct (Transition_rejected now tid to (Some md) _ Ha) as (err & e & ->).
    cbn [fst snd lastError totalAttempts].
    destruct (reject_fields (state (stateMachine t)) to err (Some md) (stateMachine t))
      as ((Hc & Hv & Hm & Ho & _) & Hs & Hh & _ & Heff).
    split_and!; [|done|done|right; split_and!; [done|done|exact Hs|]].
    + split; cbn -[reject]; unfold well_formed, max_history; rewrite ?Hc, ?Hv, ?Ho, ?Hh; apply Hinv.
    + cbn [pending]. rewrite Heff, drop_app_length, for_manager_app, for_manager_failed.
      destruct (collects _); cbn; by rewrite app_nil_r.
Qed.

Inductive tsm_step : TransportStateManager → TransportStateManager → Prop :=
  | tsm_connecting now tid timeout t : tsm_step t (TransitionToConnecting now tid timeout t).1
  | tsm_connected now tid c t : tsm_step t (TransitionToConnected now tid c t).1
  | tsm_reconnecting now tid r a n t : tsm_step t (TransitionToReconnecting now tid r a n t).1
  | tsm_failed now tid e a d t t' err :
      TransitionToFailed now tid e a d t = Done (t', err) → tsm_step t t'
  | tsm_disconnected now tid r g t : tsm_step t (TransitionToDisconnected now tid r g t).1
  | tsm_shutdown now tid r t : tsm_step t (TransitionToShuttingDown now tid r t).1
  | tsm_notification i t : tsm_step t (run_notification i t)
  | tsm_subscribe h t : tsm_step t (SubscribeToStateChanges h t).1
  | tsm_close now tid t : tsm_step t (tsm_Close now tid t).

Lemma OnTransition_machine tr t : stateMachine (OnTransition tr t) = stateMachine t.
Proof. unfold OnTransition. by destruct (To tr). Qed.
Lemma run_notification_machine i t : stateMachine (run_notification i t) = stateMachine t.
Proof. unfold run_notification. destruct (pending t !! i); [|done]. by rewrite OnTransition_machine. Qed.

Lemma inv_same_machine t t' : stateMachine t' = stateMachine t → tsm_inv t → tsm_inv t'.
Proof. intros Hm []. split; by rewrite Hm. Qed.

(** Every step is a move of the machine or leaves it alone. *)
Lemma tsm_step_cases t t' :
  tsm_step t t' →
  stateMachine t' = stateMachine t
  ∨ ∃ now tid to md, stateMachine t' = stateMachine (move now tid to md t).1.
Proof.
  intros Hs. destruct Hs as [now tid timeout t|now tid c t|now tid r a n t|now tid e a d t t' err He
    |now tid r g t|now tid r t|i t|h t|now tid t]; try (right; by eexists _, _, _, _).
  - unfold TransitionToConnecting. destruct (CanConnect _); [right; by eexists _, _, _, _|by left].
  - unfold TransitionToReconnecting. destruct (CanReconnect _); [right; by eexists _, _, _, _|by left].
  - unfold TransitionToFailed in He. destruct (FailedMetadata now e a d) as [md|]; [|done].
    cbn in He. injection He as Heq. right. exists now, tid, TransportFailed, md. by rewrite Heq.
  - left. apply run_notification_machine.
  - left. by destruct h.
  - unfold tsm_Close. case_bool_decide; [by left|right; by eexists _, _, _, _].
Qed.

Lemma tsm_step_inv t t' : tsm_inv t → tsm_step t t' → tsm_inv t'.
Proof.
  intros Hinv [Hm|(now & tid & to & md & Hm)]%tsm_step_cases; [by eapply inv_same_machine|].
  eapply inv_same_machine; [exact Hm|]. by apply move_cases.
Qed.
Lemma tsm_run_inv t t' : tsm_inv t → rtc tsm_step t t' → tsm_inv t'.
Proof. intros Hinv Hr. induction Hr as [|t t1 t2 Hs _ IH]; [done|]. by eapply IH, tsm_step_inv. Qed.

Lemma New_tsm_inv now ep obs t : NewTransportStateManager now ep obs = Ok t → tsm_inv t.
Proof.
  unfold NewTransportStateManager. cbn. destruct obs; intros [= <-]; split; cbn;
    try done; try (split; vm_compute; [done|lia]); auto.
Qed.
End results.

(** A step whose notifications have all run before the next one. *)
Inductive prompt_step `{!TimeText} : TransportStateManager → TransportStateManager → Prop :=
  | prompt now tid to md t t' err :
      pending t = [] → move now tid to md t = (t', err) →
      prompt_step t (if decide (err = None) then run_notification 0 t' else t').

(** ** Properties *)

(** Remark: shutting down is final: whatever calls and notifications follow, the
    transport stays in that state, is unhealthy and refuses every transition. *)
Theorem shutdown_is_final `{!TimeText} (t t' : TransportStateManager) (Hinv : tsm_inv t)
    (Hshut : GetConnectionState t = TransportShuttingDown) (Hrun : rtc tsm_step t t') :
  GetConnectionState t' = TransportShuttingDown
  ∧ IsHealthy t' = false
  ∧ ∀ now tid to md, (move now tid to md t').2 ≠ None.
Proof.
  assert (∀ to, ¬ transport_edge TransportShuttingDown to) as Hno by (by intros []; vm_compute).
  assert (tsm_inv t' ∧ GetConnectionState t' = TransportShuttingDown) as [Hinv' Hs].
  { induction Hrun as [|t t1 t2 Hs _ IH]; [done|]. apply IH; [by eapply tsm_step_inv|].
    destruct (tsm_step_cases t t1 Hs) as [Hm|(now & tid & to & md & Hm)]; unfold GetConnectionState.
    - by rewrite Hm.
    - rewrite Hm. destruct (move_cases now tid to md t Hinv)
        as (_ & _ & _ & [(_ & He & _)|(_ & _ & Hst & _)]).
      + rewrite Hshut in He. by destruct (Hno _ He).
      + unfold GetConnectionState in Hst. by rewrite Hst. }
  split; [done|]. split; [unfold IsHealthy; by rewrite Hs|].
  intros now tid to md. destruct (move_cases now tid to md t' Hinv')
    as (_ & _ & _ & [(_ & He & _)|(? & _)]); [|done].
  rewrite Hs in He. by destruct (Hno _ He).
Qed.

(** Remark: connecting is accepted exactly where [CanConnect] says so, but
    [CanReconnect] also allows Disconnected and Failed, from where the table
    refuses the transition: reconnecting succeeds only from Connected. *)
Theorem connect_guards `{!TimeText} (t0 t : TransportStateManager) (now : Z) (ep : string) (obs : bool)
    (Hnew : NewTransportStateManager now ep obs = Ok t0) (Hrun : rtc tsm_step t0 t) :
  (∀ now tid timeout, (TransitionToConnecting now tid timeout t).2 = None
     ↔ CanConnect (GetConnectionState t) = true)
  ∧ (∀ now tid r a n, (TransitionToReconnecting now tid r a n t).2 = None
     ↔ GetConnectionState t = TransportConnected)
  ∧ (GetConnectionState t = TransportFailed →
     CanReconnect (GetConnectionState t) = true
     ∧ ∀ now tid r a n, (TransitionToReconnecting now tid r a n t).2
         = Some (invalid_transition TransportFailed TransportReconnecting)).
Proof.
  assert (tsm_inv t) as Hinv by (eapply tsm_run_inv; [by eapply New_tsm_inv|done]).
  split; [|split].
  - intros now' tid timeout. unfold TransitionToConnecting.
    destruct (CanConnect (GetConnectionState t)) eqn:Hc; cbn [negb]; [|done].
    destruct (move_cases now' tid TransportConnecting (ConnectingMetadata now' (endpoint t) timeout) t Hinv)
      as (_ & _ & _ & [(? & _)|(_ & Hn & _)]); [done|].
    exfalso. apply Hn. by destruct (GetConnectionState t).
  - intros now' tid r a n. unfold TransitionToReconnecting.
    assert (transport_edge (GetConnectionState t) TransportReconnecting
      ↔ GetConnectionState t = TransportConnected) as Hedge
      by (destruct (GetConnectionState t); vm_compute; naive_solver).
    destruct (CanReconnect (GetConnectionState t)) eqn:Hc; cbn [negb].
    + destruct (move_cases now' tid TransportReconnecting (ReconnectingMetadata now' r a n) t Hinv)
        as (_ & _ & _ & [(? & ? & _)|(? & Hn & _)]); naive_solver.
    + cbn. split; [done|]. intros Heq. by rewrite Heq in Hc.
  - intros Hf. rewrite Hf. split; [done|]. intros now' tid r a n.
    unfold TransitionToReconnecting. rewrite Hf. cbn [CanReconnect negb].
    unfold move, TransitionWithContext, CanTransition. unfold GetConnectionState, Current in Hf.
    rewrite Hf, (inv_rules t Hinv). reflexivity.
Qed.

(** Remark: when every notification runs before the next transition the last error
    is only set while the transport is failed or shutting down; but the
    goroutines may run in another order, and a connected, healthy transport can
    then report the error of an earlier failure. *)
Theorem last_error_depends_on_order `{!TimeText} :
  (∀ now ep obs t0 t, NewTransportStateManager now ep obs = Ok t0 → rtc prompt_step t0 t →
     GetLastError t ≠ None → GetConnectionState t = TransportFailed
                             ∨ GetConnectionState t = TransportShuttingDown)
  ∧ ∃ t0 t, NewTransportStateManager 0 "ep" false = Ok t0 ∧ rtc tsm_step t0 t
     ∧ GetConnectionState t = TransportConnected ∧ IsHealthy t = true
     ∧ GetLastError t = Some (ErrMsg "refused").
Proof.
  split.
  - intros now ep obs t0 t Hnew Hrun.
    assert (tsm_inv t0 ∧ pending t0 = [] ∧ (GetLastError t0 ≠ None →
      GetConnectionState t0 = TransportFailed ∨ GetConnectionState t0 = TransportShuttingDown)) as H0.
    { split; [by eapply New_tsm_inv|]. unfold NewTransportStateManager in Hnew. cbn in Hnew.
      by destruct obs; injection Hnew as <-. }
    clear Hnew. revert H0.
    induction Hrun as [|t0 t1 t2 Hs _ IH]; intros (Hinv & Hp & Hl); [done|]. apply IH. clear IH.
    destruct Hs as [now' tid to md t t' err _ Hm].
    destruct (move_cases now' tid to md t Hinv) as (Hinv' & Hle & _ & Hcase).
    rewrite Hm in Hinv', Hle, Hcase. cbn [fst snd] in *.
    destruct Hcase as [(-> & He & Hst & Hpend)|(Hne & _ & Hst & Hpend)].
    + rewrite decide_True by done. rewrite Hp in Hpend. cbn [app] in Hpend.
      split; [by eapply inv_same_machine, Hinv'; apply run_notification_machine|].
      unfold GetConnectionState. rewrite run_notification_machine.
      unfold GetConnectionState in Hst. rewrite Hst.
      unfold run_notification. rewrite Hpend. cbn [lookup list_lookup].
      unfold OnTransition, GetLastError, moved, record_of. cbn [To lastError].
      unfold GetLastError in Hl. rewrite Hle.
      destruct to; cbn; (split; [done|]); try naive_solver.
      intros Hlast%Hl. destruct Hlast as [Hx|Hx]; rewrite Hx in He; by vm_compute in He.
    + rewrite decide_False by done. rewrite Hpend, Hst. unfold GetLastError in *. by rewrite Hle.
  - eexists. eexists. split; [reflexivity|]. split; [|split; [|split]].
    + eapply rtc_l; [apply (tsm_connecting 1 "a" 5)|].
      eapply rtc_l; [eapply (tsm_failed 2 "b" (Some (ErrMsg "refused")) 1 1); reflexivity|].
      eapply rtc_l; [apply (tsm_connecting 3 "c" 5)|].
      eapply rtc_l; [apply (tsm_connected 4 "d" 1)|].
      (* Connecting, Connecting and Connected are observed before Failed *)
      eapply rtc_l; [apply (tsm_notification 0)|].
      eapply rtc_l; [apply (tsm_notification 1)|].
      eapply rtc_l; [apply (tsm_notification 1)|].
      apply rtc_once, (tsm_notification 0).
    + reflexivity.
    + reflexivity.
    + reflexivity.
Qed.

(** ** Concrete instances *)
Definition plain_text : TimeText := {| rfc3339 := format_int; duration_string := format_int |}.
Definition demo_tsm : TransportStateManager :=
  match NewTransportStateManager 0 "ep" false with
  | Ok t => t
  | Err _ => mkTSM (mkMachine transport_config TransportDisconnected 0 [] [] None false None "" false
                      (mkPersistence false) []) "" None None 0 [] [] []
  end.

Lemma shutdown_is_final_witness :
  let t := tsm_Close (TT := plain_text) 1 "a" demo_tsm in
  let t' := (TransitionToConnecting (TT := plain_text) 2 "b" 5 t).1 in
  GetConnectionState t' = TransportShuttingDown
  ∧ IsHealthy t' = false
  ∧ ∀ now tid to md, (move now tid to md t').2 ≠ None.
Proof.
  apply (@shutdown_is_final plain_text (tsm_Close (TT := plain_text) 1 "a" demo_tsm)).
  - eapply (@tsm_step_inv plain_text demo_tsm); [|apply tsm_close].
    by apply (New_tsm_inv 0 "ep" false).
  - vm_compute. reflexivity.
  - apply rtc_once, tsm_connecting.
Defined.

Lemma connect_guards_witness :
  let t := (TransitionToConnecting (TT := plain_text) 2 "b" 5 demo_tsm).1 in
  (∀ now tid timeout, (TransitionToConnecting (TT := plain_text) now tid timeout t).2 = None
     ↔ CanConnect (GetConnectionState t) = true)
  ∧ (∀ now tid r a n, (TransitionToReconnecting (TT := plain_text) now tid r a n t).2 = None
     ↔ GetConnectionState t = TransportConnected)
  ∧ (GetConnectionState t = TransportFailed →
     CanReconnect (GetConnectionState t) = true
     ∧ ∀ now tid r a n, (TransitionToReconnecting (TT := plain_text) now tid r a n t).2
         = Some (invalid_transition TransportFailed TransportReconnecting)).
Proof.
  apply (@connect_guards plain_text demo_tsm _ 0 "ep" false); [reflexivity|].
  apply rtc_once, tsm_connecting.
Defined.
