(* ===== verification/TransportWrapper.v ===== *)
(** * The stateful transport wrapper
    (src/synckit/statemachine/transport_manager.go, StatefulTransportWrapper)

    A transport beside a [TransportState.TransportStateManager].  The wrapper has
    no method that connects, pushes or pulls and its fields are private: its
    state moves by [Close] and by the notifications of the manager's machine. *)
From S2P Require Import Prelude Types Json Errors StateMachine TransportState.
From stdpp Require Import options.

(** The basic transport of the package, over its own state [T]. *)
Class BasicTransport (T : Type) := {
  Push : list any → T → T * option error;
  Pull : any → T → T * result error (list any);
  GetLatestVersion : T → T * result error any;
  Subscribe : (list any → option error) → T → T * option error;
  Close : T → T * option error
}.

Record TransportStateManagerConfig := mkConfig { Endpoint : string; Observability : bool }.

Record StatefulTransportWrapper (T : Type) := mkWrapper {
  transport : T;
  stateManager : TransportStateManager
}.
Arguments mkWrapper {T}.
Arguments transport {T}.
Arguments stateManager {T}.

Section wrapper.
Context {T : Type} {BT : BasicTransport T} {TT : TimeText}.

Definition NewStatefulTransportWrapper (now : Z) (t : T) (config : TransportStateManagerConfig)
    : result error (StatefulTransportWrapper T) :=
  match NewTransportStateManager now (Endpoint config) (Observability config) with
  | Err err => Err (ErrWrap "failed to create transport state manager" err)
  | Ok m => Ok (mkWrapper t m)
  end.

(** The methods that pass to the state manager. *)
Definition stw_GetConnectionState (w : StatefulTransportWrapper T) : TransportState :=
  GetConnectionState (stateManager w).
Definition stw_SubscribeToStateChanges (handler : option nat) (w : StatefulTransportWrapper T)
    : StatefulTransportWrapper T * option error :=
  let '(m, err) := SubscribeToStateChanges handler (stateManager w) in (mkWrapper (transport w) m, err).
Definition stw_IsHealthy (w : StatefulTransportWrapper T) : bool := IsHealthy (stateManager w).
Definition stw_GetLastError (w : StatefulTransportWrapper T) : option error := GetLastError (stateManager w).
Definition stw_GetConnectionMetadata (now : Z) (w : StatefulTransportWrapper T) : gmap string any :=
  GetConnectionMetadata now (stateManager w).

Definition stw_Close (now : Z) (tid : string) (w : StatefulTransportWrapper T)
    : StatefulTransportWrapper T * option error :=
  let '(t, close_err) := Close (transport w) in
  let '(m, err) := Wrapper_Close now tid close_err (stateManager w) in
  (mkWrapper t m, err).

(** What moves a wrapper; [closes] counts the calls of [Close]. *)
Inductive stw_step : StatefulTransportWrapper T * nat → StatefulTransportWrapper T * nat → Prop :=
  | stw_subscribe h w n : stw_step (w, n) ((stw_SubscribeToStateChanges h w).1, n)
  | stw_close now tid w n : stw_step (w, n) ((stw_Close now tid w).1, S n)
  | stw_notification i w n : stw_step (w, n) (mkWrapper (transport w) (run_notification i (stateManager w)), n).

(** ** The invariant *)
Definition state_after (n : nat) : TransportState := if Nat.eqb n 0 then TransportDisconnected else TransportShuttingDown.
Record stw_inv (t0 : T) (p : StatefulTransportWrapper T * nat) : Prop := {
  si_manager : tsm_inv (stateManager p.1);
  si_state : stw_GetConnectionState p.1 = state_after p.2;
  si_error : stw_GetLastError p.1 = None;
  si_attempts : totalAttempts (stateManager p.1) = 0;
  si_pending : Forall (λ tr, To tr = TransportShuttingDown) (pending (stateManager p.1));
  si_transport : transport p.1 = Nat.iter p.2 (λ t, (Close t).1) t0
}.

Lemma stw_new_inv now t0 c w : NewStatefulTransportWrapper now t0 c = Ok w → stw_inv t0 (w, 0%nat).
Proof.
  unfold NewStatefulTransportWrapper. destruct (NewTransportStateManager _ _ _) as [m|e] eqn:Hm; [|done].
  intros [= <-]. pose proof (New_tsm_inv _ _ _ _ Hm) as Hinv. unfold NewTransportStateManager in Hm. cbn in Hm.
  destruct (Observability c); injection Hm as <-; by split.
Qed.

Lemma stw_closed now tid w n t0 : stw_inv t0 (w, n) → stw_inv t0 ((stw_Close now tid w).1, S n).
Proof.
  intros [Hi Hs Hl Ha Hp Ht]. cbn [fst snd] in *. unfold stw_Close. destruct (Close (transport w)) as [t e] eqn:Hc.
  unfold Wrapper_Close. cbn [fst snd]. unfold tsm_Close. unfold stw_GetConnectionState in Hs.
  case_bool_decide as Hd.
  - split; cbn [fst snd transport stateManager]; try done.
    + eapply inv_same_machine; [|exact Hi]. done.
    + by rewrite Nat.iter_succ, <- Ht, Hc.
  - destruct n as [|n]; [|by rewrite Hs in Hd].
    destruct (move_cases now tid TransportShuttingDown (ShuttingDownMetadata now "manager_close") _ Hi)
      as (Hi' & Hl' & Ha' & Hcase).
    unfold TransitionToShuttingDown. destruct Hcase as [(_ & _ & Hst & Hpend)|(_ & Hn & _)].
    + split; cbn [fst snd transport stateManager].
      * eapply inv_same_machine; [|exact Hi']. done.
      * exact Hst.
      * by unfold stw_GetLastError, GetLastError in *; cbn; rewrite Hl'.
      * cbn. by rewrite Ha'.
      * cbn. rewrite Hpend. apply Forall_app. split; [done|]. by apply Forall_singleton.
      * by rewrite Nat.iter_succ, <- Ht, Hc.
    + rewrite Hs in Hn. by destruct Hn.
Qed.

Lemma stw_step_inv t0 p q : stw_inv t0 p → stw_step p q → stw_inv t0 q.
Proof.
  intros Hinv Hst. destruct Hst as [h w n|now tid w n|i w n]; [|by apply stw_closed|].
  - destruct Hinv as [Hi Hs Hl Ha Hp Ht]. unfold stw_SubscribeToStateChanges, SubscribeToStateChanges.
    destruct h; split; try done. eapply inv_same_machine; [|exact Hi]. done.
  - destruct Hinv as [Hi Hs Hl Ha Hp Ht]. cbn [fst snd] in *. unfold run_notification.
    destruct (pending (stateManager w) !! i) as [tr|] eqn:Htr; [|by split].
    assert (To tr = TransportShuttingDown) as Hto.
    { rewrite Forall_forall in Hp. apply Hp. by eapply list_elem_of_lookup_2. }
    unfold OnTransition. rewrite Hto. split; cbn [fst snd transport stateManager]; try done.
    + eapply inv_same_machine; [|exact Hi]. done.
    + cbn. rewrite Forall_forall in *. intros x Hx. apply Hp.
      rewrite delete_take_drop in Hx. apply elem_of_app in Hx as [Hx|Hx];
        [by eapply subseteq_take|by eapply subseteq_drop].
Qed.
Lemma stw_run_inv t0 p q : stw_inv t0 p → rtc stw_step p q → stw_inv t0 q.
Proof. intros Hinv Hr. induction Hr as [|p q r Hs _ IH]; [done|]. by eapply IH, stw_step_inv. Qed.

(** Remark: A wrapper never becomes healthy: whatever is called on it, its state is
    Disconnected until the first [Close] and ShuttingDown from then on, it has
    no last error and no attempt, and the wrapped transport has seen one [Close]
    per call and nothing else; [Close] fails exactly when that of the transport
    does. *)
Theorem wrapper_never_connects now t0 c w0 w n :
  NewStatefulTransportWrapper now t0 c = Ok w0 → rtc stw_step (w0, 0%nat) (w, n) →
  stw_IsHealthy w = false
  ∧ stw_GetConnectionState w = state_after n
  ∧ stw_GetLastError w = None ∧ totalAttempts (stateManager w) = 0
  ∧ transport w = Nat.iter n (λ t, (Close t).1) t0
  ∧ ∀ now tid, (stw_Close now tid w).2 = None ↔ (Close (transport w)).2 = None.
Proof.
  intros Hnew Hrun. apply stw_new_inv in Hnew.
  destruct (stw_run_inv _ _ _ Hnew Hrun) as [Hi Hs Hl Ha Hp Ht]. cbn [fst snd] in *.
  split_and!; [|done..|].
  - unfold stw_IsHealthy, IsHealthy. unfold stw_GetConnectionState in Hs. rewrite Hs. by destruct n.
  - intros now' tid. unfold stw_Close. destruct (Close (transport w)) as [t [e|]]; cbn; naive_solver.
Qed.
End wrapper.

(** A transport that counts its calls. *)
#[local] Instance counting : BasicTransport nat := {|
  Push := λ _ n, (S n, None);
  Pull := λ _ n, (S n, Ok []);
  GetLatestVersion := λ n, (S n, Ok (AnyInt 0));
  Subscribe := λ _ n, (S n, None);
  Close := λ n, (S n, None)
|}.

Lemma wrapper_never_connects_witness : ∃ w0 w,
  NewStatefulTransportWrapper 0 0%nat (mkConfig "ep" false) = Ok w0 ∧
  stw_IsHealthy w = false
  ∧ stw_GetConnectionState w = state_after 1
  ∧ stw_GetLastError w = None ∧ totalAttempts (stateManager w) = 0
  ∧ transport w = Nat.iter 1 (λ t, (Close t).1) 0%nat
  ∧ ∀ now tid, (stw_Close (TT := plain_text) now tid w).2 = None ↔ (Close (transport w)).2 = None.
Proof.
  eexists _, _. split; [reflexivity|].
  eapply (@wrapper_never_connects nat counting plain_text 0 0%nat (mkConfig "ep" false)); [reflexivity|].
  eapply rtc_l; [apply (stw_subscribe (Some 7%nat))|].
  eapply rtc_l; [apply (stw_close 1 "a")|].
  apply rtc_once, (stw_notification 0).
Defined.
