(* ===== verification/Resolvers.v ===== *)
(** * Conflict resolution (src/synckit: resolvers.go, spec.go, resolver.go)

    The built-in strategies, the matcher combinators, and the dynamic resolver
    that dispatches to the first matching rule. *)
From S2P Require Import Prelude Types Json Errors VectorClock Versions.
From stdpp Require Import options.

(** A [ConflictResolver] returns a resolution and an error, like the Go method;
    a nil interface is [None]. *)
Abbreviation Resolver := (CtxView → Conflict → outcome (ResolvedConflict * option error)).
(** A matcher, and a possibly nil one. *)
Abbreviation Spec := (Conflict → outcome bool).

(** ** Strategies *)
Section strategies.
Context {MR : MapRange}.

Definition keep_local (c : Conflict) (why : string) : ResolvedConflict * option error :=
  (mkResolved [c_Local c] "keep_local" [why], None).
Definition keep_remote (c : Conflict) (why : string) : ResolvedConflict * option error :=
  (mkResolved [c_Remote c] "keep_remote" [why], None).

Definition LastWriteWins : Resolver := λ ctx c,
  match ev_version (c_Local c), ev_version (c_Remote c) with
  | None, None => Done (mkResolved [] "noop" ["no versions"], None)
  | None, Some _ => Done (keep_remote c "local missing")
  | Some _, None => Done (keep_local c "remote missing")
  | Some l, Some r =>
      let* cmp := version_Compare l (Some r) in
      Done (if cmp =? -1 then keep_remote c "remote newer"
            else if cmp =? 1 then keep_local c "local newer"
            else keep_remote c "equal versions, prefer remote")
  end.

Definition FirstWriteWins : Resolver := λ ctx c,
  match ev_version (c_Local c), ev_version (c_Remote c) with
  | None, None => Done (mkResolved [] "noop" ["no versions"], None)
  | None, Some _ => Done (keep_remote c "local missing")
  | Some _, None => Done (keep_local c "remote missing")
  | Some l, Some r =>
      let* cmp := version_Compare l (Some r) in
      Done (if cmp =? -1 then keep_local c "local is first"
            else if cmp =? 1 then keep_remote c "remote is first"
            else keep_local c "equal versions, prefer local")
  end.
End strategies.

Definition AdditiveMerge : Resolver := λ ctx c,
  Done (mkResolved
          ((if decide (c_Local c = zero_ewv) then [] else [c_Local c])
           ++ (if decide (c_Remote c = zero_ewv) then [] else [c_Remote c]))
          "merge" ["additive merge"], None).

Definition ManualReview (Reason : string) : Resolver := λ ctx c,
  Done (mkResolved [] "manual_review"
          ("manual review required" :: (if bool_decide (Reason = "") then [] else [Reason])), None).

(** ** Matchers *)

Definition call (a : option Spec) (dflt : bool) (c : Conflict) : outcome bool :=
  match a with Some f => f c | None => Done dflt end.

Definition And (a b : option Spec) : Spec := λ c,
  match a, b with
  | Some a, Some b => let* x := a c in if x : bool then b c else Done false
  | _, _ => Done false
  end.
Definition Or (a b : option Spec) : Spec := λ c,
  let* x := call a false c in if x : bool then Done true else call b false c.
Definition Not (a : option Spec) : Spec := λ c,
  match a with None => Done true | Some a => let* x := a c in Done (negb x) end.
Definition EventTypeIs (t : string) : Spec := λ c, Done (bool_decide (c_EventType c = t)).
Definition AnyFieldIn (fields : list string) : Spec := λ c,
  let set : gmap string unit := fold_left (λ m f, <[f := tt]> m) fields ∅ in
  Done (existsb (λ f, bool_decide (is_Some (set !! f))) (c_ChangedFields c)).

Definition anyEqual (a b : any) : outcome bool :=
  match a with
  | AnyString av => Done (match b with AnyString bv => bool_decide (av = bv) | _ => false end)
  | AnyInt av => Done (match b with AnyInt bv => av =? bv | _ => false end)
  | AnyInt64 av => Done (match b with AnyInt64 bv => av =? bv | _ => false end)
  | AnyUint64 av => Done (match b with AnyUint64 bv => av =? bv | _ => false end)
  | AnyBool av => Done (match b with AnyBool bv => Bool.eqb av bv | _ => false end)
  | _ => any_eqop a b
  end.
Definition MetadataEq (key : string) (value : any) : Spec := λ c,
  match c_Metadata c with
  | None => Done false
  | Some m => match m !! key with None => Done false | Some v => anyEqual v value end
  end.
Definition FieldChanged (field : string) : Spec := λ c,
  Done (existsb (λ f, bool_decide (f = field)) (c_ChangedFields c)).
Definition AggregateIDMatches (pattern : string) : Spec := λ c,
  Done (bool_decide (c_AggregateID c = pattern)).
Definition AlwaysMatch : Spec := λ c, Done true.
Fixpoint AndMatcher (specs : list (option Spec)) (c : Conflict) : outcome bool :=
  match specs with
  | [] => Done true
  | None :: _ => Done false
  | Some s :: rest => let* x := s c in if x : bool then AndMatcher rest c else Done false
  end.

(** ** The dynamic resolver *)

Record Rule := mkRule {
  rule_Name : string; Matcher : option Spec; rule_Resolver : option Resolver
}.
(** Which hooks are set. *)
Record Hooks := mkHooks {
  OnRuleMatched : bool; OnResolved : bool; OnFallback : bool; OnError : bool
}.
Definition no_hooks : Hooks := mkHooks false false false false.
Inductive HookCall :=
  | RuleMatched (c : Conflict) (rule : string)
  | Resolved (c : Conflict) (r : ResolvedConflict)
  | Fallback (c : Conflict)
  | Errored (c : Conflict) (e : error).

Record resolverOptions := mkOptions {
  rules : list Rule; fallback : option Resolver; hooks : Hooks
}.
Inductive Option_ :=
  | WithFallback (r : option Resolver)
  | WithRule (name : string) (matcher : option Spec) (resolver : option Resolver)
  | WithHooks (h : Hooks)
  | WithLogger
  | WithValidator (v : option (resolverOptions → option error)).
Definition WithEventTypeRule (name eventType : string) (r : option Resolver) : Option_ :=
  WithRule name (Some (EventTypeIs eventType)) r.

Definition apply_option (s : resolverOptions * option (resolverOptions → option error)) (o : Option_)
    : resolverOptions * option (resolverOptions → option error) :=
  let '(cfg, v) := s in
  match o with
  | WithFallback r => (mkOptions (rules cfg) r (hooks cfg), v)
  | WithRule n m r => (mkOptions (rules cfg ++ [mkRule n m r]) (fallback cfg) (hooks cfg), v)
  | WithHooks h => (mkOptions (rules cfg) (fallback cfg) h, v)
  | WithLogger => (cfg, v)
  | WithValidator v' => (cfg, v')
  end.
Definition configured (opts : list Option_)
    : resolverOptions * option (resolverOptions → option error) :=
  fold_left apply_option opts (mkOptions [] None no_hooks, None).

(** [itoa]: the digits are written from the end of a buffer. *)
Fixpoint itoa_loop (fuel : nat) (i : Z) (acc : string) : string :=
  match fuel with
  | O => acc
  | S fuel => if 0 <? i then itoa_loop fuel (Z.quot i 10) (String (digit (Z.rem i 10)) acc) else acc
  end.
Definition itoa (i : Z) : string :=
  if i =? 0 then "0"
  else
    let neg := i <? 0 in
    let i := if neg then i64 (- i) else i in
    let s := itoa_loop 20 i "" in
    if neg then "-" +:+ s else s.

Fixpoint check_rules (i : Z) (rs : list Rule) : option error :=
  match rs with
  | [] => None
  | r :: rest =>
      match Matcher r, rule_Resolver r with
      | None, _ => Some (ErrMsg ("rule has nil matcher at index " +:+ itoa i))
      | _, None => Some (ErrMsg ("rule has nil resolver at index " +:+ itoa i))
      | _, _ => check_rules (i + 1) rest
      end
  end.

Definition NewDynamicResolver (opts : list Option_) : result error resolverOptions :=
  let '(cfg, v) := configured opts in
  if match rules cfg, fallback cfg with [], None => true | _, _ => false end
  then Err (ErrMsg "dynamic resolver requires at least one rule or a non-nil fallback")
  else
    match check_rules 0 (rules cfg) with
    | Some e => Err e
    | None =>
        match v with
        | Some v => match v cfg with Some e => Err e | None => Ok cfg end
        | None => Ok cfg
        end
    end.

Definition hook (on : bool) (h : HookCall) : list HookCall := if on then [h] else [].
Definition err_no_rule : error := ErrMsg "no rule matched and no fallback configured".

(** The common end of both branches: error or result hooks. *)
Definition finish (d : resolverOptions) (c : Conflict) (log : list HookCall)
    (r : ResolvedConflict * option error) : (ResolvedConflict * option error) * list HookCall :=
  match r with
  | (_, Some err) => ((no_resolution, Some err), log ++ hook (OnError (hooks d)) (Errored c err))
  | (res, None) => ((res, None), log ++ hook (OnResolved (hooks d)) (Resolved c res))
  end.

Fixpoint try_rules (d : resolverOptions) (ctx : CtxView) (c : Conflict) (rs : list Rule)
    : outcome (option ((ResolvedConflict * option error) * list HookCall)) :=
  match rs with
  | [] => Done None
  | r :: rest =>
      let* matched := call (Matcher r) false c in
      if matched : bool then
        let* resolver := deref (rule_Resolver r) in
        let* res := resolver ctx c in
        Done (Some (finish d c (hook (OnRuleMatched (hooks d)) (RuleMatched c (rule_Name r))) res))
      else try_rules d ctx c rest
  end.

(** The result with the hook calls made, in order. *)
Definition Resolve (d : resolverOptions) (ctx : CtxView) (c : Conflict)
    : outcome ((ResolvedConflict * option error) * list HookCall) :=
  let* hit := try_rules d ctx c (rules d) in
  match hit with
  | Some r => Done r
  | None =>
      match fallback d with
      | None => Done ((no_resolution, Some err_no_rule), hook (OnError (hooks d)) (Errored c err_no_rule))
      | Some f =>
          let* res := f ctx c in
          Done (finish d c (hook (OnFallback (hooks d)) (Fallback c)) res)
      end
  end.
Definition DynamicResolver (d : resolverOptions) : Resolver := λ ctx c,
  let* (r, _) := Resolve d ctx c in Done r.

(** ** Properties *)

Lemma itoa_loop_format fuel n acc :
  0 < n < 10 ^ Z.of_nat fuel → itoa_loop fuel n acc = format_go fuel n acc.
Proof.
  revert n acc; induction fuel as [|fuel IH]; intros n acc Hn; [lia|].
  cbn [itoa_loop format_go].
  replace (0 <? n) with true by (symmetry; apply Z.ltb_lt; lia).
  rewrite Z.quot_div_nonneg, Z.rem_mod_nonneg by lia.
  destruct (Z.ltb_spec n 10) as [Hlt|Hge].
  - rewrite Z.div_small by lia. by destruct fuel.
  - apply IH. rewrite Nat2Z.inj_succ, Z.pow_succ_r in Hn by lia.
    split; [apply Z.div_str_pos; lia|apply Z.div_lt_upper_bound; lia].
Qed.

(** Remark: the hand-written [itoa] prints every non-negative 64-bit integer in
    decimal, as the standard library would; on the least integer the negation
    overflows and only the sign is printed. *)
Theorem itoa_correct (i : Z) (Hi : 0 ≤ i < 2 ^ 63) :
  itoa i = format_uint i
  ∧ (0 < i → itoa (- i) = "-" +:+ format_uint i)
  ∧ itoa (- 2 ^ 63) = "-".
Proof.
  assert (0 < i → itoa_loop 20 i "" = format_uint i) as Hloop.
  { intros Hpos. apply itoa_loop_format. lia. }
  unfold itoa. split_and!; [| |by vm_compute].
  - destruct (Z.eqb_spec i 0) as [->|Hne]; [by vm_compute|].
    replace (i <? 0) with false by (symmetry; apply Z.ltb_ge; lia). cbn. apply Hloop. lia.
  - intros Hpos. destruct (Z.eqb_spec (- i) 0); [lia|].
    replace (- i <? 0) with true by (symmetry; apply Z.ltb_lt; lia).
    rewrite Z.opp_involutive, i64_small by lia. by rewrite Hloop.
Qed.
Lemma itoa_correct_witness :
  itoa 1234567890123456789 = format_uint 1234567890123456789
  ∧ (0 < 1234567890123456789 → itoa (- 1234567890123456789) = "-" +:+ format_uint 1234567890123456789)
  ∧ itoa (- 2 ^ 63) = "-".
Proof. apply (itoa_correct 1234567890123456789). split; [discriminate|reflexivity]. Defined.

(** A conflict between two events carrying vector clocks, and the same conflict
    as the other replica sees it. *)
Definition clocked (l r : Event) (a b : VectorClock) : Conflict :=
  mkConflict "" "" [] None
    (mkEWV (Some l) (Some (VectorClockV (Some a)))) (mkEWV (Some r) (Some (VectorClockV (Some b)))).
Definition mirrored (c : Conflict) : Conflict :=
  mkConflict (c_EventType c) (c_AggregateID c) (c_ChangedFields c) (c_Metadata c)
    (c_Remote c) (c_Local c).
Definition kept (m : outcome (ResolvedConflict * option error)) : option (list EventWithVersion) :=
  match m with Done (r, None) => Some (ResolvedEvents r) | _ => None end.

Section clock_conflicts.
Context {MR : MapRange}.
Implicit Types a b : VectorClock.

Lemma clock_order a b :
  let lt x y := vc_lt (map_of (clocks x)) (map_of (clocks y)) in
  (Compare (Some a) (Some (VectorClockV (Some b))) = Done (-1) ∧ lt a b)
  ∨ (Compare (Some a) (Some (VectorClockV (Some b))) = Done 1 ∧ lt b a)
  ∨ (Compare (Some a) (Some (VectorClockV (Some b))) = Done 0 ∧ ¬ lt a b ∧ ¬ lt b a).
Proof.
  pose proof (compare_clocks_lt (map_of (clocks a)) (map_of (clocks b))) as L.
  pose proof (compare_clocks_gt (map_of (clocks a)) (map_of (clocks b))) as G.
  pose proof (compare_clocks_range (map_of (clocks a)) (map_of (clocks b))) as R.
  cbn [Compare deref obind]. set (z := compare_clocks _ _) in *. cbn zeta.
  assert (z = -1 ∨ z = 0 ∨ z = 1) as [Hz|[Hz|Hz]] by (set_unfold; tauto); rewrite Hz in *.
  - left. split; [done|]. by apply L.
  - right; right. split; [done|]. split; [rewrite <-L|rewrite <-G]; lia.
  - right; left. split; [done|]. by apply G.
Qed.
Lemma vc_lt_asym (a b : gmap string Z) : vc_lt a b → ¬ vc_lt b a.
Proof. intros [_ [k Hk]] [Hle _]. specialize (Hle k). lia. Qed.

(** Both strategies on clocks, by the causal order. *)
Lemma strategies_on_clocks ctx (l r : Event) a b :
  let c := clocked l r a b in
  let lt x y := vc_lt (map_of (clocks x)) (map_of (clocks y)) in
  (lt a b → kept (LastWriteWins ctx c) = Some [c_Remote c]
            ∧ kept (FirstWriteWins ctx c) = Some [c_Local c])
  ∧ (lt b a → kept (LastWriteWins ctx c) = Some [c_Local c]
              ∧ kept (FirstWriteWins ctx c) = Some [c_Remote c])
  ∧ (¬ lt a b → ¬ lt b a → kept (LastWriteWins ctx c) = Some [c_Remote c]
              ∧ kept (FirstWriteWins ctx c) = Some [c_Local c]).
Proof.
  cbn zeta. unfold LastWriteWins, FirstWriteWins, clocked. cbn [c_Local c_Remote ev_version].
  unfold version_Compare.
  destruct (clock_order a b) as [[-> Hlt]|[[-> Hlt]|(-> & H1 & H2)]]; cbn [obind];
    try pose proof (vc_lt_asym _ _ Hlt); split_and!; intros; done.
Qed.
End clock_conflicts.

(** Remark: on vector clocks last-write-wins keeps the causally later event and
    first-write-wins the earlier one, and the two replicas of a conflict agree;
    on concurrent clocks each replica of a last-write-wins conflict keeps the
    other one's event, so they do not converge. *)
Theorem write_wins_agreement {MR : MapRange} (ctx : CtxView) (l r : Event) (a b : VectorClock) :
  let c := clocked l r a b in
  let lt x y := vc_lt (map_of (clocks x)) (map_of (clocks y)) in
  (lt a b → kept (LastWriteWins ctx c) = Some [c_Remote c]
            ∧ kept (LastWriteWins ctx (mirrored c)) = Some [c_Remote c]
            ∧ kept (FirstWriteWins ctx c) = Some [c_Local c]
            ∧ kept (FirstWriteWins ctx (mirrored c)) = Some [c_Local c])
  ∧ (¬ lt a b → ¬ lt b a →
       kept (LastWriteWins ctx c) = Some [c_Remote c]
       ∧ kept (LastWriteWins ctx (mirrored c)) = Some [c_Local c]
       ∧ kept (FirstWriteWins ctx c) = Some [c_Local c]
       ∧ kept (FirstWriteWins ctx (mirrored c)) = Some [c_Remote c]).
Proof.
  cbn zeta.
  destruct (strategies_on_clocks ctx l r a b) as (H1 & H2 & H3).
  destruct (strategies_on_clocks ctx r l b a) as (M1 & M2 & M3).
  change (mirrored (clocked l r a b)) with (clocked r l b a).
  split; [intros Hlt|intros Hn1 Hn2].
  - destruct (H1 Hlt), (M2 Hlt). by split_and!.
  - destruct (H3 Hn1 Hn2), (M3 Hn2 Hn1). by split_and!.
Qed.

(** A matcher that answers, and a rule list whose rules are complete. *)
Definition answers (m : Spec) : Prop := ∀ c, ∃ b, m c = Done b.
Definition fires (c : Conflict) (r : Rule) : Prop := call (Matcher r) false c = Done true.
#[global] Instance outcome_eq_dec {A} `{EqDecision A} : EqDecision (outcome A).
Proof. solve_decision. Defined.
#[global] Instance fires_dec c r : Decision (fires c r).
Proof. unfold fires. apply _. Defined.

Lemma try_rules_first d ctx c rs :
  (∀ r m, r ∈ rs → Matcher r = Some m → answers m) →
  try_rules d ctx c rs =
    match list_find (fires c) rs with
    | None => Done None
    | Some (_, r) =>
        let* resolver := deref (rule_Resolver r) in
        let* res := resolver ctx c in
        Done (Some (finish d c (hook (OnRuleMatched (hooks d)) (RuleMatched c (rule_Name r))) res))
    end.
Proof.
  induction rs as [|r rs IH]; intros Hans; [done|]. cbn [try_rules list_find].
  assert (∃ b, call (Matcher r) false c = Done b) as [b Hb].
  { destruct (Matcher r) as [m|] eqn:Hm; [|by exists false]. by eapply Hans; [left|]. }
  rewrite Hb. cbn [obind]. destruct b.
  - by rewrite decide_True by done.
  - rewrite decide_False by (unfold fires; by rewrite Hb). rewrite IH by (intros; eapply Hans; [by right|done]).
    destruct (list_find (fires c) rs) as [[i x]|]; done.
Qed.

(** What handing the conflict to one resolver amounts to, after the hook calls
    [before]: its result with the result hook, its error with the error hook and
    an empty resolution, or its panic. *)
Definition delegates (d : resolverOptions) (ctx : CtxView) (c : Conflict) (before : list HookCall)
    (f : option Resolver) (answer : outcome ((ResolvedConflict * option error) * list HookCall)) : Prop :=
  match f with
  | None => ∃ why, answer = Panic why
  | Some f =>
      match f ctx c with
      | Done (res, None) =>
          answer = Done ((res, None),
                         before ++ if OnResolved (hooks d) then [Resolved c res] else [])
      | Done (_, Some err) =>
          answer = Done ((mkResolved [] "" [], Some err),
                         before ++ if OnError (hooks d) then [Errored c err] else [])
      | Panic why => answer = Panic why
      end
  end.

Lemma finish_delegates d ctx c before f :
  delegates d ctx c before (Some f) (let* res := f ctx c in Done (finish d c before res)).
Proof. unfold delegates. by destruct (f ctx c) as [[res [err|]]|why]. Qed.

(** C13: the dynamic resolver answers with the resolver of the first rule that
    matches, calling the matching hook before it and, after it, the result hook
    with its resolution or the error hook with its error (the answer is then that
    error and the empty resolution); a panic of the resolver passes through. Only
    when no rule matches does the fallback decide, in the same way after the
    fallback hook; without one the answer is the no-rule error and the error hook
    is called with it. No other hook is called. *)
Theorem DynamicResolver_first_match (d : resolverOptions) (ctx : CtxView) (c : Conflict)
    (Hans : ∀ r m, r ∈ rules d → Matcher r = Some m → answers m) :
  match list_find (fires c) (rules d) with
  | Some (i, r) =>
      rules d !! i = Some r ∧ fires c r
      ∧ (∀ j r', rules d !! j = Some r' → fires c r' → (i ≤ j)%nat)
      ∧ delegates d ctx c (if OnRuleMatched (hooks d) then [RuleMatched c (rule_Name r)] else [])
          (rule_Resolver r) (Resolve d ctx c)
  | None =>
      (∀ r, r ∈ rules d → ¬ fires c r)
      ∧ match fallback d with
        | None =>
            let e := ErrMsg "no rule matched and no fallback configured" in
            Resolve d ctx c = Done ((mkResolved [] "" [], Some e),
                                    if OnError (hooks d) then [Errored c e] else [])
        | Some f =>
            delegates d ctx c (if OnFallback (hooks d) then [Fallback c] else [])
              (Some f) (Resolve d ctx c)
        end
  end.
Proof.
  unfold Resolve. rewrite try_rules_first by done.
  destruct (list_find (fires c) (rules d)) as [[i r]|] eqn:Hfind.
  - apply list_find_Some in Hfind as (Hi & Hf & Hmin). split_and!; [done|done| |].
    + intros j r' Hj Hfj. destruct (decide (i ≤ j)%nat) as [|Hlt]; [done|].
      exfalso. apply (Hmin j r'); [done|lia|done].
    + destruct (rule_Resolver r) as [f|]; [|by eexists].
      pose proof (finish_delegates d ctx c (hook (OnRuleMatched (hooks d)) (RuleMatched c (rule_Name r))) f)
        as Hd. unfold delegates in *. cbn [deref obind]. by destruct (f ctx c) as [[res [err|]]|why].
  - apply list_find_None in Hfind. rewrite Forall_forall in Hfind. split; [done|].
    cbn [obind]. destruct (fallback d) as [f|]; [|done]. apply finish_delegates.
Qed.

(** Remark: a dynamic resolver is built exactly when it has a rule or a fallback,
    every rule has a matcher and a resolver, and the validator accepts; it then
    holds the rules in the order of the options, so a resolution never meets a
    missing resolver. *)
Theorem NewDynamicResolver_validates (opts : list Option_) :
  let '(cfg, v) := configured opts in
  match NewDynamicResolver opts with
  | Ok d => d = cfg ∧ (rules d ≠ [] ∨ is_Some (fallback d))
            ∧ (∀ r, r ∈ rules d → is_Some (Matcher r) ∧ is_Some (rule_Resolver r))
            ∧ rules d = omap (λ o, match o with WithRule n m r => Some (mkRule n m r) | _ => None end) opts
  | Err _ => (rules cfg = [] ∧ fallback cfg = None)
             ∨ (∃ r, r ∈ rules cfg ∧ (Matcher r = None ∨ rule_Resolver r = None))
             ∨ ∃ v' e, v = Some v' ∧ v' cfg = Some e
  end.
Proof.
  unfold NewDynamicResolver. destruct (configured opts) as [cfg v] eqn:Hcfg.
  assert (rules cfg = omap (λ o, match o with WithRule n m r => Some (mkRule n m r) | _ => None end) opts)
    as Hrules.
  { replace (rules cfg) with (rules (configured opts).1) by (by rewrite Hcfg). clear Hcfg.
    unfold configured. induction opts as [|o opts IH] using rev_ind; [done|].
    rewrite fold_left_app, omap_app. cbn [fold_left]. rewrite <-IH.
    destruct (fold_left apply_option opts _) as [s sv].
    destruct o; cbn; by rewrite ?app_nil_r. }
  assert (∀ i rs, match check_rules i rs with
    | None => ∀ r, r ∈ rs → is_Some (Matcher r) ∧ is_Some (rule_Resolver r)
    | Some _ => ∃ r, r ∈ rs ∧ (Matcher r = None ∨ rule_Resolver r = None)
    end) as Hcheck.
  { intros i rs; revert i; induction rs as [|r rs IH]; intros i; cbn; [by intros ? []%not_elem_of_nil|].
    destruct (Matcher r) as [m|] eqn:Hm; [|exists r; set_solver].
    destruct (rule_Resolver r) as [f|] eqn:Hf; [|exists r; set_solver].
    specialize (IH (i + 1)). destruct (check_rules (i + 1) rs).
    - destruct IH as (r' & ? & ?). exists r'. set_solver.
    - intros r' [->|Hr']%elem_of_cons; [rewrite Hm, Hf; by split; eexists|by apply IH]. }
  specialize (Hcheck 0 (rules cfg)).
  assert (∀ b, (match rules cfg, fallback cfg with [], None => true | _, _ => false end) = b →
    if b : bool then rules cfg = [] ∧ fallback cfg = None else rules cfg ≠ [] ∨ is_Some (fallback cfg)) as Hempty.
  { intros b <-. destruct (rules cfg), (fallback cfg); by eauto. }
  destruct (match rules cfg, fallback cfg with [], None => true | _, _ => false end);
    specialize (Hempty _ eq_refl); cbn in Hempty; [by left|].
  destruct (check_rules 0 (rules cfg)) as [e|]; [by right; left|].
  destruct v as [v|]; [|done]. destruct (v cfg) as [e|] eqn:Hv; [|done].
  right; right. by exists v, e.
Qed.

(** Remark: matchers compose as Boolean connectives: a nil matcher never matches a
    conjunction, is skipped by a disjunction and is true negated; [AndMatcher]
    is the iterated [And], and negation obeys De Morgan's law. *)
Theorem spec_algebra (a b : option Spec) (specs : list Spec) (c : Conflict)
    (Ha : ∀ m, a = Some m → answers m) (Hb : ∀ m, b = Some m → answers m) :
  (And a b c = Done true ↔ call a false c = Done true ∧ call b false c = Done true)
  ∧ (Or a b c = Done true ↔ call a false c = Done true ∨ call b false c = Done true)
  ∧ (Not a c = Done true ↔ call a false c ≠ Done true)
  ∧ Not (Some (And a b)) c = Or (Some (Not a)) (Some (Not b)) c
  ∧ AndMatcher (Some <$> specs) c = foldr (λ m acc, And (Some m) (Some acc)) AlwaysMatch specs c.
Proof.
  assert (AndMatcher (Some <$> specs) c
    = foldr (λ m acc, And (Some m) (Some acc)) AlwaysMatch specs c) as Hm.
  { induction specs as [|m specs IH]; [done|]. rewrite fmap_cons. cbn [AndMatcher foldr And].
    destruct (m c) as [[]|]; cbn; done. }
  unfold And, Or, Not.
  destruct a as [a|]; [destruct (Ha a eq_refl c) as [[] Hx]|];
    (destruct b as [b|]; [destruct (Hb b eq_refl c) as [[] Hy]|]); cbn;
    rewrite ?Hx; cbn; rewrite ?Hy; cbn; (split_and!; [naive_solver..|exact Hm]).
Qed.

(** ** Concrete instances *)
Definition demo_conflict : Conflict :=
  mkConflict "OrderUpdated" "order-1" ["status"] None
    (mkEWV None (Some (IntegerCursor 3))) (mkEWV None (Some (IntegerCursor 5))).
Definition demo_resolver : resolverOptions :=
  (configured
     [WithRule "status" (Some (FieldChanged "status")) (Some (ManualReview "look"));
      WithEventTypeRule "orders" "OrderUpdated" (Some AdditiveMerge);
      WithFallback (Some (LastWriteWins (MR := canonical_range)))]).1.

Lemma demo_resolver_answers :
  ∀ r m, r ∈ rules demo_resolver → Matcher r = Some m → answers m.
Proof.
  intros r m Hr Hm. cbn in Hr.
  repeat (apply elem_of_cons in Hr as [->|Hr]; [injection Hm as <-; intros c; by eexists|]).
  by apply not_elem_of_nil in Hr.
Qed.

Lemma DynamicResolver_first_match_witness :
  Resolve demo_resolver background demo_conflict
    = Done ((mkResolved [] "manual_review" ["manual review required"; "look"], None), [])
  ∧ ∀ j r', rules demo_resolver !! j = Some r' → fires demo_conflict r' → (0 ≤ j)%nat.
Proof.
  pose proof (DynamicResolver_first_match demo_resolver background demo_conflict
                demo_resolver_answers) as H.
  change (list_find (fires demo_conflict) (rules demo_resolver))
    with (Some (0%nat, mkRule "status" (Some (FieldChanged "status")) (Some (ManualReview "look")))) in H.
  destruct H as (_ & _ & Hmin & Hres). split; [exact Hres|exact Hmin].
Defined.

Lemma spec_algebra_witness :
  let a := Some (EventTypeIs "OrderUpdated") in
  let b := Some (FieldChanged "total") in
  (And a b demo_conflict = Done true ↔ call a false demo_conflict = Done true ∧ call b false demo_conflict = Done true)
  ∧ (Or a b demo_conflict = Done true ↔ call a false demo_conflict = Done true ∨ call b false demo_conflict = Done true)
  ∧ (Not a demo_conflict = Done true ↔ call a false demo_conflict ≠ Done true)
  ∧ Not (Some (And a b)) demo_conflict = Or (Some (Not a)) (Some (Not b)) demo_conflict
  ∧ AndMatcher (Some <$> [AlwaysMatch]) demo_conflict
    = foldr (λ m acc, And (Some m) (Some acc)) AlwaysMatch [AlwaysMatch] demo_conflict.
Proof.
  apply (spec_algebra (Some (EventTypeIs "OrderUpdated")) (Some (FieldChanged "total")) [AlwaysMatch]
           demo_conflict); intros m [= <-] c; by eexists.
Defined.
