(* ===== verification/Composite.v ===== *)
(** * Rule groups and the composite resolver (src/synckit/composite.go)

    Groups are shared by reference, so they live in a heap and name their
    subgroups; the recursive walks take fuel, which a group whose subgroups are
    well-founded never runs out of, and running out stands for the stack
    overflow of a group that contains itself. *)
From S2P Require Import Prelude Types Json Errors VectorClock Versions Resolvers.
From stdpp Require Import options.

Record RuleGroup := mkGroup {
  g_Name : string;
  g_Description : string;
  g_rules : list Rule;
  g_subGroups : list nat;
  g_enabled : bool;
  g_fallback : option Resolver
}.
Abbreviation heap := (gmap nat RuleGroup).

Inductive RuleGroupOption :=
  | WithDescription (desc : string)
  | WithGroupFallback (r : option Resolver)
  | WithEnabled (enabled : bool).
Definition apply_group_option (g : RuleGroup) (o : RuleGroupOption) : RuleGroup :=
  match o with
  | WithDescription d => mkGroup (g_Name g) d (g_rules g) (g_subGroups g) (g_enabled g) (g_fallback g)
  | WithGroupFallback r => mkGroup (g_Name g) (g_Description g) (g_rules g) (g_subGroups g) (g_enabled g) r
  | WithEnabled b => mkGroup (g_Name g) (g_Description g) (g_rules g) (g_subGroups g) b (g_fallback g)
  end.
Definition NewRuleGroup (name : string) (opts : list RuleGroupOption) : RuleGroup :=
  fold_left apply_group_option opts (mkGroup name "" [] [] true None).

(** Dereferencing a group. *)
Definition get_group (id : nat) (h : heap) : outcome RuleGroup := deref (h !! id).

Definition dotted (a b : string) : string := a +:+ "." +:+ b.
Definition rename (name : string) (r : Rule) : Rule := mkRule name (Matcher r) (rule_Resolver r).

Definition AddRule (rg : nat) (rule : Rule) (h : heap) : outcome heap :=
  let* g := get_group rg h in
  if negb (g_enabled g) then Done h
  else
    let r := if bool_decide (rule_Name rule = "") then rule
             else rename (dotted (g_Name g) (rule_Name rule)) rule in
    Done (<[rg := mkGroup (g_Name g) (g_Description g) (g_rules g ++ [r]) (g_subGroups g)
                    (g_enabled g) (g_fallback g)]> h).

(** [name[:len(prefix)] == prefix] and the rest of the name. *)
Definition strip (prefix name : string) : string :=
  if Nat.ltb (String.length prefix) (String.length name)
     && bool_decide (String.substring 0 (String.length prefix) name = prefix)
  then String.substring (String.length prefix) (String.length name - String.length prefix) name
  else name.

Definition renamespace (old new : string) (r : Rule) : Rule :=
  if bool_decide (rule_Name r = "") then r
  else rename (dotted new (strip (old +:+ ".") (rule_Name r))) r.

(** The subgroup is renamed in place, then listed; the two may be one group. *)
Definition AddSubGroup (rg subGroup : nat) (h : heap) : outcome heap :=
  let* g := get_group rg h in
  if negb (g_enabled g) then Done h
  else
    let* s := get_group subGroup h in
    let name := dotted (g_Name g) (g_Name s) in
    let s' := mkGroup name (g_Description s) (renamespace (g_Name s) name <$> g_rules s)
                (g_subGroups s) (g_enabled s) (g_fallback s) in
    let h := <[subGroup := s']> h in
    let* g := get_group rg h in
    Done (<[rg := mkGroup (g_Name g) (g_Description g) (g_rules g) (g_subGroups g ++ [subGroup])
                    (g_enabled g) (g_fallback g)]> h).

Definition set_enabled (b : bool) (rg : nat) (h : heap) : outcome heap :=
  let* g := get_group rg h in
  Done (<[rg := mkGroup (g_Name g) (g_Description g) (g_rules g) (g_subGroups g) b (g_fallback g)]> h).
Definition Enable : nat → heap → outcome heap := set_enabled true.
Definition Disable : nat → heap → outcome heap := set_enabled false.

(** ** Walks *)

Definition collect {A} (f : nat → outcome (list A)) : list nat → outcome (list A) :=
  fix go ids :=
    match ids with
    | [] => Done []
    | id :: ids => let* x := f id in let* xs := go ids in Done (x ++ xs)
    end.

Fixpoint GetAllRules (fuel : nat) (h : heap) (rg : nat) : outcome (list Rule) :=
  match fuel with
  | O => Panic "stack overflow"
  | S fuel =>
      let* g := get_group rg h in
      if negb (g_enabled g) then Done []
      else let* rest := collect (GetAllRules fuel h) (g_subGroups g) in Done (g_rules g ++ rest)
  end.

(** What a group answers: a resolution, whether it matched, an error. *)
Abbreviation answer := (ResolvedConflict * bool * option error)%type.
Definition no_match : answer := (no_resolution, false, None).
Definition answer_of (r : ResolvedConflict * option error) : answer :=
  match r with
  | (_, Some err) => (no_resolution, false, Some err)
  | (res, None) => (res, true, None)
  end.

(** The loop over the rules of one group: a nil matcher or resolver panics. *)
Fixpoint first_rule (ctx : CtxView) (c : Conflict) (rs : list Rule) : outcome (option answer) :=
  match rs with
  | [] => Done None
  | r :: rest =>
      let* m := deref (Matcher r) in
      let* hit := m c in
      if hit : bool then
        let* resolver := deref (rule_Resolver r) in
        let* res := resolver ctx c in
        Done (Some (answer_of res))
      else first_rule ctx c rest
  end.
(** The loop over subgroups or groups: the first error or match ends it. *)
Definition first_group (f : nat → outcome answer) : list nat → outcome (option answer) :=
  fix go ids :=
    match ids with
    | [] => Done None
    | id :: ids =>
        let* a := f id in
        match a with
        | (_, _, Some err) => Done (Some (no_resolution, false, Some err))
        | (res, true, None) => Done (Some (res, true, None))
        | (_, false, None) => go ids
        end
    end.
Fixpoint ResolveInGroup (fuel : nat) (h : heap) (ctx : CtxView) (c : Conflict) (rg : nat)
    : outcome answer :=
  match fuel with
  | O => Panic "stack overflow"
  | S fuel =>
      let* g := get_group rg h in
      if negb (g_enabled g) then Done no_match
      else
        let* a := first_rule ctx c (g_rules g) in
        match a with
        | Some a => Done a
        | None =>
            let* a := first_group (ResolveInGroup fuel h ctx c) (g_subGroups g) in
            match a with
            | Some a => Done a
            | None =>
                match g_fallback g with
                | None => Done no_match
                | Some f => let* res := f ctx c in Done (answer_of res)
                end
            end
        end
  end.

Inductive RuleGroupStats := mkGroupStats {
  gs_Name : string; gs_Enabled : bool; RuleCount : nat; SubGroupCount : nat; TotalRules : nat;
  SubGroups : list RuleGroupStats
}.
Fixpoint GetStats (fuel : nat) (h : heap) (rg : nat) : outcome RuleGroupStats :=
  match fuel with
  | O => Panic "stack overflow"
  | S fuel' =>
      let* g := get_group rg h in
      let* all := GetAllRules fuel h rg in
      let* subs := collect (λ id, let* s := GetStats fuel' h id in Done [s]) (g_subGroups g) in
      Done (mkGroupStats (g_Name g) (g_enabled g) (length (g_rules g)) (length (g_subGroups g))
              (length all) subs)
  end.

(** ** The composite resolver; its logger is left out *)
Record CompositeResolver := mkComposite { cr_groups : list nat; cr_fallback : option Resolver }.
Definition NewCompositeResolver (f : option Resolver) : CompositeResolver := mkComposite [] f.
Definition AddGroup (id : nat) (cr : CompositeResolver) : CompositeResolver :=
  mkComposite (cr_groups cr ++ [id]) (cr_fallback cr).
Definition err_no_group : error := ErrMsg "no rule groups matched conflict and no fallback provided".
Definition Composite_Resolve (fuel : nat) (h : heap) (cr : CompositeResolver) : Resolver := λ ctx c,
  let* a := first_group (ResolveInGroup fuel h ctx c) (cr_groups cr) in
  match a with
  | Some (_, _, Some err) => Done (no_resolution, Some err)
  | Some (res, _, None) => Done (res, None)
  | None =>
      match cr_fallback cr with
      | Some f => f ctx c
      | None => Done (no_resolution, Some err_no_group)
      end
  end.
Definition GetAllGroups (cr : CompositeResolver) : list nat := cr_groups cr.
Definition GetGroupStats (fuel : nat) (h : heap) (cr : CompositeResolver) : outcome (list RuleGroupStats) :=
  collect (λ id, let* s := GetStats fuel h id in Done [s]) (cr_groups cr).

(** ** Well-founded heaps *)

(** Every subgroup exists and has a smaller rank than its parent. *)
Definition ranked (rk : nat → nat) (h : heap) : Prop :=
  map_Forall (λ id g, Forall (λ s, is_Some (h !! s) ∧ (rk s < rk id)%nat) (g_subGroups g)) h.

Lemma collect_Done {A} (f : nat → outcome (list A)) ids :
  Forall (λ id, ∃ l, f id = Done l) ids → ∃ l, collect f ids = Done l.
Proof.
  induction 1 as [|id ids [l Hl] _ [l' IH]]; [by exists []|]. exists (l ++ l'). cbn. by rewrite Hl, IH.
Qed.
Lemma collect_ext {A} (f f' : nat → outcome (list A)) ids :
  Forall (λ id, f id = f' id) ids → collect f ids = collect f' ids.
Proof. induction 1 as [|id ids Hf _ IH]; [done|]. cbn in *. by rewrite Hf, IH. Qed.

Section walks.
Context (rk : nat → nat) (h : heap) (Hrank : ranked rk h).

Lemma subgroups_ranked id g :
  h !! id = Some g → Forall (λ s, is_Some (h !! s) ∧ (rk s < rk id)%nat) (g_subGroups g).
Proof using Hrank. intros Hg. by apply (Hrank id g). Qed.

(** Enough fuel: the walk returns, and more fuel changes nothing. *)
Lemma GetAllRules_fuel fuel id :
  is_Some (h !! id) → (rk id < fuel)%nat →
  ∃ rs, GetAllRules fuel h id = Done rs ∧ ∀ fuel', (rk id < fuel')%nat → GetAllRules fuel' h id = Done rs.
Proof using Hrank.
  intros Hid Hlt.
  assert (∃ rs, ∀ fuel', (rk id < fuel')%nat → GetAllRules fuel' h id = Done rs) as [rs Hrs];
    [|exists rs; auto].
  clear fuel Hlt. remember (rk id) as n eqn:Hn. revert id Hid Hn.
  induction n as [n IH] using lt_wf_ind. intros id [g Hg] ->.
  pose proof (subgroups_ranked id g Hg) as Hsub.
  assert (∃ rest, ∀ fuel, (rk id ≤ fuel)%nat → collect (GetAllRules fuel h) (g_subGroups g) = Done rest)
    as [rest Hrest].
  { clear Hg. induction Hsub as [|s subs [Hs Hlt] _ [rest Hr]]; [by exists []|].
    destruct (IH (rk s) Hlt s Hs eq_refl) as [rs Hrs]. exists (rs ++ rest). intros fuel Hf. cbn.
    rewrite Hrs by lia. cbn. specialize (Hr fuel Hf). cbn in Hr. by rewrite Hr. }
  exists (if negb (g_enabled g) then [] else g_rules g ++ rest). intros [|fuel] Hf; [lia|].
  cbn [GetAllRules]. unfold get_group. rewrite Hg. cbn [deref obind].
  destruct (negb (g_enabled g)); [done|]. by rewrite Hrest by lia.
Qed.
End walks.

(** ** Flattening *)

Definition has_matcher (r : Rule) : Prop := is_Some (Matcher r).

Lemma first_rule_app ctx c l1 l2 :
  first_rule ctx c (l1 ++ l2) =
    let* a := first_rule ctx c l1 in
    match a with Some a => Done (Some a) | None => first_rule ctx c l2 end.
Proof.
  induction l1 as [|r l1 IH]; [done|]. cbn [app first_rule].
  destruct (deref (Matcher r)) as [m|]; [|done]. cbn [obind].
  destruct (m c) as [[]|]; [|done|done]. cbn [obind].
  destruct (deref (rule_Resolver r)) as [f|]; [|done]. cbn [obind]. by destruct (f ctx c).
Qed.
Lemma first_rule_answer ctx c rs a : first_rule ctx c rs = Done (Some a) → ∃ r, a = answer_of r.
Proof.
  induction rs as [|r rs IH]; [done|]. cbn [first_rule].
  destruct (deref (Matcher r)) as [m|]; [|done]. cbn [obind].
  destruct (m c) as [[]|]; [|done|done]. cbn [obind].
  destruct (deref (rule_Resolver r)) as [f|]; [|done]. cbn [obind].
  destruct (f ctx c) as [res|]; [|done]. intros [= <-]. by eexists.
Qed.

(** The group's loop is the dynamic resolver's, for rules with matchers. *)
Lemma first_rule_try d ctx c rs :
  Forall has_matcher rs →
  first_rule ctx c rs =
    let* hit := try_rules d ctx c rs in Done ((λ x, answer_of x.1) <$> hit).
Proof.
  induction 1 as [|r rs [m Hm] _ IH]; [done|]. cbn [first_rule try_rules].
  rewrite Hm. cbn [deref obind call]. destruct (m c) as [[]|]; [|done|done]. cbn [obind].
  destruct (deref (rule_Resolver r)) as [f|]; [|done]. cbn [obind].
  by destruct (f ctx c) as [[res [e|]]|].
Qed.

Lemma try_rules_error d ctx c rs res e log :
  try_rules d ctx c rs = Done (Some ((res, Some e), log)) → res = no_resolution.
Proof.
  induction rs as [|r rs IH]; [done|]. cbn [try_rules].
  destruct (call (Matcher r) false c) as [[]|]; [|done|done]. cbn [obind].
  destruct (deref (rule_Resolver r)) as [f|]; [|done]. cbn [obind].
  destruct (f ctx c) as [[res' [e'|]]|]; cbn; by intros [= <-].
Qed.

Lemma first_group_cons f id ids :
  first_group f (id :: ids) =
    let* a := f id in
    match a with
    | (_, _, Some err) => Done (Some (no_resolution, false, Some err))
    | (res, true, None) => Done (Some (res, true, None))
    | (_, false, None) => first_group f ids
    end.
Proof. done. Qed.
Lemma collect_cons {A} (f : nat → outcome (list A)) id ids :
  collect f (id :: ids) = let* x := f id in let* xs := collect f ids in Done (x ++ xs).
Proof. done. Qed.

Lemma first_group_flat ctx c (f : nat → outcome answer) F ids :
  Forall (λ id, ∃ rs, F id = Done rs
    ∧ f id = let* a := first_rule ctx c rs in Done (default no_match a)) ids →
  first_group f ids = let* rs := collect F ids in first_rule ctx c rs.
Proof.
  induction 1 as [|id ids (rs & HF & Hf) Hids IH]; [done|].
  assert (∃ rest, collect F ids = Done rest) as [rest Hrest].
  { apply collect_Done. eapply Forall_impl; [exact Hids|]. intros i (l & Hl & _). by exists l. }
  rewrite Hrest in IH. cbn [obind] in IH.
  rewrite first_group_cons, collect_cons, Hf, HF, Hrest. cbn [obind]. rewrite first_rule_app.
  destruct (first_rule ctx c rs) as [[a|]|why] eqn:Hr; [|exact IH|done]. cbn [obind default].
  by destruct (first_rule_answer _ _ _ _ Hr) as [[res [e|]] ->].
Qed.

Section flattening.
Context (rk : nat → nat) (h : heap) (Hrank : ranked rk h).
Context (Hplain : map_Forall (λ _ g, g_fallback g = None) h).

Lemma ResolveInGroup_flat fuel ctx c id :
  is_Some (h !! id) → (rk id < fuel)%nat →
  ResolveInGroup fuel h ctx c id =
    let* rs := GetAllRules fuel h id in
    let* a := first_rule ctx c rs in Done (default no_match a).
Proof using Hrank Hplain.
  revert id; induction fuel as [|fuel IH]; intros id [g Hg] Hlt; [lia|].
  cbn [ResolveInGroup GetAllRules]. unfold get_group. rewrite Hg. cbn [deref obind].
  destruct (negb (g_enabled g)); [done|].
  pose proof (subgroups_ranked rk h Hrank id g Hg) as Hsub.
  assert (Forall (λ s, ∃ rs, GetAllRules fuel h s = Done rs ∧ ResolveInGroup fuel h ctx c s
    = let* a := first_rule ctx c rs in Done (default no_match a)) (g_subGroups g)) as Hf.
  { eapply Forall_impl; [exact Hsub|]. intros s [Hs Hr].
    destruct (GetAllRules_fuel rk h Hrank fuel s Hs) as (rs & Hrs & _); [lia|].
    exists rs. split; [done|]. rewrite IH by (done || lia). by rewrite Hrs. }
  rewrite (first_group_flat ctx c _ _ _ Hf).
  assert (∃ rest, collect (GetAllRules fuel h) (g_subGroups g) = Done rest) as [rest ->].
  { apply collect_Done. eapply Forall_impl; [exact Hf|]. intros s (rs & Hrs & _). by exists rs. }
  cbn [obind]. rewrite first_rule_app.
  destruct (first_rule ctx c (g_rules g)) as [[a|]|]; [done| |done]. cbn [obind].
  destruct (first_rule ctx c rest) as [[a|]|]; [done| |done]. cbn [obind].
  by rewrite (Hplain id g Hg).
Qed.
End flattening.

(** ** Properties *)

(** C18: composite resolution is dynamic resolution over the flattened rules:
    when no group has a fallback of its own and every rule has a matcher, the
    composite resolver answers as the first matching rule of all enabled
    groups in depth-first order, and else as the global fallback. *)
Theorem composite_flattens (rk : nat → nat) (h : heap) (fuel : nat) (cr : CompositeResolver)
    (ctx : CtxView) (c : Conflict) (Hrank : ranked rk h)
    (Hplain : map_Forall (λ _ g, g_fallback g = None) h)
    (Hgroups : Forall (λ id, is_Some (h !! id) ∧ (rk id < fuel)%nat) (cr_groups cr))
    (Hmatch : ∀ rs, collect (GetAllRules fuel h) (cr_groups cr) = Done rs → Forall has_matcher rs) :
  ∃ rs, collect (GetAllRules fuel h) (cr_groups cr) = Done rs
    ∧ Composite_Resolve fuel h cr ctx c =
        let* hit := try_rules (mkOptions rs (cr_fallback cr) no_hooks) ctx c rs in
        match hit with
        | Some (r, _) => Done r
        | None => match cr_fallback cr with
                  | Some f => f ctx c
                  | None => Done (no_resolution, Some err_no_group)
                  end
        end.
Proof.
  assert (Forall (λ s, ∃ rs, GetAllRules fuel h s = Done rs ∧ ResolveInGroup fuel h ctx c s
    = let* a := first_rule ctx c rs in Done (default no_match a)) (cr_groups cr)) as Hf.
  { eapply Forall_impl; [exact Hgroups|]. intros s [Hs Hlt].
    destruct (GetAllRules_fuel rk h Hrank fuel s Hs Hlt) as (rs & Hrs & _).
    exists rs. split; [done|]. rewrite (ResolveInGroup_flat rk) by done. by rewrite Hrs. }
  assert (∃ rs, collect (GetAllRules fuel h) (cr_groups cr) = Done rs) as [rs Hrs].
  { apply collect_Done. eapply Forall_impl; [exact Hf|]. intros s (rs & Hs & _). by exists rs. }
  exists rs. split; [done|]. unfold Composite_Resolve. rewrite (first_group_flat ctx c _ _ _ Hf), Hrs.
  cbn [obind]. rewrite (first_rule_try (mkOptions rs (cr_fallback cr) no_hooks)) by by apply Hmatch.
  destruct (try_rules _ ctx c rs) as [[[[res [e|]] log]|]|why] eqn:Ht; cbn; try done.
  by rewrite (try_rules_error _ _ _ _ _ _ _ Ht).
Qed.

Section totals.
Context (rk : nat → nat) (h : heap) (Hrank : ranked rk h).

Lemma GetStats_Done fuel id :
  is_Some (h !! id) → (rk id < fuel)%nat → ∃ st, GetStats fuel h id = Done st.
Proof using Hrank.
  revert id; induction fuel as [|fuel IH]; intros id [g Hg] Hlt; [lia|].
  destruct (GetAllRules_fuel rk h Hrank (S fuel) id) as (rs & Hrs & _); [by eexists|done|].
  cbn [GetStats]. unfold get_group. rewrite Hg, Hrs. cbn [deref obind].
  assert (∃ l, collect (λ s, let* st := GetStats fuel h s in Done [st]) (g_subGroups g) = Done l) as [l ->];
    [|by eexists].
  apply collect_Done. eapply Forall_impl; [exact (subgroups_ranked rk h Hrank id g Hg)|].
  intros s [Hs Hr]. destruct (IH s Hs) as [st Hst]; [lia|]. exists [st]. by rewrite Hst.
Qed.
Lemma stats_total fuel id st :
  GetStats fuel h id = Done st →
  ∃ rs, GetAllRules fuel h id = Done rs ∧ TotalRules st = length rs.
Proof using Type.
  destruct fuel as [|fuel]; [done|]. cbn [GetStats].
  destruct (get_group id h) as [g|]; [|done]. cbn [obind].
  destruct (GetAllRules (S fuel) h id) as [rs|]; [|done]. cbn [obind].
  destruct (collect _ _) as [l|]; [|done]. cbn. intros [= <-]. by exists rs.
Qed.
End totals.

(** Remark: the statistics of a group are consistent: the walk terminates on every
    well-founded heap with fuel above the rank, and the total of an enabled
    group is its own rules plus the totals of its subgroups, while a disabled
    group counts none. *)
Theorem GetStats_totals (rk : nat → nat) (h : heap) (fuel id : nat) (g : RuleGroup)
    (Hrank : ranked rk h) (Hg : h !! id = Some g) (Hfuel : (rk id < fuel)%nat) :
  ∃ st, GetStats fuel h id = Done st
    ∧ RuleCount st = length (g_rules g) ∧ length (SubGroups st) = SubGroupCount st
    ∧ TotalRules st = if g_enabled g then (RuleCount st + sum_list (TotalRules <$> SubGroups st))%nat else 0%nat.
Proof.
  destruct (GetStats_Done rk h Hrank fuel id) as [st Hst]; [by eexists|done|].
  exists st. split; [done|]. destruct (stats_total h fuel id st Hst) as (rs & Hrs & ->).
  destruct fuel as [|fuel]; [lia|]. cbn [GetStats GetAllRules] in Hst, Hrs.
  unfold get_group in Hst, Hrs. rewrite Hg in Hst, Hrs. cbn [deref obind] in Hst, Hrs.
  set (all := if negb (g_enabled g) then _ else _) in Hst. fold all in Hrs.
  rewrite Hrs in Hst. cbn [obind] in Hst.
  destruct (collect (λ s, let* st := GetStats fuel h s in Done [st]) (g_subGroups g)) as [l|] eqn:Hl; [|done].
  cbn [obind] in Hst. injection Hst as <-. cbn [RuleCount SubGroupCount SubGroups TotalRules].
  assert (∀ subs l, collect (λ s, let* st := GetStats fuel h s in Done [st]) subs = Done l →
    length l = length subs
    ∧ ∃ rest, collect (GetAllRules fuel h) subs = Done rest ∧ length rest = sum_list (TotalRules <$> l)) as Hsum.
  { clear. induction subs as [|s subs IH]; intros l; [intros [= <-]; split; [done|by exists []]|].
    rewrite collect_cons. destruct (GetStats fuel h s) as [st|] eqn:Hs; [|done]. cbn [obind].
    destruct (collect _ subs) as [l'|]; [|done]. cbn. intros [= <-].
    destruct (IH l' eq_refl) as [Hlen (rest & Hrest & Hn)].
    destruct (stats_total h fuel s st Hs) as (rs & Hrs & Ht). split; [cbn; lia|].
    exists (rs ++ rest). change (collect (GetAllRules fuel h) (s :: subs) = Done (rs ++ rest)
      ∧ length (rs ++ rest) = (TotalRules st + sum_list (TotalRules <$> l'))%nat).
    rewrite collect_cons, Hrs, Hrest. split; [done|]. rewrite length_app. lia. }
  destruct (Hsum _ _ Hl) as [Hlen (rest & Hrest & Hn)]. split; [done|]. split; [done|].
  unfold all in Hrs. rewrite Hrest in Hrs. destruct (g_enabled g); cbn in Hrs; injection Hrs as <-; [|done].
  rewrite length_app. lia.
Qed.

(** *** Names *)
Lemma substring_prefix (p s : string) : String.substring 0 (String.length p) (p +:+ s) = p.
Proof.
  induction p as [|a p IH]; [by destruct s|].
  change (String a (String.substring 0 (String.length p) (p +:+ s)) = String a p). by rewrite IH.
Qed.
Lemma substring_all (s : string) : String.substring 0 (String.length s) s = s.
Proof.
  induction s as [|a s IH]; [done|].
  change (String a (String.substring 0 (String.length s) s) = String a s). by rewrite IH.
Qed.
Lemma substring_suffix (p s : string) : String.substring (String.length p) (String.length s) (p +:+ s) = s.
Proof. induction p as [|a p IH]; [apply substring_all|]. exact IH. Qed.
Lemma length_append (p s : string) : String.length (p +:+ s) = (String.length p + String.length s)%nat.
Proof.
  induction p as [|a p IH]; [done|].
  change (S (String.length (p +:+ s)) = S (String.length p + String.length s)). by rewrite IH.
Qed.
Lemma strip_prefix p s : s ≠ "" → strip p (p +:+ s) = s.
Proof.
  intros Hs. unfold strip. rewrite substring_prefix, length_append.
  rewrite bool_decide_true by done.
  replace (Nat.ltb _ _) with true.
  2: { symmetry. apply Nat.ltb_lt. destruct s; [done|]. cbn. lia. }
  cbn [andb]. replace (String.length p + String.length s - String.length p)%nat with (String.length s) by lia.
  apply substring_suffix.
Qed.
Lemma renamespace_dotted old new r n :
  n ≠ "" → rule_Name r = dotted old n → renamespace old new r = rename (dotted new n) r.
Proof.
  intros Hn Hr. unfold renamespace. rewrite Hr.
  rewrite bool_decide_false by (unfold dotted; intros Hd; by destruct old).
  unfold dotted at 2. rewrite <-strings_app_assoc. by rewrite strip_prefix.
Qed.

(** Adding another group renames it and its direct rules, and nothing deeper. *)
Definition listed (s : nat) (g : RuleGroup) : RuleGroup :=
  mkGroup (g_Name g) (g_Description g) (g_rules g) (g_subGroups g ++ [s]) (g_enabled g) (g_fallback g).
Definition under (parent : string) (g : RuleGroup) : RuleGroup :=
  let name := dotted parent (g_Name g) in
  mkGroup name (g_Description g) (renamespace (g_Name g) name <$> g_rules g) (g_subGroups g)
    (g_enabled g) (g_fallback g).
Lemma AddSubGroup_other rg sub h g s :
  rg ≠ sub → h !! rg = Some g → h !! sub = Some s → g_enabled g = true →
  AddSubGroup rg sub h = Done (<[rg := listed sub g]> (<[sub := under (g_Name g) s]> h)).
Proof.
  intros Hne Hg Hs He. unfold AddSubGroup, get_group. rewrite Hg. cbn [deref obind]. rewrite He.
  cbn [negb]. rewrite Hs. cbn [deref obind]. by rewrite lookup_insert_ne, Hg by done.
Qed.
Lemma GetAllRules_step fuel h id g :
  h !! id = Some g → g_enabled g = true →
  GetAllRules (S fuel) h id =
    let* rest := collect (GetAllRules fuel h) (g_subGroups g) in Done (g_rules g ++ rest).
Proof. intros Hg He. cbn [GetAllRules]. unfold get_group. rewrite Hg. cbn [deref obind]. by rewrite He. Qed.

(** A chain of three enabled groups. *)
Lemma GetAllRules_chain h a b c :
  h !! 0%nat = Some a → h !! 1%nat = Some b → h !! 2%nat = Some c →
  g_enabled a = true → g_enabled b = true → g_enabled c = true →
  g_subGroups a = [1%nat] → g_subGroups b = [2%nat] → g_subGroups c = [] →
  GetAllRules 3 h 0 = Done (g_rules a ++ g_rules b ++ g_rules c).
Proof.
  intros Ha Hb Hc Ea Eb Ec Sa Sb Sc.
  rewrite (GetAllRules_step _ _ _ a), Sa, collect_cons by done.
  rewrite (GetAllRules_step _ _ _ b), Sb, collect_cons by done.
  rewrite (GetAllRules_step _ _ _ c), Sc by done. cbn. by rewrite !app_nil_r.
Qed.

(** Remark: the full names of nested rules depend on the order in which the groups
    are put together: from the outside in, a rule of the innermost group gets
    all three names; from the inside out, the outermost name is missing. *)
Theorem nested_names_depend_on_order (a b c : string) (r : Rule) (Hr : rule_Name r ≠ "") :
  let h0 : heap := {[0%nat := NewRuleGroup a []; 1%nat := NewRuleGroup b []; 2%nat := NewRuleGroup c []]} in
  (let* h := AddRule 2 r h0 in let* h := AddSubGroup 0 1 h in let* h := AddSubGroup 1 2 h in GetAllRules 3 h 0)
  = Done [rename (dotted (dotted (dotted a b) c) (rule_Name r)) r]
  ∧ (let* h := AddRule 2 r h0 in let* h := AddSubGroup 1 2 h in let* h := AddSubGroup 0 1 h in GetAllRules 3 h 0)
  = Done [rename (dotted (dotted b c) (rule_Name r)) r].
Proof.
  cbn zeta. set (r1 := rename (dotted c (rule_Name r)) r).
  set (c1 := mkGroup c "" [r1] [] true None).
  set (h0 := {[0%nat := NewRuleGroup a []; 1%nat := NewRuleGroup b []; 2%nat := NewRuleGroup c []]} : heap).
  assert (AddRule 2 r h0 = Done (<[2%nat := c1]> h0)) as ->
    by (unfold AddRule; cbn -[dotted]; by rewrite bool_decide_false by done).
  assert (∀ new, renamespace c new r1 = rename (dotted new (rule_Name r)) r) as Hren
    by (intros new; by rewrite (renamespace_dotted c new r1 (rule_Name r))).
  cbn [obind]. split.
  - rewrite (AddSubGroup_other 0 1 _ (NewRuleGroup a []) (NewRuleGroup b [])) by done. cbn [obind].
    rewrite (AddSubGroup_other 1 2 _ (under a (NewRuleGroup b [])) c1) by done. cbn [obind].
    erewrite GetAllRules_chain by done. unfold c1. cbn -[dotted renamespace]. by rewrite Hren.
  - rewrite (AddSubGroup_other 1 2 _ (NewRuleGroup b []) c1) by done. cbn [obind].
    rewrite (AddSubGroup_other 0 1 _ (NewRuleGroup a []) (listed 2 (NewRuleGroup b []))) by done. cbn [obind].
    erewrite GetAllRules_chain by done. unfold c1. cbn -[dotted renamespace]. by rewrite Hren.
Qed.

(** ** Concrete instances *)
Definition demo_rule (name eventType : string) : Rule :=
  mkRule name (Some (EventTypeIs eventType)) (Some AdditiveMerge).
(** A disabled group and an enabled one with a subgroup. *)
Definition demo_heap : heap :=
  {[0%nat := mkGroup "users" "" [demo_rule "users.u" "UserUpdated"] [] false None;
    1%nat := mkGroup "orders" "" [demo_rule "orders.o" "OrderUpdated"] [2%nat] true None;
    2%nat := mkGroup "orders.items" "" [demo_rule "orders.items.i" "ItemUpdated"] [] true None]}.
Definition demo_rank (id : nat) : nat := (2 - id)%nat.
Lemma demo_ranked : ranked demo_rank demo_heap.
Proof.
  unfold demo_heap. repeat apply map_Forall_insert_2; [..|apply map_Forall_empty];
    cbn; repeat (apply Forall_cons; split); try apply Forall_nil_2; (split; [by eexists|vm_compute; lia]).
Qed.

Lemma demo_rules :
  collect (GetAllRules 3 demo_heap) [0%nat; 1%nat]
  = Done [demo_rule "orders.o" "OrderUpdated"; demo_rule "orders.items.i" "ItemUpdated"].
Proof. reflexivity. Qed.

Lemma composite_flattens_witness :
  let cr := AddGroup 1 (AddGroup 0 (NewCompositeResolver (Some (ManualReview "late")))) in
  ∃ rs, collect (GetAllRules 3 demo_heap) (cr_groups cr) = Done rs
    ∧ rule_Name <$> rs = ["orders.o"; "orders.items.i"]
    ∧ Composite_Resolve 3 demo_heap cr background demo_conflict =
        let* hit := try_rules (mkOptions rs (cr_fallback cr) no_hooks) background demo_conflict rs in
        match hit with
        | Some (r, _) => Done r
        | None => match cr_fallback cr with
                  | Some f => f background demo_conflict
                  | None => Done (no_resolution, Some err_no_group)
                  end
        end.
Proof.
  cbn zeta.
  destruct (composite_flattens demo_rank demo_heap 3
    (AddGroup 1 (AddGroup 0 (NewCompositeResolver (Some (ManualReview "late"))))) background demo_conflict)
    as (rs & Hrs & Heq).
  - apply demo_ranked.
  - unfold demo_heap. repeat apply map_Forall_insert_2; [reflexivity..|apply map_Forall_empty].
  - repeat (apply Forall_cons; split); try apply Forall_nil_2; (split; [by eexists|vm_compute; lia]).
  - intros rs Hrs. cbn [AddGroup NewCompositeResolver cr_groups app] in Hrs.
    rewrite demo_rules in Hrs. injection Hrs as <-.
    repeat (apply Forall_cons; split); try apply Forall_nil_2; by eexists.
  - exists rs. split; [exact Hrs|]. split; [|exact Heq].
    cbn [AddGroup NewCompositeResolver cr_groups app] in Hrs.
    rewrite demo_rules in Hrs. by injection Hrs as <-.
Defined.

Lemma GetStats_totals_witness :
  ∃ st, GetStats 3 demo_heap 1 = Done st
    ∧ RuleCount st = 1%nat ∧ length (SubGroups st) = SubGroupCount st
    ∧ TotalRules st = (RuleCount st + sum_list (TotalRules <$> SubGroups st))%nat.
Proof.
  apply (GetStats_totals demo_rank demo_heap 3 1
    (mkGroup "orders" "" [demo_rule "orders.o" "OrderUpdated"] [2%nat] true None));
    [apply demo_ranked|reflexivity|vm_compute; lia].
Defined.

Lemma nested_names_depend_on_order_witness :
  let h0 : heap := {[0%nat := NewRuleGroup "shop" []; 1%nat := NewRuleGroup "orders" [];
                     2%nat := NewRuleGroup "items" []]} in
  let r := demo_rule "first" "ItemUpdated" in
  (let* h := AddRule 2 r h0 in let* h := AddSubGroup 0 1 h in let* h := AddSubGroup 1 2 h in GetAllRules 3 h 0)
  = Done [rename "shop.orders.items.first" r]
  ∧ (let* h := AddRule 2 r h0 in let* h := AddSubGroup 1 2 h in let* h := AddSubGroup 0 1 h in GetAllRules 3 h 0)
  = Done [rename "orders.items.first" r].
Proof.
  apply (nested_names_depend_on_order "shop" "orders" "items" (demo_rule "first" "ItemUpdated")). discriminate.
Defined.
