(* ===== verification/Interfaces.v ===== *)
(** * The store and transport interfaces (src/synckit/types/interfaces.go)

    [EventStore] and [Transport] are the operations the sync manager calls;
    [LogStore] and [LogTransport] state what an implementation promises: an
    append-only log that numbers its own entries, and a shared log read past a
    version.  The in-memory store and the channel transport implement the
    interfaces and keep the promises; the null transport implements the
    operations only. *)
From S2P Require Import Prelude Types Json Errors VectorClock Versions.
From S2P Require MemStore MemChan.
From stdpp Require Import options.

(** Each method sees the context through the polls it makes; methods may change
    the component's state, so they return it. *)
Class EventStore (St : Type) := {
  es_Store : CtxView → option Event → option Version → St → outcome (St * option error);
  es_Load : CtxView → option Version → list Filter → St
            → outcome (result error (list EventWithVersion));
  es_LoadByAggregate : CtxView → string → option Version → list Filter → St
            → outcome (result error (list EventWithVersion));
  es_LatestVersion : CtxView → St → outcome (result error (option Version));
  es_ParseVersion : CtxView → string → St → outcome (result error (option Version));
  es_Close : St → outcome (St * option error)
}.

(** [tr_IsHealthy] and [tr_CanSendReceive] are [None] when the value does not
    have these optional methods. *)
Class Transport (T : Type) := {
  tr_Push : CtxView → list EventWithVersion → T → outcome (T * option error);
  tr_Pull : CtxView → option Version → T → outcome (result error (list EventWithVersion));
  tr_GetLatestVersion : CtxView → T → outcome (result error (option Version));
  tr_Close : T → outcome (T * option error);
  tr_IsHealthy : T → option bool;
  tr_CanSendReceive : T → option (bool * bool)
}.

(** ** Promises *)

(** An append-only log: the entry stored [n]-th has version [n]; [ready s n]
    says the store is open and has room for [n] more entries. *)
Class LogStore (St : Type) {ES : EventStore St} := {
  log : St → list EventWithVersion;
  entry : Event → Z → EventWithVersion;
  ready : St → nat → Prop;
  entry_event : ∀ e n, ID <$> ev_event (entry e n) = Some (ID e);
  entry_version : ∀ e n, ev_version (entry e n) = Some (IntegerCursor n);
  ready_less : ∀ s n m, ready s n → (m ≤ n)%nat → ready s m;
  log_Store : ∀ s n e v, ready s (S n) →
    ∃ s', es_Store background (Some e) v s = Done (s', None)
          ∧ ready s' n ∧ log s' = log s ++ [entry e (Z.of_nat (length (log s)) + 1)];
  log_Load : ∀ s n k, ready s n →
    es_Load background (Some (IntegerCursor (Z.of_nat k))) [] s = Done (Ok (drop k (log s)));
  log_LatestVersion : ∀ s n, ready s n →
    es_LatestVersion background s
    = Done (Ok (Some (IntegerCursor (Z.of_nat (length (log s))))))
}.

(** A shared log: pushes append, pulls return the entries past a version. *)
Class LogTransport (T : Type) {TR : Transport T} := {
  remote : T → list EventWithVersion;
  online : T → Prop;
  remote_Push : ∀ t evs, online t →
    ∃ t', tr_Push background evs t = Done (t', None) ∧ online t' ∧ remote t' = remote t ++ evs;
  remote_Pull : ∀ t n, online t →
    tr_Pull background (Some (IntegerCursor n)) t = Done (Ok (filter (after n) (remote t)));
  remote_LatestVersion : ∀ t, online t →
    tr_GetLatestVersion background t
    = Done (Ok (Some (IntegerCursor (MemChan.max_version (remote t)))))
}.

(** ** The in-memory store *)
Section memstore.
Context {MR : MapRange}.

Definition lift_version (r : result error Version) : result error (option Version) :=
  match r with Ok v => Ok (Some v) | Err e => Err e end.

#[global] Instance memstore_EventStore : EventStore MemStore.MemStore := {|
  es_Store := MemStore.Store;
  es_Load := MemStore.Load;
  es_LoadByAggregate := MemStore.LoadByAggregate;
  es_LatestVersion := λ ctx s, Done (lift_version (MemStore.LatestVersion ctx s));
  es_ParseVersion := λ ctx v s, Done (lift_version (MemStore.ParseVersion v));
  es_Close := λ s, Done (MemStore.Close s, None)
|}.

#[global] Program Instance memstore_LogStore : LogStore MemStore.MemStore := {|
  log := MemStore.events;
  entry := MemStore.stored;
  ready := λ s n, MemStore.mem_inv s ∧ MemStore.has_room s n
|}.
Next Obligation. done. Qed.
Next Obligation. done. Qed.
Next Obligation. intros s n m [Hinv Hroom] Hle. split; [done|]. unfold MemStore.has_room in *. lia. Qed.
Next Obligation.
  intros s n e v [Hinv Hroom]. destruct (MemStore.Store_ok e v s Hinv) as (s' & Hs & Hinv' & Hev).
  { unfold MemStore.has_room in *. lia. }
  exists s'. split; [exact Hs|]. rewrite Hev, (MemStore.inv_seq s Hinv). split; [|done].
  split; [done|]. unfold MemStore.has_room in *. rewrite Hev, length_app. cbn. lia.
Qed.
Next Obligation.
  intros s n k [Hinv _]. cbn [es_Load memstore_EventStore]. rewrite MemStore.Load_wanted by done.
  rewrite <-(MemStore.filter_after_drop k s Hinv). do 2 f_equal.
  apply filter_ext_elem. intros ev _. apply MemStore.wanted_nil.
Qed.
Next Obligation. intros s n [Hinv _]. cbn [es_LatestVersion memstore_EventStore]. by rewrite MemStore.LatestVersion_length. Qed.
End memstore.

(** ** The channel transport, under a schedule per push *)
Section memchan.
Context (sch : MemChan.Sched).

Definition memchan_Transport : Transport MemChan.MemChan := {|
  tr_Push := λ ctx evs t, MemChan.Push ctx sch evs t;
  tr_Pull := MemChan.Pull;
  tr_GetLatestVersion := λ ctx t, Done (lift_version (MemChan.GetLatestVersion ctx t));
  tr_Close := λ t, let* t' := MemChan.Close t in Done (t', None);
  tr_IsHealthy := λ _, None;
  tr_CanSendReceive := λ _, None
|}.

#[global] Program Instance memchan_LogTransport : LogTransport (TR := memchan_Transport) MemChan.MemChan := {|
  remote := MemChan.events;
  online := λ t, MemChan.mc_inv t ∧ MemChan.closed t = false
|}.
Next Obligation.
  intros t evs [Hinv Hopen].
  destruct (MemChan.Push_spec background sch evs t Hinv Hopen eq_refl) as (cs & err & Hp & _ & Herr).
  assert (err = None) as -> by (destruct Herr as [->|(n & e & ? & _)]; done).
  eexists. split; [exact Hp|]. split; [|done]. split; [|done].
  destruct (MemChan.Push_inv background sch evs t Hinv) as (t' & err & Hp' & Hinv').
  rewrite Hp in Hp'. by injection Hp' as <- _.
Qed.
Next Obligation. intros t n [_ Hopen]. by apply MemChan.Pull_after. Qed.
Next Obligation. intros t [_ Hopen]. cbn [tr_GetLatestVersion memchan_Transport]. by rewrite MemChan.GetLatestVersion_max. Qed.
End memchan.

(** ** The null transport (src/synckit/manager_options.go) *)
Inductive nullTransport := NullTransport.
#[global] Instance null_Transport : Transport nullTransport := {|
  tr_Push := λ _ _ t, Done (t, None);
  tr_Pull := λ _ _ _, Done (Ok []);
  tr_GetLatestVersion := λ _ _, Done (Ok (Some nullVersion));
  tr_Close := λ t, Done (t, None);
  tr_IsHealthy := λ _, None;
  tr_CanSendReceive := λ _, None
|}.
