(* ===== verification/Detect.v ===== *)
(** * Conflict detection (src/synckit/manager.go: findLatestVersion,
    detectConflicts, detectChangedFields)

    The pure parts of a pull: which local and remote events conflict, what the
    conflict records say, and the latest version of a batch. *)
From S2P Require Import Prelude Types Json Errors VectorClock Versions.
From stdpp Require Import options.

Section detect.
Context {MR : MapRange}.

Fixpoint latest_from (latest : option Version) (evs : list EventWithVersion)
    : outcome (option Version) :=
  match evs with
  | [] => Done latest
  | ev :: rest =>
      let* v := deref (ev_version ev) in
      let* c := version_Compare v latest in
      latest_from (if 0 <? c then ev_version ev else latest) rest
  end.
Definition findLatestVersion (evs : list EventWithVersion) : outcome (option Version) :=
  match evs with
  | [] => Done None
  | ev :: rest => latest_from (ev_version ev) rest
  end.

Definition detectChangedFields (local remote : Event) : list string :=
  match Data local, Data remote with
  | AnyNil, AnyNil => []
  | AnyNil, _ | _, AnyNil => ["data"]
  | l, r => if bool_decide (sprintf_v l = sprintf_v r) then [] else ["data"]
  end.

(** The lookup key of an event. *)
Definition conflict_key (e : Event) : string := AggregateID e +:+ ":" +:+ Type_ e.

Fixpoint index_by_key (evs : list EventWithVersion) (m : gmap string (list EventWithVersion))
    : outcome (gmap string (list EventWithVersion)) :=
  match evs with
  | [] => Done m
  | local :: rest =>
      let* e := deref (ev_event local) in
      let key := conflict_key e in
      index_by_key rest (<[key := default [] (m !! key) ++ [local]]> m)
  end.

(** Copy a metadata entry under another name when it is there. *)
Definition copy_entry (meta : gomap any) (key as_key : string) (m : gmap string any)
    : gmap string any :=
  match map_of meta !! key with Some v => <[as_key := v]> m | None => m end.

Definition make_conflict (local remote : EventWithVersion) : outcome (option Conflict) :=
  let* lv := deref (ev_version local) in
  let* cmp := version_Compare lv (ev_version remote) in
  if cmp =? 0 then Done None
  else
    let* re := deref (ev_event remote) in
    let* le := deref (ev_event local) in
    let* ls := version_String lv in
    let* rv := deref (ev_version remote) in
    let* rs := version_String rv in
    let meta : gmap string any :=
      {["local_version" := AnyString ls; "remote_version" := AnyString rs;
        "version_comparison" := AnyInt cmp]} in
    let meta := copy_entry (Metadata le) "timestamp" "local_timestamp"
                  (copy_entry (Metadata le) "origin" "local_origin" meta) in
    let meta := copy_entry (Metadata re) "timestamp" "remote_timestamp"
                  (copy_entry (Metadata re) "origin" "remote_origin" meta) in
    Done (Some (mkConflict (Type_ re) (AggregateID re) (detectChangedFields le re) (Some meta)
                  local remote)).

Fixpoint conflicts_with (remote : EventWithVersion) (locals : list EventWithVersion)
    : outcome (list Conflict) :=
  match locals with
  | [] => Done []
  | local :: rest =>
      let* c := make_conflict local remote in
      let* cs := conflicts_with remote rest in
      Done (match c with Some c => c :: cs | None => cs end)
  end.

Fixpoint scan_remote (m : gmap string (list EventWithVersion)) (remotes : list EventWithVersion)
    : outcome (list Conflict) :=
  match remotes with
  | [] => Done []
  | remote :: rest =>
      let* e := deref (ev_event remote) in
      let* cs := match m !! conflict_key e with
                 | None => Done []
                 | Some locals => conflicts_with remote locals
                 end in
      let* cs' := scan_remote m rest in
      Done (cs ++ cs')
  end.

Definition detectConflicts (localEvents remoteEvents : list EventWithVersion)
    : outcome (list Conflict) :=
  let* m := index_by_key localEvents ∅ in
  scan_remote m remoteEvents.

(** ** Specification *)

(** An event with a version that is not a nil clock pointer. *)
Definition sound_version (v : Version) : Prop := v ≠ VectorClockV None.
Definition sound (ev : EventWithVersion) : Prop :=
  is_Some (ev_event ev) ∧ ∃ v, ev_version ev = Some v ∧ sound_version v.

Definition key_of (ev : EventWithVersion) : option string := conflict_key <$> ev_event ev.
Definition with_key (k : option string) (evs : list EventWithVersion) : list EventWithVersion :=
  filter (λ l, key_of l = k) evs.
(** Two versions differ when comparing them does not give 0. *)
Definition differ (l r : EventWithVersion) : Prop :=
  match ev_version l with
  | Some v => version_Compare v (ev_version r) ≠ Done 0
  | None => True
  end.
#[global] Instance outcomeZ_eq_dec : EqDecision (outcome Z).
Proof. solve_decision. Defined.
#[global] Instance differ_dec l r : Decision (differ l r).
Proof. unfold differ. destruct (ev_version l); apply _. Defined.

(** What that means for each kind of version: integers and vector cursors that
    are not the same, vector clocks one of which is causally before the other.
    Concurrent clocks do not differ, and neither do versions of two kinds. *)
Definition told_apart (l r : Version) : Prop :=
  match l, r with
  | IntegerCursor a, IntegerCursor b => a ≠ b
  | VectorCursor a, VectorCursor b => json_marshal_map a ≠ json_marshal_map b
  | VectorClockV (Some a), VectorClockV (Some b) =>
      vc_lt (map_of (clocks a)) (map_of (clocks b)) ∨ vc_lt (map_of (clocks b)) (map_of (clocks a))
  | _, _ => False
  end.

(** The pairs that conflict, in the order they are reported. *)
Definition conflicting (locals remotes : list EventWithVersion)
    : list (EventWithVersion * EventWithVersion) :=
  r ← remotes; l ← with_key (key_of r) locals;
  if decide (differ l r) then [(l, r)] else [].

Lemma version_Compare_sound v o : sound_version v → ∃ z, version_Compare v o = Done z.
Proof.
  intros Hv. destruct v as [s|cs|p|]; [by eexists|by eexists| |by eexists].
  destruct p as [p|]; [|by destruct Hv].
  destruct o as [[s|cs|[q|]|]|]; by eexists.
Qed.
Lemma version_String_sound v : sound_version v → ∃ s, version_String v = Done s.
Proof.
  intros Hv. destruct v as [s|cs|p|]; [by eexists|by eexists| |by eexists].
  destruct p as [p|]; [by eexists|by destruct Hv].
Qed.

Definition pair_of (c : Conflict) := (c_Local c, c_Remote c).
(** A conflict is filed under the remote event's type and aggregate; it names the
    changed field when both events carry data and the data print differently, or
    when only one of them carries data; its metadata hold both versions as text
    and the result of their comparison. *)
Definition filed (c : Conflict) : Prop :=
  ∃ le re lv rv lt rt meta cmp,
    ev_event (c_Local c) = Some le ∧ ev_event (c_Remote c) = Some re
    ∧ ev_version (c_Local c) = Some lv ∧ ev_version (c_Remote c) = Some rv
    ∧ c_EventType c = Type_ re ∧ c_AggregateID c = AggregateID re
    ∧ c_ChangedFields c = detectChangedFields le re
    ∧ c_Metadata c = Some meta
    ∧ version_String lv = Done lt ∧ meta !! "local_version" = Some (AnyString lt)
    ∧ version_String rv = Done rt ∧ meta !! "remote_version" = Some (AnyString rt)
    ∧ version_Compare lv (Some rv) = Done cmp
    ∧ meta !! "version_comparison" = Some (AnyInt cmp)
    ∧ meta !! "local_origin" = map_of (Metadata le) !! "origin"
    ∧ meta !! "remote_origin" = map_of (Metadata re) !! "origin"
    ∧ meta !! "local_timestamp" = map_of (Metadata le) !! "timestamp"
    ∧ meta !! "remote_timestamp" = map_of (Metadata re) !! "timestamp".

Lemma copy_entry_at meta key as_key m k :
  m !! as_key = None →
  copy_entry meta key as_key m !! k
  = if decide (k = as_key) then map_of meta !! key else m !! k.
Proof.
  intros Hn. unfold copy_entry. case_decide as Hk.
  - subst k. destruct (map_of meta !! key); [by rewrite lookup_insert_eq|done].
  - destruct (map_of meta !! key); [by rewrite lookup_insert_ne by congruence|done].
Qed.

Lemma string_compare_same a : String.compare a a = Eq.
Proof. induction a as [|c a IH]; [done|]. cbn. unfold Ascii.compare. by rewrite N.compare_refl. Qed.
Lemma bytes_compare_0 a b : bytes_compare a b = 0 ↔ a = b.
Proof.
  unfold bytes_compare. split; [|intros ->; by rewrite string_compare_same].
  intros H. apply String.compare_eq_iff. by destruct (String.compare a b).
Qed.

Lemma differ_told_apart l r vl vr :
  ev_version l = Some vl → ev_version r = Some vr → sound_version vl → sound_version vr →
  differ l r ↔ told_apart vl vr.
Proof.
  intros Hl Hr Hsl Hsr. unfold differ. rewrite Hl, Hr.
  destruct vl as [a|a|[a|]|], vr as [b|b|[b|]|]; try done; cbn; try naive_solver.
  - destruct (Z.ltb_spec a b), (Z.ltb_spec b a); split; intros H1; try done; try lia; intros [=]; lia.
  - rewrite <-(bytes_compare_0 (json_marshal_map a)). split; [intros H1 H2; apply H1; by rewrite H2|intros H1 [=]; by apply H1].
  - rewrite <-compare_clocks_lt, <-compare_clocks_gt.
    pose proof (compare_clocks_range (map_of (clocks a)) (map_of (clocks b))) as Hin.
    rewrite !elem_of_cons in Hin. split.
    + intros H1. destruct Hin as [?|[H0|[?|[]%not_elem_of_nil]]]; auto. destruct H1. by rewrite H0.
    + intros [H1|H1]; rewrite H1; done.
Qed.

Lemma make_conflict_spec l r :
  sound l → sound r →
  ∃ c, make_conflict l r = Done c
    ∧ if decide (differ l r) then ∃ c', c = Some c' ∧ c_Local c' = l ∧ c_Remote c' = r ∧ filed c'
      else c = None.
Proof.
  intros [[le Hle] (lv & Hlv & Hls)] [[re Hre] (rv & Hrv & Hrs)].
  destruct (version_Compare_sound lv (ev_version r) Hls) as [z Hz].
  destruct (version_String_sound lv Hls) as [sl Hsl], (version_String_sound rv Hrs) as [sr Hsr].
  unfold make_conflict. rewrite Hlv. cbn [deref obind]. rewrite Hz. cbn [obind].
  destruct (Z.eqb_spec z 0) as [->|Hne].
  - exists None. split; [done|]. rewrite decide_False; [done|]. unfold differ. rewrite Hlv, Hz. by intros [].
  - rewrite Hre, Hle, Hrv. cbn [deref obind]. rewrite Hsl. cbn [obind]. rewrite Hsr. cbn [obind].
    eexists. split; [done|]. rewrite decide_True; [|unfold differ; rewrite Hlv, Hz; by intros [=]].
    eexists. split_and!; [done|done|done|]. exists le, re, lv, rv, sl, sr. eexists _, z.
    rewrite Hrv in Hz. cbn [c_Local c_Remote c_EventType c_AggregateID c_ChangedFields c_Metadata].
    split_and!; try done; repeat (rewrite copy_entry_at; [|try reflexivity]);
      try reflexivity.
Qed.

Lemma conflicts_with_spec r ls :
  sound r → Forall sound ls →
  ∃ cs, conflicts_with r ls = Done cs ∧ Forall filed cs
    ∧ pair_of <$> cs = l ← ls; if decide (differ l r) then [(l, r)] else [].
Proof.
  intros Hr. induction 1 as [|l ls Hl _ (cs & Hcs & Hf & Hp)]; [by exists []|].
  destruct (make_conflict_spec l r Hl Hr) as (c & Hc & Hspec). cbn [conflicts_with].
  rewrite Hc. cbn [obind]. rewrite Hcs. cbn [obind]. eexists. split; [done|].
  cbn [mbind list_bind]. rewrite <-Hp. case_decide.
  - destruct Hspec as (c' & -> & Hl' & Hr' & Hfc). rewrite fmap_cons. cbn [app].
    split; [by apply Forall_cons|].
    unfold pair_of at 1. by rewrite Hl', Hr'.
  - by rewrite Hspec.
Qed.

Lemma index_by_key_spec evs m :
  Forall sound evs →
  ∃ m', index_by_key evs m = Done m'
    ∧ ∀ k, default [] (m' !! k) = default [] (m !! k) ++ with_key (Some k) evs.
Proof.
  intros Hs; revert m; induction Hs as [|ev evs [[e He] _] _ IH]; intros m; cbn [index_by_key].
  - exists m. split; [done|]. intros k. by rewrite app_nil_r.
  - rewrite He. cbn [deref obind].
    destruct (IH (<[conflict_key e := default [] (m !! conflict_key e) ++ [ev]]> m)) as (m' & Hm' & Hk).
    assert (key_of ev = Some (conflict_key e)) as Hkey by (unfold key_of; by rewrite He).
    exists m'. split; [done|]. intros k. rewrite Hk. unfold with_key. rewrite filter_cons, Hkey.
    destruct (decide (conflict_key e = k)) as [<-|Hne].
    + rewrite lookup_insert_eq, decide_True by done. simpl. by rewrite <-app_assoc.
    + rewrite lookup_insert_ne by done. rewrite decide_False by naive_solver. done.
Qed.

Lemma scan_remote_spec m locals rs :
  Forall sound locals → Forall sound rs →
  (∀ k, default [] (m !! k) = with_key (Some k) locals) →
  ∃ cs, scan_remote m rs = Done cs ∧ Forall filed cs ∧ pair_of <$> cs = conflicting locals rs.
Proof.
  intros Hl Hr Hm. induction Hr as [|r rs Hr _ (cs & Hcs & Hf & Hp)]; [by exists []|].
  pose proof Hr as [[e He] _]. cbn [scan_remote]. rewrite He. cbn [deref obind].
  destruct (conflicts_with_spec r (with_key (key_of r) locals) Hr) as (cs0 & Hcs0 & Hf0 & Hp0).
  { apply Forall_forall. intros l Hin. unfold with_key in Hin. apply list_elem_of_filter in Hin as [_ Hin].
    by eapply Forall_forall in Hl. }
  assert (match m !! conflict_key e with None => Done [] | Some locals => conflicts_with r locals end
          = Done cs0) as ->.
  { specialize (Hm (conflict_key e)).
    assert (key_of r = Some (conflict_key e)) as Hkey by (unfold key_of; by rewrite He).
    rewrite Hkey, <-Hm in Hcs0.
    destruct (m !! conflict_key e); [done|]. exact Hcs0. }
  cbn [obind]. rewrite Hcs. cbn [obind]. eexists. split; [done|]. split; [by apply Forall_app|].
  unfold conflicting in *. cbn [mbind list_bind]. by rewrite fmap_app, Hp0, Hp.
Qed.

Lemma elem_of_conflicting locals remotes l r :
  (l, r) ∈ conflicting locals remotes
  ↔ l ∈ locals ∧ r ∈ remotes ∧ key_of l = key_of r ∧ differ l r.
Proof.
  unfold conflicting, with_key.
  rewrite list_elem_of_bind. setoid_rewrite list_elem_of_bind. split.
  - intros (r' & (l' & Hin & Hl')  & Hr'). apply list_elem_of_filter in Hl' as [Hk Hl'].
    case_decide; [|by apply not_elem_of_nil in Hin].
    apply list_elem_of_singleton in Hin. by injection Hin as -> ->.
  - intros (Hin & Hrin & Hk & Hd). exists r. split; [|done]. exists l.
    rewrite decide_True by done. split; [by apply list_elem_of_singleton|].
    by apply list_elem_of_filter.
Qed.
End detect.

Lemma IntegerCursor_later {MR : MapRange} a b :
  version_Compare (IntegerCursor a) (Some (IntegerCursor b))
  = Done (if a <? b then -1 else if b <? a then 1 else 0).
Proof. cbn. unfold IntegerCursor_Compare. repeat case_match; zbool; try done; lia. Qed.

Lemma latest_from_max {MR : MapRange} m evs seqs :
  ev_version <$> evs = (λ s, Some (IntegerCursor s)) <$> seqs →
  ∃ r, latest_from (Some (IntegerCursor m)) evs = Done (Some (IntegerCursor r))
    ∧ m ≤ r ∧ (∀ s, s ∈ seqs → s ≤ r) ∧ (r = m ∨ r ∈ seqs).
Proof.
  revert m seqs; induction evs as [|ev evs IH]; intros m [|s seqs] Heq; try done.
  - exists m. split_and!; [done|lia|by intros ? []%not_elem_of_nil|by left].
  - rewrite !fmap_cons in Heq. injection Heq as Hv Heq. cbn [latest_from].
    rewrite Hv. cbn [deref obind]. rewrite IntegerCursor_later. cbn [obind].
    destruct (IH (if m <? s then s else m) seqs Heq) as (r & Hr & Hle & Hall & Hin).
    exists r. split.
    + rewrite <-Hr. destruct (Z.ltb_spec s m), (Z.ltb_spec m s); cbn; try done; lia.
    + destruct (Z.ltb_spec m s); split_and!; try lia; try set_solver;
        intros s' [->|Hs']%elem_of_cons; try lia; by apply Hall.
Qed.

(** ** Properties *)

(** C12: conflict detection reports, in order and without repetition of its own,
    exactly the pairs of a local and a remote event with the same
    aggregate-and-type key whose versions do not compare as 0: two integers that
    are not equal, two vector cursors with different texts, two vector clocks one
    of which is causally before the other. In particular concurrent clocks, which
    compare as 0, are not reported, and neither are versions of different kinds.
    Each record is filed under the remote event's type and aggregate, names the
    changed fields and carries both versions, their comparison and the origins
    and timestamps of the two events. *)
Theorem detectConflicts_exact {MR : MapRange} (locals remotes : list EventWithVersion)
    (Hl : Forall sound locals) (Hr : Forall sound remotes) :
  ∃ cs, detectConflicts locals remotes = Done cs
    ∧ pair_of <$> cs = conflicting locals remotes
    ∧ Forall filed cs
    ∧ (∀ l r, (l, r) ∈ pair_of <$> cs
         ↔ l ∈ locals ∧ r ∈ remotes ∧ key_of l = key_of r ∧ differ l r)
    ∧ (∀ l r vl vr, l ∈ locals → r ∈ remotes → key_of l = key_of r →
         ev_version l = Some vl → ev_version r = Some vr →
         (l, r) ∈ pair_of <$> cs ↔ told_apart vl vr).
Proof.
  unfold detectConflicts. destruct (index_by_key_spec locals ∅ Hl) as (m & -> & Hm). cbn [obind].
  destruct (scan_remote_spec m locals remotes Hl Hr) as (cs & Hcs & Hf & Hp).
  { intros k. by rewrite Hm, lookup_empty. }
  exists cs. split_and!; [done|done|done| |].
  - intros l r. rewrite Hp. apply elem_of_conflicting.
  - intros l r vl vr Hin Hrin Hk Hvl Hvr. rewrite Hp, elem_of_conflicting.
    pose proof (proj1 (Forall_forall _ _) Hl l Hin) as [_ (v & Hv & Hsl)].
    pose proof (proj1 (Forall_forall _ _) Hr r Hrin) as [_ (v' & Hv' & Hsr)].
    rewrite Hvl in Hv. rewrite Hvr in Hv'. injection Hv as <-. injection Hv' as <-.
    rewrite (differ_told_apart l r vl vr) by done. tauto.
Qed.

(** Remark: the key joins aggregate and type with a colon, so events of different
    aggregates and types can share it and are then reported as conflicting. *)
Theorem conflict_key_collides {MR : MapRange} :
  ∃ l r le re, ev_event l = Some le ∧ ev_event r = Some re
    ∧ AggregateID le ≠ AggregateID re ∧ Type_ le ≠ Type_ re
    ∧ ∃ c, detectConflicts [l] [r] = Done [c] ∧ pair_of c = (l, r).
Proof.
  exists (mkEWV (Some (mkEvent "e1" "created" "user:1" AnyNil None)) (Some (IntegerCursor 1))).
  exists (mkEWV (Some (mkEvent "e2" "1:created" "user" AnyNil None)) (Some (IntegerCursor 2))).
  eexists _, _. split; [reflexivity|]. split; [reflexivity|]. split; [done|]. split; [done|].
  eexists. split; reflexivity.
Qed.

(** Remark: the latest version of a non-empty batch of integer versions is its
    maximum, and it is the version of one of the events. *)
Theorem findLatestVersion_max {MR : MapRange} (evs : list EventWithVersion) (seqs : list Z)
    (Hne : evs ≠ []) (Hv : ev_version <$> evs = (λ s, Some (IntegerCursor s)) <$> seqs) :
  ∃ r, findLatestVersion evs = Done (Some (IntegerCursor r)) ∧ r ∈ seqs ∧ ∀ s, s ∈ seqs → s ≤ r.
Proof.
  destruct evs as [|ev evs]; [done|]. destruct seqs as [|s seqs]; [done|].
  rewrite !fmap_cons in Hv. injection Hv as Hev Hv. cbn [findLatestVersion]. rewrite Hev.
  destruct (latest_from_max s evs seqs Hv) as (r & -> & Hle & Hall & Hin).
  exists r. split; [done|]. split; [set_solver|]. intros s' [->|Hs']%elem_of_cons; [lia|by apply Hall].
Qed.

(** ** Concrete instances *)
Definition demo_local : list EventWithVersion :=
  [mkEWV (Some (mkEvent "l1" "Updated" "order-1" (AnyString "a") None)) (Some (IntegerCursor 3));
   mkEWV (Some (mkEvent "l2" "Updated" "order-2" AnyNil None)) (Some (IntegerCursor 4))].
Definition demo_remote : list EventWithVersion :=
  [mkEWV (Some (mkEvent "r1" "Updated" "order-1" (AnyString "b") None)) (Some (IntegerCursor 5));
   mkEWV (Some (mkEvent "r2" "Updated" "order-2" AnyNil None)) (Some (IntegerCursor 4))].
Lemma demo_sound : Forall sound demo_local ∧ Forall sound demo_remote.
Proof.
  split; repeat (apply Forall_cons; split); try apply Forall_nil_2;
    (split; [by eexists|eexists; split; [reflexivity|done]]).
Qed.

Lemma detectConflicts_exact_witness :
  ∃ cs, detectConflicts (MR := canonical_range) demo_local demo_remote = Done cs
    ∧ pair_of <$> cs = conflicting (MR := canonical_range) demo_local demo_remote
    ∧ Forall (filed (MR := canonical_range)) cs
    ∧ (∀ l r, (l, r) ∈ pair_of <$> cs
         ↔ l ∈ demo_local ∧ r ∈ demo_remote ∧ key_of l = key_of r ∧ differ (MR := canonical_range) l r)
    ∧ (∀ l r vl vr, l ∈ demo_local → r ∈ demo_remote → key_of l = key_of r →
         ev_version l = Some vl → ev_version r = Some vr →
         (l, r) ∈ pair_of <$> cs ↔ told_apart vl vr).
Proof.
  destruct demo_sound as [Hl Hr].
  apply (detectConflicts_exact (MR := canonical_range) demo_local demo_remote Hl Hr).
Defined.

Lemma findLatestVersion_max_witness :
  ∃ r, findLatestVersion (MR := canonical_range) demo_remote = Done (Some (IntegerCursor r))
    ∧ r ∈ [5; 4] ∧ ∀ s, s ∈ [5; 4] → s ≤ r.
Proof. apply (findLatestVersion_max (MR := canonical_range) demo_remote [5; 4]); [discriminate|reflexivity]. Defined.
