(* ===== verification/Manager.v ===== *)
(** * The sync manager (src/synckit: manager.go, sync.go)

    Push, pull and full synchronisation, auto-sync, subscriptions and closing,
    over any store and transport that implement the interfaces.  A small state
    monad threads the world (store, transport, manager, recorded effects); the
    environment supplies what the run cannot know: the clock, the polls of
    every context that is handed out, transition identifiers and the messages
    the projection runners send.  Logging is left out: it has no effect here. *)
From S2P Require Import Prelude Types Json Errors Versions StateMachine SyncState Resolvers.
From S2P Require Import Interfaces Detect.
From S2P Require MemStore.
From stdpp Require Import options.

Record RetryConfig := mkRetry { MaxAttempts : Z; InitialDelay : Z; MaxDelay : Z }.

(** The metrics collector is never nil in a constructed manager. *)
Record SyncOptions := mkSyncOptions {
  PushOnly : bool;
  PullOnly : bool;
  ConflictResolver : option Resolver;
  EventFilter : option (option Event → outcome bool);
  BatchSize : Z;
  SyncInterval : Z;
  Retry : option RetryConfig;
  EnableValidation : bool;
  Timeout : Z;
  EnableCompression : bool
}.

Record SyncResult := mkResult {
  EventsPushed : nat;
  EventsPulled : nat;
  ConflictsResolved : nat;
  res_Errors : list error;
  StartTime : Z;
  res_Duration : Z;
  LocalVersion : option Version;
  RemoteVersion : option Version
}.
Definition new_result (start : Z) : SyncResult := mkResult 0 0 0 [] start 0 None None.
Definition add_error (e : error) (r : SyncResult) : SyncResult :=
  mkResult (EventsPushed r) (EventsPulled r) (ConflictsResolved r) (res_Errors r ++ [e])
    (StartTime r) (res_Duration r) (LocalVersion r) (RemoteVersion r).
Definition set_pushed (n : nat) (r : SyncResult) : SyncResult :=
  mkResult n (EventsPulled r) (ConflictsResolved r) (res_Errors r) (StartTime r) (res_Duration r)
    (LocalVersion r) (RemoteVersion r).
Definition set_pulled (n conflicts : nat) (remote : option Version) (r : SyncResult) : SyncResult :=
  mkResult (EventsPushed r) n conflicts (res_Errors r) (StartTime r) (res_Duration r)
    (LocalVersion r) remote.
Definition set_local (v : option Version) (r : SyncResult) : SyncResult :=
  mkResult (EventsPushed r) (EventsPulled r) (ConflictsResolved r) (res_Errors r) (StartTime r)
    (res_Duration r) v (RemoteVersion r).
Definition set_duration (d : Z) (r : SyncResult) : SyncResult :=
  mkResult (EventsPushed r) (EventsPulled r) (ConflictsResolved r) (res_Errors r) (StartTime r) d
    (LocalVersion r) (RemoteVersion r).

(** The projection runners are counted; [ProjectionRunner] is an interface, so
    what [ApplySince] returns, whether a worker slot came free in time and the
    order of the answers are the environment's. *)
Record ProjectionConfig := mkProjection {
  Runners : nat; RunOnSync : bool; MaxWorkers : Z; ProjTimeout : Z
}.
Inductive ProjMsg :=
  | ProjAnswer (runner : nat) (slot : bool) (applied : option error)
  | ProjTimedOut.

Inductive MetricCall :=
  | RecordSyncDuration (op : string)
  | RecordSyncEvents (pushed pulled : nat)
  | RecordSyncErrors (op reason : string)
  | RecordConflicts (n : nat).

(** [autoSyncCancel] names the auto-sync goroutine it would cancel. *)
Record syncManager := mkManager {
  options : SyncOptions;
  stateMachine : option (machine SyncState);
  autoSyncCancel : option nat;
  autoSyncInterval : Z;
  subscribers : list nat;
  closed : bool;
  projectionConfig : option ProjectionConfig
}.

(** An auto-sync goroutine: cancelled or not, and still looping or not. *)
Record AutoSync := mkAuto { cancelled : bool; looping : bool }.

Record Env := mkEnv {
  e_ctx : nat → CtxView;
  e_clock : nat → Z;
  e_tid : nat → string;
  e_projection : nat → ProjMsg
}.

Record World (St T : Type) := mkWorld {
  w_store : St;
  w_transport : T;
  w_mgr : syncManager;
  w_autos : list AutoSync;
  w_tick : nat;
  w_metrics : list MetricCall;
  w_notified : list (nat * SyncResult)
}.
Arguments mkWorld {St T}.
Arguments w_store {St T}.
Arguments w_transport {St T}.
Arguments w_mgr {St T}.
Arguments w_autos {St T}.
Arguments w_tick {St T}.
Arguments w_metrics {St T}.
Arguments w_notified {St T}.

(** ** The monad *)
Section monad.
Context {St T : Type}.

Definition M (A : Type) : Type := Env → World St T → outcome (World St T * A).
Definition mret {A} (a : A) : M A := λ _ w, Done (w, a).
Definition mbind {A B} (m : M A) (f : A → M B) : M B := λ env w,
  match m env w with Done (w', a) => f a env w' | Panic why => Panic why end.
Definition lift {A} (o : outcome A) : M A := λ _ w,
  match o with Done a => Done (w, a) | Panic why => Panic why end.

Definition tick (w : World St T) : World St T :=
  mkWorld (w_store w) (w_transport w) (w_mgr w) (w_autos w) (S (w_tick w)) (w_metrics w)
    (w_notified w).
Definition put_store (s : St) (w : World St T) : World St T :=
  mkWorld s (w_transport w) (w_mgr w) (w_autos w) (w_tick w) (w_metrics w) (w_notified w).
Definition put_transport (t : T) (w : World St T) : World St T :=
  mkWorld (w_store w) t (w_mgr w) (w_autos w) (w_tick w) (w_metrics w) (w_notified w).
Definition put_mgr (m : syncManager) (w : World St T) : World St T :=
  mkWorld (w_store w) (w_transport w) m (w_autos w) (w_tick w) (w_metrics w) (w_notified w).
Definition put_autos (l : list AutoSync) (w : World St T) : World St T :=
  mkWorld (w_store w) (w_transport w) (w_mgr w) l (w_tick w) (w_metrics w) (w_notified w).

Definition now : M Z := λ env w, Done (tick w, e_clock env (w_tick w)).
(** A fresh view of a context. *)
Definition ctx : M CtxView := λ env w, Done (tick w, e_ctx env (w_tick w)).
(** [select { case <-ctx.Done(): ...; default: }]. *)
Definition poll : M (option CtxErr) := λ env w, Done (tick w, e_ctx env (w_tick w) 0%nat).
Definition get_mgr : M syncManager := λ _ w, Done (w, w_mgr w).
Definition metric (c : MetricCall) : M () := λ _ w,
  Done (mkWorld (w_store w) (w_transport w) (w_mgr w) (w_autos w) (w_tick w) (w_metrics w ++ [c])
          (w_notified w), ()).
Definition set_machine (sm : option (machine SyncState)) (m : syncManager) : syncManager :=
  mkManager (options m) sm (autoSyncCancel m) (autoSyncInterval m) (subscribers m) (closed m)
    (projectionConfig m).

(** Calls of the store and the transport under a context. *)
Definition on_store {A} (f : CtxView → St → outcome (St * A)) : M A := λ env w,
  match f (e_ctx env (w_tick w)) (w_store w) with
  | Done (s, a) => Done (put_store s (tick w), a)
  | Panic why => Panic why
  end.
Definition ask_store {A} (f : CtxView → St → outcome A) : M A := λ env w,
  match f (e_ctx env (w_tick w)) (w_store w) with
  | Done a => Done (tick w, a)
  | Panic why => Panic why
  end.
Definition on_transport {A} (f : CtxView → T → outcome (T * A)) : M A := λ env w,
  match f (e_ctx env (w_tick w)) (w_transport w) with
  | Done (t, a) => Done (put_transport t (tick w), a)
  | Panic why => Panic why
  end.
Definition ask_transport {A} (f : CtxView → T → outcome A) : M A := λ env w,
  match f (e_ctx env (w_tick w)) (w_transport w) with
  | Done a => Done (tick w, a)
  | Panic why => Panic why
  end.

(** [sm.stateMachine.TransitionWithContext], skipped without a machine. *)
Definition transition (to : SyncState) (md : gmap string any) : M (option error) := λ env w,
  match stateMachine (w_mgr w) with
  | None => Done (w, None)
  | Some sm =>
      let '(sm', err) := TransitionWithContext (e_clock env (w_tick w)) (e_tid env (w_tick w)) to
                           (Some md) sm in
      Done (put_mgr (set_machine (Some sm') (w_mgr w)) (tick w), err)
  end.
End monad.
Arguments M : clear implicits.

Notation "'let!' x := m 'in' k" := (mbind m (λ x, k))
  (at level 10, x pattern, m at level 100, k at level 200) : go_scope.
Notation "m ;; k" := (mbind m (λ _, k)) (at level 100, right associativity) : go_scope.

(** ** Operations *)
Section operations.
Context {St T : Type} {ES : EventStore St} {TR : Transport T} {MR : MapRange} {TT : TimeText}.
Local Notation M := (M St T).

Definition sync_err (op component : string) (e : error) : error := Errors.NewWithComponent op component e.
Definition err_manager_closed (op : string) : error := Errors.New op (ErrMsg "sync manager is closed").

(** The error metric of a failed transport call. *)
Definition transport_failure (op : string) (e : error) : M () :=
  metric (RecordSyncErrors op
    (if errors_Is e Canceled then "context_canceled"
     else if errors_Is e DeadlineExceeded then "timeout"
     else op +:+ "_failure")).

Definition apply_filter (evs : list EventWithVersion) : M (list EventWithVersion) :=
  let! m := get_mgr in
  match EventFilter (options m) with
  | None => mret evs
  | Some f => lift (filterM (λ ev, f (ev_event ev)) evs)
  end.

(** [localEvents[i:end]] for [i] = 0, [n], 2[n], ...: one slice per round. *)
Fixpoint batches (fuel : nat) (n : nat) (evs : list EventWithVersion)
    : list (list EventWithVersion) :=
  match fuel with
  | O => []
  | S fuel => match evs with [] => [] | _ => take n evs :: batches fuel n (drop n evs) end
  end.

Fixpoint push_batches (bs : list (list EventWithVersion)) (pushed : nat) : M (nat * option error) :=
  match bs with
  | [] => mret (pushed, None)
  | b :: rest =>
      let! done := poll in
      match done with
      | Some e => mret (pushed, Some (ErrCtx e))
      | None =>
          let! err := on_transport (λ ctx, tr_Push ctx b) in
          match err with
          | Some e => mret (pushed, Some (sync_err OpPush "transport" e))
          | None => push_batches rest (pushed + length b)
          end
      end
  end.

(** [push] before its deferred metrics. *)
Definition push_body (result : SyncResult) : M (SyncResult * option error) :=
  let! v := ask_transport (λ ctx, tr_GetLatestVersion ctx) in
  match v with
  | Err e => transport_failure "push" e ;; mret (result, Some (sync_err OpPush "transport" e))
  | Ok remoteVersion =>
      let! loaded := ask_store (λ ctx, es_Load ctx remoteVersion []) in
      match loaded with
      | Err e => mret (result, Some (sync_err OpLoad "store" e))
      | Ok [] => mret (result, None)
      | Ok localEvents =>
          let! localEvents := apply_filter localEvents in
          let! m := get_mgr in
          let batchSize := if BatchSize (options m) <=? 0 then 100 else BatchSize (options m) in
          let! (n, err) := push_batches
                             (batches (length localEvents) (Z.to_nat batchSize) localEvents) 0 in
          mret (set_pushed n result, err)
      end
  end.
Definition push : M (SyncResult * option error) :=
  let! start := now in
  let! started := now in
  let! (result, err) := push_body (new_result started) in
  let! t := now in
  let result := set_duration (time_sub t started) result in
  metric (RecordSyncDuration "push") ;;
  (if Nat.ltb 0 (EventsPushed result) then metric (RecordSyncEvents (EventsPushed result) 0)
   else mret ()) ;;
  mret (result, err).

Fixpoint store_events (evs : list EventWithVersion) (stored : nat) : M (nat * option error) :=
  match evs with
  | [] => mret (stored, None)
  | ev :: rest =>
      let! done := poll in
      match done with
      | Some e => mret (stored, Some (ErrCtx e))
      | None =>
          let! err := on_store (λ ctx, es_Store ctx (ev_event ev) (ev_version ev)) in
          match err with
          | Some e => mret (stored, Some (sync_err OpStore "store" e))
          | None => store_events rest (S stored)
          end
      end
  end.

Fixpoint resolve_all (r : Resolver) (cs : list Conflict) (acc : list EventWithVersion)
    : M (list EventWithVersion + error) :=
  match cs with
  | [] => mret (inl acc)
  | c :: rest =>
      let! view := ctx in
      let! (res, err) := lift (r view c) in
      match err with
      | Some e =>
          (if errors_Is e Canceled
           then metric (RecordSyncErrors "conflict_resolution" "context_canceled") else mret ()) ;;
          mret (inr (sync_err OpConflictResolve "resolver" e))
      | None => resolve_all r rest (acc ++ ResolvedEvents res)
      end
  end.

(** What the conflict phase of a pull decides: the events to store and the
    number of conflicts resolved, or an early return. *)
Inductive phase :=
  | Continue (evs : list EventWithVersion) (resolved : nat)
  | Return (result : SyncResult) (err : option error).

Definition resolve_conflicts (resolver : Resolver) (conflicts : list Conflict)
    (result : SyncResult) : M phase :=
  let! refused := transition SyncResolvingConflicts
    {["operation" := AnyString "conflict_resolution";
      "conflict_count" := AnyInt (Z.of_nat (length conflicts))]} in
  match refused with
  | Some e => mret (Return (add_error (sync_err OpSync "state_machine" e) result) None)
  | None =>
      let! done := poll in
      match done with
      | Some e =>
          metric (RecordSyncErrors "conflict_resolution" "context_canceled") ;;
          mret (Return result (Some (sync_err OpConflictResolve "resolver" (ErrCtx e))))
      | None =>
          let! r := resolve_all resolver conflicts [] in
          match r with
          | inr e => mret (Return result (Some e))
          | inl resolvedEvents => mret (Continue resolvedEvents (length conflicts))
          end
      end
  end.

Definition conflict_phase (localVersion : option Version) (remoteEvents : list EventWithVersion)
    (result : SyncResult) : M phase :=
  let! m := get_mgr in
  match ConflictResolver (options m) with
  | None => mret (Continue remoteEvents 0)
  | Some resolver =>
      let! loaded := ask_store (λ ctx, es_Load ctx localVersion []) in
      match loaded with
      | Err e =>
          (if errors_Is e DeadlineExceeded
           then metric (RecordSyncErrors "conflict_resolution" "db_timeout") else mret ()) ;;
          mret (Return result (Some (sync_err OpLoad "store" e)))
      | Ok [] => mret (Continue remoteEvents 0)
      | Ok localEvents =>
          let! conflicts := lift (detectConflicts localEvents remoteEvents) in
          match conflicts with
          | [] => mret (Continue remoteEvents 0)
          | _ => resolve_conflicts resolver conflicts result
          end
      end
  end.

Definition store_phase (remoteEvents : list EventWithVersion) (resolved : nat) (result : SyncResult)
    : M (SyncResult * option error) :=
  let! (n, err) := store_events remoteEvents 0 in
  match err with
  | Some e => mret (set_pulled n resolved None result, Some e)
  | None =>
      let! latest := lift (findLatestVersion remoteEvents) in
      mret (set_pulled n resolved latest result, None)
  end.

(** [pull] before its deferred metrics. *)
Definition pull_body (result : SyncResult) : M (SyncResult * option error) :=
  let! v := ask_store (λ ctx, es_LatestVersion ctx) in
  match v with
  | Err e => mret (result, Some (sync_err OpLoad "store" e))
  | Ok localVersion =>
      let! pulled := ask_transport (λ ctx, tr_Pull ctx localVersion) in
      match pulled with
      | Err e => transport_failure "pull" e ;; mret (result, Some (sync_err OpPull "transport" e))
      | Ok [] => mret (result, None)
      | Ok remoteEvents =>
          let! remoteEvents := apply_filter remoteEvents in
          let! p := conflict_phase localVersion remoteEvents result in
          match p with
          | Return result err => mret (result, err)
          | Continue remoteEvents resolved => store_phase remoteEvents resolved result
          end
      end
  end.
Definition pull : M (SyncResult * option error) :=
  let! start := now in
  let! started := now in
  let! (result, err) := pull_body (new_result started) in
  let! t := now in
  let result := set_duration (time_sub t started) result in
  metric (RecordSyncDuration "pull") ;;
  (if Nat.ltb 0 (EventsPulled result) then metric (RecordSyncEvents 0 (EventsPulled result))
   else mret ()) ;;
  (if Nat.ltb 0 (ConflictsResolved result) then metric (RecordConflicts (ConflictsResolved result))
   else mret ()) ;;
  mret (result, err).

Definition Push : M (option SyncResult * option error) :=
  let! m := get_mgr in
  if closed m then mret (None, Some (err_manager_closed OpPush))
  else let! (r, err) := push in mret (Some r, err).
Definition Pull : M (option SyncResult * option error) :=
  let! m := get_mgr in
  if closed m then mret (None, Some (err_manager_closed OpPull))
  else let! (r, err) := pull in mret (Some r, err).

(** ** Projections after a sync *)

(** The goroutine of one runner: what it sends, if not to [completedChan]. *)
Definition projection_goroutine (i : nat) (slot : bool) (applied : option error) : option error :=
  let runner := "projection runner " +:+ format_int (Z.of_nat i) in
  if slot then ErrWrap (runner +:+ " failed") <$> applied
  else Some (ErrMsg (runner +:+ " timed out waiting for worker slot")).

(** The wait loop: one message per round until all have answered or the
    deadline passes. *)
Fixpoint wait_projections (timeout : Z) (remaining : nat) (errs : list error) : M (list error) :=
  match remaining with
  | O => mret errs
  | S rest => λ env w,
      match e_projection env (w_tick w) with
      | ProjAnswer i slot applied =>
          wait_projections timeout rest
            (match projection_goroutine i slot applied with
             | None => errs
             | Some err => errs ++ [err]
             end) env (tick w)
      | ProjTimedOut =>
          Done (tick w, errs ++ [ErrMsg ("projection execution timed out with "
                  +:+ format_int (Z.of_nat remaining) +:+ " runners still pending after "
                  +:+ duration_string timeout)])
      end
  end.
Definition runProjectionsAfterSync : M (option error) :=
  let! m := get_mgr in
  match projectionConfig m with
  | None => mret None
  | Some cfg =>
      if negb (RunOnSync cfg) || Nat.eqb (Runners cfg) 0 then mret None
      else
        let! errs := wait_projections (ProjTimeout cfg) (Runners cfg) [] in
        mret (match errs with
              | [] => None
              | _ => Some (ErrMsg ("projection execution failed: "
                                   +:+ join "; " (map error_string errs)))
              end)
  end.

(** ** Full synchronisation *)

Definition notifySubscribers (result : SyncResult) : M () := λ env w,
  Done (mkWorld (w_store w) (w_transport w) (w_mgr w) (w_autos w) (w_tick w) (w_metrics w)
          (w_notified w ++ ((λ h, (h, result)) <$> subscribers (w_mgr w))), ()).

(** The pull phase; the flag tells whether [Sync] returns at once. *)
Definition sync_pull (result : SyncResult) : M (SyncResult * bool) :=
  let! refused := transition SyncPulling
    {["operation" := AnyString "pull"; "push_only" := AnyBool false]} in
  match refused with
  | Some e => mret (add_error (sync_err OpSync "state_machine" e) result, true)
  | None =>
      let! (r, err) := pull in
      mret (match err with
            | Some e => add_error (sync_err OpPull "transport" e) result
            | None => set_pulled (EventsPulled r) (ConflictsResolved r) (RemoteVersion r) result
            end, false)
  end.
Definition sync_push (result : SyncResult) : M (SyncResult * bool) :=
  let! refused := transition SyncPushing
    {["operation" := AnyString "push"; "pull_only" := AnyBool false]} in
  match refused with
  | Some e => mret (add_error (sync_err OpSync "state_machine" e) result, true)
  | None =>
      let! (r, err) := push in
      mret (match err with
            | Some e => add_error (sync_err OpPush "transport" e) result
            | None => set_pushed (EventsPushed r) result
            end, false)
  end.
Definition sync_finish (result : SyncResult) : M SyncResult :=
  let! result :=
    match res_Errors result with
    | [] =>
        let! err := runProjectionsAfterSync in
        mret (match err with
              | Some e => add_error (sync_err OpSync "projections" e) result
              | None => result
              end)
    | _ => mret result
    end in
  let! v := ask_store (λ ctx, es_LatestVersion ctx) in
  mret (match v with
        | Err e => add_error (sync_err OpLoad "store" e) result
        | Ok v => set_local v result
        end).

(** The body of [Sync] after initialisation. *)
Definition sync_body (result : SyncResult) : M SyncResult :=
  let! m := get_mgr in
  let! (result, stop) := if PushOnly (options m) then mret (result, false) else sync_pull result in
  if stop : bool then mret result
  else
    let! (result, stop) := if PullOnly (options m) then mret (result, false) else sync_push result in
    if stop : bool then mret result else sync_finish result.

(** The deferred function of [Sync]. *)
Definition sync_defer (result : SyncResult) : M SyncResult :=
  let! t := now in
  let result := set_duration (time_sub t (StartTime result)) result in
  let failed := negb (bool_decide (res_Errors result = [])) in
  let finalState := if failed then SyncFailed else SyncCompleted in
  let md : gmap string any :=
    {["operation" := AnyString "full_sync"; "duration_ms" := AnyInt64 (Z.quot (res_Duration result) 1000000);
      "events_pushed" := AnyInt (Z.of_nat (EventsPushed result));
      "events_pulled" := AnyInt (Z.of_nat (EventsPulled result));
      "conflicts_resolved" := AnyInt (Z.of_nat (ConflictsResolved result))]} in
  let md := if failed then
              <["errors" := AnyErrors (res_Errors result)]>
                (<["error_count" := AnyInt (Z.of_nat (length (res_Errors result)))]> md)
            else md in
  transition finalState md ;;
  transition SyncIdle
    {["operation_completed" := AnyBool true; "final_state" := AnyString (SyncState_String finalState)]} ;;
  notifySubscribers result ;;
  metric (RecordSyncDuration "full_sync") ;;
  (if failed then metric (RecordSyncErrors "full_sync" "sync_failure")
   else metric (RecordSyncEvents (EventsPushed result) (EventsPulled result)) ;;
        (if Nat.ltb 0 (ConflictsResolved result) then metric (RecordConflicts (ConflictsResolved result))
         else mret ())) ;;
  mret result.

Definition Sync : M (option SyncResult * option error) :=
  let! start := now in
  let! m := get_mgr in
  if closed m then mret (None, Some (err_manager_closed OpSync))
  else
    let current := Current <$> stateMachine m in
    match current with
    | Some s =>
        if negb (CanAutoSync s) then
          mret (None, Some (Errors.New OpSync (ErrMsg ("sync operation already in progress: "
                                                 +:+ SyncState_String s))))
        else
          let! refused := transition SyncInitializing
            {["operation" := AnyString "full_sync"; "started_at" := AnyString (rfc3339 start)]} in
          match refused with
          | Some e => mret (None, Some (sync_err OpSync "state_machine" e))
          | None =>
              let! t := now in
              let! result := sync_body (new_result t) in
              let! result := sync_defer result in
              mret (Some result, None)
          end
    | None =>
        let! t := now in
        let! result := sync_body (new_result t) in
        let! result := sync_defer result in
        mret (Some result, None)
    end.

(** ** Retries *)

(** [operation] is run again while its error is retryable; the delay only feeds
    the timer, which either fires or loses to the context. *)
Fixpoint retry_loop (fuel : nat) (operation : M (option error)) (err : error) : M (option error) :=
  match fuel with
  | O => mret (Some err)
  | S fuel =>
      let! done := poll in
      match done with
      | Some e => mret (Some (ErrCtx e))
      | None =>
          let! r := operation in
          match r with
          | None => mret None
          | Some err => if IsRetryable err then retry_loop fuel operation err else mret (Some err)
          end
      end
  end.
Definition syncWithRetry (operation : M (option error)) : M (option error) :=
  let! m := get_mgr in
  match Retry (options m) with
  | None => operation
  | Some cfg =>
      let! r := operation in
      match r with
      | None => mret None
      | Some err =>
          if IsRetryable err then retry_loop (Z.to_nat (MaxAttempts cfg - 1)) operation err
          else mret (Some err)
      end
  end.

(** ** Auto-sync, subscriptions, closing *)

Definition set_auto (c : option nat) (interval : Z) (m : syncManager) : syncManager :=
  mkManager (options m) (stateMachine m) c interval (subscribers m) (closed m) (projectionConfig m).

Definition StartAutoSync : M (option error) :=
  let! done := poll in
  match done with
  | Some e => mret (Some (ErrCtx e))
  | None => λ env w,
      let m := w_mgr w in
      match autoSyncCancel m with
      | Some _ => Done (w, None)
      | None =>
          if closed m then Done (w, Some (err_manager_closed OpSync))
          else if SyncInterval (options m) <=? 0 then
            Done (w, Some (Errors.New OpSync (ErrMsg "sync interval must be positive")))
          else
            Done (put_autos (w_autos w ++ [mkAuto false true])
                    (put_mgr (set_auto (Some (length (w_autos w))) (SyncInterval (options m)) m) w),
                  None)
      end
  end.

Definition cancel_auto (g : nat) (w : World St T) : World St T :=
  put_autos (alter (λ a, mkAuto true (looping a)) g (w_autos w)) w.

Definition StopAutoSync : M (option error) := λ env w,
  match autoSyncCancel (w_mgr w) with
  | None => Done (w, None)
  | Some g => Done (put_mgr (set_auto None 0 (w_mgr w)) (cancel_auto g w), None)
  end.

(** Whether the transport lets a sync run. *)
Definition isTransportHealthyForSync : M bool := λ env w,
  Done (w, match tr_IsHealthy (w_transport w) with
           | Some h => h
           | None => match tr_CanSendReceive (w_transport w) with
                     | Some (s, r) => s && r
                     | None => true
                     end
           end).

(** One round of goroutine [g], which selects a tick ([ticked], whether or not its
    context is done as well: then [env] lets the context of the sync be ended) or
    else the end of its context, because it was cancelled or because the caller's
    context was; while there is neither it waits. *)
Definition auto_round (g : nat) (parent_done ticked : bool) : M () := λ env w,
  match w_autos w !! g with
  | None => Done (w, ())
  | Some a =>
      if negb (looping a) then Done (w, ())
      else if negb ticked then
        if cancelled a || parent_done then
          Done (put_autos (alter (λ a, mkAuto (cancelled a) false) g (w_autos w)) w, ())
        else Done (w, ())
      else
        (let! m := get_mgr in
         if match stateMachine m with Some sm => negb (CanAutoSync (Current sm)) | None => false end
         then mret ()
         else
           let! healthy := isTransportHealthyForSync in
           if negb healthy then mret ()
           else
             let! (r, err) := Sync in
             match err with
             | None => mret ()
             | Some e => let! t := now in notifySubscribers (add_error e (new_result t))
             end) env w
  end.

Definition Subscribe (handler : nat) : M (option error) := λ env w,
  let m := w_mgr w in
  if closed m then Done (w, Some (err_manager_closed OpSync))
  else Done (put_mgr (mkManager (options m) (stateMachine m) (autoSyncCancel m) (autoSyncInterval m)
                        (subscribers m ++ [handler]) (closed m) (projectionConfig m)) w, None).

Definition set_closed (m : syncManager) : syncManager :=
  mkManager (options m) (stateMachine m) (autoSyncCancel m) (autoSyncInterval m) (subscribers m)
    true (projectionConfig m).
Definition Close : M (option error) := λ env w,
  if closed (w_mgr w) then Done (w, None)
  else
    let w := put_mgr (set_closed (w_mgr w)) w in
    (let! _ := StopAutoSync in
     let! terr := on_transport (λ _, tr_Close) in
     let! serr := on_store (λ _, es_Close) in
     let errs := (match terr with Some e => [sync_err OpClose "transport" e] | None => [] end)
                 ++ (match serr with Some e => [sync_err OpClose "store" e] | None => [] end) in
     mret (match errs with
           | [] => None
           | _ => Some (Errors.New OpClose (ErrMsg ("multiple close errors: " +:+ sprintf_v (AnyErrors errs))))
           end)) env w.
End operations.

(** ** Properties that hold for every store and transport *)

(** An operation that counts its runs in the store slot and answers in turn. *)
Definition counted {T} (answers : nat → option error) : M nat T (option error) := λ _ w,
  Done (put_store (S (w_store w)) w, answers (w_store w)).

Lemma retry_loop_bound {T} answers fuel err env (w : World nat T) :
  ∃ w' r, retry_loop fuel (counted answers) err env w = Done (w', r)
    ∧ (w_store w ≤ w_store w' ≤ w_store w + fuel)%nat
    ∧ ((∃ c, r = Some (ErrCtx c))
       ∨ (w_store w' = w_store w ∧ r = Some err)
       ∨ (w_store w < w_store w' ∧ r = answers (w_store w' - 1))%nat)
    ∧ (∀ n, w_store w ≤ n → S n < w_store w' →
         ∃ e, answers n = Some e ∧ IsRetryable e = true)%nat.
Proof.
  revert err w; induction fuel as [|fuel IH]; intros err w; cbn [retry_loop].
  { exists w, (Some err). split_and!; [done|lia|lia|auto|lia]. }
  unfold mbind at 1. unfold poll at 1. destruct (e_ctx env (w_tick w) 0%nat) as [c|].
  { exists (tick w), (Some (ErrCtx c)). cbn. split_and!; [done|lia|lia|eauto|lia]. }
  unfold mbind, counted. cbn [w_store tick put_store].
  set (w1 := put_store _ _). destruct (answers (w_store w)) as [e|] eqn:Ha.
  - destruct (IsRetryable e) eqn:He.
    + destruct (IH e w1) as (w' & r & Hrun & Hb & Hr & Hall). cbn in Hb, Hr, Hall.
      exists w', r. split; [exact Hrun|]. split; [lia|]. split.
      * destruct Hr as [Hc|[[Hw ->]|[Hlt ->]]]; [by left| |].
        -- right; right. split; [lia|]. rewrite Hw, <-Ha. f_equal. lia.
        -- right; right. split; [lia|done].
      * intros n Hn Hlt. destruct (decide (n = w_store w)) as [->|]; [by exists e|]. apply Hall; lia.
    + exists w1, (Some e). cbn. split_and!; [done|lia|lia| |lia].
      right; right. split; [lia|]. rewrite <-Ha. f_equal. lia.
  - exists w1, None. cbn. split_and!; [done|lia|lia| |lia].
    right; right. split; [lia|]. rewrite <-Ha. f_equal. lia.
Qed.

(** C15: retrying runs the operation at least once and at most [MaxAttempts]
    times, goes on only while the error is retryable, and returns the answer of
    the last run or the context's error. *)
Theorem syncWithRetry_bounded {T} (answers : nat → option error) (cfg : RetryConfig) (env : Env)
    (w : World nat T) (Hcfg : Retry (options (w_mgr w)) = Some cfg) (Hfresh : w_store w = 0%nat)
    (Hmax : 1 ≤ MaxAttempts cfg) :
  ∃ w' r, syncWithRetry (counted answers) env w = Done (w', r)
    ∧ 1 ≤ Z.of_nat (w_store w') ≤ MaxAttempts cfg
    ∧ (r = answers (w_store w' - 1)%nat ∨ ∃ c, r = Some (ErrCtx c))
    ∧ ∀ n, (S n < w_store w')%nat → ∃ e, answers n = Some e ∧ IsRetryable e = true.
Proof.
  unfold syncWithRetry, mbind, get_mgr. rewrite Hcfg. unfold counted at 1. rewrite Hfresh.
  set (w1 := put_store 1%nat w). destruct (answers 0%nat) as [e|] eqn:Ha.
  2: { exists w1, None. cbn. split_and!; [done|lia|lia|by left|lia]. }
  destruct (IsRetryable e) eqn:He.
  2: { exists w1, (Some e). cbn. split_and!; [done|lia|lia|by left|lia]. }
  destruct (retry_loop_bound answers (Z.to_nat (MaxAttempts cfg - 1)) e env w1)
    as (w' & r & Hrun & Hb & Hr & Hall). cbn in Hb, Hr, Hall.
  exists w', r. split; [exact Hrun|]. split; [lia|]. split.
  - destruct Hr as [Hc|[[Hw ->]|[Hlt ->]]]; [by right| |by left]. left. by rewrite Hw.
  - intros n Hn. destruct n as [|n]; [by exists e|]. apply Hall; lia.
Qed.

(** Remark: a manager that is closed, or whose machine is not idle, refuses a sync
    with an error and leaves store, transport and machine untouched. *)
Theorem Sync_refused {St T} {ES : EventStore St} {TR : Transport T} {MR : MapRange} {TT : TimeText}
    (env : Env) (w : World St T) (sm : machine SyncState)
    (Hsm : stateMachine (w_mgr w) = Some sm)
    (Hbusy : closed (w_mgr w) = true ∨ Current sm ≠ SyncIdle) :
  ∃ e, Sync env w = Done (tick w, (None, Some e)) ∧ IsRetryable e = false.
Proof.
  unfold Sync, mbind, now, get_mgr. cbn [w_mgr tick].
  destruct (closed (w_mgr w)) eqn:Hc; [by eexists|]. destruct Hbusy as [|Hbusy]; [done|].
  rewrite Hsm. cbn [fmap option_fmap option_map]. unfold CanAutoSync.
  rewrite bool_decide_false by done. by eexists.
Qed.

(** *** Auto-sync goroutines *)

(** The goroutines that still run syncs. *)
Definition live (a : AutoSync) : Prop := cancelled a = false ∧ looping a = true.

(** At most one goroutine is not cancelled: the one the manager would cancel. *)
Definition auto_inv {St T} (w : World St T) : Prop :=
  ∀ g a, w_autos w !! g = Some a → cancelled a = false →
    autoSyncCancel (w_mgr w) = Some g.

Section auto_sync.
Context {St T : Type} {ES : EventStore St} {TR : Transport T}.

(** The calls that touch the goroutines, and a goroutine leaving its loop. *)
Inductive auto_step (env : Env) : World St T → World St T → Prop :=
  | auto_start w w' err : StartAutoSync env w = Done (w', err) → auto_step env w w'
  | auto_stop w w' err : StopAutoSync env w = Done (w', err) → auto_step env w w'
  | auto_close w w' err : Close env w = Done (w', err) → auto_step env w w'
  | auto_exit g a w : w_autos w !! g = Some a →
      auto_step env w (put_autos (alter (λ a, mkAuto (cancelled a) false) g (w_autos w)) w).

Lemma StopAutoSync_inv env (w w' : World St T) err :
  auto_inv w → StopAutoSync env w = Done (w', err) →
  auto_inv w' ∧ autoSyncCancel (w_mgr w') = None.
Proof.
  intros Hinv. unfold StopAutoSync. destruct (autoSyncCancel (w_mgr w)) as [g|] eqn:Hg;
    intros [= <- <-]; [|by split].
  split; [|done]. intros g' a Ha Hc. cbn in *. destruct (decide (g = g')) as [<-|Hne].
  - rewrite list_lookup_alter_eq in Ha. destruct (w_autos w !! g); [|done]. by injection Ha as <-.
  - rewrite list_lookup_alter_ne in Ha by done. specialize (Hinv g' a Ha Hc). congruence.
Qed.

Lemma auto_step_inv env (w w' : World St T) : auto_inv w → auto_step env w w' → auto_inv w'.
Proof.
  intros Hinv Hs. revert Hinv. destruct Hs as [w w' err Hs|w w' err Hs|w w' err Hs|g a w Ha]; intros Hinv.
  - unfold StartAutoSync, mbind, poll in Hs. destruct (e_ctx env (w_tick w) 0%nat).
    { injection Hs as <- _. done. }
    cbn [w_mgr tick] in Hs. destruct (autoSyncCancel (w_mgr w)) as [g|] eqn:Hg.
    { injection Hs as <- _. done. }
    destruct (closed (w_mgr w)); [injection Hs as <- _; done|].
    destruct (SyncInterval (options (w_mgr w)) <=? 0); [injection Hs as <- _; done|].
    injection Hs as <- _. intros g' a Ha Hc. cbn in *.
    apply lookup_app_Some in Ha as [Ha|[Hle Ha]].
    + specialize (Hinv g' a Ha Hc). congruence.
    + apply list_lookup_singleton_Some in Ha as [Hz _]. f_equal. lia.
  - by eapply StopAutoSync_inv.
  - unfold Close in Hs. destruct (closed (w_mgr w)) eqn:Hc; [injection Hs as <- _; done|].
    unfold mbind in Hs. set (w1 := put_mgr (set_closed (w_mgr w)) w) in *.
    assert (auto_inv w1) as Hinv1 by exact Hinv.
    destruct (StopAutoSync env w1) as [[w2 e2]|] eqn:Hstop; [|done].
    destruct (StopAutoSync_inv env w1 w2 e2 Hinv1 Hstop) as [Hinv2 _].
    unfold on_transport, on_store in Hs.
    destruct (tr_Close (w_transport w2)) as [[t terr]|]; [|done].
    cbn in Hs. destruct (es_Close (w_store w2)) as [[st serr]|]; [|done].
    cbn in Hs. injection Hs as <- _. exact Hinv2.
  - intros g' a' Ha' Hc'. cbn in *. destruct (decide (g = g')) as [<-|Hne].
    + rewrite list_lookup_alter_eq, Ha in Ha'. injection Ha' as <-. by apply (Hinv g a).
    + rewrite list_lookup_alter_ne in Ha' by done. by apply (Hinv g' a').
Qed.
End auto_sync.

(** Remark: however auto-sync is started, stopped and closed, at most one goroutine
    is live; but a goroutine that leaves because the caller's context ended is
    not forgotten, so starting again then reports success and starts nothing. *)
Theorem auto_sync_single {St T} {ES : EventStore St} {TR : Transport T} {MR : MapRange}
    {TT : TimeText} (env : Env) (w0 w : World St T) (Hinit : w_autos w0 = [])
    (Hrun : rtc (auto_step env) w0 w) :
  (∀ g g' a a', w_autos w !! g = Some a → w_autos w !! g' = Some a' → live a → live a' → g = g')
  ∧ (∀ g, autoSyncCancel (w_mgr w) = Some g → w_autos w !! g = Some (mkAuto false true) →
       ∃ w1, auto_round g true false env w = Done (w1, ())
         ∧ (∀ g a, w_autos w1 !! g = Some a → ¬ live a)
         ∧ ∀ env', e_ctx env' (w_tick w1) 0%nat = None →
             ∃ w2, StartAutoSync env' w1 = Done (w2, None)
               ∧ ∀ g a, w_autos w2 !! g = Some a → ¬ live a).
Proof.
  assert (auto_inv w) as Hinv.
  { assert (auto_inv w0) as H0 by (intros g a Ha; by rewrite Hinit in Ha).
    clear Hinit. induction Hrun as [|w0 w1 w2 Hs _ IH]; [done|]. by eapply IH, auto_step_inv. }
  split.
  - intros g g' a a' Ha Ha' [Hc _] [Hc' _].
    pose proof (Hinv g a Ha Hc). pose proof (Hinv g' a' Ha' Hc'). congruence.
  - intros g Hg Hlook. unfold auto_round. rewrite Hlook. cbn [looping cancelled negb orb].
    assert (∀ g' a, alter (λ a, mkAuto (cancelled a) false) g (w_autos w) !! g' = Some a → ¬ live a)
      as Hdead.
    { intros g' a Ha [Hc Hl]. destruct (decide (g = g')) as [<-|Hne].
      - rewrite list_lookup_alter_eq, Hlook in Ha. by injection Ha as <-.
      - rewrite list_lookup_alter_ne in Ha by done. specialize (Hinv g' a Ha Hc). congruence. }
    eexists. split; [reflexivity|]. split; [exact Hdead|].
    intros env' Hctx. cbn [w_tick put_autos] in Hctx.
    unfold StartAutoSync, mbind, poll. cbn [w_tick put_autos]. rewrite Hctx.
    cbn [w_mgr put_autos tick]. rewrite Hg.
    eexists. split; [reflexivity|]. exact Hdead.
Qed.

(** ** Concrete runs *)

(** A manager with these options, its own state machine and one subscriber. *)
Definition sample_options (pushOnly pullOnly : bool) (resolver : option Resolver)
    (filter : option (option Event → outcome bool)) (batch : Z) : SyncOptions :=
  mkSyncOptions pushOnly pullOnly resolver filter batch 5 (Some (mkRetry 3 1 10)) false 0 false.
Definition sample_manager (o : SyncOptions) : syncManager :=
  mkManager o (Some (new_sync_machine 0)) None 0 [7%nat] false None.
Definition sample_world {St T} (s : St) (t : T) (o : SyncOptions) : World St T :=
  mkWorld s t (sample_manager o) [] 0 [] [].
(** No context ends, the clock ticks and projections complete. *)
Definition sample_env : Env := mkEnv (λ _, background) Z.of_nat (λ _, "t") (λ _, ProjAnswer 0 true None).
#[local] Instance sample_text : TimeText := {| rfc3339 := format_int; duration_string := format_int |}.
#[local] Instance sample_range : MapRange := canonical_range.

Lemma syncWithRetry_bounded_witness :
  let answers n := if (n <? 2)%nat then Some (NewRetryable "sync" (ErrMsg "down")) else None in
  ∃ w' r, syncWithRetry (counted answers) sample_env
            (sample_world 0%nat () (sample_options false false None None 0)) = Done (w', r)
    ∧ 1 ≤ Z.of_nat (w_store w') ≤ MaxAttempts (mkRetry 3 1 10)
    ∧ (r = answers (w_store w' - 1)%nat ∨ ∃ c, r = Some (ErrCtx c))
    ∧ ∀ n, (S n < w_store w')%nat → ∃ e, answers n = Some e ∧ IsRetryable e = true.
Proof.
  apply (syncWithRetry_bounded _ (mkRetry 3 1 10)); [reflexivity|reflexivity|vm_compute; discriminate].
Defined.

Lemma Sync_refused_witness :
  let w := sample_world MemStore.New NullTransport (sample_options false false None None 0) in
  let w := put_mgr (set_closed (w_mgr w)) w in
  ∃ e, Sync sample_env w = Done (tick w, (None, Some e)) ∧ IsRetryable e = false.
Proof. apply (Sync_refused _ _ (new_sync_machine 0)); [reflexivity|left; reflexivity]. Defined.

Lemma auto_sync_single_witness :
  let w0 := sample_world MemStore.New NullTransport (sample_options false false None None 0) in
  ∃ w, rtc (auto_step sample_env) w0 w ∧ w_autos w = [mkAuto false true]
    ∧ ∃ w1, auto_round 0 true false sample_env w = Done (w1, ())
        ∧ (∀ g a, w_autos w1 !! g = Some a → ¬ live a)
        ∧ ∀ env', e_ctx env' (w_tick w1) 0%nat = None →
            ∃ w2, StartAutoSync env' w1 = Done (w2, None)
              ∧ ∀ g a, w_autos w2 !! g = Some a → ¬ live a.
Proof.
  eexists. split; [eapply rtc_once, auto_start; reflexivity|]. split; [reflexivity|].
  eapply (auto_sync_single sample_env
    (sample_world MemStore.New NullTransport (sample_options false false None None 0)));
    [reflexivity|eapply rtc_once, auto_start; reflexivity|reflexivity|reflexivity].
Defined.
