(* ===== verification/ManagerSafety.v ===== *)
(** * Safety of the sync manager

    Over stores and transports that do not panic on sound arguments, every
    operation of the manager returns, and the state machine obeys the life
    cycle of a sync.  The proofs use total-correctness triples over the
    manager's monad. *)
From S2P Require Import Prelude Types Json Errors VectorClock Versions StateMachine SyncState.
From S2P Require Import Resolvers Interfaces Detect Manager.
From S2P Require MemStore MemChan.
From stdpp Require Import options.

(** A version argument that no method call on it can panic with. *)
Definition sound_opt (v : option Version) : Prop := ∃ v', v = Some v' ∧ sound_version v'.

(** Stores and transports that answer every sound call, without panicking and
    with sound answers. *)
Class SafeStore (St : Type) {ES : EventStore St} := {
  store_ok : St → Prop;
  safe_Store : ∀ ctx e v s, store_ok s →
    ∃ s' err, es_Store ctx (Some e) v s = Done (s', err) ∧ store_ok s';
  safe_Load : ∀ ctx v s, store_ok s → sound_opt v →
    ∃ r, es_Load ctx v [] s = Done r ∧ ∀ evs, r = Ok evs → Forall sound evs;
  safe_LatestVersion : ∀ ctx s, store_ok s →
    ∃ r, es_LatestVersion ctx s = Done r ∧ ∀ v, r = Ok v → sound_opt v;
  safe_store_Close : ∀ s, store_ok s → ∃ s' err, es_Close s = Done (s', err) ∧ store_ok s'
}.
Class SafeTransport (T : Type) {TR : Transport T} := {
  transport_ok : T → Prop;
  safe_Push : ∀ ctx evs t, transport_ok t → Forall sound evs →
    ∃ t' err, tr_Push ctx evs t = Done (t', err) ∧ transport_ok t';
  safe_Pull : ∀ ctx v t, transport_ok t → sound_opt v →
    ∃ r, tr_Pull ctx v t = Done r ∧ ∀ evs, r = Ok evs → Forall sound evs;
  safe_GetLatestVersion : ∀ ctx t, transport_ok t →
    ∃ r, tr_GetLatestVersion ctx t = Done r ∧ ∀ v, r = Ok v → sound_opt v;
  safe_transport_Close : ∀ t, transport_ok t →
    ∃ t' err, tr_Close t = Done (t', err) ∧ transport_ok t'
}.

(** A filter and a resolver that answer on sound inputs. *)
Definition safe_options (o : SyncOptions) : Prop :=
  when (EventFilter o) (λ f, ∀ e, ∃ b, f (Some e) = Done b)
  ∧ when (ConflictResolver o) (λ r, ∀ ctx c, sound (c_Local c) → sound (c_Remote c) →
      ∃ rc err, r ctx c = Done (rc, err) ∧ Forall sound (ResolvedEvents rc)).

Section wp.
Context {St T : Type}.
Implicit Types w : World St T.

(** [m] returns, and establishes [Q]. *)
Definition wp {A} (m : M St T A) (Q : World St T → A → Prop) (env : Env) w : Prop :=
  ∃ w' a, m env w = Done (w', a) ∧ Q w' a.

Lemma wp_bind {A B} (m : M St T A) (f : A → M St T B) Q env w :
  wp m (λ w' a, wp (f a) Q env w') env w → wp (mbind m f) Q env w.
Proof. intros (w' & a & Hm & w2 & b & Hf & HQ). exists w2, b. unfold mbind. by rewrite Hm. Qed.
Lemma wp_ret {A} (a : A) Q env w : Q w a → wp (mret a) Q env w.
Proof. intros. by exists w, a. Qed.
Lemma wp_mono {A} (m : M St T A) (P Q : World St T → A → Prop) env w :
  wp m P env w → (∀ w' a, P w' a → Q w' a) → wp m Q env w.
Proof. intros (w' & a & Hm & HP) Himp. exists w', a. split; [done|by apply Himp]. Qed.
Lemma wp_lift {A} (o : outcome A) a Q env w : o = Done a → Q w a → wp (lift o) Q env w.
Proof. intros -> HQ. by exists w, a. Qed.
Lemma wp_get_mgr Q env w : Q w (w_mgr w) → wp get_mgr Q env w.
Proof. intros. by exists w, (w_mgr w). Qed.
End wp.

Section safety.
Context {St T : Type} {ES : EventStore St} {TR : Transport T} {MR : MapRange} {TT : TimeText}.
Context {SS : SafeStore St} {STr : SafeTransport T}.
Implicit Types w : World St T.

(** What a synchronisation leaves alone: the manager up to its state machine,
    the auto-sync goroutines and the notifications already sent. *)
Record Frame := mkFrame {
  f_mgr : syncManager; f_autos : list AutoSync; f_notified : list (nat * SyncResult)
}.
Definition f_options (o : Frame) : SyncOptions := options (f_mgr o).

(** The world around frame [o], its machine being in state [s]. *)
Record at_state (o : Frame) (s : SyncState) w : Prop := {
  at_store : store_ok (w_store w);
  at_transport : transport_ok (w_transport w);
  at_mgr : set_machine None (w_mgr w) = f_mgr o;
  at_autos : w_autos w = f_autos o;
  at_notified : w_notified w = f_notified o;
  at_machine : ∃ sm, stateMachine (w_mgr w) = Some sm ∧ sync_ruled sm ∧ state sm = s
}.
Lemma at_options o s w : at_state o s w → options (w_mgr w) = f_options o.
Proof. intros Hat. unfold f_options. by rewrite <-(at_mgr _ _ _ Hat). Qed.

Lemma wp_now o s (Q : World St T → Z → Prop) env w :
  at_state o s w → (∀ w' t, at_state o s w' → Q w' t) → wp now Q env w.
Proof. intros [] HQ. eexists _, _. split; [reflexivity|]. by apply HQ. Qed.
Lemma wp_ctx o s (Q : World St T → CtxView → Prop) env w :
  at_state o s w → (∀ w' v, at_state o s w' → Q w' v) → wp ctx Q env w.
Proof. intros [] HQ. eexists _, _. split; [reflexivity|]. by apply HQ. Qed.
Lemma wp_poll o s (Q : World St T → option CtxErr → Prop) env w :
  at_state o s w → (∀ w' d, at_state o s w' → Q w' d) → wp poll Q env w.
Proof. intros [] HQ. eexists _, _. split; [reflexivity|]. by apply HQ. Qed.
Lemma wp_metric o s c (Q : World St T → () → Prop) env w :
  at_state o s w → (∀ w', at_state o s w' → Q w' ()) → wp (metric c) Q env w.
Proof. intros [] HQ. eexists _, _. split; [reflexivity|]. by apply HQ. Qed.
Lemma wp_when_metric o s (b : bool) c (Q : World St T → () → Prop) env w :
  at_state o s w → (∀ w', at_state o s w' → Q w' ()) →
  wp (if b then metric c else mret ()) Q env w.
Proof. intros Hat HQ. destruct b; [by eapply wp_metric|by apply wp_ret, HQ]. Qed.

Lemma wp_ask_store {A} (f : CtxView → St → outcome A) (P : A → Prop) o s Q env w :
  at_state o s w → (∀ c st, store_ok st → ∃ a, f c st = Done a ∧ P a) →
  (∀ w' a, at_state o s w' → P a → Q w' a) → wp (ask_store f) Q env w.
Proof.
  intros [] Hf HQ. destruct (Hf (e_ctx env (w_tick w)) (w_store w)) as (a & Ha & HP); [done|].
  eexists _, a. unfold ask_store. rewrite Ha. split; [reflexivity|]. by apply HQ.
Qed.
Lemma wp_ask_transport {A} (f : CtxView → T → outcome A) (P : A → Prop) o s Q env w :
  at_state o s w → (∀ c t, transport_ok t → ∃ a, f c t = Done a ∧ P a) →
  (∀ w' a, at_state o s w' → P a → Q w' a) → wp (ask_transport f) Q env w.
Proof.
  intros [] Hf HQ. destruct (Hf (e_ctx env (w_tick w)) (w_transport w)) as (a & Ha & HP); [done|].
  eexists _, a. unfold ask_transport. rewrite Ha. split; [reflexivity|]. by apply HQ.
Qed.
Lemma wp_on_store {A} (f : CtxView → St → outcome (St * A)) o s Q env w :
  at_state o s w → (∀ c st, store_ok st → ∃ st' a, f c st = Done (st', a) ∧ store_ok st') →
  (∀ w' a, at_state o s w' → Q w' a) → wp (on_store f) Q env w.
Proof.
  intros [] Hf HQ. destruct (Hf (e_ctx env (w_tick w)) (w_store w)) as (st' & a & Ha & Hok); [done|].
  eexists _, a. unfold on_store. rewrite Ha. split; [reflexivity|]. by apply HQ.
Qed.
Lemma wp_on_transport {A} (f : CtxView → T → outcome (T * A)) o s Q env w :
  at_state o s w → (∀ c t, transport_ok t → ∃ t' a, f c t = Done (t', a) ∧ transport_ok t') →
  (∀ w' a, at_state o s w' → Q w' a) → wp (on_transport f) Q env w.
Proof.
  intros [] Hf HQ. destruct (Hf (e_ctx env (w_tick w)) (w_transport w)) as (t' & a & Ha & Hok); [done|].
  eexists _, a. unfold on_transport. rewrite Ha. split; [reflexivity|]. by apply HQ.
Qed.

(** A transition of the sync machine succeeds along the edges of the table. *)
Lemma wp_transition to md o s (Q : World St T → option error → Prop) env w :
  at_state o s w →
  (sync_edge s to → ∀ w', at_state o to w' → Q w' None) →
  (¬ sync_edge s to → ∀ w' e, at_state o s w' → Q w' (Some e)) →
  wp (transition to md) Q env w.
Proof.
  intros [Hst Htr Hm Ha Hn (sm & Hsm & Hr & Hs)] Hyes Hno. unfold wp, transition. rewrite Hsm.
  pose proof Hr as (Hrules & Hval & Hwf).
  destruct (decide (sync_edge s to)) as [He|He].
  - rewrite Transition_accepted by (rewrite Hs; by apply sync_accepts).
    destruct (commit_fields (e_clock env (w_tick w)) (e_tid env (w_tick w)) (state sm) to (Some md) sm Hwf)
      as ((Hc & Hv & _) & Hst' & _ & Hh & _).
    eexists _, None. split; [reflexivity|]. apply Hyes; [done|]. split; try done.
    eexists. split; [reflexivity|]. split; [|done].
    unfold sync_ruled, well_formed, max_history in *. rewrite Hc, Hv, Hh.
    split_and!; [done|done|apply Hwf|apply length_keep].
  - destruct (Transition_rejected (e_clock env (w_tick w)) (e_tid env (w_tick w)) to (Some md) sm)
      as (err & e & ->); [rewrite Hs; by rewrite sync_accepts|].
    destruct (reject_fields (state sm) to err (Some md) sm) as ((Hc & Hv & _) & Hst' & Hh & _).
    eexists _, (Some e). split; [reflexivity|]. apply Hno; [done|]. split; try done.
    eexists. split; [reflexivity|]. rewrite Hst'. split; [|exact Hs].
    unfold sync_ruled, well_formed, max_history in *. by rewrite Hc, Hv, Hh.
Qed.

(** ** Filters *)
Lemma wp_apply_filter evs o s Q env w :
  at_state o s w → safe_options (f_options o) → Forall sound evs →
  (∀ evs', Forall sound evs' → Q w evs') → wp (apply_filter evs) Q env w.
Proof.
  intros Hat [Hf _] Hs HQ. unfold apply_filter. apply wp_bind, wp_get_mgr.
  rewrite (at_options _ _ _ Hat). destruct (EventFilter (f_options o)) as [f|]; [|by apply wp_ret, HQ].
  assert (∃ evs', filterM (λ ev, f (ev_event ev)) evs = Done evs' ∧ Forall sound evs')
    as (evs' & Hevs & Hs').
  { clear HQ. induction Hs as [|ev evs Hev Hs (evs' & IH & Hs')]; [by exists []|].
    pose proof Hev as [[e He] _]. cbn [filterM]. rewrite He. destruct (Hf e) as [b Hb].
    rewrite Hb. cbn [obind]. rewrite IH. cbn [obind]. eexists. split; [done|].
    destruct b; [by apply Forall_cons|done]. }
  eapply wp_lift; [done|]. by apply HQ.
Qed.

(** ** Push *)
Lemma batches_sound fuel n evs : Forall sound evs → Forall (Forall sound) (batches fuel n evs).
Proof.
  revert evs; induction fuel as [|fuel IH]; intros evs Hs; cbn; [apply Forall_nil_2|].
  destruct evs as [|ev evs]; [apply Forall_nil_2|].
  apply Forall_cons. split; [by apply Forall_take|]. by apply IH, Forall_drop.
Qed.

Lemma wp_push_batches bs n o s Q env w :
  at_state o s w → Forall (Forall sound) bs → (∀ w' r, at_state o s w' → Q w' r) →
  wp (push_batches bs n) Q env w.
Proof.
  intros Hat Hbs HQ. revert n w Hat.
  induction Hbs as [|b bs Hb Hbs IH]; intros n w Hat; cbn [push_batches]; [by apply wp_ret, HQ|].
  apply wp_bind. eapply wp_poll; [done|]. intros w1 [e|] H1; [by apply wp_ret, HQ|].
  apply wp_bind. eapply wp_on_transport; [done| |].
  - intros c t Ht. by apply safe_Push.
  - intros w2 [e|] H2; [by apply wp_ret, HQ|]. by apply IH.
Qed.

Lemma wp_transport_failure op e o s (Q : World St T → () → Prop) env w :
  at_state o s w → (∀ w', at_state o s w' → Q w' ()) → wp (transport_failure op e) Q env w.
Proof. apply wp_metric. Qed.

Lemma wp_push_body r o s Q env w :
  at_state o s w → safe_options (f_options o) → (∀ w' a, at_state o s w' → Q w' a) → wp (push_body r) Q env w.
Proof.
  intros Hat Hsafe HQ. unfold push_body. apply wp_bind.
  eapply (wp_ask_transport _ (λ r, ∀ v, r = Ok v → sound_opt v)); [done|intros; by apply safe_GetLatestVersion|].
  intros w1 [v|e] H1 Hv.
  2: { apply wp_bind. eapply wp_transport_failure; [done|]. intros. by apply wp_ret, HQ. }
  apply wp_bind.
  eapply (wp_ask_store _ (λ r, ∀ evs, r = Ok evs → Forall sound evs));
    [done|intros; apply safe_Load; [done|by apply Hv]|].
  intros w2 [evs|e] H2 Hevs; [|by apply wp_ret, HQ]. specialize (Hevs evs eq_refl).
  destruct evs as [|ev evs]; [by apply wp_ret, HQ|].
  apply wp_bind. eapply wp_apply_filter; [done|done|done|]. intros evs' Hs'.
  apply wp_bind, wp_get_mgr. apply wp_bind.
  eapply wp_push_batches; [done|by apply batches_sound|].
  intros w3 [n err] H3. by apply wp_ret, HQ.
Qed.

Lemma wp_push o s Q env w :
  at_state o s w → safe_options (f_options o) → (∀ w' a, at_state o s w' → Q w' a) → wp push Q env w.
Proof.
  intros Hat Hsafe HQ. unfold push. apply wp_bind. eapply wp_now; [done|]. intros w1 t1 H1.
  apply wp_bind. eapply wp_now; [done|]. intros w2 t2 H2.
  apply wp_bind. eapply wp_push_body; [done|done|]. intros w3 [r err] H3.
  apply wp_bind. eapply wp_now; [done|]. intros w4 t4 H4.
  apply wp_bind. eapply wp_metric; [done|]. intros w5 H5.
  apply wp_bind. eapply wp_when_metric; [done|]. intros w6 H6. by apply wp_ret, HQ.
Qed.

(** ** Sound batches never panic in the pure parts *)
Lemma latest_from_sound l evs : Forall sound evs → ∃ v, latest_from l evs = Done v.
Proof.
  intros Hs; revert l; induction Hs as [|ev evs (_ & v & Hv & Hvs) _ IH]; intros l; cbn [latest_from];
    [by exists l|]. rewrite Hv. cbn [deref obind].
  destruct (version_Compare_sound v l Hvs) as [z ->]. apply IH.
Qed.
Lemma findLatestVersion_sound evs : Forall sound evs → ∃ v, findLatestVersion evs = Done v.
Proof. intros [|ev evs' _ Hs]; [by exists None|]. by apply latest_from_sound. Qed.
Lemma detectConflicts_sound ls rs :
  Forall sound ls → Forall sound rs →
  ∃ cs, detectConflicts ls rs = Done cs ∧ Forall (λ c, sound (c_Local c) ∧ sound (c_Remote c)) cs.
Proof.
  intros Hl Hr. unfold detectConflicts. destruct (index_by_key_spec ls ∅ Hl) as (m & -> & Hm).
  destruct (scan_remote_spec m ls rs Hl Hr) as (cs & Hcs & _ & Hp).
  { intros k. by rewrite Hm, lookup_empty. }
  exists cs. split; [done|]. apply Forall_forall. intros c Hc.
  assert (pair_of c ∈ conflicting ls rs) as Hin by (rewrite <-Hp; by apply list_elem_of_fmap_2).
  apply elem_of_conflicting in Hin as (Hlin & Hrin & _).
  rewrite Forall_forall in Hl, Hr. split; [by apply Hl|by apply Hr].
Qed.

(** ** Pull *)
Lemma wp_store_events evs n o s Q env w :
  at_state o s w → Forall sound evs → (∀ w' r, at_state o s w' → Q w' r) →
  wp (store_events evs n) Q env w.
Proof.
  intros Hat Hs HQ. revert n w Hat.
  induction Hs as [|ev evs [[e He] _] Hs IH]; intros n w Hat; cbn [store_events]; [by apply wp_ret, HQ|].
  apply wp_bind. eapply wp_poll; [done|]. intros w1 [err|] H1; [by apply wp_ret, HQ|].
  apply wp_bind. rewrite He. eapply wp_on_store; [done| |].
  - intros c st Hok. by apply safe_Store.
  - intros w2 [err|] H2; [by apply wp_ret, HQ|]. by apply IH.
Qed.

Lemma wp_store_phase evs n r o s Q env w :
  at_state o s w → Forall sound evs →
  (∀ w' r' err, at_state o s w' → ConflictsResolved r' = n → Q w' (r', err)) →
  wp (store_phase evs n r) Q env w.
Proof.
  intros Hat Hs HQ. unfold store_phase. apply wp_bind.
  eapply wp_store_events; [done|done|]. intros w1 [k [e|]] H1; [by apply wp_ret, HQ|].
  destruct (findLatestVersion_sound evs Hs) as [v Hv].
  apply wp_bind. eapply wp_lift; [done|]. by apply wp_ret, HQ.
Qed.

Lemma wp_resolve_all resolver cs acc o s Q env w :
  at_state o s w →
  (∀ ctx c, sound (c_Local c) → sound (c_Remote c) →
     ∃ rc err, resolver ctx c = Done (rc, err) ∧ Forall sound (ResolvedEvents rc)) →
  Forall (λ c, sound (c_Local c) ∧ sound (c_Remote c)) cs → Forall sound acc →
  (∀ w' r, at_state o s w' → (∀ evs, r = inl evs → Forall sound evs) → Q w' r) →
  wp (resolve_all resolver cs acc) Q env w.
Proof.
  intros Hat Hres Hcs Hacc HQ. revert acc Hacc w Hat.
  induction Hcs as [|c cs [Hl Hr] _ IH]; intros acc Hacc w Hat; cbn [resolve_all].
  { apply wp_ret, HQ; [done|]. by intros ? [= <-]. }
  apply wp_bind. eapply wp_ctx; [done|]. intros w1 v H1.
  destruct (Hres v c Hl Hr) as (rc & err & Heq & Hrc).
  apply wp_bind. eapply wp_lift; [exact Heq|]. destruct err as [e|].
  - apply wp_bind. eapply wp_when_metric; [done|]. intros w2 H2. by apply wp_ret, HQ.
  - apply IH; [by apply Forall_app|done].
Qed.

(** The conflict phase of a pull: it moves to the resolving state exactly when
    there is a conflict, and only if the table allows it. *)
Lemma wp_conflict_phase v evs r o s (Q : World St T → phase → Prop) env w :
  at_state o s w → safe_options (f_options o) → sound_opt v → Forall sound evs →
  (∀ w' evs', at_state o s w' → Forall sound evs' → Q w' (Continue evs' 0)) →
  (∀ w' evs' n, sync_edge s SyncResolvingConflicts → at_state o SyncResolvingConflicts w' →
     (0 < n)%nat → Forall sound evs' → Q w' (Continue evs' n)) →
  (∀ w' r' err, at_state o s w' → ConflictsResolved r' = ConflictsResolved r → Q w' (Return r' err)) →
  (∀ w' e, sync_edge s SyncResolvingConflicts → at_state o SyncResolvingConflicts w' →
     Q w' (Return r (Some e))) →
  wp (conflict_phase v evs r) Q env w.
Proof.
  intros Hat Hsafe Hv Hevs Hnone Hsome Hback Hfail. unfold conflict_phase.
  apply wp_bind, wp_get_mgr. rewrite (at_options _ _ _ Hat).
  pose proof Hsafe as [_ Hres].
  destruct (ConflictResolver (f_options o)) as [resolver|]; [|by apply wp_ret, Hnone].
  apply wp_bind. eapply (wp_ask_store _ (λ r, ∀ evs, r = Ok evs → Forall sound evs));
    [done|intros; by apply safe_Load|].
  intros w1 [ls|e] H1 Hls.
  2: { apply wp_bind. eapply wp_when_metric; [done|]. intros. by apply wp_ret, Hback. }
  specialize (Hls ls eq_refl). destruct ls as [|l ls]; [by apply wp_ret, Hnone|].
  destruct (detectConflicts_sound (l :: ls) evs Hls Hevs) as (cs & Hcs & Hcss).
  apply wp_bind. eapply wp_lift; [exact Hcs|].
  destruct cs as [|c cs]; [by apply wp_ret, Hnone|].
  unfold resolve_conflicts. apply wp_bind. eapply wp_transition; [done| |].
  2: { intros _ w2 e2 H2. by apply wp_ret, Hback. }
  intros Hedge w2 H2. apply wp_bind. eapply wp_poll; [done|]. intros w3 [e3|] H3.
  - apply wp_bind. eapply wp_metric; [done|]. intros w4 H4. by apply wp_ret, Hfail.
  - apply wp_bind. eapply wp_resolve_all; [done|exact Hres|done|apply Forall_nil_2|].
    intros w4 [evs'|e4] H4 Hs'; [|by apply wp_ret, Hfail].
    apply wp_ret, Hsome; [done|done|cbn; lia|by apply Hs'].
Qed.

(** A pull leaves the machine where it was or, if it resolved conflicts, in the
    resolving state. *)
Definition pulled (o : Frame) (s : SyncState) w (r : SyncResult) (err : option error) : Prop :=
  (at_state o s w ∧ ConflictsResolved r = 0%nat)
  ∨ (sync_edge s SyncResolvingConflicts ∧ at_state o SyncResolvingConflicts w
     ∧ (err = None → (0 < ConflictsResolved r)%nat)).

Lemma wp_pull_body t o s Q env w :
  at_state o s w → safe_options (f_options o) →
  (∀ w' r err, pulled o s w' r err → Q w' (r, err)) → wp (pull_body (new_result t)) Q env w.
Proof.
  intros Hat Hsafe HQ. unfold pull_body. apply wp_bind.
  eapply (wp_ask_store _ (λ r, ∀ v, r = Ok v → sound_opt v)); [done|intros; by apply safe_LatestVersion|].
  intros w1 [v|e] H1 Hv; [|apply wp_ret, HQ; by left]. specialize (Hv v eq_refl).
  apply wp_bind. eapply (wp_ask_transport _ (λ r, ∀ evs, r = Ok evs → Forall sound evs));
    [done|intros; by apply safe_Pull|].
  intros w2 [evs|e] H2 Hevs.
  2: { apply wp_bind. eapply wp_transport_failure; [done|]. intros. apply wp_ret, HQ; by left. }
  specialize (Hevs evs eq_refl). destruct evs as [|ev evs]; [apply wp_ret, HQ; by left|].
  apply wp_bind. eapply wp_apply_filter; [done|done|done|]. intros evs' Hs'.
  apply wp_bind. eapply wp_conflict_phase; [done|done|done|exact Hs'| | | |].
  - intros w3 evs3 H3 Hs3. eapply wp_store_phase; [done|done|].
    intros w4 r4 err4 H4 Hc. apply HQ. by left.
  - intros w3 evs3 n Hedge H3 Hn Hs3. eapply wp_store_phase; [done|done|].
    intros w4 r4 err4 H4 Hc. apply HQ. right. split_and!; [done|done|lia].
  - intros w3 r3 err3 H3 Hc. apply wp_ret, HQ. by left.
  - intros w3 e3 Hedge H3. apply wp_ret, HQ. by right.
Qed.

Lemma pulled_same o s w w' r r' err :
  pulled o s w r err → (∀ s', at_state o s' w → at_state o s' w') →
  ConflictsResolved r' = ConflictsResolved r → pulled o s w' r' err.
Proof. unfold pulled. intros [[? ?]|(? & ? & ?)] Hw ->; [left|right]; auto. Qed.

(** The clock and the metrics change nothing [at_state] looks at. *)
Definition quiet w w' : Prop := ∀ o s, at_state o s w → at_state o s w'.
#[global] Instance quiet_preorder : PreOrder quiet.
Proof. split; [by intros w o s|]. intros w1 w2 w3 H12 H23 o s H. by apply H23, H12. Qed.
Lemma wp_now_quiet (Q : World St T → Z → Prop) env w :
  (∀ w' t, quiet w w' → Q w' t) → wp now Q env w.
Proof. intros HQ. eexists _, _. split; [reflexivity|]. apply HQ. by intros o s []. Qed.
Lemma wp_metric_quiet c (Q : World St T → () → Prop) env w :
  (∀ w', quiet w w' → Q w' ()) → wp (metric c) Q env w.
Proof. intros HQ. eexists _, _. split; [reflexivity|]. apply HQ. by intros o s []. Qed.
Lemma wp_when_metric_quiet (b : bool) c (Q : World St T → () → Prop) env w :
  (∀ w', quiet w w' → Q w' ()) → wp (if b then metric c else mret ()) Q env w.
Proof. intros HQ. destruct b; [by apply wp_metric_quiet|by apply wp_ret, HQ]. Qed.

Lemma wp_pull o s Q env w :
  at_state o s w → safe_options (f_options o) →
  (∀ w' r err, pulled o s w' r err → Q w' (r, err)) → wp pull Q env w.
Proof.
  intros Hat Hsafe HQ. unfold pull. apply wp_bind. eapply wp_now; [done|]. intros w1 t1 H1.
  apply wp_bind. eapply wp_now; [done|]. intros w2 t2 H2.
  apply wp_bind. eapply wp_pull_body; [done|done|]. intros w3 r err Hp.
  apply wp_bind, wp_now_quiet. intros w4 t4 H4.
  apply wp_bind, wp_metric_quiet. intros w5 H5.
  apply wp_bind, wp_when_metric_quiet. intros w6 H6.
  apply wp_bind, wp_when_metric_quiet. intros w7 H7.
  apply wp_ret, HQ. eapply pulled_same; [exact Hp| |done].
  intros s' Hs'. by apply H7, H6, H5, H4.
Qed.

(** ** A whole synchronisation *)

Lemma at_tick o s w : at_state o s w → at_state o s (tick w).
Proof. by intros []. Qed.

Lemma wp_wait_projections timeout n errs o s (Q : World St T → list error → Prop) env w :
  at_state o s w → (∀ w' l, at_state o s w' → Q w' l) → wp (wait_projections timeout n errs) Q env w.
Proof.
  intros Hat HQ. revert errs w Hat. induction n as [|n IH]; intros errs w Hat; [by apply wp_ret, HQ|].
  unfold wp. cbn [wait_projections]. destruct (e_projection env (w_tick w)) as [i slot applied|].
  - apply (IH _ (tick w)). by apply at_tick.
  - eexists _, _. split; [reflexivity|]. apply HQ. by apply at_tick.
Qed.
Lemma wp_projections o s (Q : World St T → option error → Prop) env w :
  at_state o s w → (∀ w' e, at_state o s w' → Q w' e) → wp runProjectionsAfterSync Q env w.
Proof.
  intros Hat HQ. unfold runProjectionsAfterSync. apply wp_bind, wp_get_mgr.
  destruct (projectionConfig (w_mgr w)) as [cfg|]; [|by apply wp_ret, HQ].
  destruct (_ || _); [by apply wp_ret, HQ|].
  apply wp_bind. eapply wp_wait_projections; [done|]. intros w1 l H1. by apply wp_ret, HQ.
Qed.

(** The counters of a result. *)
Definition same_counts (r r' : SyncResult) : Prop :=
  EventsPushed r' = EventsPushed r ∧ ConflictsResolved r' = ConflictsResolved r.

Lemma wp_sync_finish r o s Q env w :
  at_state o s w → (∀ w' r', at_state o s w' → same_counts r r' → Q w' r') →
  wp (sync_finish r) Q env w.
Proof.
  intros Hat HQ. unfold sync_finish. apply wp_bind.
  apply (wp_mono _ (λ w' r', at_state o s w' ∧ same_counts r r')).
  - destruct (res_Errors r); [|by apply wp_ret].
    apply wp_bind. eapply wp_projections; [done|]. intros w1 [e|] H1; by apply wp_ret.
  - intros w1 r1 [H1 Hr1]. apply wp_bind.
    eapply (wp_ask_store _ (λ _, True)); [done| |].
    + intros c st Hok. destruct (safe_LatestVersion c st Hok) as (x & -> & _). by exists x.
    + intros w2 [v|e] H2 _; by apply wp_ret, HQ.
Qed.

(** Whether pushing is possible from a state. *)
Lemma wp_sync_push r o s (Q : World St T → SyncResult * bool → Prop) env w :
  at_state o s w → safe_options (f_options o) →
  (sync_edge s SyncPushing → ∀ w' r', at_state o SyncPushing w' →
     ConflictsResolved r' = ConflictsResolved r → Q w' (r', false)) →
  (¬ sync_edge s SyncPushing → ∀ w' e, at_state o s w' → Q w' (add_error e r, true)) →
  wp (sync_push r) Q env w.
Proof.
  intros Hat Hsafe Hyes Hno. unfold sync_push. apply wp_bind. eapply wp_transition; [done| |].
  - intros He w1 H1. apply wp_bind. eapply wp_push; [done|done|].
    intros w2 [r2 [e|]] H2; by apply wp_ret, Hyes.
  - intros He w1 e H1. by apply wp_ret, Hno.
Qed.

Lemma wp_sync_pull r o (Q : World St T → SyncResult * bool → Prop) env w :
  at_state o SyncInitializing w → safe_options (f_options o) →
  ConflictsResolved r = 0%nat →
  (∀ w' r', at_state o SyncPulling w' → ConflictsResolved r' = 0%nat → Q w' (r', false)) →
  (∀ w' r', at_state o SyncResolvingConflicts w' → EventsPushed r' = EventsPushed r → Q w' (r', false)) →
  wp (sync_pull r) Q env w.
Proof.
  intros Hat Hsafe Hzero Hsame Hres. unfold sync_pull. apply wp_bind. eapply wp_transition; [done| |].
  - intros _ w1 H1. apply wp_bind. eapply wp_pull; [done|done|].
    intros w2 r2 err [[H2 Hc]|(_ & H2 & _)]; apply wp_ret; destruct err; by auto.
  - intros Hn. exfalso. by apply Hn.
Qed.

(** Where the body of a sync leaves the machine, and whether it pushed. *)
Definition body_end (o : Frame) (r r' : SyncResult) w : Prop :=
  let opts := f_options o in
  if PushOnly opts && PullOnly opts then at_state o SyncInitializing w
  else (at_state o SyncPushing w ∧ ConflictsResolved r' = 0%nat)
       ∨ (at_state o SyncPulling w ∧ PullOnly opts = true)
       ∨ (at_state o SyncResolvingConflicts w
          ∧ (PullOnly opts = true ∨ (res_Errors r' ≠ [] ∧ EventsPushed r' = EventsPushed r))).

Lemma wp_sync_body r o Q env w :
  at_state o SyncInitializing w → safe_options (f_options o) → ConflictsResolved r = 0%nat →
  (∀ w' r', body_end o r r' w' → Q w' r') → wp (sync_body r) Q env w.
Proof.
  intros Hat Hsafe Hzero HQ. unfold sync_body. apply wp_bind, wp_get_mgr.
  rewrite (at_options _ _ _ Hat). unfold body_end in HQ. apply wp_bind.
  assert (∀ s r1 w1, at_state o s w1 → sync_edge s SyncPushing →
    PushOnly (f_options o) && PullOnly (f_options o) = false →
    (PullOnly (f_options o) = true → s = SyncPulling) → ConflictsResolved r1 = 0%nat →
    wp (let! (result, stop) := if PullOnly (f_options o) then mret (r1, false) else sync_push r1 in
        if stop : bool then mret result else sync_finish result) Q env w1) as Hpush.
  { intros s r1 w1 H1 He Hb Hp Hr1. rewrite Hb in HQ. apply wp_bind.
    destruct (PullOnly (f_options o)) eqn:Hpull.
    - apply wp_ret. eapply wp_sync_finish; [done|]. intros w2 r2 H2 _. apply HQ.
      rewrite (Hp eq_refl) in H2. auto.
    - eapply wp_sync_push; [done|done| |by intros Hn].
      intros _ w2 r2 H2 Hc2. eapply wp_sync_finish; [done|]. intros w3 r3 H3 [_ Hc3]. apply HQ.
      left. split; [done|congruence]. }
  destruct (PushOnly (f_options o)) eqn:Hpo.
  - apply wp_ret. destruct (PullOnly (f_options o)) eqn:Hpl; cbn [andb] in *.
    + apply wp_bind, wp_ret. eapply wp_sync_finish; [done|]. intros. by apply HQ.
    + eapply Hpush; by try done.
  - cbn [andb] in *. eapply wp_sync_pull; [done|done|done| |].
    + intros w1 r1 H1 Hp1. by eapply (Hpush SyncPulling).
    + intros w1 r1 H1 Hp1. apply wp_bind. destruct (PullOnly (f_options o)) eqn:Hpl.
      * apply wp_ret. eapply wp_sync_finish; [done|]. intros w2 r2 H2 _. apply HQ. auto.
      * eapply wp_sync_push; [done|done|by intros He; apply resolving_next in He|].
        intros _ w2 e H2. apply wp_ret, HQ. right; right. split; [done|]. right.
        split; [|done]. cbn. by destruct (res_Errors r1).
Qed.

(** The deferred function brings a machine in the middle of an operation back
    to idle, and cannot move it from Initializing when there is no error. *)
Lemma wp_sync_defer r o s (Q : World St T → SyncResult → Prop) env w :
  at_state o s w →
  (∀ w' r', w_notified w' = f_notified o ++ ((λ h, (h, r')) <$> subscribers (f_mgr o)) →
     same_counts r r' → res_Errors r' = res_Errors r →
     set_machine None (w_mgr w') = f_mgr o → w_autos w' = f_autos o →
     store_ok (w_store w') → transport_ok (w_transport w') →
     (∃ sm, stateMachine (w_mgr w') = Some sm ∧ sync_ruled sm ∧
        (IsActive s = true → (s = SyncInitializing → res_Errors r ≠ []) → state sm = SyncIdle)
        ∧ (s = SyncInitializing → res_Errors r = [] → state sm = SyncInitializing)) →
     Q w' r') →
  wp (sync_defer r) Q env w.
Proof.
  intros Hat HQ. unfold sync_defer. apply wp_bind. eapply wp_now; [done|]. intros w1 t1 H1.
  cbn zeta. set (final := if negb _ then SyncFailed else SyncCompleted).
  assert (final = if decide (res_Errors r = []) then SyncCompleted else SyncFailed) as Hfinal
    by (unfold final; cbn; by case_bool_decide; case_decide).
  apply wp_bind.
  apply (wp_mono _ (λ w' _, ∃ s', at_state o s' w'
    ∧ (IsActive s = true → (s = SyncInitializing → res_Errors r ≠ []) → s' = final)
    ∧ (s = SyncInitializing → res_Errors r = [] → s' = SyncInitializing))).
  { eapply wp_transition; [done| |].
    - intros He w2 H2. exists final. split_and!; [done|done|]. intros -> Hnil.
      rewrite Hfinal, decide_True in He by done. by vm_compute in He.
    - intros He w2 e H2. exists s. split_and!; [done| |done]. intros Hact Hinit. exfalso. apply He.
      rewrite Hfinal. case_decide as Hnil; [|by destruct s]. destruct s; try done.
      by destruct (Hinit eq_refl). }
  intros w2 _ (s2 & H2 & Hact & Hinit). apply wp_bind.
  apply (wp_mono _ (λ w' _, ∃ s', at_state o s' w'
    ∧ (IsActive s = true → (s = SyncInitializing → res_Errors r ≠ []) → s' = SyncIdle)
    ∧ (s = SyncInitializing → res_Errors r = [] → s' = SyncInitializing))).
  { eapply wp_transition; [done| |].
    - intros He w3 H3. exists SyncIdle. split_and!; [done|done|]. intros Hs Hnil.
      rewrite (Hinit Hs Hnil) in He. by vm_compute in He.
    - intros He w3 e H3. exists s2. split_and!; [done| |done]. intros Ha Hi. exfalso. apply He.
      rewrite (Hact Ha Hi), Hfinal. by case_decide. }
  intros w3 _ (s3 & H3 & Hact3 & Hinit3).
  set (r' := set_duration (time_sub t1 (StartTime r)) r).
  apply wp_bind. unfold notifySubscribers. eexists _, (). split; [reflexivity|].
  set (w4 := mkWorld _ _ _ _ _ _ _).
  apply (wp_mono _ (λ w' a, a = r' ∧ w_store w' = w_store w4 ∧ w_transport w' = w_transport w4
    ∧ w_mgr w' = w_mgr w4 ∧ w_autos w' = w_autos w4 ∧ w_notified w' = w_notified w4)).
  { unfold wp, mbind, metric, mret. destruct (negb (bool_decide (res_Errors r' = []))); cbn -[Nat.ltb];
      [|destruct (Nat.ltb 0 (ConflictsResolved r))]; eexists _, _; (split; [reflexivity|]); by split_and!. }
  intros w5 r5 (-> & Hst5 & Htr5 & Hm5 & Ha5 & Hn5). destruct H3 as [Hst Htr Hm Ha Hn (sm & Hsm & Hru & Hs)].
  apply HQ; rewrite ?Hst5, ?Htr5, ?Hm5, ?Ha5, ?Hn5; cbn; try done.
  - rewrite Hn. f_equal. by rewrite <-Hm.
  - exists sm. rewrite Hs. split_and!; [done|done|auto|auto].
Qed.

(** From an idle, open manager. *)
Lemma wp_Sync o Q env w :
  at_state o SyncIdle w → closed (f_mgr o) = false → safe_options (f_options o) →
  (∀ w' r, w_notified w' = f_notified o ++ ((λ h, (h, r)) <$> subscribers (f_mgr o)) →
     set_machine None (w_mgr w') = f_mgr o → w_autos w' = f_autos o →
     store_ok (w_store w') → transport_ok (w_transport w') →
     (PushOnly (f_options o) && PullOnly (f_options o) = false →
        (∃ sm, stateMachine (w_mgr w') = Some sm ∧ sync_ruled sm ∧ state sm = SyncIdle)
        ∧ (PullOnly (f_options o) = false → (0 < ConflictsResolved r)%nat →
             EventsPushed r = 0%nat ∧ res_Errors r ≠ [])) →
     (PushOnly (f_options o) && PullOnly (f_options o) = true → res_Errors r = [] →
        ∃ sm, stateMachine (w_mgr w') = Some sm ∧ state sm = SyncInitializing) →
     Q w' (Some r, None)) →
  wp Sync Q env w.
Proof.
  intros Hat Hopen Hsafe HQ. unfold Sync. apply wp_bind. eapply wp_now; [done|]. intros w1 t1 H1.
  apply wp_bind, wp_get_mgr.
  assert (closed (w_mgr w1) = false) as Hcl by (by rewrite <-Hopen, <-(at_mgr _ _ _ H1)).
  rewrite Hcl. destruct (at_machine _ _ _ H1) as (sm & Hsm & Hr & Hs). rewrite Hsm.
  cbn [fmap option_fmap option_map]. unfold Current. rewrite Hs.
  change (negb (CanAutoSync SyncIdle)) with false. cbn match. apply wp_bind. eapply wp_transition; [done| |].
  2: { intros Hn. exfalso. by apply Hn. }
  intros _ w2 H2. apply wp_bind. eapply wp_now; [done|]. intros w3 t3 H3.
  apply wp_bind. eapply wp_sync_body; [done|done|done|]. intros w4 r4 Hend.
  apply wp_bind. unfold body_end in Hend.
  destruct (PushOnly (f_options o) && PullOnly (f_options o)) eqn:Hboth.
  - eapply wp_sync_defer; [exact Hend|].
    intros w5 r5 Hn5 [Hp5 Hc5] He5 Hm5 Ha5 Hst5 Htr5 (sm5 & Hsm5 & _ & _ & Hstuck).
    apply wp_ret, HQ; try done. intros _ Hnil. exists sm5. split; [done|]. apply Hstuck; congruence.
  - assert (∃ s, at_state o s w4 ∧ IsActive s = true ∧ s ≠ SyncInitializing
      ∧ (PullOnly (f_options o) = false → (0 < ConflictsResolved r4)%nat →
           EventsPushed r4 = 0%nat ∧ res_Errors r4 ≠ [])) as (s & H4 & Hact & Hne & Hconf).
    { destruct Hend as [[H4 Hc4]|[[H4 Hp4]|[H4 Hp4]]].
      - exists SyncPushing. split_and!; [done|done|done|lia].
      - exists SyncPulling. split_and!; [done|done|done|congruence].
      - exists SyncResolvingConflicts. split_and!; [done|done|done|].
        intros Hf _. destruct Hp4 as [?|[? Hp]]; [congruence|]. by rewrite Hp. }
    eapply wp_sync_defer; [exact H4|].
    intros w5 r5 Hn5 [Hp5 Hc5] He5 Hm5 Ha5 Hst5 Htr5 (sm5 & Hsm5 & Hr5 & Hidle & _).
    apply wp_ret, HQ; try done. intros _. split.
    + exists sm5. split_and!; [done|done|]. by apply Hidle.
    + rewrite Hp5, Hc5, He5. exact Hconf.
Qed.
End safety.

(** ** The implementations are safe *)

Lemma check_since_sound v : sound_opt v → ∃ r, check_since v = Done r.
Proof.
  intros (v' & -> & Hv). unfold check_since. destruct v' as [s|cs|[p|]|]; [by eexists..| |by eexists].
  by destruct Hv.
Qed.
Lemma integer_sound n : sound_opt (Some (IntegerCursor n)).
Proof. by exists (IntegerCursor n). Qed.
Lemma Forall_filter_sound (P : EventWithVersion → Prop) `{!∀ x, Decision (P x)} evs :
  Forall sound evs → Forall sound (filter P evs).
Proof. rewrite !Forall_forall. intros Hs x [_ Hx]%list_elem_of_filter. by apply Hs. Qed.

(** A store that is closed, or whose index exists and whose events are whole. *)
Definition memstore_ok (s : MemStore.MemStore) : Prop :=
  MemStore.closed s = true ∨ (is_Some (MemStore.streams s) ∧ Forall sound (MemStore.events s)).

Lemma filterM_sound sinceSeq fm evs :
  Forall sound evs →
  ∃ l, filterM (MemStore.selected sinceSeq fm) evs = Done l ∧ Forall sound l.
Proof.
  intros Hs. induction Hs as [|ev evs Hev Hs (l & Hl & Hls)]; [by exists []|].
  assert (∃ b, MemStore.selected sinceSeq fm ev = Done b) as [b Hb].
  { unfold MemStore.selected. destruct (as_integer _) as [seq ok]. destruct (ok && _); [|by eexists].
    destruct Hev as [[e ->] _]. destruct (MemStore.matchesFilters_cases fm e) as (b & Hb & _). by exists b. }
  cbn [filterM]. rewrite Hb. cbn [obind]. rewrite Hl. cbn [obind]. eexists. split; [done|].
  destruct b; [by apply Forall_cons|done].
Qed.

#[export] Program Instance memstore_Safe {MR : MapRange} : SafeStore MemStore.MemStore := {|
  store_ok := memstore_ok
|}.
Next Obligation.
  intros MR ctx e v s Hok. cbn [es_Store memstore_EventStore]. unfold MemStore.Store.
  destruct (ctx 0%nat); [by eauto|]. destruct (MemStore.closed s) eqn:Hc; [by eauto|].
  destruct Hok as [|[[m Hm] Hs]]; [congruence|]. unfold MemStore.append_event. rewrite Hm. cbn.
  eexists _, _. split; [reflexivity|]. right. cbn. split; [done|].
  apply Forall_app. split; [done|]. apply Forall_singleton. split; [done|]. by eexists.
Qed.
Next Obligation.
  intros MR ctx v s Hok Hv. cbn [es_Load memstore_EventStore]. unfold MemStore.Load.
  destruct (ctx 0%nat); [by eexists|]. destruct (MemStore.closed s) eqn:Hc; [by eexists|].
  destruct Hok as [|[_ Hs]]; [congruence|]. destruct (check_since_sound v Hv) as [[e|] ->]; [by eexists|].
  cbn [obind]. destruct (filterM_sound (as_integer v).1 (MemStore.filter_map_of []) _ Hs) as (l & -> & Hl).
  eexists. split; [reflexivity|]. by intros ? [= <-].
Qed.
Next Obligation.
  intros MR ctx s Hok. cbn [es_LatestVersion memstore_EventStore]. eexists. split; [reflexivity|].
  unfold MemStore.LatestVersion, lift_version. intros v.
  destruct (ctx 0%nat); [done|]. destruct (MemStore.closed s); [done|].
  destruct (MemStore.events s); intros [= <-]; apply integer_sound.
Qed.
Next Obligation.
  intros MR s Hok. eexists _, _. split; [reflexivity|]. left. unfold MemStore.Close.
  by destruct (MemStore.closed s) eqn:Hc.
Qed.

#[export] Program Instance memchan_Safe {MR : MapRange} (sch : MemChan.Sched) :
    SafeTransport (TR := memchan_Transport sch) MemChan.MemChan := {|
  transport_ok t := MemChan.mc_inv t ∧ Forall sound (MemChan.events t)
|}.
Next Obligation.
  intros MR sch ctx evs t [Hinv Hs] Hevs.
  destruct (MemChan.Push_inv ctx sch evs t Hinv) as (t' & err & Hp & Hinv').
  exists t', err. split; [exact Hp|]. split; [done|]. revert Hp. unfold MemChan.Push.
  destruct (ctx 0%nat); [by intros [= <- <-]|]. destruct (MemChan.closed t); [by intros [= <- <-]|].
  destruct (MemChan.deliver _ _ _ _ _ _) as [[cs e]|]; [|done]. cbn. intros [= <- <-].
  by apply Forall_app.
Qed.
Next Obligation.
  intros MR sch ctx v t [Hinv Hs] Hv. cbn [tr_Pull memchan_Transport]. unfold MemChan.Pull.
  destruct (ctx 0%nat); [by eexists|]. destruct (MemChan.closed t); [by eexists|].
  destruct (check_since_sound v Hv) as [r ->]. cbn [obind]. eexists. split; [reflexivity|].
  destruct r; [done|]. intros evs [= <-]. by apply Forall_filter_sound.
Qed.
Next Obligation.
  intros MR sch ctx t _. cbn [tr_GetLatestVersion memchan_Transport]. eexists. split; [reflexivity|].
  unfold MemChan.GetLatestVersion, lift_version. intros v.
  destruct (ctx 0%nat); [done|]. destruct (MemChan.closed t); [done|].
  destruct (MemChan.events t); intros [= <-]; apply integer_sound.
Qed.
Next Obligation.
  intros MR sch t [Hinv Hs]. destruct (MemChan.Close_inv t Hinv) as (t' & Hc & Hinv' & _).
  exists t', None. cbn [tr_Close memchan_Transport]. rewrite Hc. split; [done|]. split; [done|].
  revert Hc. unfold MemChan.Close. destruct (MemChan.closed t); [by intros [= <-]|].
  destruct (MemChan.close_all _ _); [|done]. cbn. by intros [= <-].
Qed.

#[export] Program Instance null_Safe {MR : MapRange} : SafeTransport nullTransport := {|
  transport_ok _ := True
|}.
Next Obligation. by eauto. Qed.
Next Obligation. intros. eexists. split; [reflexivity|]. by intros ? [= <-]. Qed.
Next Obligation. intros. eexists. split; [reflexivity|]. intros ? [= <-]. by exists nullVersion. Qed.
Next Obligation. by eauto. Qed.

(** ** Properties *)

(** The frame of a world, and the frame once its subscribers heard of [r]. *)
Definition frame_of {St T} (w : World St T) : Frame :=
  mkFrame (set_machine None (w_mgr w)) (w_autos w) (w_notified w).
Definition notified_frame (r : SyncResult) (o : Frame) : Frame :=
  mkFrame (f_mgr o) (f_autos o) (f_notified o ++ ((λ h, (h, r)) <$> subscribers (f_mgr o))).

Section properties.
Context {St T : Type} {ES : EventStore St} {TR : Transport T} {MR : MapRange} {TT : TimeText}.
Context {SS : SafeStore St} {STr : SafeTransport T}.

(** A world in which a sync may start. *)
Definition startable (w : World St T) : Prop :=
  at_state (frame_of w) SyncIdle w ∧ closed (w_mgr w) = false ∧ safe_options (options (w_mgr w)).
Definition both_only (o : SyncOptions) : bool := PushOnly o && PullOnly o.

(** C1: whatever the store, the transport, the contexts, the clock and the
    projections answer, a sync that may start returns a result without a Go
    error; the machine is idle again, so the next sync may start; every
    subscriber is told the result exactly once; and only the store, the
    transport and the machine have changed. *)
Theorem Sync_returns_to_idle (env : Env) (w : World St T) (Hw : startable w)
    (Hflags : both_only (options (w_mgr w)) = false) :
  ∃ w' r, Sync env w = Done (w', (Some r, None))
    ∧ at_state (notified_frame r (frame_of w)) SyncIdle w' ∧ startable w'.
Proof.
  destruct Hw as (Hat & Hopen & Hsafe).
  destruct (wp_Sync (frame_of w) (λ w' a, ∃ r, a = (Some r, None)
    ∧ at_state (notified_frame r (frame_of w)) SyncIdle w') env w Hat Hopen Hsafe)
    as (w' & a & Hrun & r & -> & Hat').
  { intros w' r Hn Hm Ha Hst Htr Hidle _. exists r. split; [done|].
    destruct (Hidle Hflags) as [Hsm _]. by split. }
  exists w', r. split; [done|]. split; [done|].
  assert (set_machine None (w_mgr w') = set_machine None (w_mgr w)) as Hmgr by apply Hat'.
  pose proof (f_equal closed Hmgr) as Hc. pose proof (f_equal options Hmgr) as Ho. cbn in Hc, Ho.
  split_and!; [|congruence|by rewrite Ho].
  destruct Hat'. by split.
Qed.

(** C6: a sync that resolved conflicts and was to push afterwards pushed
    nothing and reports an error: the state table has no way from conflict
    resolution to pushing. *)
Theorem conflicts_prevent_push (env : Env) (w : World St T) (Hw : startable w)
    (Hpull : PullOnly (options (w_mgr w)) = false) :
  ∃ w' r, Sync env w = Done (w', (Some r, None))
    ∧ ((0 < ConflictsResolved r)%nat → EventsPushed r = 0%nat ∧ res_Errors r ≠ []).
Proof.
  destruct Hw as (Hat & Hopen & Hsafe).
  destruct (wp_Sync (frame_of w) (λ w' a, ∃ r, a = (Some r, None)
    ∧ ((0 < ConflictsResolved r)%nat → EventsPushed r = 0%nat ∧ res_Errors r ≠ [])) env w Hat Hopen Hsafe)
    as (w' & a & Hrun & r & -> & Hr).
  { intros w' r _ _ _ _ _ Hidle _. exists r. split; [done|].
    apply Hidle; [cbn|done]. by rewrite Hpull, andb_false_r. }
  by exists w', r.
Qed.

(** C7: a manager that is both push-only and pull-only gets stuck: after its
    first successful sync the machine is still initializing, and every later
    sync is refused and changes nothing but the time. *)
Theorem push_and_pull_only_blocks (env : Env) (w : World St T) (Hw : startable w)
    (Hflags : both_only (options (w_mgr w)) = true) :
  ∃ w' r, Sync env w = Done (w', (Some r, None))
    ∧ (res_Errors r = [] → ∀ env', ∃ e, Sync env' w' = Done (tick w', (None, Some e))).
Proof.
  destruct Hw as (Hat & Hopen & Hsafe).
  destruct (wp_Sync (frame_of w) (λ w' a, ∃ r, a = (Some r, None) ∧ (res_Errors r = [] →
      set_machine None (w_mgr w') = set_machine None (w_mgr w)
      ∧ ∃ sm, stateMachine (w_mgr w') = Some sm ∧ state sm = SyncInitializing)) env w Hat Hopen Hsafe)
    as (w' & a & Hrun & r & -> & Hr).
  { intros w' r _ Hm _ _ _ _ Hstuck. exists r. split; [done|]. intros Hnil. split; [done|].
    by apply Hstuck. }
  exists w', r. split; [done|]. intros Hnil env'. destruct (Hr Hnil) as (Hmgr & sm & Hsm & Hst).
  pose proof (f_equal closed Hmgr) as Hc. cbn in Hc. rewrite Hopen in Hc.
  unfold Sync, mbind, now, get_mgr. cbn [w_mgr tick]. rewrite Hc, Hsm.
  cbn [fmap option_fmap option_map]. unfold Current. rewrite Hst. by eexists.
Qed.
End properties.

(** ** Concrete runs *)
#[local] Instance demo_text : TimeText := {| rfc3339 := format_int; duration_string := format_int |}.
#[local] Instance demo_range : MapRange := canonical_range.

Lemma sample_startable {St T} {ES : EventStore St} {TR : Transport T} {SS : SafeStore St}
    {STr : SafeTransport T} (s : St) (t : T) (o : SyncOptions) :
  store_ok s → transport_ok t → safe_options o → startable (sample_world s t o).
Proof.
  intros Hs Ht Ho. split_and!; [|done|done]. split; try done.
  exists (new_sync_machine 0). split_and!; [done|apply new_sync_machine_ruled|done].
Qed.
Lemma sample_options_safe po pl batch : safe_options (sample_options po pl None None batch).
Proof. by split. Qed.

Definition demo_remote_event : EventWithVersion :=
  mkEWV (Some (mkEvent "r1" "Updated" "order-1" AnyNil None)) (Some (IntegerCursor 7)).
Definition demo_chan : MemChan.MemChan :=
  MemChan.mkMemChan [demo_remote_event] [] ∅ 0 16 false.
Lemma demo_event_sound : sound demo_remote_event.
Proof. split; [by eexists|by eexists]. Qed.
Lemma demo_chan_ok : MemChan.mc_inv demo_chan ∧ Forall sound (MemChan.events demo_chan).
Proof. split; [split; cbn; [lia|apply NoDup_nil_2|set_solver|done]|by apply Forall_singleton, demo_event_sound]. Qed.
Lemma memstore_New_ok : memstore_ok MemStore.New.
Proof. right. split; [by eexists|apply Forall_nil_2]. Qed.

Lemma Sync_returns_to_idle_witness :
  let w : World MemStore.MemStore MemChan.MemChan :=
    sample_world MemStore.New demo_chan (sample_options false false None None 0) in
  ∃ w' r, Sync (TR := memchan_Transport MemChan.eager) sample_env w = Done (w', (Some r, None))
    ∧ at_state (STr := memchan_Safe MemChan.eager) (notified_frame r (frame_of w)) SyncIdle w'
    ∧ startable (STr := memchan_Safe MemChan.eager) w'.
Proof.
  apply Sync_returns_to_idle; [|reflexivity].
  apply sample_startable; [apply memstore_New_ok|apply demo_chan_ok|apply sample_options_safe].
Defined.

Lemma push_and_pull_only_blocks_witness :
  let w := sample_world MemStore.New NullTransport (sample_options true true None None 0) in
  ∃ w' r, Sync sample_env w = Done (w', (Some r, None))
    ∧ (res_Errors r = [] → ∀ env', ∃ e, Sync env' w' = Done (tick w', (None, Some e))).
Proof.
  apply push_and_pull_only_blocks; [|reflexivity].
  apply sample_startable; [apply memstore_New_ok|done|apply sample_options_safe].
Defined.

(** A store whose latest version lags behind its events, so that a pull finds
    local events to compare with. *)
Definition LaggingStore : Type := list EventWithVersion.
#[local] Instance lagging_EventStore : EventStore LaggingStore := {|
  es_Store := λ _ e _ s, Done (s ++ [mkEWV e (Some (IntegerCursor (Z.of_nat (length s)))) ], None);
  es_Load := λ _ _ _ s, Done (Ok s);
  es_LoadByAggregate := λ _ _ _ _ s, Done (Ok s);
  es_LatestVersion := λ _ s, Done (Ok (Some (IntegerCursor 0)));
  es_ParseVersion := λ _ _ s, Done (Ok (Some (IntegerCursor 0)));
  es_Close := λ s, Done (s, None)
|}.
#[local] Program Instance lagging_Safe : SafeStore LaggingStore := {| store_ok := Forall sound |}.
Next Obligation.
  intros ctx e v s Hs. eexists _, _. split; [reflexivity|]. apply Forall_app. split; [done|].
  apply Forall_singleton. split; by eexists.
Qed.
Next Obligation. intros ctx v s Hs _. eexists. split; [reflexivity|]. by intros ? [= <-]. Qed.
Next Obligation.
  intros ctx s _. eexists. split; [reflexivity|]. intros ? [= <-]. apply integer_sound.
Qed.
Next Obligation. by eauto. Qed.

Definition merging : SyncOptions := sample_options false false (Some LastWriteWins) None 0.
Lemma merging_safe : safe_options merging.
Proof.
  split; [done|]. intros ctx c Hl Hr. unfold LastWriteWins.
  pose proof Hl as (_ & vl & Hvl & Hsl). pose proof Hr as (_ & vr & Hvr & Hsr). rewrite Hvl, Hvr.
  destruct (version_Compare_sound vl (Some vr) Hsl) as [z ->]. cbn [obind].
  destruct (z =? -1); [|destruct (z =? 1)]; eexists _, _; (split; [reflexivity|]);
    by apply Forall_singleton.
Qed.

(** The run of the witness does resolve a conflict. *)
Definition conflicts_of {W} (run : outcome (W * (option SyncResult * option error))) : option nat :=
  match run with Done (_, (Some r, _)) => Some (ConflictsResolved r) | _ => None end.
Lemma conflicts_prevent_push_witness :
  let w : World LaggingStore MemChan.MemChan :=
    sample_world [mkEWV (Some (mkEvent "l1" "Updated" "order-1" AnyNil None)) (Some (IntegerCursor 3))]
      demo_chan merging in
  ∃ w' r, Sync (TR := memchan_Transport MemChan.eager) sample_env w = Done (w', (Some r, None))
    ∧ ConflictsResolved r = 1%nat ∧ EventsPushed r = 0%nat ∧ res_Errors r ≠ [].
Proof.
  cbn zeta. set (w := sample_world _ _ _).
  destruct (conflicts_prevent_push (STr := memchan_Safe MemChan.eager) sample_env w) as (w' & r & Hrun & Hr);
    [apply sample_startable; [by apply Forall_singleton; split; eexists|apply demo_chan_ok|apply merging_safe]
    |reflexivity|].
  exists w', r. split; [exact Hrun|].
  assert (conflicts_of (Sync (TR := memchan_Transport MemChan.eager) sample_env w) = Some 1%nat) as Hc
    by (vm_compute; reflexivity).
  rewrite Hrun in Hc. cbn in Hc. injection Hc as Hc.
  split; [exact Hc|]. apply Hr. rewrite Hc. lia.
Defined.
