(* ===== verification/ManagerBuild.v ===== *)
(** * Building a manager (src/synckit: sync.go, builder.go, manager_options.go,
    node.go, node_presets.go)

    The constructor with its defaults, the fluent builder, the functional
    options and the presets: which configurations are refused, and what the
    others promise to the operations of [Manager.v].  Loggers, tracers, health
    checkers and metrics collectors are left out; the observability hooks that
    the constructor subscribes to the state machine are one observer. *)
From S2P Require Import Prelude Types Json Errors VectorClock Versions StateMachine SyncState.
From S2P Require Import Resolvers Interfaces Detect Manager ManagerSafety.
From S2P Require MemStore MemChan.
From stdpp Require Import options.

Definition second : Z := 1000000000.
Definition millisecond : Z := 1000000.

(** The observer that wraps the collector and the tracer. *)
Definition hooks_observer : nat := 0.

(** The collector is never nil when this is called, so the early return for
    missing observability components is never taken. *)
Definition createSyncStateMachine (now : Z) : result error (machine SyncState) :=
  match NewSyncStateMachine now with
  | Err e => Err e
  | Ok m => Ok (StateMachine.Subscribe (Some hooks_observer) m)
  end.

Section build.
Context {MR : MapRange}.

Definition set_resolver (r : option Resolver) (o : SyncOptions) : SyncOptions :=
  mkSyncOptions (PushOnly o) (PullOnly o) r (EventFilter o) (BatchSize o) (SyncInterval o)
    (Retry o) (EnableValidation o) (Timeout o) (EnableCompression o).

Definition default_options : SyncOptions :=
  mkSyncOptions false false None None 100 0
    (Some (mkRetry 3 (100 * millisecond) (5 * second))) false 0 false.

Definition default_resolver : Resolver :=
  match NewDynamicResolver [WithFallback (Some LastWriteWins); WithLogger] with
  | Ok d => DynamicResolver d
  | Err _ => LastWriteWins
  end.

(** The caller's options are changed in place: the result holds them as they
    are afterwards, and the manager its copy of them. *)
Definition NewSyncManager (now : Z) (opts : option SyncOptions) (pc : option ProjectionConfig)
    : outcome (SyncOptions * syncManager) :=
  let o := default default_options opts in
  let o := match ConflictResolver o with
           | None => set_resolver (Some default_resolver) o
           | Some _ => o
           end in
  let sm := match createSyncStateMachine now with Ok m => Some m | Err _ => None end in
  let m := mkManager o sm None 0 [] false pc in
  match pc with
  | Some cfg =>
      if RunOnSync cfg && Nat.ltb 0 (Runners cfg) && (MaxWorkers cfg <? 0)
      then Panic "makechan: size out of range" else Done (o, m)
  | None => Done (o, m)
  end.

(** [withTimeout]: the limit of one operation. *)
Definition withTimeout (o : SyncOptions) : Z :=
  if 0 <? Timeout o then Timeout o else 30 * second.

(** ** The builder *)
Context {St T : Type}.

Record SyncManagerBuilder := mkBuilder {
  b_store : option St;
  b_transport : option T;
  b_options : SyncOptions;
  pushOnlySet : bool;
  pullOnlySet : bool;
  projectionRunners : nat;
  runProjectionsOnSync : bool;
  projectionMaxWorkers : Z;
  projectionTimeout : Z
}.
Definition builder_options : SyncOptions :=
  mkSyncOptions false false None None 100 0 None false 0 false.
Definition NewSyncManagerBuilder : SyncManagerBuilder :=
  mkBuilder None None builder_options false false 0 false 3 (30 * second).
Definition Builder_Reset (b : SyncManagerBuilder) : SyncManagerBuilder :=
  mkBuilder None None builder_options false false 0 false 3 (30 * second).

Definition set_options (o : SyncOptions) (b : SyncManagerBuilder) : SyncManagerBuilder :=
  mkBuilder (b_store b) (b_transport b) o (pushOnlySet b) (pullOnlySet b) (projectionRunners b)
    (runProjectionsOnSync b) (projectionMaxWorkers b) (projectionTimeout b).
Definition b_WithStore (s : option St) (b : SyncManagerBuilder) : SyncManagerBuilder :=
  mkBuilder s (b_transport b) (b_options b) (pushOnlySet b) (pullOnlySet b) (projectionRunners b)
    (runProjectionsOnSync b) (projectionMaxWorkers b) (projectionTimeout b).
Definition b_WithTransport (t : option T) (b : SyncManagerBuilder) : SyncManagerBuilder :=
  mkBuilder (b_store b) t (b_options b) (pushOnlySet b) (pullOnlySet b) (projectionRunners b)
    (runProjectionsOnSync b) (projectionMaxWorkers b) (projectionTimeout b).
Definition b_WithBatchSize (n : Z) (b : SyncManagerBuilder) : SyncManagerBuilder :=
  let o := b_options b in
  set_options (mkSyncOptions (PushOnly o) (PullOnly o) (ConflictResolver o) (EventFilter o) n
    (SyncInterval o) (Retry o) (EnableValidation o) (Timeout o) (EnableCompression o)) b.
Definition set_direction (push pull : bool) (o : SyncOptions) : SyncOptions :=
  mkSyncOptions push pull (ConflictResolver o) (EventFilter o) (BatchSize o)
    (SyncInterval o) (Retry o) (EnableValidation o) (Timeout o) (EnableCompression o).
Definition b_WithPushOnly (b : SyncManagerBuilder) : SyncManagerBuilder :=
  mkBuilder (b_store b) (b_transport b) (set_direction true false (b_options b)) true (pullOnlySet b)
    (projectionRunners b) (runProjectionsOnSync b) (projectionMaxWorkers b) (projectionTimeout b).
Definition b_WithPullOnly (b : SyncManagerBuilder) : SyncManagerBuilder :=
  mkBuilder (b_store b) (b_transport b) (set_direction false true (b_options b)) (pushOnlySet b) true
    (projectionRunners b) (runProjectionsOnSync b) (projectionMaxWorkers b) (projectionTimeout b).
Definition b_WithConflictResolver (r : option Resolver) (b : SyncManagerBuilder) : SyncManagerBuilder :=
  set_options (set_resolver r (b_options b)) b.
Definition b_WithFilter (f : option (option Event → outcome bool)) (b : SyncManagerBuilder)
    : SyncManagerBuilder :=
  let o := b_options b in
  set_options (mkSyncOptions (PushOnly o) (PullOnly o) (ConflictResolver o) f (BatchSize o)
    (SyncInterval o) (Retry o) (EnableValidation o) (Timeout o) (EnableCompression o)) b.
Definition b_WithSyncInterval (d : Z) (b : SyncManagerBuilder) : SyncManagerBuilder :=
  let o := b_options b in
  set_options (mkSyncOptions (PushOnly o) (PullOnly o) (ConflictResolver o) (EventFilter o) (BatchSize o)
    d (Retry o) (EnableValidation o) (Timeout o) (EnableCompression o)) b.
Definition b_WithValidation (b : SyncManagerBuilder) : SyncManagerBuilder :=
  let o := b_options b in
  set_options (mkSyncOptions (PushOnly o) (PullOnly o) (ConflictResolver o) (EventFilter o) (BatchSize o)
    (SyncInterval o) (Retry o) true (Timeout o) (EnableCompression o)) b.
Definition b_WithTimeout (d : Z) (b : SyncManagerBuilder) : SyncManagerBuilder :=
  let o := b_options b in
  set_options (mkSyncOptions (PushOnly o) (PullOnly o) (ConflictResolver o) (EventFilter o) (BatchSize o)
    (SyncInterval o) (Retry o) (EnableValidation o) d (EnableCompression o)) b.
Definition b_WithCompression (enabled : bool) (b : SyncManagerBuilder) : SyncManagerBuilder :=
  let o := b_options b in
  set_options (mkSyncOptions (PushOnly o) (PullOnly o) (ConflictResolver o) (EventFilter o) (BatchSize o)
    (SyncInterval o) (Retry o) (EnableValidation o) (Timeout o) enabled) b.
Definition set_projections (runners : nat) (run : bool) (workers timeout : Z) (b : SyncManagerBuilder)
    : SyncManagerBuilder :=
  mkBuilder (b_store b) (b_transport b) (b_options b) (pushOnlySet b) (pullOnlySet b) runners run
    workers timeout.
Definition b_WithProjections (n : nat) (b : SyncManagerBuilder) : SyncManagerBuilder :=
  set_projections (projectionRunners b + n) (runProjectionsOnSync b) (projectionMaxWorkers b)
    (projectionTimeout b) b.
Definition b_WithProjectionsOnSync (on : bool) (b : SyncManagerBuilder) : SyncManagerBuilder :=
  set_projections (projectionRunners b) on (projectionMaxWorkers b) (projectionTimeout b) b.
Definition b_WithProjectionMaxWorkers (n : Z) (b : SyncManagerBuilder) : SyncManagerBuilder :=
  if 0 <? n then set_projections (projectionRunners b) (runProjectionsOnSync b) n (projectionTimeout b) b
  else b.
Definition b_WithProjectionTimeout (d : Z) (b : SyncManagerBuilder) : SyncManagerBuilder :=
  set_projections (projectionRunners b) (runProjectionsOnSync b) (projectionMaxWorkers b) d b.

(** A manager with the store and the transport it was given. *)
Abbreviation built := (St * T * syncManager)%type.

(** The builder is returned too: its options gain the default resolver. *)
Definition Build (now : Z) (b : SyncManagerBuilder)
    : outcome (SyncManagerBuilder * result error built) :=
  match b_store b with
  | None => Done (b, Err (ErrMsg "EventStore is required"))
  | Some s =>
      match b_transport b with
      | None => Done (b, Err (ErrMsg "Transport is required"))
      | Some t =>
          if pushOnlySet b && pullOnlySet b then
            Done (b, Err (ErrMsg "cannot set both PushOnly and PullOnly to true"))
          else if BatchSize (b_options b) <=? 0 then
            Done (b, Err (ErrMsg ("BatchSize must be positive, got " +:+ format_int (BatchSize (b_options b)))))
          else
            let pc := mkProjection (projectionRunners b) (runProjectionsOnSync b)
                        (projectionMaxWorkers b) (projectionTimeout b) in
            let* (o, m) := NewSyncManager now (Some (b_options b)) (Some pc) in
            Done (set_options o b, Ok (s, t, m))
      end
  end.

(** ** Functional options *)
Inductive ManagerOption :=
  | WithStore (s : option St)
  | WithSQLite (path : string)
  | WithHTTPTransport (baseURL : string)
  | WithTransport (t : option T)
  | WithConflictResolver (r : option Resolver)
  | WithBatchSize (n : Z)
  | WithTimeout (d : Z)
  | WithSyncInterval (d : Z)
  | WithEventFilter (f : option (option Event → outcome bool))
  | WithValidation
  | WithCompression (enabled : bool)
  | WithPushOnly
  | WithPullOnly
  | WithProjections (n : nat)
  | WithProjectionsOnSync (on : bool)
  | WithProjectionMaxWorkers (n : Z)
  | WithProjectionTimeout (d : Z).
Definition WithLWW : ManagerOption := WithConflictResolver (Some LastWriteWins).
Definition WithFWW : ManagerOption := WithConflictResolver (Some FirstWriteWins).
Definition WithAdditiveMerge : ManagerOption := WithConflictResolver (Some AdditiveMerge).

Definition unavailable (op msg hint : string) : error :=
  Errors.E [AOp op; AComponent "synckit"; AKind KindInvalid; AErr (ErrMsg msg); AText hint].
Definition err_sqlite : error :=
  unavailable "WithSQLite"
    "WithSQLite is not available to avoid import cycles. Create SQLite store separately and use WithStore()"
    "suggestion: Use WithStore(sqlite.NewWithDataSource(path))".
Definition err_http : error :=
  unavailable "WithHTTPTransport"
    "WithHTTPTransport is not available to avoid import cycles. Create HTTP transport separately and use WithTransport()"
    "suggestion: Use WithTransport(httptransport.NewTransport(baseURL, nil, nil, nil))".

Definition apply_manager_option (b : SyncManagerBuilder) (o : ManagerOption)
    : result error SyncManagerBuilder :=
  match o with
  | WithStore s => Ok (b_WithStore s b)
  | WithSQLite _ => Err err_sqlite
  | WithHTTPTransport _ => Err err_http
  | WithTransport t => Ok (b_WithTransport t b)
  | WithConflictResolver r => Ok (b_WithConflictResolver r b)
  | WithBatchSize n => Ok (b_WithBatchSize n b)
  | WithTimeout d => Ok (b_WithTimeout d b)
  | WithSyncInterval d => Ok (b_WithSyncInterval d b)
  | WithEventFilter f => Ok (b_WithFilter f b)
  | WithValidation => Ok (b_WithValidation b)
  | WithCompression e => Ok (b_WithCompression e b)
  | WithPushOnly => Ok (b_WithPushOnly b)
  | WithPullOnly => Ok (b_WithPullOnly b)
  | WithProjections n => Ok (b_WithProjections n b)
  | WithProjectionsOnSync on => Ok (b_WithProjectionsOnSync on b)
  | WithProjectionMaxWorkers n => Ok (b_WithProjectionMaxWorkers n b)
  | WithProjectionTimeout d => Ok (b_WithProjectionTimeout d b)
  end.
Fixpoint apply_manager_options (b : SyncManagerBuilder) (os : list ManagerOption)
    : result error SyncManagerBuilder :=
  match os with
  | [] => Ok b
  | o :: os =>
      match apply_manager_option b o with
      | Err e => Err (Errors.NewWithComponent OpStore "synckit" e)
      | Ok b => apply_manager_options b os
      end
  end.

Definition err_no_store : error :=
  Errors.E [AOp "NewManager"; AComponent "synckit"; AKind KindInvalid;
            AErr (ErrMsg "store is required (use WithStore(...))")].
Definition NewManager (now : Z) (os : list ManagerOption) : outcome (result error built) :=
  match apply_manager_options NewSyncManagerBuilder os with
  | Err e => Done (Err e)
  | Ok b =>
      match b_store b with
      | None => Done (Err err_no_store)
      | Some _ => let* (_, r) := Build now b in Done r
      end
  end.
Definition NewNode : Z → list ManagerOption → outcome (result error built) := NewManager.

(** The presets differ in name only. *)
Definition NewPresetNode (now : Z) (s : option St) (t : option T) : outcome (result error built) :=
  match s, t with
  | None, _ => Done (Err (ErrMsg "store cannot be nil"))
  | _, None => Done (Err (ErrMsg "transport cannot be nil"))
  | Some _, Some _ => NewNode now [WithStore s; WithTransport t]
  end.
Definition NewInMemoryNode : Z → option St → option T → outcome (result error built) := NewPresetNode.
Definition NewHTTPServerNode : Z → option St → option T → outcome (result error built) := NewPresetNode.
Definition NewHTTPClientNode : Z → option St → option T → outcome (result error built) := NewPresetNode.
End build.
Arguments SyncManagerBuilder : clear implicits.
Arguments ManagerOption : clear implicits.

(** ** What the options amount to *)
Section summary.
Context {MR : MapRange} {St T : Type}.
Implicit Types (b : SyncManagerBuilder St T) (os : list (ManagerOption St T)).

Definition unavailable_option (o : ManagerOption St T) : Prop :=
  match o with WithSQLite _ | WithHTTPTransport _ => True | _ => False end.

(** The last option of each kind wins. *)
Definition last_store (d : option St) os : option St :=
  fold_left (λ d o, match o with WithStore s => s | _ => d end) os d.
Definition last_transport (d : option T) os : option T :=
  fold_left (λ d o, match o with WithTransport t => t | _ => d end) os d.
Definition last_batch (d : Z) os : Z :=
  fold_left (λ d o, match o with WithBatchSize n => n | _ => d end) os d.
Definition last_filter (d : option (option Event → outcome bool)) os :=
  fold_left (λ d o, match o with WithEventFilter f => f | _ => d end) os d.
Definition last_resolver (d : option Resolver) os : option Resolver :=
  fold_left (λ d o, match o with WithConflictResolver r => r | _ => d end) os d.
Definition has_push os : bool :=
  existsb (λ o, match o with WithPushOnly => true | _ => false end) os.
Definition has_pull os : bool :=
  existsb (λ o, match o with WithPullOnly => true | _ => false end) os.

Record summarises b b' os : Prop := {
  sum_store : b_store b' = last_store (b_store b) os;
  sum_transport : b_transport b' = last_transport (b_transport b) os;
  sum_batch : BatchSize (b_options b') = last_batch (BatchSize (b_options b)) os;
  sum_filter : EventFilter (b_options b') = last_filter (EventFilter (b_options b)) os;
  sum_resolver : ConflictResolver (b_options b') = last_resolver (ConflictResolver (b_options b)) os;
  sum_push : pushOnlySet b' = pushOnlySet b || has_push os;
  sum_pull : pullOnlySet b' = pullOnlySet b || has_pull os
}.

(** What every builder keeps to. *)
Definition sane b : Prop :=
  both_only (b_options b) = false ∧ 0 < projectionMaxWorkers b ∧ Retry (b_options b) = None.

Lemma apply_one b o :
  match apply_manager_option b o with
  | Ok b' => ¬ unavailable_option o ∧ summarises b b' [o] ∧ (sane b → sane b')
  | Err _ => unavailable_option o
  end.
Proof.
  destruct o; cbn; try done; (split; [tauto|]); (split; [split; cbn; rewrite ?orb_true_r, ?orb_false_r; try done|]);
    try (intros (H1 & H2 & H3); split_and!; done); unfold b_WithProjectionMaxWorkers;
    destruct (Z.ltb_spec 0 n); try done; intros (H1 & H2 & H3); by split_and!.
Qed.

Lemma summarises_trans b1 b2 b3 o os :
  summarises b1 b2 [o] → summarises b2 b3 os → summarises b1 b3 (o :: os).
Proof.
  intros [A1 A2 A3 A4 A5 A6 A7] [B1 B2 B3 B4 B5 B6 B7].
  split; [by rewrite B1, A1|by rewrite B2, A2|by rewrite B3, A3|by rewrite B4, A4|by rewrite B5, A5|..].
  - rewrite B6, A6. cbn. by rewrite orb_false_r, orb_assoc.
  - rewrite B7, A7. cbn. by rewrite orb_false_r, orb_assoc.
Qed.

Lemma apply_all b os :
  match apply_manager_options b os with
  | Ok b' => (∀ o, o ∈ os → ¬ unavailable_option o) ∧ summarises b b' os ∧ (sane b → sane b')
  | Err _ => ∃ o, o ∈ os ∧ unavailable_option o
  end.
Proof.
  revert b; induction os as [|o os IH]; intros b; cbn [apply_manager_options].
  { split; [by intros o []%not_elem_of_nil|]. split; [|done]. split; cbn; by rewrite ?orb_false_r. }
  pose proof (apply_one b o) as Hone. destruct (apply_manager_option b o) as [b1|e].
  2: { exists o. split; [left|done]. }
  destruct Hone as (Hu & Hs & Hi). specialize (IH b1).
  destruct (apply_manager_options b1 os) as [b2|e].
  - destruct IH as (Hu2 & Hs2 & Hi2). split; [|split; [by eapply summarises_trans|auto]].
    intros o' [->|Ho']%elem_of_cons; [done|by apply Hu2].
  - destruct IH as (o' & Ho' & Hu'). exists o'. split; [by right|done].
Qed.

Lemma observers_ruled l m : sync_ruled m → sync_ruled (set_observers l m).
Proof. exact id. Qed.

Lemma NewSyncManager_fields now o pc :
  (∀ cfg, pc = Some cfg → 0 ≤ MaxWorkers cfg) →
  ∃ o' m, NewSyncManager now (Some o) pc = Done (o', m)
    ∧ o' = set_resolver (Some (default default_resolver (ConflictResolver o))) o ∧ options m = o'
    ∧ closed m = false ∧ autoSyncCancel m = None ∧ subscribers m = []
    ∧ ∃ sm, stateMachine m = Some sm ∧ sync_ruled sm ∧ state sm = SyncIdle
        ∧ observers sm = [hooks_observer].
Proof.
  intros Hpc. unfold NewSyncManager. cbn [default].
  set (o' := match ConflictResolver o with None => set_resolver (Some default_resolver) o | Some _ => o end).
  assert (o' = set_resolver (Some (default default_resolver (ConflictResolver o))) o) as Ho'.
  { unfold o', set_resolver. by destruct o as [? ? [r|] ? ? ? ? ? ? ?]. }
  unfold createSyncStateMachine. rewrite NewSyncStateMachine_ok. cbn [StateMachine.Subscribe].
  assert (∃ m, (match pc with
    | Some cfg => if RunOnSync cfg && Nat.ltb 0 (Runners cfg) && (MaxWorkers cfg <? 0)
                  then Panic "makechan: size out of range"
                  else Done (o', mkManager o' (Some (set_observers [hooks_observer] (new_sync_machine now)))
                                   None 0 [] false pc)
    | None => Done (o', mkManager o' (Some (set_observers [hooks_observer] (new_sync_machine now)))
                                   None 0 [] false pc)
    end) = Done (o', m)
    ∧ m = mkManager o' (Some (set_observers [hooks_observer] (new_sync_machine now))) None 0 [] false pc)
    as (m & Hm & Heq).
  { destruct pc as [cfg|]; [|by eexists]. specialize (Hpc cfg eq_refl).
    replace (MaxWorkers cfg <? 0) with false by (symmetry; apply Z.ltb_ge; lia).
    rewrite andb_false_r. by eexists. }
  exists o', m. split; [exact Hm|]. split; [done|]. subst m. cbn. split_and!; try done.
  eexists. split; [done|]. split_and!; [|done|done].
  apply observers_ruled, new_sync_machine_ruled.
Qed.

(** The world of a manager that was just built. *)
Definition fresh_world (b : St * T * syncManager) : World St T :=
  let '(s, t, m) := b in mkWorld s t m [] 0 [] [].

(** Which configurations [NewManager] accepts. *)
Definition acceptable os : Prop :=
  (∀ o, o ∈ os → ¬ unavailable_option o)
  ∧ is_Some (last_store None os) ∧ is_Some (last_transport None os)
  ∧ has_push os && has_pull os = false ∧ 0 < last_batch 100 os.

Lemma NewManager_cases now os :
  match NewManager now os with
  | Panic _ => False
  | Done (Err _) => ¬ acceptable os
  | Done (Ok (s, t, m)) =>
      acceptable os ∧ last_store None os = Some s ∧ last_transport None os = Some t
      ∧ BatchSize (options m) = last_batch 100 os
      ∧ EventFilter (options m) = last_filter None os
      ∧ ConflictResolver (options m) = Some (default default_resolver (last_resolver None os))
      ∧ both_only (options m) = false ∧ Retry (options m) = None
      ∧ closed m = false ∧ autoSyncCancel m = None ∧ subscribers m = []
      ∧ ∃ sm, stateMachine m = Some sm ∧ sync_ruled sm ∧ state sm = SyncIdle
          ∧ observers sm = [hooks_observer]
  end.
Proof.
  unfold NewManager. pose proof (apply_all NewSyncManagerBuilder os) as Hall.
  destruct (apply_manager_options NewSyncManagerBuilder os) as [b|e].
  2: { destruct Hall as (o & Ho & Hu). intros (Hav & _). by apply (Hav o). }
  destruct Hall as (Hav & [Hs Ht Hb Hf Hr Hpu Hpl] & Hsane).
  assert (sane b) as (Hone & Hwork & Hretry) by (by apply Hsane; split_and!).
  cbn in Hs, Ht, Hb, Hf, Hr, Hpu, Hpl. unfold acceptable.
  destruct (b_store b) as [s|] eqn:Hst.
  2: { intros (_ & [x Hx] & _). congruence. }
  unfold Build. rewrite Hst. destruct (b_transport b) as [t|] eqn:Htr; cbn [obind].
  2: { intros (_ & _ & [x Hx] & _). congruence. }
  rewrite Hpu, Hpl. destruct (has_push os && has_pull os) eqn:Hboth; cbn [obind].
  { intros (_ & _ & _ & H & _). congruence. }
  destruct (Z.leb_spec (BatchSize (b_options b)) 0) as [Hle|Hgt]; cbn [obind].
  { intros (_ & _ & _ & _ & H). lia. }
  destruct (NewSyncManager_fields now (b_options b)
    (Some (mkProjection (projectionRunners b) (runProjectionsOnSync b) (projectionMaxWorkers b) (projectionTimeout b))))
    as (o' & m & -> & Ho' & Hm & Hc & Ha & Hsub & Hmach); [intros cfg [= <-]; cbn; lia|].
  cbn [obind]. rewrite Hm, Ho'. cbn. rewrite <-Hs, <-Ht, <-Hb, <-Hf, <-Hr.
  split_and!; try done.
Qed.
End summary.

(** ** Properties *)

(** Remark: [NewManager] never panics and accepts exactly the configurations with a
    store, a transport, a positive batch size, at most one of push-only and
    pull-only and none of the unavailable options; the manager then holds the
    last store, transport, batch size, filter and resolver given, a resolver in
    any case, is idle, open and without retries, and its options may be relied
    on not to be push-only and pull-only at once. *)
Theorem NewManager_outcome {MR : MapRange} {St T} (now : Z) (os : list (ManagerOption St T)) :
  ∃ r, NewManager now os = Done r
    ∧ ((∃ b, r = Ok b) ↔ acceptable os)
    ∧ ∀ s t m, r = Ok (s, t, m) →
        last_store None os = Some s ∧ last_transport None os = Some t
        ∧ BatchSize (options m) = last_batch 100 os
        ∧ EventFilter (options m) = last_filter None os
        ∧ ConflictResolver (options m) = Some (default default_resolver (last_resolver None os))
        ∧ both_only (options m) = false ∧ Retry (options m) = None ∧ closed m = false
        ∧ Current <$> stateMachine m = Some SyncIdle.
Proof.
  pose proof (NewManager_cases now os) as Hc.
  destruct (NewManager now os) as [[[[s t] m]|e]|why]; [| |done].
  - destruct Hc as (Hacc & Hs & Ht & Hb & Hf & Hr & Hone & Hret & Hcl & _ & _ & sm & Hsm & _ & Hst & _).
    exists (Ok (s, t, m)). split; [done|]. split; [split; [done|by eexists]|].
    intros s' t' m' [= <- <- <-]. split_and!; try done. rewrite Hsm. cbn. unfold Current. by rewrite Hst.
  - exists (Err e). split; [done|]. split; [|done]. split; [by intros [b Hb]|done].
Qed.

(** The built-in default answers on sound conflicts with sound events. *)
Definition safe_resolver (r : Resolver) : Prop := ∀ ctx c, sound (c_Local c) → sound (c_Remote c) →
  ∃ rc err, r ctx c = Done (rc, err) ∧ Forall sound (ResolvedEvents rc).
Lemma LastWriteWins_safe {MR : MapRange} : safe_resolver LastWriteWins.
Proof.
  intros ctx c Hl Hr. unfold LastWriteWins.
  pose proof Hl as (_ & vl & Hvl & Hsl). pose proof Hr as (_ & vr & Hvr & Hsr). rewrite Hvl, Hvr.
  destruct (version_Compare_sound vl (Some vr) Hsl) as [z ->]. cbn [obind].
  destruct (z =? -1); [|destruct (z =? 1)]; eexists _, _; (split; [reflexivity|]);
    by apply Forall_singleton.
Qed.
Lemma default_resolver_safe {MR : MapRange} : safe_resolver default_resolver.
Proof.
  intros ctx c Hl Hr. destruct (LastWriteWins_safe ctx c Hl Hr) as (rc & err & Hres & Hs).
  unfold default_resolver. cbn [NewDynamicResolver configured]. unfold DynamicResolver.
  assert (∃ log, Resolve (mkOptions [] (Some LastWriteWins) no_hooks) ctx c
    = Done (finish (mkOptions [] (Some LastWriteWins) no_hooks) c log (rc, err))) as [log Hlog].
  { unfold Resolve. cbn [try_rules rules fallback obind]. rewrite Hres. by eexists. }
  change (NewDynamicResolver [WithFallback (Some LastWriteWins); WithLogger])
    with (Ok (E := error) (mkOptions [] (Some LastWriteWins) no_hooks)).
  cbn [obind]. rewrite Hlog. destruct err as [e|]; cbn; by eexists _, _.
Qed.

(** Remark: a manager that [NewManager] builds on a store and a transport that are
    in order may sync at once: its world satisfies what the safety theorems of
    [Sync] ask for, whenever the filter and the resolver given (if any) answer;
    the default resolver does. *)
Theorem built_manager_startable {MR : MapRange} {St T} {ES : EventStore St} {TR : Transport T}
    {SS : SafeStore St} {STr : SafeTransport T} (now : Z) (os : list (ManagerOption St T))
    (s : St) (t : T) (m : syncManager) (Hbuilt : NewManager now os = Done (Ok (s, t, m)))
    (Hs : store_ok s) (Ht : transport_ok t)
    (Hfilter : when (last_filter None os) (λ f, ∀ e, ∃ b, f (Some e) = Done b))
    (Hresolver : when (last_resolver None os) safe_resolver) :
  startable (fresh_world (s, t, m)) ∧ both_only (options m) = false.
Proof.
  pose proof (NewManager_cases now os) as Hc. rewrite Hbuilt in Hc.
  destruct Hc as (_ & _ & _ & _ & Hf & Hr & Hone & _ & Hcl & _ & _ & sm & Hsm & Hru & Hst & _).
  split; [|done]. split_and!; [split; try done; by exists sm|done|]. cbn [fresh_world w_mgr].
  split; [by rewrite Hf|]. rewrite Hr. cbn [when].
  destruct (last_resolver None os) as [r|]; [exact Hresolver|apply default_resolver_safe].
Qed.

(** ** Concrete instances *)
#[local] Instance demo_range : MapRange := canonical_range.

(** The in-memory preset on a new store and a new channel transport. *)
Lemma built_manager_startable_witness :
  match NewInMemoryNode (St := MemStore.MemStore) (T := MemChan.MemChan) 0
          (Some MemStore.New) (Some (MemChan.New 16)) with
  | Done (Ok (s, t, m)) =>
      startable (STr := memchan_Safe MemChan.eager) (fresh_world (s, t, m)) ∧ both_only (options m) = false
  | _ => False
  end.
Proof.
  unfold NewInMemoryNode, NewPresetNode, NewNode.
  set (os := [WithStore (Some MemStore.New); WithTransport (Some (MemChan.New 16))]).
  pose proof (NewManager_cases 0 os) as Hc.
  destruct (NewManager 0 os) as [[[[s t] m]|e]|why] eqn:Hb; [| |done].
  - destruct Hc as (_ & Hs & Ht & _). injection Hs as <-. injection Ht as <-.
    eapply (built_manager_startable 0 os); [exact Hb|apply memstore_New_ok| |exact I|exact I].
    split; [apply MemChan.New_chan_inv|apply Forall_nil_2].
  - apply Hc. split_and!; [|by eexists|by eexists|done|done].
    intros o Ho. repeat (apply elem_of_cons in Ho as [->|Ho]; [cbn; tauto|]). by apply not_elem_of_nil in Ho.
Defined.
