(* ===== verification/Convergence.v ===== *)
(** * What a synchronisation exchanges

    Against a store that is an append-only log and a transport that is a shared
    log (the promises of [Interfaces.v], kept by the in-memory store and the
    channel transport), with contexts that never end: exactly which events a
    pull stores, a push sends and a full sync exchanges, and what follows for
    replicas that share a transport. *)
From S2P Require Import Prelude Types Json Errors VectorClock Versions StateMachine SyncState.
From S2P Require Import Resolvers Interfaces Detect Manager ManagerSafety.
From S2P Require MemStore MemChan.
From stdpp Require Import options.
#[local] Set Default Proof Using "Type*".

(** No context ends. *)
Definition calm (env : Env) : Prop := ∀ n, e_ctx env n = background.

(** The configured filter answers [p] on every event. *)
Definition filters_by (p : Event → bool) (o : SyncOptions) : Prop :=
  match EventFilter o with
  | None => ∀ e, p e = true
  | Some f => ∀ e, f (Some e) = Done (p e)
  end.

(** The events the filter lets through. *)
Definition admitted (p : Event → bool) (ev : EventWithVersion) : Prop :=
  when (ev_event ev) (λ e, p e = true).
#[global] Instance admitted_dec p ev : Decision (admitted p ev).
Proof. unfold admitted. apply _. Defined.

Definition whole (ev : EventWithVersion) : Prop := is_Some (ev_event ev).

(** The entries that storing these events makes, the first one numbered [n]. *)
Fixpoint entries {St} {ES : EventStore St} {LS : LogStore St} (n : Z) (evs : list EventWithVersion)
    : list EventWithVersion :=
  match evs with
  | [] => []
  | ev :: rest =>
      match ev_event ev with
      | Some e => entry e n :: entries (n + 1) rest
      | None => entries n rest
      end
  end.

(** ** Batches *)
Lemma batches_concat fuel n evs :
  (0 < n)%nat → (length evs ≤ fuel)%nat → concat (batches fuel n evs) = evs.
Proof.
  intros Hn. revert evs; induction fuel as [|fuel IH]; intros evs Hlen; [by destruct evs; cbn in *; [|lia]|].
  cbn [batches]. destruct evs as [|ev evs]; [done|]. cbn [concat].
  rewrite IH; [apply take_drop|]. rewrite length_drop. cbn [length] in *. lia.
Qed.
Lemma batches_size fuel n evs :
  Forall (λ b, (length b ≤ n)%nat ∧ (0 < n → b ≠ [])%nat) (batches fuel n evs).
Proof.
  revert evs; induction fuel as [|fuel IH]; intros evs; [apply Forall_nil_2|]. cbn [batches].
  destruct evs as [|ev evs]; [apply Forall_nil_2|]. apply Forall_cons. split; [|apply IH].
  split; [rewrite length_take; lia|]. intros Hn. by destruct n; [lia|].
Qed.

Section exchange.
Context {St T : Type} {ES : EventStore St} {TR : Transport T} {MR : MapRange} {TT : TimeText}.
Context {LS : LogStore St} {LT : LogTransport T}.
Context (env : Env) (Hcalm : calm env) (p : Event → bool).
Implicit Types w : World St T.

(** The world around manager [m]: log, remaining room, shared log and state. *)
Record holds (m : syncManager) (s : SyncState) (l : list EventWithVersion) (room : nat)
    (r : list EventWithVersion) w : Prop := {
  h_log : log (w_store w) = l;
  h_ready : ready (w_store w) room;
  h_remote : remote (w_transport w) = r;
  h_online : online (w_transport w);
  h_mgr : set_machine None (w_mgr w) = m;
  h_machine : ∃ sm, stateMachine (w_mgr w) = Some sm ∧ sync_ruled sm ∧ state sm = s
}.
Lemma holds_options m s l n r w : holds m s l n r w → options (w_mgr w) = options m.
Proof. intros H. by rewrite <-(h_mgr _ _ _ _ _ _ H). Qed.

(** Steps that only look at the clock, a context or the metrics. *)
Lemma hold_now m s l n r (Q : World St T → Z → Prop) w :
  holds m s l n r w → (∀ w' t, holds m s l n r w' → Q w' t) → wp now Q env w.
Proof. intros [] HQ. eexists _, _. split; [reflexivity|]. by apply HQ. Qed.
Lemma hold_poll m s l n r (Q : World St T → option CtxErr → Prop) w :
  holds m s l n r w → (∀ w', holds m s l n r w' → Q w' None) → wp poll Q env w.
Proof. intros [] HQ. exists (tick w), None. unfold poll. rewrite Hcalm. split; [reflexivity|]. by apply HQ. Qed.
Lemma hold_metric m s l n r c (Q : World St T → () → Prop) w :
  holds m s l n r w → (∀ w', holds m s l n r w' → Q w' ()) → wp (metric c) Q env w.
Proof. intros [] HQ. eexists _, _. split; [reflexivity|]. by apply HQ. Qed.
Lemma hold_when_metric m s l n r (b : bool) c (Q : World St T → () → Prop) w :
  holds m s l n r w → (∀ w', holds m s l n r w' → Q w' ()) →
  wp (if b then metric c else mret ()) Q env w.
Proof. intros Hw HQ. destruct b; [by eapply hold_metric|by apply wp_ret, HQ]. Qed.

(** Calls of the store and the transport. *)
Lemma hold_latest m s l n r (Q : World St T → result error (option Version) → Prop) w :
  holds m s l n r w →
  (∀ w', holds m s l n r w' → Q w' (Ok (Some (IntegerCursor (Z.of_nat (length l)))))) →
  wp (ask_store (λ ctx, es_LatestVersion ctx)) Q env w.
Proof.
  intros [] HQ. eexists _, _. unfold ask_store. rewrite Hcalm, (log_LatestVersion _ n) by done.
  split; [reflexivity|]. rewrite h_log0. by apply HQ.
Qed.
Lemma hold_load k m s l n r (Q : World St T → result error (list EventWithVersion) → Prop) w :
  holds m s l n r w → (∀ w', holds m s l n r w' → Q w' (Ok (drop k l))) →
  wp (ask_store (λ ctx, es_Load ctx (Some (IntegerCursor (Z.of_nat k))) [])) Q env w.
Proof.
  intros [] HQ. eexists _, _. unfold ask_store. rewrite Hcalm, (log_Load _ n) by done.
  split; [reflexivity|]. rewrite h_log0. by apply HQ.
Qed.
Lemma hold_store e v m s l n r (Q : World St T → option error → Prop) w :
  holds m s l (S n) r w →
  (∀ w', holds m s (l ++ [entry e (Z.of_nat (length l) + 1)]) n r w' → Q w' None) →
  wp (on_store (λ ctx, es_Store ctx (Some e) v)) Q env w.
Proof.
  intros [] HQ. unfold wp, on_store. rewrite Hcalm.
  destruct (log_Store (w_store w) n e v h_ready0) as (s' & -> & Hready & Hlog).
  eexists _, _. split; [reflexivity|]. apply HQ. split; try done. by rewrite <-h_log0.
Qed.
Lemma hold_remote_latest m s l n r (Q : World St T → result error (option Version) → Prop) w :
  holds m s l n r w →
  (∀ w', holds m s l n r w' → Q w' (Ok (Some (IntegerCursor (MemChan.max_version r))))) →
  wp (ask_transport (λ ctx, tr_GetLatestVersion ctx)) Q env w.
Proof.
  intros [] HQ. eexists _, _. unfold ask_transport. rewrite Hcalm, remote_LatestVersion by done.
  split; [reflexivity|]. rewrite h_remote0. by apply HQ.
Qed.
Lemma hold_pull k m s l n r (Q : World St T → result error (list EventWithVersion) → Prop) w :
  holds m s l n r w → (∀ w', holds m s l n r w' → Q w' (Ok (filter (after k) r))) →
  wp (ask_transport (λ ctx, tr_Pull ctx (Some (IntegerCursor k)))) Q env w.
Proof.
  intros [] HQ. eexists _, _. unfold ask_transport. rewrite Hcalm, remote_Pull by done.
  split; [reflexivity|]. rewrite h_remote0. by apply HQ.
Qed.
Lemma hold_push evs m s l n r (Q : World St T → option error → Prop) w :
  holds m s l n r w → (∀ w', holds m s l n (r ++ evs) w' → Q w' None) →
  wp (on_transport (λ ctx, tr_Push ctx evs)) Q env w.
Proof.
  intros [] HQ. unfold wp, on_transport. rewrite Hcalm.
  destruct (remote_Push (w_transport w) evs h_online0) as (t' & -> & Hon & Hr).
  eexists _, _. split; [reflexivity|]. apply HQ. split; try done. by rewrite <-h_remote0.
Qed.
Lemma hold_transition to md m s l n r (Q : World St T → option error → Prop) w :
  holds m s l n r w → sync_edge s to → (∀ w', holds m to l n r w' → Q w' None) →
  wp (transition to md) Q env w.
Proof.
  intros [Hlog Hready Hrem Hon Hm (sm & Hsm & Hr & Hs)] He HQ. unfold wp, transition. rewrite Hsm.
  rewrite Transition_accepted by (rewrite Hs; by apply sync_accepts).
  destruct (commit_fields (e_clock env (w_tick w)) (e_tid env (w_tick w)) (state sm) to (Some md) sm (proj2 (proj2 Hr)))
    as ((Hc & Hv & _) & Hst' & _ & Hh & _).
  eexists _, None. split; [reflexivity|]. apply HQ. split; try done.
  eexists. split; [reflexivity|]. split; [|done].
  destruct Hr as (Hrules & Hval & Hwf).
  unfold sync_ruled, well_formed, max_history in *. rewrite Hc, Hv, Hh.
  split_and!; [done|done|apply Hwf|apply length_keep].
Qed.
Lemma hold_filter evs m s l n r (Q : World St T → list EventWithVersion → Prop) w :
  holds m s l n r w → filters_by p (options m) → Forall whole evs →
  Q w (filter (admitted p) evs) → wp (apply_filter evs) Q env w.
Proof.
  intros Hw Hf Hevs HQ. unfold apply_filter. apply wp_bind, wp_get_mgr.
  rewrite (holds_options _ _ _ _ _ _ Hw). unfold filters_by in Hf.
  destruct (EventFilter (options m)) as [f|].
  - eapply wp_lift; [|exact HQ]. apply filterM_Done. intros ev Hev.
    rewrite Forall_forall in Hevs. destruct (Hevs ev Hev) as [e He]. rewrite He, Hf. f_equal.
    assert (admitted p ev ↔ p e = true) as Hp by (unfold admitted; by rewrite He).
    case_bool_decide; destruct (p e); naive_solver.
  - apply wp_ret. rewrite filter_all in HQ; [done|]. intros ev _. unfold admitted.
    destruct (ev_event ev); cbn; auto.
Qed.

(** ** Pull *)
Lemma hold_store_events evs n0 m s l n r Q w :
  holds m s l (length evs + n) r w → Forall whole evs →
  (∀ w', holds m s (l ++ entries (Z.of_nat (length l) + 1) evs) n r w' →
     Q w' (n0 + length evs, None)%nat) →
  wp (store_events evs n0) Q env w.
Proof.
  intros Hw Hevs. revert n0 l w Hw Q.
  induction Hevs as [|ev evs [e He] _ IH]; intros n0 l w Hw Q HQ; cbn [store_events].
  { apply wp_ret. rewrite Nat.add_0_r in HQ. apply HQ. cbn. by rewrite app_nil_r. }
  apply wp_bind. eapply hold_poll; [done|]. intros w1 H1. apply wp_bind. rewrite He.
  eapply hold_store; [exact H1|]. intros w2 H2.
  eapply (IH (S n0)); [exact H2|]. intros w3 H3. cbn [length] in HQ.
  rewrite Nat.add_succ_r in HQ. apply HQ. cbn [entries]. rewrite He.
  rewrite length_app, <-app_assoc in H3. cbn [length app] in H3.
  by replace (Z.of_nat (length l) + 1 + 1) with (Z.of_nat (length l + 1) + 1) by lia.
Qed.

(** The local log never has entries past its latest version, so no conflict is
    ever looked for and the resolver is never asked. *)
Lemma hold_conflict_phase evs res m s l n r Q w :
  holds m s l n r w → (∀ w', holds m s l n r w' → Q w' (Continue evs 0)) →
  wp (conflict_phase (Some (IntegerCursor (Z.of_nat (length l)))) evs res) Q env w.
Proof.
  intros Hw HQ. unfold conflict_phase. apply wp_bind, wp_get_mgr.
  destruct (ConflictResolver (options (w_mgr w))) as [res'|]; [|by apply wp_ret, HQ].
  apply wp_bind. eapply hold_load; [done|]. intros w1 H1. rewrite drop_all. by apply wp_ret, HQ.
Qed.

(** What a pull of a node with log [l] stores. *)
Definition incoming (l r : list EventWithVersion) : list EventWithVersion :=
  filter (admitted p) (filter (after (Z.of_nat (length l))) r).

Lemma whole_filter (P : EventWithVersion → Prop) `{!∀ x, Decision (P x)} evs :
  Forall whole evs → Forall whole (filter P evs).
Proof. rewrite !Forall_forall. intros Hs x [_ Hx]%list_elem_of_filter. by apply Hs. Qed.
Lemma incoming_sound l r : Forall whole r → Forall sound (incoming l r).
Proof.
  rewrite !Forall_forall. unfold incoming.
  intros Hr ev [_ [[Hv Hne] Hin]%list_elem_of_filter]%list_elem_of_filter. split; [by apply Hr|].
  destruct (ev_version ev) as [[]|]; try done. by eexists.
Qed.

(** The counters a transfer adds to a result. *)
Definition pull_result (l r : list EventWithVersion) (res : SyncResult) : Prop :=
  EventsPulled res = length (incoming l r) ∧ ConflictsResolved res = 0%nat
  ∧ EventsPushed res = 0%nat ∧ res_Errors res = []
  ∧ findLatestVersion (incoming l r) = Done (RemoteVersion res).

Lemma hold_pull_all m s l n r Q w :
  holds m s l (length (incoming l r) + n) r w → filters_by p (options m) → Forall whole r →
  (∀ w' res, holds m s (l ++ entries (Z.of_nat (length l) + 1) (incoming l r)) n r w' →
     pull_result l r res → Q w' (res, None)) →
  wp pull Q env w.
Proof.
  intros Hw Hf Hr HQ. unfold pull. apply wp_bind. eapply hold_now; [done|]. intros w1 t1 H1.
  apply wp_bind. eapply hold_now; [done|]. intros w2 t2 H2. apply wp_bind.
  apply (wp_mono _ (λ w' a, a.2 = None ∧ pull_result l r a.1
    ∧ holds m s (l ++ entries (Z.of_nat (length l) + 1) (incoming l r)) n r w')).
  - unfold pull_body. apply wp_bind. eapply hold_latest; [done|]. intros w3 H3.
    apply wp_bind. eapply hold_pull; [done|]. intros w4 H4.
    assert (Forall whole (filter (after (Z.of_nat (length l))) r)) as Hrw by by apply whole_filter.
    destruct (filter (after (Z.of_nat (length l))) r) as [|ev evs] eqn:Hevs.
    { apply wp_ret. unfold pull_result, incoming in *. rewrite Hevs in *. cbn in *.
      rewrite app_nil_r. by split_and!. }
    assert (incoming l r = filter (admitted p) (ev :: evs)) as Hin by (unfold incoming; by rewrite Hevs).
    apply wp_bind. eapply hold_filter; [done|done|exact Hrw|]. rewrite <-Hin.
    apply wp_bind. eapply hold_conflict_phase; [done|]. intros w5 H5. unfold store_phase.
    apply wp_bind. eapply hold_store_events; [done|by rewrite Hin; apply whole_filter|].
    intros w6 H6. destruct (findLatestVersion_sound _ (incoming_sound l r Hr)) as [v Hv].
    apply wp_bind. eapply wp_lift; [done|]. apply wp_ret. by split.
  - intros w3 [res err] (Herr & Hres & H3). cbn in Herr, Hres. subst err.
    apply wp_bind. eapply hold_now; [done|]. intros w4 t4 H4.
    apply wp_bind. eapply hold_metric; [done|]. intros w5 H5.
    apply wp_bind. eapply hold_when_metric; [done|]. intros w6 H6.
    apply wp_bind. eapply hold_when_metric; [done|]. intros w7 H7.
    by apply wp_ret, HQ.
Qed.

(** ** Push *)
Lemma hold_push_batches bs n0 m s l n r Q w :
  holds m s l n r w →
  (∀ w', holds m s l n (r ++ concat bs) w' → Q w' (n0 + length (concat bs), None)%nat) →
  wp (push_batches bs n0) Q env w.
Proof.
  revert n0 r w Q. induction bs as [|b bs IH]; intros n0 r w Q Hw HQ; cbn [push_batches].
  { apply wp_ret. cbn in HQ. rewrite Nat.add_0_r in HQ. apply HQ. by rewrite app_nil_r. }
  apply wp_bind. eapply hold_poll; [done|]. intros w1 H1.
  apply wp_bind. eapply hold_push; [done|]. intros w2 H2.
  eapply IH; [done|]. intros w3 H3. cbn [concat] in HQ.
  rewrite length_app, Nat.add_assoc in HQ. apply HQ. by rewrite app_assoc.
Qed.

(** What a push of a node with log [l] sends. *)
Definition outgoing (l r : list EventWithVersion) : list EventWithVersion :=
  filter (admitted p) (drop (Z.to_nat (MemChan.max_version r)) l).

Lemma max_version_nonneg r : 0 ≤ MemChan.max_version r.
Proof. apply (MemChan.max_version_spec r 0). Qed.

Definition push_result (l r : list EventWithVersion) (res : SyncResult) : Prop :=
  EventsPushed res = length (outgoing l r).

Lemma hold_push_all m s l n r Q w :
  holds m s l n r w → filters_by p (options m) → Forall whole l →
  (∀ w' res, holds m s l n (r ++ outgoing l r) w' → push_result l r res → Q w' (res, None)) →
  wp push Q env w.
Proof.
  intros Hw Hf Hl HQ. unfold push. apply wp_bind. eapply hold_now; [done|]. intros w1 t1 H1.
  apply wp_bind. eapply hold_now; [done|]. intros w2 t2 H2. apply wp_bind.
  apply (wp_mono _ (λ w' a, a.2 = None ∧ push_result l r a.1 ∧ holds m s l n (r ++ outgoing l r) w')).
  - unfold push_body. apply wp_bind. eapply hold_remote_latest; [done|]. intros w3 H3.
    apply wp_bind. rewrite <-(Z2Nat.id (MemChan.max_version r)) by apply max_version_nonneg.
    eapply hold_load; [done|]. intros w4 H4. unfold push_result, outgoing.
    destruct (drop (Z.to_nat (MemChan.max_version r)) l) as [|ev evs] eqn:Hd.
    { apply wp_ret. cbn. by rewrite app_nil_r. }
    assert (Forall whole (ev :: evs)) as Hw' by (rewrite <-Hd; by apply Forall_drop).
    apply wp_bind. eapply hold_filter; [done|done|exact Hw'|].
    apply wp_bind, wp_get_mgr. apply wp_bind. eapply hold_push_batches; [done|]. intros w5 H5.
    rewrite batches_concat in H5 |- *; try done; [by apply wp_ret|..];
      by destruct (Z.leb_spec (BatchSize (options (w_mgr w4))) 0); lia.
  - intros w3 [res err] (Herr & Hres & H3). cbn in Herr, Hres. subst err.
    apply wp_bind. eapply hold_now; [done|]. intros w4 t4 H4.
    apply wp_bind. eapply hold_metric; [done|]. intros w5 H5.
    apply wp_bind. eapply hold_when_metric; [done|]. intros w6 H6.
    by apply wp_ret, HQ.
Qed.

(** ** A full synchronisation *)
Lemma entries_whole k evs : Forall whole (entries (St := St) k evs).
Proof.
  revert k; induction evs as [|ev evs IH]; intros k; cbn [entries]; [apply Forall_nil_2|].
  destruct (ev_event ev) as [e|]; [|apply IH]. apply Forall_cons. split; [|apply IH].
  unfold whole. pose proof (entry_event e k) as He. by destruct (ev_event (entry e k)).
Qed.
Lemma entries_length k evs : Forall whole evs → length (entries (St := St) k evs) = length evs.
Proof.
  intros Hevs; revert k; induction Hevs as [|ev evs [e He] _ IH]; intros k; cbn [entries]; [done|].
  rewrite He. cbn. by rewrite IH.
Qed.

(** The log after the pull phase and the shared log after the push phase. *)
Definition log_after (o : SyncOptions) (l r : list EventWithVersion) : list EventWithVersion :=
  if PushOnly o then l else l ++ entries (St := St) (Z.of_nat (length l) + 1) (incoming l r).
Definition remote_after (o : SyncOptions) (l r : list EventWithVersion) : list EventWithVersion :=
  if PullOnly o then r else r ++ outgoing (log_after o l r) r.
Definition sync_result (o : SyncOptions) (l r : list EventWithVersion) (res : SyncResult) : Prop :=
  res_Errors res = [] ∧ ConflictsResolved res = 0%nat
  ∧ EventsPulled res = (if PushOnly o then 0%nat else length (incoming l r))
  ∧ EventsPushed res = (if PullOnly o then 0%nat else length (outgoing (log_after o l r) r))
  ∧ LocalVersion res = Some (IntegerCursor (Z.of_nat (length (log_after o l r)))).

Lemma log_after_whole o l r : Forall whole l → Forall whole (log_after o l r).
Proof.
  intros Hl. unfold log_after. destruct (PushOnly o); [done|].
  apply Forall_app. split; [done|apply entries_whole].
Qed.

Lemma hold_sync_finish m s l n r res Q w :
  holds m s l n r w → projectionConfig m = None → res_Errors res = [] →
  (∀ w', holds m s l n r w' → Q w' (set_local (Some (IntegerCursor (Z.of_nat (length l)))) res)) →
  wp (sync_finish res) Q env w.
Proof.
  intros Hw Hp He HQ. unfold sync_finish. rewrite He. apply wp_bind, wp_bind.
  unfold runProjectionsAfterSync. apply wp_bind, wp_get_mgr.
  assert (projectionConfig (w_mgr w) = None) as ->
    by (rewrite <-Hp, <-(h_mgr _ _ _ _ _ _ Hw); reflexivity).
  apply wp_ret, wp_ret. apply wp_bind. eapply hold_latest; [done|]. intros w1 H1. by apply wp_ret, HQ.
Qed.

Lemma hold_less k m s l n r w : (k ≤ n)%nat → holds m s l n r w → holds m s l k r w.
Proof. intros Hle []. split; try done. by eapply ready_less. Qed.

Lemma hold_sync_body m l n r t Q w :
  holds m SyncInitializing l (length (incoming l r) + n) r w → filters_by p (options m) →
  projectionConfig m = None → both_only (options m) = false → Forall whole l → Forall whole r →
  (∀ w' res s, holds m s (log_after (options m) l r) n (remote_after (options m) l r) w' →
     sync_edge s SyncCompleted → StartTime res = t → sync_result (options m) l r res → Q w' res) →
  wp (sync_body (new_result t)) Q env w.
Proof.
  intros Hw Hf Hp Hb Hl Hr HQ. unfold sync_body. apply wp_bind, wp_get_mgr.
  rewrite (holds_options _ _ _ _ _ _ Hw). apply wp_bind.
  pose proof (log_after_whole (options m) l r Hl) as Hl'.
  apply (wp_mono _ (λ w' a, a.2 = false ∧ ∃ s,
    holds m s (log_after (options m) l r) n r w' ∧ sync_edge s SyncPushing
    ∧ (PushOnly (options m) = false → sync_edge s SyncCompleted) ∧ StartTime a.1 = t
    ∧ res_Errors a.1 = [] ∧ ConflictsResolved a.1 = 0%nat ∧ EventsPushed a.1 = 0%nat
    ∧ EventsPulled a.1 = if PushOnly (options m) then 0%nat else length (incoming l r))).
  - unfold log_after. destruct (PushOnly (options m)).
    { apply wp_ret. split; [done|]. eexists.
      split; [eapply hold_less; [|exact Hw]; lia|]. by split_and!. }
    unfold sync_pull. apply wp_bind. eapply hold_transition; [done|by vm_compute|]. intros w1 H1.
    apply wp_bind. eapply hold_pull_all; [done|done|done|].
    intros w2 res H2 (Hn & Hc & _). apply wp_ret. split; [done|]. by eexists.
  - intros w1 [res stop] (Hstop & s & H1 & He & Hec & Ht & Herr & Hc & Hpd & Hpl).
    cbn in Hstop, Ht, Herr, Hc, Hpd, Hpl. subst stop. apply wp_bind. unfold remote_after in HQ.
    unfold both_only in Hb. unfold sync_result in HQ. destruct (PullOnly (options m)) eqn:Hpo.
    + apply wp_ret. eapply hold_sync_finish; [done|done|done|]. intros w2 H2.
      eapply HQ; [done| |done|by split_and!]. apply Hec. by rewrite andb_true_r in Hb.
    + unfold sync_push. apply wp_bind. eapply hold_transition; [done|done|]. intros w2 H2.
      apply wp_bind. eapply hold_push_all; [done|done|done|]. intros w3 res' H3 Hres'. apply wp_ret.
      eapply hold_sync_finish; [done|done|done|]. intros w4 H4.
      eapply HQ; [done|by vm_compute|done|by split_and!].
Qed.

Lemma hold_sync_defer m s l n r res (Q : World St T → SyncResult → Prop) w :
  holds m s l n r w → sync_edge s SyncCompleted → res_Errors res = [] →
  (∀ w' d, holds m SyncIdle l n r w' → Q w' (set_duration d res)) →
  wp (sync_defer res) Q env w.
Proof.
  intros Hw He Hnil HQ. unfold sync_defer. apply wp_bind. eapply hold_now; [done|]. intros w1 t1 H1.
  cbn [set_duration res_Errors]. rewrite Hnil. rewrite bool_decide_true by done. cbn [negb].
  apply wp_bind. eapply hold_transition; [done|done|]. intros w2 H2.
  apply wp_bind. eapply hold_transition; [done|by vm_compute|]. intros w3 H3.
  apply wp_bind. unfold notifySubscribers. eexists _, (). split; [reflexivity|].
  set (w4 := mkWorld _ _ _ _ _ _ _). assert (holds m SyncIdle l n r w4) as H4 by by destruct H3.
  apply wp_bind. eapply hold_metric; [done|]. intros w5 H5. apply wp_bind, wp_bind.
  eapply hold_metric; [done|]. intros w6 H6. eapply hold_when_metric; [done|]. intros w7 H7.
  by apply wp_ret, HQ.
Qed.

Lemma hold_Sync m l n r (Q : World St T → option SyncResult * option error → Prop) w :
  holds m SyncIdle l (length (incoming l r) + n) r w → closed m = false →
  filters_by p (options m) → projectionConfig m = None → both_only (options m) = false →
  Forall whole l → Forall whole r →
  (∀ w' res, holds m SyncIdle (log_after (options m) l r) n (remote_after (options m) l r) w' →
     sync_result (options m) l r res → Q w' (Some res, None)) →
  wp Sync Q env w.
Proof.
  intros Hw Hopen Hf Hp Hb Hl Hr HQ. unfold Sync. apply wp_bind. eapply hold_now; [done|].
  intros w1 t1 H1. apply wp_bind, wp_get_mgr.
  assert (closed (w_mgr w1) = false) as -> by (by rewrite <-Hopen, <-(h_mgr _ _ _ _ _ _ H1)).
  destruct (h_machine _ _ _ _ _ _ H1) as (sm & Hsm & _ & Hs). rewrite Hsm.
  cbn [fmap option_fmap option_map]. unfold Current. rewrite Hs.
  change (negb (CanAutoSync SyncIdle)) with false. cbn match.
  apply wp_bind. eapply hold_transition; [done|by vm_compute|]. intros w2 H2.
  apply wp_bind. eapply hold_now; [done|]. intros w3 t3 H3.
  apply wp_bind. eapply hold_sync_body; try done. intros w4 res s H4 He _ Hres.
  apply wp_bind. eapply hold_sync_defer; [done|done|apply Hres|].
  intros w5 d H5. apply wp_ret. by eapply HQ.
Qed.
End exchange.

(** ** Properties *)
Section properties.
Context {St T : Type} {ES : EventStore St} {TR : Transport T} {MR : MapRange} {TT : TimeText}.
Context {LS : LogStore St} {LT : LogTransport T}.
Implicit Types w : World St T.

(** A node that may sync: open, idle, without projections, not restricted to
    both directions at once, its filter answering [p]. *)
Record node (p : Event → bool) (m : syncManager) (l : list EventWithVersion) (room : nat)
    (r : list EventWithVersion) w : Prop := {
  node_holds : holds m SyncIdle l room r w;
  node_open : closed m = false;
  node_filter : filters_by p (options m);
  node_projections : projectionConfig m = None;
  node_flags : both_only (options m) = false;
  node_log : Forall whole l;
  node_remote : Forall whole r
}.

Lemma outgoing_whole p l r : Forall whole l → Forall whole (outgoing p l r).
Proof. intros Hl. by apply whole_filter, Forall_drop. Qed.

Lemma node_Sync p m l n r env w :
  calm env → node p m l (length (incoming p l r) + n) r w →
  ∃ w' res, Sync env w = Done (w', (Some res, None))
    ∧ node p m (log_after (St := St) p (options m) l r) n (remote_after (St := St) p (options m) l r) w'
    ∧ sync_result (St := St) p (options m) l r res.
Proof.
  intros Hcalm [Hw Hopen Hf Hp Hb Hl Hr].
  destruct (hold_Sync env Hcalm p m l n r (λ w' a, ∃ res, a = (Some res, None)
      ∧ holds m SyncIdle (log_after (St := St) p (options m) l r) n
          (remote_after (St := St) p (options m) l r) w'
      ∧ sync_result (St := St) p (options m) l r res) w Hw Hopen Hf Hp Hb Hl Hr)
    as (w' & a & Hrun & res & -> & H' & Hres); [by eauto|].
  exists w', res. split; [done|]. split; [|done]. split; try done; [by apply log_after_whole|].
  unfold remote_after. destruct (PullOnly (options m)); [done|].
  apply Forall_app. split; [done|]. by apply outgoing_whole, log_after_whole.
Qed.

(** C2: a sync of a log store with a log transport appends to the local log, in
    order and renumbered, exactly the admitted remote events past the length of
    the log, appends to the shared log exactly the admitted local events past
    its latest version, and counts them; no error, no conflict and no call of
    the resolver whatever resolver is configured; the node may sync again. *)
Theorem Sync_exchanges (p : Event → bool) (env : Env) (Hcalm : calm env) (m : syncManager)
    (l r : list EventWithVersion) (n : nat) (w : World St T)
    (Hnode : node p m l (length (incoming p l r) + n) r w) :
  let pulled := if PushOnly (options m) then [] else incoming p l r in
  let l' := l ++ entries (Z.of_nat (length l) + 1) pulled in
  let pushed := if PullOnly (options m) then [] else outgoing p l' r in
  ∃ w' res, Sync env w = Done (w', (Some res, None))
    ∧ log (w_store w') = l' ∧ remote (w_transport w') = r ++ pushed
    ∧ EventsPulled res = length pulled ∧ EventsPushed res = length pushed
    ∧ LocalVersion res = Some (IntegerCursor (Z.of_nat (length l')))
    ∧ ConflictsResolved res = 0%nat ∧ res_Errors res = []
    ∧ node p m l' n (r ++ pushed) w'.
Proof.
  cbn zeta. destruct (node_Sync p m l n r env w Hcalm Hnode) as (w' & res & Hrun & Hn & He & Hc & Hpl & Hpd & Hv).
  unfold remote_after, log_after in *. exists w', res. split; [done|].
  assert (Hl : ∀ k, l ++ entries (St := St) k [] = l) by (intros k; cbn; by rewrite app_nil_r).
  destruct (PushOnly (options m)), (PullOnly (options m)); rewrite ?Hl, ?app_nil_r;
    (split_and!; [apply Hn|apply Hn|done..]).
Qed.

Lemma incoming_nil p l r : MemChan.max_version r ≤ Z.of_nat (length l) → incoming p l r = [].
Proof.
  intros Hle. unfold incoming. rewrite (filter_none (after _)); [done|].
  intros ev Hev [Hv Hne]. destruct (ev_version ev) as [[seq| | |]|] eqn:He; try done.
  destruct (MemChan.max_version_spec r 0) as (_ & Hmax & _). specialize (Hmax ev seq Hev He).
  unfold MemChan.max_version in Hle. cbn in Hv. lia.
Qed.
Lemma outgoing_nil p l r : Z.of_nat (length l) ≤ MemChan.max_version r → outgoing p l r = [].
Proof. intros Hle. unfold outgoing. rewrite drop_ge by lia. done. Qed.

(** C4: a node whose log is as long as the shared log's latest version
    exchanges nothing, whatever the logs hold: two writers of one transport
    that stored the same number of events keep different logs for ever, and
    every sync reports success. *)
Theorem equal_lengths_never_exchange (p : Event → bool) (env : Env) (Hcalm : calm env)
    (m : syncManager) (l r : list EventWithVersion) (n : nat) (w : World St T)
    (Hnode : node p m l n r w) (Hlen : Z.of_nat (length l) = MemChan.max_version r) :
  ∃ w' res, Sync env w = Done (w', (Some res, None)) ∧ node p m l n r w'
    ∧ res_Errors res = [] ∧ EventsPulled res = 0%nat ∧ EventsPushed res = 0%nat.
Proof.
  assert (incoming p l r = []) as Hin by (apply incoming_nil; lia).
  assert (outgoing p l r = []) as Hout by (apply outgoing_nil; lia).
  assert (log_after (St := St) p (options m) l r = l) as Hl.
  { unfold log_after. rewrite Hin. cbn. rewrite app_nil_r. by destruct (PushOnly _). }
  destruct (node_Sync p m l n r env w Hcalm) as (w' & res & Hrun & Hn & He & _ & Hpl & Hpd & _);
    [by rewrite Hin|].
  unfold remote_after in *. rewrite Hl, ?Hout, ?Hin, ?app_nil_r in *. exists w', res.
  destruct (PullOnly (options m)), (PushOnly (options m)); by split_and!.
Qed.

(** ** Numbered logs *)

(** Entry [i] of a log that starts after [k] has version [k + i + 1]. *)
Definition numbered (k : nat) (l : list EventWithVersion) : Prop :=
  ∀ i ev, l !! i = Some ev → ev_version ev = Some (IntegerCursor (Z.of_nat (k + i + 1))).

(** What survives renumbering: the identifier and the version. *)
Definition stamp (ev : EventWithVersion) : option string * option Version :=
  (ID <$> ev_event ev, ev_version ev).

Lemma numbered_drop j k l : numbered k l → numbered (k + j) (drop j l).
Proof.
  intros Hl i ev Hi. rewrite lookup_drop in Hi. rewrite (Hl _ _ Hi). do 2 f_equal. lia.
Qed.
Lemma numbered_take j k l : numbered k l → numbered k (take j l).
Proof. intros Hl i ev Hi. apply lookup_take_Some in Hi as [Hi _]. by apply Hl. Qed.
Lemma numbered_app k l1 l2 : numbered k l1 → numbered (k + length l1) l2 → numbered k (l1 ++ l2).
Proof.
  intros H1 H2 i ev Hi. apply lookup_app_Some in Hi as [Hi|[Hle Hi]]; [by apply H1|].
  rewrite (H2 _ _ Hi). do 2 f_equal. lia.
Qed.
Lemma numbered_after j l : numbered 0 l → filter (after (Z.of_nat j)) l = drop j l.
Proof.
  intros Hl. rewrite <-(take_drop j l) at 1. rewrite filter_app.
  assert (∀ i ev, l !! i = Some ev → after (Z.of_nat j) ev ↔ (j ≤ i)%nat) as Hafter.
  { intros i ev Hi. unfold after. rewrite (Hl i ev Hi). cbn. naive_solver lia. }
  rewrite (filter_none _ (take j l)), (filter_all _ (drop j l)); [done|..].
  - intros ev [i Hi]%list_elem_of_lookup. rewrite lookup_drop in Hi. apply (Hafter _ _ Hi). lia.
  - intros ev [i Hi]%list_elem_of_lookup. apply lookup_take_Some in Hi as [Hi Hlt].
    intros Ha. apply (Hafter _ _ Hi) in Ha. lia.
Qed.
Lemma numbered_max l : numbered 0 l → MemChan.max_version l = Z.of_nat (length l).
Proof.
  intros Hl. induction l as [|x l _] using rev_ind; [done|].
  pose proof (MemChan.max_version_spec (l ++ [x]) 0) as (_ & Hmax & Hin).
  fold (MemChan.max_version (l ++ [x])) in *.
  assert (ev_version x = Some (IntegerCursor (Z.of_nat (length l + 1)))) as Hx.
  { rewrite (Hl (length l) x); [do 2 f_equal; lia|].
    by rewrite lookup_app_r, Nat.sub_diag by lia. }
  rewrite length_app. cbn [length]. apply Z.le_antisymm.
  - destruct Hin as [Hz|(ev & Hev & Hv)]; [rewrite Hz; lia|].
    apply list_elem_of_lookup in Hev as [i Hi]. pose proof (lookup_lt_Some _ _ _ Hi) as Hlt.
    rewrite length_app in Hlt. cbn in Hlt. rewrite (Hl _ _ Hi) in Hv. injection Hv as Hv.
    rewrite <-Hv. lia.
  - eapply Hmax; [|exact Hx]. apply elem_of_app. right. by apply list_elem_of_singleton.
Qed.
Lemma entries_numbered k evs : numbered k (entries (St := St) (Z.of_nat k + 1) evs).
Proof.
  revert k; induction evs as [|ev evs IH]; intros k; cbn [entries]; [by intros ??|].
  destruct (ev_event ev) as [e|]; [|apply IH].
  intros [|i] ev' Hi; cbn in Hi.
  - injection Hi as <-. rewrite entry_version. do 2 f_equal. lia.
  - replace (Z.of_nat k + 1 + 1) with (Z.of_nat (S k) + 1) in Hi by lia.
    rewrite (IH (S k) i ev' Hi). do 2 f_equal. lia.
Qed.
Lemma entries_stamps k evs :
  Forall whole evs → numbered k evs →
  stamp <$> entries (St := St) (Z.of_nat k + 1) evs = stamp <$> evs.
Proof.
  intros Hevs; revert k; induction Hevs as [|ev evs [e He] _ IH]; intros k Hk; [done|].
  cbn [entries]. rewrite He, !fmap_cons. f_equal.
  - unfold stamp. rewrite entry_event, entry_version, He, (Hk 0%nat ev eq_refl).
    do 3 f_equal. lia.
  - replace (Z.of_nat k + 1 + 1) with (Z.of_nat (S k) + 1) by lia. apply IH.
    intros i ev' Hi. rewrite (Hk (S i) ev' Hi). do 2 f_equal. lia.
Qed.

(** ** A writer and a reader of one transport *)

(** The writer stores an event, the writer syncs, the reader syncs; the two
    nodes share the transport. *)
Inductive action := Write (e : Event) | WriterSync | ReaderSync.
Definition act (env : Env) (a : action) (nodes : World St T * World St T)
    : outcome (World St T * World St T) :=
  let '(writer, reader) := nodes in
  match a with
  | Write e =>
      let* (writer', _) := on_store (λ ctx, es_Store ctx (Some e) None) env writer in
      Done (writer', reader)
  | WriterSync =>
      let* (writer', _) := Sync env writer in
      Done (writer', put_transport (w_transport writer') reader)
  | ReaderSync =>
      let* (reader', _) := Sync env reader in
      Done (put_transport (w_transport reader') writer, reader')
  end.
Fixpoint play (env : Env) (acts : list action) (nodes : World St T * World St T)
    : outcome (World St T * World St T) :=
  match acts with
  | [] => Done nodes
  | a :: acts => let* nodes := act env a nodes in play env acts nodes
  end.
Fixpoint writes (acts : list action) : nat :=
  match acts with
  | [] => 0
  | Write _ :: acts => S (writes acts)
  | _ :: acts => writes acts
  end.

Definition everything : Event → bool := λ _, true.
Lemma admit_everything (evs : list EventWithVersion) : filter (admitted everything) evs = evs.
Proof. apply filter_all. intros ev _. unfold admitted. by destruct (ev_event ev). Qed.

(** The shared log is a prefix of the writer's log, and so is the reader's up
    to the private copies; [left] more events will be written. *)
Record replicating (mw mr : syncManager) (left : nat) (lw r lr : list EventWithVersion)
    (nodes : World St T * World St T) : Prop := {
  rep_writer : ∃ room, (left ≤ room)%nat ∧ node everything mw lw room r nodes.1;
  rep_reader : ∃ room, (length lw + left ≤ length lr + room)%nat ∧ node everything mr lr room r nodes.2;
  rep_numbered : numbered 0 lw;
  rep_shared : r `prefix_of` lw;
  rep_copied : (stamp <$> lr) `prefix_of` (stamp <$> r)
}.

Lemma node_shares p m l n r r' t w :
  node p m l n r w → remote t = r' → online t → Forall whole r' → node p m l n r' (put_transport t w).
Proof. intros [[] ? ? ? ? ? ?] ? ? ?. split; try done. Qed.
Lemma node_less p m l n k r w : (k ≤ n)%nat → node p m l n r w → node p m l k r w.
Proof. intros Hle []. split; try done. by eapply hold_less. Qed.
Lemma node_transport p m l n r w :
  node p m l n r w → remote (w_transport w) = r ∧ online (w_transport w) ∧ Forall whole r.
Proof. intros [[] ? ? ? ? ? ?]. by split_and!. Qed.

Lemma prefix_numbered k r l : r `prefix_of` l → numbered k l → numbered k r.
Proof. intros [l' ->] Hl i ev Hi. apply Hl. by apply lookup_app_l_Some. Qed.

Context (env : Env) (Hcalm : calm env) (mw mr : syncManager).
Context (Hpush : PushOnly (options mw) = true) (Hpull : PullOnly (options mr) = true).

Lemma act_Write e left lw r lr nodes :
  replicating mw mr (S left) lw r lr nodes →
  ∃ nodes', act env (Write e) nodes = Done nodes'
    ∧ replicating mw mr left (lw ++ [entry e (Z.of_nat (length lw) + 1)]) r lr nodes'.
Proof.
  intros [(n & Hn & Hw) (k & Hk & Hr) Hnum Hsh Hcp]. destruct nodes as [a b]. cbn [fst snd] in *.
  destruct n as [|n]; [lia|]. destruct Hw as [Hw Hopen Hf Hp Hb Hl Hrem].
  destruct (hold_store env Hcalm e None mw SyncIdle lw n r (λ w' _,
    holds mw SyncIdle (lw ++ [entry e (Z.of_nat (length lw) + 1)]) n r w') a Hw) as (a' & err & Hrun & Ha');
    [by auto|].
  unfold act. rewrite Hrun. cbn [obind]. eexists. split; [reflexivity|]. split.
  - exists n. split; [lia|]. split; try done. apply Forall_app. split; [done|]. apply Forall_singleton.
    unfold whole. pose proof (entry_event e (Z.of_nat (length lw) + 1)) as He.
    by destruct (ev_event (entry e (Z.of_nat (length lw) + 1))).
  - exists k. rewrite length_app. cbn [length]. split; [lia|done].
  - apply numbered_app; [done|]. intros [|i] ev Hi; [|done]. injection Hi as <-.
    rewrite entry_version. do 2 f_equal. lia.
  - by apply prefix_app_r.
  - done.
Qed.

Lemma act_WriterSync left lw r lr nodes :
  replicating mw mr left lw r lr nodes →
  ∃ nodes', act env WriterSync nodes = Done nodes' ∧ replicating mw mr left lw lw lr nodes'.
Proof.
  intros [(n & Hn & Hw) (k & Hk & Hr) Hnum Hsh Hcp]. destruct nodes as [a b]. cbn [fst snd] in *.
  assert (MemChan.max_version r = Z.of_nat (length r)) as Hmax
    by (apply numbered_max; by eapply prefix_numbered).
  pose proof (prefix_length _ _ Hsh) as Hlen.
  destruct (node_Sync everything mw lw n r env a Hcalm) as (a' & res & Hrun & Hn' & _);
    [by rewrite incoming_nil by lia|].
  pose proof (node_flags _ _ _ _ _ _ Hw) as Hb. unfold both_only in Hb. rewrite Hpush in Hb. cbn in Hb.
  assert (remote_after (St := St) everything (options mw) lw r = lw) as Hra.
  { unfold remote_after, log_after, outgoing. rewrite Hb, Hpush, admit_everything, Hmax, Nat2Z.id.
    destruct Hsh as [l' ->]. by rewrite drop_app_length. }
  unfold log_after in Hn'. rewrite Hra, Hpush in Hn'. unfold act. rewrite Hrun. cbn [obind].
  eexists. split; [reflexivity|]. destruct (node_transport _ _ _ _ _ _ Hn') as (H1 & H2 & H3). split.
  - by exists n.
  - exists k. split; [done|]. by eapply node_shares.
  - done.
  - done.
  - etrans; [exact Hcp|]. destruct Hsh as [l' ->]. rewrite fmap_app. by apply prefix_app_r.
Qed.

Lemma act_ReaderSync left lw r lr nodes :
  replicating mw mr left lw r lr nodes →
  ∃ lr' nodes', act env ReaderSync nodes = Done nodes' ∧ replicating mw mr left lw r lr' nodes'
    ∧ stamp <$> lr' = stamp <$> r.
Proof.
  intros [(n & Hn & Hw) (k & Hk & Hr) Hnum Hsh Hcp]. destruct nodes as [a b]. cbn [fst snd] in *.
  assert (numbered 0 r) as Hnr by by eapply prefix_numbered.
  pose proof (prefix_length _ _ Hsh) as Hlen. pose proof (prefix_length _ _ Hcp) as Hlen'.
  rewrite !length_fmap in Hlen'.
  assert (incoming everything lr r = drop (length lr) r) as Hin
    by (unfold incoming; by rewrite numbered_after, admit_everything).
  assert (length (incoming everything lr r) = length r - length lr)%nat as Hil by by rewrite Hin, length_drop.
  destruct (node_Sync everything mr lr (k - length (incoming everything lr r)) r env b Hcalm)
    as (b' & res & Hrun & Hn' & _); [eapply node_less; [|exact Hr]; lia|].
  pose proof (node_flags _ _ _ _ _ _ Hr) as Hb. unfold both_only in Hb.
  rewrite Hpull, andb_true_r in Hb. unfold remote_after, log_after in Hn'. rewrite Hpull, Hb in Hn'.
  set (lr' := lr ++ entries _ _) in Hn'. pose proof (node_remote _ _ _ _ _ _ Hr) as Hrw.
  assert (stamp <$> lr' = stamp <$> r) as Hst.
  { unfold lr'. rewrite fmap_app, Hin, (entries_stamps (length lr));
      [|by apply Forall_drop|by apply (numbered_drop (length lr) 0)].
    destruct Hcp as [l' Hl']. rewrite fmap_drop, Hl'.
    by rewrite <-(length_fmap stamp lr), drop_app_length. }
  assert (length lr' = length r) as Hlr' by (by rewrite <-(length_fmap stamp lr'), Hst, length_fmap).
  exists lr'. unfold act. rewrite Hrun. cbn [obind]. eexists. split; [reflexivity|]. split; [|done].
  destruct (node_transport _ _ _ _ _ _ Hn') as (H1 & H2 & H3). split.
  - exists n. split; [done|]. by eapply node_shares.
  - eexists. split; [|exact Hn']. lia.
  - done.
  - done.
  - by rewrite Hst.
Qed.

Lemma play_replicating acts : ∀ lw r lr nodes,
  replicating mw mr (writes acts) lw r lr nodes →
  ∃ lw' r' lr' nodes', play env acts nodes = Done nodes' ∧ replicating mw mr 0 lw' r' lr' nodes'.
Proof.
  induction acts as [|[e| |] acts IH]; intros lw r lr nodes H; cbn [play writes] in *.
  - by eexists _, _, _, _.
  - destruct (act_Write e _ _ _ _ _ H) as (nodes' & -> & H'). by eapply IH.
  - destruct (act_WriterSync _ _ _ _ _ H) as (nodes' & -> & H'). by eapply IH.
  - destruct (act_ReaderSync _ _ _ _ _ H) as (lr' & nodes' & -> & H' & _). by eapply IH.
Qed.

(** C3: a push-only writer and a pull-only reader that share a transport
    replicate: after any sequence of writes and syncs every call has succeeded,
    the shared log is a prefix of the writer's log and the reader's log a prefix
    of that, up to the private copies; and once the writer and then the reader
    have synced, the reader's log has the identifiers and versions of the
    writer's, in the same order. *)
Theorem single_writer_replicates (acts : list action) (lw r lr : list EventWithVersion)
    (nodes : World St T * World St T) (Hstart : replicating mw mr (writes acts) lw r lr nodes) :
  ∃ lw' r' lr' nodes', play env acts nodes = Done nodes'
    ∧ replicating mw mr 0 lw' r' lr' nodes'
    ∧ ∃ lr'' nodes'', play env [WriterSync; ReaderSync] nodes' = Done nodes''
        ∧ replicating mw mr 0 lw' lw' lr'' nodes''
        ∧ stamp <$> log (w_store nodes''.2) = stamp <$> log (w_store nodes''.1).
Proof.
  destruct (play_replicating acts lw r lr nodes Hstart) as (lw' & r' & lr' & nodes' & Hrun & Hrep).
  exists lw', r', lr', nodes'. split; [done|]. split; [done|]. cbn [play].
  destruct (act_WriterSync _ _ _ _ _ Hrep) as (nodes1 & -> & H1). cbn [obind].
  destruct (act_ReaderSync _ _ _ _ _ H1) as (lr'' & nodes2 & -> & H2 & Hst). cbn [obind].
  exists lr'', nodes2. split; [done|]. split; [done|].
  destruct H2 as [(n & _ & Hw) (k & _ & Hr) _ _ _].
  by rewrite (h_log _ _ _ _ _ _ (node_holds _ _ _ _ _ _ Hw)), (h_log _ _ _ _ _ _ (node_holds _ _ _ _ _ _ Hr)).
Qed.
End properties.

Section filtered.
Context {St T : Type} {ES : EventStore St} {TR : Transport T} {MR : MapRange} {TT : TimeText}.
Context {LS : LogStore St} {LT : LogTransport T}.

Lemma entries_last k evs ev :
  whole ev → ∃ n e, last (entries (St := St) k (evs ++ [ev])) = Some (entry e n) ∧ ev_event ev = Some e.
Proof.
  intros [e He]. revert k; induction evs as [|x evs IH]; intros k; cbn [app entries].
  - rewrite He. by exists k, e.
  - destruct (ev_event x) as [e'|]; [|apply IH]. destruct (IH (k + 1)) as (n & e2 & Hl & He2).
    exists n, e2. split; [|done]. by rewrite last_cons, Hl.
Qed.

(** C5: a reader with a filter does not advance past the events the filter
    refuses: the length of its log is what it asks the transport to continue
    from.  So when the newest shared event is admitted and some event was
    refused, the next sync stores that newest event a second time. *)
Theorem filtered_pull_duplicates (p : Event → bool) (env : Env) (Hcalm : calm env)
    (m : syncManager) (Hpull : PullOnly (options m) = true)
    (r0 : list EventWithVersion) (e : Event) (v : option Version) (n : nat) (w : World St T)
    (Hnum : numbered 0 (r0 ++ [mkEWV (Some e) v]))
    (Hlast : p e = true) (Hrefused : Exists (λ ev, ¬ admitted p ev) r0)
    (Hnode : node p m [] (length (r0 ++ [mkEWV (Some e) v]) * 2 + n) (r0 ++ [mkEWV (Some e) v]) w) :
  ∃ w1 res1 w2 res2, Sync env w = Done (w1, (Some res1, None))
    ∧ Sync env w1 = Done (w2, (Some res2, None))
    ∧ log (w_store w1) `prefix_of` log (w_store w2)
    ∧ (length (log (w_store w1)) < length (log (w_store w2)))%nat
    ∧ (∃ ev1 ev2, last (log (w_store w1)) = Some ev1 ∧ last (log (w_store w2)) = Some ev2
         ∧ ID <$> ev_event ev1 = Some (ID e) ∧ ID <$> ev_event ev2 = Some (ID e)).
Proof.
  set (x := mkEWV (Some e) v) in *. set (r := r0 ++ [x]) in *.
  pose proof (node_flags _ _ _ _ _ _ Hnode) as Hpush. unfold both_only in Hpush.
  rewrite Hpull, andb_true_r in Hpush. pose proof (node_remote _ _ _ _ _ _ Hnode) as Hrw.
  assert (admitted p x) as Hx by done.
  set (in1 := incoming p [] r).
  assert (in1 = filter (admitted p) r0 ++ [x]) as Hin1.
  { unfold in1, incoming. cbn [length]. rewrite (numbered_after 0 r) by done. rewrite drop_0.
    unfold r. rewrite filter_app, (filter_all _ [x]); [done|]. by intros ? ->%list_elem_of_singleton. }
  assert (length in1 ≤ length r0)%nat as Hlen1.
  { rewrite Hin1, length_app. cbn [length]. clear -Hrefused.
    induction Hrefused as [y l Hy|y l _ IH]; rewrite filter_cons; cbn [length].
    - rewrite decide_False by done. pose proof (length_filter (admitted p) l). lia.
    - destruct (decide (admitted p y)); cbn [length]; lia. }
  set (l1 := entries (St := St) 1 in1).
  assert (length l1 = length in1) as Hl1
    by (apply entries_length; unfold in1, incoming; by apply whole_filter, whole_filter).
  set (in2 := incoming p l1 r).
  assert (in2 = filter (admitted p) (drop (length in1) r0) ++ [x]) as Hin2.
  { unfold in2, incoming. rewrite numbered_after, Hl1 by done. unfold r.
    rewrite drop_app_le by lia. rewrite filter_app, (filter_all _ [x]); [done|].
    by intros ? ->%list_elem_of_singleton. }
  assert (length in2 ≤ length r)%nat as Hlen2.
  { unfold in2, incoming. etrans; [apply length_filter|]. etrans; [apply length_filter|]. done. }
  assert (length r = S (length r0)) as Hlr by (unfold r; rewrite length_app; cbn; lia).
  destruct (node_Sync p m [] (length in2 + n) r env w Hcalm) as (w1 & res1 & Hrun1 & Hn1 & _).
  { eapply node_less; [|exact Hnode]. fold in1. lia. }
  unfold remote_after, log_after in Hn1. rewrite Hpull, Hpush in Hn1. cbn [app length] in Hn1.
  fold in1 in Hn1. change (Z.of_nat 0 + 1) with 1 in Hn1. fold l1 in Hn1.
  destruct (node_Sync p m l1 n r env w1 Hcalm Hn1) as (w2 & res2 & Hrun2 & Hn2 & _).
  unfold remote_after, log_after in Hn2. rewrite Hpull, Hpush in Hn2. fold in2 in Hn2.
  exists w1, res1, w2, res2. split; [done|]. split; [done|].
  rewrite (h_log _ _ _ _ _ _ (node_holds _ _ _ _ _ _ Hn1)), (h_log _ _ _ _ _ _ (node_holds _ _ _ _ _ _ Hn2)).
  split; [by apply prefix_app_r|]. split.
  - rewrite length_app, (entries_length _ in2); [rewrite Hin2, length_app; cbn; lia|].
    unfold in2, incoming. by apply whole_filter, whole_filter.
  - assert (whole x) as Hwx by by eexists.
    destruct (entries_last 1 (filter (admitted p) r0) x Hwx) as (n1 & e1 & Hl & He1).
    destruct (entries_last (Z.of_nat (length l1) + 1) (filter (admitted p) (drop (length in1) r0)) x Hwx)
      as (n2 & e2 & Hl' & He2).
    injection He1 as <-. injection He2 as <-.
    exists (entry e n1), (entry e n2). split; [unfold l1; by rewrite Hin1|].
    split; [by rewrite last_app, Hin2, Hl'|]. by rewrite !entry_event.
Qed.
End filtered.

(** ** Concrete runs *)
#[local] Instance demo_text : TimeText := {| rfc3339 := format_int; duration_string := format_int |}.
#[local] Instance demo_range : MapRange := canonical_range.
#[local] Instance demo_TR : Transport MemChan.MemChan := memchan_Transport MemChan.eager.

Lemma sample_node (p : Event → bool) (s : MemStore.MemStore) (t : MemChan.MemChan) (o : SyncOptions)
    (n : nat) :
  MemStore.mem_inv s → MemStore.has_room s n → MemChan.mc_inv t → MemChan.closed t = false →
  filters_by p o → both_only o = false → Forall whole (MemChan.events t) →
  node p (set_machine None (sample_manager o)) (MemStore.events s) n (MemChan.events t)
    (sample_world s t o).
Proof.
  intros Hs Hn Ht Hopen Hf Hb Hw. split; try done.
  - split; try done. exists (new_sync_machine 0). split_and!; [done|apply new_sync_machine_ruled|done].
  - apply Forall_forall. intros ev Hev. by eapply MemStore.inv_is_event.
Qed.

(** A shared log with these identifiers. *)
Definition shared_chan (ids : list string) : MemChan.MemChan :=
  MemChan.mkMemChan (imap (λ i id, mkEWV (Some (mkEvent id "Updated" "order-9" AnyNil None))
                                     (Some (IntegerCursor (Z.of_nat i + 1)))) ids) [] ∅ 0 16 false.
Lemma shared_chan_inv ids : MemChan.mc_inv (shared_chan ids).
Proof. split; cbn; [lia|apply NoDup_nil_2|set_solver|done]. Qed.
Lemma shared_chan_whole ids : Forall whole (MemChan.events (shared_chan ids)).
Proof.
  apply Forall_forall. intros ev [i Hi]%list_elem_of_lookup. cbn in Hi.
  rewrite list_lookup_imap in Hi. destruct (ids !! i); [|done]. injection Hi as <-. by eexists.
Qed.
Lemma calm_sample : calm sample_env.
Proof. done. Qed.

Definition plain (po pl : bool) : SyncOptions := sample_options po pl None None 2.

(** The node pulls the fourth event; it has nothing newer to push. *)
Lemma Sync_exchanges_witness :
  let w := sample_world MemStore.demo_store (shared_chan ["a"; "b"; "c"; "d"]) (plain false false) in
  ∃ w' res, Sync sample_env w = Done (w', (Some res, None))
    ∧ length (log (w_store w')) = 4%nat ∧ EventsPulled res = 1%nat ∧ EventsPushed res = 0%nat.
Proof.
  cbn zeta.
  destruct (Sync_exchanges everything sample_env calm_sample
    (set_machine None (sample_manager (plain false false))) (MemStore.events MemStore.demo_store)
    (MemChan.events (shared_chan ["a"; "b"; "c"; "d"])) 3
    (sample_world MemStore.demo_store (shared_chan ["a"; "b"; "c"; "d"]) (plain false false)))
    as (w' & res & Hrun & Hl & _ & Hpl & Hpd & _).
  - apply sample_node; [apply MemStore.demo_store_inv|apply MemStore.demo_store_room; vm_compute; lia
      |apply shared_chan_inv|reflexivity|by intros ?|reflexivity|apply shared_chan_whole].
  - exists w', res. rewrite Hl, Hpl, Hpd. split_and!; [exact Hrun|vm_compute; reflexivity..].
Defined.

(** The two logs have no identifier in common. *)
Lemma equal_lengths_never_exchange_witness :
  let w := sample_world MemStore.demo_store (shared_chan ["a"; "b"; "c"]) (plain false false) in
  ∃ w' res, Sync sample_env w = Done (w', (Some res, None))
    ∧ node everything (set_machine None (w_mgr w)) (MemStore.events MemStore.demo_store) 9
        (MemChan.events (shared_chan ["a"; "b"; "c"])) w'
    ∧ res_Errors res = [] ∧ EventsPulled res = 0%nat ∧ EventsPushed res = 0%nat.
Proof.
  cbn zeta. apply (equal_lengths_never_exchange everything sample_env calm_sample
    (set_machine None (sample_manager (plain false false)))); [|reflexivity].
  apply sample_node; [apply MemStore.demo_store_inv|apply MemStore.demo_store_room; lia
    |apply shared_chan_inv|reflexivity|by intros ?|reflexivity|apply shared_chan_whole].
Defined.

Lemma single_writer_replicates_witness :
  let writer := sample_world MemStore.New (shared_chan []) (plain true false) in
  let reader := sample_world MemStore.New (shared_chan []) (plain false true) in
  let acts := [Write MemStore.demo_order; WriterSync; Write MemStore.demo_user; ReaderSync] in
  ∃ nodes', play sample_env acts (writer, reader) = Done nodes'
    ∧ ∃ nodes'', play sample_env [WriterSync; ReaderSync] nodes' = Done nodes''
        ∧ stamp <$> log (w_store nodes''.2) = stamp <$> log (w_store nodes''.1).
Proof.
  cbn zeta.
  destruct (single_writer_replicates sample_env calm_sample
    (set_machine None (sample_manager (plain true false)))
    (set_machine None (sample_manager (plain false true))) eq_refl eq_refl
    [Write MemStore.demo_order; WriterSync; Write MemStore.demo_user; ReaderSync] [] [] []
    (sample_world MemStore.New (shared_chan []) (plain true false),
     sample_world MemStore.New (shared_chan []) (plain false true)))
    as (lw' & r' & lr' & nodes' & Hrun & _ & lr'' & nodes'' & Hrun' & _ & Hst).
  - assert (∀ o, filters_by everything o → both_only o = false →
      node everything (set_machine None (sample_manager o)) [] 9 [] (sample_world MemStore.New (shared_chan []) o))
      as Hnode.
    { intros o Hf Hb. apply (sample_node everything MemStore.New (shared_chan []));
        [apply MemStore.New_inv|unfold MemStore.has_room; cbn; lia|apply shared_chan_inv|done|done|done
        |apply shared_chan_whole]. }
    split; [exists 9%nat|exists 9%nat|..]; cbn [writes fst snd length];
      [split; [lia|by apply Hnode]|split; [lia|by apply Hnode]|by intros ??|by exists []|by exists []].
  - exists nodes'. split; [exact Hrun|]. exists nodes''. by split.
Defined.

Definition only_orders : Event → bool := λ e, bool_decide (ID e ≠ "a").

Lemma filtered_pull_duplicates_witness :
  let o := sample_options false true None
             (Some (λ e, match e with Some e => Done (only_orders e) | None => Panic "nil" end)) 2 in
  let w := sample_world MemStore.New (shared_chan ["a"; "b"]) o in
  ∃ w1 res1 w2 res2, Sync sample_env w = Done (w1, (Some res1, None))
    ∧ Sync sample_env w1 = Done (w2, (Some res2, None))
    ∧ (length (log (w_store w1)) < length (log (w_store w2)))%nat
    ∧ (∃ ev1 ev2, last (log (w_store w1)) = Some ev1 ∧ last (log (w_store w2)) = Some ev2
         ∧ ID <$> ev_event ev1 = Some "b" ∧ ID <$> ev_event ev2 = Some "b").
Proof.
  cbn zeta. set (o := sample_options _ _ _ _ _).
  destruct (filtered_pull_duplicates only_orders sample_env calm_sample
    (set_machine None (sample_manager o)) eq_refl
    [mkEWV (Some (mkEvent "a" "Updated" "order-9" AnyNil None)) (Some (IntegerCursor 1))]
    (mkEvent "b" "Updated" "order-9" AnyNil None) (Some (IntegerCursor 2)) 3 (sample_world MemStore.New (shared_chan ["a"; "b"]) o))
    as (w1 & res1 & w2 & res2 & H1 & H2 & _ & Hlt & Hlast).
  5: { exists w1, res1, w2, res2. by split_and!. }
  4: { apply (sample_node only_orders MemStore.New (shared_chan ["a"; "b"]));
       [apply MemStore.New_inv|unfold MemStore.has_room; cbn; lia|apply shared_chan_inv|done|by intros ?|done
       |apply shared_chan_whole]. }
  - intros [|[|i]] ev Hi; cbn in Hi; [by injection Hi as <-|by injection Hi as <-|done].
  - reflexivity.
  - apply Exists_cons_hd. by vm_compute.
Defined.
