(* ===== verification/VersionedStore.v ===== *)
(** * Versioned stores (src/version/store_decorator.go)

    The vector-clock version manager and the decorator that stamps events with
    clocks on their way into and out of any event store.  Events that carry a
    clock are mutable objects: [objs] is the heap of their clocks and [obj_of]
    tells which object an event is, if any. *)
From S2P Require Import Prelude Types Json Errors VectorClock Versions Interfaces Convergence.
From S2P Require MemStore.
From stdpp Require Import options.
#[local] Set Default Proof Using "Type*".

Section manager.
Context {MR : MapRange}.

Record VectorClockManager := mkClockManager { vm_clock : VectorClock }.
Definition NewVectorClockManager : VectorClockManager := mkClockManager NewVectorClock.

Definition version_type (v : option Version) : string :=
  match v with
  | Some (IntegerCursor _) => "cursor.IntegerCursor"
  | Some (VectorCursor _) => "cursor.VectorCursor"
  | Some (VectorClockV _) => "*version.VectorClock"
  | Some nullVersion => "*synckit.nullVersion"
  | None => "<nil>"
  end.
Definition err_not_clock (v : option Version) : error :=
  ErrMsg ("version is not a VectorClock: " +:+ version_type v).

(** [version == nil || version.IsZero()]. *)
Definition absent (v : option Version) : outcome bool :=
  match v with None => Done true | Some v => version_IsZero v end.

Definition NewVectorClockManagerFromVersion (v : option Version)
    : outcome (result error VectorClockManager) :=
  let* zero := absent v in
  if zero : bool then Done (Ok NewVectorClockManager)
  else match v with
       | Some (VectorClockV p) =>
           let* vc := deref p in Done (Ok (mkClockManager (VectorClock.Clone vc)))
       | _ => Done (Err (err_not_clock v))
       end.

Definition CurrentVersion (vm : VectorClockManager) : Version :=
  VectorClockV (Some (VectorClock.Clone (vm_clock vm))).

(** A refused increment gives a nil version. *)
Definition NextVersion (nodeID : string) (vm : VectorClockManager)
    : outcome (VectorClockManager * option Version) :=
  let* (vc, err) := Increment nodeID (vm_clock vm) in
  match err with
  | Some _ => Done (mkClockManager vc, None)
  | None => Done (mkClockManager vc, Some (VectorClockV (Some (VectorClock.Clone vc))))
  end.

Definition UpdateFromVersion (v : option Version) (vm : VectorClockManager)
    : outcome (VectorClockManager * option error) :=
  let* zero := absent v in
  if zero : bool then Done (vm, None)
  else match v with
       | Some (VectorClockV p) =>
           let* (vc, err) := Merge p (vm_clock vm) in Done (mkClockManager vc, err)
       | _ => Done (vm, Some (err_not_clock v))
       end.

Definition Clone (vm : VectorClockManager) : VectorClockManager :=
  mkClockManager (VectorClock.Clone (vm_clock vm)).

Definition ErrIncompatibleVersion : error := ErrMsg "incompatible version type".
Definition ErrStoreClosed : error := ErrMsg "store is closed".

Definition cursorToVectorClock (seq : Z) : VectorClock := mkVectorClock (Some {["sequence" := seq]}).
End manager.

Record VersionedStore (St : Type) := mkVersioned {
  vs_store : St;
  vs_nodeID : string;
  vs_manager : VectorClockManager;
  vs_closed : bool;
  objs : gmap nat (option VectorClock)
}.
Arguments mkVersioned {St}.
Arguments vs_store {St}.
Arguments vs_nodeID {St}.
Arguments vs_manager {St}.
Arguments vs_closed {St}.
Arguments objs {St}.

Section decorator.
Context {St : Type} {ES : EventStore St} {MR : MapRange} (obj_of : Event → option nat).
Implicit Types s : VersionedStore St.

Definition with_store (st : St) s : VersionedStore St :=
  mkVersioned st (vs_nodeID s) (vs_manager s) (vs_closed s) (objs s).
Definition with_manager (vm : VectorClockManager) s : VersionedStore St :=
  mkVersioned (vs_store s) (vs_nodeID s) vm (vs_closed s) (objs s).
Definition with_obj (o : nat) (vc : VectorClock) s : VersionedStore St :=
  mkVersioned (vs_store s) (vs_nodeID s) (vs_manager s) (vs_closed s) (<[o := Some vc]> (objs s)).

Definition LatestVersion (ctx : CtxView) s : outcome (result error (option Version)) :=
  if vs_closed s then Done (Err ErrStoreClosed)
  else
    let* r := es_LatestVersion ctx (vs_store s) in
    Done (match r with
          | Err e => Err e
          | Ok v => if snd (as_integer v) then Ok v else Err ErrIncompatibleVersion
          end).

Definition NewVersionedStore (st : St) (nodeID : string) (vm : option VectorClockManager)
    (heap : gmap nat (option VectorClock)) : outcome (result error (VersionedStore St)) :=
  match vm with
  | None => Done (Err (ErrMsg "version manager cannot be nil"))
  | Some vm =>
      let s := mkVersioned st nodeID vm false heap in
      let* r := LatestVersion background s in
      match r with
      | Err e => Done (Err (ErrWrap "failed to get latest version" e))
      | Ok v =>
          let '(seq, ok) := as_integer v in
          if ok then
            let* (vm', err) := UpdateFromVersion (Some (VectorClockV (Some (cursorToVectorClock seq)))) vm in
            match err with
            | Some e => Done (Err (ErrWrap "failed to initialize version manager" e))
            | None => Done (Ok (with_manager vm' s))
            end
          else Done (Ok s)
      end
  end.

(** The clock of the event's object: created when missing, stamped, advanced;
    an increment that is refused is ignored. *)
Definition stamp_clock (nodeID : string) (seq : Z) (vc : option VectorClock) : outcome VectorClock :=
  let* vc := set_clock (default NewVectorClock vc) "sequence" seq in
  let* (vc, _) := Increment nodeID vc in
  Done vc.

(** The version given by the caller is not used. *)
Definition Store (ctx : CtxView) (event : option Event) (version : option Version) s
    : outcome (VersionedStore St * option error) :=
  let* r := es_LatestVersion ctx (vs_store s) in
  match r with
  | Err e => Done (s, Some (ErrWrap "failed to get latest version" e))
  | Ok v =>
      let '(seq, ok) := as_integer v in
      if negb ok then Done (s, Some (ErrMsg ("incompatible version type: " +:+ version_type v)))
      else
        let seq := u64 (seq + 1) in
        let* s :=
          match event ≫= obj_of with
          | None => Done s
          | Some o =>
              let* vc := stamp_clock (vs_nodeID s) seq (default None (objs s !! o)) in
              Done (with_obj o vc s)
          end in
        let* (st, err) := es_Store ctx event (Some (IntegerCursor seq)) (vs_store s) in
        Done (with_store st s, err)
  end.

(** One loaded event: its object is given a fresh clock, and the manager learns
    of it; a refusal is only logged. *)
Definition observe_event (ev : EventWithVersion) s : outcome (VersionedStore St) :=
  let '(seq, ok) := as_integer (ev_version ev) in
  if negb ok then Done s
  else
    let vc := cursorToVectorClock seq in
    let s := match ev_event ev ≫= obj_of with Some o => with_obj o vc s | None => s end in
    let* (vm, _) := UpdateFromVersion (Some (VectorClockV (Some vc))) (vs_manager s) in
    Done (with_manager vm s).
Fixpoint observe_events (evs : list EventWithVersion) s : outcome (VersionedStore St) :=
  match evs with
  | [] => Done s
  | ev :: evs => let* s := observe_event ev s in observe_events evs s
  end.

Definition start_of (since : option Version) : option Version :=
  match since with None => Some (IntegerCursor 0) | Some v => Some v end.
Definition after_read (r : result error (list EventWithVersion)) s
    : outcome (VersionedStore St * result error (list EventWithVersion)) :=
  match r with
  | Err e => Done (s, Err e)
  | Ok evs => let* s := observe_events evs s in Done (s, Ok evs)
  end.
Definition Load (ctx : CtxView) (since : option Version) s
    : outcome (VersionedStore St * result error (list EventWithVersion)) :=
  let* r := es_Load ctx (start_of since) [] (vs_store s) in after_read r s.
Definition LoadByAggregate (ctx : CtxView) (aggregateID : string) (since : option Version) s
    : outcome (VersionedStore St * result error (list EventWithVersion)) :=
  let* r := es_LoadByAggregate ctx aggregateID (start_of since) [] (vs_store s) in after_read r s.

Definition ParseVersion (ctx : CtxView) (v : string) s : outcome (result error (option Version)) :=
  es_ParseVersion ctx v (vs_store s).
(** The decorator's own closed flag is never set. *)
Definition Close s : outcome (VersionedStore St * option error) :=
  let* (st, err) := es_Close (vs_store s) in Done (with_store st s, err).
Definition GetVersionManager s : VectorClockManager := vs_manager s.
Definition SetNodeID (nodeID : string) s : VersionedStore St :=
  mkVersioned (vs_store s) nodeID (vs_manager s) (vs_closed s) (objs s).
End decorator.

(** ** The manager's clock *)

(** The counter of node [k]. *)
Definition counter (vm : VectorClockManager) (k : string) : Z := clock_at (map_of (clocks (vm_clock vm))) k.

(** There is room for the sequence counter. *)
Definition tracks_sequence (vm : VectorClockManager) : Prop :=
  ∃ m, clocks (vm_clock vm) = Some m ∧ (size (<["sequence" := 0%Z]> m) ≤ MaxNodes)%nat
       ∧ 0 ≤ clock_at m "sequence".

Section facts.
Context {MR : MapRange}.

Lemma range_singleton (k : string) (v : Z) : range ({[k := v]} : gmap string Z) = [(k, v)].
Proof.
  apply Permutation_length_1_inv. symmetry.
  pose proof (length_range ({[k := v]} : gmap string Z)) as Hlen. rewrite map_size_singleton in Hlen.
  destruct (range {[k := v]}) as [|[k' v'] [|]] eqn:Hr; try done.
  assert ((k', v') ∈ range ({[k := v]} : gmap string Z)) as Hin by (rewrite Hr; left).
  apply elem_of_range in Hin. apply lookup_singleton_Some in Hin as [<- <-]. done.
Qed.

(** Learning of a sequence number raises that counter and no other. *)
Lemma Update_sequence seq vm :
  tracks_sequence vm → 0 ≤ seq →
  ∃ vm', UpdateFromVersion (Some (VectorClockV (Some (cursorToVectorClock seq)))) vm = Done (vm', None)
    ∧ tracks_sequence vm' ∧ counter vm' "sequence" = Z.max (counter vm "sequence") seq
    ∧ ∀ k, k ≠ "sequence" → counter vm' k = counter vm k.
Proof.
  intros (m & Hm & Hsize & Hpos) Hseq. destruct vm as [[cm]]. cbn in Hm. subst cm.
  unfold UpdateFromVersion. cbn [absent version_IsZero deref obind].
  replace (IsZero (cursorToVectorClock seq)) with false by done.
  cbn [vm_clock]. unfold Merge. cbn [cursorToVectorClock clocks map_of default from_option id].
  rewrite range_singleton. cbn [merge_scan map_of clocks default from_option id].
  replace (Nat.ltb MaxNodeIDLength (String.length "sequence")) with false by done.
  set (n := if bool_decide (m !! "sequence" = None) then 1%nat else 0%nat).
  assert (size (<["sequence" := 0%Z]> m) = size m + n)%nat as Hn.
  { unfold n. destruct (m !! "sequence") as [x|] eqn:Hx; [|rewrite map_size_insert_None by done].
    - rewrite map_size_insert_Some by by eexists. cbn. lia.
    - cbn. lia. }
  assert ((if bool_decide (m !! "sequence" = None) then Ok 1%nat else Ok 0%nat) = Ok (E := error) n) as ->
    by (unfold n; by case_bool_decide).
  change (Size {| clocks := Some m |}) with (size m).
  replace (Nat.ltb MaxNodes (size m + n)) with false by (symmetry; apply Nat.ltb_ge; lia).
  cbn [merge_apply map_of clocks default from_option id]. unfold counter, clock_at in *. cbn [vm_clock clocks map_of default from_option id] in *.
  assert (∀ v, tracks_sequence (mkClockManager (mkVectorClock (Some (<["sequence" := v]> m)))) ↔ 0 ≤ v) as Htr.
  { intros v. unfold tracks_sequence. cbn [vm_clock clocks]. split.
    - intros (m' & [= <-] & _ & Hv). unfold clock_at in Hv. by rewrite lookup_insert_eq in Hv.
    - intros Hv. eexists. split; [done|]. unfold clock_at. rewrite lookup_insert_eq. split; [|done].
      rewrite insert_insert_eq.
      etrans; [|exact Hsize]. destruct (m !! "sequence") as [x|] eqn:Hx.
      + rewrite !map_size_insert_Some by by eexists. done.
      + rewrite !map_size_insert_None by done. done. }
  destruct (m !! "sequence") as [x|] eqn:Hx; cbn [default from_option id] in Hpos |- *.
  - destruct (Z.ltb_spec x seq); cbn [obind set_clock clocks merge_apply].
    + eexists. split; [reflexivity|]. split; [apply Htr; lia|]. cbn. rewrite lookup_insert_eq. cbn.
      split; [lia|]. intros k Hk. by rewrite lookup_insert_ne.
    + eexists. split; [reflexivity|]. split.
      { exists m. split; [done|]. split; [done|]. unfold clock_at. by rewrite Hx. }
      cbn. rewrite Hx. cbn. split; [lia|done].
  - cbn [obind set_clock clocks merge_apply].
    eexists. split; [reflexivity|]. split; [apply Htr; lia|]. cbn. rewrite lookup_insert_eq. cbn.
    split; [lia|]. intros k Hk. by rewrite lookup_insert_ne.
Qed.
End facts.

(** ** Properties *)
Section properties.
Context {St : Type} {ES : EventStore St} {LS : LogStore St} {MR : MapRange} (obj_of : Event → option nat).
Implicit Types s : VersionedStore St.

(** Remark: a versioned store starts from what the store already holds: the
    manager's sequence counter is raised to the length of the log, whatever it
    was before, and no other counter moves. *)
Theorem NewVersionedStore_resumes (st : St) (n : nat) (nodeID : string) (vm : VectorClockManager)
    (heap : gmap nat (option VectorClock)) (Hready : ready st n) (Hvm : tracks_sequence vm) :
  ∃ s, NewVersionedStore st nodeID (Some vm) heap = Done (Ok s)
    ∧ vs_store s = st ∧ objs s = heap ∧ tracks_sequence (vs_manager s)
    ∧ counter (vs_manager s) "sequence" = Z.max (counter vm "sequence") (Z.of_nat (length (log st)))
    ∧ ∀ k, k ≠ "sequence" → counter (vs_manager s) k = counter vm k.
Proof.
  unfold NewVersionedStore, LatestVersion. cbn [vs_closed vs_store].
  rewrite (log_LatestVersion st n Hready). cbn [obind as_integer snd fst].
  destruct (Update_sequence (Z.of_nat (length (log st))) vm Hvm) as (vm' & -> & Ht & Hseq & Hrest); [lia|].
  cbn [obind]. eexists. split; [reflexivity|]. by split_and!.
Qed.

(** The stamp on a clock whose map exists. *)
Lemma stamp_clock_spec nodeID seq vc m :
  default NewVectorClock vc = mkVectorClock (Some m) → nodeID ≠ "sequence" →
  ∃ c, stamp_clock nodeID seq vc = Done (mkVectorClock (Some c))
    ∧ clock_at c "sequence" = seq
    ∧ (¬ increment_refused (mkVectorClock (Some (<["sequence" := seq]> m))) nodeID →
         clock_at c nodeID = u64 (clock_at m nodeID + 1))
    ∧ ∀ k, k ≠ "sequence" → k ≠ nodeID → c !! k = m !! k.
Proof.
  intros Hvc Hne. unfold stamp_clock. rewrite Hvc. cbn [set_clock clocks obind].
  destruct (Increment_cases (mkVectorClock (Some (<["sequence" := seq]> m))) nodeID)
    as [[Href [e ->]]|[Href ->]]; cbn [obind set_clock clocks]; eexists; (split; [reflexivity|]);
    unfold clock_at, GetClock; cbn [clocks map_of default from_option id].
  - rewrite lookup_insert_eq. split; [done|]. split; [done|]. intros k Hk _. by rewrite lookup_insert_ne.
  - rewrite lookup_insert_ne, !lookup_insert_eq by done. split; [done|]. split.
    + intros _. cbn. unfold clock_at. by rewrite lookup_insert_ne.
    + intros k Hk Hkn. by rewrite !lookup_insert_ne.
Qed.

(** Remark: storing through the decorator appends the event under the store's next
    number, whatever version the caller passed; the event's clock gets that
    number as its sequence and one more for this node, every other counter
    staying; and the version manager does not take notice. *)
Theorem Versioned_Store_stamps (e : Event) (v : option Version) (n : nat) (s : VersionedStore St)
    (Hready : ready (vs_store s) (S n)) (Hlen : Z.of_nat (length (log (vs_store s))) + 1 < 2 ^ 64)
    (Hnode : vs_nodeID s ≠ "sequence") (m : gmap string Z)
    (Hclock : ∀ o, obj_of e = Some o →
       default NewVectorClock (default None (objs s !! o)) = mkVectorClock (Some m)) :
  let seq := Z.of_nat (length (log (vs_store s))) + 1 in
  ∃ s', Store obj_of background (Some e) v s = Done (s', None)
    ∧ log (vs_store s') = log (vs_store s) ++ [entry e seq]
    ∧ vs_manager s' = vs_manager s
    ∧ match obj_of e with
      | None => objs s' = objs s
      | Some o => ∃ c, objs s' = <[o := Some (mkVectorClock (Some c))]> (objs s)
          ∧ clock_at c "sequence" = seq
          ∧ (¬ increment_refused (mkVectorClock (Some (<["sequence" := seq]> m))) (vs_nodeID s) →
               clock_at c (vs_nodeID s) = u64 (clock_at m (vs_nodeID s) + 1))
          ∧ ∀ k, k ≠ "sequence" → k ≠ vs_nodeID s → c !! k = m !! k
      end.
Proof.
  cbn zeta. unfold Store. rewrite (log_LatestVersion (vs_store s) (S n) Hready).
  cbn [obind as_integer negb Prelude.obind]. rewrite u64_small by (unfold is_u64, u64_modulus; lia).
  destruct (log_Store (vs_store s) n e
    (Some (IntegerCursor (Z.of_nat (length (log (vs_store s))) + 1))) Hready) as (st & Hst & _ & Hlog).
  change (Some e ≫= obj_of) with (obj_of e). destruct (obj_of e) as [o|] eqn:Ho.
  - destruct (stamp_clock_spec (vs_nodeID s) (Z.of_nat (length (log (vs_store s))) + 1) _ m (Hclock o eq_refl) Hnode)
      as (c & -> & Hc). cbn [obind vs_store with_obj]. rewrite Hst. cbn [obind].
    eexists. split; [reflexivity|]. split; [done|]. split; [done|]. by exists c.
  - cbn [obind]. rewrite Hst. cbn [obind]. eexists. split; [reflexivity|]. by split_and!.
Qed.

(** Observing loaded events. *)
Lemma observe_events_spec k evs s :
  numbered k evs → tracks_sequence (vs_manager s) →
  ∃ s', observe_events obj_of evs s = Done s' ∧ vs_store s' = vs_store s
    ∧ tracks_sequence (vs_manager s')
    ∧ counter (vs_manager s') "sequence"
      = (if decide (evs = []) then counter (vs_manager s) "sequence"
         else Z.max (counter (vs_manager s) "sequence") (Z.of_nat (k + length evs)))
    ∧ (∀ i, i ≠ "sequence" → counter (vs_manager s') i = counter (vs_manager s) i)
    ∧ (∀ o, (∃ ev, ev ∈ evs ∧ ev_event ev ≫= obj_of = Some o) ∨ (∃ q, objs s !! o = Some (Some (cursorToVectorClock q))) →
         ∃ q, objs s' !! o = Some (Some (cursorToVectorClock q))).
Proof.
  revert k s; induction evs as [|ev evs IH]; intros k s Hnum Ht; cbn [observe_events].
  { exists s. split_and!; try done. intros o [(ev & []%not_elem_of_nil & _)|Hq]; done. }
  pose proof (Hnum 0%nat ev eq_refl) as Hv. unfold observe_event. rewrite Hv. cbn [as_integer negb].
  set (q := Z.of_nat (k + 0 + 1)).
  set (s1 := match ev_event ev ≫= obj_of with Some o => with_obj o (cursorToVectorClock q) s | None => s end).
  assert (vs_manager s1 = vs_manager s ∧ vs_store s1 = vs_store s) as [Hm1 Hst1]
    by (unfold s1; by destruct (ev_event ev ≫= obj_of)).
  destruct (Update_sequence q (vs_manager s1)) as (vm & -> & Ht1 & Hseq & Hrest); [by rewrite Hm1|lia|].
  cbn [obind]. destruct (IH (S k) (with_manager vm s1)) as (s' & Hs' & Hst & Ht' & Hc & Hk & Ho);
    [intros i x Hx; rewrite (Hnum (S i) x Hx); do 2 f_equal; lia|done|].
  exists s'. split; [done|]. split; [by rewrite Hst|]. split; [done|]. cbn [with_manager vs_manager] in *.
  split; [|split].
  - rewrite Hc, Hseq, Hm1. rewrite (decide_False (P := ev :: evs = [])) by done. cbn [length].
    case_decide as Hnil; [rewrite Hnil; cbn; unfold q; lia|unfold q; lia].
  - intros i Hi. rewrite Hk, Hrest by done. by rewrite Hm1.
  - intros o Hcase. apply Ho. cbn [with_manager objs].
    assert ((∃ q', objs s1 !! o = Some (Some (cursorToVectorClock q')))
      ∨ (∃ ev, ev ∈ evs ∧ ev_event ev ≫= obj_of = Some o)) as [Hq|Hin]; [|by right|by left].
    destruct Hcase as [(x & [->|Hx]%elem_of_cons & Hxo)|[q' Hq']].
    + left. unfold s1. rewrite Hxo. cbn. rewrite lookup_insert_eq. by eexists.
    + right. by exists x.
    + left. unfold s1. destruct (ev_event ev ≫= obj_of) as [o'|]; [|by eexists]. cbn.
      destruct (decide (o' = o)) as [->|Hne]; [rewrite lookup_insert_eq; by eexists|].
      rewrite lookup_insert_ne by done. by eexists.
Qed.

(** Remark: loading through the decorator returns what the store holds past the
    given number and raises the manager's sequence counter to the last number
    seen; but the clock of every loaded event object is replaced by the bare
    sequence number, so the node counters that storing gave it are lost. *)
Theorem Versioned_Load_forgets_nodes (k n : nat) (s : VersionedStore St)
    (Hready : ready (vs_store s) n) (Hnum : numbered 0 (log (vs_store s)))
    (Ht : tracks_sequence (vs_manager s)) :
  ∃ s', Load obj_of background (Some (IntegerCursor (Z.of_nat k))) s
          = Done (s', Ok (drop k (log (vs_store s))))
    ∧ vs_store s' = vs_store s
    ∧ counter (vs_manager s') "sequence"
      = (if decide (drop k (log (vs_store s)) = []) then counter (vs_manager s) "sequence"
         else Z.max (counter (vs_manager s) "sequence") (Z.of_nat (length (log (vs_store s)))))
    ∧ ∀ ev o, ev ∈ drop k (log (vs_store s)) → ev_event ev ≫= obj_of = Some o →
        ∃ vc, objs s' !! o = Some (Some vc) ∧ ∀ node, node ≠ "sequence" → GetClock vc node = 0.
Proof.
  unfold Load. cbn [start_of]. rewrite (log_Load (vs_store s) n k Hready). cbn [obind after_read].
  destruct (observe_events_spec k (drop k (log (vs_store s))) s) as (s' & -> & Hst & _ & Hc & _ & Ho);
    [by apply (numbered_drop k 0)|done|].
  cbn [obind]. exists s'. split; [done|]. split; [done|]. split.
  - rewrite Hc. case_decide as Hnil; [done|]. do 2 f_equal. rewrite length_drop.
    destruct (decide (length (log (vs_store s)) ≤ k)%nat) as [Hle|]; [|lia].
    exfalso. apply Hnil. by apply drop_ge.
  - intros ev o Hev Hobj. destruct (Ho o) as [q Hq]; [left; by exists ev|].
    exists (cursorToVectorClock q). split; [done|]. intros node Hnode.
    unfold GetClock, clock_at, cursorToVectorClock. cbn. by rewrite lookup_singleton_ne.
Qed.
End properties.

(** ** Concrete instances *)
#[local] Instance demo_range : MapRange := canonical_range.
(** One versioned event object, the others carry no clock. *)
Definition demo_obj (e : Event) : option nat := if bool_decide (ID e = "e1") then Some 0%nat else None.
Definition demo_versioned : VersionedStore MemStore.MemStore :=
  mkVersioned MemStore.demo_store "node-a" NewVectorClockManager false
    {[0%nat := Some (mkVectorClock (Some {["node-a" := 4; "node-b" := 2]}))]}.
Lemma demo_tracks : tracks_sequence NewVectorClockManager.
Proof. exists ∅. split; [done|]. split; [by vm_compute; lia|by vm_compute]. Qed.
Lemma demo_ready n : (n < 100)%nat → ready MemStore.demo_store n.
Proof. intros Hn. split; [apply MemStore.demo_store_inv|by apply MemStore.demo_store_room]. Qed.

Lemma NewVersionedStore_resumes_witness :
  ∃ s, NewVersionedStore MemStore.demo_store "node-a" (Some NewVectorClockManager) ∅ = Done (Ok s)
    ∧ vs_store s = MemStore.demo_store ∧ objs s = ∅ ∧ tracks_sequence (vs_manager s)
    ∧ counter (vs_manager s) "sequence"
      = Z.max (counter NewVectorClockManager "sequence") (Z.of_nat (length (log MemStore.demo_store)))
    ∧ ∀ k, k ≠ "sequence" → counter (vs_manager s) k = counter NewVectorClockManager k.
Proof. apply (NewVersionedStore_resumes MemStore.demo_store 1); [apply demo_ready; lia|apply demo_tracks]. Defined.

Lemma Versioned_Store_stamps_witness :
  ∃ s', Store demo_obj background (Some MemStore.demo_order) None demo_versioned = Done (s', None)
    ∧ length (log (vs_store s')) = 4%nat
    ∧ ∃ c, objs s' = <[0%nat := Some (mkVectorClock (Some c))]> (objs demo_versioned)
        ∧ clock_at c "sequence" = 4 ∧ c !! "node-b" = Some 2.
Proof.
  destruct (Versioned_Store_stamps demo_obj MemStore.demo_order None 5 demo_versioned)
    with (m := {["node-a" := 4; "node-b" := 2]} : gmap string Z) as (s' & Hrun & Hlog & _ & Hobj).
  - apply demo_ready; lia.
  - vm_compute. reflexivity.
  - discriminate.
  - intros o Ho. injection Ho as <-. reflexivity.
  - exists s'. split; [exact Hrun|]. split; [rewrite Hlog, length_app; reflexivity|].
    destruct Hobj as (c & Hc & Hseq & _ & Hrest). exists c. split; [exact Hc|]. split; [exact Hseq|].
    by rewrite Hrest.
Defined.

Lemma Versioned_Load_forgets_nodes_witness :
  ∃ s', Load demo_obj background (Some (IntegerCursor (Z.of_nat 0))) demo_versioned
          = Done (s', Ok (drop 0 (log MemStore.demo_store)))
    ∧ ∃ vc, objs s' !! 0%nat = Some (Some vc) ∧ GetClock vc "node-a" = 0.
Proof.
  destruct (Versioned_Load_forgets_nodes demo_obj 0 1 demo_versioned) as (s' & Hrun & _ & _ & Ho).
  - apply demo_ready; lia.
  - intros i ev Hi. destruct i as [|[|[|i]]]; vm_compute in Hi; try done; injection Hi as <-; reflexivity.
  - apply demo_tracks.
  - exists s'. split; [exact Hrun|].
    destruct (Ho (MemStore.stored MemStore.demo_order 1) 0%nat) as (vc & Hvc & Hz);
      [by left|reflexivity|]. exists vc. split; [exact Hvc|]. by apply Hz.
Defined.
