(* ===== verification/Projection.v ===== *)
(** * Projection runners (src/projection: interfaces.go, runner.go)

    The runner reads the store from the stored offset in batches, applies each
    batch to the projector and then moves the offset.  Stores, projectors and
    offset stores are interfaces; [ctx n] is the context as the [n]-th call of
    the run sees it.  The calls of the metrics collector are kept in the order
    they are made, without their durations; what they mean for it is in
    [ProjectionMetrics].  Logging is left out. *)
From S2P Require Import Prelude Types Json Errors VectorClock Versions Interfaces Convergence.
From S2P Require MemStore.
From stdpp Require Import options.
#[local] Set Default Proof Using "Type*".

Class OffsetStore (O : Type) := {
  os_Get : CtxView → string → O → outcome (result error (option Version));
  os_Set : CtxView → string → option Version → O → outcome (O * option error)
}.
Class Projector (P : Type) := {
  p_Name : P → string;
  p_Apply : CtxView → list EventWithVersion → P → outcome (P * option error)
}.

(** The collector's methods the runner uses. *)
Inductive MetricsCall :=
  | ProjectionOperation (projection operation : string) (success : bool) (eventsProcessed : nat)
  | ProjectionError (projection operation errorType : string).
Definition ErrorTypeApply : string := "apply_error".
Definition ErrorTypeOffset : string := "offset_error".
Definition ErrorTypeLoad : string := "load_error".
Definition ErrorTypeTimeout : string := "timeout_error".
Definition ErrorTypeContext : string := "context_error".
Definition OperationApplySince : string := "apply_since".
Definition OperationApplyBatch : string := "apply_batch".

(** [r_metrics] is whether the collector is not nil; [r_calls] what it was told. *)
Record runner (St O P : Type) := mkRunner {
  r_store : St; r_offsets : O; r_projector : P; batchSize : Z;
  metricsEnabled : bool; r_metrics : bool; r_calls : list MetricsCall
}.
Arguments mkRunner {St O P}.
Arguments r_store {St O P}.
Arguments r_offsets {St O P}.
Arguments r_projector {St O P}.
Arguments batchSize {St O P}.
Arguments metricsEnabled {St O P}.
Arguments r_metrics {St O P}.
Arguments r_calls {St O P}.

Section operations.
Context {St O P : Type} {ES : EventStore St} {OS : OffsetStore O} {PR : Projector P}.
Notation runner := (runner St O P).

Definition set_projector (p : P) (r : runner) : runner :=
  mkRunner (r_store r) (r_offsets r) p (batchSize r) (metricsEnabled r) (r_metrics r) (r_calls r).
Definition set_offsets (o : O) (r : runner) : runner :=
  mkRunner (r_store r) o (r_projector r) (batchSize r) (metricsEnabled r) (r_metrics r) (r_calls r).
Definition set_metrics (enabled present : bool) (r : runner) : runner :=
  mkRunner (r_store r) (r_offsets r) (r_projector r) (batchSize r) enabled present (r_calls r).

(** [if r.metricsEnabled && r.metrics != nil]. *)
Definition recording (r : runner) : bool := metricsEnabled r && r_metrics r.
Definition record (c : MetricsCall) (r : runner) : runner :=
  mkRunner (r_store r) (r_offsets r) (r_projector r) (batchSize r) (metricsEnabled r) (r_metrics r)
    (if recording r then r_calls r ++ [c] else r_calls r).

(** [WithBatchSize] ignores sizes that are not positive. *)
Definition WithBatchSize (n : Z) (r : runner) : runner :=
  if 0 <? n then mkRunner (r_store r) (r_offsets r) (r_projector r) n (metricsEnabled r)
                   (r_metrics r) (r_calls r) else r.
Definition WithMetrics (present : bool) (r : runner) : runner := set_metrics true present r.
Definition WithMetricsEnabled (enabled : bool) (r : runner) : runner :=
  set_metrics enabled (r_metrics r) r.
Definition NewRunner (s : St) (o : O) (p : P) (opts : list (runner → runner)) : runner :=
  fold_left (λ r opt, opt r) opts (mkRunner s o p 500 false false []).

Definition proj_err (op msg : string) (e : error) : error :=
  Errors.E [AOp op; AComponent "projection"; AErr (ErrWrap msg e)].

Definition getStartVersion (ctx : nat → CtxView) (r : runner)
    : outcome (result error (option Version)) :=
  let name := p_Name (r_projector r) in
  let* got := os_Get (ctx 0%nat) name (r_offsets r) in
  match got with
  | Err e => Done (Err (ErrWrap ("failed to get offset for projection " +:+ name) e))
  | Ok (Some v) => Done (Ok (Some v))
  | Ok None =>
      let* z := es_ParseVersion (ctx 1%nat) "" (r_store r) in
      match z with
      | Err e => Done (Err (ErrWrap "failed to create zero version for projection start" e))
      | Ok v => Done (Ok v)
      end
  end.

Definition ApplyBatch (ctx : nat → CtxView) (n : nat) (batch : list EventWithVersion) (r : runner)
    : outcome (runner * option error) :=
  match last batch with
  | None => Done (r, None)
  | Some lastEvent =>
      let name := p_Name (r_projector r) in
      let* (p, err) := p_Apply (ctx n) batch (r_projector r) in
      let r := set_projector p r in
      match err with
      | Some e =>
          let r := record (ProjectionError name OperationApplyBatch ErrorTypeApply) r in
          Done (r, Some (proj_err "runner.ApplyBatch" ("failed to apply batch to projection " +:+ name) e))
      | None =>
          let* (o, err) := os_Set (ctx (S n)) name (ev_version lastEvent) (r_offsets r) in
          let r := set_offsets o r in
          match err with
          | Some e =>
              let r := record (ProjectionError name OperationApplyBatch ErrorTypeOffset) r in
              Done (r, Some (proj_err "runner.ApplyBatch"
                               ("failed to update offset for projection " +:+ name) e))
          | None =>
              Done (record (ProjectionOperation name OperationApplyBatch true (length batch)) r, None)
          end
      end
  end.

(** The loop: [after] is where the next batch starts, [last] the last version
    processed.  Running out of fuel stands for a loop that does not end. *)
Fixpoint apply_loop (fuel : nat) (ctx : nat → CtxView) (n : nat) (after : option Version)
    (total : nat) (lastv : option Version) (r : runner)
    : outcome (runner * (nat * option Version * option error)) :=
  match fuel with
  | 0%nat => Panic "the loop does not end"
  | S fuel =>
      let* loaded := es_Load (ctx n) after [] (r_store r) in
      match loaded with
      | Err e =>
          Done (r, (total, lastv, Some (proj_err "runner.ApplySince"
            ("failed to load events for projection " +:+ p_Name (r_projector r)) e)))
      | Ok allEvents =>
          let batch := if batchSize r <? Z.of_nat (length allEvents)
                       then take (Z.to_nat (batchSize r)) allEvents else allEvents in
          match last batch with
          | None => Done (r, (total, lastv, None))
          | Some lastEvent =>
              let* (r, err) := ApplyBatch ctx (S n) batch r in
              match err with
              | Some e => Done (r, (total, lastv, Some e))
              | None =>
                  let total := (total + length batch)%nat in
                  let v := ev_version lastEvent in
                  if Z.of_nat (length batch) <? batchSize r then Done (r, (total, v, None))
                  else apply_loop fuel ctx (n + 3) v total v r
              end
          end
      end
  end.
(** The body: the start version, the loop and the metrics of a run without an
    error. *)
Definition apply_since (fuel : nat) (ctx : nat → CtxView) (r : runner)
    : outcome (runner * (nat * option Version * option error)) :=
  let name := p_Name (r_projector r) in
  let* start := getStartVersion ctx r in
  match start with
  | Err e =>
      let r := record (ProjectionError name OperationApplySince ErrorTypeOffset) r in
      Done (r, (0%nat, None, Some (proj_err "runner.ApplySince"
        ("failed to determine start version for projection " +:+ name) e)))
  | Ok v =>
      let* (r, (total, lastv, err)) := apply_loop fuel ctx 2 v 0 None r in
      match err with
      | Some e => Done (r, (total, lastv, Some e))
      | None =>
          let r := if (0 <? total)%nat
                   then record (ProjectionOperation name OperationApplySince true total) r else r in
          Done (r, (total, lastv, None))
      end
  end.
(** The deferred function runs last and names the error by the events applied. *)
Definition ApplySince (fuel : nat) (ctx : nat → CtxView) (r : runner)
    : outcome (runner * (nat * option Version * option error)) :=
  let name := p_Name (r_projector r) in
  let* (r, (applied, lastv, err)) := apply_since fuel ctx r in
  match err with
  | None => Done (r, (applied, lastv, None))
  | Some e =>
      let errorType := if (0 <? applied)%nat then ErrorTypeApply else ErrorTypeLoad in
      Done (record (ProjectionError name OperationApplySince errorType) r, (applied, lastv, Some e))
  end.
End operations.

(** ** Promises *)

(** An offset store that keeps, for the names it serves, the sequence number
    that was last set, and says so. *)
Class DurableOffsets (O : Type) {OS : OffsetStore O} := {
  offset : O → string → option Version;
  serves : O → string → Prop;
  get_offset : ∀ name o, serves o name → os_Get background name o = Done (Ok (offset o name));
  set_offset : ∀ ctx name n o, serves o name → is_u64 n →
    ∃ o' err, os_Set ctx name (Some (IntegerCursor n)) o = Done (o', err) ∧ serves o' name
    ∧ offset o' name = match err with None => Some (IntegerCursor n) | Some _ => offset o name end
}.
(** A projector that takes a batch as a whole or refuses it. *)
Class AtomicProjector (P : Type) {PR : Projector P} := {
  seen : P → list EventWithVersion;
  apply_atomic : ∀ ctx batch p, ∃ p' err, p_Apply ctx batch p = Done (p', err)
    ∧ p_Name p' = p_Name p
    ∧ seen p' = match err with None => seen p ++ batch | Some _ => seen p end
}.

Section properties.
Context {St O P : Type} {ES : EventStore St} {OS : OffsetStore O} {PR : Projector P}.
Context {LS : LogStore St} {DO : DurableOffsets O} {AP : AtomicProjector P}.
Notation runner := (runner St O P).
Implicit Types r : runner.

(** Where the runner's offset stands, before the first run at the beginning. *)
Definition position r : option Version := offset (r_offsets r) (p_Name (r_projector r)).
Definition at_position r (k : nat) : Prop :=
  position r = Some (IntegerCursor (Z.of_nat k)) ∨ (position r = None ∧ k = 0%nat).

Definition served r : Prop := serves (r_offsets r) (p_Name (r_projector r)).

(** The outcome of one batch. *)
Lemma ApplyBatch_spec ctx n batch ev seq r :
  last batch = Some ev → ev_version ev = Some (IntegerCursor seq) → is_u64 seq → served r →
  ∃ r' err, ApplyBatch ctx n batch r = Done (r', err)
    ∧ r_store r' = r_store r ∧ batchSize r' = batchSize r ∧ served r'
    ∧ match err with
      | None => position r' = ev_version ev ∧ seen (r_projector r') = seen (r_projector r) ++ batch
      | Some _ => position r' = position r
          ∧ (seen (r_projector r') = seen (r_projector r)
             ∨ seen (r_projector r') = seen (r_projector r) ++ batch)
      end.
Proof.
  intros Hlast Hv Hseq Hserved. unfold ApplyBatch. rewrite Hlast, Hv.
  destruct (apply_atomic (ctx n) batch (r_projector r)) as (p & perr & -> & Hname & Hseen). cbn [obind].
  destruct perr as [e|].
  { eexists _, _. split; [reflexivity|]. unfold position, served. cbn. rewrite Hname. by split_and!; [..|left]. }
  cbn [set_projector r_offsets r_projector].
  destruct (set_offset (ctx (S n)) (p_Name (r_projector r)) seq (r_offsets r) Hserved Hseq)
    as (o & oerr & -> & Ho' & Ho). cbn [obind].
  unfold position, served. destruct oerr as [e|]; eexists _, _; (split; [reflexivity|]); cbn;
    rewrite Hname, Ho; split_and!; try done. by right.
Qed.

(** The last entry of a prefix of a numbered log. *)
Lemma last_numbered k m (l : list EventWithVersion) :
  numbered k l → (0 < m)%nat → take m l ≠ [] →
  ∃ ev, last (take m l) = Some ev
    ∧ ev_version ev = Some (IntegerCursor (Z.of_nat (k + length (take m l)))).
Proof.
  intros Hnum Hm Hne. destruct (last (take m l)) as [ev|] eqn:Hl; [|by apply last_None in Hl].
  exists ev. split; [done|]. rewrite last_lookup in Hl. pose proof Hl as Hi.
  apply lookup_take_Some in Hi as [Hi _]. rewrite (Hnum _ _ Hi).
  assert (length (take m l) ≠ 0)%nat by (by destruct (take m l)). do 2 f_equal. lia.
Qed.

Lemma apply_loop_spec fuel n k total lastv room r :
  ready (r_store r) room → numbered 0 (log (r_store r)) → 0 < batchSize r →
  served r → is_u64 (Z.of_nat (length (log (r_store r)))) →
  at_position r k → (length (log (r_store r)) - k < fuel)%nat →
  ∃ r' a lastv' err c,
    apply_loop fuel (λ _, background) n (Some (IntegerCursor (Z.of_nat k))) total lastv r
      = Done (r', ((total + a)%nat, lastv', err))
    ∧ r_store r' = r_store r ∧ batchSize r' = batchSize r ∧ at_position r' (k + a)
    ∧ seen (r_projector r') = seen (r_projector r) ++ take c (drop k (log (r_store r)))
    ∧ (a ≤ c)%nat ∧ Z.of_nat c ≤ Z.of_nat a + batchSize r
    ∧ (err = None → c = a ∧ a = (length (log (r_store r)) - k)%nat).
Proof.
  intros Hready Hnum Hsize. revert n k total lastv r Hready Hnum Hsize.
  induction fuel as [|fuel IH]; intros n k total lastv r Hready Hnum Hsize Hserved Hbound Hpos Hfuel; [lia|].
  cbn [apply_loop]. rewrite (log_Load (r_store r) room k Hready). cbn [obind].
  set (L := drop k (log (r_store r))). set (B := Z.to_nat (batchSize r)).
  assert ((if batchSize r <? Z.of_nat (length L) then take B L else L) = take B L) as ->.
  { unfold B. destruct (Z.ltb_spec (batchSize r) (Z.of_nat (length L))); [done|].
    rewrite take_ge; [done|lia]. }
  assert (length L = length (log (r_store r)) - k)%nat as HL by apply length_drop.
  destruct (decide (take B L = [])) as [Hnil|Hne].
  { rewrite Hnil. cbn [last]. exists r, 0%nat, lastv, None, 0%nat. rewrite !Nat.add_0_r.
    assert (length L = 0)%nat.
    { pose proof (f_equal length Hnil) as Hz. rewrite length_take in Hz. cbn in Hz. lia. }
    split_and!; try done; [by rewrite take_0, app_nil_r|lia|]. intros _. split; [done|lia]. }
  assert (numbered k L) as HnumL by by apply (numbered_drop k 0).
  destruct (last_numbered k B L HnumL) as (ev & Hlast & Hv); [lia|done|]. rewrite Hlast.
  assert (length (take B L) ≤ B)%nat as HlenB by (rewrite length_take; lia).
  assert (is_u64 (Z.of_nat (k + length (take B L)))) as Hseq.
  { assert (length (take B L) ≤ length L)%nat by (rewrite length_take; lia).
    assert (length L ≠ 0)%nat by (intros H0; apply nil_length_inv in H0; by rewrite H0, take_nil in Hne).
    unfold is_u64 in *. lia. }
  destruct (ApplyBatch_spec (λ _, background) (S n) (take B L) ev _ r Hlast Hv Hseq Hserved)
    as (r1 & err & -> & Hst & Hbs & Hserved1 & Herr). cbn [obind].
  destruct err as [e|].
  { destruct Herr as [Hp Hs]. destruct Hs as [Hs|Hs].
    - exists r1, 0%nat, lastv, (Some e), 0%nat. rewrite !Nat.add_0_r.
      split_and!; try done; [unfold at_position; by rewrite Hp|by rewrite take_0, app_nil_r|lia].
    - exists r1, 0%nat, lastv, (Some e), B. rewrite !Nat.add_0_r.
      split_and!; try done; [unfold at_position; by rewrite Hp|lia|lia]. }
  destruct Herr as [Hp Hs]. set (len := length (take B L)) in *. rewrite Hbs.
  assert (len ≤ length L)%nat as HlenL by (unfold len; rewrite length_take; lia).
  assert (take len L = take B L) as Htake.
  { unfold len. rewrite length_take. destruct (decide (B ≤ length L)%nat); [by rewrite Nat.min_l by lia|].
    by rewrite Nat.min_r, !take_ge by lia. }
  destruct (Z.ltb_spec (Z.of_nat len) (batchSize r)) as [Hlt|Hge].
  - exists r1, len, (ev_version ev), None, len.
    split_and!; try done; [left; by rewrite Hp|by rewrite Hs, Htake|lia|].
    intros _. split; [done|]. unfold len in *. rewrite length_take in *. lia.
  - assert (0 < len)%nat by lia.
    destruct (IH (n + 3)%nat (k + len)%nat (total + len)%nat (ev_version ev) r1)
      as (r' & a & lastv' & err & c & Hrun & Hst' & Hbs' & Hpos' & Hs' & Hac & Hca & Hdone);
      [by rewrite Hst|by rewrite Hst|lia|done|by rewrite Hst|left; by rewrite Hp|rewrite Hst; lia|].
    rewrite Hst in Hs', Hdone. rewrite Hbs in Hca.
    exists r', (len + a)%nat, lastv', err, (len + c)%nat. rewrite !Nat.add_assoc.
    split; [rewrite Hv; rewrite Hv in Hrun; exact Hrun|].
    split; [congruence|]. split; [congruence|]. split; [done|]. split.
    { rewrite Hs', Hs, <-app_assoc. f_equal. rewrite <-drop_drop. fold L.
      rewrite <-Htake. by rewrite take_take_drop. }
    split; [lia|]. split; [lia|]. intros ->. destruct Hdone as [-> ->]; [done|]. lia.
Qed.

(** The outcome of a run, for the theorems about runs. *)
Lemma ApplySince_run (fuel k room : nat) (r : runner) :
  ready (r_store r) room → numbered 0 (log (r_store r)) → 0 < batchSize r → served r →
  is_u64 (Z.of_nat (length (log (r_store r)))) →
  es_ParseVersion background "" (r_store r) = Done (Ok (Some (IntegerCursor 0))) →
  at_position r k → (length (log (r_store r)) < fuel)%nat →
  ∃ r' a lastv err c, ApplySince fuel (λ _, background) r = Done (r', (a, lastv, err))
    ∧ r_store r' = r_store r ∧ at_position r' (k + a)
    ∧ seen (r_projector r') = seen (r_projector r) ++ take c (drop k (log (r_store r)))
    ∧ (a ≤ c)%nat ∧ Z.of_nat c ≤ Z.of_nat a + batchSize r
    ∧ (err = None → seen (r_projector r') = seen (r_projector r) ++ drop k (log (r_store r))
                    ∧ a = (length (log (r_store r)) - k)%nat).
Proof.
  intros Hready Hnum Hsize Hserved Hbound Hzero Hpos Hfuel.
  unfold ApplySince, apply_since, getStartVersion. rewrite get_offset by done. cbn [obind].
  fold (position r).
  assert (match position r with
    | Some v => Done (Ok (Some v))
    | None =>
        let* z := es_ParseVersion background "" (r_store r) in
        match z with
        | Err e => Done (Err (ErrWrap "failed to create zero version for projection start" e))
        | Ok v => Done (Ok v)
        end
    end = Done (Ok (E := error) (Some (IntegerCursor (Z.of_nat k))))) as ->.
  { destruct Hpos as [->|[-> ->]]; [done|]. by rewrite Hzero. }
  cbn [obind].
  destruct (apply_loop_spec fuel 2 k 0 None room r Hready Hnum Hsize Hserved Hbound Hpos)
    as (r' & a & lastv & err & c & Hrun & Hst & _ & Hpos' & Hs & Hac & Hca & Hdone); [lia|].
  rewrite Hrun. cbn [obind].
  assert (∀ c', position (record c' r') = position r') as Hrec by done.
  destruct err as [e|]; cbn [obind].
  - eexists _, a, lastv, (Some e), c. split; [reflexivity|]. by split_and!.
  - destruct (Hdone eq_refl) as [-> ->]. set (a := (_ - k)%nat) in *.
    eexists _, a, lastv, None, a. split; [reflexivity|].
    assert (take a (drop k (log (r_store r))) = drop k (log (r_store r))) as Htake.
    { rewrite take_ge; [done|]. by rewrite length_drop. }
    rewrite Htake in Hs. rewrite !Nat.add_0_l. by destruct (0 <? a)%nat; cbn [record r_projector]; rewrite Hs, ?Htake; split_and!.
Qed.

(** C17: a run from offset [k] hands the projector, in order and without gaps,
    the events of the log past [k]: all of them when it ends without an error;
    when a batch or the offset fails it stops, the offset stands just after the
    [a] events it counts, and at most the batch whose offset could not be
    stored has been applied beyond it.  So the next run skips nothing and
    repeats at most one batch.  The loop ends for any positive batch size. *)
Theorem ApplySince_resumes (fuel k room : nat) (r : runner)
    (Hready : ready (r_store r) room) (Hnum : numbered 0 (log (r_store r))) (Hsize : 0 < batchSize r)
    (Hserved : serves (r_offsets r) (p_Name (r_projector r)))
    (Hbound : is_u64 (Z.of_nat (length (log (r_store r)))))
    (Hzero : es_ParseVersion background "" (r_store r) = Done (Ok (Some (IntegerCursor 0))))
    (Hpos : at_position r k) (Hfuel : (length (log (r_store r)) < fuel)%nat) :
  ∃ r' a lastv err c, ApplySince fuel (λ _, background) r = Done (r', (a, lastv, err))
    ∧ r_store r' = r_store r ∧ at_position r' (k + a)
    ∧ seen (r_projector r') = seen (r_projector r) ++ take c (drop k (log (r_store r)))
    ∧ (a ≤ c)%nat ∧ Z.of_nat c ≤ Z.of_nat a + batchSize r
    ∧ (err = None → seen (r_projector r') = seen (r_projector r) ++ drop k (log (r_store r))
                    ∧ a = (length (log (r_store r)) - k)%nat).
Proof. by apply (ApplySince_run fuel k room r). Qed.
End properties.

(** ** Concrete instances *)

(** Offsets in a map; a projector that records what it is given and refuses a
    batch that contains a chosen identifier. *)
#[local] Instance map_offsets : OffsetStore (gmap string Version) := {|
  os_Get := λ _ name m, Done (Ok (m !! name));
  os_Set := λ _ name v m, Done (match v with Some v => <[name := v]> m | None => delete name m end, None)
|}.
#[local] Program Instance map_durable : DurableOffsets (gmap string Version) := {|
  offset := λ m name, m !! name;
  serves := λ _ _, True
|}.
Next Obligation. done. Qed.
Next Obligation.
  intros ctx name n m _ _. eexists _, _. split; [reflexivity|]. split; [done|]. cbn. by rewrite lookup_insert_eq.
Qed.

Record Recorder := mkRecorder { refuses : string; recorded : list EventWithVersion }.
#[local] Instance recorder_Projector : Projector Recorder := {|
  p_Name := λ _, "orders";
  p_Apply := λ _ batch p,
    if decide (Some (refuses p) ∈ (λ ev, ID <$> ev_event ev) <$> batch)
    then Done (p, Some (ErrMsg "refused"))
    else Done (mkRecorder (refuses p) (recorded p ++ batch), None)
|}.
#[local] Program Instance recorder_Atomic : AtomicProjector Recorder := {| seen := recorded |}.
Next Obligation.
  intros ctx batch p. cbn. case_decide; eexists _, _; (split; [reflexivity|]); by split.
Qed.

#[local] Instance demo_range : MapRange := canonical_range.

(** Three events in batches of one; the second is refused. *)
Lemma ApplySince_resumes_witness :
  let r := NewRunner MemStore.demo_store (∅ : gmap string Version) (mkRecorder "e2" []) [WithBatchSize 1] in
  ∃ r' a lastv err c, ApplySince 9 (λ _, background) r = Done (r', (a, lastv, err))
    ∧ r_store r' = r_store r ∧ at_position r' (0 + a)
    ∧ seen (r_projector r') = seen (r_projector r) ++ take c (drop 0 (log (r_store r)))
    ∧ (a ≤ c)%nat ∧ Z.of_nat c ≤ Z.of_nat a + batchSize r.
Proof.
  cbn zeta. set (r := NewRunner _ _ _ _).
  destruct (ApplySince_resumes 9 0 1 r) as (r' & a & lastv & err & c & Hrun & Hst & Hpos & Hs & Hac & Hca & _).
  - split; [apply MemStore.demo_store_inv|apply MemStore.demo_store_room; lia].
  - intros i ev Hi. destruct i as [|[|[|i]]]; vm_compute in Hi; try done; injection Hi as <-; reflexivity.
  - reflexivity.
  - done.
  - by apply (bool_decide_unpack _); vm_compute.
  - reflexivity.
  - right. by split.
  - cbn. vm_compute. lia.
  - exists r', a, lastv, err, c. by split_and!.
Defined.
