(* ===== verification/Workflow.v ===== *)
(** * Conflict workflows (src/synckit/statemachine/conflict_workflow.go)

    The record of one resolution, its audit trail, and the manager that keeps
    the active workflows by conflict identifier.  Workflows are shared by
    reference: the manager's map names cells of [heap]. *)
From S2P Require Import Prelude Types Json Errors Versions StateMachine DcrState.
From stdpp Require Import options.

Record RuleEvaluation := mkRuleEvaluation {
  RuleName : string; Matched : bool; EvaluatedAt : Z; EvalDuration : Z; EvalError : option error;
  EvalMetadata : gomap any
}.
Record RuleFailure := mkRuleFailure {
  FailedRule : string; Failure : error; FailedAt : Z; FailContext : string; Retryable : bool;
  FailMetadata : gomap any
}.
Record WorkflowPerformanceMetrics := mkPerf {
  TotalDuration : Z; AnalysisDuration : Z; RulesDuration : Z; ResolutionDuration : Z;
  RulesEvaluated : nat; RulesMatched : nat; RulesFailed : nat; MemoryUsage : Z
}.
Definition no_perf : WorkflowPerformanceMetrics := mkPerf 0 0 0 0 0 0 0 0.
Record WorkflowOptions := mkWorkflowOptions {
  EnableDetailedTracking : bool; MaxRuleEvaluations : Z; MaxStateHistory : Z;
  TrackPerformance : bool; IncludeMetadata : bool
}.
Definition DefaultWorkflowOptions : WorkflowOptions := mkWorkflowOptions true 100 50 true true.

(** [endTime] is [None] while it is the zero time. *)
Record ConflictWorkflow := mkWorkflow {
  conflict : Conflict;
  conflictID : string;
  wf_startTime : Z;
  endTime : option Z;
  rulesEvaluated : list RuleEvaluation;
  rulesMatched : list string;
  rulesFailed : list RuleFailure;
  decision : string;
  reasons : list string;
  resolvedEvents : list EventWithVersion;
  stateHistory : list (StateTransition ConflictResolutionState);
  analysisResults : gmap string any;
  performanceMetrics : WorkflowPerformanceMetrics
}.

Definition generateConflictID (now : Z) (c : Conflict) : string :=
  c_EventType c +:+ ":" +:+ c_AggregateID c +:+ ":" +:+ format_int now.

(** The comparison is by identity, so a wrapped context error is retryable. *)
Definition isRetryableError (err : option error) : bool :=
  match err with
  | None => false
  | Some e => negb (bool_decide (e = ErrCtx Canceled) || bool_decide (e = ErrCtx DeadlineExceeded))
  end.

(** The options are accepted and dropped.  [now] and [start] are the two clock
    readings, for the identifier and for the start time. *)
Definition NewConflictWorkflow (now start : Z) (c : Conflict) (o : option WorkflowOptions)
    : ConflictWorkflow :=
  mkWorkflow c (generateConflictID now c) start None [] [] [] "" [] [] [] ∅ no_perf.

(** What [StartAnalysis] finds out about the two versions. *)
Definition version_analysis `{!MapRange} (c : Conflict) (m : gmap string any) : outcome (gmap string any) :=
  match ev_version (c_Local c), ev_version (c_Remote c) with
  | Some l, Some r =>
      let* comparison := version_Compare l (Some r) in
      let m := <["version_comparison" := AnyInt comparison]> m in
      Done (if comparison =? -1 then <["version_relationship" := AnyString "local_older"]> m
            else if comparison =? 0 then <["version_relationship" := AnyString "equal"]> m
            else if comparison =? 1 then <["version_relationship" := AnyString "local_newer"]> m
            else m)
  | _, _ => Done m
  end.
Definition StartAnalysis `{!MapRange} (analysisStart : Z) (w : ConflictWorkflow) : outcome ConflictWorkflow :=
  let c := conflict w in
  let p := performanceMetrics w in
  let p := mkPerf (TotalDuration p) (time_sub analysisStart (wf_startTime w)) (RulesDuration p)
             (ResolutionDuration p) (RulesEvaluated p) (RulesMatched p) (RulesFailed p)
             (MemoryUsage p) in
  let m := <["conflict_type" := AnyString (c_EventType c)]> (analysisResults w) in
  let m := <["aggregate_id" := AnyString (c_AggregateID c)]> m in
  let m := <["changed_fields_count" := AnyInt (Z.of_nat (length (c_ChangedFields c)))]> m in
  let m := <["has_local_version" := AnyBool (bool_decide (is_Some (ev_version (c_Local c))))]> m in
  let m := <["has_remote_version" := AnyBool (bool_decide (is_Some (ev_version (c_Remote c))))]> m in
  let* m := version_analysis c m in
  Done (mkWorkflow c (conflictID w) (wf_startTime w) (endTime w) (rulesEvaluated w)
          (rulesMatched w) (rulesFailed w) (decision w) (reasons w) (resolvedEvents w)
          (stateHistory w) m p).

(** [at_] and [failed_at] are the clock readings of the two records. *)
Definition RecordRuleEvaluation (at_ failed_at : Z) (ruleName : string) (matched : bool)
    (duration : Z) (err : option error) (metadata : gomap any) (w : ConflictWorkflow)
    : ConflictWorkflow :=
  let p := performanceMetrics w in
  mkWorkflow (conflict w) (conflictID w) (wf_startTime w) (endTime w)
    (rulesEvaluated w ++ [mkRuleEvaluation ruleName matched at_ duration err metadata])
    (if matched then rulesMatched w ++ [ruleName] else rulesMatched w)
    (match err with
     | Some e => rulesFailed w ++ [mkRuleFailure ruleName e failed_at "rule_evaluation"
                                     (isRetryableError err) metadata]
     | None => rulesFailed w
     end)
    (decision w) (reasons w) (resolvedEvents w) (stateHistory w) (analysisResults w)
    (mkPerf (TotalDuration p) (AnalysisDuration p) (RulesDuration p) (ResolutionDuration p)
       (S (RulesEvaluated p)) (if matched then S (RulesMatched p) else RulesMatched p)
       (if err then S (RulesFailed p) else RulesFailed p) (MemoryUsage p)).

(** The transition has no identifier. *)
Definition RecordStateTransition (now : Z) (from to : ConflictResolutionState) (duration : Z)
    (metadata : gomap any) (w : ConflictWorkflow) : ConflictWorkflow :=
  mkWorkflow (conflict w) (conflictID w) (wf_startTime w) (endTime w) (rulesEvaluated w)
    (rulesMatched w) (rulesFailed w) (decision w) (reasons w) (resolvedEvents w)
    (stateHistory w ++ [mkTransition from to now duration metadata ""])
    (analysisResults w) (performanceMetrics w).

(** [now] ends the workflow; [later] is the reading of [time.Since]. *)
Definition CompleteResolution (now later : Z) (dec : string) (rs : list string)
    (evs : list EventWithVersion) (w : ConflictWorkflow) : ConflictWorkflow :=
  let p := performanceMetrics w in
  mkWorkflow (conflict w) (conflictID w) (wf_startTime w) (Some now) (rulesEvaluated w)
    (rulesMatched w) (rulesFailed w) dec (reasons w ++ rs) (resolvedEvents w ++ evs)
    (stateHistory w) (analysisResults w)
    (mkPerf (time_sub now (wf_startTime w)) (AnalysisDuration p) (RulesDuration p)
       (time_sub later (now - RulesDuration p)) (RulesEvaluated p) (RulesMatched p)
       (RulesFailed p) (MemoryUsage p)).

Record ConflictAuditTrail := mkAudit {
  ConflictID : string; AuditTimestamp : Z; CompletedAt : option Z; EventType : string;
  AuditAggregate : string; ChangedFields : list string; Decision : string;
  AuditReasons : list string; AuditEvaluated : list RuleEvaluation; AuditMatched : list string;
  AuditFailed : list RuleFailure;
  StateHistory : list (StateTransition ConflictResolutionState);
  AnalysisResults : gmap string any; PerformanceMetrics : WorkflowPerformanceMetrics;
  AuditEvents : list EventWithVersion
}.
Definition GenerateAuditTrail `{!MapRange} (w : ConflictWorkflow) : ConflictAuditTrail :=
  mkAudit (conflictID w) (wf_startTime w) (endTime w) (c_EventType (conflict w))
    (c_AggregateID (conflict w)) (c_ChangedFields (conflict w)) (decision w) (reasons w)
    (rulesEvaluated w) (rulesMatched w) (rulesFailed w) (stateHistory w)
    (copyMetadata (analysisResults w)) (performanceMetrics w) (resolvedEvents w).

Record WorkflowStatus := mkStatus {
  StatusID : string; StatusState : ConflictResolutionState; StatusDuration : Z;
  StatusEvaluated : nat; StatusMatched : nat; StatusFailed : nat; StatusDecision : string;
  IsComplete : bool; LastActivity : Z
}.
Definition getLastActivityTime (w : ConflictWorkflow) : Z :=
  match last (stateHistory w) with
  | Some tr => Timestamp tr
  | None => match last (rulesEvaluated w) with
            | Some r => EvaluatedAt r
            | None => wf_startTime w
            end
  end.
(** [sm] is the machine the workflow was started with, as it is now. *)
Definition GetCurrentStatus (now : Z) (sm : option ConflictResolutionStateMachine)
    (w : ConflictWorkflow) : WorkflowStatus :=
  mkStatus (conflictID w) (match sm with Some d => DcrState.Current d | None => DCRIdle end)
    (time_sub now (wf_startTime w)) (length (rulesEvaluated w)) (length (rulesMatched w))
    (length (rulesFailed w)) (decision w) (bool_decide (is_Some (endTime w)))
    (getLastActivityTime w).

(** ** The manager *)
Record WorkflowManager := mkWM { workflows : gmap string nat; heap : list ConflictWorkflow }.
Definition NewWorkflowManager : WorkflowManager := mkWM ∅ [].
Definition StartWorkflow (now start : Z) (c : Conflict) (o : option WorkflowOptions)
    (m : WorkflowManager) : WorkflowManager * nat :=
  let w := NewConflictWorkflow now start c o in
  (mkWM (<[conflictID w := length (heap m)]> (workflows m)) (heap m ++ [w]), length (heap m)).
Definition GetWorkflow (id : string) (m : WorkflowManager) : option nat := workflows m !! id.
Definition CompleteWorkflow `{!MapRange} (id : string) (m : WorkflowManager)
    : WorkflowManager * option ConflictAuditTrail :=
  match workflows m !! id with
  | None => (m, None)
  | Some p => (mkWM (delete id (workflows m)) (heap m), GenerateAuditTrail <$> heap m !! p)
  end.
(** Each status reads the clock on its own; [now i] is the [i]-th reading. *)
Definition ListActiveWorkflows `{!MapRange} (now : nat → Z)
    (sm : option ConflictResolutionStateMachine) (m : WorkflowManager) : list WorkflowStatus :=
  imap (λ i w, GetCurrentStatus (now i) sm w)
    (omap (λ kp, heap m !! kp.2) (range (workflows m))).
(** A call of a method of the workflow at [p]. *)
Definition update_workflow (p : nat) (f : ConflictWorkflow → ConflictWorkflow)
    (m : WorkflowManager) : WorkflowManager := mkWM (workflows m) (alter f p (heap m)).

(** ** Invariants *)
Section invariants.
Context {MR : MapRange}.

Inductive wf_step : ConflictWorkflow → ConflictWorkflow → Prop :=
  | wf_analysis now w w' : StartAnalysis now w = Done w' → wf_step w w'
  | wf_evaluation t t' r m d e md w : wf_step w (RecordRuleEvaluation t t' r m d e md w)
  | wf_transition t from to d md w : wf_step w (RecordStateTransition t from to d md w)
  | wf_complete t t' dec rs evs w : wf_step w (CompleteResolution t t' dec rs evs w).

(** The counters and the lists of matches and failures are projections of the
    list of evaluations. *)
Record consistent (w : ConflictWorkflow) : Prop := {
  evaluated_count : RulesEvaluated (performanceMetrics w) = length (rulesEvaluated w);
  matched_count : RulesMatched (performanceMetrics w) = length (rulesMatched w);
  failed_count : RulesFailed (performanceMetrics w) = length (rulesFailed w);
  matched_names : rulesMatched w = RuleName <$> filter (λ r, Matched r = true) (rulesEvaluated w);
  failed_names : FailedRule <$> rulesFailed w
                 = RuleName <$> filter (λ r, is_Some (EvalError r)) (rulesEvaluated w);
  failed_retry : Forall (λ f, Retryable f = isRetryableError (Some (Failure f))) (rulesFailed w)
}.

Lemma new_consistent now start c o : consistent (NewConflictWorkflow now start c o).
Proof. by split. Qed.

Lemma evaluation_consistent t t' r m d e md w :
  consistent w → consistent (RecordRuleEvaluation t t' r m d e md w).
Proof.
  intros [He Hm Hf Hmn Hfn Hr]. split; cbn.
  - rewrite length_app, He. cbn. lia.
  - destruct m; [rewrite length_app, Hm; cbn; lia|done].
  - destruct e; [rewrite length_app, Hf; cbn; lia|done].
  - rewrite filter_app, fmap_app, <-Hmn. destruct m; cbn; [done|by rewrite app_nil_r].
  - rewrite filter_app, fmap_app, <-Hfn. destruct e as [e|]; cbn.
    + by rewrite fmap_app.
    + by rewrite app_nil_r.
  - destruct e; [|done]. apply Forall_app. split; [done|by apply Forall_singleton].
Qed.

(** The steps that leave the record of evaluations alone. *)
Lemma same_evaluations_consistent w w' :
  rulesEvaluated w' = rulesEvaluated w → rulesMatched w' = rulesMatched w →
  rulesFailed w' = rulesFailed w →
  RulesEvaluated (performanceMetrics w') = RulesEvaluated (performanceMetrics w) →
  RulesMatched (performanceMetrics w') = RulesMatched (performanceMetrics w) →
  RulesFailed (performanceMetrics w') = RulesFailed (performanceMetrics w) →
  consistent w → consistent w'.
Proof. intros He Hm Hf Hpe Hpm Hpf []. split; congruence. Qed.

(** What no step changes: which conflict the workflow is about. *)
Definition same_conflict (w w' : ConflictWorkflow) : Prop :=
  conflict w' = conflict w ∧ conflictID w' = conflictID w ∧ wf_startTime w' = wf_startTime w.

Lemma StartAnalysis_fields now w w' :
  StartAnalysis now w = Done w' →
  same_conflict w w' ∧ rulesEvaluated w' = rulesEvaluated w ∧ rulesMatched w' = rulesMatched w
  ∧ rulesFailed w' = rulesFailed w ∧ endTime w' = endTime w ∧ decision w' = decision w
  ∧ RulesEvaluated (performanceMetrics w') = RulesEvaluated (performanceMetrics w)
  ∧ RulesMatched (performanceMetrics w') = RulesMatched (performanceMetrics w)
  ∧ RulesFailed (performanceMetrics w') = RulesFailed (performanceMetrics w).
Proof. unfold StartAnalysis. destruct (version_analysis _ _); [|done]. by intros [= <-]. Qed.

Lemma wf_step_consistent w w' : consistent w → wf_step w w' → consistent w' ∧ same_conflict w w'.
Proof.
  intros Hc Hs. revert Hc. destruct Hs as [now w w' Hs| | |]; intros Hc.
  - apply StartAnalysis_fields in Hs as (Hsame & He & Hm & Hf & _ & _ & Hpe & Hpm & Hpf).
    split; [|done]. by eapply same_evaluations_consistent.
  - split; [by apply evaluation_consistent|done].
  - split; [|done]. by apply (same_evaluations_consistent w).
  - split; [|done]. by apply (same_evaluations_consistent w).
Qed.
Lemma wf_run_consistent w w' :
  consistent w → rtc wf_step w w' → consistent w' ∧ same_conflict w w'.
Proof.
  intros Hc Hrun. induction Hrun as [|w w1 w2 Hs _ IH]; [done|].
  destruct (wf_step_consistent w w1 Hc Hs) as [Hc1 (?&?&?)].
  destruct (IH Hc1) as [Hc2 (?&?&?)]. split; [done|]. split_and!; congruence.
Qed.

(** *** The manager *)

(** Every active identifier names a workflow of that identifier. *)
Definition wm_inv (m : WorkflowManager) : Prop :=
  ∀ id p, workflows m !! id = Some p → ∃ w, heap m !! p = Some w ∧ conflictID w = id.

Lemma NewWorkflowManager_inv : wm_inv NewWorkflowManager.
Proof. by intros id p. Qed.
Lemma StartWorkflow_inv now start c o m : wm_inv m → wm_inv (StartWorkflow now start c o m).1.
Proof.
  intros Hinv id p. cbn. rewrite lookup_insert_Some. intros [[<- <-]|[Hne Hp]].
  - eexists. by rewrite lookup_app_r, Nat.sub_diag by lia.
  - destruct (Hinv id p Hp) as (w & Hw & Hid). exists w. split; [|done].
    by apply lookup_app_l_Some.
Qed.
Lemma CompleteWorkflow_inv id m : wm_inv m → wm_inv (CompleteWorkflow id m).1.
Proof.
  intros Hinv. unfold CompleteWorkflow. destruct (workflows m !! id) eqn:Hid; [|done].
  intros id' p. cbn. rewrite lookup_delete_Some. intros [_ Hp]. eauto.
Qed.
Lemma update_workflow_inv p f m :
  (∀ w, conflictID (f w) = conflictID w) → wm_inv m → wm_inv (update_workflow p f m).
Proof.
  intros Hf Hinv id q Hq. destruct (Hinv id q Hq) as (w & Hw & Hid). cbn.
  destruct (decide (p = q)) as [->|Hne].
  - exists (f w). rewrite list_lookup_alter_eq, Hw. by rewrite Hf.
  - exists w. by rewrite list_lookup_alter_ne.
Qed.

(** Completing the workflow that was started gives its trail and forgets it. *)
Lemma complete_started now start c o f m :
  let id := generateConflictID now c in
  let '(m1, p) := StartWorkflow now start c o m in
  let m2 := update_workflow p f m1 in
  CompleteWorkflow id m2
  = (mkWM (delete id (workflows m)) (heap m2), Some (GenerateAuditTrail (f (NewConflictWorkflow now start c o)))).
Proof.
  cbn. unfold CompleteWorkflow. cbn. rewrite lookup_insert_eq, delete_insert_eq.
  f_equal. rewrite list_lookup_alter_eq, lookup_app_r, Nat.sub_diag by lia. done.
Qed.
End invariants.

(** ** Properties *)

(** Remark: however a workflow is driven, its audit trail is about the conflict it
    was started for, and its lists of matched and failed rules and its counters
    are exactly those of the evaluations recorded, in order. *)
Theorem audit_trail_faithful {MR : MapRange} (now start : Z) (c : Conflict)
    (o : option WorkflowOptions) (w : ConflictWorkflow)
    (Hrun : rtc wf_step (NewConflictWorkflow now start c o) w) :
  let a := GenerateAuditTrail w in
  ConflictID a = generateConflictID now c
  ∧ EventType a = c_EventType c ∧ AuditAggregate a = c_AggregateID c ∧ AuditTimestamp a = start
  ∧ AuditMatched a = RuleName <$> filter (λ r, Matched r = true) (AuditEvaluated a)
  ∧ FailedRule <$> AuditFailed a
    = RuleName <$> filter (λ r, is_Some (EvalError r)) (AuditEvaluated a)
  ∧ RulesEvaluated (PerformanceMetrics a) = length (AuditEvaluated a)
  ∧ RulesMatched (PerformanceMetrics a) = length (AuditMatched a)
  ∧ RulesFailed (PerformanceMetrics a) = length (AuditFailed a)
  ∧ AnalysisResults a = analysisResults w.
Proof.
  destruct (wf_run_consistent _ w (new_consistent now start c o) Hrun) as [[] (Hc & Hid & Hst)].
  cbn. rewrite Hc, Hid, Hst. split_and!; try done. apply copy_range.
Qed.

(** Remark: starting a workflow makes exactly its identifier active; completing it,
    after whatever was recorded meanwhile, gives the trail of that workflow and
    leaves the other active workflows as they were; but two conflicts of the
    same type and aggregate in the same instant get the same identifier, and the
    earlier workflow is lost. *)
Theorem workflow_completes {MR : MapRange} (now start : Z) (c : Conflict)
    (o : option WorkflowOptions) (f : ConflictWorkflow → ConflictWorkflow) (m : WorkflowManager) :
  let id := generateConflictID now c in
  let '(m1, p) := StartWorkflow now start c o m in
  let m2 := update_workflow p f m1 in
  let '(m3, trail) := CompleteWorkflow id m2 in
  GetWorkflow id m1 = Some p
  ∧ trail = Some (GenerateAuditTrail (f (NewConflictWorkflow now start c o)))
  ∧ GetWorkflow id m3 = None
  ∧ (∀ id', id' ≠ id → GetWorkflow id' m3 = GetWorkflow id' m)
  ∧ (∀ c', c_EventType c' = c_EventType c → c_AggregateID c' = c_AggregateID c →
       let '(m4, p') := StartWorkflow now start c' o m1 in
       p' ≠ p ∧ ∀ id', GetWorkflow id' m4 = Some p → workflows m !! id' = Some p).
Proof.
  pose proof (complete_started now start c o f m) as Hc. cbn zeta.
  destruct (StartWorkflow now start c o m) as [m1 p] eqn:Hs. rewrite Hc.
  unfold StartWorkflow in Hs. injection Hs as <- <-. unfold GetWorkflow. cbn.
  rewrite lookup_insert_eq, lookup_delete_eq. split_and!; try done.
  - intros id' Hne. by rewrite lookup_delete_ne.
  - intros c' Ht Ha. unfold generateConflictID. rewrite Ht, Ha, length_app. split; [cbn; lia|].
    intros id'. rewrite lookup_insert_Some. intros [[_ Heq]|[Hne Hp]]; [cbn in Heq; lia|].
    by rewrite lookup_insert_ne in Hp.
Qed.

(** ** Concrete instances *)
Definition sample_conflict : Conflict := mkConflict "updated" "a-1" [] None zero_ewv zero_ewv.
Lemma audit_trail_faithful_witness :
  let w := RecordRuleEvaluation 3 4 "late" true 1 (Some (ErrMsg "boom")) None
             (RecordRuleEvaluation 1 2 "early" false 1 None None
                (NewConflictWorkflow 0 0 sample_conflict None)) in
  let a := GenerateAuditTrail (H := canonical_range) w in
  ConflictID a = generateConflictID 0 sample_conflict
  ∧ EventType a = c_EventType sample_conflict ∧ AuditAggregate a = c_AggregateID sample_conflict
  ∧ AuditTimestamp a = 0
  ∧ AuditMatched a = RuleName <$> filter (λ r, Matched r = true) (AuditEvaluated a)
  ∧ FailedRule <$> AuditFailed a
    = RuleName <$> filter (λ r, is_Some (EvalError r)) (AuditEvaluated a)
  ∧ RulesEvaluated (PerformanceMetrics a) = length (AuditEvaluated a)
  ∧ RulesMatched (PerformanceMetrics a) = length (AuditMatched a)
  ∧ RulesFailed (PerformanceMetrics a) = length (AuditFailed a)
  ∧ AnalysisResults a = analysisResults w.
Proof.
  apply (audit_trail_faithful (MR := canonical_range) 0 0 sample_conflict None).
  eapply rtc_l; [apply wf_evaluation|]. apply rtc_once, wf_evaluation.
Defined.
