(* ===== verification/StatefulResolver.v ===== *)
(** * The stateful resolver (src/synckit/stateful_resolver.go,
    src/synckit/statemachine/stateful_resolver.go)

    The dynamic resolver wrapped with a state machine, workflow tracking and
    performance metrics.  A panic of application code unwinds the call but
    leaves the resolver as it is then, so the monad keeps the state of a panic.
    Hooks are recorded as calls; loggers are left out. *)
From S2P Require Import Prelude Types Json Errors Versions StateMachine DcrState Resolvers.
From S2P Require Import Workflow.
From stdpp Require Import options.

(** The text of a time with nanoseconds ([time.RFC3339Nano]). *)
Class NanoText := { rfc3339nano : Z → string }.

(** Which observability hooks are set. *)
Record ObservabilityHooks := mkObsHooks {
  OnStateTransition : bool; OnStateTransitionFailed : bool;
  OnWorkflowStarted : bool; OnWorkflowCompleted : bool; OnWorkflowFailed : bool;
  OnRuleEvaluationStarted : bool; OnRuleEvaluationCompleted : bool; OnRuleEvaluationFailed : bool;
  OnMetricsRecorded : bool; OnPerformanceThreshold : bool
}.
Record StatefulResolverOptions := mkStatefulOptions {
  EnableStateMachine : bool; MaxStateHistorySize : Z; StateTransitionTimeout : Z;
  EnableWorkflowTracking : bool; MaxConcurrentWorkflows : Z; WorkflowRetentionTime : Z;
  WorkflowOpts : option WorkflowOptions;
  EnablePerformanceMetrics : bool; MetricsRetentionTime : Z; EnableAuditTrail : bool;
  AuditRetentionTime : Z;
  ObsHooks : option ObservabilityHooks
}.
Definition second : Z := 1000000000.
Definition DefaultStatefulResolverOptions : StatefulResolverOptions :=
  mkStatefulOptions true 100 (5 * second) true 1000 (24 * 3600 * second)
    (Some DefaultWorkflowOptions) true (7 * 24 * 3600 * second) true (30 * 24 * 3600 * second) None.

(** The seven fields nothing ever writes (failures of rules, transition and
    memory figures, peak) are left out: they stay zero. *)
Record ResolverPerformanceMetrics := mkMetrics {
  TotalConflictsResolved : Z; TotalResolutionTime : Z; AverageResolutionTime : Z;
  FastestResolutionTime : Z; SlowestResolutionTime : Z;
  AutoResolvedCount : Z; ManualReviewCount : Z; EscalatedCount : Z; FailedCount : Z;
  RuleEvaluationCount : Z; RuleMatchCount : Z;
  CurrentActiveWorkflows : nat;
  LastResetTime : Z; MetricsCollectionStart : Z
}.
Definition new_metrics (started reset : Z) : ResolverPerformanceMetrics :=
  mkMetrics 0 0 0 0 0 0 0 0 0 0 0 0 reset started.

(** ** The performance tracker *)
Record PerformanceTracker := mkTracker {
  pt_startTime : Z; lastCheckpoint : Z; checkpoints : gmap string Z; durations : gmap string Z;
  counters : gmap string Z
}.
Definition NewPerformanceTracker (now : Z) : PerformanceTracker := mkTracker now now ∅ ∅ ∅.
Definition Checkpoint (now : Z) (name : string) (pt : PerformanceTracker)
    : PerformanceTracker * Z :=
  let duration := time_sub now (lastCheckpoint pt) in
  (mkTracker (pt_startTime pt) now (<[name := now]> (checkpoints pt))
     (<[name := duration]> (durations pt)) (counters pt), duration).
Definition Increment (name : string) (pt : PerformanceTracker) : PerformanceTracker :=
  mkTracker (pt_startTime pt) (lastCheckpoint pt) (checkpoints pt) (durations pt)
    (<[name := i64 (default 0 (counters pt !! name) + 1)]> (counters pt)).
Definition GetDuration (name : string) (pt : PerformanceTracker) : Z :=
  default 0 (durations pt !! name).
Definition GetCounter (name : string) (pt : PerformanceTracker) : Z :=
  default 0 (counters pt !! name).
Definition GetTotalDuration (now : Z) (pt : PerformanceTracker) : Z := time_sub now (pt_startTime pt).
Record PerformanceTrackerSummary := mkTrackerSummary {
  SummaryStart : Z; SummaryTotal : Z; SummaryCheckpoints : gmap string Z;
  SummaryDurations : gmap string Z; SummaryCounters : gmap string Z
}.
Definition GetSummary `{!MapRange} (now : Z) (pt : PerformanceTracker) : PerformanceTrackerSummary :=
  mkTrackerSummary (pt_startTime pt) (GetTotalDuration now pt) (copy_map (range (checkpoints pt)))
    (copy_map (range (durations pt))) (copy_map (range (counters pt))).

(** ** The resolver *)
Record StatefulDynamicResolver := mkStateful {
  base : resolverOptions;
  sdr_machine : option ConflictResolutionStateMachine;
  sdr_workflows : option WorkflowManager;
  sdr_options : StatefulResolverOptions;
  sdr_metrics : option ResolverPerformanceMetrics;
  stateObservers : list nat;
  enabled : bool
}.

(** What the outside sees: hooks of the wrapped resolver and of the wrapper. *)
Inductive StatefulCall :=
  | BaseHook (h : HookCall)
  | WorkflowStarted (id : string) (c : Conflict)
  | WorkflowCompleted (id : string) (trail : ConflictAuditTrail)
  | RuleEvaluationStarted (id rule : string)
  | RuleEvaluationCompleted (id rule : string) (matched : bool) (duration : Z)
  | RuleEvaluationFailed (id rule : string) (err : error)
  | MetricsRecorded (m : ResolverPerformanceMetrics)
  | StateTransitioned (from to : ConflictResolutionState) (metadata : gomap any)
  | StateTransitionFailed (from to : ConflictResolutionState) (err : error).

(** [resolverStateObserver], the observer of the resolver's own machine; the
    machine calls it from a goroutine per transition. *)
Definition observer_OnTransition (h : ObservabilityHooks)
    (tr : StateTransition ConflictResolutionState) : list StatefulCall :=
  if OnStateTransition h then [StateTransitioned (From tr) (To tr) (TMetadata tr)] else [].
Definition observer_OnTransitionFailed (h : ObservabilityHooks) (from to : ConflictResolutionState)
    (err : error) : list StatefulCall :=
  if OnStateTransitionFailed h then [StateTransitionFailed from to err] else [].
(** Its identity among the machine's observers. *)
Definition own_observer : nat := 0.

Definition with_sdr_machine (sm : option ConflictResolutionStateMachine)
    (r : StatefulDynamicResolver) : StatefulDynamicResolver :=
  mkStateful (base r) sm (sdr_workflows r) (sdr_options r) (sdr_metrics r) (stateObservers r)
    (enabled r).
Definition with_workflows (m : option WorkflowManager) (r : StatefulDynamicResolver) :=
  mkStateful (base r) (sdr_machine r) m (sdr_options r) (sdr_metrics r) (stateObservers r)
    (enabled r).
Definition with_metrics (p : option ResolverPerformanceMetrics) (r : StatefulDynamicResolver) :=
  mkStateful (base r) (sdr_machine r) (sdr_workflows r) (sdr_options r) p (stateObservers r)
    (enabled r).

Definition SubscribeToStateChanges (o : nat) (r : StatefulDynamicResolver) :=
  mkStateful (base r) (DcrState.Subscribe (Some o) <$> sdr_machine r) (sdr_workflows r)
    (sdr_options r) (sdr_metrics r) (stateObservers r ++ [o]) (enabled r).

(** [t0], [t1] and [t2] are the clock readings of the machine and the metrics. *)
Definition NewStatefulDynamicResolver (t0 t1 t2 : Z) (baseResolver : option resolverOptions)
    (opts : option StatefulResolverOptions) : result error StatefulDynamicResolver :=
  match baseResolver with
  | None => Err (ErrMsg "base resolver cannot be nil")
  | Some b =>
      let o := default DefaultStatefulResolverOptions opts in
      let sm :=
        if EnableStateMachine o
        then (NewConflictResolutionStateMachine t0
                (Some (mkConfig DCRIdle None None false (MaxStateHistorySize o) true
                         "StatefulDynamicResolver"))).1
        else None in
      let r := mkStateful b sm (if EnableWorkflowTracking o then Some NewWorkflowManager else None) o
                 (if EnablePerformanceMetrics o then Some (new_metrics t1 t2) else None) [] true in
      Ok (match ObsHooks o, sm with
          | Some _, Some _ => SubscribeToStateChanges own_observer r
          | _, _ => r
          end)
  end.
Definition NewStatefulDynamicResolverFromOptions (t0 t1 t2 : Z) (dynamicOpts : list Option_)
    (opts : option StatefulResolverOptions) : result error StatefulDynamicResolver :=
  match NewDynamicResolver dynamicOpts with
  | Err e => Err e
  | Ok b => NewStatefulDynamicResolver t0 t1 t2 (Some b) opts
  end.

Definition GetCurrentState (r : StatefulDynamicResolver) : ConflictResolutionState :=
  match sdr_machine r with None => DCRIdle | Some d => DcrState.Current d end.
Definition GetStateHistory (r : StatefulDynamicResolver) :=
  match sdr_machine r with None => [] | Some d => DcrState.History d end.
Definition GetWorkflowManager (r : StatefulDynamicResolver) := sdr_workflows r.
Definition Configure (opts : option StatefulResolverOptions) (r : StatefulDynamicResolver)
    : StatefulDynamicResolver * option error :=
  match opts with
  | None => (r, Some (ErrMsg "options cannot be nil"))
  | Some o => (mkStateful (base r) (sdr_machine r) (sdr_workflows r) o (sdr_metrics r)
                 (stateObservers r) (enabled r), None)
  end.
Definition IsStateMachineEnabled (r : StatefulDynamicResolver) : bool :=
  bool_decide (is_Some (sdr_machine r)) && EnableStateMachine (sdr_options r).
Section getters.
Context {MR : MapRange}.
Definition GetActiveWorkflows (now : nat → Z) (r : StatefulDynamicResolver) : list WorkflowStatus :=
  match sdr_workflows r with
  | None => []
  | Some m => ListActiveWorkflows now (sdr_machine r) m
  end.
Definition GetWorkflowByID (id : string) (r : StatefulDynamicResolver) : option nat :=
  sdr_workflows r ≫= GetWorkflow id.
Definition GetAuditTrail (id : string) (r : StatefulDynamicResolver)
    : result error (option ConflictAuditTrail) :=
  match sdr_workflows r with
  | None => Err (ErrMsg "workflow tracking is not enabled")
  | Some m =>
      match GetWorkflow id m with
      | Some p => Ok (GenerateAuditTrail <$> heap m !! p)
      | None => Err (ErrMsg ("audit trail not found for conflict ID: " +:+ id))
      end
  end.
Definition GetPerformanceMetrics (r : StatefulDynamicResolver) : option ResolverPerformanceMetrics :=
  (λ p, match sdr_workflows r with
        | None => p
        | Some m =>
            mkMetrics (TotalConflictsResolved p) (TotalResolutionTime p) (AverageResolutionTime p)
              (FastestResolutionTime p) (SlowestResolutionTime p) (AutoResolvedCount p)
              (ManualReviewCount p) (EscalatedCount p) (FailedCount p) (RuleEvaluationCount p)
              (RuleMatchCount p)
              (length (ListActiveWorkflows (λ _, 0) (sdr_machine r) m))
              (LastResetTime p) (MetricsCollectionStart p)
        end) <$> sdr_metrics r.
End getters.

(** ** Resolving *)
Record World := mkWorld {
  resolver : StatefulDynamicResolver; tracker : option PerformanceTracker; ticks : nat;
  calls : list StatefulCall
}.
Record Env := mkEnv { clock : nat → Z; tid : nat → string }.

Section monad.
Definition M (A : Type) : Type := Env → World → World * outcome A.
Definition mret {A} (a : A) : M A := λ _ w, (w, Done a).
Definition mbind {A B} (m : M A) (f : A → M B) : M B := λ env w,
  match m env w with
  | (w', Done a) => f a env w'
  | (w', Panic why) => (w', Panic why)
  end.
Definition lift {A} (o : outcome A) : M A := λ _ w, (w, o).
Definition tick (w : World) : World := mkWorld (resolver w) (tracker w) (S (ticks w)) (calls w).
Definition put (r : StatefulDynamicResolver) (w : World) : World :=
  mkWorld r (tracker w) (ticks w) (calls w).
Definition now : M Z := λ env w, (tick w, Done (clock env (ticks w))).
Definition get : M StatefulDynamicResolver := λ _ w, (w, Done (resolver w)).
Definition call (h : StatefulCall) : M () := λ _ w,
  (mkWorld (resolver w) (tracker w) (ticks w) (calls w ++ [h]), Done ()).
Definition call_if (on : bool) (h : StatefulCall) : M () := if on then call h else mret ().
(** A base hook of the wrapped resolver. *)
Definition base_hook (on : bool) (h : HookCall) : M () := call_if on (BaseHook h).
Definition set_tracker (t : option PerformanceTracker) : M () := λ _ w,
  (mkWorld (resolver w) t (ticks w) (calls w), Done ()).
End monad.

Notation "'let!' x := m 'in' k" := (mbind m (λ x, k))
  (at level 10, x pattern, m at level 100, k at level 200) : go_scope.
Notation "m ;; k" := (mbind m (λ _, k)) (at level 100, right associativity) : go_scope.

Section operations.
Context {MR : MapRange} {NT : NanoText}.

(** A method of the machine, skipped without one. *)
Definition on_machine
    (f : Z → string → ConflictResolutionStateMachine →
         ConflictResolutionStateMachine * option error) : M (option error) := λ env w,
  match sdr_machine (resolver w) with
  | None => (w, Done None)
  | Some d =>
      let '(d', err) := f (clock env (ticks w)) (tid env (ticks w)) d in
      (put (with_sdr_machine (Some d') (resolver w)) (tick w), Done err)
  end.
Definition record_machine (f : ConflictResolutionStateMachine → ConflictResolutionStateMachine)
    : M () := λ _ w, (put (with_sdr_machine (f <$> sdr_machine (resolver w)) (resolver w)) w, Done ()).

(** A method of the workflow, skipped without one. *)
Definition on_workflow (wf : option nat) (f : ConflictWorkflow → ConflictWorkflow) : M () := λ _ w,
  match wf with
  | None => (w, Done ())
  | Some p => (put (with_workflows (update_workflow p f <$> sdr_workflows (resolver w)) (resolver w)) w,
               Done ())
  end.
Definition read_workflow (wf : option nat) : M (option ConflictWorkflow) := λ _ w,
  (w, Done (p ← wf; m ← sdr_workflows (resolver w); heap m !! p)).
(** [workflow.GetCurrentStatus().ConflictID], empty without a workflow. *)
Definition status_id (wf : option nat) : M string :=
  match wf with
  | None => mret ""
  | Some _ =>
      let! t := now in
      let! x := read_workflow wf in
      let! r := get in
      mret (match x with
            | Some x => StatusID (GetCurrentStatus t (sdr_machine r) x)
            | None => ""
            end)
  end.

Definition checkpoint (name : string) : M () := λ env w,
  match tracker w with
  | None => (w, Done ())
  | Some pt => set_tracker (Some (Checkpoint (clock env (ticks w)) name pt).1) env (tick w)
  end.
Definition increment (name : string) : M () := λ env w,
  set_tracker (Increment name <$> tracker w) env w.

Definition obs (f : ObservabilityHooks → bool) (r : StatefulDynamicResolver) : bool :=
  match ObsHooks (sdr_options r) with Some h => f h | None => false end.

Definition generateConflictID (c : Conflict) : M string :=
  let! t := now in
  mret (c_EventType c +:+ ":" +:+ c_AggregateID c +:+ ":" +:+ rfc3339nano t).

Definition start_tracker : M () :=
  let! r := get in
  if EnablePerformanceMetrics (sdr_options r)
  then let! t := now in set_tracker (Some (NewPerformanceTracker t)) ;; checkpoint "resolve_started"
  else set_tracker None.

Definition start_workflow (c : Conflict) : M (option nat) :=
  let! r := get in
  match sdr_workflows r with
  | Some m =>
      if EnableWorkflowTracking (sdr_options r) then
        let! t := now in
        let! start := now in
        let '(m, p) := StartWorkflow t start c (WorkflowOpts (sdr_options r)) m in
        (λ _ w, (put (with_workflows (Some m) (resolver w)) w, Done ())) ;;
        (if obs OnWorkflowStarted r
         then let! id := status_id (Some p) in call (WorkflowStarted id c) else mret ()) ;;
        mret (Some p)
      else mret None
  | None => mret None
  end.

(** [workflow.StartAnalysis()]. *)
Definition start_analysis (wf : option nat) : M () :=
  let! x := read_workflow wf in
  match x with
  | None => mret ()
  | Some x =>
      let! t := now in
      let! x := lift (StartAnalysis t x) in
      on_workflow wf (λ _, x)
  end.
Definition start_machine (c : Conflict) (wf : option nat) : M (option error) :=
  let! r := get in
  match sdr_machine r with
  | None => mret None
  | Some _ =>
      let! id := generateConflictID c in
      let! err := on_machine (λ t i, StartResolution t i id) in
      match err with
      | Some e => mret (Some e)
      | None => start_analysis wf ;; checkpoint "analysis_started" ;; mret None
      end
  end.

(** [workflow.RecordRuleEvaluation]. *)
Definition record_evaluation (wf : option nat) (rule : string) (matched : bool) (duration : Z)
    (err : option error) : M () :=
  match wf with
  | None => mret ()
  | Some _ =>
      let! t := now in
      let! t' := if err then now else mret t in
      on_workflow wf (Workflow.RecordRuleEvaluation t t' rule matched duration err None)
  end.

(** A rule that matched: its resolver and what is recorded of it. *)
Definition run_rule (ctx : CtxView) (c : Conflict) (wf : option nat) (r : Rule) (ruleDuration : Z)
    : M (ResolvedConflict * option error) :=
  let! s := get in
  let h := hooks (base s) in
  record_machine (RecordRuleMatched (rule_Name r)) ;;
  base_hook (OnRuleMatched h) (RuleMatched c (rule_Name r)) ;;
  let! resolver := lift (deref (rule_Resolver r)) in
  let! (res, err) := lift (resolver ctx c) in
  match err with
  | Some e =>
      record_machine (RecordRuleFailed (rule_Name r)) ;;
      record_evaluation wf (rule_Name r) true ruleDuration (Some e) ;;
      (if obs OnRuleEvaluationFailed s
       then let! id := status_id wf in call (RuleEvaluationFailed id (rule_Name r) e) else mret ()) ;;
      base_hook (OnError h) (Errored c e) ;;
      mret (no_resolution, Some e)
  | None =>
      base_hook (OnResolved h) (Resolved c res) ;;
      checkpoint "resolution_completed" ;;
      increment "rules_matched" ;;
      mret (res, None)
  end.

Fixpoint evaluate_rules (ctx : CtxView) (c : Conflict) (wf : option nat) (rs : list Rule)
    : M (option (ResolvedConflict * option error)) :=
  match rs with
  | [] => mret None
  | r :: rest =>
      let! s := get in
      let! ruleStart := now in
      (if obs OnRuleEvaluationStarted s
       then let! id := status_id wf in call (RuleEvaluationStarted id (rule_Name r)) else mret ()) ;;
      record_machine (DcrState.RecordRuleEvaluation (rule_Name r)) ;;
      let! matched := lift (Resolvers.call (Matcher r) false c) in
      let! t := now in
      let ruleDuration := time_sub t ruleStart in
      record_evaluation wf (rule_Name r) matched ruleDuration None ;;
      (if obs OnRuleEvaluationCompleted s
       then let! id := status_id wf in
            call (RuleEvaluationCompleted id (rule_Name r) matched ruleDuration)
       else mret ()) ;;
      if matched : bool then
        let! res := run_rule ctx c wf r ruleDuration in mret (Some res)
      else increment "rules_evaluated" ;; evaluate_rules ctx c wf rest
  end.

Definition run_fallback (ctx : CtxView) (c : Conflict) : M (ResolvedConflict * option error) :=
  let! s := get in
  let h := hooks (base s) in
  match fallback (base s) with
  | None => base_hook (OnError h) (Errored c err_no_rule) ;; mret (no_resolution, Some err_no_rule)
  | Some f =>
      base_hook (OnFallback h) (Fallback c) ;;
      let! (res, err) := lift (f ctx c) in
      match err with
      | Some e => base_hook (OnError h) (Errored c e) ;; mret (no_resolution, Some e)
      | None =>
          base_hook (OnResolved h) (Resolved c res) ;;
          checkpoint "fallback_completed" ;;
          increment "fallback_used" ;;
          mret (res, None)
      end
  end.

Definition resolveWithTracking (ctx : CtxView) (c : Conflict) (wf : option nat)
    : M (ResolvedConflict * option error) :=
  let! err := on_machine BeginRuleApplication in
  match err with
  | Some e => mret (no_resolution, Some e)
  | None =>
      checkpoint "rules_started" ;;
      let! s := get in
      let! hit := evaluate_rules ctx c wf (rules (base s)) in
      match hit with
      | Some res => mret res
      | None => run_fallback ctx c
      end
  end.

(** The last transition of a resolution, by its outcome; its error is dropped. *)
Definition finish_machine (r : ResolvedConflict * option error) : M () :=
  let! _ := on_machine
    (match r with
     | (_, Some _) => FailResolution
     | (res, None) =>
         if bool_decide (Decision_ res = "manual_review") then RequireManualReview
         else if bool_decide (Decision_ res = "escalated") then EscalateConflict
         else DcrState.CompleteResolution
     end) in
  mret ().

Definition finish_workflow (wf : option nat) (r : ResolvedConflict * option error) : M () :=
  match wf with
  | None => mret ()
  | Some _ =>
      (match r with
       | (res, None) =>
           let! t := now in
           let! t' := now in
           on_workflow wf (Workflow.CompleteResolution t t' (Decision_ res) (Reasons res)
                             (ResolvedEvents res))
       | (_, Some _) => mret ()
       end) ;;
      let! id := status_id wf in
      let! s := get in
      match sdr_workflows s with
      | None => mret ()
      | Some m =>
          let '(m, trail) := CompleteWorkflow id m in
          (λ _ w, (put (with_workflows (Some m) (resolver w)) w, Done ())) ;;
          match trail with
          | Some a => call_if (obs OnWorkflowCompleted s) (WorkflowCompleted (ConflictID a) a)
          | None => mret ()
          end
      end
  end.

Definition updatePerformanceMetrics (total : Z) (pt : PerformanceTracker)
    (r : ResolvedConflict * option error) (p : ResolverPerformanceMetrics)
    : ResolverPerformanceMetrics :=
  let count := i64 (TotalConflictsResolved p + 1) in
  let time := i64 (TotalResolutionTime p + total) in
  let failed := match r with (_, Some _) => true | _ => false end in
  let manual := negb failed && bool_decide (Decision_ r.1 = "manual_review") in
  let escalated := negb failed && bool_decide (Decision_ r.1 = "escalated") in
  let auto := negb failed && negb manual && negb escalated in
  let inc (b : bool) n := if b then i64 (n + 1) else n in
  mkMetrics count time
    (if 0 <? count then Z.quot time count else AverageResolutionTime p)
    (if (FastestResolutionTime p =? 0) || (total <? FastestResolutionTime p) then total
     else FastestResolutionTime p)
    (if SlowestResolutionTime p <? total then total else SlowestResolutionTime p)
    (inc auto (AutoResolvedCount p)) (inc manual (ManualReviewCount p))
    (inc escalated (EscalatedCount p)) (inc failed (FailedCount p))
    (i64 (RuleEvaluationCount p + GetCounter "rules_evaluated" pt))
    (i64 (RuleMatchCount p + GetCounter "rules_matched" pt))
    (CurrentActiveWorkflows p) (LastResetTime p) (MetricsCollectionStart p).
Definition record_metrics (r : ResolvedConflict * option error) : M () := λ env w,
  match tracker w, sdr_metrics (resolver w) with
  | Some pt, Some p =>
      let p' := updatePerformanceMetrics (GetTotalDuration (clock env (ticks w)) pt) pt r p in
      call_if (obs OnMetricsRecorded (resolver w)) (MetricsRecorded p') env
        (put (with_metrics (Some p') (resolver w)) (tick w))
  | _, _ => (w, Done ())
  end.

(** The deferred [Reset] is registered only once the outcome is known: a panic
    before that point leaves the machine where it stands. *)
Definition Resolve (ctx : CtxView) (c : Conflict) : M (ResolvedConflict * option error) :=
  start_tracker ;;
  let! wf := start_workflow c in
  let! refused := start_machine c wf in
  match refused with
  | Some e => mret (no_resolution, Some e)
  | None =>
      let! r := resolveWithTracking ctx c wf in
      finish_machine r ;;
      finish_workflow wf r ;;
      record_metrics r ;;
      let! _ := on_machine DcrState.Reset in
      mret r
  end.
End operations.

(** ** What a call does to the resolver *)

(** The hooks of the wrapped resolver among the calls. *)
Definition base_log (l : list StatefulCall) : list HookCall :=
  omap (λ c, match c with BaseHook h => Some h | _ => None end) l.

Lemma base_log_app l l' : base_log (l ++ l') = base_log l ++ base_log l'.
Proof. apply omap_app. Qed.

(** The machine is absent, or well-behaved and in the given state. *)
Definition machine_at (st : option ConflictResolutionState)
    (sm : option ConflictResolutionStateMachine) : Prop :=
  match sm, st with
  | None, None => True
  | Some d, Some s => dcr_inv d ∧ DcrState.Current d = s
  | _, _ => False
  end.
(** The cell of the workflow of this call holds a workflow of identifier [id]
    for the conflict [c]. *)
Definition owns (c : Conflict) (wf : option nat) (id : string) (m : option WorkflowManager) : Prop :=
  match wf with
  | None => True
  | Some p => ∃ m' x, m = Some m' ∧ heap m' !! p = Some x ∧ conflictID x = id ∧ conflict x = c
  end.

Section wp.
Context {MR : MapRange} {NT : NanoText}.

Definition wp {A} (m : M A) (Q : World → outcome A → Prop) (env : Env) (w : World) : Prop :=
  Q (m env w).1 (m env w).2.
Arguments wp : simpl never.

Lemma sr_wp_bind {A B} (m : M A) (f : A → M B) Q env w :
  wp m (λ w' o, match o with Done a => wp (f a) Q env w' | Panic why => Q w' (Panic why) end) env w →
  wp (mbind m f) Q env w.
Proof. unfold wp, mbind. destruct (m env w) as [w' [a|why]]; done. Qed.
Lemma sr_wp_mono {A} (m : M A) (P Q : World → outcome A → Prop) env w :
  wp m P env w → (∀ w' o, P w' o → Q w' o) → wp m Q env w.
Proof. unfold wp. auto. Qed.
Lemma sr_wp_ret {A} (a : A) (Q : World → outcome A → Prop) env w :
  Q w (Done a) → wp (mret a) Q env w.
Proof. done. Qed.
Lemma sr_wp_lift {A} (o : outcome A) (Q : World → outcome A → Prop) env w :
  Q w o → wp (lift o) Q env w.
Proof. done. Qed.

Context (B : resolverOptions) (O : StatefulResolverOptions) (c0 : Conflict).
Implicit Types (W : option (gmap string nat)) (wf : option nat) (id : string).
Implicit Types (st : option ConflictResolutionState) (L : list HookCall).

Record at_ W wf id st L (w : World) : Prop := {
  at_base : base (resolver w) = B;
  at_options : sdr_options (resolver w) = O;
  at_machine : machine_at st (sdr_machine (resolver w));
  at_workflows : workflows <$> sdr_workflows (resolver w) = W;
  at_owns : owns c0 wf id (sdr_workflows (resolver w));
  at_log : base_log (calls w) = L
}.

(** Operations that return and that the outside cannot see. *)
Definition quiet {A} (m : M A) : Prop := ∀ W wf id st L env w,
  at_ W wf id st L w → ∃ w' a, m env w = (w', Done a) ∧ at_ W wf id st L w'.
(** The same for operations on the call's own workflow. *)
Definition quiet_on {A} wf (m : M A) : Prop := ∀ W id st L env w,
  at_ W wf id st L w → ∃ w' a, m env w = (w', Done a) ∧ at_ W wf id st L w'.

Lemma quiet_quiet_on {A} wf (m : M A) : quiet m → quiet_on wf m.
Proof. intros H W id. apply H. Qed.
Lemma quiet_bind {A C} wf (m : M A) (f : A → M C) :
  quiet_on wf m → (∀ a, quiet_on wf (f a)) → quiet_on wf (mbind m f).
Proof.
  intros Hm Hf W id st L env w Hat. destruct (Hm W id st L env w Hat) as (w1 & a & Hrun & H1).
  unfold mbind. rewrite Hrun. by apply Hf.
Qed.
Lemma wp_quiet {A} wf (m : M A) W id st L (Q : World → outcome A → Prop) env w :
  quiet_on wf m → at_ W wf id st L w → (∀ w' a, at_ W wf id st L w' → Q w' (Done a)) →
  wp m Q env w.
Proof.
  intros Hm Hat HQ. destruct (Hm W id st L env w Hat) as (w' & a & Hrun & H').
  unfold wp. rewrite Hrun. by apply HQ.
Qed.
Lemma wp_quiet_then {A C} wf (m : M A) (f : A → M C) W id st L Q env w :
  quiet_on wf m → at_ W wf id st L w → (∀ w' a, at_ W wf id st L w' → wp (f a) Q env w') →
  wp (mbind m f) Q env w.
Proof. intros Hm Hat HQ. apply sr_wp_bind. by eapply wp_quiet. Qed.

Lemma at_same_resolver W wf id st L w w' :
  resolver w' = resolver w → calls w' = calls w → at_ W wf id st L w → at_ W wf id st L w'.
Proof. intros Hr Hc []. split; rewrite ?Hr, ?Hc; done. Qed.
Lemma at_put W wf id st L r w :
  at_ W wf id st L w → base r = base (resolver w) → sdr_options r = sdr_options (resolver w) →
  machine_at st (sdr_machine r) → workflows <$> sdr_workflows r = W →
  owns c0 wf id (sdr_workflows r) → at_ W wf id st L (put r w).
Proof. intros [] ? ? ? ? ?. split; cbn; first [done|congruence]. Qed.

Lemma quiet_ret {A} (a : A) : quiet (mret a).
Proof. intros W wf id st L env w Hat. by eexists _, _. Qed.
Lemma quiet_now : quiet now.
Proof.
  intros W wf id st L env w Hat. eexists _, _. split; [reflexivity|].
  by apply (at_same_resolver _ _ _ _ _ w).
Qed.
Lemma quiet_get : quiet get.
Proof. intros W wf id st L env w Hat. by eexists _, _. Qed.
Lemma quiet_set_tracker t : quiet (set_tracker t).
Proof.
  intros W wf id st L env w Hat. eexists _, _. split; [reflexivity|].
  by apply (at_same_resolver _ _ _ _ _ w).
Qed.
(** Calls of the wrapper's own hooks. *)
Definition own_call (h : StatefulCall) : Prop := base_log [h] = [].
Lemma quiet_call h : own_call h → quiet (call h).
Proof.
  intros Hh W wf id st L env w []. eexists _, _. split; [reflexivity|]. split; try done.
  cbn [calls]. rewrite base_log_app, Hh. by rewrite app_nil_r.
Qed.
Lemma quiet_call_if b h : own_call h → quiet (call_if b h).
Proof. intros Hh. destruct b; [by apply quiet_call|apply quiet_ret]. Qed.
Lemma quiet_checkpoint name : quiet (checkpoint name).
Proof.
  intros W wf id st L env w Hat. unfold checkpoint. destruct (tracker w); [|by eexists _, _].
  apply quiet_set_tracker. by apply (at_same_resolver _ _ _ _ _ w).
Qed.
Lemma quiet_increment name : quiet (increment name).
Proof. intros W wf id st L env w Hat. unfold increment. by apply quiet_set_tracker. Qed.

Lemma quiet_record_machine f :
  (∀ d, dcr_inv d → dcr_inv (f d) ∧ DcrState.Current (f d) = DcrState.Current d) →
  quiet (record_machine f).
Proof.
  intros Hf W wf id st L env w Hat. eexists _, _. split; [reflexivity|].
  pose proof Hat as []. apply at_put; try done. cbn.
  destruct (sdr_machine (resolver w)) as [d|], st as [s|]; cbn in *; try done.
  destruct (Hf d) as [Hi Hc]; [tauto|]. rewrite Hc. tauto.
Qed.
Lemma quiet_on_workflow wf f :
  (∀ x, conflictID (f x) = conflictID x ∧ conflict (f x) = conflict x) → quiet_on wf (on_workflow wf f).
Proof.
  intros Hf W id st L env w Hat. unfold on_workflow. destruct wf as [p|]; [|by eexists _, _].
  eexists _, _. split; [reflexivity|]. pose proof Hat as [? ? ? Hw (m & x & Hm & Hx & Hid & Hc) ?].
  apply at_put; try done; cbn; rewrite Hm in *; cbn in *; [done|].
  eexists _, (f x). split; [done|]. unfold update_workflow. cbn [heap].
  destruct (Hf x) as [-> ->]. by rewrite list_lookup_alter_eq, Hx.
Qed.
Lemma quiet_read_workflow wf' : quiet (read_workflow wf').
Proof. intros W wf id st L env w Hat. by eexists _, _. Qed.
Lemma quiet_status_id wf' : quiet (status_id wf').
Proof.
  intros W wf. revert W. unfold status_id. destruct wf'; [|intros ?; apply quiet_ret].
  change (quiet_on wf (let! t := now in let! x := read_workflow (Some n) in let! r := get in
    mret (match x with Some x => StatusID (GetCurrentStatus t (sdr_machine r) x) | None => "" end))).
  repeat (apply quiet_bind; [apply quiet_quiet_on|intros ?]);
    auto using quiet_now, quiet_get, quiet_read_workflow, quiet_quiet_on, quiet_ret.
Qed.
Lemma quiet_record_evaluation wf rule matched d err :
  quiet_on wf (record_evaluation wf rule matched d err).
Proof.
  unfold record_evaluation. destruct wf; [|apply quiet_quiet_on, quiet_ret].
  apply quiet_bind; [apply quiet_quiet_on, quiet_now|intros t].
  apply quiet_bind; [destruct err; apply quiet_quiet_on; [apply quiet_now|apply quiet_ret]|].
  intros t'. by apply quiet_on_workflow.
Qed.
Lemma quiet_own_hook wf b (f : string → StatefulCall) :
  (∀ i, own_call (f i)) →
  quiet_on wf (if b : bool then let! i := status_id wf in call (f i) else mret ()).
Proof.
  intros Hf. destruct b; [|apply quiet_quiet_on, quiet_ret].
  apply quiet_bind; [apply quiet_quiet_on, quiet_status_id|intros i].
  by apply quiet_quiet_on, quiet_call.
Qed.

(** A hook of the wrapped resolver. *)
Lemma wp_base_hook {A} b h (k : M A) W wf id st L (Q : World → outcome A → Prop) env w :
  at_ W wf id st L w → (∀ w', at_ W wf id st (L ++ hook b h) w' → wp k Q env w') →
  wp (base_hook b h ;; k) Q env w.
Proof.
  intros Hat HQ. apply sr_wp_bind. unfold base_hook, call_if, hook in *. destruct b.
  - unfold wp at 1. cbn. apply HQ. destruct Hat as [? ? ? ? ? <-]. split; try done.
    cbn [calls]. by rewrite base_log_app.
  - apply sr_wp_ret, HQ. by rewrite app_nil_r.
Qed.
Lemma wp_get {A} (f : StatefulDynamicResolver → M A) Q W wf id st L env w :
  at_ W wf id st L w →
  (∀ s, base s = B → sdr_options s = O → sdr_machine s = sdr_machine (resolver w) →
        sdr_workflows s = sdr_workflows (resolver w) → wp (f s) Q env w) →
  wp (mbind get f) Q env w.
Proof. intros [] HQ. apply sr_wp_bind. unfold wp at 1. cbn. by apply HQ. Qed.

(** A transition of the machine, when the table allows it. *)
Lemma wp_goto {A} to (k : option error → M A) W wf id s L (Q : World → outcome A → Prop) env w :
  at_ W wf id (Some s) L w → dcr_edge s to → to ≠ DCRIdle → to ≠ DCRAnalyzing →
  (∀ w', at_ W wf id (Some to) L w' → wp (k None) Q env w') →
  wp (let! e := on_machine (λ t i, goto t i to) in k e) Q env w.
Proof.
  intros [Hb Ho Hm Hw Hown Hl] Hedge Hn1 Hn2 HQ. apply sr_wp_bind. unfold wp at 1, on_machine.
  destruct (sdr_machine (resolver w)) as [d|]; [|done]. destruct Hm as [Hinv Hcur].
  pose proof (goto_inv (clock env (ticks w)) (tid env (ticks w)) to d Hn1 Hn2 Hinv) as Hinv'.
  unfold goto in *.
  destruct (dcr_transition (clock env (ticks w)) (tid env (ticks w)) to d Hinv)
    as (sm & err & Htr & _ & _ & _ & Hcase). rewrite Htr in *. cbn.
  destruct Hcase as [(-> & _ & Hst)|(_ & Hno & _)]; [|by rewrite Hcur in Hno].
  by apply HQ.
Qed.
Lemma wp_no_machine {A} f (k : option error → M A) W wf id L (Q : World → outcome A → Prop) env w :
  at_ W wf id None L w → wp (k None) Q env w → wp (let! e := on_machine f in k e) Q env w.
Proof.
  intros [? ? Hm ? ? ?] HQ. apply sr_wp_bind. unfold wp at 1, on_machine.
  by destruct (sdr_machine (resolver w)).
Qed.

(** *** The rules *)
Definition go_on st (to : ConflictResolutionState) : option ConflictResolutionState :=
  (λ _, to) <$> st.

Lemma record_rule_quiet f :
  f = RecordRuleMatched ∨ f = RecordRuleFailed ∨ f = DcrState.RecordRuleEvaluation →
  ∀ r, quiet (record_machine (f r)).
Proof.
  intros Hf r. apply quiet_record_machine. intros d Hd.
  by destruct Hf as [->|[->| ->]]; split; try done; destruct Hd.
Qed.

(** What the wrapped resolver would say, with the hooks it would call. *)
Definition agrees {A C} W wf id st L (f : A → C) (o : outcome (A * list HookCall))
    (w : World) (o' : outcome C) : Prop :=
  match o with
  | Done (a, log) => o' = Done (f a) ∧ at_ W wf id st (L ++ log) w
  | Panic why => o' = Panic why ∧ ∃ L', at_ W wf id st L' w
  end.

Lemma wp_run_rule ctx c r d W wf id st L env w :
  at_ W wf id st L w →
  wp (run_rule ctx c wf r d)
    (agrees W wf id st L (λ x, x)
       (let* resolver := deref (rule_Resolver r) in
        let* res := resolver ctx c in
        Done (finish B c (hook (OnRuleMatched (hooks B)) (RuleMatched c (rule_Name r))) res))) env w.
Proof.
  intros Hat. unfold run_rule. eapply wp_get; [exact Hat|]. intros s Hb Ho _ _. rewrite Hb.
  eapply wp_quiet_then; [apply quiet_quiet_on, (record_rule_quiet RecordRuleMatched); tauto|done|].
  intros w1 _ H1. eapply wp_base_hook; [exact H1|]. intros w2 H2.
  apply sr_wp_bind, sr_wp_lift. destruct (rule_Resolver r) as [f|]; cbn; [|by eauto].
  apply sr_wp_bind, sr_wp_lift. destruct (f ctx c) as [[res err]|why]; cbn; [|by eauto].
  destruct err as [e|]; cbn.
  - eapply wp_quiet_then; [apply quiet_quiet_on, (record_rule_quiet RecordRuleFailed); tauto|done|].
    intros w3 _ H3. eapply wp_quiet_then; [apply quiet_record_evaluation|done|]. intros w4 _ H4.
    eapply wp_quiet_then; [by apply quiet_own_hook|done|]. intros w5 _ H5.
    eapply wp_base_hook; [exact H5|]. intros w6 H6. apply sr_wp_ret. split; [done|].
    by rewrite <-app_assoc in H6.
  - eapply wp_base_hook; [exact H2|]. intros w3 H3.
    eapply wp_quiet_then; [apply quiet_quiet_on, quiet_checkpoint|done|]. intros w4 _ H4.
    eapply wp_quiet_then; [apply quiet_quiet_on, quiet_increment|done|]. intros w5 _ H5.
    apply sr_wp_ret. split; [done|]. by rewrite <-app_assoc in H5.
Qed.

(** The rules are tried as the wrapped resolver tries them. *)
Definition hits (o : outcome (option ((ResolvedConflict * option error) * list HookCall)))
    : outcome (option (ResolvedConflict * option error) * list HookCall) :=
  let* hit := o in
  Done (match hit with Some (r, log) => (Some r, log) | None => (None, []) end).

Lemma wp_evaluate_rules ctx c rs W wf id st L env w :
  at_ W wf id st L w →
  wp (evaluate_rules ctx c wf rs)
    (agrees W wf id st L (λ x, x) (hits (try_rules B ctx c rs))) env w.
Proof.
  revert w; induction rs as [|r rs IH]; intros w Hat; cbn [evaluate_rules try_rules].
  { apply sr_wp_ret. split; [done|]. by rewrite app_nil_r. }
  eapply wp_get; [exact Hat|]. intros s Hb Ho _ _.
  eapply wp_quiet_then; [apply quiet_quiet_on, quiet_now|done|]. intros w1 start H1.
  eapply wp_quiet_then; [by apply quiet_own_hook|done|]. intros w2 _ H2.
  eapply wp_quiet_then;
    [apply quiet_quiet_on, (record_rule_quiet DcrState.RecordRuleEvaluation); tauto|done|].
  intros w3 _ H3. apply sr_wp_bind, sr_wp_lift.
  destruct (Resolvers.call (Matcher r) false c) as [matched|why]; cbn [obind hits]; [|by split; eauto].
  eapply wp_quiet_then; [apply quiet_quiet_on, quiet_now|done|]. intros w4 t H4.
  eapply wp_quiet_then; [apply quiet_record_evaluation|done|]. intros w5 _ H5.
  eapply wp_quiet_then; [by apply quiet_own_hook|done|]. intros w6 _ H6.
  destruct matched.
  - apply sr_wp_bind. eapply sr_wp_mono; [by apply wp_run_rule|]. intros w' o.
    unfold agrees, hits. destruct (deref (rule_Resolver r)) as [f|]; cbn [obind]; [|by intros [-> ?]].
    destruct (f ctx c) as [res|]; cbn [obind]; [|by intros [-> ?]].
    destruct (finish B c _ res) as [res' log]. by intros [-> ?].
  - eapply wp_quiet_then; [apply quiet_quiet_on, quiet_increment|done|]. intros w7 _ H7. by apply IH.
Qed.

Lemma wp_run_fallback ctx c W wf id st L env w :
  at_ W wf id st L w →
  wp (run_fallback ctx c)
    (agrees W wf id st L (λ x, x)
      (match fallback B with
       | None => Done ((no_resolution, Some err_no_rule), hook (OnError (hooks B)) (Errored c err_no_rule))
       | Some f =>
           let* res := f ctx c in Done (finish B c (hook (OnFallback (hooks B)) (Fallback c)) res)
       end)) env w.
Proof.
  intros Hat. unfold run_fallback. eapply wp_get; [exact Hat|]. intros s Hb Ho _ _. rewrite Hb.
  destruct (fallback B) as [f|].
  - eapply wp_base_hook; [exact Hat|]. intros w1 H1. apply sr_wp_bind, sr_wp_lift.
    destruct (f ctx c) as [[res err]|why]; cbn; [|by eauto]. destruct err as [e|]; cbn.
    + eapply wp_base_hook; [exact H1|]. intros w2 H2. apply sr_wp_ret. split; [done|].
      by rewrite <-app_assoc in H2.
    + eapply wp_base_hook; [exact H1|]. intros w3 H3.
      eapply wp_quiet_then; [apply quiet_quiet_on, quiet_checkpoint|done|]. intros w4 _ H4.
      eapply wp_quiet_then; [apply quiet_quiet_on, quiet_increment|done|]. intros w5 _ H5.
      apply sr_wp_ret. split; [done|]. by rewrite <-app_assoc in H5.
  - eapply wp_base_hook; [exact Hat|]. intros w1 H1. by apply sr_wp_ret.
Qed.

Lemma wp_resolveWithTracking ctx c W wf id st L env w :
  at_ W wf id st L w → st = None ∨ st = Some DCRAnalyzing →
  wp (resolveWithTracking ctx c wf)
    (agrees W wf id (go_on st DCRApplyingRules) L (λ x, x) (Resolvers.Resolve B ctx c)) env w.
Proof.
  intros Hat Hst.
  assert (∀ w', at_ W wf id (go_on st DCRApplyingRules) L w' →
    wp (checkpoint "rules_started" ;; let! s := get in
        let! hit := evaluate_rules ctx c wf (rules (base s)) in
        match hit with Some res => mret res | None => run_fallback ctx c end)
      (agrees W wf id (go_on st DCRApplyingRules) L (λ x, x) (Resolvers.Resolve B ctx c)) env w')
    as Hrest.
  { intros w1 H1. eapply wp_quiet_then; [apply quiet_quiet_on, quiet_checkpoint|done|].
    intros w2 _ H2. eapply wp_get; [exact H2|]. intros s -> _ _ _.
    apply sr_wp_bind. eapply sr_wp_mono; [by apply wp_evaluate_rules|]. intros w3 o.
    unfold Resolvers.Resolve, hits, agrees at 1.
    destruct (try_rules B ctx c (rules B)) as [[[res log]|]|why]; cbn [obind].
    - intros [-> H3]. by apply sr_wp_ret.
    - rewrite app_nil_r. intros [-> H3]. by apply wp_run_fallback.
    - intros [-> H3]. done. }
  unfold resolveWithTracking, BeginRuleApplication. destruct Hst as [->| ->].
  - eapply wp_no_machine; [exact Hat|]. by apply Hrest.
  - eapply wp_goto; [exact Hat|by vm_compute|done|done|]. intros w1 H1. by apply Hrest.
Qed.

(** *** Start and end of a resolution *)
Definition comparable (c : Conflict) : Prop := ∀ l r,
  ev_version (c_Local c) = Some l → ev_version (c_Remote c) = Some r →
  ∃ z, version_Compare l (Some r) = Done z.

Lemma StartAnalysis_done t x : comparable (conflict x) → ∃ x', StartAnalysis t x = Done x'
  ∧ conflictID x' = conflictID x ∧ conflict x' = conflict x.
Proof.
  intros Hc. unfold comparable in Hc. unfold StartAnalysis, version_analysis.
  destruct (ev_version (c_Local (conflict x))) as [l|]; [|by eexists].
  destruct (ev_version (c_Remote (conflict x))) as [r|]; [|by eexists].
  destruct (Hc l r) as [z ->]; try done. cbn. by eexists.
Qed.

(** The workflow's cell is overwritten. *)
Lemma at_set_workflow W p id st L x' env w :
  at_ W (Some p) id st L w → conflictID x' = id → conflict x' = c0 →
  at_ W (Some p) id st L (on_workflow (Some p) (λ _, x') env w).1.
Proof.
  intros Hat Hid Hc. pose proof Hat as [? ? ? Hw (m & x & Hm & Hx & _) ?].
  cbn. apply at_put; try done; cbn; rewrite Hm in *; [done|].
  eexists _, x'. split; [done|]. unfold update_workflow. cbn [heap].
  by rewrite list_lookup_alter_eq, Hx.
Qed.

Lemma wp_start_tracker {A} (k : M A) W wf id st L (Q : World → outcome A → Prop) env w :
  at_ W wf id st L w → (∀ w', at_ W wf id st L w' → wp k Q env w') → wp (start_tracker ;; k) Q env w.
Proof.
  intros Hat HQ. eapply wp_quiet_then; [|exact Hat|intros; by apply HQ].
  unfold start_tracker. apply quiet_bind; [apply quiet_quiet_on, quiet_get|intros s].
  destruct (EnablePerformanceMetrics (sdr_options s)).
  - apply quiet_bind; [apply quiet_quiet_on, quiet_now|intros t].
    apply quiet_bind; [apply quiet_quiet_on, quiet_set_tracker|intros _].
    apply quiet_quiet_on, quiet_checkpoint.
  - apply quiet_quiet_on, quiet_set_tracker.
Qed.

(** The workflow of the call is added to the active ones. *)
Lemma wp_start_workflow {A} (k : option nat → M A) W st L (Q : World → outcome A → Prop) env w :
  at_ W None "" st L w →
  (∀ w' wf id, at_ ((λ m, match wf with Some p => <[id := p]> m | None => m end) <$> W) wf id st L w' →
     (is_Some wf ↔ is_Some W ∧ EnableWorkflowTracking O = true) → wp (k wf) Q env w') →
  wp (let! wf := start_workflow c0 in k wf) Q env w.
Proof.
  intros Hat HQ. apply sr_wp_bind. unfold start_workflow. eapply wp_get; [exact Hat|].
  intros s Hb Ho _ Hws. rewrite Ho.
  destruct (sdr_workflows s) as [m|] eqn:Hs.
  2: { apply sr_wp_ret. apply (HQ w None ""); [by rewrite option_fmap_id|].
       destruct Hat as [? ? ? Hw]. rewrite <-Hws in Hw. cbn in Hw. subst W. split; [by intros []|].
       by intros [[]]. }
  destruct (EnableWorkflowTracking O) eqn:Ht.
  2: { apply sr_wp_ret. apply (HQ w None ""); [by rewrite option_fmap_id|]. split; [by intros []|by intros []]. }
  eapply wp_quiet_then; [apply quiet_quiet_on, quiet_now|done|]. intros w1 t H1.
  eapply wp_quiet_then; [apply quiet_quiet_on, quiet_now|done|]. intros w2 start H2.
  destruct (StartWorkflow t start c0 (WorkflowOpts O) m) as [m' p] eqn:Hstart.
  unfold StartWorkflow in Hstart. injection Hstart as <- <-.
  set (x := NewConflictWorkflow t start c0 (WorkflowOpts O)).
  apply sr_wp_bind. unfold wp at 1. cbn [fst snd].
  set (w3 := put _ w2).
  assert (at_ (<[conflictID x := length (heap m)]> <$> W) (Some (length (heap m))) (conflictID x) st L w3) as H3.
  { destruct H2 as [? ? ? Hw2 ? ?]. destruct Hat as [? ? ? Hw ? ?]. split; try done; cbn.
    - rewrite <-Hw, <-Hws. done.
    - eexists _, x. split; [done|]. cbn [heap]. by rewrite lookup_app_r, Nat.sub_diag. }
  eapply wp_quiet_then; [|exact H3|].
  { unfold obs. rewrite Ho. by apply (quiet_own_hook (Some (length (heap m)))). }
  intros w4 _ H4. apply sr_wp_ret. apply (HQ w4 (Some (length (heap m))) (conflictID x)); [done|].
  split; [|by eexists]. destruct Hat as [? ? ? Hw]. rewrite <-Hws in Hw. rewrite <-Hw. by eexists.
Qed.

(** The machine's own operations, from a state the table allows them in. *)
Lemma wp_start_machine {A} (k : option error → M A) wf W id st L (Q : World → outcome A → Prop) env w :
  at_ W wf id st L w → (st = None ∨ st = Some DCRIdle) → comparable c0 →
  (∀ w', at_ W wf id (go_on st DCRAnalyzing) L w' → wp (k None) Q env w') →
  wp (let! e := start_machine c0 wf in k e) Q env w.
Proof.
  intros Hat Hst Hcmp HQ. apply sr_wp_bind. unfold start_machine. eapply wp_get; [exact Hat|].
  intros s _ _ Hsm _. rewrite Hsm. pose proof Hat as [_ _ Hm _ _ _].
  destruct (sdr_machine (resolver w)) as [d0|] eqn:Hd0.
  2: { destruct Hst as [->| ->]; [|done]. apply sr_wp_ret. by apply HQ. }
  destruct Hst as [->| ->]; [done|]. clear Hm.
  eapply wp_quiet_then; [|exact Hat|].
  { apply quiet_bind; [apply quiet_quiet_on, quiet_now|intros t; apply quiet_quiet_on, quiet_ret]. }
  intros w1 i H1. apply sr_wp_bind. unfold wp at 1, on_machine.
  pose proof H1 as [Hb1 Ho1 Hm1 Hw1 Hown1 Hl1].
  destruct (sdr_machine (resolver w1)) as [d|] eqn:Hd; [|done]. destruct Hm1 as [Hinv Hcur].
  pose proof (dcr_step_inv d _ Hinv (dcr_start (clock env (ticks w1)) (tid env (ticks w1)) i d)) as Hinv'.
  unfold StartResolution in *.
  destruct (dcr_transition (clock env (ticks w1)) (tid env (ticks w1)) DCRAnalyzing d Hinv)
    as (sm & err & Htr & _ & _ & _ & Hcase). rewrite Htr in *. cbn in *.
  destruct Hcase as [(-> & _ & Hnew)|(_ & Hno & _)]; [|rewrite Hcur in Hno; by destruct Hno].
  set (w2 := put _ _). assert (at_ W wf id (Some DCRAnalyzing) L w2) as H2 by done.
  apply sr_wp_bind. unfold start_analysis. apply sr_wp_bind. unfold wp at 1, read_workflow. cbn [fst snd].
  assert (∀ w', at_ W wf id (Some DCRAnalyzing) L w' →
    wp (checkpoint "analysis_started" ;; mret (None : option error))
      (λ w' o, match o with Done a => wp (k a) Q env w' | Panic why => Q w' (Panic why) end) env w') as Hrest.
  { intros w' H'. eapply wp_quiet_then; [apply quiet_quiet_on, quiet_checkpoint|done|].
    intros w'' _ H''. apply sr_wp_ret. by apply HQ. }
  destruct wf as [p|]; [|apply sr_wp_ret; by apply Hrest].
  pose proof H2 as [_ _ _ _ (m & x & Hm2 & Hx & Hid & Hc) _]. cbn. cbn in Hm2. rewrite Hm2. cbn.
  rewrite Hx. eapply wp_quiet_then; [apply quiet_quiet_on, quiet_now|exact H2|]. intros w3 t H3.
  destruct (StartAnalysis_done t x) as (x' & Hx' & Hid' & Hc'); [by rewrite Hc|].
  apply sr_wp_bind, sr_wp_lift. rewrite Hx'. unfold wp at 1. apply Hrest, at_set_workflow; [exact H3| |];
    congruence.
Qed.

(** The state a resolution ends in. *)
Definition final_state (r : ResolvedConflict * option error) : ConflictResolutionState :=
  match r with
  | (_, Some _) => DCRFailed
  | (res, None) =>
      if bool_decide (Decision_ res = "manual_review") then DCRManualReview
      else if bool_decide (Decision_ res = "escalated") then DCREscalated
      else DCRResolved
  end.

Lemma wp_finish_machine {A} r (k : M A) W wf id st L (Q : World → outcome A → Prop) env w :
  at_ W wf id (go_on st DCRApplyingRules) L w →
  (∀ w', at_ W wf id (go_on st (final_state r)) L w' → wp k Q env w') →
  wp (finish_machine r ;; k) Q env w.
Proof.
  intros Hat HQ. apply sr_wp_bind. unfold finish_machine.
  assert (∀ w', at_ W wf id (go_on st (final_state r)) L w' →
    wp (mret ()) (λ w' o, match o with Done _ => wp k Q env w' | Panic why => Q w' (Panic why) end) env w')
    as Hend by (intros; apply sr_wp_ret; auto).
  destruct st as [s|]; cbn [go_on fmap option_fmap option_map] in *.
  - unfold final_state in *. destruct r as [res [e|]].
    { eapply wp_goto; [exact Hat|by vm_compute|done|done|exact Hend]. }
    do 2 (case_bool_decide; [eapply wp_goto; [exact Hat|by vm_compute|done|done|exact Hend]|]).
    eapply wp_goto; [exact Hat|by vm_compute|done|done|exact Hend].
  - eapply wp_no_machine; [exact Hat|]. by apply Hend.
Qed.

Lemma wp_reset {A} r (k : option error → M A) W wf id st L (Q : World → outcome A → Prop) env w :
  at_ W wf id (go_on st (final_state r)) L w →
  (∀ w', at_ W wf id (go_on st DCRIdle) L w' → wp (k None) Q env w') →
  wp (let! e := on_machine DcrState.Reset in k e) Q env w.
Proof.
  intros Hat HQ. destruct st as [s|]; [|eapply wp_no_machine; [exact Hat|by apply HQ]].
  apply sr_wp_bind. unfold wp at 1, on_machine. destruct Hat as [Hb Ho Hm Hw Hown Hl].
  destruct (sdr_machine (resolver w)) as [d|]; [|done]. destruct Hm as [Hinv Hcur].
  pose proof (dcr_step_inv d _ Hinv (dcr_reset (clock env (ticks w)) (tid env (ticks w)) d)) as Hinv'.
  unfold DcrState.Reset in *.
  destruct (dcr_transition (clock env (ticks w)) (tid env (ticks w)) DCRIdle d Hinv)
    as (sm & err & Htr & _ & _ & _ & Hcase). rewrite Htr in *. cbn in *.
  destruct Hcase as [(-> & _ & Hst)|(_ & Hno & _)].
  - cbn in *. by apply HQ.
  - rewrite Hcur in Hno. destruct Hno. unfold final_state.
    destruct r as [res [e|]]; repeat case_bool_decide; by vm_compute.
Qed.

Lemma quiet_record_metrics r : quiet (record_metrics r).
Proof.
  intros W wf id st L env w Hat. unfold record_metrics.
  destruct (tracker w) as [pt|]; [|by eexists _, _].
  destruct (sdr_metrics (resolver w)) as [p|] eqn:Hp; [|by eexists _, _].
  apply quiet_call_if; [done|]. destruct Hat. by split.
Qed.

Lemma wp_finish_workflow {A} r (k : M A) W wf id st L (Q : World → outcome A → Prop) env w :
  at_ W wf id st L w → (∀ p, wf = Some p → W ≫= (.!! id) = Some p) →
  (∀ w', at_ ((λ m, match wf with Some _ => delete id m | None => m end) <$> W) None "" st L w' →
     wp k Q env w') →
  wp (finish_workflow wf r ;; k) Q env w.
Proof.
  intros Hat Hlive HQ. apply sr_wp_bind. unfold finish_workflow. destruct wf as [p|].
  2: { apply sr_wp_ret, HQ. destruct Hat. split; try done. by rewrite option_fmap_id. }
  eapply wp_quiet_then; [|exact Hat|].
  { destruct r as [res [e|]]; [apply quiet_quiet_on, quiet_ret|].
    apply quiet_bind; [apply quiet_quiet_on, quiet_now|intros t].
    apply quiet_bind; [apply quiet_quiet_on, quiet_now|intros t']. by apply quiet_on_workflow. }
  intros w1 _ H1. apply sr_wp_bind. unfold status_id. eapply wp_quiet_then;
    [apply quiet_quiet_on, quiet_now|exact H1|]. intros w2 t H2.
  apply sr_wp_bind. unfold wp at 1, read_workflow. cbn [fst snd].
  eapply wp_get; [exact H2|]. intros s _ Ho _ Hws. apply sr_wp_ret.
  eapply wp_get; [exact H2|]. intros s' _ _ _ Hws'.
  destruct H2 as [Hb2 Ho2 Hm2 Hw2 (m & x & Hm & Hx & Hid & _) Hl2]. rewrite Hws', Hm. cbn.
  rewrite Hm in *. cbn in *. rewrite Hx. cbn. rewrite Hid. subst W. cbn in *.
  unfold CompleteWorkflow. rewrite (Hlive p) by done. rewrite Hx. cbn.
  apply sr_wp_bind. unfold wp at 1. cbn [fst snd].
  eapply wp_quiet; [apply (quiet_quiet_on None), quiet_call_if; done|by split|]. intros w' _ H'. by apply HQ.
Qed.

(** A whole resolution, when no other one is in progress. *)
Lemma wp_Resolve ctx W st L env w :
  at_ W None "" st L w → (st = None ∨ st = Some DCRIdle) → comparable c0 →
  wp (Resolve ctx c0)
    (λ w' o, match Resolvers.Resolve B ctx c0 with
             | Done (r, log) => o = Done r ∧ ∃ id,
                 at_ ((λ m, if EnableWorkflowTracking O then delete id m else m) <$> W) None "" st (L ++ log) w'
             | Panic why => o = Panic why ∧ ∃ W' wf id L', at_ W' wf id (go_on st DCRApplyingRules) L' w'
             end) env w.
Proof.
  intros Hat Hst Hcmp. unfold Resolve. eapply wp_start_tracker; [exact Hat|]. intros w1 H1.
  eapply wp_start_workflow; [exact H1|]. intros w2 wf id H2 Hwf.
  eapply wp_start_machine; [exact H2|done|done|]. intros w3 H3.
  apply sr_wp_bind. eapply sr_wp_mono.
  { apply wp_resolveWithTracking; [exact H3|]. by destruct Hst as [->| ->]; [left|right]. }
  intros w4 o. unfold agrees.
  destruct (Resolvers.Resolve B ctx c0) as [[r log]|why]; [|intros [-> [L' H4]]].
  2: { split; [done|]. eexists _, _, _, _. by destruct Hst as [->| ->]. }
  intros [-> H4]. assert (go_on (go_on st DCRAnalyzing) DCRApplyingRules = go_on st DCRApplyingRules) as Heq
    by (by destruct st). rewrite Heq in H4.
  eapply wp_finish_machine; [exact H4|]. intros w5 H5.
  eapply wp_finish_workflow; [exact H5| |].
  { intros p ->. destruct W as [m|]; cbn; [by rewrite lookup_insert_eq|].
    destruct H5 as [_ _ _ Hw5 (m & x & Hm & _) _]. by rewrite Hm in Hw5. }
  intros w6 H6. eapply wp_quiet_then; [apply quiet_quiet_on, quiet_record_metrics|exact H6|].
  intros w7 _ H7. eapply wp_reset; [exact H7|]. intros w8 H8. apply sr_wp_ret. split; [done|].
  exists id. assert (go_on st DCRIdle = st) as Hidle by (by destruct Hst as [->| ->]).
  rewrite Hidle in H8. destruct H8 as [? ? ? Hw8]. split; try done. rewrite Hw8.
  destruct W as [m|]; cbn; [|done]. f_equal. destruct wf as [p|].
  - destruct (proj1 Hwf) as [_ ->]; [by eexists|]. by rewrite delete_insert_eq.
  - destruct (EnableWorkflowTracking O); [|done].
    destruct (proj2 Hwf) as [? ?]; [|done]. split; [by eexists|done].
Qed.

(** A resolver whose machine is busy refuses at once. *)
Lemma wp_refused ctx W s L env w :
  at_ W None "" (Some s) L w → s ≠ DCRIdle →
  wp (Resolve ctx c0)
    (λ w' o, (∃ e, o = Done (no_resolution, Some e)) ∧ ∃ wf id,
       at_ ((λ m, match wf with Some p => <[id := p]> m | None => m end) <$> W) wf id (Some s) L w'
       ∧ (is_Some wf ↔ is_Some W ∧ EnableWorkflowTracking O = true)) env w.
Proof.
  intros Hat Hs. unfold Resolve. eapply wp_start_tracker; [exact Hat|]. intros w1 H1.
  eapply wp_start_workflow; [exact H1|]. intros w2 wf id H2 Hwf.
  apply sr_wp_bind. unfold start_machine. eapply wp_get; [exact H2|]. intros s' _ _ Hsm _.
  rewrite Hsm. pose proof H2 as [_ _ Hm2 _ _ _].
  destruct (sdr_machine (resolver w2)) as [d0|]; [|done]. clear Hm2.
  eapply wp_quiet_then; [|exact H2|].
  { apply quiet_bind; [apply quiet_quiet_on, quiet_now|intros t; apply quiet_quiet_on, quiet_ret]. }
  intros w3 i H3. apply sr_wp_bind. unfold wp at 1, on_machine.
  pose proof H3 as [Hb3 Ho3 Hm3 Hw3 Hown3 Hl3].
  destruct (sdr_machine (resolver w3)) as [d|] eqn:Hd; [|done]. destruct Hm3 as [Hinv Hcur].
  pose proof (dcr_step_inv d _ Hinv (dcr_start (clock env (ticks w3)) (tid env (ticks w3)) i d)) as Hinv'.
  unfold StartResolution in *.
  destruct (dcr_transition (clock env (ticks w3)) (tid env (ticks w3)) DCRAnalyzing d Hinv)
    as (sm & err & Htr & _ & _ & _ & Hcase). rewrite Htr in *. cbn in *.
  destruct Hcase as [(_ & Hedge & _)|(Hne & _ & Hst)].
  { rewrite Hcur in Hedge. by destruct s; vm_compute in Hedge. }
  destruct err as [e|]; [|done]. cbn in *. apply sr_wp_ret, sr_wp_ret. split; [by eexists|].
  exists wf, id. split; [|done]. split; try done. split; [done|]. cbn.
  rewrite <-Hcur. exact Hst.
Qed.
End wp.

(** ** Properties *)

(** No resolution is in progress. *)
Definition ready (r : StatefulDynamicResolver) : Prop :=
  ∀ d, sdr_machine r = Some d → dcr_inv d ∧ DcrState.Current d = DCRIdle.
Definition active (r : StatefulDynamicResolver) : option (gmap string nat) :=
  workflows <$> sdr_workflows r.

Lemma ready_at c w : ready (resolver w) →
  ∃ st, at_ (base (resolver w)) (sdr_options (resolver w)) c (active (resolver w)) None "" st
          (base_log (calls w)) w
        ∧ (st = None ∨ st = Some DCRIdle) ∧ (is_Some st ↔ is_Some (sdr_machine (resolver w))).
Proof.
  intros Hr. unfold ready in Hr. destruct (sdr_machine (resolver w)) as [d|] eqn:Hd.
  - exists (Some DCRIdle). split; [|split; [by right|done]]. split; try done. rewrite Hd. by apply Hr.
  - exists None. split; [|split; [by left|done]]. split; try done. by rewrite Hd.
Qed.
Lemma at_ready B O c W wf id st L w :
  at_ B O c W wf id st L w → st = None ∨ st = Some DCRIdle → ready (resolver w).
Proof.
  intros [_ _ Hm _ _ _] Hst d Hd. rewrite Hd in Hm. cbn in Hm.
  by destruct Hst as [->| ->].
Qed.

(** C19: with no resolution in progress, the stateful resolver answers a conflict
    exactly as the dynamic resolver it wraps, calls the wrapped resolver's hooks
    in the same order, and is ready for the next conflict with the same rules
    and no workflow of its own left active; where the wrapped resolver panics,
    so does the stateful one. *)
Theorem stateful_agrees_with_dynamic {MR : MapRange} {NT : NanoText} (ctx : CtxView) (c : Conflict)
    (env : Env) (w : World) (Hready : ready (resolver w)) (Hcmp : comparable c) :
  match Resolvers.Resolve (base (resolver w)) ctx c with
  | Done (res, log) => ∃ w', Resolve ctx c env w = (w', Done res)
      ∧ base_log (calls w') = base_log (calls w) ++ log
      ∧ ready (resolver w') ∧ base (resolver w') = base (resolver w)
      ∧ sdr_options (resolver w') = sdr_options (resolver w)
      ∧ ∃ id, active (resolver w') =
          (if EnableWorkflowTracking (sdr_options (resolver w)) then delete id <$> active (resolver w)
           else active (resolver w))
  | Panic why => (Resolve ctx c env w).2 = Panic why
  end.
Proof.
  destruct (ready_at c w Hready) as (st & Hat & Hst & _).
  pose proof (wp_Resolve _ _ c ctx _ _ _ env w Hat Hst Hcmp) as Hwp. unfold wp in Hwp.
  destruct (Resolvers.Resolve _ ctx c) as [[res log]|why]; [|apply Hwp].
  destruct (Resolve ctx c env w) as [w' o]. cbn in Hwp. destruct Hwp as [-> [id H']].
  exists w'. split; [done|]. pose proof (at_ready _ _ _ _ _ _ _ _ _ H' Hst) as Hr'.
  destruct H' as [Hb Ho _ Hw _ Hl]. split_and!; try done.
  exists id. unfold active at 1. rewrite Hw. destruct (EnableWorkflowTracking _); [done|].
  by rewrite option_fmap_id.
Qed.

(** Remark: a rule that panics leaves the machine applying rules, because the reset
    is deferred only once the outcome is known: from then on every conflict is
    refused without a look at the rules, and with workflow tracking each refusal
    leaves a workflow active for good. *)
Theorem panic_blocks_resolver {MR : MapRange} {NT : NanoText} (ctx : CtxView) (c : Conflict)
    (env : Env) (w : World) (why : string) (Hready : ready (resolver w)) (Hcmp : comparable c)
    (Hsm : is_Some (sdr_machine (resolver w)))
    (Hpanic : Resolvers.Resolve (base (resolver w)) ctx c = Panic why) :
  let w1 := (Resolve ctx c env w).1 in
  GetCurrentState (resolver w1) = DCRApplyingRules
  ∧ ∀ ctx' c' env', ∃ w2 e,
      Resolve ctx' c' env' w1 = (w2, Done (no_resolution, Some e))
      ∧ base_log (calls w2) = base_log (calls w1)
      ∧ GetCurrentState (resolver w2) = DCRApplyingRules
      ∧ (EnableWorkflowTracking (sdr_options (resolver w)) = true →
           ∃ id p, active (resolver w2) = <[id := p]> <$> active (resolver w1)).
Proof.
  destruct (ready_at c w Hready) as (st & Hat & Hst & Hsome).
  pose proof (wp_Resolve _ _ c ctx _ _ _ env w Hat Hst Hcmp) as Hwp. unfold wp in Hwp.
  rewrite Hpanic in Hwp. destruct Hwp as (_ & W1 & wf & id & L1 & H1).
  destruct Hst as [->| ->]; [by apply Hsome in Hsm as [? ?]|]. cbn zeta.
  set (w1 := (Resolve ctx c env w).1) in *.
  assert (∀ B O c W wf id L w', at_ B O c W wf id (Some DCRApplyingRules) L w' →
    GetCurrentState (resolver w') = DCRApplyingRules) as Hcur.
  { intros ? ? ? ? ? ? ? w' [_ _ Hm _ _ _]. unfold GetCurrentState.
    destruct (sdr_machine (resolver w')); [apply Hm|done]. }
  split; [by eapply Hcur|]. intros ctx' c' env'.
  assert (at_ (base (resolver w)) (sdr_options (resolver w)) c' (active (resolver w1)) None ""
    (Some DCRApplyingRules) (base_log (calls w1)) w1) as H1' by (by destruct H1).
  pose proof (wp_refused _ _ c' ctx' _ _ _ env' w1 H1' ltac:(done)) as Hwp. unfold wp in Hwp.
  destruct (Resolve ctx' c' env' w1) as [w2 o]. cbn in Hwp.
  destruct Hwp as ([e ->] & wf' & id' & H2 & Hwf). exists w2, e.
  split; [done|]. pose proof (Hcur _ _ _ _ _ _ _ _ H2) as Hcur2.
  destruct H2 as [_ _ _ Hw2 _ Hl2]. split_and!; try done. intros Htrack.
  unfold active at 1. rewrite Hw2. destruct wf' as [p|]; [by exists id', p|].
  destruct (active (resolver w1)) as [m|]; [|by exists "", 0%nat].
  destruct (proj2 Hwf) as [? ?]; [|done]. split; [by eexists|done].
Qed.

(** *** Construction *)
Lemma new_dcr_inv t size d :
  (NewConflictResolutionStateMachine t
     (Some (mkConfig DCRIdle None None false size true "StatefulDynamicResolver"))).1 = Some d →
  dcr_inv d ∧ DcrState.Current d = DCRIdle.
Proof.
  unfold NewConflictResolutionStateMachine, New. cbn.
  destruct (Z.leb_spec size 0); cbn; intros [= <-]; (split; [|done]); (split; try done);
    unfold well_formed, max_history; cbn; lia.
Qed.
Lemma sr_Subscribe_inv o d :
  dcr_inv d → dcr_inv (DcrState.Subscribe o d)
              ∧ DcrState.Current (DcrState.Subscribe o d) = DcrState.Current d.
Proof. intros Hd. split; [by eapply dcr_step_inv, dcr_subscribe|by destruct o]. Qed.
Lemma NewStatefulDynamicResolver_ready t0 t1 t2 b o r :
  NewStatefulDynamicResolver t0 t1 t2 b o = Ok r → ready r.
Proof.
  assert (∀ (h : option ObservabilityHooks) sm r, sdr_machine r = sm →
    (∀ d, sm = Some d → dcr_inv d ∧ DcrState.Current d = DCRIdle) →
    ready (match h, sm with
           | Some _, Some _ => SubscribeToStateChanges own_observer r
           | _, _ => r
           end)) as Hgen.
  { intros h sm r' Hr Hsm d. destruct sm as [d0|]; [|by destruct h; rewrite Hr].
    destruct (Hsm d0 eq_refl) as [Hinv Hcur]. destruct h; cbn; rewrite Hr; cbn; intros [= <-]; [|done].
    destruct (sr_Subscribe_inv (Some own_observer) d0 Hinv) as [? Hc]. cbn in *. by rewrite Hc. }
  unfold NewStatefulDynamicResolver. destruct b as [b|]; [|done]. intros Heq. injection Heq as <-.
  refine (Hgen _ _ _ eq_refl _). intros d.
  destruct (EnableStateMachine _); [apply new_dcr_inv|done].
Qed.

(** *** Metrics *)
Definition recorded : Type := (Z * PerformanceTracker * (ResolvedConflict * option error)).
Definition duration_of (x : recorded) : Z := x.1.1.
Definition record_all (xs : list recorded) (p : ResolverPerformanceMetrics) :=
  fold_left (λ p x, updatePerformanceMetrics x.1.1 x.1.2 x.2 p) xs p.
Definition is_auto (x : recorded) : Prop := final_state x.2 = DCRResolved.
Definition is_manual (x : recorded) : Prop := final_state x.2 = DCRManualReview.
Definition is_escalated (x : recorded) : Prop := final_state x.2 = DCREscalated.
Definition is_failed (x : recorded) : Prop := final_state x.2 = DCRFailed.
#[global] Instance is_auto_dec x : base.Decision (is_auto x).
Proof. unfold is_auto. apply _. Defined.
#[global] Instance is_manual_dec x : base.Decision (is_manual x).
Proof. unfold is_manual. apply _. Defined.
#[global] Instance is_escalated_dec x : base.Decision (is_escalated x).
Proof. unfold is_escalated. apply _. Defined.
#[global] Instance is_failed_dec x : base.Decision (is_failed x).
Proof. unfold is_failed. apply _. Defined.
Definition total_time (xs : list recorded) : Z := foldr Z.add 0 (duration_of <$> xs).
Definition count (P : recorded → Prop) `{!∀ x, base.Decision (P x)} (xs : list recorded) : Z :=
  Z.of_nat (length (filter P xs)).

(** The metrics summarise the resolutions of [xs]. *)
Record summarises (xs : list recorded) (p : ResolverPerformanceMetrics) : Prop := {
  sum_total : TotalConflictsResolved p = Z.of_nat (length xs);
  sum_time : TotalResolutionTime p = total_time xs;
  sum_average : xs ≠ [] → AverageResolutionTime p = Z.quot (total_time xs) (Z.of_nat (length xs));
  sum_auto : AutoResolvedCount p = count is_auto xs;
  sum_manual : ManualReviewCount p = count is_manual xs;
  sum_escalated : EscalatedCount p = count is_escalated xs;
  sum_failed : FailedCount p = count is_failed xs;
  sum_extremes : if decide (xs = []) then FastestResolutionTime p = 0 ∧ SlowestResolutionTime p = 0
                 else FastestResolutionTime p ∈ duration_of <$> xs
                      ∧ SlowestResolutionTime p ∈ duration_of <$> xs
                      ∧ Forall (λ d, FastestResolutionTime p ≤ d ≤ SlowestResolutionTime p)
                          (duration_of <$> xs)
}.

Lemma count_app P `{!∀ x, base.Decision (P x)} xs x :
  count P (xs ++ [x]) = count P xs + (if decide (P x) then 1 else 0).
Proof.
  unfold count. rewrite filter_app, length_app. cbn. destruct (decide (P x)); cbn; lia.
Qed.
Lemma count_bound P `{!∀ x, base.Decision (P x)} xs : 0 ≤ count P xs ≤ Z.of_nat (length xs).
Proof. unfold count. pose proof (length_filter P xs). lia. Qed.
Lemma total_time_app xs x : total_time (xs ++ [x]) = total_time xs + duration_of x.
Proof.
  unfold total_time. induction xs as [|y xs IH]; cbn in *; [lia|]. rewrite IH. lia.
Qed.
Lemma total_time_nonneg xs : Forall (λ x, 0 < duration_of x) xs → 0 ≤ total_time xs.
Proof. unfold total_time. induction 1; cbn; lia. Qed.

Lemma update_summarises xs x p :
  summarises xs p → Forall (λ x, 0 < duration_of x) xs → 0 < duration_of x →
  total_time (xs ++ [x]) < 2 ^ 63 → Z.of_nat (length (xs ++ [x])) < 2 ^ 63 →
  summarises (xs ++ [x]) (updatePerformanceMetrics x.1.1 x.1.2 x.2 p).
Proof.
  intros [Ht Hs Ha Hau Hm He Hf Hx] Hpos Hd Hsum Hlen.
  pose proof (total_time_nonneg xs Hpos) as H0. rewrite total_time_app in *.
  rewrite length_app in *. cbn [length] in *.
  assert (i64 (TotalConflictsResolved p + 1) = Z.of_nat (length xs + 1)) as Hn
    by (rewrite i64_small; lia).
  assert (i64 (TotalResolutionTime p + x.1.1) = total_time xs + duration_of x) as Htm
    by (rewrite i64_small; unfold duration_of in *; lia).
  assert (∀ P `{!∀ x, base.Decision (P x)} (b : bool) n, n = count P xs → (b = true ↔ P x) →
    (if b then i64 (n + 1) else n) = count P (xs ++ [x])) as Hcount.
  { intros P HP b n -> Hb. rewrite count_app. pose proof (count_bound P xs).
    destruct b.
    - rewrite decide_True by (by apply Hb). rewrite i64_small; lia.
    - rewrite decide_False by (intros HPx; by apply Hb in HPx). lia. }
  destruct x as [[d pt] [res err]]. cbn [fst snd duration_of] in *.
  split; cbn.
  - rewrite length_app. exact Hn.
  - by rewrite total_time_app.
  - intros _. rewrite Hn, Htm, total_time_app, length_app. cbn [length].
    destruct (Z.ltb_spec 0 (Z.of_nat (length xs + 1))); [done|lia].
  - apply Hcount; [done|]. unfold is_auto. cbn. destruct err; cbn; [done|].
    repeat case_bool_decide; cbn; naive_solver.
  - apply Hcount; [done|]. unfold is_manual. cbn. destruct err; cbn; [done|].
    repeat case_bool_decide; cbn; naive_solver.
  - apply Hcount; [done|]. unfold is_escalated. cbn. destruct err; cbn; [done|].
    repeat case_bool_decide; cbn; try naive_solver congruence.
  - apply Hcount; [done|]. unfold is_failed. cbn. destruct err; cbn; [done|].
    repeat case_bool_decide; cbn; naive_solver.
  - rewrite decide_False by (by destruct xs). rewrite fmap_app. cbn.
    destruct (decide (xs = [])) as [->|Hne].
    + destruct Hx as [-> ->]. cbn. rewrite (proj2 (Z.ltb_lt 0 d)) by done.
      split_and!; [set_solver|set_solver|]. apply Forall_singleton. lia.
    + destruct Hx as (Hmin & Hmax & Hall).
      assert (0 < FastestResolutionTime p) as Hp.
      { apply list_elem_of_fmap in Hmin as (y & -> & Hy). by eapply Forall_forall in Hpos. }
      rewrite (proj2 (Z.eqb_neq _ 0)) by lia. cbn.
      assert (Forall (λ d, FastestResolutionTime p ≤ d ≤ SlowestResolutionTime p) (duration_of <$> xs)) as Hall'
        by done.
      rewrite Forall_forall in Hall'. pose proof (Hall' _ Hmin) as [_ Hle].
      destruct (Z.ltb_spec d (FastestResolutionTime p)), (Z.ltb_spec (SlowestResolutionTime p) d);
        (split_and!; [set_solver|set_solver|]); apply Forall_app;
        (split; [eapply Forall_impl; [exact Hall|]; cbn; lia|apply Forall_singleton; lia]).
Qed.

Lemma record_all_summarises ys xs p :
  summarises xs p → Forall (λ x, 0 < duration_of x) (xs ++ ys) →
  total_time (xs ++ ys) < 2 ^ 63 → Z.of_nat (length (xs ++ ys)) < 2 ^ 63 →
  summarises (xs ++ ys) (record_all ys p).
Proof.
  revert xs p; induction ys as [|y ys IH]; intros xs p Hp Hpos Hsum Hlen; cbn.
  { by rewrite app_nil_r. }
  assert (xs ++ y :: ys = (xs ++ [y]) ++ ys) as Heq by (by rewrite <-app_assoc). rewrite Heq in *.
  apply IH; try done. pose proof Hpos as Hpos'. apply Forall_app in Hpos' as [Hpos1 Hpos2].
  assert (total_time ((xs ++ [y]) ++ ys) = total_time (xs ++ [y]) + total_time ys) as Hadd.
  { unfold total_time. rewrite fmap_app. generalize (duration_of <$> xs ++ [y]).
    intros l. induction l; cbn; lia. }
  pose proof (total_time_nonneg ys Hpos2). apply Forall_app in Hpos1 as [? Hy].
  apply Forall_cons_1 in Hy as [Hy _]. rewrite length_app in Hlen.
  apply update_summarises; try done; lia.
Qed.

(** Remark: as long as no counter overflows, the performance metrics of a new
    resolver are exact after any sequence of resolutions: totals, the average
    rounded towards zero, the fastest and the slowest time, and one outcome
    count per resolution. *)
Theorem metrics_exact (started reset : Z) (xs : list recorded)
    (Hpos : Forall (λ x, 0 < duration_of x) xs) (Hsum : total_time xs < 2 ^ 63)
    (Hlen : Z.of_nat (length xs) < 2 ^ 63) :
  let p := record_all xs (new_metrics started reset) in
  summarises xs p
  ∧ AutoResolvedCount p + ManualReviewCount p + EscalatedCount p + FailedCount p
    = TotalConflictsResolved p.
Proof.
  assert (summarises xs (record_all xs (new_metrics started reset))) as Hs
    by (by apply (record_all_summarises xs [])).
  split; [done|]. destruct Hs as [-> _ _ -> -> -> -> _]. clear.
  induction xs as [|x xs IH] using rev_ind; [done|]. rewrite !count_app, length_app. cbn.
  assert (is_auto x ∨ is_manual x ∨ is_escalated x ∨ is_failed x) as Hone.
  { unfold is_auto, is_manual, is_escalated, is_failed, final_state.
    destruct x as [? [? []]]; cbn; repeat case_bool_decide; tauto. }
  repeat case_decide; unfold is_auto, is_manual, is_escalated, is_failed in *; try lia;
    try congruence; tauto.
Qed.

(** ** Concrete instances *)
Definition demo_base (m : Spec) : resolverOptions :=
  mkOptions [mkRule "r" (Some m) (Some AdditiveMerge)] None no_hooks.
Definition demo_resolver (m : Spec) : StatefulDynamicResolver :=
  match NewStatefulDynamicResolver 0 1 2 (Some (demo_base m)) None with
  | Ok r => r
  | Err _ => mkStateful (demo_base m) None None DefaultStatefulResolverOptions None [] true
  end.
Definition demo_world (m : Spec) : World := mkWorld (demo_resolver m) None 0 [].
Definition demo_nano : NanoText := {| rfc3339nano := format_int |}.
Definition demo_env : Env := mkEnv Z.of_nat (λ _, "t").
Definition demo_conflict : Conflict := mkConflict "updated" "a-1" [] None zero_ewv zero_ewv.

Lemma sr_demo_ready m : ready (resolver (demo_world m)).
Proof.
  change (ready (demo_resolver m)). unfold demo_resolver.
  destruct (NewStatefulDynamicResolver 0 1 2 (Some (demo_base m)) None) eqn:Hnew; [|by intros d].
  exact (NewStatefulDynamicResolver_ready 0 1 2 (Some (demo_base m)) None _ Hnew).
Qed.
Lemma demo_comparable : comparable (MR := canonical_range) demo_conflict.
Proof. by intros l r. Qed.

Lemma stateful_agrees_with_dynamic_witness :
  let m : Spec := AlwaysMatch in
  match Resolvers.Resolve (base (resolver (demo_world m))) background demo_conflict with
  | Done (res, log) => ∃ w',
      Resolve (MR := canonical_range) (NT := demo_nano) background demo_conflict demo_env (demo_world m)
      = (w', Done res)
      ∧ base_log (calls w') = base_log (calls (demo_world m)) ++ log
      ∧ ready (resolver w') ∧ base (resolver w') = base (resolver (demo_world m))
      ∧ sdr_options (resolver w') = sdr_options (resolver (demo_world m))
      ∧ ∃ id, active (resolver w') =
          (if EnableWorkflowTracking (sdr_options (resolver (demo_world m)))
           then delete id <$> active (resolver (demo_world m))
           else active (resolver (demo_world m)))
  | Panic why =>
      (Resolve (MR := canonical_range) (NT := demo_nano) background demo_conflict demo_env
         (demo_world m)).2 = Panic why
  end.
Proof.
  apply (stateful_agrees_with_dynamic (MR := canonical_range) (NT := demo_nano) background
           demo_conflict demo_env (demo_world AlwaysMatch) (sr_demo_ready _) demo_comparable).
Defined.

Lemma panic_blocks_resolver_witness :
  let m : Spec := λ _, Panic "index out of range" in
  let w1 := (Resolve (MR := canonical_range) (NT := demo_nano) background demo_conflict demo_env
               (demo_world m)).1 in
  GetCurrentState (resolver w1) = DCRApplyingRules
  ∧ ∀ ctx' c' env', ∃ w2 e,
      Resolve (MR := canonical_range) (NT := demo_nano) ctx' c' env' w1
      = (w2, Done (no_resolution, Some e))
      ∧ base_log (calls w2) = base_log (calls w1)
      ∧ GetCurrentState (resolver w2) = DCRApplyingRules
      ∧ (EnableWorkflowTracking (sdr_options (resolver (demo_world m))) = true →
           ∃ id p, active (resolver w2) = <[id := p]> <$> active (resolver w1)).
Proof.
  apply (panic_blocks_resolver (MR := canonical_range) (NT := demo_nano) background demo_conflict
           demo_env (demo_world (λ _, Panic "index out of range")) "index out of range"
           (sr_demo_ready _) demo_comparable); [by eexists|reflexivity].
Defined.

Definition demo_recorded : list recorded :=
  [(30, NewPerformanceTracker 0, (no_resolution, None));
   (10, NewPerformanceTracker 0, (mkResolved [] "manual_review" [], None));
   (20, NewPerformanceTracker 0, (no_resolution, Some err_no_rule))].
Lemma metrics_exact_witness :
  let p := record_all demo_recorded (new_metrics 0 0) in
  summarises demo_recorded p
  ∧ AutoResolvedCount p + ManualReviewCount p + EscalatedCount p + FailedCount p
    = TotalConflictsResolved p.
Proof.
  apply (metrics_exact 0 0 demo_recorded); [repeat constructor|reflexivity|reflexivity].
Defined.
