(* ===== verification/Timeout.v ===== *)
(** * State timeouts (src/synckit/statemachine/timeout.go)

    The handler that watches how long a machine stays in a state, the observer
    that restarts it after every transition, and the timeout metrics.  A started
    timeout is a goroutine, a [monitor]: it creates its timer when it is first
    scheduled and then waits for the timer or its cancellation; when both are
    ready the [select] picks either.  The machine runs its observers in
    goroutines of their own, counted by [pending]. *)
From S2P Require Import Prelude Types Json Errors StateMachine.
From stdpp Require Import options.

(** The dynamic type of the states: its name, and the assertion [.(T)] on a
    string, which succeeds only if the states are strings. *)
Class StateType (T : Type) := { type_name : string; from_string : string → option T }.

Inductive TimeoutAction :=
  | TimeoutActionTransition | TimeoutActionFail | TimeoutActionCallback | TimeoutActionReset
  | TimeoutActionIgnore.

(** [TargetState interface{}]: nil, a state, or something else. *)
Inductive target (T : Type) := NoTarget | Target (t : T) | OtherTarget.
Arguments NoTarget {T}.
Arguments Target {T} t.
Arguments OtherTarget {T}.

Record TimeoutConfig (T : Type) := mkTimeoutConfig {
  DefaultTimeout : Z; EnableTimeouts : bool; Action : TimeoutAction; TargetState : target T;
  MaxRetries : Z; RetryDelay : Z
}.
Arguments mkTimeoutConfig {T}.
Arguments DefaultTimeout {T}.
Arguments EnableTimeouts {T}.
Arguments Action {T}.
Arguments TargetState {T}.
Definition DefaultTimeoutConfig {T} (failureState : T) : TimeoutConfig T :=
  mkTimeoutConfig (300 * 1000000000) true TimeoutActionTransition (Target failureState) 3
    (30 * 1000000000).

(** A goroutine of [monitorTimeout]; [deadline] is set once the timer runs. *)
Record monitor (T : Type) := mkMonitor {
  mon_state : T; mon_timeout : Z; deadline : option Z; cancelled : bool; finished : bool
}.
Arguments mkMonitor {T}.
Arguments mon_state {T}.
Arguments mon_timeout {T}.
Arguments deadline {T}.
Arguments cancelled {T}.
Arguments finished {T}.

Section handler.
Context {T : Type} `{EqDecision0 : EqDecision T} `{!Countable T} {SK : StateKind T}
  {TY : StateType T}.

(** [currentTimeout] names the monitor its cancel function cancels;
    [observing] is whether a [TimeoutObserver] is subscribed to the machine;
    [callbacks] are the calls of [onTimeout]. *)
Record TimeoutHandler := mkHandler {
  stateMachine : machine T;
  timeouts : gmap T Z;
  currentTimeout : option nat;
  config : TimeoutConfig T;
  onTimeout : bool;
  observing : bool;
  monitors : list (monitor T);
  pending : nat;
  callbacks : list (T * Z)
}.

Definition NewTimeoutHandler (sm : machine T) (cfg : TimeoutConfig T) : TimeoutHandler :=
  mkHandler sm ∅ None cfg false false [] 0 [].
Definition with_timeouts (ts : gmap T Z) (h : TimeoutHandler) : TimeoutHandler :=
  mkHandler (stateMachine h) ts (currentTimeout h) (config h) (onTimeout h) (observing h)
    (monitors h) (pending h) (callbacks h).
Definition with_monitors (c : option nat) (ms : list (monitor T)) (h : TimeoutHandler) :=
  mkHandler (stateMachine h) (timeouts h) c (config h) (onTimeout h) (observing h) ms (pending h)
    (callbacks h).
(** The machine changed; an accepted transition notifies the observer. *)
Definition with_machine (sm : machine T) (accepted : bool) (h : TimeoutHandler) : TimeoutHandler :=
  mkHandler sm (timeouts h) (currentTimeout h) (config h) (onTimeout h) (observing h) (monitors h)
    (if accepted && observing h then S (pending h) else pending h) (callbacks h).

Definition SetTimeout (state : T) (timeout : Z) (h : TimeoutHandler) : TimeoutHandler :=
  with_timeouts (<[state := timeout]> (timeouts h)) h.
(** [given] is the argument's map in the order of its iteration. *)
Definition SetTimeouts (given : list (T * Z)) (h : TimeoutHandler) : TimeoutHandler :=
  with_timeouts (fold_left (λ m kv, <[kv.1 := kv.2]> m) given (timeouts h)) h.
Definition RemoveTimeout (state : T) (h : TimeoutHandler) : TimeoutHandler :=
  with_timeouts (delete state (timeouts h)) h.
Definition OnTimeout (callback : bool) (h : TimeoutHandler) : TimeoutHandler :=
  mkHandler (stateMachine h) (timeouts h) (currentTimeout h) (config h) callback (observing h)
    (monitors h) (pending h) (callbacks h).

Definition getTimeoutForState (state : T) (h : TimeoutHandler) : Z :=
  default (DefaultTimeout (config h)) (timeouts h !! state).

Definition cancel (m : monitor T) : monitor T :=
  mkMonitor (mon_state m) (mon_timeout m) (deadline m) true (finished m).
(** Also the common beginning of [StartTimeout]. *)
Definition StopTimeout (h : TimeoutHandler) : TimeoutHandler :=
  match currentTimeout h with
  | None => h
  | Some i => with_monitors None (alter cancel i (monitors h)) h
  end.
Definition StartTimeout (h : TimeoutHandler) : TimeoutHandler :=
  if negb (EnableTimeouts (config h)) then h
  else
    let h := StopTimeout h in
    let currentState := Current (stateMachine h) in
    let timeout := getTimeoutForState currentState h in
    if timeout <=? 0 then h
    else with_monitors (Some (length (monitors h)))
           (monitors h ++ [mkMonitor currentState timeout None false false]) h.

(** [TransitionWithContext] on the machine, by the handler or by its owner. *)
Definition transition (now : Z) (tid : string) (to : T) (md : gomap any) (h : TimeoutHandler)
    : TimeoutHandler :=
  let '(sm, err) := TransitionWithContext now tid to md (stateMachine h) in
  with_machine sm (bool_decide (err = None)) h.

Definition timeout_metadata (state : T) (reason : string) : gomap any :=
  Some {["timeout" := AnyBool true; "timeout_from" := AnyOther type_name (show_state state);
         "reason" := AnyString reason]}.
Definition handleTimeoutTransition (now : Z) (tid : string) (state : T) (h : TimeoutHandler)
    : TimeoutHandler :=
  match TargetState (config h) with
  | Target t => transition now tid t (timeout_metadata state "state_timeout") h
  | _ => h
  end.
Definition failureStates : list string := ["failed"; "error"; "timeout"; "stuck"].
Fixpoint try_failures (now : Z) (tid : string) (state : T) (names : list string)
    (h : TimeoutHandler) : TimeoutHandler :=
  match names with
  | [] => h
  | n :: rest =>
      match from_string n with
      | Some t =>
          if CanTransition t (stateMachine h)
          then transition now tid t (timeout_metadata state "state_timeout_failure") h
          else try_failures now tid state rest h
      | None => try_failures now tid state rest h
      end
  end.
Definition handleTimeoutFail (now : Z) (tid : string) (state : T) : TimeoutHandler → TimeoutHandler :=
  try_failures now tid state failureStates.
Definition handleTimeoutReset (now : Z) (tid : string) (h : TimeoutHandler) : TimeoutHandler :=
  let '(sm, err) := Reset now tid (stateMachine h) in with_machine sm (bool_decide (err = None)) h.

Definition handleTimeout (now : Z) (tid : string) (state : T) (duration : Z) (h : TimeoutHandler)
    : TimeoutHandler :=
  let h := if onTimeout h
           then mkHandler (stateMachine h) (timeouts h) (currentTimeout h) (config h) (onTimeout h)
                  (observing h) (monitors h) (pending h) (callbacks h ++ [(state, duration)])
           else h in
  match Action (config h) with
  | TimeoutActionTransition => handleTimeoutTransition now tid state h
  | TimeoutActionFail => handleTimeoutFail now tid state h
  | TimeoutActionReset => handleTimeoutReset now tid h
  | TimeoutActionCallback | TimeoutActionIgnore => h
  end.

(** [NewTimeoutObserver], subscribed to the machine. *)
Definition NewTimeoutObserver (h : TimeoutHandler) : TimeoutHandler :=
  mkHandler (stateMachine h) (timeouts h) (currentTimeout h) (config h) (onTimeout h) true
    (monitors h) (pending h) (callbacks h).
(** [TimeoutObserver.OnTransition] in its goroutine. *)
Definition OnTransition (h : TimeoutHandler) : TimeoutHandler :=
  StartTimeout (mkHandler (stateMachine h) (timeouts h) (currentTimeout h) (config h) (onTimeout h)
                  (observing h) (monitors h) (pred (pending h)) (callbacks h)).

Definition set_deadline (d : Z) (m : monitor T) : monitor T :=
  mkMonitor (mon_state m) (mon_timeout m) (Some d) (cancelled m) (finished m).
Definition finish (m : monitor T) : monitor T :=
  mkMonitor (mon_state m) (mon_timeout m) (deadline m) (cancelled m) true.

(** The steps of [monitorTimeout]: creating the timer, returning because of the
    cancellation, and the timer's case. *)
Definition monitor_begin (now : Z) (i : nat) (h : TimeoutHandler) : option TimeoutHandler :=
  m ← monitors h !! i;
  match deadline m with
  | None => Some (with_monitors (currentTimeout h)
                    (alter (set_deadline (now + mon_timeout m)) i (monitors h)) h)
  | Some _ => None
  end.
Definition monitor_stop (i : nat) (h : TimeoutHandler) : option TimeoutHandler :=
  m ← monitors h !! i;
  if bool_decide (is_Some (deadline m)) && cancelled m && negb (finished m)
  then Some (with_monitors (currentTimeout h) (alter finish i (monitors h)) h) else None.
Definition monitor_fire (now : Z) (tid : string) (i : nat) (h : TimeoutHandler)
    : option TimeoutHandler :=
  m ← monitors h !! i;
  d ← deadline m;
  if (d <=? now) && negb (finished m)
  then Some (handleTimeout now tid (mon_state m) (mon_timeout m)
               (with_monitors (currentTimeout h) (alter finish i (monitors h)) h))
  else None.

Inductive th_step : TimeoutHandler → TimeoutHandler → Prop :=
  | th_start h : th_step h (StartTimeout h)
  | th_stop h : th_step h (StopTimeout h)
  | th_set s d h : th_step h (SetTimeout s d h)
  | th_sets l h : th_step h (SetTimeouts l h)
  | th_remove s h : th_step h (RemoveTimeout s h)
  | th_callback b h : th_step h (OnTimeout b h)
  | th_observer h : th_step h (NewTimeoutObserver h)
  | th_transition now tid to md h : th_step h (transition now tid to md h)
  | th_observe h : (0 < pending h)%nat → th_step h (OnTransition h)
  | th_begin now i h h' : monitor_begin now i h = Some h' → th_step h h'
  | th_cancelled i h h' : monitor_stop i h = Some h' → th_step h h'
  | th_fire now tid i h h' : monitor_fire now tid i h = Some h' → th_step h h'.
End handler.
Arguments TimeoutHandler T {_ _}.

(** ** Timeout metrics *)
Record TimeoutMetrics := mkTimeoutMetrics {
  TotalTimeouts : Z; TimeoutsByState : gmap string Z; AverageTimeoutTime : Z; MaxTimeoutTime : Z;
  LastTimeout : option Z
}.
Definition NewTimeoutMetrics : TimeoutMetrics := mkTimeoutMetrics 0 ∅ 0 0 None.
Definition RecordTimeout (now : Z) (state : string) (duration : Z) (m : TimeoutMetrics)
    : TimeoutMetrics :=
  let total := i64 (TotalTimeouts m + 1) in
  mkTimeoutMetrics total
    (<[state := i64 (default 0 (TimeoutsByState m !! state) + 1)]> (TimeoutsByState m))
    (if total =? 1 then duration
     else i64 (AverageTimeoutTime m + Z.quot (i64 (duration - AverageTimeoutTime m)) total))
    (if MaxTimeoutTime m <? duration then duration else MaxTimeoutTime m)
    (Some now).
Definition GetMetrics `{!MapRange} (m : TimeoutMetrics) : TimeoutMetrics :=
  mkTimeoutMetrics (TotalTimeouts m) (copy_map (range (TimeoutsByState m))) (AverageTimeoutTime m)
    (MaxTimeoutTime m) (LastTimeout m).

(** ** Invariants *)
Section invariants.
Context {T : Type} `{EqDecision0 : EqDecision T} `{!Countable T} {SK : StateKind T}
  {TY : StateType T}.
Implicit Types (h : TimeoutHandler T) (m : monitor T).

(** A timeout is live until it is cancelled or has run. *)
Definition live m : Prop := cancelled m = false ∧ finished m = false.
Definition one_live h : Prop :=
  ∀ i m, monitors h !! i = Some m → live m → currentTimeout h = Some i.

Lemma one_live_same h h' :
  monitors h' = monitors h → currentTimeout h' = currentTimeout h → one_live h → one_live h'.
Proof. intros Hm Hc Hl i m. rewrite Hm, Hc. apply Hl. Qed.

(** A monitor that is replaced by one that is no more alive than it was. *)
Lemma one_live_alter h i f :
  (∀ m, live (f m) → live m) → one_live h →
  one_live (with_monitors (currentTimeout h) (alter f i (monitors h)) h).
Proof.
  intros Hf Hl j m. cbn. rewrite list_lookup_alter. case_decide as Hij; [|by apply Hl].
  subst j. rewrite fmap_Some. intros (m' & Hm & ->) Hlive. eauto.
Qed.

Lemma StopTimeout_none h i m : one_live h → monitors (StopTimeout h) !! i = Some m → ¬ live m.
Proof.
  intros Hl. unfold StopTimeout. destruct (currentTimeout h) as [c|] eqn:Hc.
  - cbn. rewrite list_lookup_alter. case_decide as Hci.
    + rewrite fmap_Some. intros (m' & _ & ->). by intros [? _].
    + intros Hm Hlive. specialize (Hl _ _ Hm Hlive). congruence.
  - intros Hm Hlive. specialize (Hl _ _ Hm Hlive). congruence.
Qed.
Lemma StopTimeout_current h : currentTimeout (StopTimeout h) = None.
Proof. unfold StopTimeout. by destruct (currentTimeout h) eqn:Hc. Qed.
Lemma StopTimeout_fields h :
  stateMachine (StopTimeout h) = stateMachine h ∧ timeouts (StopTimeout h) = timeouts h
  ∧ config (StopTimeout h) = config h ∧ length (monitors (StopTimeout h)) = length (monitors h)
  ∧ observing (StopTimeout h) = observing h ∧ pending (StopTimeout h) = pending h
  ∧ callbacks (StopTimeout h) = callbacks h ∧ onTimeout (StopTimeout h) = onTimeout h.
Proof.
  unfold StopTimeout. destruct (currentTimeout h); cbn; [by rewrite length_alter|done].
Qed.

Lemma StartTimeout_live h : one_live h → one_live (StartTimeout h).
Proof.
  intros Hl. unfold StartTimeout. destruct (negb _); [done|].
  set (h1 := StopTimeout h).
  assert (one_live h1) as H1.
  { intros i m Hm Hlive. by destruct (StopTimeout_none h i m Hl Hm). }
  destruct (_ <=? 0); [done|]. intros i m. cbn.
  rewrite lookup_app_Some. intros [Hm|[Hge Hm]] Hlive.
  - by destruct (StopTimeout_none h i m Hl Hm).
  - apply list_lookup_singleton_Some in Hm as [Hi _]. f_equal. lia.
Qed.

Lemma transition_monitors now tid to md h :
  monitors (transition now tid to md h) = monitors h
  ∧ currentTimeout (transition now tid to md h) = currentTimeout h
  ∧ callbacks (transition now tid to md h) = callbacks h
  ∧ config (transition now tid to md h) = config h.
Proof. unfold transition. by destruct (TransitionWithContext _ _ _ _ _). Qed.
Lemma try_failures_monitors now tid s names h :
  monitors (try_failures now tid s names h) = monitors h
  ∧ currentTimeout (try_failures now tid s names h) = currentTimeout h.
Proof.
  induction names as [|n names IH]; cbn; [done|].
  destruct (from_string n); [|done]. destruct (CanTransition _ _); [|done].
  split; apply transition_monitors.
Qed.
Lemma handleTimeout_monitors now tid s d h :
  monitors (handleTimeout now tid s d h) = monitors h
  ∧ currentTimeout (handleTimeout now tid s d h) = currentTimeout h.
Proof.
  unfold handleTimeout. set (h1 := if onTimeout h then _ else h).
  assert (monitors h1 = monitors h ∧ currentTimeout h1 = currentTimeout h) as [<- <-]
    by (unfold h1; by destruct (onTimeout h)).
  destruct (Action (config h1)); try done.
  - unfold handleTimeoutTransition. destruct (TargetState _); try done.
    split; apply transition_monitors.
  - apply try_failures_monitors.
  - unfold handleTimeoutReset. by destruct (Reset _ _ _).
Qed.

Lemma th_step_one_live h h' : one_live h → th_step h h' → one_live h'.
Proof.
  intros Hl Hs. revert Hl.
  destruct Hs as [h|h|s d h|l h|s h|b h|h|now tid to md h|h _|now i h h' Hh|i h h' Hh|now tid i h h' Hh];
    intros Hl.
  - by apply StartTimeout_live.
  - intros i m Hm Hlive. by destruct (StopTimeout_none h i m Hl Hm).
  - done.
  - done.
  - done.
  - done.
  - done.
  - eapply one_live_same; [apply transition_monitors..|done].
  - apply StartTimeout_live. by apply (one_live_same h).
  - unfold monitor_begin in Hh. destruct (monitors h !! i); [|done]. cbn in Hh.
    destruct (deadline _); [done|]. injection Hh as <-. apply one_live_alter; [|done]. by intros ?.
  - unfold monitor_stop in Hh. destruct (monitors h !! i); [|done]. cbn in Hh.
    destruct (_ && _ && _); [|done]. injection Hh as <-. apply one_live_alter; [|done].
    by intros ? [_ ?].
  - unfold monitor_fire in Hh. destruct (monitors h !! i) as [m|]; [|done]. cbn in Hh.
    destruct (deadline m) as [d|]; [|done]. cbn in Hh. destruct (_ && _); [|done].
    injection Hh as <-. eapply one_live_same; [apply handleTimeout_monitors..|].
    apply one_live_alter; [|done]. by intros ? [_ ?].
Qed.

(** The state a failure action asks for: the first failure state allowed. *)
Definition failure_target (sm : machine T) : option T :=
  head (filter (λ t, CanTransition t sm = true) (omap from_string failureStates)).
Lemma try_failures_spec now tid s names h :
  try_failures now tid s names h =
  match head (filter (λ t, CanTransition t (stateMachine h) = true) (omap from_string names)) with
  | Some t => transition now tid t (timeout_metadata s "state_timeout_failure") h
  | None => h
  end.
Proof.
  induction names as [|n names IH]; cbn; [done|].
  destruct (from_string n) as [t|]; [|done]. rewrite filter_cons.
  destruct (CanTransition t (stateMachine h)) eqn:Hc.
  - by rewrite decide_True.
  - by rewrite decide_False.
Qed.
Lemma transition_machine now tid to md h :
  stateMachine (transition now tid to md h) = (TransitionWithContext now tid to md (stateMachine h)).1.
Proof. unfold transition. by destruct (TransitionWithContext _ _ _ _ _). Qed.
End invariants.

(** ** Properties *)

(** Remark: however the handler, the machine and their goroutines are interleaved,
    at most one timeout is live, the one the handler can cancel; stopping leaves
    none, and starting leaves exactly one for the state the machine is in, with
    that state's timeout or the default, unless timeouts are off or the timeout
    is not positive. *)
Theorem at_most_one_timeout {T} `{EqDecision0 : EqDecision T} `{!Countable T} {SK : StateKind T}
    {TY : StateType T} (sm : machine T) (cfg : TimeoutConfig T) (h : TimeoutHandler T)
    (Hrun : rtc th_step (NewTimeoutHandler sm cfg) h) :
  (∀ i m, monitors h !! i = Some m → live m → currentTimeout h = Some i)
  ∧ (∀ i m, monitors (StopTimeout h) !! i = Some m → ¬ live m)
  ∧ let s := Current (stateMachine h) in
    let d := default (DefaultTimeout (config h)) (timeouts h !! s) in
    (EnableTimeouts (config h) = true → 0 < d →
       last (monitors (StartTimeout h)) = Some (mkMonitor s d None false false)
       ∧ currentTimeout (StartTimeout h) = Some (length (monitors h)))
    ∧ (EnableTimeouts (config h) = true → d ≤ 0 →
         ∀ i m, monitors (StartTimeout h) !! i = Some m → ¬ live m).
Proof.
  assert (one_live h) as Hl.
  { assert (one_live (NewTimeoutHandler sm cfg)) as H0 by (by intros i m).
    revert H0. induction Hrun as [|h1 h2 h3 Hs _ IH]; [done|]. intros H1.
    by apply IH, (th_step_one_live h1). }
  split; [exact Hl|]. split; [by intros i m; apply StopTimeout_none|]. cbn zeta.
  destruct (StopTimeout_fields h) as (Hsm & Hts & Hcfg & Hlen & _).
  unfold StartTimeout, getTimeoutForState. rewrite Hsm, Hts, Hcfg.
  set (d := default _ _). split; intros -> Hd; cbn [negb].
  - destruct (Z.leb_spec d 0); [lia|]. cbn. by rewrite last_snoc, Hlen.
  - destruct (Z.leb_spec d 0); [|lia]. intros i m. by apply StopTimeout_none.
Qed.

(** Remark: what a timeout does to the machine, for every action: an attempt to
    reach the target state, or the first allowed of the four failure states (of
    string-typed machines only), or the initial state; an attempt the rules
    refuse leaves the state alone, and so do the two passive actions.  The
    callback is called first, and only if set. *)
Theorem handleTimeout_outcome {T} `{EqDecision0 : EqDecision T} `{!Countable T} {SK : StateKind T}
    {TY : StateType T} (now : Z) (tid : string) (s : T) (d : Z) (h : TimeoutHandler T)
    (Hwf : well_formed (stateMachine h)) :
  let sm := stateMachine h in
  let h' := handleTimeout now tid s d h in
  let goal := match Action (config h) with
              | TimeoutActionTransition => match TargetState (config h) with Target t => Some t | _ => None end
              | TimeoutActionFail => failure_target sm
              | TimeoutActionReset => Some (InitialState (StateMachine.config sm))
              | _ => None
              end in
  callbacks h' = callbacks h ++ (if onTimeout h then [(s, d)] else [])
  ∧ state (stateMachine h') =
      match goal with Some t => if decide (accepts sm (state sm) t) then t else state sm
                 | None => state sm end.
Proof.
  assert (∀ to md, state (TransitionWithContext now tid to md (stateMachine h)).1 =
    if decide (accepts (stateMachine h) (state (stateMachine h)) to) then to
    else state (stateMachine h)) as Htr.
  { intros to md. destruct (decide _) as [Ha|Hr].
    - rewrite Transition_accepted by done. by apply commit_fields.
    - destruct (Transition_rejected now tid to md _ Hr) as (err & e & ->). apply reject_fields. }
  cbn zeta. unfold handleTimeout. set (h1 := if onTimeout h then _ else h).
  assert (stateMachine h1 = stateMachine h ∧ config h1 = config h
          ∧ callbacks h1 = callbacks h ++ (if onTimeout h then [(s, d)] else [])) as (Hsm & Hcfg & Hcb).
  { unfold h1. destruct (onTimeout h); cbn; [done|by rewrite app_nil_r]. }
  rewrite Hcfg, <-Hcb. rewrite <-Hsm in *. unfold failure_target.
  destruct (Action (config h)); try done.
  - unfold handleTimeoutTransition. rewrite Hcfg. destruct (TargetState (config h)); try done.
    rewrite transition_machine. split; [apply transition_monitors|apply Htr].
  - unfold handleTimeoutFail. rewrite try_failures_spec.
    destruct (head _) as [t|]; [|done]. rewrite transition_machine.
    split; [apply transition_monitors|apply Htr].
  - unfold handleTimeoutReset, Reset.
    pose proof (Htr (InitialState (StateMachine.config (stateMachine h1))) (Some {["reset" := AnyBool true]})) as Hr.
    by destruct (TransitionWithContext _ _ _ _ _).
Qed.

(** Remark: a timeout acts on whatever state the machine is in when it fires.  With
    an observer restarting the timeout after each transition, a timer that runs
    out around a transition from [s] to [t] still fires, before or after the
    observer cancels it, and takes the machine out of [t], a state it has just
    entered, into the failure state. *)
Theorem stale_timeout_fires {T} `{EqDecision0 : EqDecision T} `{!Countable T} {SK : StateKind T}
    {TY : StateType T} (sm : machine T) (cfg : TimeoutConfig T) (t bad : T) (start now : Z)
    (Hwf : well_formed sm) (Hon : EnableTimeouts cfg = true) (Hpos : 0 < DefaultTimeout cfg)
    (Hact : Action cfg = TimeoutActionTransition) (Htarget : TargetState cfg = Target bad)
    (Hnow : start + DefaultTimeout cfg ≤ now)
    (Hto : accepts sm (state sm) t) (Hbad : accepts sm t bad) :
  ∃ h1 h2 h3 h2' h3',
    rtc th_step (NewTimeoutObserver (NewTimeoutHandler sm cfg)) h1
    ∧ h2 = transition now "" t None h1 ∧ state (stateMachine h2) = t
    ∧ monitor_fire now "" 0 h2 = Some h3 ∧ state (stateMachine h3) = bad
    ∧ h2' = OnTransition h2 ∧ (m ← monitors h2' !! 0%nat; Some (cancelled m)) = Some true
    ∧ monitor_fire now "" 0 h2' = Some h3' ∧ state (stateMachine h3') = bad.
Proof.
  set (h0 := NewTimeoutObserver (NewTimeoutHandler sm cfg)).
  set (m0 := mkMonitor (state sm) (DefaultTimeout cfg) (Some (start + DefaultTimeout cfg)) false false).
  set (h1 := with_monitors (Some 0%nat) [m0] h0).
  assert (rtc th_step h0 h1) as H1.
  { assert (StartTimeout h0
      = with_monitors (Some 0%nat) [mkMonitor (state sm) (DefaultTimeout cfg) None false false] h0) as Hst.
    { unfold StartTimeout, getTimeoutForState. cbn. rewrite Hon, lookup_empty. cbn.
      by destruct (Z.leb_spec (DefaultTimeout cfg) 0); [lia|]. }
    eapply rtc_l; [apply th_start|]. rewrite Hst. apply rtc_once.
    by apply (th_begin start 0). }
  pose proof (Transition_accepted now "" t None sm Hto) as Htr.
  destruct (commit_fields now "" (state sm) t None sm Hwf) as ((Hc & Hv & _) & Hst & _ & Hh & _).
  set (sm2 := commit now "" (state sm) t None sm) in *.
  assert (accepts sm2 (state sm2) bad) as Hbad2 by (unfold accepts; by rewrite Hc, Hv, Hst).
  assert (well_formed sm2) as Hwf2.
  { unfold well_formed, max_history. rewrite Hc, Hh. split; [apply Hwf|apply length_keep]. }
  assert (transition now "" t None h1 = with_machine sm2 true h1) as H2.
  { unfold transition. cbn [stateMachine h1 h0 with_monitors NewTimeoutObserver NewTimeoutHandler].
    by rewrite Htr. }
  assert (∀ md, state (TransitionWithContext now "" bad md sm2).1 = bad) as Hgo.
  { intros md. rewrite (Transition_accepted now "" bad md sm2 Hbad2). by apply commit_fields. }
  assert (∀ h m, config h = cfg → stateMachine h = sm2 → onTimeout h = false →
    monitors h !! 0%nat = Some m → deadline m = Some (start + DefaultTimeout cfg) → finished m = false →
    ∃ h', monitor_fire now "" 0 h = Some h' ∧ state (stateMachine h') = bad) as Hfire.
  { intros h m Hcfg Hsm Hcb Hm Hd Hf. unfold monitor_fire. rewrite Hm. cbn. rewrite Hd. cbn.
    rewrite Hf. destruct (Z.leb_spec (start + DefaultTimeout cfg) now); [|lia]. cbn.
    eexists. split; [done|]. unfold handleTimeout. cbn. rewrite Hcb. cbn. rewrite Hcfg, Hact.
    unfold handleTimeoutTransition. cbn. rewrite Hcfg, Htarget, transition_machine. cbn.
    rewrite Hsm. apply Hgo. }
  destruct (Hfire (with_machine sm2 true h1) m0) as (h3 & Hf3 & Hb3); [done..|].
  set (h2' := OnTransition (with_machine sm2 true h1)).
  assert (∃ m, monitors h2' !! 0%nat = Some m ∧ deadline m = Some (start + DefaultTimeout cfg)
    ∧ finished m = false ∧ cancelled m = true) as (m & Hm & Hd & Hfin & Hcan).
  { exists (cancel m0). split; [|done]. unfold h2', OnTransition, StartTimeout. cbn. rewrite Hon. cbn.
    by destruct (_ <=? 0). }
  assert (config h2' = cfg ∧ stateMachine h2' = sm2 ∧ onTimeout h2' = false) as (? & ? & ?).
  { unfold h2', OnTransition, StartTimeout. cbn. rewrite Hon. cbn. by destruct (_ <=? 0). }
  destruct (Hfire h2' m) as (h3' & Hf3' & Hb3'); [done..|].
  exists h1, (with_machine sm2 true h1), h3, h2', h3'. rewrite H2. split_and!; try done.
  by rewrite Hm; cbn; rewrite Hcan.
Qed.

(** *** Metrics *)
(** Recorded timeouts: clock reading, state and duration. *)
Definition timeout_record : Type := (Z * string * Z).
Definition record_timeouts (xs : list timeout_record) (m : TimeoutMetrics) : TimeoutMetrics :=
  fold_left (λ m x, RecordTimeout x.1.1 x.1.2 x.2 m) xs m.
Definition occurrences (s : string) (xs : list timeout_record) : Z :=
  Z.of_nat (length (filter (λ x, x.1.2 = s) xs)).

Record tracks (xs : list timeout_record) (m : TimeoutMetrics) : Prop := {
  tracks_total : TotalTimeouts m = Z.of_nat (length xs);
  tracks_states : ∀ s, default 0 (TimeoutsByState m !! s) = occurrences s xs;
  tracks_max : MaxTimeoutTime m = foldr Z.max 0 (snd <$> xs);
  tracks_average : xs ≠ [] → ∀ lo hi, Forall (λ x, lo ≤ x.2 ≤ hi) xs → lo ≤ AverageTimeoutTime m ≤ hi;
  tracks_range : 0 ≤ AverageTimeoutTime m < 2 ^ 63
}.

Lemma quot_towards a n : 0 < n → (0 ≤ a → 0 ≤ Z.quot a n ≤ a) ∧ (a ≤ 0 → a ≤ Z.quot a n ≤ 0).
Proof.
  intros Hn. split; intros Ha.
  - split; [by apply Z.quot_pos|]. apply Z.quot_le_upper_bound; nia.
  - assert (Z.quot a n = - Z.quot (- a) n) as -> by (rewrite Z.quot_opp_l by lia; lia).
    assert (0 ≤ Z.quot (- a) n ≤ - a); [|lia].
    split; [apply Z.quot_pos; lia|]. apply Z.quot_le_upper_bound; nia.
Qed.

Lemma occurrences_snoc s xs x :
  occurrences s (xs ++ [x]) = occurrences s xs + (if decide (x.1.2 = s) then 1 else 0).
Proof.
  unfold occurrences. rewrite filter_app, length_app, filter_cons.
  rewrite Nat2Z.inj_add. by repeat case_decide.
Qed.
Lemma occurrences_bound s xs : 0 ≤ occurrences s xs ≤ Z.of_nat (length xs).
Proof. unfold occurrences. split; [lia|]. apply inj_le, length_filter. Qed.

Lemma RecordTimeout_tracks xs x m :
  tracks xs m → Z.of_nat (length (xs ++ [x])) < 2 ^ 63 → 0 ≤ x.2 < 2 ^ 63 →
  tracks (xs ++ [x]) (RecordTimeout x.1.1 x.1.2 x.2 m).
Proof.
  intros [Ht Hs Hm Ha Hr] Hlen Hx. rewrite length_app in Hlen. cbn in Hlen.
  destruct x as [[now s] d]. cbn in *.
  assert (i64 (TotalTimeouts m + 1) = Z.of_nat (length xs + 1)) as Htot by (rewrite i64_small; lia).
  assert (∀ lo hi, 0 ≤ lo → hi < 2 ^ 63 → lo ≤ AverageTimeoutTime m ≤ hi → lo ≤ d ≤ hi →
    0 < Z.of_nat (length xs + 1) →
    lo ≤ i64 (AverageTimeoutTime m + Z.quot (i64 (d - AverageTimeoutTime m)) (Z.of_nat (length xs + 1))) ≤ hi)
    as Havg.
  { intros lo hi Hlo Hhi Hav Hd Hn.
    assert (i64 (d - AverageTimeoutTime m) = d - AverageTimeoutTime m) as ->.
    { unfold i64. rewrite Z.mod_small; lia. }
    destruct (quot_towards (d - AverageTimeoutTime m) _ Hn) as [Hp Hq].
    rewrite i64_small by (destruct (Z.le_ge_cases 0 (d - AverageTimeoutTime m)); lia).
    destruct (Z.le_ge_cases 0 (d - AverageTimeoutTime m)); lia. }
  split; cbn.
  - by rewrite Htot, length_app.
  - intros s'. rewrite occurrences_snoc. specialize (Hs s'). pose proof (occurrences_bound s' xs).
    cbn [fst snd]. destruct (decide (s = s')) as [->|Hne].
    + rewrite lookup_insert_eq, Hs. cbn. rewrite i64_small; lia.
    + rewrite lookup_insert_ne, Hs by done. lia.
  - rewrite Hm, fmap_app, foldr_app. cbn.
    assert (∀ l z, foldr Z.max z l = Z.max z (foldr Z.max 0 l) ∨ z < 0) as Hmax.
    { intros l z. destruct (Z.lt_ge_cases z 0); [by right|left]. induction l; cbn; lia. }
    destruct (Hmax (snd <$> xs) (Z.max d 0)) as [->|]; [|lia].
    destruct (Z.ltb_spec (foldr Z.max 0 (snd <$> xs)) d); lia.
  - intros _ lo hi Hall. rewrite Htot. apply Forall_app in Hall as [Hall Hd].
    apply Forall_cons_1 in Hd as [Hd _]. cbn in Hd.
    destruct (Z.eqb_spec (Z.of_nat (length xs + 1)) 1); [done|].
    assert (xs ≠ []) as Hne by (by intros ->).
    specialize (Ha Hne lo hi Hall).
    enough (Z.max lo 0 ≤ i64 (AverageTimeoutTime m
              + Z.quot (i64 (d - AverageTimeoutTime m)) (Z.of_nat (length xs + 1)))
            ≤ Z.min hi (2 ^ 63 - 1)) by lia.
    apply Havg; lia.
  - rewrite Htot. destruct (Z.eqb_spec (Z.of_nat (length xs + 1)) 1); [lia|].
    enough (0 ≤ i64 (AverageTimeoutTime m
              + Z.quot (i64 (d - AverageTimeoutTime m)) (Z.of_nat (length xs + 1))) ≤ 2 ^ 63 - 1) by lia.
    apply Havg; lia.
Qed.

(** Remark: after any sequence of recorded timeouts the metrics count them, in total
    and per state, their maximum is the longest, and the running average, though
    it truncates at every step, stays between the shortest and the longest; the
    copy handed out is equal. *)
Theorem timeout_metrics_bounds {MR : MapRange} (xs : list timeout_record)
    (Hlen : Z.of_nat (length xs) < 2 ^ 63) (Hd : Forall (λ x, 0 ≤ x.2 < 2 ^ 63) xs) :
  let m := GetMetrics (record_timeouts xs NewTimeoutMetrics) in
  TotalTimeouts m = Z.of_nat (length xs)
  ∧ (∀ s, default 0 (TimeoutsByState m !! s) = occurrences s xs)
  ∧ MaxTimeoutTime m = foldr Z.max 0 (snd <$> xs)
  ∧ (xs ≠ [] → ∀ lo hi, Forall (λ x, lo ≤ x.2 ≤ hi) xs → lo ≤ AverageTimeoutTime m ≤ hi).
Proof.
  cbn. rewrite copy_range.
  assert (tracks xs (record_timeouts xs NewTimeoutMetrics)) as [? ? ? ? _]; [|done].
  induction xs as [|x xs IH] using rev_ind.
  { split; try done; cbn; try lia. }
  unfold record_timeouts. rewrite fold_left_app. cbn.
  pose proof Hd as Hd'. apply Forall_app in Hd' as [Hd1 Hx]. apply Forall_cons_1 in Hx as [Hx _].
  apply RecordTimeout_tracks; [|done|done]. apply IH; [|done].
  rewrite length_app in Hlen. lia.
Qed.

(** ** Concrete instances *)
Definition demo_type : StateType nat := {| type_name := "int"; from_string := λ _, None |}.
(** States 0 (working), 1 (done) and 2 (failed). *)
Definition demo_rules : TransitionRules nat :=
  Some (list_to_map [(0, [1; 2]); (1, [0; 2]); (2, [0])]%nat).
Definition demo_sm : machine nat :=
  mkMachine (mkConfig 0%nat demo_rules None false 10 false "demo") 0%nat 0 [] [] None false None ""
    false (mkPersistence false) [].
Lemma demo_sm_wf : well_formed demo_sm.
Proof. split; vm_compute; [done|lia]. Qed.
Definition demo_timeouts : TimeoutConfig nat := DefaultTimeoutConfig 2%nat.

Lemma at_most_one_timeout_witness :
  let h := StartTimeout (NewTimeoutHandler demo_sm demo_timeouts) in
  (∀ i m, monitors h !! i = Some m → live m → currentTimeout h = Some i)
  ∧ (∀ i m, monitors (StopTimeout h) !! i = Some m → ¬ live m)
  ∧ let s := Current (stateMachine h) in
    let d := default (DefaultTimeout (config h)) (timeouts h !! s) in
    (EnableTimeouts (config h) = true → 0 < d →
       last (monitors (StartTimeout h)) = Some (mkMonitor s d None false false)
       ∧ currentTimeout (StartTimeout h) = Some (length (monitors h)))
    ∧ (EnableTimeouts (config h) = true → d ≤ 0 →
         ∀ i m, monitors (StartTimeout h) !! i = Some m → ¬ live m).
Proof.
  apply (at_most_one_timeout (SK := demo_kind) (TY := demo_type) demo_sm demo_timeouts).
  apply rtc_once, th_start.
Defined.

Lemma handleTimeout_outcome_witness :
  let h := OnTimeout true (NewTimeoutHandler demo_sm demo_timeouts) in
  let sm := stateMachine h in
  let h' := handleTimeout (SK := demo_kind) (TY := demo_type) 5 "t" 0%nat 3 h in
  let goal := match Action (config h) with
              | TimeoutActionTransition => match TargetState (config h) with Target t => Some t | _ => None end
              | TimeoutActionFail => failure_target (TY := demo_type) sm
              | TimeoutActionReset => Some (InitialState (StateMachine.config sm))
              | _ => None
              end in
  callbacks h' = callbacks h ++ (if onTimeout h then [(0%nat, 3)] else [])
  ∧ state (stateMachine h') =
      match goal with Some t => if decide (accepts sm (state sm) t) then t else state sm
                 | None => state sm end.
Proof.
  apply (handleTimeout_outcome (SK := demo_kind) (TY := demo_type) 5 "t" 0%nat 3
           (OnTimeout true (NewTimeoutHandler demo_sm demo_timeouts)) demo_sm_wf).
Defined.

Lemma stale_timeout_fires_witness :
  ∃ h1 h2 h3 h2' h3',
    rtc (th_step (SK := demo_kind) (TY := demo_type))
      (NewTimeoutObserver (NewTimeoutHandler demo_sm demo_timeouts)) h1
    ∧ h2 = transition (SK := demo_kind) (10 ^ 12) "" 1%nat None h1 ∧ state (stateMachine h2) = 1%nat
    ∧ monitor_fire (SK := demo_kind) (TY := demo_type) (10 ^ 12) "" 0 h2 = Some h3
    ∧ state (stateMachine h3) = 2%nat
    ∧ h2' = OnTransition h2 ∧ (m ← monitors h2' !! 0%nat; Some (cancelled m)) = Some true
    ∧ monitor_fire (SK := demo_kind) (TY := demo_type) (10 ^ 12) "" 0 h2' = Some h3'
    ∧ state (stateMachine h3') = 2%nat.
Proof.
  apply (stale_timeout_fires (SK := demo_kind) (TY := demo_type) demo_sm demo_timeouts 1%nat 2%nat 0
           (10 ^ 12) demo_sm_wf); try reflexivity; try (vm_compute; discriminate);
    split; reflexivity.
Defined.

Lemma timeout_metrics_bounds_witness :
  let xs : list timeout_record := [(1, "pulling", 10); (2, "pushing", 40); (3, "pulling", 21)] in
  let m := GetMetrics (H := canonical_range) (record_timeouts xs NewTimeoutMetrics) in
  TotalTimeouts m = Z.of_nat (length xs)
  ∧ (∀ s, default 0 (TimeoutsByState m !! s) = occurrences s xs)
  ∧ MaxTimeoutTime m = foldr Z.max 0 (snd <$> xs)
  ∧ (xs ≠ [] → ∀ lo hi, Forall (λ x, lo ≤ x.2 ≤ hi) xs → lo ≤ AverageTimeoutTime m ≤ hi).
Proof.
  apply (timeout_metrics_bounds (MR := canonical_range)
           [(1, "pulling", 10); (2, "pushing", 40); (3, "pulling", 21)]);
    [reflexivity|]. repeat constructor; discriminate.
Defined.
