(* ===== verification/Observer.v ===== *)
(** * The observable resolver (src/synckit/observer.go)

    A resolver wrapped in hooks and metrics.  Hooks get pointers to the conflict
    and to the resolution, so they may change both; they are functions on a
    state of their own.  The logger is left out. *)
From S2P Require Import Prelude Types Json Errors Versions Resolvers.
From S2P Require StateMachine.
From stdpp Require Import options.

Section observer.
Context {X : Type}.

(** The hooks the wrapper calls; the source declares two more ([OnRuleMatched],
    [OnFallback]) that it never calls. *)
Record ResolutionHooks := mkResolutionHooks {
  OnConflict : option (Conflict → X → outcome (X * Conflict));
  OnResolution : option (ResolvedConflict → Z → X → outcome (X * ResolvedConflict));
  OnError : option (Conflict → error → X → outcome X)
}.
Inductive ResolutionMetric :=
  | RecordResolution (rule group decision : string) (duration : Z) (success : bool)
  | RecordResolutionError (rule group errorType : string)
  | RecordManualReview (reason : string).
(** [metrics] is [Some true] for a collector with the extended methods;
    [wrapped_type] is the [%T] of the resolver. *)
Record ObservableResolver := mkObservable {
  wrapped : Resolver;
  wrapped_type : string;
  metrics : option bool;
  hooks : option ResolutionHooks;
  groupName : string
}.
Inductive ObservableOption :=
  | WithMetricsCollector (mc : option bool) | WithObservableLogger
  | WithResolutionHooks (h : option ResolutionHooks) | WithGroupName (name : string).
Definition apply_option (o : ObservableResolver) (opt : ObservableOption) : ObservableResolver :=
  match opt with
  | WithMetricsCollector mc => mkObservable (wrapped o) (wrapped_type o) mc (hooks o) (groupName o)
  | WithObservableLogger => o
  | WithResolutionHooks h => mkObservable (wrapped o) (wrapped_type o) (metrics o) h (groupName o)
  | WithGroupName n => mkObservable (wrapped o) (wrapped_type o) (metrics o) (hooks o) n
  end.
Definition NewObservableResolver (r : Resolver) (ty : string) (opts : list ObservableOption) : ObservableResolver :=
  fold_left apply_option opts (mkObservable r ty None None "").

(** The dynamic resolver is known by its plain name; neither names a rule. *)
Definition getResolverDetails (ty : string) : string * string :=
  (if bool_decide (ty = "*synckit.DynamicResolver") then "DynamicResolver" else ty, "").
Definition classifyError (e : error) : string :=
  if errors_Is e Canceled then "context_canceled"
  else if errors_Is e DeadlineExceeded then "timeout" else "generic".
Definition getManualReviewReason (r : ResolvedConflict) : string :=
  match Reasons r with reason :: _ => reason | [] => "unknown" end.
Definition extended (o : ObservableResolver) : bool :=
  match metrics o with Some true => true | _ => false end.

Definition error_metrics (o : ObservableResolver) (e : error) (duration : Z) : list ResolutionMetric :=
  if extended o
  then let rule := (getResolverDetails (wrapped_type o)).2 in
       [RecordResolution rule (groupName o) "error" duration false;
        RecordResolutionError rule (groupName o) (classifyError e)]
  else [].
Definition success_metrics (o : ObservableResolver) (r : ResolvedConflict) (duration : Z) : list ResolutionMetric :=
  if extended o
  then RecordResolution (getResolverDetails (wrapped_type o)).2 (groupName o) (Decision_ r) duration true
       :: (if bool_decide (Decision_ r = "manual_review") then [RecordManualReview (getManualReviewReason r)] else [])
  else [].

Definition run_OnConflict (o : ObservableResolver) (c : Conflict) (x : X) : outcome (X * Conflict) :=
  match hooks o ≫= OnConflict with Some f => f c x | None => Done (x, c) end.
(** [start] and [stop] are the clock around the wrapped resolver. *)
Definition Resolve (start stop : Z) (o : ObservableResolver) (ctx : CtxView) (c : Conflict) (x : X)
    : outcome (X * list ResolutionMetric * (ResolvedConflict * option error)) :=
  let* (x, c) := run_OnConflict o c x in
  let* (r, err) := wrapped o ctx c in
  let duration := StateMachine.time_sub stop start in
  match err with
  | Some e =>
      let* x := match hooks o ≫= OnError with Some f => f c e x | None => Done x end in
      Done (x, error_metrics o e duration, (r, err))
  | None =>
      let* (x, r') := match hooks o ≫= OnResolution with Some f => f r duration x | None => Done (x, r) end in
      Done (x, success_metrics o r duration, (r', None))
  end.

(** Hooks that return and leave what they are shown as it is. *)
Record read_only (h : ResolutionHooks) : Prop := {
  ro_conflict : ∀ f c x, OnConflict h = Some f → ∃ x', f c x = Done (x', c);
  ro_resolution : ∀ f r d x, OnResolution h = Some f → ∃ x', f r d x = Done (x', r);
  ro_error : ∀ f c e x, OnError h = Some f → ∃ x', f c e x = Done x'
}.
End observer.
Arguments ResolutionHooks : clear implicits.
Arguments ObservableResolver : clear implicits.

(** What the metrics of one resolution say. *)
Definition is_resolution (success : bool) (m : ResolutionMetric) : bool :=
  match m with RecordResolution _ _ _ _ s => eqb s success | _ => false end.
Definition count_of (success : bool) (ms : list ResolutionMetric) : nat :=
  length (filter (λ m, is_resolution success m = true) ms).

(** Remark: with hooks that only look, the wrapper answers exactly as the resolver it
    wraps, panics included; an extended collector is told of each resolution
    once, as a success or a failure, of the reason when a review is asked for,
    and any other collector of nothing; a hook that changes the conflict or the
    resolution it is shown changes the answer. *)
Theorem observation_transparent {X} (start stop : Z) (o : ObservableResolver X) (ctx : CtxView) (c : Conflict) (x : X)
    (Hro : ∀ h, hooks o = Some h → read_only h) :
  match wrapped o ctx c with
  | Panic why => Resolve start stop o ctx c x = Panic why
  | Done (r, err) =>
      ∃ x' ms, Resolve start stop o ctx c x = Done (x', ms, (r, err))
        ∧ count_of true ms = (if extended o && bool_decide (err = None) then 1 else 0)%nat
        ∧ count_of false ms = (if extended o && negb (bool_decide (err = None)) then 1 else 0)%nat
        ∧ (extended o = false → ms = [])
        ∧ ∀ h r2 x2, hooks o = Some h → err = None →
            let h2 := mkResolutionHooks (OnConflict h) (Some (λ _ _ _, Done (x2, r2))) (OnError h) in
            Resolve start stop (mkObservable (wrapped o) (wrapped_type o) (metrics o) (Some h2) (groupName o)) ctx c x
            = Done (x2, ms, (r2, None))
  end.
Proof.
  assert (∃ x1, run_OnConflict o c x = Done (x1, c)) as [x1 Hx1].
  { unfold run_OnConflict. destruct (hooks o) as [h|] eqn:Hh; cbn; [|by eexists].
    destruct (OnConflict h) as [f|] eqn:Hf; [|by eexists]. by apply (ro_conflict h (Hro h eq_refl) f). }
  destruct (wrapped o ctx c) as [[r err]|why] eqn:Hw; unfold Resolve; rewrite Hx1; cbn [obind]; rewrite Hw; [|done].
  cbn [obind]. destruct err as [e|].
  - assert (∃ x2, match hooks o ≫= OnError with Some f => f c e x1 | None => Done x1 end = Done x2) as [x2 ->].
    { destruct (hooks o) as [h|] eqn:Hh; cbn; [|by eexists].
      destruct (OnError h) as [f|] eqn:Hf; [|by eexists]. by apply (ro_error h (Hro h eq_refl) f). }
    cbn [obind]. eexists _, _. split; [reflexivity|]. rewrite bool_decide_false by done.
    unfold error_metrics. destruct (extended o); by split_and!.
  - assert (∃ x2, match hooks o ≫= OnResolution with Some f => f r (StateMachine.time_sub stop start) x1 | None => Done (x1, r) end
                  = Done (x2, r)) as [x2 ->].
    { destruct (hooks o) as [h|] eqn:Hh; cbn; [|by eexists].
      destruct (OnResolution h) as [f|] eqn:Hf; [|by eexists]. by apply (ro_resolution h (Hro h eq_refl) f). }
    cbn [obind]. eexists _, _. split; [reflexivity|]. rewrite (bool_decide_true (None = None)) by done.
    assert (∀ so, so = success_metrics o r (StateMachine.time_sub stop start) →
      count_of true so = (if extended o && true then 1 else 0)%nat ∧ count_of false so = (if extended o && negb true then 1 else 0)%nat
      ∧ (extended o = false → so = [])) as Hms.
    { intros so ->. unfold success_metrics. destruct (extended o); [|done]. by case_bool_decide; split_and!. }
    destruct (Hms _ eq_refl) as (H1 & H2 & H3). split_and!; [done..|].
    intros h r2 x3 Hh _. unfold run_OnConflict in *. cbn. rewrite Hh in Hx1. cbn in Hx1.
    rewrite Hx1. cbn [obind]. rewrite Hw. reflexivity.
Qed.

Lemma observation_transparent_witness :
  let o := NewObservableResolver (λ _ _, Done (mkResolved [] "manual_review" ["field a"], None)) "*synckit.ManualReview"
             [WithMetricsCollector (Some true); WithGroupName "orders"] in
  ∃ ms, Resolve 5 9 o background (mkConflict "t" "a" [] None zero_ewv zero_ewv) ()
        = Done ((), ms, (mkResolved [] "manual_review" ["field a"], None))
    ∧ count_of true ms = 1%nat.
Proof.
  cbn zeta. destruct (observation_transparent 5 9
    (NewObservableResolver (λ _ _, Done (mkResolved [] "manual_review" ["field a"], None)) "*synckit.ManualReview"
             [WithMetricsCollector (Some true); WithGroupName "orders"])
    background (mkConflict "t" "a" [] None zero_ewv zero_ewv) ()) as ([] & ms & Hrun & Hs & _).
  - by intros h [=].
  - exists ms. split; [exact Hrun|exact Hs].
Defined.
