(* ===== verification/Memento.v ===== *)
(** * Audit trails of resolutions (src/synckit/memento.go)

    The record of a resolution, the in-memory caretaker that keeps deep copies of
    them, the resolver that writes one for every conflict, and the analysis of a
    rollback.  A deep copy goes through JSON, which is a parameter; a time is
    its nanoseconds; the logger is left out. *)
From S2P Require Import Prelude Types Json Errors Versions Resolvers.
From S2P Require StateMachine.
From stdpp Require Import options.

(** ** Records of resolutions *)
Record ConflictState := mkState {
  st_AggregateID : string; st_EventType : string; LocalVersion : string; RemoteVersion : string;
  LocalData : any; RemoteData : any; ResolvedData : any; st_Metadata : gomap any
}.
Record ResolutionMemento := mkMemento {
  m_ID : string;
  Timestamp : Z;
  EventType : string; m_AggregateID : string; ChangedFields : list string; m_Metadata : gomap any;
  m_Decision : string; m_Reasons : list string;
  ResolverName : string; RuleName : string; GroupName : string; m_Context : gmap string any;
  UserID : string; SessionID : string; Origin : string;
  ResolutionDuration : Z;
  BeforeState : option ConflictState;
  AfterState : option ConflictState;
  OriginalConflict : option Conflict;               (* not serialised *)
  m_Resolved : ResolvedConflict                     (* not serialised *)
}.
Record MementoCriteria := mkCriteria {
  cr_AggregateID : string; cr_UserID : string; cr_ResolverName : string; cr_GroupName : string;
  FromTime : option Z; ToTime : option Z; cr_Limit : Z; Offset : Z
}.

(** json.Marshal and json.Unmarshal, one after the other. *)
Class MementoJSON := {
  Raw : Type;
  Marshal : ResolutionMemento → result error Raw;
  Unmarshal : Raw → result error ResolutionMemento
}.
Definition deep_copy {J : MementoJSON} (m : ResolutionMemento) : result error ResolutionMemento :=
  match Marshal m with
  | Err e => Err (ErrWrap "failed to serialize memento" e)
  | Ok raw => match Unmarshal raw with
              | Err e => Err (ErrWrap "failed to deserialize memento" e)
              | Ok c => Ok c
              end
  end.

(** ** Caretakers *)
Class MementoCaretaker (C : Type) := {
  Save : CtxView → ResolutionMemento → C → C * option error;
  Get : CtxView → string → C → result error ResolutionMemento;
  List : CtxView → option MementoCriteria → C → result error (list ResolutionMemento);
  Delete : CtxView → string → C → C * option error;
  GetAuditTrail : CtxView → string → C → result error (list ResolutionMemento)
}.

Section memory.
Context {J : MementoJSON} {MR : MapRange}.

Record InMemoryMementoCaretaker := mkCaretaker { mementos : gmap string ResolutionMemento }.
Definition NewInMemoryMementoCaretaker : InMemoryMementoCaretaker := mkCaretaker ∅.
Definition not_found (id : string) : error := ErrMsg ("memento with ID " +:+ id +:+ " not found").

Definition mem_Save (m : ResolutionMemento) (c : InMemoryMementoCaretaker)
    : InMemoryMementoCaretaker * option error :=
  if bool_decide (m_ID m = "") then (c, Some (ErrMsg "memento ID cannot be empty"))
  else match deep_copy m with
       | Err e => (c, Some e)
       | Ok copy => (mkCaretaker (<[m_ID m := copy]> (mementos c)), None)
       end.
Definition mem_Get (id : string) (c : InMemoryMementoCaretaker) : result error ResolutionMemento :=
  match mementos c !! id with None => Err (not_found id) | Some m => deep_copy m end.

Definition matchesCriteria (m : ResolutionMemento) (cr : option MementoCriteria) : bool :=
  match cr with
  | None => true
  | Some cr =>
      let differs want got := negb (bool_decide (want = "")) && negb (bool_decide (got = want)) in
      if differs (cr_AggregateID cr) (m_AggregateID m) then false
      else if differs (cr_UserID cr) (UserID m) then false
      else if differs (cr_ResolverName cr) (ResolverName m) then false
      else if differs (cr_GroupName cr) (GroupName m) then false
      else if (match FromTime cr with Some t => Timestamp m <? t | None => false end) then false
      else if (match ToTime cr with Some t => t <? Timestamp m | None => false end) then false
      else true
  end.
(** The loop over the map; a memento that cannot be copied is skipped. *)
Definition collect (cr : option MementoCriteria) (l : list (string * ResolutionMemento)) : list ResolutionMemento :=
  omap (λ km, if matchesCriteria km.2 cr
              then match deep_copy km.2 with Ok c => Some c | Err _ => None end
              else None) l.
Definition window (cr : option MementoCriteria) (l : list ResolutionMemento) : list ResolutionMemento :=
  match cr with
  | None => l
  | Some cr =>
      let l := if (0 <? Offset cr) && (Offset cr <? Z.of_nat (length l)) then drop (Z.to_nat (Offset cr)) l else l in
      if (0 <? cr_Limit cr) && (cr_Limit cr <? Z.of_nat (length l)) then take (Z.to_nat (cr_Limit cr)) l else l
  end.
Definition mem_List (cr : option MementoCriteria) (c : InMemoryMementoCaretaker)
    : result error (list ResolutionMemento) :=
  Ok (window cr (collect cr (range (mementos c)))).
Definition mem_Delete (id : string) (c : InMemoryMementoCaretaker) : InMemoryMementoCaretaker * option error :=
  match mementos c !! id with
  | None => (c, Some (not_found id))
  | Some _ => (mkCaretaker (delete id (mementos c)), None)
  end.
Definition mem_GetAuditTrail (aggregateID : string) (c : InMemoryMementoCaretaker)
    : result error (list ResolutionMemento) :=
  mem_List (Some (mkCriteria aggregateID "" "" "" None None 0 0)) c.
#[global] Instance memory_Caretaker : MementoCaretaker InMemoryMementoCaretaker := {|
  Save := λ _, mem_Save; Get := λ _, mem_Get; List := λ _, mem_List; Delete := λ _, mem_Delete;
  GetAuditTrail := λ _, mem_GetAuditTrail
|}.
End memory.

(** ** The auditable resolver *)
Section auditable.
Context {C : Type} {MC : MementoCaretaker C}.

Abbreviation extractor := (option (CtxView → string)).
(** [wrapped_type] is the [%T] of the resolver. *)
Record AuditableResolver := mkAuditable {
  wrapped : Resolver; wrapped_type : string; caretaker : C;
  userIDExtractor : extractor; sessionIDExtractor : extractor; originExtractor : extractor
}.
Inductive AuditableOption :=
  | WithAuditLogger | WithUserIDExtractor (f : extractor) | WithSessionIDExtractor (f : extractor)
  | WithOriginExtractor (f : extractor).
Definition apply_option (ar : AuditableResolver) (o : AuditableOption) : AuditableResolver :=
  let '(mkAuditable w t c u s g) := ar in
  match o with
  | WithAuditLogger => ar
  | WithUserIDExtractor f => mkAuditable w t c f s g
  | WithSessionIDExtractor f => mkAuditable w t c u f g
  | WithOriginExtractor f => mkAuditable w t c u s f
  end.
Definition NewAuditableResolver (r : Resolver) (ty : string) (c : C) (opts : list AuditableOption)
    : AuditableResolver := fold_left apply_option opts (mkAuditable r ty c None None None).
Definition with_caretaker (c : C) (ar : AuditableResolver) : AuditableResolver :=
  mkAuditable (wrapped ar) (wrapped_type ar) c (userIDExtractor ar) (sessionIDExtractor ar) (originExtractor ar).

Definition generateMementoID (now : Z) : string := "memento_" +:+ format_int now.
Definition version_text (ev : EventWithVersion) : outcome string :=
  let* v := deref (ev_version ev) in version_String v.
Definition before_state (c : Conflict) : outcome ConflictState :=
  let* lv := version_text (c_Local c) in
  let* rv := version_text (c_Remote c) in
  let* le := deref (ev_event (c_Local c)) in
  let* re := deref (ev_event (c_Remote c)) in
  Done (mkState (c_AggregateID c) (c_EventType c) lv rv (Data le) (Data re) AnyNil (c_Metadata c)).
Definition after_state (c : Conflict) (before : ConflictState) (r : ResolvedConflict)
    : outcome (option ConflictState) :=
  match ResolvedEvents r with
  | [] => Done None
  | ev :: _ =>
      let* e := deref (ev_event ev) in
      Done (Some (mkState (c_AggregateID c) "" (LocalVersion before) (RemoteVersion before) AnyNil AnyNil
                    (Data e) (c_Metadata c)))
  end.
(** The four readings of the clock: the start, the end of the resolution, the
    identifier, the timestamp. *)
Record Clock := mkClock { c_start : Z; c_stop : Z; c_id : Z; c_stamp : Z }.
Definition extract (f : extractor) (ctx : CtxView) : string := match f with Some f => f ctx | None => "" end.

Definition make_memento (t : Clock) (ar : AuditableResolver) (ctx : CtxView) (c : Conflict)
    (before : ConflictState) (r : ResolvedConflict) (err : option error) : outcome ResolutionMemento :=
  let memento decision reasons context after resolved :=
    mkMemento (generateMementoID (c_id t)) (c_stamp t) (c_EventType c) (c_AggregateID c) (c_ChangedFields c)
      (c_Metadata c) decision reasons (wrapped_type ar) "" "" context
      (extract (userIDExtractor ar) ctx) (extract (sessionIDExtractor ar) ctx) (extract (originExtractor ar) ctx)
      (StateMachine.time_sub (c_stop t) (c_start t)) (Some before) after (Some c) resolved in
  match err with
  | Some e =>
      Done (memento "" [] {["error" := AnyString (error_string e); "success" := AnyBool false]} None no_resolution)
  | None =>
      let* after := after_state c before r in
      Done (memento (Decision_ r) (Reasons r) {["success" := AnyBool true]} after r)
  end.
(** A failed save is only logged. *)
Definition Resolve (t : Clock) (ar : AuditableResolver) (ctx : CtxView) (c : Conflict)
    : outcome (AuditableResolver * (ResolvedConflict * option error)) :=
  let* before := before_state c in
  let* (r, err) := wrapped ar ctx c in
  let* m := make_memento t ar ctx c before r err in
  let '(care, _) := Save ctx m (caretaker ar) in
  Done (with_caretaker care ar, (r, err)).
Definition Auditable_GetAuditTrail (ctx : CtxView) (aggregateID : string) (ar : AuditableResolver)
    : result error (list ResolutionMemento) := GetAuditTrail ctx aggregateID (caretaker ar).

(** ** Rollback analysis *)
Record RollbackAnalysis := mkAnalysis {
  TargetMemento : ResolutionMemento;
  AffectedResolutions : list ResolutionMemento;
  RollbackComplexity : string;
  RequiresReprocessing : bool;
  Warnings : list string
}.
Definition calculateComplexity (affected : list ResolutionMemento) : string :=
  match affected with
  | [] => "simple"
  | _ => if Nat.leb (length affected) 3 then "moderate" else "complex"
  end.
Definition AnalyzeRollback (ctx : CtxView) (id : string) (c : C) : result error RollbackAnalysis :=
  match Get ctx id c with
  | Err e => Err (ErrWrap "failed to get memento" e)
  | Ok m =>
      match GetAuditTrail ctx (m_AggregateID m) c with
      | Err e => Err (ErrWrap "failed to get audit trail" e)
      | Ok trail =>
          let affected := filter (λ o, Timestamp m < Timestamp o) trail in
          Ok (mkAnalysis m affected (calculateComplexity affected)
                (negb (bool_decide (length affected = 0%nat))) [])
      end
  end.
End auditable.
Arguments AuditableResolver : clear implicits.

(** ** Laws of the deep copy

    A copyable memento has texts that JSON keeps; what a copy loses is the same
    every time. *)
Class MementoLaws (J : MementoJSON) := {
  copyable : ResolutionMemento → Prop;
  norm : ResolutionMemento → ResolutionMemento;
  copy_law : ∀ m, copyable m → deep_copy m = Ok (norm m);
  norm_copyable : ∀ m, copyable m → copyable (norm m);
  norm_norm : ∀ m, copyable m → norm (norm m) = norm m;
  norm_keeps : ∀ m, copyable m →
    (m_ID (norm m), Timestamp (norm m), m_AggregateID (norm m), m_Decision (norm m))
    = (m_ID m, Timestamp m, m_AggregateID m, m_Decision m)
    ∧ (UserID (norm m), ResolverName (norm m), GroupName (norm m)) = (UserID m, ResolverName m, GroupName m)
}.

Section facts.
Context {J : MementoJSON} {L : MementoLaws J} {MR : MapRange}.
Implicit Types (c : InMemoryMementoCaretaker) (m : ResolutionMemento).

(** Copies, under their identifiers. *)
Definition caretaker_inv c : Prop :=
  ∀ k m, mementos c !! k = Some m → m_ID m = k ∧ copyable m ∧ norm m = m.
Definition saved c : list ResolutionMemento := (range (mementos c)).*2.

Lemma elem_of_saved c m : m ∈ saved c ↔ ∃ k, mementos c !! k = Some m.
Proof.
  unfold saved. rewrite list_elem_of_fmap. split.
  - intros ([k m'] & -> & Hin). exists k. by apply elem_of_range.
  - intros [k Hk]. exists (k, m). split; [done|]. by apply elem_of_range.
Qed.
Lemma collect_saved cr l :
  Forall (λ m, copyable m ∧ norm m = m) l.*2 → collect cr l = filter (λ m, matchesCriteria m cr = true) l.*2.
Proof using L.
  induction l as [|[k m] l IH]; intros Hl; [done|]. cbn [fmap list_fmap snd] in *.
  apply Forall_cons in Hl as [[Hc Hn] Hl]. rewrite filter_cons. unfold collect. cbn [omap list_omap snd].
  destruct (matchesCriteria m cr).
  - rewrite (copy_law m Hc), Hn, decide_True by done. f_equal. by apply IH.
  - rewrite decide_False by done. by apply IH.
Qed.
Lemma inv_saved c : caretaker_inv c → Forall (λ m, copyable m ∧ norm m = m) (saved c).
Proof. intros Hi. apply Forall_forall. intros m [k Hk]%elem_of_saved. by apply (Hi k). Qed.
Lemma List_saved cr c : caretaker_inv c →
  mem_List cr c = Ok (window cr (filter (λ m, matchesCriteria m cr = true) (saved c))).
Proof using L. intros Hi. unfold mem_List. by rewrite collect_saved by (by apply (inv_saved c)). Qed.
Lemma New_caretaker_inv : caretaker_inv NewInMemoryMementoCaretaker.
Proof. intros k m Hk. cbn in Hk. by rewrite lookup_empty in Hk. Qed.
Lemma Save_ok m c : m_ID m ≠ "" → copyable m → caretaker_inv c →
  mem_Save m c = (mkCaretaker (<[m_ID m := norm m]> (mementos c)), None)
  ∧ caretaker_inv (mkCaretaker (<[m_ID m := norm m]> (mementos c))).
Proof using L.
  intros Hid Hc Hi. unfold mem_Save. rewrite bool_decide_false, (copy_law m Hc) by done. split; [done|].
  intros k x Hx. cbn in Hx. apply lookup_insert_Some in Hx as [[<- <-]|[_ Hx]]; [|by apply Hi]. split_and!.
  - pose proof (norm_keeps m Hc) as [Hk _]. congruence.
  - by apply norm_copyable.
  - by apply norm_norm.
Qed.
Lemma Delete_inv id c : caretaker_inv c → caretaker_inv (mem_Delete id c).1.
Proof.
  intros Hi. unfold mem_Delete. destruct (mementos c !! id); [|done].
  intros k m Hm. cbn in Hm. apply lookup_delete_Some in Hm as [_ Hm]. by apply Hi.
Qed.

(** The mementos kept, in some order. *)
Definition stored c : list ResolutionMemento := (map_to_list (mementos c)).*2.
Lemma saved_stored c : saved c ≡ₚ stored c.
Proof. unfold saved, stored. by rewrite (range_perm (mementos c)). Qed.
Lemma stored_insert m c : mementos c !! m_ID m = None →
  stored (mkCaretaker (<[m_ID m := norm m]> (mementos c))) ≡ₚ norm m :: stored c.
Proof. intros Hn. unfold stored. cbn. by rewrite map_to_list_insert by done. Qed.

(** The criteria of an audit trail: the empty aggregate stands for all. *)
Definition in_trail (agg : string) m : Prop := agg = "" ∨ m_AggregateID m = agg.
#[global] Instance in_trail_dec agg m : Decision (in_trail agg m).
Proof. unfold in_trail. apply _. Defined.
Lemma matches_trail agg m :
  matchesCriteria m (Some (mkCriteria agg "" "" "" None None 0 0)) = true ↔ in_trail agg m.
Proof.
  unfold matchesCriteria, in_trail. cbn [cr_AggregateID cr_UserID cr_ResolverName cr_GroupName FromTime ToTime].
  rewrite (bool_decide_true ("" = "")) by done. cbn [negb andb].
  destruct (decide (agg = "")) as [->|Ha]; [rewrite (bool_decide_true ("" = "")) by done; cbn; tauto|].
  rewrite (bool_decide_false (agg = "")) by done. cbn. case_bool_decide; cbn; naive_solver.
Qed.
Lemma trail_stored agg c : caretaker_inv c →
  ∃ l, mem_GetAuditTrail agg c = Ok l ∧ l ≡ₚ filter (in_trail agg) (stored c).
Proof using L.
  intros Hi. unfold mem_GetAuditTrail. rewrite List_saved by done. eexists. split; [reflexivity|].
  unfold window. cbn [Offset cr_Limit]. change (0 <? 0) with false. cbn [andb].
  rewrite <-saved_stored.
  rewrite (filter_ext_elem _ (in_trail agg)); [done|]. intros m _. apply matches_trail.
Qed.

(** ** What the auditable resolver writes *)
Context (ctx : CtxView).
Implicit Types (ar : AuditableResolver InMemoryMementoCaretaker) (t : Clock).

(** The memento of a conflict, when there is one. *)
Definition record_of ar (tc : Clock * Conflict) : option (ResolutionMemento * (ResolvedConflict * option error)) :=
  match before_state tc.2 with
  | Panic _ => None
  | Done before =>
      match wrapped ar ctx tc.2 with
      | Panic _ => None
      | Done (r, err) =>
          match make_memento tc.1 ar ctx tc.2 before r err with
          | Done m => Some (m, (r, err))
          | Panic _ => None
          end
      end
  end.
Lemma Resolve_records ar t (c0 : Conflict) m ans : record_of ar (t, c0) = Some (m, ans) →
  m_ID m ≠ "" → copyable m → caretaker_inv (caretaker ar) →
  let care := mkCaretaker (<[m_ID m := norm m]> (mementos (caretaker ar))) in
  Resolve t ar ctx c0 = Done (with_caretaker care ar, ans) ∧ caretaker_inv care.
Proof using L.
  intros Hr Hid Hc Hi. unfold record_of in Hr. unfold Resolve. cbn [fst snd] in Hr.
  destruct (before_state c0) as [before|]; [|done]. cbn [obind].
  destruct (wrapped ar ctx c0) as [[r err]|]; [|done]. cbn [obind].
  destruct (make_memento t ar ctx c0 before r err) as [m'|]; [|done]. injection Hr as -> <-. cbn [obind].
  cbn [Save memory_Caretaker]. destruct (Save_ok m (caretaker ar) Hid Hc Hi) as [-> Hi']. by split.
Qed.
Lemma record_of_caretaker ar care tc : record_of (with_caretaker care ar) tc = record_of ar tc.
Proof. done. Qed.
Lemma record_ID ar tc m ans : record_of ar tc = Some (m, ans) → m_ID m = generateMementoID (c_id tc.1).
Proof.
  unfold record_of. destruct (before_state tc.2); [|done]. destruct (wrapped ar ctx tc.2) as [[r err]|]; [|done].
  unfold make_memento. destruct err as [e|].
  - by intros [= <- _].
  - destruct (after_state tc.2 _ r); [|done]. cbn. by intros [= <- _].
Qed.
Lemma generateMementoID_inj n k : 0 ≤ n < 2 ^ 63 → 0 ≤ k < 2 ^ 63 → generateMementoID n = generateMementoID k → n = k.
Proof.
  unfold generateMementoID. intros Hn Hk He. injection He as He. revert He. unfold format_int.
  destruct (Z.ltb_spec n 0), (Z.ltb_spec k 0); try lia. apply format_uint_inj; unfold is_u64, u64_modulus; lia.
Qed.

Fixpoint resolve_all ar (l : list (Clock * Conflict))
    : outcome (AuditableResolver InMemoryMementoCaretaker * list (ResolvedConflict * option error)) :=
  match l with
  | [] => Done (ar, [])
  | (t, c0) :: rest =>
      let* (ar, ans) := Resolve t ar ctx c0 in
      let* (ar, answers) := resolve_all ar rest in
      Done (ar, ans :: answers)
  end.
Lemma resolve_all_records ar l (recs : list (ResolutionMemento * (ResolvedConflict * option error))) :
  Forall2 (λ tc r, record_of ar tc = Some r) l recs → Forall (λ r, copyable r.1) recs →
  NoDup (c_id ∘ fst <$> l) → Forall (λ tc, 0 ≤ c_id tc.1 < 2 ^ 63) l →
  (∀ tc, tc ∈ l → mementos (caretaker ar) !! generateMementoID (c_id tc.1) = None) →
  caretaker_inv (caretaker ar) →
  ∃ care, resolve_all ar l = Done (with_caretaker care ar, recs.*2) ∧ caretaker_inv care
    ∧ stored care ≡ₚ (norm <$> recs.*1) ++ stored (caretaker ar).
Proof using L.
  intros Hrecs. revert ar Hrecs. induction l as [|[t c0] l IH] in recs |- *; intros ar Hrecs Hcp Hnd Hrange Hfresh Hi.
  { apply Forall2_nil_inv_l in Hrecs as ->. exists (caretaker ar). by destruct ar. }
  apply Forall2_cons_inv_l in Hrecs as ([m ans] & recs' & Hr & Hrecs & ->).
  apply Forall_cons in Hcp as [Hc Hcp]. apply Forall_cons in Hrange as [Ht Hrange].
  cbn in Hnd. apply NoDup_cons in Hnd as [Hnew Hnd]. cbn in Ht, Hc.
  pose proof (record_ID _ _ _ _ Hr) as Hid. cbn in Hid.
  assert (m_ID m ≠ "") as Hne by (by rewrite Hid).
  destruct (Resolve_records ar t c0 m ans Hr Hne Hc Hi) as [Hrun Hi'].
  cbn [resolve_all]. rewrite Hrun. cbn [obind].
  set (care := mkCaretaker _) in *.
  destruct (IH recs' (with_caretaker care ar)) as (care' & Hrest & Hi2 & Hst); try done.
  - intros tc Htc. cbn. rewrite lookup_insert_ne; [apply Hfresh; by right|].
    rewrite Hid. intros He. apply generateMementoID_inj in He; [|done|by eapply (proj1 (Forall_forall _ l) Hrange tc)].
    apply Hnew. rewrite He. by apply (list_elem_of_fmap_2 (c_id ∘ fst)).
  - exists care'. rewrite Hrest. split; [done|]. split; [done|]. rewrite Hst. cbn.
    unfold care. rewrite stored_insert; [|rewrite Hid; apply (Hfresh (t, c0)); by left].
    by rewrite Permutation_middle.
Qed.
End facts.

(** Remark: whatever conflicts are resolved at distinct nanoseconds, every answer is the
    wrapped resolver's, and the audit trail of an aggregate then lists, in some
    order, exactly what it listed before and one memento for each of its
    conflicts, failures included; the empty name lists all of them. *)
Theorem audit_trail_complete {J : MementoJSON} {L : MementoLaws J} {MR : MapRange} (ctx : CtxView)
    (ar : AuditableResolver InMemoryMementoCaretaker) (l : list (Clock * Conflict))
    (recs : list (ResolutionMemento * (ResolvedConflict * option error)))
    (Hrecs : Forall2 (λ tc r, record_of ctx ar tc = Some r) l recs)
    (Hcopy : Forall (λ r, copyable r.1) recs)
    (Hdistinct : NoDup (c_id ∘ fst <$> l)) (Hrange : Forall (λ tc, 0 ≤ c_id tc.1 < 2 ^ 63) l)
    (Hfresh : ∀ tc, tc ∈ l → mementos (caretaker ar) !! generateMementoID (c_id tc.1) = None)
    (Hinv : caretaker_inv (caretaker ar)) (agg : string) :
  ∃ ar' trail before, resolve_all ctx ar l = Done (ar', recs.*2)
    ∧ Auditable_GetAuditTrail ctx agg ar = Ok before
    ∧ Auditable_GetAuditTrail ctx agg ar' = Ok trail
    ∧ trail ≡ₚ filter (in_trail agg) (norm <$> recs.*1) ++ before.
Proof.
  destruct (resolve_all_records ctx ar l recs Hrecs Hcopy Hdistinct Hrange Hfresh Hinv) as (care & Hrun & Hi & Hst).
  destruct (trail_stored agg (caretaker ar) Hinv) as (before & Hb & Hpb).
  destruct (trail_stored agg care Hi) as (trail & Htr & Hpt).
  exists (with_caretaker care ar), trail, before. split_and!; [exact Hrun|exact Hb|exact Htr|].
  by rewrite Hpt, Hst, filter_app, Hpb.
Qed.

(** Remark: the analysis of a rollback names exactly the mementos of the same aggregate
    that are strictly later than the target (of all aggregates when the target
    has none), calls it simple, moderate or complex for none, up to three and
    more of them, and fails exactly when the target is not kept. *)
Theorem rollback_exact {J : MementoJSON} {L : MementoLaws J} {MR : MapRange} (ctx : CtxView) (id : string)
    (c : InMemoryMementoCaretaker) (Hinv : caretaker_inv c) :
  match mementos c !! id with
  | None => ∃ e, AnalyzeRollback ctx id c = Err e
  | Some m =>
      ∃ affected, AnalyzeRollback ctx id c
        = Ok (mkAnalysis m affected (calculateComplexity affected) (bool_decide (affected ≠ [])) [])
      ∧ affected ≡ₚ filter (λ o, in_trail (m_AggregateID m) o ∧ Timestamp m < Timestamp o) (stored c)
      ∧ (calculateComplexity affected = "simple" ↔ affected = [])
      ∧ (calculateComplexity affected = "complex" ↔ (3 < length affected)%nat)
  end.
Proof.
  unfold AnalyzeRollback. cbn [Get GetAuditTrail memory_Caretaker]. unfold mem_Get.
  destruct (mementos c !! id) as [m|] eqn:Hm; [|by eexists].
  destruct (Hinv id m Hm) as (_ & Hc & Hn). rewrite (copy_law m Hc), Hn.
  destruct (trail_stored (m_AggregateID m) c Hinv) as (trail & -> & Hp).
  set (affected := filter _ trail). exists affected. split_and!.
  - do 2 f_equal. generalize affected. by intros [|??].
  - unfold affected. rewrite Hp, list_filter_filter.
    rewrite (filter_ext_elem _ (λ o, in_trail (m_AggregateID m) o ∧ Timestamp m < Timestamp o)); [done|].
    intros o _. tauto.
  - generalize affected. clear. intros [|x affected]; [done|]. unfold calculateComplexity.
    destruct (Nat.leb_spec (length (x :: affected)) 3); split; done.
  - generalize affected. clear. intros [|x affected]; [cbn; split; [done|lia]|]. unfold calculateComplexity.
    destruct (Nat.leb_spec (length (x :: affected)) 3); split; (done || lia).
Qed.

(** Remark: a listing gives the matching mementos in an order the map chooses anew, cut
    to its window: nothing else, all of them when no limit is set, and all of
    them again when the offset is past the end. *)
Theorem List_exact {J : MementoJSON} {L : MementoLaws J} {MR : MapRange} (cr : MementoCriteria)
    (c : InMemoryMementoCaretaker) (Hinv : caretaker_inv c) :
  ∃ l r, mem_List (Some cr) c = Ok r
    ∧ l ≡ₚ filter (λ m, matchesCriteria m (Some cr) = true) (stored c)
    ∧ r `sublist_of` l
    ∧ (cr_Limit cr ≤ 0 → Offset cr ≤ 0 ∨ Z.of_nat (length l) ≤ Offset cr → r = l)
    ∧ (0 < cr_Limit cr → Z.of_nat (length r) ≤ Z.max (cr_Limit cr) 0).
Proof.
  rewrite List_saved by done. eexists _, _. split; [reflexivity|].
  split; [by rewrite <-saved_stored|].
  set (l := filter _ (saved c)). unfold window.
  set (l' := if (0 <? Offset cr) && _ then _ else l).
  assert (l' `sublist_of` l) as Hl' by (unfold l'; destruct (_ && _); [apply sublist_drop|done]).
  split_and!.
  - clearbody l'. case_match; [|exact Hl']. etrans; [apply sublist_take|exact Hl'].
  - intros Hlim Hoff. assert (0 <? cr_Limit cr = false) as -> by (apply Z.ltb_ge; lia). cbn [andb].
    unfold l'. destruct (Z.ltb_spec 0 (Offset cr)), (Z.ltb_spec (Offset cr) (Z.of_nat (length l))); cbn; (done || lia).
  - intros Hpos. assert (0 <? cr_Limit cr = true) as -> by (by apply Z.ltb_lt). cbn [andb].
    destruct (Z.ltb_spec (cr_Limit cr) (Z.of_nat (length l'))); [rewrite length_take; lia|lia].
Qed.

(** ** Concrete instances: a copy that only loses the fields JSON skips *)
Definition serialised (m : ResolutionMemento) : ResolutionMemento :=
  mkMemento (m_ID m) (Timestamp m) (EventType m) (m_AggregateID m) (ChangedFields m) (m_Metadata m)
    (m_Decision m) (m_Reasons m) (ResolverName m) (RuleName m) (GroupName m) (m_Context m) (UserID m)
    (SessionID m) (Origin m) (ResolutionDuration m) (BeforeState m) (AfterState m) None no_resolution.
#[local] Instance demo_json : MementoJSON := {| Raw := ResolutionMemento; Marshal := λ m, Ok m; Unmarshal := λ m, Ok (serialised m) |}.
#[local] Program Instance demo_laws : MementoLaws demo_json := {| copyable := λ _, True; norm := serialised |}.
Next Obligation. done. Qed.
Next Obligation. done. Qed.
Next Obligation. done. Qed.
Next Obligation. done. Qed.
#[local] Instance demo_range : MapRange := canonical_range.

Definition demo_side (n : Z) : EventWithVersion :=
  mkEWV (Some (mkEvent "e" "Updated" "order-1" (AnyInt n) None)) (Some (IntegerCursor n)).
Definition demo_conflict : Conflict := mkConflict "Updated" "order-1" ["total"] None (demo_side 1) (demo_side 2).
Definition demo_auditable : AuditableResolver InMemoryMementoCaretaker :=
  NewAuditableResolver (λ _ c, Done (mkResolved [c_Remote c] "keep_remote" ["newer"], None)) "*synckit.LastWriteWinsResolver"
    NewInMemoryMementoCaretaker [WithUserIDExtractor (Some (λ _, "alice"))].
Definition demo_clocks : list (Clock * Conflict) :=
  [(mkClock 10 11 12 13, demo_conflict); (mkClock 20 21 22 23, demo_conflict)].
Definition demo_records : list (ResolutionMemento * (ResolvedConflict * option error)) :=
  omap (record_of background demo_auditable) demo_clocks.

Lemma audit_trail_complete_witness :
  ∃ ar' trail, resolve_all background demo_auditable demo_clocks = Done (ar', demo_records.*2)
    ∧ Auditable_GetAuditTrail background "order-1" ar' = Ok trail
    ∧ trail ≡ₚ (serialised <$> demo_records.*1) ∧ length trail = 2%nat.
Proof.
  destruct (audit_trail_complete background demo_auditable demo_clocks demo_records)
    with (agg := "order-1") as (ar' & trail & before & Hrun & Hb & Htr & Hp).
  - by repeat constructor.
  - by apply Forall_forall.
  - apply NoDup_cons. split; [by intros ?%list_elem_of_singleton|apply NoDup_singleton].
  - by repeat constructor.
  - intros tc _. apply lookup_empty.
  - apply New_caretaker_inv.
  - injection Hb as <-. exists ar', trail. split_and!; [exact Hrun|exact Htr|..].
    + rewrite Hp. by vm_compute.
    + rewrite Hp. reflexivity.
Defined.

(** A caretaker with the two mementos. *)
Definition demo_caretaker : InMemoryMementoCaretaker :=
  fold_left (λ c r, (mem_Save r.1 c).1) demo_records NewInMemoryMementoCaretaker.
Lemma demo_caretaker_inv : caretaker_inv demo_caretaker.
Proof.
  unfold demo_caretaker. generalize New_caretaker_inv. generalize NewInMemoryMementoCaretaker.
  induction demo_records as [|r rs IH]; intros c Hi; [done|]. cbn [fold_left]. apply IH.
  destruct (decide (m_ID r.1 = "")) as [He|He].
  - unfold mem_Save. by rewrite bool_decide_true by done.
  - by destruct (Save_ok (L := demo_laws) r.1 c He I Hi) as [-> ?].
Qed.
Lemma rollback_exact_witness :
  ∃ affected, AnalyzeRollback background "memento_12" demo_caretaker
    = Ok (mkAnalysis (serialised (match demo_records with r :: _ => r.1 | [] => mkMemento "" 0 "" "" [] None "" [] "" "" "" ∅ "" "" "" 0 None None None no_resolution end))
            affected (calculateComplexity affected) (bool_decide (affected ≠ [])) []).
Proof.
  pose proof (rollback_exact background "memento_12" demo_caretaker demo_caretaker_inv) as H.
  destruct (mementos demo_caretaker !! "memento_12") as [m|] eqn:Hm; vm_compute in Hm; [|discriminate Hm].
  destruct H as (affected & H & _). exists affected. rewrite H. injection Hm as <-. reflexivity.
Defined.
Lemma List_exact_witness :
  ∃ l r, mem_List (Some (mkCriteria "order-1" "alice" "" "" None None 0 5)) demo_caretaker = Ok r
    ∧ r = l
    ∧ l ≡ₚ filter (λ m, matchesCriteria m (Some (mkCriteria "order-1" "alice" "" "" None None 0 5)) = true)
             (stored demo_caretaker).
Proof.
  destruct (List_exact (mkCriteria "order-1" "alice" "" "" None None 0 5) demo_caretaker demo_caretaker_inv)
    as (l & r & Hr & Hl & _ & Hall & _).
  exists l, r. split_and!; [exact Hr| |exact Hl]. apply Hall; [done|]. right.
  apply Permutation_length in Hl. rewrite Hl. by vm_compute.
Defined.
