(* ===== verification/RuleConfig.v ===== *)
(** * Configuration of the conflict rules (src/synckit/config.go)

    The configuration data, the loader with its transformers, validators and
    watchers, the built-in validator, and the resolvers and rule groups built
    from a configuration.  Reading files and decoding YAML and JSON are library
    calls and parameters here; a logger is only known to be set or not. *)
From S2P Require Import Prelude Types Json Text Errors Versions Resolvers.
From S2P Require Composite.
From stdpp Require Import options.

(** ** Data *)
Record TimeoutSettings := mkTimeoutSettings {
  ResolutionTimeoutMs : Z; ManualReviewTimeoutMs : Z
}.
Record LimitSettings := mkLimitSettings { MaxConflictsPerBatch : Z; MaxRulesPerGroup : Z }.
Record ConfigSettings := mkSettings {
  DefaultFallback : string; Timeouts : TimeoutSettings; Limits : LimitSettings;
  Features : gomap bool; Custom : gomap string
}.
Record MatchConditions := mkConditions {
  EventTypes : list string; AggregateIDs : list string; Fields : list string;
  CustomMatch : gomap string
}.
Record ResolutionConfig := mkResolution { Strategy : string; Options : gomap any }.
Record RuleConfigEntry := mkEntry {
  re_Name : string; re_Description : string; re_Enabled : option bool; Priority : Z;
  Conditions : MatchConditions; Resolution : ResolutionConfig; re_Metadata : gomap any
}.
Inductive GroupConfig := mkGroupConfig {
  gc_Name : string; gc_Description : string; gc_Enabled : option bool; gc_Fallback : string;
  gc_Rules : list RuleConfigEntry; gc_SubGroups : list GroupConfig; gc_Metadata : gomap any
}.
Record RuleConfig := mkRuleConfig {
  rc_Version : string; rc_Name : string; rc_Description : string; rc_Metadata : gomap any;
  Settings : ConfigSettings; Groups : list GroupConfig; Rules : list RuleConfigEntry
}.

(** ** Built-in validator *)

(** [map[string]bool] read as a set of the names seen so far. *)
Definition seen (names : gmap string bool) (n : string) : bool := default false (names !! n).
Fixpoint validate_rules (names : gmap string bool) (rules : list RuleConfigEntry) (context : string)
    : option error :=
  match rules with
  | [] => None
  | r :: rest =>
      if bool_decide (re_Name r = "") then Some (ErrMsg ("rule name is required in " +:+ context))
      else if seen names (re_Name r)
      then Some (ErrMsg ("duplicate rule name: " +:+ re_Name r +:+ " in " +:+ context))
      else if bool_decide (Strategy (Resolution r) = "")
      then Some (ErrMsg ("resolution strategy is required for rule " +:+ re_Name r +:+ " in " +:+ context))
      else validate_rules (<[re_Name r := true]> names) rest context
  end.
Definition validateRules (rules : list RuleConfigEntry) (context : string) : option error :=
  validate_rules ∅ rules context.
Fixpoint validate_groups (names : gmap string bool) (groups : list GroupConfig) : option error :=
  match groups with
  | [] => None
  | g :: rest =>
      if bool_decide (gc_Name g = "") then Some (ErrMsg "group name is required")
      else if seen names (gc_Name g) then Some (ErrMsg ("duplicate group name: " +:+ gc_Name g))
      else match validateRules (gc_Rules g) (gc_Name g) with
           | Some e => Some (ErrWrap ("invalid rules in group " +:+ gc_Name g) e)
           | None => validate_groups (<[gc_Name g := true]> names) rest
           end
  end.
Definition BasicValidator_Validate (config : option RuleConfig) : outcome (option error) :=
  let* c := deref config in
  Done (if bool_decide (rc_Version c = "") then Some (ErrMsg "configuration version is required")
        else if bool_decide (rc_Name c = "") then Some (ErrMsg "configuration name is required")
        else match validate_groups ∅ (Groups c) with
             | Some e => Some e
             | None => match validateRules (Rules c) "global" with
                       | Some e => Some (ErrWrap "invalid global rules" e)
                       | None => None
                       end
             end).

(** ** The loader *)
Record ConfigValidator := mkValidator {
  v_Name : string; v_Validate : option RuleConfig → outcome (option error)
}.
Record ConfigTransformer := mkTransformer {
  t_Name : string; Transform : option RuleConfig → outcome (option RuleConfig * option error)
}.
Definition BasicValidator : ConfigValidator := mkValidator "basic" BasicValidator_Validate.

(** Watchers are named by numbers; [started] lists the goroutines that call
    [OnConfigChanged], with the old and the new configuration (pointers, nil
    being [None]).  A panic of a watcher is recovered in its goroutine. *)
Record notification := mkNotification {
  watcher : nat; oldConfig : option RuleConfig; newConfig : option RuleConfig
}.
Record ConfigLoader := mkLoader {
  currentConfig : option RuleConfig;
  validators : list ConfigValidator;
  watchers : list nat;
  transformers : list ConfigTransformer;
  logging : bool;
  started : list notification
}.
Inductive ConfigLoaderOption :=
  | WithConfigValidator (v : ConfigValidator)
  | WithWatcher (w : nat)
  | WithTransformer (t : ConfigTransformer)
  | WithConfigLogger (set : bool).
Definition apply_loader_option (cl : ConfigLoader) (o : ConfigLoaderOption) : ConfigLoader :=
  match o with
  | WithConfigValidator v =>
      mkLoader (currentConfig cl) (validators cl ++ [v]) (watchers cl) (transformers cl) (logging cl) (started cl)
  | WithWatcher w =>
      mkLoader (currentConfig cl) (validators cl) (watchers cl ++ [w]) (transformers cl) (logging cl) (started cl)
  | WithTransformer t =>
      mkLoader (currentConfig cl) (validators cl) (watchers cl) (transformers cl ++ [t]) (logging cl) (started cl)
  | WithConfigLogger b =>
      mkLoader (currentConfig cl) (validators cl) (watchers cl) (transformers cl) b (started cl)
  end.
Definition NewConfigLoader (opts : list ConfigLoaderOption) : ConfigLoader :=
  fold_left apply_loader_option opts (mkLoader None [] [] [] false []).

Fixpoint run_transformers (ts : list ConfigTransformer) (config : option RuleConfig)
    : outcome (result error (option RuleConfig)) :=
  match ts with
  | [] => Done (Ok config)
  | t :: rest =>
      let* (transformed, err) := Transform t config in
      match err with
      | Some e => Done (Err (ErrWrap ("transformer " +:+ t_Name t +:+ " failed") e))
      | None => run_transformers rest transformed
      end
  end.
Fixpoint run_validators (vs : list ConfigValidator) (config : option RuleConfig)
    : outcome (option error) :=
  match vs with
  | [] => Done None
  | v :: rest =>
      let* err := v_Validate v config in
      match err with
      | Some e => Done (Some (ErrWrap ("validator " +:+ v_Name v +:+ " failed") e))
      | None => run_validators rest config
      end
  end.
(** Installing the configuration and starting the watchers; the last log line
    reads the configuration. *)
Definition install (config : option RuleConfig) (cl : ConfigLoader)
    : ConfigLoader * outcome (option error) :=
  let cl' := mkLoader config (validators cl) (watchers cl) (transformers cl) (logging cl)
               (started cl ++ ((λ w, mkNotification w (currentConfig cl) config) <$> watchers cl)) in
  (cl', if logging cl then let* _ := deref config in Done None else Done None).
Definition applyConfig (config : option RuleConfig) (cl : ConfigLoader)
    : ConfigLoader * outcome (option error) :=
  match run_transformers (transformers cl) config with
  | Panic w => (cl, Panic w)
  | Done (Err e) => (cl, Done (Some e))
  | Done (Ok config) =>
      match run_validators (validators cl) config with
      | Panic w => (cl, Panic w)
      | Done (Some e) => (cl, Done (Some e))
      | Done None => install config cl
      end
  end.

(** The text after the last dot, all of it without one. *)
Fixpoint after_dot (s : string) : option string :=
  match s with
  | EmptyString => None
  | String c r => match after_dot r with
                  | Some e => Some e
                  | None => if code c =? 46 then Some r else None
                  end
  end.
Definition detectFormat (filepath : string) : string :=
  let ext := ToLower (default filepath (after_dot filepath)) in
  if bool_decide (ext = "yml") || bool_decide (ext = "yaml") then "yaml"
  else if bool_decide (ext = "json") then "json" else "yaml".

(** The two decoders, on the raw bytes. *)
Class Decoders := {
  yaml_Unmarshal : string → result error RuleConfig;
  json_Unmarshal : string → result error RuleConfig
}.
Section loading.
Context {D : Decoders}.
Definition loadFromBytes (data format : string) (cl : ConfigLoader)
    : ConfigLoader * outcome (option error) :=
  let f := ToLower format in
  if bool_decide (f = "yaml") || bool_decide (f = "yml") then
    match yaml_Unmarshal data with
    | Err e => (cl, Done (Some (ErrWrap "failed to parse YAML config" e)))
    | Ok c => applyConfig (Some c) cl
    end
  else if bool_decide (f = "json") then
    match json_Unmarshal data with
    | Err e => (cl, Done (Some (ErrWrap "failed to parse JSON config" e)))
    | Ok c => applyConfig (Some c) cl
    end
  else (cl, Done (Some (ErrMsg ("unsupported config format: " +:+ format)))).
Definition LoadFromBytes : string → string → ConfigLoader → ConfigLoader * outcome (option error) :=
  loadFromBytes.
(** [opened] is what [os.Open] answers: an error, or what reading gives. *)
Definition LoadFromFile (filepath : string) (opened : result error (result error string))
    (cl : ConfigLoader) : ConfigLoader * outcome (option error) :=
  match opened with
  | Err e => (cl, Done (Some (ErrWrap ("failed to open config file " +:+ filepath) e)))
  | Ok (Err e) => (cl, Done (Some (ErrWrap ("failed to read config file " +:+ filepath) e)))
  | Ok (Ok data) => loadFromBytes data (detectFormat filepath) cl
  end.
End loading.
Definition GetCurrentConfig (cl : ConfigLoader) : option RuleConfig := currentConfig cl.

(** The logging watcher: its log lines; the configuration is a pointer. *)
Inductive LogLine :=
  | InitialLoaded (version : string) (groups : nat)
  | Updated (old_version new_version : string) (old_groups new_groups : nat)
  | ConfigurationError (err : error).
Definition LoggingWatcher_OnConfigChanged (logger : bool) (old new : option RuleConfig)
    : outcome (list LogLine) :=
  if negb logger then Done []
  else let* n := deref new in
       match old with
       | None => Done [InitialLoaded (rc_Version n) (length (Groups n))]
       | Some o => Done [Updated (rc_Version o) (rc_Version n) (length (Groups o)) (length (Groups n))]
       end.
Definition LoggingWatcher_OnConfigError (logger : bool) (err : error) : list LogLine :=
  if logger then [ConfigurationError err] else [].

(** ** Building rules and resolvers *)
(** Groups are allocated at the next free place of the heap. *)
Abbreviation groups := (Composite.heap * nat)%type.
Section building.
Context {MR : MapRange}.

Definition createResolverFromStrategy (strategy : string) : result error Resolver :=
  let s := ToLower strategy in
  if bool_decide (s = "last_write_wins") || bool_decide (s = "lww") then Ok LastWriteWins
  else if bool_decide (s = "first_write_wins") || bool_decide (s = "fww") then Ok FirstWriteWins
  else if bool_decide (s = "additive_merge") || bool_decide (s = "merge") then Ok AdditiveMerge
  else if bool_decide (s = "manual_review") || bool_decide (s = "manual") then Ok (ManualReview "")
  else Err (ErrMsg ("unknown resolution strategy: " +:+ strategy)).

Definition buildMatcher (k : MatchConditions) : Spec :=
  let matchers := (EventTypeIs <$> EventTypes k) ++ (FieldChanged <$> Fields k)
                  ++ (AggregateIDMatches <$> AggregateIDs k) in
  match matchers with
  | [] => AlwaysMatch
  | [m] => m
  | _ => AndMatcher (Some <$> matchers)
  end.

Definition buildRule (e : RuleConfigEntry) : result error Rule :=
  match createResolverFromStrategy (Strategy (Resolution e)) with
  | Err err => Err (ErrWrap "failed to create resolver" err)
  | Ok r => Ok (mkRule (re_Name e) (Some (buildMatcher (Conditions e))) (Some r))
  end.

(** The loop over one list of rules. *)
Fixpoint add_rules (failed : string → string) (named : string → string)
    (es : list RuleConfigEntry) (opts : list Option_) : result error (list Option_) :=
  match es with
  | [] => Ok opts
  | e :: rest =>
      match buildRule e with
      | Err err => Err (ErrWrap (failed (re_Name e)) err)
      | Ok r => add_rules failed named rest
                  (opts ++ [WithRule (named (rule_Name r)) (Matcher r) (rule_Resolver r)])
      end
  end.
Definition failed_in (group rule : string) : string :=
  "failed to build rule " +:+ rule +:+ " in group " +:+ group.
Fixpoint add_groups (gs : list GroupConfig) (opts : list Option_) : result error (list Option_) :=
  match gs with
  | [] => Ok opts
  | g :: rest =>
      match add_rules (failed_in (gc_Name g)) (λ n, gc_Name g +:+ "." +:+ n) (gc_Rules g) opts with
      | Err e => Err e
      | Ok opts => add_groups rest opts
      end
  end.
Definition BuildDynamicResolver (cl : ConfigLoader) : result error resolverOptions :=
  match currentConfig cl with
  | None => Err (ErrMsg "no configuration loaded")
  | Some config =>
      match (if bool_decide (DefaultFallback (Settings config) = "") then Ok []
             else match createResolverFromStrategy (DefaultFallback (Settings config)) with
                  | Err e => Err (ErrWrap "failed to create default fallback" e)
                  | Ok f => Ok [WithFallback (Some f)]
                  end) with
      | Err e => Err e
      | Ok opts =>
          match add_rules (λ n, "failed to build global rule " +:+ n) id (Rules config) opts with
          | Err e => Err e
          | Ok opts =>
              match add_groups (Groups config) opts with
              | Err e => Err e
              | Ok opts => NewDynamicResolver opts
              end
          end
      end
  end.

Fixpoint add_group_rules (id : nat) (group : string) (es : list RuleConfigEntry) (s : groups)
    : outcome (result error groups) :=
  match es with
  | [] => Done (Ok s)
  | e :: rest =>
      match buildRule e with
      | Err err => Done (Err (ErrWrap (failed_in group (re_Name e)) err))
      | Ok r => let* h := Composite.AddRule id r s.1 in add_group_rules id group rest (h, s.2)
      end
  end.
Definition add_subgroups (build : GroupConfig → groups → outcome (result error (nat * groups)))
    (id : nat) : list GroupConfig → groups → outcome (result error groups) :=
  fix go gs s :=
    match gs with
    | [] => Done (Ok s)
    | g :: rest =>
        let* r := build g s in
        match r with
        | Err e => Done (Err (ErrWrap ("failed to build subgroup " +:+ gc_Name g) e))
        | Ok (sub, s) => let* h := Composite.AddSubGroup id sub s.1 in go rest (h, s.2)
        end
    end.
Fixpoint buildRuleGroup (config : GroupConfig) (s : groups) : outcome (result error (nat * groups)) :=
  match (if bool_decide (gc_Fallback config = "") then Ok []
         else match createResolverFromStrategy (gc_Fallback config) with
              | Err e => Err (ErrWrap "failed to create group fallback" e)
              | Ok f => Ok [Composite.WithGroupFallback (Some f)]
              end) with
  | Err e => Done (Err e)
  | Ok fb =>
      let opts := (if bool_decide (gc_Description config = "") then []
                   else [Composite.WithDescription (gc_Description config)])
                  ++ [Composite.WithEnabled (default true (gc_Enabled config))] ++ fb in
      let id := s.2 in
      let s := (<[id := Composite.NewRuleGroup (gc_Name config) opts]> s.1, S id) in
      let* r := add_group_rules id (gc_Name config) (gc_Rules config) s in
      match r with
      | Err e => Done (Err e)
      | Ok s =>
          let* r := add_subgroups buildRuleGroup id (gc_SubGroups config) s in
          match r with
          | Err e => Done (Err e)
          | Ok s => Done (Ok (id, s))
          end
      end
  end.
End building.

(** ** What a configuration means *)
Section meaning.
Context {MR : MapRange}.

(** Every listed event type, field and aggregate must be met. *)
Definition condition_met (k : MatchConditions) (c : Conflict) : Prop :=
  Forall (λ t, c_EventType c = t) (EventTypes k) ∧ Forall (λ f, f ∈ c_ChangedFields c) (Fields k)
  ∧ Forall (λ a, c_AggregateID c = a) (AggregateIDs k).
#[global] Instance condition_met_dec k c : Decision (condition_met k c).
Proof. unfold condition_met. apply _. Defined.

Definition strategy (s : string) : option Resolver :=
  match createResolverFromStrategy s with Ok r => Some r | Err _ => None end.
Abbreviation strategy_of e := (strategy (Strategy (Resolution e))).
(** Rules outside groups come first; a group's rules carry its name. *)
Definition entries (cfg : RuleConfig) : list (string * RuleConfigEntry) :=
  ((λ e, (re_Name e, e)) <$> Rules cfg)
  ++ (g ← Groups cfg; (λ e, (gc_Name g +:+ "." +:+ re_Name e, e)) <$> gc_Rules g).
Definition has_fallback (cfg : RuleConfig) : Prop := DefaultFallback (Settings cfg) ≠ "".
Definition buildable (cfg : RuleConfig) : Prop :=
  Forall (λ x, is_Some (strategy_of x.2)) (entries cfg)
  ∧ (has_fallback cfg → is_Some (strategy (DefaultFallback (Settings cfg))))
  ∧ (entries cfg ≠ [] ∨ has_fallback cfg).
Definition ask (r : option Resolver) : Resolver := λ ctx c, let* r := deref r in r ctx c.
Definition reference (cfg : RuleConfig) : Resolver := λ ctx c,
  match list_find (λ x, condition_met (Conditions x.2) c) (entries cfg) with
  | Some (_, x) => ask (strategy_of x.2) ctx c
  | None => if bool_decide (DefaultFallback (Settings cfg) = "") then Done (no_resolution, Some err_no_rule)
            else ask (strategy (DefaultFallback (Settings cfg))) ctx c
  end.

Lemma AndMatcher_tests c ms bs :
  Forall2 (λ (m : Spec) b, m c = Done b) ms bs → AndMatcher (Some <$> ms) c = Done (forallb id bs).
Proof.
  induction 1 as [|m b ms bs Hm _ IH]; [done|]. cbn [fmap list_fmap AndMatcher forallb].
  rewrite Hm. cbn [obind]. by destruct b.
Qed.
Lemma bool_all {A} (P : A → Prop) `{!∀ x, Decision (P x)} l :
  forallb id ((λ x, bool_decide (P x)) <$> l) = bool_decide (Forall P l).
Proof.
  induction l as [|x l IH]; [by rewrite bool_decide_true by constructor|].
  cbn [fmap list_fmap forallb]. rewrite IH. unfold id.
  destruct (decide (P x)) as [Hx|Hx].
  - rewrite (bool_decide_true (P x)) by done. apply bool_decide_ext. rewrite Forall_cons. tauto.
  - rewrite (bool_decide_false (P x)) by done. cbn. symmetry. apply bool_decide_false. rewrite Forall_cons. tauto.
Qed.
Lemma existsb_elem f (l : list string) :
  existsb (λ x, bool_decide (x = f)) l = bool_decide (f ∈ l).
Proof.
  apply eq_iff_eq_true. rewrite existsb_exists, bool_decide_eq_true.
  split.
  - intros (x & Hx & Heq). apply bool_decide_eq_true in Heq as ->. by apply list_elem_of_In.
  - intros Hf. exists f. split; [by apply list_elem_of_In|]. by apply bool_decide_eq_true.
Qed.
Lemma buildMatcher_spec k c : buildMatcher k c = Done (bool_decide (condition_met k c)).
Proof.
  set (bs := ((λ t, bool_decide (c_EventType c = t)) <$> EventTypes k)
         ++ ((λ f, bool_decide (f ∈ c_ChangedFields c)) <$> Fields k)
         ++ ((λ a, bool_decide (c_AggregateID c = a)) <$> AggregateIDs k)).
  assert (bool_decide (condition_met k c) = forallb id bs) as ->.
  { unfold bs. rewrite !forallb_app, !bool_all, <-!bool_decide_and.
    by apply bool_decide_ext. }
  unfold buildMatcher. set (ms := (EventTypeIs <$> _) ++ _).
  assert (Forall2 (λ (m : Spec) b, m c = Done b) ms bs) as Hall.
  { unfold ms, bs. repeat apply Forall2_app; apply Forall2_fmap, Forall_Forall2_diag, Forall_forall;
      intros x _; cbn; try done. unfold FieldChanged. by rewrite existsb_elem. }
  clearbody ms bs. rewrite <-(AndMatcher_tests c ms bs Hall).
  destruct Hall as [|m b ? ? Hm [|]]; [done| |done].
  cbn. rewrite Hm. by destruct b.
Qed.

Definition rule_of (x : string * RuleConfigEntry) : Rule :=
  mkRule x.1 (Some (buildMatcher (Conditions x.2))) (strategy_of x.2).
Definition with_rule (r : Rule) : Option_ := WithRule (rule_Name r) (Matcher r) (rule_Resolver r).
Abbreviation known := (λ x : string * RuleConfigEntry, is_Some (strategy_of x.2)).

Lemma add_rules_spec failed named es opts :
  let xs := (λ e, (named (re_Name e), e)) <$> es in
  match add_rules failed named es opts with
  | Ok opts' => Forall known xs ∧ opts' = opts ++ (with_rule ∘ rule_of <$> xs)
  | Err _ => ¬ Forall known xs
  end.
Proof.
  revert opts; induction es as [|e es IH]; intros opts; cbn.
  { split; [constructor|]. by rewrite app_nil_r. }
  unfold buildRule. destruct (createResolverFromStrategy _) as [r|err] eqn:Hr.
  - specialize (IH (opts ++ [WithRule (named (re_Name e)) (Some (buildMatcher (Conditions e))) (Some r)])).
    cbn in *. destruct (add_rules _ _ _ _); rewrite Forall_cons; [|tauto].
    destruct IH as [? ->]. unfold with_rule, rule_of, strategy. cbn. rewrite Hr.
    split; [by eauto|]. by rewrite <-app_assoc.
  - rewrite Forall_cons. unfold strategy. cbn. rewrite Hr. intros [[? ?] _]. done.
Qed.
Lemma add_groups_spec gs opts :
  let xs := g ← gs; (λ e, (gc_Name g +:+ "." +:+ re_Name e, e)) <$> gc_Rules g in
  match add_groups gs opts with
  | Ok opts' => Forall known xs ∧ opts' = opts ++ (with_rule ∘ rule_of <$> xs)
  | Err _ => ¬ Forall known xs
  end.
Proof.
  revert opts; induction gs as [|g gs IH]; intros opts; cbn [add_groups mbind list_bind].
  { split; [constructor|]. by rewrite app_nil_r. }
  pose proof (add_rules_spec (failed_in (gc_Name g)) (λ n, gc_Name g +:+ "." +:+ n) (gc_Rules g) opts)
    as Hg. cbn zeta in Hg.
  destruct (add_rules _ _ _ _) as [opts'|]; [|rewrite Forall_app; tauto]. destruct Hg as [? ->].
  specialize (IH (opts ++ (with_rule ∘ rule_of <$>
    ((λ e, (gc_Name g +:+ "." +:+ re_Name e, e)) <$> gc_Rules g)))). cbn zeta in IH.
  destruct (add_groups _ _); rewrite Forall_app; [|tauto]. destruct IH as [? ->].
  split; [done|]. by rewrite fmap_app, app_assoc.
Qed.

Lemma configured_rules xs cfg v :
  fold_left apply_option (with_rule ∘ rule_of <$> xs) (cfg, v)
  = (mkOptions (rules cfg ++ (rule_of <$> xs)) (fallback cfg) (hooks cfg), v).
Proof.
  revert cfg; induction xs as [|x xs IH]; intros cfg; cbn.
  { rewrite app_nil_r. by destruct cfg. }
  rewrite IH. cbn. by rewrite <-app_assoc.
Qed.
Lemma check_rules_known i xs : Forall known xs → check_rules i (rule_of <$> xs) = None.
Proof.
  intros Hk. revert i; induction Hk as [|x xs Hx Hk IH]; intros i; [done|].
  cbn. destruct Hx as [r Hx]. by rewrite Hx.
Qed.
Lemma try_rules_entries d ctx c xs :
  try_rules d ctx c (rule_of <$> xs)
  = match list_find (λ x, condition_met (Conditions x.2) c) xs with
    | Some (_, x) =>
        let* r := deref (strategy_of x.2) in
        let* res := r ctx c in
        Done (Some (finish d c (hook (OnRuleMatched (hooks d)) (RuleMatched c x.1)) res))
    | None => Done None
    end.
Proof.
  induction xs as [|x xs IH]; [done|].
  cbn [fmap list_fmap try_rules list_find call Matcher rule_of]. rewrite buildMatcher_spec.
  cbn [obind]. destruct (decide (condition_met (Conditions x.2) c)) as [Hm|Hm].
  - by rewrite bool_decide_true.
  - rewrite bool_decide_false, IH by done. cbn. by destruct (list_find _ xs) as [[]|].
Qed.
Lemma strategy_no_error s r ctx c res : strategy s = Some r → r ctx c = Done res → res.2 = None.
Proof.
  unfold strategy, createResolverFromStrategy. intros Hs.
  repeat (case_match; simplify_eq); unfold LastWriteWins, FirstWriteWins, AdditiveMerge, ManualReview;
    intros Hr; repeat (case_match; simplify_eq/=; try done);
    destruct (version_Compare _ _); simplify_eq/=; by repeat case_match.
Qed.
(** Answers of the strategies pass the resolver unchanged. *)
Lemma finish_strategy {B} d s r ctx c log (f : _ → outcome B) :
  strategy s = Some r →
  (let* res := r ctx c in f (finish d c log res))
  = let* res := r ctx c in f (res, log ++ hook (OnResolved (hooks d)) (Resolved c res.1)).
Proof.
  intros Hs. destruct (r ctx c) as [[res err]|] eqn:Hr; [|done]. cbn.
  pose proof (strategy_no_error _ _ _ _ _ Hs Hr). cbn in *. by subst.
Qed.

(** The two ways of a call: the first entry that is met, or the rest. *)
Lemma first_entry_answer d ctx c xs k k' :
  Forall known xs → (let* (r, _) := k in Done r) = k' →
  (let* (r, _) :=
     let* hit := match list_find (λ x, condition_met (Conditions x.2) c) xs with
                 | Some (_, x) =>
                     let* r := deref (strategy_of x.2) in
                     let* res := r ctx c in
                     Done (Some (finish d c (hook (OnRuleMatched (hooks d)) (RuleMatched c x.1)) res))
                 | None => Done None
                 end in
     match hit with Some r => Done r | None => k end in Done r)
  = match list_find (λ x, condition_met (Conditions x.2) c) xs with
    | Some (_, x) => ask (strategy_of x.2) ctx c
    | None => k'
    end.
Proof.
  intros Hk Hrest. destruct (list_find _ xs) as [[i x]|] eqn:Hx; [|done].
  apply list_find_Some in Hx as (Hx & _). apply list_elem_of_lookup_2 in Hx.
  rewrite Forall_forall in Hk. destruct (Hk _ Hx) as [r Hr]. unfold ask. rewrite Hr. cbn.
  rewrite (finish_strategy d _ r ctx c _ (λ x, Done (Some x)) Hr). by destruct (r ctx c) as [[]|].
Qed.

Lemma build_entries cfg opts f :
  let fb := DefaultFallback (Settings cfg) in
  configured opts = (mkOptions [] f no_hooks, None) →
  (fb ≠ "" → f = strategy fb) → (fb = "" → f = None) → (fb ≠ "" → is_Some (strategy fb)) →
  match match add_rules (λ n, "failed to build global rule " +:+ n) id (Rules cfg) opts with
        | Err e => Err e
        | Ok opts => match add_groups (Groups cfg) opts with
                     | Err e => Err e
                     | Ok opts => NewDynamicResolver opts
                     end
        end with
  | Ok d => buildable cfg ∧ ∀ ctx c, DynamicResolver d ctx c = reference cfg ctx c
  | Err _ => ¬ buildable cfg
  end.
Proof.
  intros fb Hconf Hf Hnone Hsome. unfold buildable, has_fallback. fold fb.
  pose proof (add_rules_spec (λ n, "failed to build global rule " +:+ n) id (Rules cfg) opts) as Hr.
  cbn zeta in Hr. destruct (add_rules _ _ _ _) as [opts1|].
  2: { unfold entries. rewrite Forall_app. tauto. }
  destruct Hr as [Hk1 ->].
  match goal with |- context [add_groups _ ?o] => pose proof (add_groups_spec (Groups cfg) o) as Hg end.
  cbn zeta in Hg. destruct (add_groups _ _) as [opts2|].
  2: { unfold entries. rewrite Forall_app. tauto. }
  destruct Hg as [Hk2 ->]. rewrite <-app_assoc, <-fmap_app.
  assert (Forall known (entries cfg)) as Hk by (by apply Forall_app).
  change (_ ++ (g ← Groups cfg; _)) with (entries cfg).
  unfold NewDynamicResolver. unfold configured in *. rewrite fold_left_app, Hconf, configured_rules.
  cbn [rules fallback hooks app]. rewrite check_rules_known by done.
  destruct (decide (fb = "")) as [Hfb|Hfb].
  - rewrite (Hnone Hfb). destruct (entries cfg) as [|x xs] eqn:Hxs; cbn [fmap list_fmap].
    { intros (_ & _ & [?|?]); done. }
    split; [by split_and!; [..|left]|]. intros ctx c. unfold DynamicResolver, Resolve, reference.
    cbn [rules fallback]. rewrite <-fmap_cons, try_rules_entries, Hxs. fold fb. rewrite (bool_decide_true (fb = "")) by done.
    apply first_entry_answer; [|done]. done.
  - assert (is_Some f) as [r ->] by (rewrite Hf by done; by apply Hsome).
    assert (∀ B (l : list B), match l with [] | _ => false end = false) as Hmatch by (by intros ? []).
    rewrite Hmatch. split; [by split_and!; [..|right]|]. intros ctx c. unfold DynamicResolver, Resolve, reference.
    cbn [rules fallback]. rewrite try_rules_entries. fold fb. rewrite (bool_decide_false (fb = "")) by done.
    apply first_entry_answer; [done|]. rewrite <-Hf by done. cbn.
    symmetry in Hf. unfold ask. rewrite <-Hf by done.
    rewrite (finish_strategy _ fb) by auto. by destruct (r ctx c) as [[]|].
Qed.

(** C24: building a resolver fails without a configuration, and otherwise exactly
    when a strategy is unknown or there is neither a rule nor a fallback; the
    resolver built answers with the strategy of the first entry, global rules
    before the rules of the groups in order, all of whose conditions hold, else
    with the default fallback, else with an error.  Whether a rule or group is
    enabled, priorities, subgroups, group fallbacks and custom matches play no
    part. *)
Theorem config_resolution (cl : ConfigLoader) :
  match currentConfig cl with
  | None => BuildDynamicResolver cl = Err (ErrMsg "no configuration loaded")
  | Some cfg =>
      match BuildDynamicResolver cl with
      | Ok d => buildable cfg ∧ ∀ ctx c, DynamicResolver d ctx c = reference cfg ctx c
      | Err _ => ¬ buildable cfg
      end
  end.
Proof.
  unfold BuildDynamicResolver. destruct (currentConfig cl) as [cfg|]; [|done].
  set (fb := DefaultFallback (Settings cfg)). destruct (decide (fb = "")) as [Hfb|Hfb].
  - rewrite bool_decide_true by done. by apply (build_entries cfg [] None).
  - rewrite bool_decide_false by done.
    destruct (createResolverFromStrategy fb) as [r|e] eqn:Hr.
    + assert (strategy fb = Some r) as Hs by (unfold strategy; by rewrite Hr).
      apply (build_entries cfg [WithFallback (Some r)] (Some r)); cbn; fold fb; rewrite ?Hs; done || by eauto.
    + intros (_ & Hs & _). destruct (Hs Hfb) as [r Hs']. unfold strategy in Hs'.
      fold fb in Hs'. by rewrite Hr in Hs'.
Qed.
End meaning.

(** ** Validation and installation *)
Definition valid_rules (rs : list RuleConfigEntry) : Prop :=
  Forall (λ r, re_Name r ≠ "" ∧ Strategy (Resolution r) ≠ "") rs ∧ NoDup (re_Name <$> rs).
Definition valid_config (c : RuleConfig) : Prop :=
  rc_Version c ≠ "" ∧ rc_Name c ≠ ""
  ∧ Forall (λ g, gc_Name g ≠ "" ∧ valid_rules (gc_Rules g)) (Groups c)
  ∧ NoDup (gc_Name <$> Groups c) ∧ valid_rules (Rules c).

Lemma seen_insert {A} (name : A → string) names n l :
  Forall (λ x, seen (<[n := true]> names) (name x) = false) l
  ↔ n ∉ (name <$> l) ∧ Forall (λ x, seen names (name x) = false) l.
Proof.
  induction l as [|x l IH]; cbn [fmap list_fmap].
  { split; [|constructor]. intros _. split; [apply not_elem_of_nil|constructor]. }
  rewrite !Forall_cons, IH, not_elem_of_cons. unfold seen.
  destruct (decide (n = name x)) as [->|Hne].
  - rewrite lookup_insert_eq. cbn. naive_solver.
  - rewrite lookup_insert_ne by done. tauto.
Qed.
Lemma validate_rules_spec names rs ctx :
  validate_rules names rs ctx = None
  ↔ Forall (λ r, re_Name r ≠ "" ∧ Strategy (Resolution r) ≠ "") rs
    ∧ NoDup (re_Name <$> rs) ∧ Forall (λ r, seen names (re_Name r) = false) rs.
Proof.
  revert names; induction rs as [|r rs IH]; intros names; cbn [validate_rules fmap list_fmap].
  { split; [|done]. intros _. split_and!; constructor. }
  rewrite !Forall_cons, NoDup_cons.
  destruct (decide (re_Name r = "")) as [->|Hn]; [rewrite bool_decide_true by done; naive_solver|].
  rewrite bool_decide_false by done.
  destruct (seen names (re_Name r)) eqn:Hs; [naive_solver|].
  destruct (decide (Strategy (Resolution r) = "")) as [->|Hst];
    [rewrite bool_decide_true by done; naive_solver|].
  rewrite bool_decide_false, IH by done.
  rewrite (seen_insert re_Name names (re_Name r) rs). tauto.
Qed.
Lemma validateRules_spec rs ctx : validateRules rs ctx = None ↔ valid_rules rs.
Proof.
  unfold validateRules, valid_rules. rewrite validate_rules_spec. split; [tauto|].
  intros [? ?]. split_and!; [done..|]. by apply Forall_true.
Qed.
Lemma validate_groups_spec names gs :
  validate_groups names gs = None
  ↔ Forall (λ g, gc_Name g ≠ "" ∧ valid_rules (gc_Rules g)) gs
    ∧ NoDup (gc_Name <$> gs) ∧ Forall (λ g, seen names (gc_Name g) = false) gs.
Proof.
  revert names; induction gs as [|g gs IH]; intros names; cbn [validate_groups fmap list_fmap].
  { split; [|done]. intros _. split_and!; constructor. }
  rewrite !Forall_cons, NoDup_cons.
  destruct (decide (gc_Name g = "")) as [->|Hn]; [rewrite bool_decide_true by done; naive_solver|].
  rewrite bool_decide_false by done.
  destruct (seen names (gc_Name g)) eqn:Hs; [naive_solver|].
  destruct (validateRules (gc_Rules g) (gc_Name g)) eqn:Hv.
  - split; [done|]. intros ([[_ Hbad] _] & _). by rewrite <-validateRules_spec, Hv in Hbad.
  - apply validateRules_spec in Hv. rewrite IH, (seen_insert gc_Name names (gc_Name g) gs). tauto.
Qed.

(** Remark: the built-in validator accepts a configuration exactly when version and
    name are given, group names are given and distinct, and in every group and
    among the global rules the rules have distinct non-empty names and a
    strategy; subgroups, unknown strategies and fallbacks are not looked at. *)
Theorem basic_validator_exact (c : RuleConfig) :
  ∃ err, BasicValidator_Validate (Some c) = Done err ∧ (err = None ↔ valid_config c).
Proof.
  eexists. split; [reflexivity|]. unfold valid_config.
  destruct (decide (rc_Version c = "")) as [->|Hv]; [rewrite bool_decide_true by done; naive_solver|].
  rewrite bool_decide_false by done.
  destruct (decide (rc_Name c = "")) as [->|Hn]; [rewrite bool_decide_true by done; naive_solver|].
  rewrite bool_decide_false by done.
  destruct (validate_groups ∅ (Groups c)) eqn:Hg.
  - split; [done|]. intros (_ & _ & H1 & H2 & _).
    assert (validate_groups ∅ (Groups c) = None); [|congruence].
    apply validate_groups_spec. split_and!; [done..|]. by apply Forall_true.
  - apply validate_groups_spec in Hg. rewrite <-(validateRules_spec _ "global").
    destruct (validateRules (Rules c) "global"); naive_solver.
Qed.

(** Remark: applying a configuration either installs what the transformers made of
    it, after every validator accepted it, and starts every watcher once with
    the old and the new configuration; or it reports an error and changes
    nothing; a panic changes nothing either, unless it comes from the log line
    after the installation of a nil configuration. *)
Theorem applyConfig_outcome (config : option RuleConfig) (cl : ConfigLoader) :
  let '(cl', out) := applyConfig config cl in
  (cl' = cl ∧ out ≠ Done None)
  ∨ ∃ c, run_transformers (transformers cl) config = Done (Ok c)
      ∧ run_validators (validators cl) c = Done None
      ∧ currentConfig cl' = c
      ∧ started cl' = started cl ++ ((λ w, mkNotification w (currentConfig cl) c) <$> watchers cl)
      ∧ validators cl' = validators cl ∧ watchers cl' = watchers cl ∧ transformers cl' = transformers cl
      ∧ (out = Done None ↔ is_Some c ∨ logging cl = false).
Proof.
  unfold applyConfig. destruct (run_transformers _ config) as [[c|e]|w] eqn:Ht; [|by left..].
  destruct (run_validators _ c) as [[e|]|w] eqn:Hv; [by left| |by left].
  right. exists c. split_and!; try done.
  destruct (logging cl), c; cbn; split; try done; try (by intros _; eauto).
  by intros [[? ?]|].
Qed.

(** ** Rule groups *)
Section grouping.
Context {MR : MapRange}.

(** Induction over the groups nested in a group. *)
Fixpoint GroupConfig_nested_ind (P : GroupConfig → Prop)
    (H : ∀ g, Forall P (gc_SubGroups g) → P g) (g : GroupConfig) : P g :=
  H g ((fix go gs : Forall P gs :=
          match gs with
          | [] => Forall_nil_2 P
          | g :: gs => Forall_cons_2 P g gs (GroupConfig_nested_ind P H g) (go gs)
          end) (gc_SubGroups g)).

(** Steps that leave the groups below [n], and the counter, in place. *)
Definition keeps (n : nat) (s s' : groups) : Prop :=
  (s.2 ≤ s'.2)%nat ∧ ∀ i, (i < n)%nat → s'.1 !! i = s.1 !! i.
Lemma keeps_trans n s1 s2 s3 : keeps n s1 s2 → keeps n s2 s3 → keeps n s1 s3.
Proof. intros [? H1] [? H2]. split; [lia|]. intros i Hi. by rewrite H2, H1. Qed.
Lemma keeps_weaken n m s s' : (m ≤ n)%nat → keeps n s s' → keeps m s s'.
Proof. intros ? [? H]. split; [done|]. intros i ?. apply H. lia. Qed.

(** The group of a configuration, as far as its rules have been added. *)
Definition holds_rules (g : Composite.RuleGroup) (es : list RuleConfigEntry) : Prop :=
  if Composite.g_enabled g then
    Forall2 (λ e r, ∃ r0, buildRule e = Ok r0 ∧
      r = if bool_decide (re_Name e = "") then r0
          else Composite.rename (Composite.dotted (Composite.g_Name g) (re_Name e)) r0)
      es (Composite.g_rules g)
  else Composite.g_rules g = [].
Definition same_head (g g' : Composite.RuleGroup) : Prop :=
  Composite.g_Name g' = Composite.g_Name g ∧ Composite.g_enabled g' = Composite.g_enabled g.

Lemma buildRule_name e r : buildRule e = Ok r → rule_Name r = re_Name e.
Proof. unfold buildRule. destruct (createResolverFromStrategy _); [|done]. by intros [= <-]. Qed.

Lemma add_group_rules_spec id name es es0 s s' g :
  s.1 !! id = Some g → holds_rules g es0 → add_group_rules id name es s = Done (Ok s') →
  keeps id s s' ∧ s'.2 = s.2 ∧
  ∃ g', s'.1 !! id = Some g' ∧ same_head g g' ∧ holds_rules g' (es0 ++ es)
        ∧ Composite.g_subGroups g' = Composite.g_subGroups g.
Proof.
  revert es0 s g; induction es as [|e es IH]; intros es0 s g Hg Hh Hadd; cbn in Hadd.
  { injection Hadd as <-. rewrite app_nil_r. split_and!; [by split|done|]. by exists g. }
  destruct (buildRule e) as [r|] eqn:Hr; [|done].
  unfold Composite.AddRule, Composite.get_group in Hadd. rewrite Hg in Hadd. cbn in Hadd.
  rewrite (buildRule_name e r Hr) in Hadd.
  destruct (Composite.g_enabled g) eqn:Hen; cbn in Hadd.
  - match type of Hadd with add_group_rules _ _ _ (<[_ := ?g1]> _, _) = _ =>
      assert (holds_rules g1 (es0 ++ [e])) as Hh1 end.
    { unfold holds_rules in *. rewrite Hen in Hh. cbn. apply Forall2_app; [done|].
      constructor; [|constructor]. by exists r. }
    destruct (IH _ _ _ (lookup_insert_eq _ _ _) Hh1 Hadd) as (Hk & Hn & g' & H1 & [H2 H2'] & H3 & H4).
    rewrite <-app_assoc in H3. split_and!; [|done|].
    + eapply keeps_trans; [|exact Hk]. split; [done|]. intros i Hi. cbn. by rewrite lookup_insert_ne by lia.
    + exists g'. split_and!; try done. split; cbn in *; congruence.
  - assert (holds_rules g (es0 ++ [e])) as Hh1 by (unfold holds_rules in *; by rewrite Hen in *).
    rewrite <-surjective_pairing in Hadd.
    destruct (IH _ _ _ Hg Hh1 Hadd) as (Hk & Hn & H). by rewrite <-app_assoc in H.
Qed.

(** What building the groups nested in [id] keeps of it. *)
Lemma add_subgroups_spec build id gs s s' g :
  Forall (λ c, ∀ s s' sub, build c s = Done (Ok (sub, s')) →
    sub = s.2 ∧ (s.2 < s'.2)%nat ∧ keeps s.2 s s' ∧ is_Some (s'.1 !! sub)) gs →
  s.1 !! id = Some g → (id < s.2)%nat → add_subgroups build id gs s = Done (Ok s') →
  keeps id s s' ∧ ∃ g', s'.1 !! id = Some g' ∧ same_head g g'
    ∧ Composite.g_rules g' = Composite.g_rules g
    ∧ length (Composite.g_subGroups g')
      = (length (Composite.g_subGroups g) + if Composite.g_enabled g then length gs else 0)%nat.
Proof.
  intros Hb. revert s g; induction Hb as [|c gs Hc _ IH]; intros s g Hg Hid Hadd; cbn in Hadd.
  { injection Hadd as <-. split; [by split|]. exists g. split_and!; try done.
    destruct (Composite.g_enabled g); cbn; lia. }
  destruct (build c s) as [[[sub s1]|]|] eqn:Hbuild; try done. cbn in Hadd.
  destruct (Hc _ _ _ Hbuild) as (-> & Hlt & [Hle Hsame] & [gs1 Hsub]).
  unfold Composite.AddSubGroup, Composite.get_group in Hadd.
  rewrite (Hsame id Hid), Hg in Hadd. cbn in Hadd.
  destruct (Composite.g_enabled g) eqn:Hen; cbn in Hadd.
  - rewrite Hsub in Hadd. cbn in Hadd.
    rewrite lookup_insert_ne, (Hsame id Hid), Hg in Hadd by lia. cbn in Hadd.
    match type of Hadd with add_subgroups _ _ _ ?s1 = _ =>
      destruct (IH s1 _ (lookup_insert_eq _ _ _) ltac:(cbn; lia) Hadd)
        as (Hk & g' & H1 & [H2 H2'] & H3 & H4) end.
    cbn in *. rewrite Hen in H4. rewrite length_app in H4. cbn in H4. split.
    + destruct Hk as [Hk1 Hk]. split; [cbn in *; lia|]. intros i Hi.
      rewrite (Hk i Hi). cbn. rewrite !lookup_insert_ne by lia. apply Hsame. lia.
    + exists g'. split_and!; try done. lia.
  - rewrite <-surjective_pairing in Hadd.
    destruct (IH s1 g ltac:(by rewrite (Hsame id Hid)) ltac:(lia) Hadd)
      as (Hk & g' & H1 & [H2 H2'] & H3 & H4).
    rewrite Hen in H4. split.
    + eapply keeps_trans; [|exact Hk]. split; [done|]. intros i Hi. apply Hsame. lia.
    + by exists g'.
Qed.

Lemma NewRuleGroup_fields name d fb b o :
  let g := Composite.NewRuleGroup name ((if d : bool then [] else [Composite.WithDescription o])
             ++ [Composite.WithEnabled b] ++ fb) in
  Forall (λ x, ∃ r, x = Composite.WithGroupFallback r) fb →
  Composite.g_Name g = name ∧ Composite.g_enabled g = b ∧ Composite.g_rules g = []
  ∧ Composite.g_subGroups g = [].
Proof.
  cbn. intros Hfb. unfold Composite.NewRuleGroup. rewrite fold_left_app. cbn.
  match goal with |- context [fold_left _ fb ?g0] =>
    assert (Composite.g_Name g0 = name ∧ Composite.g_enabled g0 = b ∧ Composite.g_rules g0 = []
            ∧ Composite.g_subGroups g0 = []) as Hg0 by (by destruct d);
    generalize dependent g0 end.
  induction Hfb as [|x fb [r ->] _ IH]; intros g0 Hg0; [done|]. cbn. by apply IH.
Qed.

Lemma buildRuleGroup_spec config : ∀ s s' id, buildRuleGroup config s = Done (Ok (id, s')) →
  id = s.2 ∧ (s.2 < s'.2)%nat ∧ keeps s.2 s s' ∧
  ∃ g, s'.1 !! id = Some g ∧ Composite.g_Name g = gc_Name config
    ∧ Composite.g_enabled g = default true (gc_Enabled config) ∧ holds_rules g (gc_Rules config)
    ∧ length (Composite.g_subGroups g)
      = if Composite.g_enabled g then length (gc_SubGroups config) else 0%nat.
Proof.
  induction config as [config IH] using GroupConfig_nested_ind. intros s s' id.
  destruct config as [name desc en fbname rs subs md]. cbn [buildRuleGroup gc_Name gc_Description
    gc_Enabled gc_Fallback gc_Rules gc_SubGroups] in *.
  set (fbr := if bool_decide (fbname = "") then _ else _).
  assert (match fbr with Ok fb => Forall (λ x, ∃ r, x = Composite.WithGroupFallback r) fb | Err _ => True end)
    as Hfb.
  { unfold fbr. case_bool_decide; [constructor|]. destruct (createResolverFromStrategy _); [|done].
    constructor; [by eexists|constructor]. }
  destruct fbr as [fb|]; [|done].
  pose proof (NewRuleGroup_fields name (bool_decide (desc = "")) fb (default true en) desc Hfb) as Hg0.
  cbn zeta in Hg0. set (g0 := Composite.NewRuleGroup _ _) in *. clearbody g0.
  destruct Hg0 as (Hn & He & Hr & Hs).
  destruct (add_group_rules _ _ _ _) as [[s1|]|] eqn:Hrules; try done. cbn [obind].
  assert (holds_rules g0 []) as Hh0.
  { unfold holds_rules. rewrite Hr. by destruct (Composite.g_enabled g0). }
  match type of Hrules with add_group_rules _ _ _ ?s0 = _ =>
    destruct (add_group_rules_spec _ _ _ [] s0 _ g0 (lookup_insert_eq _ _ _) Hh0 Hrules)
      as (Hk1 & Hc1 & g1 & H1 & [Hn1 He1] & Hh1 & Hs1) end.
  destruct (add_subgroups _ _ _ s1) as [[s2|]|] eqn:Hsubs; try done. cbn [obind]. intros [= <- <-].
  destruct (add_subgroups_spec buildRuleGroup s.2 subs s1 s2 g1)
    as (Hk2 & g2 & H2 & [Hn2 He2] & Hr2 & Hl2); [|done|rewrite Hc1; cbn; lia|done|].
  { eapply Forall_impl; [exact IH|]. intros c Hc sa sb sub Hb.
    destruct (Hc _ _ _ Hb) as (? & ? & ? & ? & ? & _). by split_and!; [..|eexists]. }
  split_and!; [done| | |].
  - destruct Hk2 as [? _]. cbn in *. lia.
  - eapply keeps_trans; [|exact Hk2]. eapply keeps_trans; [|exact Hk1].
    split; [cbn; lia|]. intros i Hi. cbn. by rewrite lookup_insert_ne by lia.
  - exists g2. split_and!; [done|congruence|congruence| |].
    + unfold holds_rules in *. cbn in Hh1. by rewrite He2, Hn2, Hr2.
    + rewrite Hl2, Hs1, Hs, He2. done.
Qed.

(** Remark: the group built from a configuration has its name, whether it is enabled,
    and, when it is, its rules in order under the group's name and one subgroup
    per nested group; but a group configured as disabled is built without its
    rules and subgroups, so that enabling it later leaves it empty, and all
    this disturbs no group built before. *)
Theorem disabled_group_loses_rules (config : GroupConfig) (s : groups) :
  match buildRuleGroup config s with
  | Done (Ok (id, s')) =>
      keeps s.2 s s' ∧
      ∃ g, s'.1 !! id = Some g ∧ Composite.g_Name g = gc_Name config
        ∧ Composite.g_enabled g = default true (gc_Enabled config)
        ∧ holds_rules g (gc_Rules config)
        ∧ (gc_Enabled config = Some false → Composite.g_rules g = [] ∧ Composite.g_subGroups g = []
             ∧ ∀ fuel, (h ← match Composite.Enable id s'.1 with Done h => Some h | _ => None end;
                        Some (Composite.GetAllRules (S fuel) h id)) = Some (Done []))
        ∧ (default true (gc_Enabled config) = true →
             length (Composite.g_subGroups g) = length (gc_SubGroups config))
  | _ => True
  end.
Proof.
  destruct (buildRuleGroup config s) as [[[id s']|]|] eqn:Hb; try done.
  apply buildRuleGroup_spec in Hb as (_ & _ & Hk & g & Hg & Hn & He & Hh & Hl).
  split; [done|]. exists g. split_and!; try done.
  - intros Hoff. rewrite Hoff in He. cbn in He. unfold holds_rules in Hh. rewrite He in Hh, Hl.
    apply nil_length_inv in Hl. split_and!; [done..|]. intros fuel.
    unfold Composite.Enable, Composite.set_enabled, Composite.get_group. rewrite Hg. cbn.
    unfold Composite.get_group. rewrite lookup_insert_eq. cbn. by rewrite Hh, Hl.
  - intros Hon. rewrite Hl, He, Hon. done.
Qed.
End grouping.

(** ** Concrete instances *)
Definition demo_entry (name strategy : string) (types : list string) : RuleConfigEntry :=
  mkEntry name "" None 0 (mkConditions types [] [] None) (mkResolution strategy None) None.
Definition demo_config : RuleConfig :=
  mkRuleConfig "1" "demo" "" None (mkSettings "Manual" (mkTimeoutSettings 0 0) (mkLimitSettings 0 0) None None)
    [mkGroupConfig "orders" "" (Some false) "" [demo_entry "late" "LWW" ["updated"]] [] None]
    [demo_entry "both" "fww" ["created"; "updated"]].
Example demo_config_valid : BasicValidator_Validate (Some demo_config) = Done None.
Proof. reflexivity. Qed.
(** Two event types at once are never met; the disabled group's rule is. *)
Example demo_config_resolves :
  let c := mkConflict "updated" "a" [] None (mkEWV None (Some (IntegerCursor 2))) zero_ewv in
  reference (MR := canonical_range) demo_config background c
  = LastWriteWins (MR := canonical_range) background c.
Proof. reflexivity. Qed.
Example detectFormat_json : detectFormat "conf/rules.v2.JSON" = "json".
Proof. reflexivity. Qed.
