(* ===== verification/CanonicalConfig.v ===== *)
(** * The canonical configuration (src/synckit/canonical_config.go)

    The declarative configuration of a manager, its validation, and the manager
    built from it with the builder of [ManagerBuild.v].  As there, the logger,
    the collector and the tracer are left out. *)
From S2P Require Import Prelude Types Json Text Errors VectorClock Versions StateMachine SyncState.
From S2P Require Import Resolvers Interfaces Manager ManagerBuild.
From stdpp Require Import options.

(** [CursorMode] is an integer type with two named values. *)
Definition CursorInteger : Z := 0.
Definition CursorVector : Z := 1.

Record RetryPolicy := mkRetryPolicy { Max : Z; Base : Z; Cap : Z; Jitter : bool }.

(** ** The configuration *)
Section config.
Context {MR : MapRange} {St T : Type}.

Record Config := mkConfig {
  c_Store : option St;
  c_Transport : option T;
  c_Cursor : Z;
  c_Retry : RetryPolicy;
  c_Resolvers : option Resolver;
  c_Timeout : Z;
  c_BatchSize : Z;
  c_SyncInterval : Z;
  c_PushOnly : bool;
  c_PullOnly : bool;
  c_EnableValidation : bool;
  c_EnableCompression : bool;
  c_Filter : option (option Event → outcome bool)
}.

Definition Validate (c : Config) : option error :=
  let r := c_Retry c in
  match c_Store c with
  | None => Some (ErrMsg "Store is required")
  | Some _ =>
      if c_Timeout c <? 0 then Some (ErrMsg "timeout must be non-negative")
      else if c_BatchSize c <? 0 then Some (ErrMsg "BatchSize must be non-negative")
      else if c_SyncInterval c <? 0 then Some (ErrMsg "SyncInterval must be non-negative")
      else if c_PushOnly c && c_PullOnly c
      then Some (ErrMsg "PushOnly and PullOnly are mutually exclusive")
      else if negb (Max r =? 0) && (Max r <? -1)
      then Some (ErrMsg "Retry.Max must be >= -1 (-1 for unlimited, 0 for disabled, >0 for limited)")
      else if negb (Max r =? 0) && (Base r <=? 0)
      then Some (ErrMsg "Retry.Base must be > 0 when retries are enabled")
      else if negb (Max r =? 0) && (Cap r <? Base r)
      then Some (ErrMsg ("Retry.Cap (" +:+ duration_String (Cap r) +:+ ") must be >= Retry.Base ("
                         +:+ duration_String (Base r) +:+ ")"))
      else if negb (c_Cursor c =? CursorInteger) && negb (c_Cursor c =? CursorVector)
      then Some (ErrMsg ("invalid CursorMode: " +:+ format_int (c_Cursor c)
                         +:+ " (must be CursorInteger or CursorVector)"))
      else None
  end.

(** The builder after the optional settings. *)
Definition builder_of (c : Config) : SyncManagerBuilder St T :=
  let b := b_WithStore (c_Store c) NewSyncManagerBuilder in
  let b := match c_Transport c with Some t => b_WithTransport (Some t) b | None => b end in
  let b := match c_Resolvers c with Some r => b_WithConflictResolver (Some r) b | None => b end in
  let b := if 0 <? c_BatchSize c then b_WithBatchSize (c_BatchSize c) b else b in
  let b := if 0 <? c_Timeout c then b_WithTimeout (c_Timeout c) b else b in
  let b := if 0 <? c_SyncInterval c then b_WithSyncInterval (c_SyncInterval c) b else b in
  let b := if c_PushOnly c then b_WithPushOnly b else b in
  let b := if c_PullOnly c then b_WithPullOnly b else b in
  let b := if c_EnableValidation c then b_WithValidation b else b in
  let b := if c_EnableCompression c then b_WithCompression true b else b in
  match c_Filter c with Some f => b_WithFilter (Some f) b | None => b end.
Definition newManagerFromConfig (now : Z) (c : Config) : outcome (result error (St * T * syncManager)) :=
  let* (_, r) := Build now (builder_of c) in Done r.

Definition New (now : Z) (c : Config) : outcome (result error (St * T * syncManager)) :=
  match Validate c with
  | Some e => Done (Err (ErrWrap "invalid configuration" e))
  | None => newManagerFromConfig now c
  end.

(** ** Properties *)
Definition valid (c : Config) : Prop :=
  is_Some (c_Store c) ∧ 0 ≤ c_Timeout c ∧ 0 ≤ c_BatchSize c ∧ 0 ≤ c_SyncInterval c
  ∧ ¬ (c_PushOnly c = true ∧ c_PullOnly c = true)
  ∧ (Max (c_Retry c) ≠ 0 →
       -1 ≤ Max (c_Retry c) ∧ 0 < Base (c_Retry c) ≤ Cap (c_Retry c))
  ∧ (c_Cursor c = CursorInteger ∨ c_Cursor c = CursorVector).

Lemma Validate_spec c : Validate c = None ↔ valid c.
Proof.
  unfold Validate, valid. destruct (c_Store c) as [s|].
  2: { split; [done|]. intros ([? ?] & _). done. }
  destruct (Z.ltb_spec (c_Timeout c) 0); [split; [done|lia]|].
  destruct (Z.ltb_spec (c_BatchSize c) 0); [split; [done|lia]|].
  destruct (Z.ltb_spec (c_SyncInterval c) 0); [split; [done|lia]|].
  destruct (c_PushOnly c && c_PullOnly c) eqn:Hboth.
  { apply andb_true_iff in Hboth. split; [done|tauto]. }
  apply andb_false_iff in Hboth.
  assert (¬ (c_PushOnly c = true ∧ c_PullOnly c = true)) as Hdir
    by (destruct (c_PushOnly c), (c_PullOnly c); naive_solver).
  destruct (Z.eqb_spec (Max (c_Retry c)) 0) as [Hz|Hz]; cbn [negb andb].
  - destruct (Z.eqb_spec (c_Cursor c) CursorInteger), (Z.eqb_spec (c_Cursor c) CursorVector); cbn [negb andb];
      (split; [try done; intros _; split_and!; try done; by eauto|]); try done; tauto.
  - destruct (Z.ltb_spec (Max (c_Retry c)) (-1)); [split; [done|lia]|].
    destruct (Z.leb_spec (Base (c_Retry c)) 0); [split; [done|lia]|].
    destruct (Z.ltb_spec (Cap (c_Retry c)) (Base (c_Retry c))); [split; [done|lia]|].
    destruct (Z.eqb_spec (c_Cursor c) CursorInteger), (Z.eqb_spec (c_Cursor c) CursorVector); cbn [negb andb];
      (split; [try done; intros _; split_and!; try done; by eauto|]); try done; tauto.
Qed.

(** The options a configuration stands for. *)
Definition options_of (c : Config) : SyncOptions :=
  mkSyncOptions (c_PushOnly c) (c_PullOnly c) (Some (default default_resolver (c_Resolvers c)))
    (c_Filter c) (if 0 <? c_BatchSize c then c_BatchSize c else 100) (c_SyncInterval c) None
    (c_EnableValidation c) (c_Timeout c) (c_EnableCompression c).

Lemma builder_of_fields c : valid c →
  builder_of c
  = mkBuilder (c_Store c) (c_Transport c)
      (mkSyncOptions (c_PushOnly c) (c_PullOnly c) (c_Resolvers c) (c_Filter c)
         (if 0 <? c_BatchSize c then c_BatchSize c else 100) (c_SyncInterval c) None
         (c_EnableValidation c) (c_Timeout c) (c_EnableCompression c))
      (c_PushOnly c) (c_PullOnly c) 0 false 3 (30 * second).
Proof.
  intros (_ & Ht & _ & Hi & Hd & _). destruct c as [st tr cur ret res to bs si pu pl va co fi].
  unfold builder_of. cbn [c_Store c_Transport c_Cursor c_Retry c_Resolvers c_Timeout c_BatchSize
    c_SyncInterval c_PushOnly c_PullOnly c_EnableValidation c_EnableCompression c_Filter] in *.
  destruct (Z.ltb_spec 0 to) as [|Ht0]; [|replace to with 0 by lia];
    (destruct (Z.ltb_spec 0 si) as [|Hi0]; [|replace si with 0 by lia]);
    destruct (0 <? bs), pu, pl; try (by destruct Hd);
    destruct tr, res, fi, va, co; reflexivity.
Qed.
Lemma Build_of_config now c : valid c →
  match newManagerFromConfig now c with
  | Panic _ => False
  | Done (Err e) => c_Transport c = None ∧ e = ErrMsg "Transport is required"
  | Done (Ok (s, t, m)) =>
      c_Store c = Some s ∧ c_Transport c = Some t ∧ options m = options_of c
      ∧ closed m = false ∧ Current <$> stateMachine m = Some SyncIdle
  end.
Proof.
  intros Hv. unfold newManagerFromConfig. rewrite builder_of_fields by done. unfold Build.
  destruct Hv as ([s Hs] & _ & _ & _ & Hd & _).
  cbn [b_store b_transport b_options pushOnlySet pullOnlySet projectionRunners runProjectionsOnSync
    projectionMaxWorkers projectionTimeout]. rewrite Hs.
  destruct (c_Transport c) as [t|]; [|by cbn].
  destruct (c_PushOnly c && c_PullOnly c) eqn:Hb; [apply andb_true_iff in Hb; tauto|].
  cbn [BatchSize].
  assert ((if 0 <? c_BatchSize c then c_BatchSize c else 100) <=? 0 = false) as ->
    by (destruct (Z.ltb_spec 0 (c_BatchSize c)); apply Z.leb_gt; lia).
  match goal with |- context [NewSyncManager now (Some ?o) (Some ?p)] =>
    destruct (NewSyncManager_fields now o (Some p)) as (o' & m & -> & -> & Hm & Hc & _ & _ & sm & Hsm & _ & Hst & _)
  end; [intros cfg [= <-]; cbn; lia|].
  cbn [obind]. split_and!; try done.
  rewrite Hsm. cbn. unfold Current. by rewrite Hst.
Qed.

(** Remark: a configuration is accepted exactly when it keeps to the documented
    rules and, though it is documented as optional, has a transport; the manager
    then runs on its store and transport with exactly its options (100 events
    per batch and last-write-wins unless given), is open and idle; the cursor
    mode and the retry policy change nothing. *)
Theorem New_outcome (now : Z) (c : Config) :
  match New now c with
  | Panic _ => False
  | Done (Err e) => ¬ valid c ∨ (c_Transport c = None ∧ e = ErrMsg "Transport is required")
  | Done (Ok (s, t, m)) =>
      valid c ∧ c_Store c = Some s ∧ c_Transport c = Some t ∧ options m = options_of c
      ∧ closed m = false ∧ Current <$> stateMachine m = Some SyncIdle
      ∧ ∀ cursor retry,
          let c' := mkConfig (c_Store c) (c_Transport c) cursor retry (c_Resolvers c) (c_Timeout c)
                      (c_BatchSize c) (c_SyncInterval c) (c_PushOnly c) (c_PullOnly c)
                      (c_EnableValidation c) (c_EnableCompression c) (c_Filter c) in
          valid c' → New now c' = New now c
  end.
Proof.
  unfold New. destruct (Validate c) as [e|] eqn:Hv.
  { left. rewrite <-Validate_spec, Hv. done. }
  apply Validate_spec in Hv as Hval.
  pose proof (Build_of_config now c Hval) as Hb.
  destruct (newManagerFromConfig now c) as [[[[s t] m]|e]|w] eqn:Hnew; [|by right|done].
  destruct Hb as (? & ? & ? & ? & ?). do 6 (split; [done|]).
  intros cursor retry Hv'. apply Validate_spec in Hv' as ->. exact Hnew.
Qed.
End config.
