(* ===== verification/Idempotency.v ===== *)
(** * Idempotency keys (src/transport/httptransport/idempotency.go)

    The bounded, ageing map of the keys of processed requests and their
    responses, its clean-up goroutine, and how long a key is remembered. *)
From S2P Require Import Prelude.
From stdpp Require Import options.

Definition hour : Z := 3600 * 1000000000.

Section tracker.
Context {R : Type}.

Record idempotencyEntry := mkIdemEntry { timestamp : Z; response : R }.
(** [stopped] is whether [stopChan] is closed, [cleaning] whether the clean-up
    goroutine still runs. *)
Record IdempotencyTracker := mkTracker {
  keys : gmap string idempotencyEntry;
  maxAge : Z;
  maxSize : Z;
  stopped : bool;
  cleaning : bool
}.

Definition NewIdempotencyTracker (age size : Z) : IdempotencyTracker :=
  mkTracker ∅ (if age =? 0 then 24 * hour else age) (if size =? 0 then 10000 else size) false true.
Definition with_keys (m : gmap string idempotencyEntry) (t : IdempotencyTracker) : IdempotencyTracker :=
  mkTracker m (maxAge t) (maxSize t) (stopped t) (cleaning t).

Definition Check_ (now : Z) (key : string) (t : IdempotencyTracker) : option R :=
  match keys t !! key with
  | None => None
  | Some e => if maxAge t <? now - timestamp e then None else Some (response e)
  end.

(** The scan for the oldest entry; before the first one [None]. *)
Fixpoint oldest (l : list (string * idempotencyEntry)) (o : option (string * Z)) : option (string * Z) :=
  match l with
  | [] => o
  | (k, e) :: rest =>
      oldest rest (match o with
                   | None => Some (k, timestamp e)
                   | Some (_, t) => if timestamp e <? t then Some (k, timestamp e) else o
                   end)
  end.
Definition evict `{!MapRange} (t : IdempotencyTracker) : gmap string idempotencyEntry :=
  if maxSize t <=? Z.of_nat (size (keys t)) then
    delete (match oldest (range (keys t)) None with Some (k, _) => k | None => "" end) (keys t)
  else keys t.
Definition Record_ `{!MapRange} (now : Z) (key : string) (r : R) (t : IdempotencyTracker)
    : IdempotencyTracker :=
  with_keys (<[key := mkIdemEntry now r]> (evict t)) t.

(** One tick of the clean-up goroutine, and its end. *)
Definition expired (t : IdempotencyTracker) (now : Z) (e : idempotencyEntry) : bool :=
  maxAge t <? now - timestamp e.
Definition cleanup_tick (now : Z) (t : IdempotencyTracker) : option IdempotencyTracker :=
  if cleaning t then Some (with_keys (filter (λ kv, expired t now kv.2 = false) (keys t)) t) else None.
Definition cleanup_stop (t : IdempotencyTracker) : option IdempotencyTracker :=
  if cleaning t && stopped t
  then Some (mkTracker (keys t) (maxAge t) (maxSize t) (stopped t) false) else None.

Definition Close (t : IdempotencyTracker) : outcome IdempotencyTracker :=
  if stopped t then Panic "close of closed channel"
  else Done (mkTracker (keys t) (maxAge t) (maxSize t) true (cleaning t)).
Definition Size (t : IdempotencyTracker) : nat := size (keys t).
Definition Clear (t : IdempotencyTracker) : IdempotencyTracker := with_keys ∅ t.

(** ** Steps under a clock that never repeats a reading *)
Inductive tracker_step {MR : MapRange} : Z * IdempotencyTracker → Z * IdempotencyTracker → Prop :=
  | step_record now now' key r t : now < now' →
      tracker_step (now, t) (now', Record_ now' key r t)
  | step_tick now now' t t' : now ≤ now' → cleanup_tick now' t = Some t' → tracker_step (now, t) (now', t')
  | step_stop now t t' : cleanup_stop t = Some t' → tracker_step (now, t) (now, t')
  | step_close now t t' : Close t = Done t' → tracker_step (now, t) (now, t')
  | step_clear now t : tracker_step (now, t) (now, Clear t).
End tracker.
Arguments idempotencyEntry : clear implicits.
Arguments IdempotencyTracker : clear implicits.

Section facts.
Context {MR : MapRange} {R : Type}.

Lemma oldest_min (l : list (string * idempotencyEntry R)) o :
  match oldest l o with
  | None => l = [] ∧ o = None
  | Some (k, ts) =>
      (o = Some (k, ts) ∨ ∃ e, (k, e) ∈ l ∧ timestamp e = ts)
      ∧ (∀ x, x ∈ l → ts ≤ timestamp x.2) ∧ (∀ x, o = Some x → ts ≤ x.2)
  end.
Proof.
  revert o; induction l as [|[k e] l IH]; intros o; cbn [oldest].
  { destruct o as [[k ts]|]; [|done]. split; [by left|]. split; [by intros x ?%not_elem_of_nil|].
    by intros x [= <-]. }
  set (o' := match o with None => _ | Some (_, t) => _ end). specialize (IH o').
  assert (∃ k' ts', o' = Some (k', ts') ∧ ts' ≤ timestamp e ∧ (∀ x, o = Some x → ts' ≤ x.2)
    ∧ (o = Some (k', ts') ∨ k' = k ∧ ts' = timestamp e)) as (k' & ts' & Ho' & Hle & Hold & Hwho).
  { unfold o'. destruct o as [[k0 t0]|].
    - destruct (Z.ltb_spec (timestamp e) t0); eexists _, _; (split; [reflexivity|]);
        (split; [lia|]); (split; [intros x [= <-]; cbn; lia|]); tauto.
    - eexists _, _. split; [reflexivity|]. split; [lia|]. split; [done|]. tauto. }
  destruct (oldest l o') as [[k1 t1]|]; [|by destruct IH as [_ ?]; congruence].
  destruct IH as (Hin & Hmin & Ho). pose proof (Ho _ Ho') as Hle'. cbn in Hle'. split_and!.
  - destruct Hin as [Heq|(e1 & ? & ?)].
    + rewrite Ho' in Heq. injection Heq as <- <-.
      destruct Hwho as [?|[-> ->]]; [by left|]. right. exists e. split; [left|done].
    + right. exists e1. split; [by right|done].
  - intros x [->|Hx]%elem_of_cons; [cbn; lia|by apply Hmin].
  - intros x Hx. specialize (Hold x Hx). lia.
Qed.

Implicit Types t : IdempotencyTracker R.

(** Which entry is dropped: one that is at most as old as every other. *)
Lemma evict_oldest t :
  evict t = keys t ∧ Z.of_nat (size (keys t)) < maxSize t
  ∨ keys t = ∅ ∧ evict t = ∅
  ∨ ∃ k e, keys t !! k = Some e ∧ evict t = delete k (keys t)
      ∧ ∀ k' e', keys t !! k' = Some e' → timestamp e ≤ timestamp e'.
Proof.
  unfold evict. destruct (Z.leb_spec (maxSize t) (Z.of_nat (size (keys t)))); [right|by left].
  pose proof (oldest_min (range (keys t)) None) as Ho.
  destruct (oldest (range (keys t)) None) as [[k ts]|].
  - right. destruct Ho as ([?|(e & Hin & <-)] & Hmin & _); [done|]. apply elem_of_range in Hin.
    exists k, e. split_and!; [done..|]. intros k' e' H'. by apply (Hmin (k', e')), elem_of_range.
  - left. destruct Ho as [Hnil _]. assert (keys t = ∅) as ->.
    { rewrite <-(list_to_map_range (keys t)), Hnil. done. }
    split; [done|]. apply delete_empty.
Qed.

Record tracker_inv (now : Z) t : Prop := {
  inv_size : 0 < maxSize t → Z.of_nat (size (keys t)) ≤ maxSize t;
  inv_past : ∀ k e, keys t !! k = Some e → timestamp e ≤ now;
  inv_distinct : ∀ k k' e e', keys t !! k = Some e → keys t !! k' = Some e' →
    timestamp e = timestamp e' → k = k'
}.

Lemma evict_lookup t k e : evict t !! k = Some e → keys t !! k = Some e.
Proof.
  intros He. destruct (evict_oldest t) as [[Heq _]|[[_ Heq]|(k0 & e0 & _ & Heq & _)]].
  - by rewrite Heq in He.
  - by rewrite Heq in He.
  - rewrite Heq in He. by apply lookup_delete_Some in He as [_ ?].
Qed.

Lemma evict_size t : 0 < maxSize t → Z.of_nat (size (keys t)) ≤ maxSize t →
  Z.of_nat (size (evict t)) < maxSize t.
Proof.
  intros Hpos Hsz. destruct (evict_oldest t) as [[-> ?]|[[_ ->]|(k0 & e0 & Hk & -> & _)]].
  - done.
  - rewrite map_size_empty. lia.
  - rewrite map_size_delete_Some by eauto.
    assert (size (keys t) ≠ 0%nat); [|lia]. apply map_size_non_empty_iff. intros Hz. by rewrite Hz in Hk.
Qed.

Lemma Record_inv now now' key (r : R) t : now < now' → tracker_inv now t → tracker_inv now' (Record_ now' key r t).
Proof.
  intros Hlt [Hs Hp Hd]. split; cbn.
  - intros Hpos. specialize (Hs Hpos). pose proof (evict_size t Hpos Hs).
    destruct (evict t !! key) as [e|] eqn:Hk.
    + rewrite map_size_insert_Some by eauto. lia.
    + rewrite map_size_insert_None by done. lia.
  - intros k e [[<- <-]|[_ He]]%lookup_insert_Some; [cbn; lia|].
    apply evict_lookup in He. specialize (Hp _ _ He). lia.
  - intros k k' e e' H1 H2 Heq.
    apply lookup_insert_Some in H1 as [[<- <-]|[Hn1 H1]];
      apply lookup_insert_Some in H2 as [[<- <-]|[Hn2 H2]]; cbn in Heq; [done|..].
    + apply evict_lookup, Hp in H2. lia.
    + apply evict_lookup, Hp in H1. lia.
    + apply evict_lookup in H1, H2. by eapply Hd.
Qed.
Lemma step_inv s s' : tracker_step s s' → tracker_inv s.1 s.2 → tracker_inv s'.1 s'.2.
Proof.
  intros Hstep Hinv. destruct Hstep as [now now' key r t Hlt|now now' t t' Hle Ht|now t t' Ht|now t t' Ht|now t];
    cbn in *.
  - by eapply Record_inv.
  - unfold cleanup_tick in Ht. destruct (cleaning t); [|done]. injection Ht as <-.
    destruct Hinv as [Hs Hp Hd]. split; cbn.
    + intros Hpos. specialize (Hs Hpos).
      pose proof (map_size_filter (λ kv : string * idempotencyEntry R, expired t now' kv.2 = false) (keys t)). lia.
    + intros k e [He _]%map_lookup_filter_Some. specialize (Hp _ _ He). lia.
    + intros k k' e e' [H1 _]%map_lookup_filter_Some [H2 _]%map_lookup_filter_Some. by eapply Hd.
  - unfold cleanup_stop in Ht. destruct (_ && _); [|done]. injection Ht as <-. by destruct Hinv.
  - unfold Close in Ht. destruct (stopped t); [done|]. injection Ht as <-. by destruct Hinv.
  - split; unfold Clear, with_keys; cbn [keys maxSize].
    + intros ?. rewrite map_size_empty. lia.
    + intros k e He. by rewrite lookup_empty in He.
    + intros k k' e e' He. by rewrite lookup_empty in He.
Qed.

Lemma step_maxSize (s s' : Z * IdempotencyTracker R) :
  tracker_step s s' → maxSize s'.2 = maxSize s.2.
Proof.
  destruct 1 as [| now now' t t' Hle Ht|now t t' Ht|now t t' Ht|]; try done.
  - unfold cleanup_tick in Ht. destruct (cleaning t); [|done]. by injection Ht as <-.
  - unfold cleanup_stop in Ht. destruct (_ && _); [|done]. by injection Ht as <-.
  - unfold Close in Ht. destruct (stopped t); [done|]. by injection Ht as <-.
Qed.

(** What is known of a key after [j] later records. *)
Record remembered (t0 : Z) (key : string) (r : R) (j : nat) (t : IdempotencyTracker R) : Prop := {
  rem_entry : keys t !! key = Some (mkIdemEntry t0 r);
  rem_newer : (size (filter (λ kv, (t0 < timestamp kv.2)%Z) (keys t)) ≤ j)%nat
}.

Lemma Record_remembers now now' key' (r' : R) (t0 : Z) key (r : R) j t :
  tracker_inv now t → now < now' → Z.of_nat (S j) < maxSize t → key ≠ key' →
  remembered t0 key r j t → remembered t0 key r (S j) (Record_ now' key' r' t).
Proof.
  intros [Hs Hp Hd] Hlt Hroom Hne [He Hn].
  assert (evict t !! key = Some (mkIdemEntry t0 r)) as Hkeep.
  { destruct (evict_oldest t) as [[-> _]|[[Hnil _]|(k0 & e0 & Hk0 & Heq & Hmin)]]; [done| |].
    { by rewrite Hnil in He. }
    rewrite Heq. destruct (decide (k0 = key)) as [->|Hk]; [|by rewrite lookup_delete_ne].
    exfalso. rewrite He in Hk0. injection Hk0 as <-. cbn in Hmin.
    assert (delete key (keys t) ⊆ filter (λ kv, (t0 < timestamp kv.2)%Z) (keys t)) as Hsub.
    { apply map_subseteq_spec. intros k e [Hnk Hk]%lookup_delete_Some.
      apply map_lookup_filter_Some. split; [done|]. cbn. pose proof (Hmin _ _ Hk).
      assert (t0 ≠ timestamp e); [|lia]. intros Ht. apply Hnk. eapply Hd; [exact He|exact Hk|done]. }
    apply map_subseteq_size in Hsub. rewrite map_size_delete_Some in Hsub by eauto.
    unfold evict in Heq. destruct (Z.leb_spec (maxSize t) (Z.of_nat (size (keys t)))); [lia|].
    rewrite Heq in He. by rewrite lookup_delete_eq in He. }
  split; cbn.
  - by rewrite lookup_insert_ne.
  - assert (filter (λ kv : string * idempotencyEntry R, (t0 < timestamp kv.2)%Z) (evict t)
      ⊆ filter (λ kv, (t0 < timestamp kv.2)%Z) (keys t)) as Hsub.
    { apply map_subseteq_spec. intros k e [Hk ?]%map_lookup_filter_Some.
      apply map_lookup_filter_Some. split; [by apply evict_lookup|done]. }
    apply map_subseteq_size in Hsub. rewrite map_filter_insert. case_decide.
    + rewrite map_size_insert. case_match; cbn; lia.
    + etransitivity; [|apply le_S, Hn]. etransitivity; [|exact Hsub].
      apply map_subseteq_size, map_filter_subseteq_mono, delete_subseteq.
Qed.

Lemma Record_first now (t0 : Z) key (r : R) t :
  tracker_inv now t → now < t0 → remembered t0 key r 0 (Record_ t0 key r t).
Proof.
  intros [_ Hp _] Hlt. split; cbn; [by rewrite lookup_insert_eq|].
  rewrite map_empty_filter_2; [by rewrite map_size_empty|].
  intros k e [[<- <-]|[_ He]]%lookup_insert_Some; cbn; [lia|].
  apply evict_lookup, Hp in He. lia.
Qed.

(** What may happen after a record of [key] at [t0]: [j] records of other keys,
    clean-ups while the record is young, the end of the clean-up, closing. *)
Inductive replay_run (t0 : Z) (key : string)
    : nat → Z * IdempotencyTracker R → Z * IdempotencyTracker R → Prop :=
  | run_done s : replay_run t0 key 0 s s
  | run_record j now now' key' r t s' :
      now < now' → key ≠ key' → replay_run t0 key j (now', Record_ now' key' r t) s' →
      replay_run t0 key (S j) (now, t) s'
  | run_tick j now now' t t' s' :
      now ≤ now' → now' - t0 ≤ maxAge t → cleanup_tick now' t = Some t' →
      replay_run t0 key j (now', t') s' → replay_run t0 key j (now, t) s'
  | run_stop j now t t' s' : cleanup_stop t = Some t' → replay_run t0 key j (now, t') s' →
      replay_run t0 key j (now, t) s'
  | run_close j now t t' s' : Close t = Done t' → replay_run t0 key j (now, t') s' →
      replay_run t0 key j (now, t) s'.

Lemma remembered_same (t0 : Z) key (r : R) j t t' :
  remembered t0 key r j t → keys t' = keys t → remembered t0 key r j t'.
Proof. intros [? ?] Heq. split; by rewrite Heq. Qed.

Lemma replay_remembers (t0 : Z) key (r : R) k j s s' :
  replay_run t0 key j s s' → tracker_inv s.1 s.2 → remembered t0 key r k s.2 →
  Z.of_nat (k + j) < maxSize s.2 →
  remembered t0 key r (k + j) s'.2 ∧ maxAge s'.2 = maxAge s.2.
Proof.
  intros Hrun. revert k; induction Hrun as [s|j now now' key' r' t s' Hlt Hne _ IH
    |j now now' t t' s' Hle Hyoung Ht _ IH|j now t t' s' Ht _ IH|j now t t' s' Ht _ IH];
    intros k Hinv Hrem Hroom; cbn in *.
  - by rewrite Nat.add_0_r.
  - destruct (IH (S k)) as [H1 H2].
    + by eapply Record_inv.
    + eapply Record_remembers; eauto. lia.
    + cbn. lia.
    + split; [by replace (k + S j)%nat with (S k + j)%nat by lia|done].
  - assert (tracker_inv now' t') as Hinv'
      by (by eapply (step_inv (now, t) (now', t')); [constructor|]).
    unfold cleanup_tick in Ht. destruct (cleaning t); [|done]. injection Ht as <-.
    apply IH; [done| |done]. destruct Hrem as [He Hn]. split; cbn.
    + apply map_lookup_filter_Some. split; [done|]. unfold expired. cbn. by apply Z.ltb_ge.
    + etransitivity; [|exact Hn]. apply map_subseteq_size.
      apply map_filter_subseteq_mono, map_filter_subseteq.
  - unfold cleanup_stop in Ht. destruct (_ && _); [|done]. injection Ht as <-.
    apply IH; [by destruct Hinv|by eapply remembered_same|done].
  - unfold Close in Ht. destruct (stopped t); [done|]. injection Ht as <-.
    apply IH; [by destruct Hinv|by eapply remembered_same|done].
Qed.
End facts.

Lemma New_tracker_inv {R} now age size : tracker_inv now (NewIdempotencyTracker (R := R) age size).
Proof.
  split; unfold NewIdempotencyTracker; cbn [keys maxSize].
  - intros ?. rewrite map_size_empty. lia.
  - intros k e He. by rewrite lookup_empty in He.
  - intros k k' e e' He. by rewrite lookup_empty in He.
Qed.

(** Remark: a tracker with a positive limit never holds more keys than the limit,
    whatever is recorded, cleaned up, cleared or closed; the zero limit and age
    stand for 10000 keys and a day; closing it a second time panics. *)
Theorem tracker_bounded {MR : MapRange} {R} (age size now : Z) (s : Z * IdempotencyTracker R)
    (Hrun : rtc tracker_step (now, NewIdempotencyTracker age size) s) (Hpos : 0 ≤ size) :
  Z.of_nat (Size s.2) ≤ (if size =? 0 then 10000 else size)
  ∧ (∀ t, Close s.2 = Done t → Close t = Panic "close of closed channel").
Proof.
  assert (maxSize s.2 = (if size =? 0 then 10000 else size) ∧ tracker_inv s.1 s.2) as [Hmax Hinv].
  { change (maxSize (s.2) = maxSize (NewIdempotencyTracker (R := R) age size) ∧ tracker_inv s.1 s.2).
    pose proof (New_tracker_inv (R := R) now age size) as Hinit.
    remember (now, NewIdempotencyTracker age size) as s0 eqn:Hs0.
    assert (maxSize s0.2 = maxSize (NewIdempotencyTracker (R := R) age size) ∧ tracker_inv s0.1 s0.2) as Hstart
      by (by subst).
    clear Hs0 Hinit. induction Hrun as [|s0 s1 s2 Hstep _ IH]; [done|]. apply IH.
    destruct Hstart as [Hm Hi]. split; [|by eapply step_inv].
    rewrite <-Hm. by apply step_maxSize. }
  destruct Hinv as [Hs _ _]. rewrite Hmax in Hs. unfold Size. split.
  - apply Hs. destruct (Z.eqb_spec size 0); lia.
  - unfold Close. destruct (stopped s.2); [done|]. by intros t [= <-].
Qed.

(** Remark: as long as fewer than [maxSize] other keys have been recorded since, a key is
    answered with the response recorded for it exactly until it is older than
    [maxAge], whatever clean-ups and closing happen in between. *)
Theorem idempotent_replay {MR : MapRange} {R} (now t0 : Z) (key : string) (r : R) (j : nat)
    (t : IdempotencyTracker R) (s : Z * IdempotencyTracker R)
    (Hinv : tracker_inv now t) (Ht0 : now < t0) (Hroom : Z.of_nat j < maxSize t)
    (Hrun : replay_run t0 key j (t0, Record_ t0 key r t) s) (q : Z) :
  Check_ q key s.2 = if q - t0 <=? maxAge t then Some r else None.
Proof.
  pose proof (Record_first now t0 key r t Hinv Ht0) as Hfirst.
  destruct (replay_remembers t0 key r 0 j _ s Hrun) as [[He _] Hage]; [by eapply Record_inv|done..|].
  unfold Check_. rewrite He, Hage. cbn. rewrite Z.leb_antisym. by destruct (maxAge t <? q - t0).
Qed.

(** ** Concrete instances *)
Definition demo_tracker : IdempotencyTracker string := NewIdempotencyTracker 600 2.
Lemma tracker_bounded_witness :
  let t := Record_ (H := canonical_range) 3 "c" "ok" (Record_ (H := canonical_range) 2 "b" "ok"
             (Record_ (H := canonical_range) 1 "a" "ok" demo_tracker)) in
  Z.of_nat (Size t) ≤ 2 ∧ (∀ t', Close t = Done t' → Close t' = Panic "close of closed channel").
Proof.
  apply (tracker_bounded (MR := canonical_range) 600 2 0
    (3, Record_ (H := canonical_range) 3 "c" "ok" (Record_ (H := canonical_range) 2 "b" "ok"
             (Record_ (H := canonical_range) 1 "a" "ok" demo_tracker)))); [|done].
  eapply rtc_l; [by apply (step_record 0 1)|]. eapply rtc_l; [by apply (step_record 1 2)|].
  eapply rtc_l; [by apply (step_record 2 3)|]. apply rtc_refl.
Defined.
Lemma idempotent_replay_witness :
  Check_ 500 "a" (Record_ (H := canonical_range) 2 "b" "later"
                   (Record_ (H := canonical_range) 1 "a" "first" demo_tracker)) = Some "first".
Proof.
  apply (idempotent_replay (MR := canonical_range) 0 1 "a" "first" 1 demo_tracker
    (2, Record_ (H := canonical_range) 2 "b" "later"
                   (Record_ (H := canonical_range) 1 "a" "first" demo_tracker))); [|done|done|].
  - apply New_tracker_inv.
  - eapply (run_record _ _ _ 1 2 "b" "later"); [reflexivity|done|apply run_done].
Defined.
