(* ===== verification/Limits.v ===== *)
(** * Limited readers (src/transport/httptransport: compression.go, helpers.go)

    The [Read] methods that bound decompressed requests and responses, over a
    reader that hands out its bytes in chunks of its own choosing, and what a
    caller that reads to the end gets from them. *)
From S2P Require Import Prelude.
From stdpp Require Import options.

Section limits.
Context {B E : Type} (TooLarge : E).

(** The reader underneath: its bytes, the sizes of the chunks it would give (at
    least one byte each), the error it ends with, and whether that comes along
    with the last bytes. *)
Record Source := mkSource { bytes : list B; chunks : list nat; fin : E; together : bool }.
Definition chunk (n : nat) (s : Source) : nat :=
  Nat.min n (match chunks s with [] => n | c :: _ => Nat.max 1 c end).
Definition source_read (n : nat) (s : Source) : Source * list B * option E :=
  match bytes s with
  | [] => (s, [], Some (fin s))
  | bs =>
      let rest := drop (chunk n s) bs in
      (mkSource rest (tail (chunks s)) (fin s) (together s), take (chunk n s) bs,
       if together s && bool_decide (length rest = 0%nat) then Some (fin s) else None)
  end.

(** The request's reader: after filling its limit it tries one more byte. *)
Record maxDecompressedReader := mkMaxReader { reader : Source; limit : Z; consumed : Z }.
Definition Read (p : nat) (r : maxDecompressedReader)
    : maxDecompressedReader * list B * option E :=
  if limit r <=? consumed r then (r, [], Some TooLarge)
  else
    let maxRead := limit r - consumed r in
    let p := if maxRead <? Z.of_nat p then Z.to_nat maxRead else p in
    let '(src, got, err) := source_read p (reader r) in
    let consumed := consumed r + Z.of_nat (length got) in
    match err with
    | None =>
        if limit r <=? consumed then
          let '(src, _, peekErr) := source_read 1 src in
          (mkMaxReader src (limit r) consumed, got, match peekErr with None => Some TooLarge | Some _ => None end)
        else (mkMaxReader src (limit r) consumed, got, None)
    | Some _ => (mkMaxReader src (limit r) consumed, got, err)
    end.

(** The response's reader. *)
Record maxResponseDecompressedReader := mkResponseReader { r_reader : Source; n_left : Z }.
Definition Response_Read (p : nat) (r : maxResponseDecompressedReader)
    : maxResponseDecompressedReader * list B * option E :=
  if n_left r <=? 0 then (r, [], Some TooLarge)
  else
    let p := if n_left r <? Z.of_nat p then Z.to_nat (n_left r) else p in
    let '(src, got, err) := source_read p (r_reader r) in
    (mkResponseReader src (n_left r - Z.of_nat (length got)), got, err).

(** Reading to the end into buffers of the caller's sizes: all the bytes, and the
    error; [None] when the fuel runs out. *)
Fixpoint read_all {R} (read : nat → R → R * list B * option E) (fuel : nat) (sizes : nat → nat) (r : R)
    : option (list B * E) :=
  match fuel with
  | O => None
  | S fuel =>
      let '(r, got, err) := read (sizes fuel) r in
      match err with
      | Some e => Some (got, e)
      | None => (λ rest, (got ++ rest.1, rest.2)) <$> read_all read fuel sizes r
      end
  end.

(** What comes of a limit of [n] bytes. *)
Definition within (n : Z) (bs : list B) (fin : E) (together : bool) : list B * E :=
  if (n <? Z.of_nat (length bs)) || ((n =? Z.of_nat (length bs)) && negb together)
  then (take (Z.to_nat n) bs, TooLarge) else (bs, fin).

Lemma within_step n k bs f tog :
  (Z.of_nat k ≤ n) → (k ≤ length bs)%nat →
  (take k bs ++ (within (n - Z.of_nat k) (drop k bs) f tog).1, (within (n - Z.of_nat k) (drop k bs) f tog).2)
  = within n bs f tog.
Proof.
  intros Hk Hlen. unfold within. rewrite length_drop, Nat2Z.inj_sub by done.
  assert ((n - Z.of_nat k <? Z.of_nat (length bs) - Z.of_nat k) = (n <? Z.of_nat (length bs))) as ->
    by (destruct (Z.ltb_spec n (Z.of_nat (length bs))); [apply Z.ltb_lt|apply Z.ltb_ge]; lia).
  assert ((n - Z.of_nat k =? Z.of_nat (length bs) - Z.of_nat k) = (n =? Z.of_nat (length bs))) as ->
    by (destruct (Z.eqb_spec n (Z.of_nat (length bs))); [apply Z.eqb_eq|apply Z.eqb_neq]; lia).
  case_match; cbn; [|by rewrite take_drop]. f_equal.
  replace (Z.to_nat n) with (k + Z.to_nat (n - Z.of_nat k))%nat by lia.
  by rewrite take_take_drop.
Qed.

(** One read of the source: it ends, or gives between one byte and what was asked. *)
Lemma source_read_spec p s : (0 < p)%nat →
  bytes s = [] ∧ source_read p s = (s, [], Some (fin s))
  ∨ ∃ k, (0 < k ≤ p)%nat ∧ (k ≤ length (bytes s))%nat
      ∧ source_read p s
        = (mkSource (drop k (bytes s)) (tail (chunks s)) (fin s) (together s), take k (bytes s),
           if together s && bool_decide (length (drop k (bytes s)) = 0%nat) then Some (fin s) else None).
Proof.
  intros Hp. unfold source_read. destruct (bytes s) as [|b bs] eqn:Hb; [by left|]. right.
  set (c := chunk p s). assert (0 < c ≤ p)%nat as Hc.
  { unfold c, chunk. destruct (chunks s); lia. }
  destruct (Nat.le_gt_cases c (length (b :: bs))) as [Hle|Hgt].
  - exists c. by split_and!; [lia..|].
  - exists (length (b :: bs)). split; [cbn in *; lia|]. split; [done|].
    by rewrite !(take_ge (b :: bs)), !(drop_ge (b :: bs)) by lia.
Qed.

(** Giving the last byte with the ending. *)
Lemma within_last n k bs f tog :
  (Z.of_nat k ≤ n) → (k ≤ length bs)%nat → (0 < k)%nat →
  tog && bool_decide (length (drop k bs) = 0%nat) = true → within n bs f tog = (take k bs, f).
Proof.
  intros Hk Hlen Hpos [Ht Hd]%andb_true_iff. apply bool_decide_eq_true in Hd. rewrite length_drop in Hd.
  unfold within. assert (k = length bs) as -> by lia. rewrite Ht, andb_false_r, orb_false_r, firstn_all.
  by assert (n <? Z.of_nat (length bs) = false) as -> by (apply Z.ltb_ge; lia).
Qed.

(** A source that has not ended is not at its limit with nothing left to give. *)
Definition going (n : Z) (s : Source) : Prop := bytes s = [] → together s = true → 0 < n.
Lemma going_after n k s :
  Z.of_nat k ≤ n → together s && bool_decide (length (drop k (bytes s)) = 0%nat) = false →
  going (n - Z.of_nat k) (mkSource (drop k (bytes s)) (tail (chunks s)) (fin s) (together s)).
Proof. intros Hk Hf Hd Ht. cbn in *. rewrite Ht, Hd in Hf. done. Qed.

Lemma Response_read_all fuel sizes r :
  (∀ i, 0 < sizes i)%nat → 0 ≤ n_left r → (length (bytes (r_reader r)) < fuel)%nat →
  going (n_left r) (r_reader r) →
  read_all Response_Read fuel sizes r
  = Some (within (n_left r) (bytes (r_reader r)) (fin (r_reader r)) (together (r_reader r))).
Proof.
  intros Hs. revert r; induction fuel as [|fuel IH]; intros r Hn Hfuel Hg; [lia|]. cbn [read_all].
  destruct r as [s n]. cbn [n_left r_reader] in *. unfold Response_Read. cbn [n_left r_reader].
  specialize (Hs fuel). destruct (Z.leb_spec n 0) as [Hz|Hpos].
  - f_equal. unfold within. assert (n = 0) as -> by lia. destruct (bytes s) as [|b bs] eqn:Hb; cbn; [|done].
    destruct (together s) eqn:Ht; [|done]. specialize (Hg Hb Ht). lia.
  - set (p := if n <? Z.of_nat (sizes fuel) then Z.to_nat n else sizes fuel).
    assert ((0 < p)%nat ∧ Z.of_nat p ≤ n) as [Hp Hpn] by (unfold p; destruct (Z.ltb_spec n (Z.of_nat (sizes fuel))); lia).
    destruct (source_read_spec p s) as [[Hb ->]|(k & Hk & Hlen & ->)]; [lia|..].
    + f_equal. unfold within. rewrite Hb. cbn [length].
      assert (n <? Z.of_nat 0 = false) as -> by (apply Z.ltb_ge; lia).
      by assert (n =? Z.of_nat 0 = false) as -> by (apply Z.eqb_neq; lia).
    + destruct (together s && _) eqn:Hend; [by rewrite (within_last n k) by (done || lia)|].
      rewrite length_take_le by lia. rewrite IH; cbn [n_left r_reader bytes fin together]; [|lia|rewrite length_drop; lia|].
      * cbn [fmap option_fmap option_map]. by rewrite within_step by lia.
      * apply going_after; [lia|done].
Qed.

Lemma Read_all fuel sizes r :
  (∀ i, 0 < sizes i)%nat → consumed r ≤ limit r → (length (bytes (reader r)) < fuel)%nat →
  going (limit r - consumed r) (reader r) →
  read_all Read fuel sizes r
  = Some (within (limit r - consumed r) (bytes (reader r)) (fin (reader r)) (together (reader r))).
Proof.
  intros Hs. revert r; induction fuel as [|fuel IH]; intros r Hn Hfuel Hg; [lia|]. cbn [read_all].
  destruct r as [s l c]. cbn [limit consumed reader] in *. unfold Read. cbn [limit consumed reader].
  pose proof (Hs fuel) as Hsize. destruct (Z.leb_spec l c) as [Hz|Hpos].
  - f_equal. unfold within. replace (l - c) with 0 in * by lia. destruct (bytes s) as [|b bs] eqn:Hb; cbn; [|done].
    destruct (together s) eqn:Ht; [|done]. specialize (Hg Hb Ht). lia.
  - set (p := if l - c <? Z.of_nat (sizes fuel) then Z.to_nat (l - c) else sizes fuel).
    assert ((0 < p)%nat ∧ Z.of_nat p ≤ l - c) as [Hp Hpn]
      by (unfold p; destruct (Z.ltb_spec (l - c) (Z.of_nat (sizes fuel))); lia).
    destruct (source_read_spec p s) as [[Hb ->]|(k & Hk & Hlen & ->)]; [lia|..].
    + f_equal. unfold within. rewrite Hb. cbn [length].
      assert (l - c <? Z.of_nat 0 = false) as -> by (apply Z.ltb_ge; lia).
      by assert (l - c =? Z.of_nat 0 = false) as -> by (apply Z.eqb_neq; lia).
    + destruct (together s && _) eqn:Hend; [by rewrite (within_last (l - c) k) by (done || lia)|].
      rewrite length_take_le by lia. destruct (Z.leb_spec l (c + Z.of_nat k)) as [Hfull|Hmore].
      * (* the limit is reached without an error *)
        assert (within (l - c) (bytes s) (fin s) (together s) = (take k (bytes s), TooLarge)) as ->.
        { unfold within. replace (l - c) with (Z.of_nat k) by lia. rewrite Nat2Z.id.
          destruct (Z.ltb_spec (Z.of_nat k) (Z.of_nat (length (bytes s)))); [done|]. cbn.
          assert (k = length (bytes s)) as Hall by lia.
          assert (together s = false) as ->.
          { destruct (together s); [|done]. cbn in Hend. apply bool_decide_eq_false in Hend.
            rewrite length_drop in Hend. lia. }
          by rewrite Hall, Z.eqb_refl. }
        destruct (source_read 1 _) as [[src got] peekErr]. destruct peekErr as [e|]; [|done].
        destruct fuel as [|fuel]; [lia|]. cbn [read_all]. unfold Read. cbn [limit consumed].
        assert (l <=? c + Z.of_nat k = true) as -> by (apply Z.leb_le; lia).
        cbn. by rewrite app_nil_r.
      * rewrite IH; cbn [limit consumed reader bytes fin together]; [|lia|rewrite length_drop; lia|].
        -- cbn [fmap option_fmap option_map]. replace (l - (c + Z.of_nat k)) with (l - c - Z.of_nat k) by lia.
           by rewrite within_step by lia.
        -- replace (l - (c + Z.of_nat k)) with (l - c - Z.of_nat k) by lia. apply going_after; [lia|done].
Qed.
End limits.

(** C23: whatever the chunks of the reader underneath and the buffers of the caller,
    reading a request or a response to its end through its limit gives all the
    bytes and the reader's own ending when they are fewer than the limit (or
    exactly as many, ending with the last of them), and otherwise exactly the
    first [n] bytes and the error that the limit is exceeded: never a byte more. *)
Theorem read_exact {B E} (TooLarge : E) (n : Z) (src : Source (B := B) (E := E)) (sizes : nat → nat)
    (fuel : nat) (Hn : 0 < n) (Hs : ∀ i, (0 < sizes i)%nat) (Hfuel : (length (bytes src) < fuel)%nat) :
  let expected := Some (within TooLarge n (bytes src) (fin src) (together src)) in
  read_all (Read TooLarge) fuel sizes (mkMaxReader src n 0) = expected
  ∧ read_all (Response_Read TooLarge) fuel sizes (mkResponseReader src n) = expected
  ∧ Z.of_nat (length (within TooLarge n (bytes src) (fin src) (together src)).1) ≤ n.
Proof.
  cbn zeta. split_and!.
  - rewrite Read_all; cbn [limit consumed reader]; [by rewrite Z.sub_0_r|done|lia|done|].
    intros _ _. lia.
  - rewrite Response_read_all; cbn [n_left r_reader]; [done..|lia|done|by intros _ _].
  - unfold within. case_match eqn:Hw; cbn.
    + rewrite length_take. lia.
    + apply orb_false_iff in Hw as [Hw _]. apply Z.ltb_ge in Hw. lia.
Qed.

(** Five bytes in chunks of two, through a limit of four and one of five. *)
Lemma read_exact_witness :
  let src ending := mkSource (B := nat) [1; 2; 3; 4; 5]%nat [2; 2; 2]%nat "EOF" ending in
  read_all (Read "too large") 9 (λ _, 3%nat) (mkMaxReader (src true) 4 0) = Some ([1; 2; 3; 4]%nat, "too large")
  ∧ read_all (Read "too large") 9 (λ _, 3%nat) (mkMaxReader (src true) 5 0) = Some ([1; 2; 3; 4; 5]%nat, "EOF")
  ∧ read_all (Read "too large") 9 (λ _, 3%nat) (mkMaxReader (src false) 5 0)
    = Some ([1; 2; 3; 4; 5]%nat, "too large").
Proof.
  cbn zeta. split_and!.
  - apply (read_exact "too large" 4 (mkSource [1; 2; 3; 4; 5]%nat [2; 2; 2]%nat "EOF" true) (λ _, 3%nat) 9);
      [done|intros _; lia|cbn; lia].
  - apply (read_exact "too large" 5 (mkSource [1; 2; 3; 4; 5]%nat [2; 2; 2]%nat "EOF" true) (λ _, 3%nat) 9);
      [done|intros _; lia|cbn; lia].
  - apply (read_exact "too large" 5 (mkSource [1; 2; 3; 4; 5]%nat [2; 2; 2]%nat "EOF" false) (λ _, 3%nat) 9);
      [done|intros _; lia|cbn; lia].
Defined.
