(* ===== verification/HttpServer.v ===== *)
(** * The HTTP sync server (src/transport/httptransport: http.go, query.go,
    types.go, errors.go, headers.go, helpers.go, compression.go, cursor_api.go)

    Requests and responses, the limits on bodies, query parsing, and the handlers
    of the four endpoints over any store.  JSON and gzip are the library's: a
    [WireFormat] says what the handlers use of them.  Loggers are left out,
    except that a log line calls [String] on the version it shows. *)
From S2P Require Import Prelude Types Json Text Errors VectorClock Versions Interfaces.
From S2P Require Import Idempotency.
From S2P Require Cursor.
From stdpp Require Import options.

(** ** Wire data (types.go) *)
Record JSONEvent := mkJSONEvent {
  j_ID : string; j_Type : string; j_AggregateID : string; j_Data : any; j_Metadata : gomap any
}.
Record JSONEventWithVersion := mkJSON { j_Event : JSONEvent; j_Version : string }.

(** A [SimpleEvent] is seen through its accessors, as an [Event]. *)
Definition SimpleEvent (j : JSONEvent) : Event :=
  mkEvent (j_ID j) (j_Type j) (j_AggregateID j) (j_Data j) (j_Metadata j).
Definition toJSONEvent (e : option Event) : outcome JSONEvent :=
  let* e := deref e in
  Done (mkJSONEvent (ID e) (Type_ e) (AggregateID e) (Data e) (Metadata e)).
Definition toJSONEventWithVersion (ev : EventWithVersion) : outcome JSONEventWithVersion :=
  let* v := match ev_version ev with Some v => version_String v | None => Done "" end in
  let* j := toJSONEvent (ev_event ev) in
  Done (mkJSON j v).
Fixpoint to_json_events (evs : list EventWithVersion) : outcome (list JSONEventWithVersion) :=
  match evs with
  | [] => Done []
  | ev :: rest =>
      let* j := toJSONEventWithVersion ev in
      let* js := to_json_events rest in
      Done (j :: js)
  end.

Record PullCursorRequest := mkCursorRequest { req_Since : option Cursor.WireCursor; req_Limit : Z }.
Record PullCursorResponse := mkCursorResponse {
  resp_Events : list JSONEventWithVersion; resp_Next : option Cursor.WireCursor
}.

(** Error codes and their statuses (errors.go). *)
Definition ErrCodeInvalidCursor : string := "INVALID_CURSOR".
Definition ErrCodeInvalidRequest : string := "INVALID_REQUEST".
Definition ErrCodeAuthRequired : string := "AUTH_REQUIRED".
Definition ErrCodeInvalidTenant : string := "INVALID_TENANT".
Definition ErrCodeInvalidIdempotency : string := "INVALID_IDEMPOTENCY_KEY".
Definition ErrCodeConflict : string := "CONFLICT".
Definition ErrCodeInternal : string := "INTERNAL_ERROR".
Definition ErrCodeNotFound : string := "NOT_FOUND".
Definition ErrCodeTooLarge : string := "REQUEST_TOO_LARGE".
Definition HTTPStatusFromCode (code : string) : Z :=
  if bool_decide (code = ErrCodeInvalidCursor) || bool_decide (code = ErrCodeInvalidRequest)
     || bool_decide (code = ErrCodeInvalidTenant) || bool_decide (code = ErrCodeInvalidIdempotency)
  then 400
  else if bool_decide (code = ErrCodeAuthRequired) then 401
  else if bool_decide (code = ErrCodeNotFound) then 404
  else if bool_decide (code = ErrCodeConflict) then 409
  else if bool_decide (code = ErrCodeTooLarge) then 413 else 500.

(** What the handlers answer, before its JSON text. *)
Inductive Payload :=
  | PError (message : string)                       (* {"error": message} *)
  | PStructured (op code message : string)          (* ErrorResponse *)
  | PStatus (status : string)                       (* {"status": status} *)
  | PText (text : string)                           (* a JSON string *)
  | PEvents (evs : list JSONEventWithVersion)
  | PCursor (r : PullCursorResponse)
  | PCursorRequest (r : PullCursorRequest).         (* a request body *)
Definition NewErrorResponse (op code message : string) : Payload := PStructured op code message.

(** ** Bodies

    A [body] is a byte string; [prefix n] its first [n] bytes.  A scan finds the
    first JSON value of a body, or that the body ends before it does ([blank]
    says nothing but white space was there), or that it is malformed. *)
Inductive scanned (A : Type) := Found (a : A) | Incomplete (blank : bool) | Malformed (e : error).
Arguments Found {A} a.
Arguments Incomplete {A} blank.
Arguments Malformed {A} e.
(** Decompressing: the header is bad, or cut off; or the bytes that come and
    whether the stream is complete, cut off or corrupt after them; [together]
    when the last bytes and this ending come out of one read, as they do unless
    the data fill the decompressor's window exactly. *)
Inductive gz_end := GzDone | GzTruncated | GzCorrupt (e : error).
Inductive gunzipped (B : Type) :=
  | BadHeader (truncated : bool) (e : error)
  | Stream (b : B) (fin : gz_end) (together : bool).
Arguments BadHeader {B} truncated e.
Arguments Stream {B} b fin together.
Class WireFormat := {
  body : Type;
  no_body : body;
  body_len : body → Z;
  body_text : body → string;
  prefix : Z → body → body;
  marshal : Payload → result error body;
  scan_events : body → scanned (list JSONEventWithVersion);
  scan_text : body → scanned string;
  scan_cursor_request : body → scanned PullCursorRequest;
  scan_cursor_response : body → scanned PullCursorResponse;
  gzip : body → body;
  gunzip : body → gunzipped body
}.

(** ** Options (types.go) *)
Record ServerOptions := mkServerOptions {
  MaxRequestSize : Z; MaxDecompressedSize : Z; CompressionEnabled : bool; CompressionThreshold : Z;
  RequestTimeout : Z; ShutdownTimeout : Z
}.
Definition ServerOptions_Validate (o : option ServerOptions) : option error :=
  match o with
  | None => Some (ErrMsg "nil server options")
  | Some o =>
      if MaxRequestSize o <=? 0
      then Some (ErrMsg ("MaxRequestSize must be positive, got " +:+ format_int (MaxRequestSize o)))
      else if MaxDecompressedSize o <=? 0
      then Some (ErrMsg ("MaxDecompressedSize must be positive, got " +:+ format_int (MaxDecompressedSize o)))
      else if MaxDecompressedSize o <? MaxRequestSize o
      then Some (ErrMsg ("MaxDecompressedSize (" +:+ format_int (MaxDecompressedSize o)
                         +:+ ") must be >= MaxRequestSize (" +:+ format_int (MaxRequestSize o)
                         +:+ ") to prevent zip-bomb attacks"))
      else if CompressionEnabled o && (CompressionThreshold o <? 0)
      then Some (ErrMsg ("CompressionThreshold cannot be negative when compression is enabled, got "
                         +:+ format_int (CompressionThreshold o)))
      else if RequestTimeout o <? 0 then Some (ErrMsg ("RequestTimeout cannot be negative, got "
                                                           +:+ duration_String (RequestTimeout o)))
      else if ShutdownTimeout o <? 0 then Some (ErrMsg ("ShutdownTimeout cannot be negative, got "
                                                            +:+ duration_String (ShutdownTimeout o)))
      else None
  end.
(** The functional options and their validation (options.go). *)
Inductive ServerOption :=
  | WithMaxRequestSize (size : Z) | WithMaxDecompressedSize (size : Z) | WithCompression (enabled : bool)
  | WithCompressionThreshold (size : Z) | WithRequestTimeout (timeout : Z) | WithShutdownTimeout (timeout : Z).
Definition apply_server_option (o : ServerOptions) (x : ServerOption) : ServerOptions :=
  let '(mkServerOptions r d c t rt st) := o in
  match x with
  | WithMaxRequestSize n => mkServerOptions n d c t rt st
  | WithMaxDecompressedSize n => mkServerOptions r n c t rt st
  | WithCompression b => mkServerOptions r d b t rt st
  | WithCompressionThreshold n => mkServerOptions r d c n rt st
  | WithRequestTimeout n => mkServerOptions r d c t n st
  | WithShutdownTimeout n => mkServerOptions r d c t rt n
  end.
Definition ValidateServerOptions (o : option ServerOptions) : option error :=
  match o with
  | None => None
  | Some o =>
      if MaxRequestSize o <=? 0 then Some (ErrMsg "MaxRequestSize must be > 0")
      else if MaxDecompressedSize o <=? 0 then Some (ErrMsg "MaxDecompressedSize must be > 0")
      else if MaxDecompressedSize o <? MaxRequestSize o
      then Some (ErrMsg "MaxDecompressedSize must be >= MaxRequestSize to handle uncompressed requests")
      else if CompressionThreshold o <? 0 then Some (ErrMsg "CompressionThreshold must be >= 0")
      else if RequestTimeout o <? 0 then Some (ErrMsg "RequestTimeout must be >= 0")
      else if ShutdownTimeout o <? 0 then Some (ErrMsg "ShutdownTimeout must be >= 0")
      else None
  end.
Definition seconds (n : Z) : Z := n * 1000000000.
Definition DefaultServerOptions : ServerOptions :=
  mkServerOptions (10 * 1024 * 1024) (20 * 1024 * 1024) true 1024 (seconds 30) (seconds 10).
Example default_options_valid : ServerOptions_Validate (Some DefaultServerOptions) = None.
Proof. reflexivity. Qed.

(** ** Requests and responses *)
Section http.
Context {W : WireFormat}.

(** Headers under their canonical names, query parameters by their first value. *)
Record Request := mkRequest {
  Method : string; Path : string; Header : gmap string string; Query : gmap string string;
  ContentLength : Z; Body : body
}.
Record Response := mkResponse { StatusCode : Z; gzipped : bool; Content : body }.
Definition header (name : string) (r : Request) : string := default "" (Header r !! name).
Definition query (name : string) (r : Request) : string := default "" (Query r !! name).
Definition HeaderSyncKitTenant : string := "X-Synckit-Tenant".
Definition HeaderIdempotencyKey : string := "Idempotency-Key".
Definition ExtractTenant (r : Request) : string :=
  if bool_decide (header HeaderSyncKitTenant r = "") then query "tenant" r
  else header HeaderSyncKitTenant r.

(** *** Responding (helpers.go) *)
Definition negotiateCompression (r : Request) (o : option ServerOptions) (size : Z) : bool :=
  match o with
  | None => false
  | Some o => CompressionEnabled o && negb (size <? CompressionThreshold o)
              && Contains (ToLower (header "Accept-Encoding" r)) "gzip"
  end.
Definition respond_body (r : Request) (code : Z) (b : body) (o : ServerOptions) : Response :=
  if negotiateCompression r (Some o) (body_len b) then mkResponse code true (gzip b)
  else mkResponse code false b.
(** A payload that has no JSON text becomes an error message, which always has
    one; the recursion of the source ends there. *)
Definition respondWithJSON (r : Request) (code : Z) (p : Payload) (o : ServerOptions)
    : outcome Response :=
  match marshal p with
  | Ok b => Done (respond_body r code b o)
  | Err _ => match marshal (PError "failed to marshal response") with
             | Ok b => Done (respond_body r 500 b o)
             | Err _ => Panic "stack overflow"
             end
  end.
Definition respondWithError (r : Request) (code : Z) (message : string) (o : ServerOptions) :=
  respondWithJSON r code (PError message) o.
Definition respondWithStructuredError (r : Request) (op code message : string) (o : ServerOptions) :=
  respondWithJSON r (HTTPStatusFromCode code) (NewErrorResponse op code message) o.

(** [Some] is the response already sent: the content type is refused. *)
Definition bad_content_type (r : Request) : bool :=
  let ct := header "Content-Type" r in
  negb (bool_decide (ct = "")) && negb (HasPrefix ct "application/json").
Definition validateContentType (r : Request) (o : ServerOptions) : outcome (option Response) :=
  if bool_decide (Method r = "GET") || bool_decide (Method r = "HEAD") || bool_decide (Method r = "DELETE")
  then Done None
  else if bad_content_type r
       then let* resp := respondWithError r 415 "unsupported media type" o in Done (Some resp)
       else Done None.

(** *** Reading a request body (compression.go) *)

(** The errors a body can end with. *)
Inductive ReadError :=
  | DecompressedTooLarge | ResponseTooLarge | MaxBytesError | ErrEOF | ErrUnexpectedEOF
  | OtherError (e : error)
  | WrappedError (msg : string) (e : ReadError).
Fixpoint read_error_text (e : ReadError) : string :=
  match e with
  | DecompressedTooLarge => "decompressed data exceeds maximum size limit"
  | ResponseTooLarge => "response decompressed body exceeds limit"
  | MaxBytesError => "http: request body too large"
  | ErrEOF => "EOF"
  | ErrUnexpectedEOF => "unexpected EOF"
  | OtherError e => error_string e
  | WrappedError m e => m +:+ ": " +:+ read_error_text e
  end.
(** [errors.Is] and [errors.As] for the two limits. *)
Fixpoint over_limit (e : ReadError) : bool :=
  match e with
  | DecompressedTooLarge | MaxBytesError => true
  | WrappedError _ e => over_limit e
  | _ => false
  end.
Definition mapErrorToHTTPStatus (e : option ReadError) : Z :=
  match e with
  | None => 200
  | Some e =>
      if over_limit e then 413 else
      let m := read_error_text e in
      if Contains m "unsupported media type" then 415
      else if Contains m "unsupported content encoding" then 415
      else if Contains m "compressed request body too large" then 413
      else 400
  end.
Definition respondWithMappedError (r : Request) (e : ReadError) (o : ServerOptions) :=
  respondWithError r (mapErrorToHTTPStatus (Some e)) (read_error_text e) o.

(** A reader: the bytes it gives before it ends, and the error it ends with. *)
Record reader := mkReader { given : body; ending : ReadError }.
(** [http.MaxBytesReader]: an error once more than [n] bytes have come. *)
Definition max_bytes (n : Z) (b : body) : reader :=
  if n <? body_len b then mkReader (prefix n b) MaxBytesError else mkReader b ErrEOF.
(** [maxDecompressedReader]: an error past [n] bytes, and also after exactly [n]
    when their reader has not ended with them ([Limits.read_exact] shows that
    its [Read] comes to this). *)
Definition max_decompressed (n : Z) (rd : reader) (together : bool) : reader :=
  if (n <? body_len (given rd)) || ((n =? body_len (given rd)) && negb together)
  then mkReader (prefix n (given rd)) DecompressedTooLarge else rd.
(** The gzip reader over a body cut off by the limit or not. *)
Definition gzip_reader (cut : bool) (b : body) : result ReadError (reader * bool) :=
  match gunzip b with
  | BadHeader truncated e =>
      Err (WrappedError "invalid gzip data"
             (if cut && truncated then MaxBytesError else OtherError e))
  | Stream b fin together =>
      Ok (mkReader b (match fin with
                      | GzCorrupt e => OtherError e
                      | _ => if cut then MaxBytesError
                             else match fin with GzTruncated => ErrUnexpectedEOF | _ => ErrEOF end
                      end), together)
  end.
Definition or_default (n dflt : Z) : Z := if n =? 0 then dflt else n.

(** Without compression the stricter of the two limits applies; to put it in place
    the source closes the first reader, and with it the body of the request: a
    body that net/http knows to be empty can still be read, any other one answers
    its error. *)
Definition closed_body : ReadError := OtherError (ErrMsg "http: invalid Read on closed Body").
Definition createSafeRequestReader (r : Request) (o : ServerOptions) : result ReadError reader :=
  let maxRequestSize := or_default (MaxRequestSize o) (10 * 1024 * 1024) in
  let maxDecompressedSize := or_default (MaxDecompressedSize o) (20 * 1024 * 1024) in
  if bad_content_type r
  then Err (OtherError (ErrMsg ("unsupported media type: " +:+ header "Content-Type" r)))
  else if (0 <? ContentLength r) && (maxRequestSize <? ContentLength r)
  then Err (OtherError (ErrMsg ("compressed request body too large: " +:+ format_int (ContentLength r)
                                +:+ " bytes (max " +:+ format_int maxRequestSize +:+ ")")))
  else
    let encoding := TrimSpace (ToLower (header "Content-Encoding" r)) in
    if bool_decide (encoding = "") then
      Ok (if (maxDecompressedSize <? maxRequestSize) && negb (ContentLength r =? 0)
          then mkReader no_body closed_body
          else max_bytes (Z.min maxRequestSize maxDecompressedSize) (Body r))
    else if bool_decide (encoding = "gzip") then
      let cut := maxRequestSize <? body_len (Body r) in
      match gzip_reader cut (if cut then prefix maxRequestSize (Body r) else Body r) with
      | Err e => Err e
      | Ok (rd, together) => Ok (max_decompressed maxDecompressedSize rd together)
      end
    else Err (OtherError (ErrMsg ("unsupported content encoding: " +:+ encoding
                                  +:+ " (only gzip is supported)"))).

(** [json.Decoder.Decode]: the first value, if the reader gives all of it. *)
Definition decode {A} (scan : body → scanned A) (rd : reader) : result ReadError A :=
  match scan (given rd) with
  | Found a => Ok a
  | Malformed e => Err (OtherError e)
  | Incomplete blank =>
      Err (match ending rd with
           | ErrEOF => if blank then ErrEOF else ErrUnexpectedEOF
           | e => e
           end)
  end.
End http.

(** ** The handler (http.go) *)
Section handler.
Context {W : WireFormat} {MR : MapRange} {St : Type} {ES : EventStore St}.

(** A version parser; the default one is the store's. *)
Abbreviation VersionParser := (CtxView → string → St → outcome (result error (option Version))).
(** Which hooks are set. *)
Record SyncHooks := mkHooks { AfterCommit : bool; BeforePull : bool }.
(** [committed] and [pulling] are the calls of the hooks; [AfterCommit] runs in
    a goroutine after the response. *)
Record SyncHandler := mkHandler {
  store : St;
  versionParser : VersionParser;
  options : ServerOptions;
  hooks : SyncHooks;
  idempotencyTracker : IdempotencyTracker Payload;
  committed : list (list EventWithVersion);
  pulling : list Version
}.
Definition NewSyncHandlerWithHooks (s : St) (parser : option VersionParser) (o : option ServerOptions)
    (h : SyncHooks) : SyncHandler :=
  mkHandler s (default es_ParseVersion parser) (default DefaultServerOptions o) h
    (NewIdempotencyTracker (10 * 60 * 1000000000) 1000) [] [].
Definition NewSyncHandler (s : St) (parser : option VersionParser) (o : option ServerOptions)
    : SyncHandler := NewSyncHandlerWithHooks s parser o (mkHooks false false).
Definition with_store (s : St) (h : SyncHandler) : SyncHandler :=
  mkHandler s (versionParser h) (options h) (hooks h) (idempotencyTracker h) (committed h) (pulling h).
Definition with_tracker (t : IdempotencyTracker Payload) (h : SyncHandler) : SyncHandler :=
  mkHandler (store h) (versionParser h) (options h) (hooks h) t (committed h) (pulling h).
Definition after_commit (evs : list EventWithVersion) (h : SyncHandler) : SyncHandler :=
  if AfterCommit (hooks h) && negb (match evs with [] => true | _ => false end)
  then mkHandler (store h) (versionParser h) (options h) (hooks h) (idempotencyTracker h)
         (committed h ++ [evs]) (pulling h)
  else h.
Definition before_pull (since : Version) (h : SyncHandler) : SyncHandler :=
  if BeforePull (hooks h)
  then mkHandler (store h) (versionParser h) (options h) (hooks h) (idempotencyTracker h)
         (committed h) (pulling h ++ [since])
  else h.

Definition fromJSONEventWithVersion (ctx : CtxView) (h : SyncHandler) (s : St)
    (j : JSONEventWithVersion) : outcome (result error EventWithVersion) :=
  let* v := versionParser h ctx (j_Version j) s in
  Done (match v with
        | Err e => Err (ErrWrap "invalid version" e)
        | Ok v => Ok (mkEWV (Some (SimpleEvent (j_Event j))) v)
        end).

(** The loop over the pushed events: an event that cannot be parsed or stored is
    logged and passed over. *)
Fixpoint push_events (ctx : CtxView) (h : SyncHandler) (js : list JSONEventWithVersion) (s : St)
    (done : list EventWithVersion) : outcome (St * list EventWithVersion) :=
  match js with
  | [] => Done (s, done)
  | j :: rest =>
      let* ev := fromJSONEventWithVersion ctx h s j in
      match ev with
      | Err _ => push_events ctx h rest s done
      | Ok ev =>
          let* (s, err) := es_Store ctx (ev_event ev) (ev_version ev) s in
          match err with
          | Some _ => push_events ctx h rest s done
          | None => push_events ctx h rest s (done ++ [ev])
          end
      end
  end.

(** The body of a POST request, checked and decoded; [inr] is the response to
    send instead. *)
Definition read_post {A} (scan : body → scanned A) (r : Request) (o errs : ServerOptions)
    : outcome (A + Response) :=
  let* bad := validateContentType r o in
  match bad with
  | Some resp => Done (inr resp)
  | None =>
      if MaxRequestSize o <? ContentLength r then
        let* resp := respondWithError r 413 ("request body too large: maximum size is "
                       +:+ format_int (MaxRequestSize o) +:+ " bytes") o in Done (inr resp)
      else
        match createSafeRequestReader r o with
        | Err e => let* resp := respondWithMappedError r e o in Done (inr resp)
        | Ok rd =>
            match decode scan rd with
            | Ok a => Done (inl a)
            | Err ErrEOF => let* resp := respondWithError r 400 "empty request body" errs in Done (inr resp)
            | Err e => let* resp := respondWithMappedError r e o in Done (inr resp)
            end
        end
  end.

Definition status_ok : Payload := PStatus "ok".
(** A push takes three steps, between which other requests are served: the
    look-up of its key and the checks of the request, with the events to store or
    the answer to send instead; storing the events one after the other; recording
    the key and answering. *)
Definition push_check (now : Z) (r : Request) (h : SyncHandler)
    : outcome (list JSONEventWithVersion + Response) :=
  let key := header HeaderIdempotencyKey r in
  match (if bool_decide (key = "") then None else Check_ now key (idempotencyTracker h)) with
  | Some cached => let* resp := respondWithJSON r 200 cached (options h) in Done (inr resp)
  | None =>
      if negb (bool_decide (Method r = "POST")) then
        let* resp := respondWithError r 405 "method not allowed" (options h) in Done (inr resp)
      else read_post scan_events r (options h) (options h)
  end.
Definition push_record (later : Z) (r : Request) (evs : list EventWithVersion) (h : SyncHandler)
    : outcome (SyncHandler * Response) :=
  let key := header HeaderIdempotencyKey r in
  let h := if bool_decide (key = "") then h
           else with_tracker (Record_ later key status_ok (idempotencyTracker h)) h in
  let* resp := respondWithJSON r 200 status_ok (options h) in
  Done (after_commit evs h, resp).
(** The three steps of a request that is served alone; [now] is read by the
    look-up of the key, [later] by its record. *)
Definition handlePush (now later : Z) (ctx : CtxView) (r : Request) (h : SyncHandler)
    : outcome (SyncHandler * Response) :=
  let* checked := push_check now r h in
  match checked with
  | inr resp => Done (h, resp)
  | inl js =>
      let* (s, evs) := push_events ctx h js (store h) [] in
      push_record later r evs (with_store s h)
  end.

Definition handleLatestVersion (ctx : CtxView) (r : Request) (h : SyncHandler)
    : outcome (SyncHandler * Response) :=
  if negb (bool_decide (Method r = "GET")) then
    let* resp := respondWithError r 405 "method not allowed" (options h) in Done (h, resp)
  else
    let* v := es_LatestVersion ctx (store h) in
    match v with
    | Err _ => let* resp := respondWithError r 500 "could not get latest version" (options h) in
               Done (h, resp)
    | Ok v =>
        let* v := deref v in
        let* text := version_String v in
        let* resp := respondWithJSON r 200 (PText text) (options h) in
        Done (h, resp)
    end.

(** *** Pull queries (query.go) *)
Record PullQuery := mkPullQuery { Since : option Version; Limit : Z; Filters : list Filter }.

(** [strconv.Atoi] on 64-bit integers: an optional sign and digits, in range. *)
Definition atoi (s : string) : option Z :=
  let check sign (t : string) : option Z :=
    match t with
    | EmptyString => None
    | _ => match parse_digits t 0 with
           | Some z => let v := if sign : bool then - z else z in
                       if (- 2 ^ 63 <=? v) && (v <? 2 ^ 63) then Some v else None
           | None => None
           end
    end in
  match s with
  | String c rest => if code c =? 45 then check true rest
                     else if code c =? 43 then check false rest else check false s
  | EmptyString => None
  end.
Definition param_filter (key : string) (r : Request) : list Filter :=
  if bool_decide (query key r = "") then [] else [mkFilter key (query key r)].
Definition ParsePullQuery (ctx : CtxView) (r : Request) (h : SyncHandler)
    : outcome (result error PullQuery) :=
  let sinceStr := if bool_decide (query "since" r = "") then "0" else query "since" r in
  let* version := versionParser h ctx sinceStr (store h) in
  match version with
  | Err e => Done (Err (ErrWrap "invalid since cursor" e))
  | Ok since =>
      let filters := param_filter "type" r ++ param_filter "tenant" r ++ param_filter "aggregate_id" r in
      if bool_decide (query "limit" r = "") then Done (Ok (mkPullQuery since 100 filters))
      else match atoi (query "limit" r) with
           | None => Done (Err (ErrMsg "invalid limit: must be integer"))
           | Some limit =>
               Done (if limit <=? 0 then Err (ErrMsg "invalid limit: must be positive")
                     else if 1000 <? limit then Err (ErrMsg "invalid limit: maximum is 1000")
                     else Ok (mkPullQuery since limit filters))
           end
  end.
Fixpoint GetFilter (fs : list Filter) (key : string) : string * bool :=
  match fs with
  | [] => ("", false)
  | f :: rest => if bool_decide (Key f = key) then (Value f, true) else GetFilter rest key
  end.
(** The tenant of the header is added unless the query already has one. *)
Definition tenant_filter (r : Request) (fs : list Filter) : list Filter :=
  let tenant := ExtractTenant r in
  if bool_decide (tenant = "") || existsb (λ f, bool_decide (Key f = "tenant")) fs then fs
  else fs ++ [mkFilter "tenant" tenant].

Definition opPull : string := "httptransport.Pull".
Definition handlePull (ctx : CtxView) (r : Request) (h : SyncHandler)
    : outcome (SyncHandler * Response) :=
  if negb (bool_decide (Method r = "GET")) then
    let* resp := respondWithStructuredError r opPull ErrCodeInvalidRequest "method not allowed" (options h) in
    Done (h, resp)
  else
    let* q := ParsePullQuery ctx r h in
    match q with
    | Err e =>
        let* resp := respondWithStructuredError r opPull ErrCodeInvalidCursor (error_string e) (options h) in
        Done (h, resp)
    | Ok q =>
        let filters := tenant_filter r (Filters q) in
        let* since := deref (Since q) in
        let* _ := version_String since in
        let h := before_pull since h in
        let* loaded := es_Load ctx (Some since) filters (store h) in
        match loaded with
        | Err _ =>
            let* resp := respondWithStructuredError r opPull ErrCodeInternal "failed to load events" (options h) in
            Done (h, resp)
        | Ok events =>
            let events := take (Z.to_nat (Limit q)) events in
            let* js := to_json_events events in
            let* resp := respondWithJSON r 200 (PEvents js) (options h) in
            Done (h, resp)
        end
    end.

(** *** Cursor pages (cursor_api.go) *)
Definition page_limit (limit : Z) : Z := if (limit <=? 0) || (1000 <? limit) then 200 else limit.
(** The loop computing the largest sequence number of a page, as [int64]. *)
Definition max_seq (evs : list EventWithVersion) : Z :=
  fold_left (λ m ev, match ev_version ev with
                     | Some (IntegerCursor seq) => if m <? i64 seq then i64 seq else m
                     | _ => m
                     end) evs 0.
Definition next_wire (reg : Cursor.Registry) (m : Z) : option Cursor.WireCursor :=
  if 0 <? m then match Cursor.MarshalWire reg (Cursor.IntegerC m) with Ok w => Some w | Err _ => None end
  else None.
(** The handler is called with [NewCursorOptions()], the default limits, whatever
    the handler's own; only the short errors use the handler's. *)
Definition handlePullCursor (reg : Cursor.Registry) (ctx : CtxView) (r : Request)
    (o : ServerOptions) (h : SyncHandler) : outcome (SyncHandler * Response) :=
  let err code msg := let* resp := respondWithError r code msg (options h) in Done (h, resp) in
  if negb (bool_decide (Method r = "POST")) then err 405 "method not allowed"
  else
    let* read := read_post scan_cursor_request r o (options h) in
    match read with
    | inr resp => Done (h, resp)
    | inl req =>
        match (match req_Since req with
               | None => Ok (Cursor.IntegerC 0)
               | Some w => Cursor.UnmarshalWire reg (Some w)
               end) with
        | Err e => err 400 ("bad cursor: " +:+ error_string e)
        | Ok c =>
            match c with
            | Cursor.IntegerC seq =>
                let* loaded := es_Load ctx (Some (IntegerCursor seq)) [] (store h) in
                match loaded with
                | Err _ => err 500 "could not load events"
                | Ok events =>
                    let events := take (Z.to_nat (page_limit (req_Limit req))) events in
                    let* js := to_json_events events in
                    let* resp := respondWithJSON r 200
                                   (PCursor (mkCursorResponse js (next_wire reg (max_seq events)))) o in
                    Done (h, resp)
                end
            | _ => err 400 "cursor kind not supported by this store"
            end
        end
    end.

Definition NewCursorOptions : ServerOptions := DefaultServerOptions.
Definition strip_sync (path : string) : string :=
  if HasPrefix path "/sync" then String.substring 5 (String.length path - 5) path else path.
Definition ServeHTTP (reg : Cursor.Registry) (now later : Z) (ctx : CtxView) (r : Request)
    (h : SyncHandler) : outcome (SyncHandler * Response) :=
  let path := strip_sync (Path r) in
  if bool_decide (path = "/push") then handlePush now later ctx r h
  else if bool_decide (path = "/pull") then handlePull ctx r h
  else if bool_decide (path = "/latest-version") then handleLatestVersion ctx r h
  else if bool_decide (path = "/pull-cursor") then handlePullCursor reg ctx r NewCursorOptions h
  else let* resp := respondWithError r 404 "not found" (options h) in Done (h, resp).
End handler.
Arguments SyncHandler St : clear implicits.
