(* ===== verification/WireCodec.v ===== *)
(** * Codecs and codec-aware wire events (src/synckit/codec/codec.go,
    src/transport/httptransport/wire_format.go)

    The registry of codecs, the encoder that writes the data of an event with the
    codec its metadata names, or as JSON, and the decoder that reads it back.
    Raw JSON text and encoding/json are parameters, a codec is a value with its
    own two functions; the locks of the registry make each call one step. *)
From S2P Require Import Prelude Types Json Errors Versions HttpServer.
From stdpp Require Import options.

Class JSON := {
  RawMessage : Type;
  json_Marshal : any → result error RawMessage;
  json_Unmarshal : option RawMessage → result error any
}.

Section codec.
Context {J : JSON}.

(** ** The registry (codec.go) *)
Record Codec := mkCodec {
  Kind : string;
  Encode : any → result error (option RawMessage);
  Decode : option RawMessage → result error any
}.
Definition Registry : Type := gmap string Codec.
Definition NewRegistry : Registry := ∅.
Definition Register (c : Codec) (r : Registry) : Registry := <[Kind c := c]> r.
Definition Get (kind : string) (r : Registry) : option Codec := r !! kind.
Definition Kinds `{!MapRange} (r : Registry) : list string := (range r).*1.

(** ** Wire events (wire_format.go) *)
Record WireEvent := mkWireEvent {
  w_ID : string; w_Type : string; w_AggregateID : string; w_Data : option RawMessage;
  DataKind : string; w_Metadata : gomap any
}.
Record WireEventWithVersion := mkWireEV { w_Event : WireEvent; w_Version : string }.
Definition zero_wire : WireEvent := mkWireEvent "" "" "" None "" None.
Record CodecAwareEncoder := mkEncoder { registry : Registry; fallback : bool }.
(** A nil registry stands for the default one. *)
Definition NewCodecAwareEncoder (default_registry : Registry) (r : option Registry) (fb : bool)
    : CodecAwareEncoder := mkEncoder (default default_registry r) fb.

(** The first of the three keys that holds a string. *)
Definition codec_kind (md : gomap any) : string :=
  match md with
  | None => ""
  | Some m =>
      match m !! "kind" with
      | Some (AnyString k) => k
      | _ => match m !! "codec_kind" with
             | Some (AnyString k) => k
             | _ => match m !! "data_kind" with Some (AnyString k) => k | _ => "" end
             end
      end
  end.
Definition with_data (kind : string) (raw : option RawMessage) (w : WireEvent) : WireEvent :=
  mkWireEvent (w_ID w) (w_Type w) (w_AggregateID w) raw kind (w_Metadata w).
Definition json_fallback (d : any) (w : WireEvent) : WireEvent * option error :=
  match json_Marshal d with
  | Err e => (w, Some (ErrWrap "failed to encode data with JSON fallback" e))
  | Ok raw => (with_data "" (Some raw) w, None)
  end.
(** The event comes back even with an error, then without its data. *)
Definition EncodeEvent (e : CodecAwareEncoder) (event : option Event) : outcome (WireEvent * option error) :=
  let* ev := deref event in
  let w := mkWireEvent (ID ev) (Type_ ev) (AggregateID ev) None "" (Metadata ev) in
  let kind := codec_kind (Metadata ev) in
  Done (match (if bool_decide (kind = "") then None else Get kind (registry e)) with
        | Some c =>
            match Encode c (Data ev) with
            | Ok raw => (with_data kind raw w, None)
            | Err err =>
                if fallback e then json_fallback (Data ev) w
                else (w, Some (ErrWrap ("failed to encode data with codec " +:+ kind) err))
            end
        | None =>
            if fallback e then json_fallback (Data ev) w
            else (w, Some (ErrMsg ("no codec found for kind " +:+ kind +:+ " and fallback disabled")))
        end).

Definition unmarshal (what : string) (raw : option RawMessage) : result error any :=
  match json_Unmarshal raw with Ok d => Ok d | Err e => Err (ErrWrap ("failed to decode data with " +:+ what) e) end.
Definition decode_data (e : CodecAwareEncoder) (w : WireEvent) : result error any :=
  if bool_decide (DataKind w = "") then unmarshal "JSON" (w_Data w)
  else match Get (DataKind w) (registry e) with
       | Some c =>
           match Decode c (w_Data w) with
           | Ok d => Ok d
           | Err err =>
               if fallback e then unmarshal "JSON fallback" (w_Data w)
               else Err (ErrWrap ("failed to decode data with codec " +:+ DataKind w) err)
           end
       | None =>
           if fallback e then unmarshal "JSON fallback" (w_Data w)
           else Err (ErrMsg ("codec " +:+ DataKind w +:+ " not found and fallback disabled"))
       end.
Definition DecodeEvent (e : CodecAwareEncoder) (w : WireEvent) : result error Event :=
  match decode_data e w with
  | Err err => Err err
  | Ok d => Ok (mkEvent (w_ID w) (w_Type w) (w_AggregateID w) d (w_Metadata w))
  end.

Definition EncodeEventWithVersion (e : CodecAwareEncoder) (ev : EventWithVersion)
    : outcome (result error WireEventWithVersion) :=
  let* (w, err) := EncodeEvent e (ev_event ev) in
  match err with
  | Some err => Done (Err err)
  | None =>
      let* v := match ev_version ev with Some v => version_String v | None => Done "" end in
      Done (Ok (mkWireEV w v))
  end.
Definition DecodeEventWithVersion (e : CodecAwareEncoder)
    (parser : string → outcome (result error (option Version))) (w : WireEventWithVersion)
    : outcome (result error EventWithVersion) :=
  match DecodeEvent e (w_Event w) with
  | Err err => Done (Err (ErrWrap "failed to decode event" err))
  | Ok event =>
      let* v := parser (w_Version w) in
      Done (match v with
            | Err err => Err (ErrWrap "failed to parse version" err)
            | Ok v => Ok (mkEWV (Some event) v)
            end)
  end.

(** *** The older conversions *)
Definition toWireEvent (j : JSONEvent) : result error WireEvent :=
  match json_Marshal (j_Data j) with
  | Err e => Err (ErrWrap "failed to marshal data" e)
  | Ok raw => Ok (mkWireEvent (j_ID j) (j_Type j) (j_AggregateID j) (Some raw) "" (j_Metadata j))
  end.
Definition fromWireEvent (w : WireEvent) : result error JSONEvent :=
  match json_Unmarshal (w_Data w) with
  | Err e => Err (ErrWrap "failed to unmarshal data" e)
  | Ok d => Ok (mkJSONEvent (w_ID w) (w_Type w) (w_AggregateID w) d (w_Metadata w))
  end.
End codec.
Arguments Codec {J}.
Arguments Registry {J}.

(** ** Round trips *)
Section roundtrip.
Context {J : JSON}.

(** [norm] is what JSON makes of a value it writes and reads back. *)
Class JSONLaws := {
  json_norm : any → any;
  json_roundtrip : ∀ d raw, json_Marshal d = Ok raw → json_Unmarshal (Some raw) = Ok (json_norm d)
}.
Context {JL : JSONLaws}.
Implicit Types (e : CodecAwareEncoder) (c : Codec).

Definition lawful (r : Registry) : Prop := ∀ k c d raw, r !! k = Some c → Encode c d = Ok raw → Decode c raw = Ok d.
(** The codec an event is written with. *)
Definition codec_for e (ev : Event) : option (Codec * option RawMessage) :=
  let kind := codec_kind (Metadata ev) in
  if bool_decide (kind = "") then None
  else match Get kind (registry e) with
       | Some c => match Encode c (Data ev) with Ok raw => Some (c, raw) | Err _ => None end
       | None => None
       end.
Definition read_back e (ev : Event) : any :=
  match codec_for e ev with Some _ => Data ev | None => json_norm (Data ev) end.

Lemma json_fallback_decodes e w d w' :
  json_fallback d w = (w', None) →
  decode_data e w' = Ok (json_norm d) ∧ w_ID w' = w_ID w ∧ w_Type w' = w_Type w
  ∧ w_AggregateID w' = w_AggregateID w ∧ w_Metadata w' = w_Metadata w.
Proof using JL.
  unfold json_fallback. destruct (json_Marshal d) as [raw|] eqn:Hm; [|done]. intros [= <-].
  unfold decode_data, unmarshal. cbn. by rewrite (json_roundtrip _ _ Hm).
Qed.
Lemma json_fallback_fails d w : (json_fallback d w).2 = None ↔ ∃ raw, json_Marshal d = Ok raw.
Proof. unfold json_fallback. destruct (json_Marshal d); cbn; naive_solver. Qed.

Lemma encode_succeeds e ev :
  ∃ w err, EncodeEvent e (Some ev) = Done (w, err)
    ∧ (err = None ↔ is_Some (codec_for e ev) ∨ fallback e = true ∧ ∃ raw, json_Marshal (Data ev) = Ok raw).
Proof.
  unfold EncodeEvent, codec_for. cbn [deref obind].
  destruct (bool_decide (codec_kind (Metadata ev) = "")); [|destruct (Get _ _) as [c|]];
    [|destruct (Encode c (Data ev)) as [raw|]|].
  2: { eexists _, _. split; [reflexivity|]. cbn. naive_solver. }
  all: (destruct (fallback e);
    [destruct (json_fallback _ _) as [w' err] eqn:Hj; eexists w', err; split; [reflexivity|];
     assert (err = None ↔ (json_fallback (Data ev) (mkWireEvent (ID ev) (Type_ ev) (AggregateID ev) None "" (Metadata ev))).2 = None)
       as -> by (by rewrite Hj); rewrite json_fallback_fails
    |eexists _, _; split; [reflexivity|]]; rewrite is_Some_alt; naive_solver).
Qed.

Lemma encode_decodes e ev w : lawful (registry e) →
  EncodeEvent e (Some ev) = Done (w, None) →
  DecodeEvent e w = Ok (mkEvent (ID ev) (Type_ ev) (AggregateID ev) (read_back e ev) (Metadata ev)).
Proof using JL.
  intros Hl. unfold EncodeEvent, DecodeEvent, read_back, codec_for. cbn [deref obind].
  set (w0 := mkWireEvent _ _ _ _ _ _). set (kind := codec_kind (Metadata ev)).
  assert (∀ x, json_fallback (Data ev) w0 = (x, None) →
    match decode_data e x with
    | Ok d => Ok (mkEvent (w_ID x) (w_Type x) (w_AggregateID x) d (w_Metadata x))
    | Err err => Err err
    end = Ok (mkEvent (ID ev) (Type_ ev) (AggregateID ev) (json_norm (Data ev)) (Metadata ev))) as Hjson.
  { intros x (-> & -> & -> & -> & ->)%(json_fallback_decodes e). done. }
  case_bool_decide as Hkind; [|destruct (Get kind (registry e)) as [c|] eqn:Hc].
  - destruct (fallback e); intros [= Hw]; by apply Hjson.
  - destruct (Encode c (Data ev)) as [raw|err] eqn:Henc.
    + intros [= <-]. unfold decode_data, with_data.
      cbn [DataKind w_Data w_ID w_Type w_AggregateID w_Metadata]. rewrite bool_decide_false, Hc by done.
      by rewrite (Hl kind c _ _ Hc Henc).
    + destruct (fallback e); intros [= Hw]; by apply Hjson.
  - destruct (fallback e); intros [= Hw]; by apply Hjson.
Qed.
End roundtrip.
Arguments JSONLaws J : clear implicits.

(** C26: an event is encoded exactly when a codec its metadata names takes its data,
    or JSON does and the fallback is on; the same encoder then reads back the
    event under the same version, its data unchanged when a codec wrote them and
    as JSON leaves them otherwise; one that lacks the codec and the fallback
    refuses it. *)
Theorem wire_event_roundtrip {J : JSON} {JL : JSONLaws J} (e : CodecAwareEncoder) (ev : Event) (v : Version)
    (text : string) (parser : string → outcome (result error (option Version)))
    (Hlaw : lawful (registry e)) (Htext : version_String v = Done text)
    (Hparse : parser text = Done (Ok (Some v))) :
  ∃ r, EncodeEventWithVersion e (mkEWV (Some ev) (Some v)) = Done r
    ∧ ((∃ w, r = Ok w) ↔ is_Some (codec_for e ev) ∨ fallback e = true ∧ ∃ raw, json_Marshal (Data ev) = Ok raw)
    ∧ ∀ w, r = Ok w →
        DecodeEventWithVersion e parser w
        = Done (Ok (mkEWV (Some (mkEvent (ID ev) (Type_ ev) (AggregateID ev) (read_back e ev) (Metadata ev)))
                      (Some v)))
        ∧ ∀ e', fallback e' = false → is_Some (codec_for e ev) → registry e' !! codec_kind (Metadata ev) = None →
            ∃ err, DecodeEvent e' (w_Event w) = Err err.
Proof.
  destruct (encode_succeeds e ev) as (w & err & Henc & Hiff). unfold EncodeEventWithVersion. cbn [ev_event].
  rewrite Henc. cbn [obind]. destruct err as [err|].
  { eexists. split; [reflexivity|]. split; [naive_solver|done]. }
  cbn [ev_version]. rewrite Htext. cbn [obind]. eexists. split; [reflexivity|]. split; [naive_solver|].
  intros w' [= <-]. split.
  - unfold DecodeEventWithVersion. cbn [w_Event w_Version]. rewrite (encode_decodes e ev w Hlaw Henc).
    by rewrite Hparse.
  - intros e' Hf [x Hc] Hnone. unfold codec_for in Hc. unfold EncodeEvent in Henc. cbn [deref obind] in Henc.
    case_bool_decide as Hkind; [done|]. destruct (Get _ (registry e)) as [c|]; [|done].
    destruct (Encode c (Data ev)) as [raw|]; [|done]. injection Henc as <-.
    unfold DecodeEvent, decode_data. cbn. rewrite bool_decide_false by done. unfold Get. rewrite Hnone, Hf.
    by eexists.
Qed.

(** ** A concrete codec *)
#[local] Instance demo_json : JSON := {|
  RawMessage := any;
  json_Marshal := λ d, match d with AnyBytes _ => Err (ErrMsg "json: unsupported type") | d => Ok d end;
  json_Unmarshal := λ raw, match raw with Some d => Ok d | None => Err (ErrMsg "unexpected end of JSON input") end
|}.
#[local] Program Instance demo_json_laws : JSONLaws demo_json := {| json_norm := id |}.
Next Obligation. intros d raw. destruct d; cbn; intros [= <-]; done. Qed.
Definition bytes_codec : Codec := mkCodec "bytes" (λ d, Ok (Some d)) (λ raw, Ok (default AnyNil raw)).
Definition demo_encoder : CodecAwareEncoder := mkEncoder (Register bytes_codec NewRegistry) false.
Definition demo_bytes : Event :=
  mkEvent "e1" "Uploaded" "file-1" (AnyBytes [1; 2]) (Some {["kind" := AnyString "bytes"]}).
Lemma wire_event_roundtrip_witness :
  ∃ w, EncodeEventWithVersion demo_encoder (mkEWV (Some demo_bytes) (Some (IntegerCursor 4))) = Done (Ok w)
    ∧ DecodeEventWithVersion demo_encoder (λ _, Done (Ok (Some (IntegerCursor 4)))) w
      = Done (Ok (mkEWV (Some demo_bytes) (Some (IntegerCursor 4)))).
Proof.
  destruct (wire_event_roundtrip demo_encoder demo_bytes (IntegerCursor 4) "4" (λ _, Done (Ok (Some (IntegerCursor 4)))))
    as (r & Hr & [_ Hok] & Hdec); [|reflexivity|reflexivity|].
  - intros k c d raw. unfold demo_encoder, Register, NewRegistry. cbn [registry].
    intros [[_ <-]|[_ [=]]]%(lookup_insert_Some (M := gmap string)). by intros [= <-].
  - destruct Hok as [w ->]; [left; by eexists|]. exists w. split; [exact Hr|]. by destruct (Hdec w eq_refl).
Defined.
