(* ===== verification/HttpClient.v ===== *)
(** * The HTTP client (src/transport/httptransport: client.go, cursor_client.go,
    options.go, helpers.go)

    The transport that sends requests over a [Network] and reads its responses,
    and the network that hands each request to a server of [HttpServer.v]. *)
From S2P Require Import Prelude Types Json Text Errors VectorClock Versions Interfaces.
From S2P Require Import Idempotency HttpServer.
From S2P Require Cursor MemStore.
From stdpp Require Import options.

(** ** Options (types.go, options.go) *)
Record ClientOptions := mkClientOptions {
  ClientCompression : bool; DisableAutoDecompression : bool; GzipMinBytes : Z;
  MaxResponseSize : Z; MaxDecompressedResponseSize : Z; ClientTimeout : Z;
  RetryMax : Z; RetryWaitMin : Z; RetryWaitMax : Z
}.
Definition DefaultClientOptions : ClientOptions :=
  mkClientOptions true false 1024 (10 * 1024 * 1024) (20 * 1024 * 1024) (seconds 30) 3 (seconds 1) (seconds 30).
Inductive ClientOption :=
  | WithClientCompression (enabled : bool) | WithGzipThreshold (threshold : Z)
  | WithDisableAutoDecompression (disabled : bool) | WithMaxResponseSize (size : Z)
  | WithMaxDecompressedResponseSize (size : Z) | WithRetryConfig (attempts waitMin waitMax : Z)
  | WithClientTimeout (timeout : Z).
Definition apply_client_option (o : ClientOptions) (x : ClientOption) : ClientOptions :=
  let '(mkClientOptions c d g r m t n lo hi) := o in
  match x with
  | WithClientCompression b => mkClientOptions b d g r m t n lo hi
  | WithGzipThreshold z => mkClientOptions c d z r m t n lo hi
  | WithDisableAutoDecompression b => mkClientOptions c b g r m t n lo hi
  | WithMaxResponseSize z => mkClientOptions c d g z m t n lo hi
  | WithMaxDecompressedResponseSize z => mkClientOptions c d g r z t n lo hi
  | WithRetryConfig a x y => mkClientOptions c d g r m t a x y
  | WithClientTimeout z => mkClientOptions c d g r m z n lo hi
  end.
Definition ValidateClientOptions (o : option ClientOptions) : option error :=
  match o with
  | None => None
  | Some o =>
      if MaxResponseSize o <=? 0 then Some (ErrMsg "MaxResponseSize must be > 0")
      else if MaxDecompressedResponseSize o <=? 0
      then Some (ErrMsg "MaxDecompressedResponseSize must be > 0")
      else if DisableAutoDecompression o && (MaxDecompressedResponseSize o <? MaxResponseSize o)
      then Some (ErrMsg "MaxDecompressedResponseSize must be >= MaxResponseSize when DisableAutoDecompression is true")
      else if GzipMinBytes o <? 0 then Some (ErrMsg "GzipMinBytes must be >= 0")
      else if ClientTimeout o <? 0 then Some (ErrMsg "RequestTimeout must be >= 0")
      else if RetryMax o <? 0 then Some (ErrMsg "RetryMax must be >= 0")
      else if RetryWaitMin o <? 0 then Some (ErrMsg "RetryWaitMin must be >= 0")
      else if RetryWaitMax o <? 0 then Some (ErrMsg "RetryWaitMax must be >= 0")
      else if (0 <? RetryWaitMax o) && (RetryWaitMax o <? RetryWaitMin o)
      then Some (ErrMsg "RetryWaitMin must be <= RetryWaitMax")
      else None
  end.

(** ** The network

    [Do] answers a request or fails; [raw_query] is what net/url makes of the
    text after the question mark. *)
Class Network {W : WireFormat} (N : Type) := {
  Do : CtxView → Request → N → outcome (N * result error Response);
  raw_query : string → result error (gmap string string)
}.

Section client.
Context {W : WireFormat} {N : Type} {NW : Network N}.

Abbreviation ClientParser := (CtxView → string → outcome (result error (option Version))).
Record HTTPTransport := mkHTTP { network : N; client_parser : ClientParser; client_options : ClientOptions }.

(** [strconv.ParseInt(s, 10, 64)], and zero refused. *)
Definition default_parser : ClientParser := λ _ s,
  Done (match atoi s with
        | None => Err (ErrMsg ("strconv.ParseInt: parsing " +:+ s))
        | Some v => if v =? 0 then Err (ErrMsg "invalid version: zero is not a valid version")
                    else Ok (Some (IntegerCursor (u64 v)))
        end).
Definition fill_sizes (o : ClientOptions) : ClientOptions :=
  let '(mkClientOptions c d g r m t n lo hi) := o in
  mkClientOptions c d g (or_default r (10 * 1024 * 1024)) (or_default m (20 * 1024 * 1024)) t n lo hi.
Definition NewTransportWithLogger (n : N) (parser : option ClientParser) (o : option ClientOptions)
    : HTTPTransport :=
  let o := fill_sizes (default DefaultClientOptions o) in
  let o := match ValidateClientOptions (Some o) with Some _ => DefaultClientOptions | None => o end in
  mkHTTP n (default default_parser parser) o.
Definition NewTransport : N → option ClientParser → option ClientOptions → HTTPTransport :=
  NewTransportWithLogger.

(** *** The functional client (client.go) *)
Record Limits := mkLimits {
  MaxBodyBytes : Z; MaxDecompressedBytes : Z; EnableGzip : bool; LimitGzipMinBytes : Z
}.
Record TransportClient := mkTransportClient {
  tc_network : N; tc_timeout : Z; tc_limits : Limits; tc_parser : option ClientParser
}.
Inductive TransportClientOption :=
  | WithHTTPClient (n : N) (timeout : Z) | WithLimits (l : Limits) | WithVersionParser (p : option ClientParser).
Definition apply_transport_client_option (c : TransportClient) (o : TransportClientOption) : TransportClient :=
  match o with
  | WithHTTPClient n t => mkTransportClient n t (tc_limits c) (tc_parser c)
  | WithLimits l => mkTransportClient (tc_network c) (tc_timeout c) l (tc_parser c)
  | WithVersionParser p => mkTransportClient (tc_network c) (tc_timeout c) (tc_limits c) p
  end.
Definition NewTransportClient (n : N) (opts : list TransportClientOption) : TransportClient :=
  fold_left apply_transport_client_option opts
    (mkTransportClient n (seconds 30) (mkLimits (8 * 1024 * 1024) (64 * 1024 * 1024) true 1024) None).
Definition ToHTTPTransport (c : TransportClient) : HTTPTransport :=
  let l := tc_limits c in
  NewTransportWithLogger (tc_network c) (tc_parser c)
    (Some (mkClientOptions (EnableGzip l) false (LimitGzipMinBytes l) (MaxBodyBytes l)
             (MaxDecompressedBytes l) (tc_timeout c) 3 (seconds 1) (seconds 30))).

(** [http.Response.Status] of the statuses the server sends. *)
Definition status_text (code : Z) : string :=
  format_int code +:+ " " +:+
  (if code =? 400 then "Bad Request" else if code =? 401 then "Unauthorized"
   else if code =? 404 then "Not Found" else if code =? 405 then "Method Not Allowed"
   else if code =? 409 then "Conflict" else if code =? 413 then "Request Entity Too Large"
   else if code =? 415 then "Unsupported Media Type" else if code =? 500 then "Internal Server Error"
   else "").

(** *** Requests and responses *)
Definition component : string := "transport/httptransport".
(** [syncErrors.WrapOpComponent]. *)
Definition wrapped (op : string) (e : error) : error :=
  Errors.E [AOp op; AComponent component; AErr e].
Definition opPush : string := "httptransport.Push".
Definition opLatestVersion : string := "httptransport.GetLatestVersion".
Definition opSubscribe : string := "httptransport.Subscribe".

Definition accept_encoding (o : ClientOptions) : gmap string string :=
  if ClientCompression o
  then {["Accept-Encoding" := if DisableAutoDecompression o then "gzip" else "gzip, deflate"]}
  else ∅.
Definition server_error (what : string) (resp : Response) : error :=
  ErrMsg ("server error" +:+ what +:+ " (status " +:+ format_int (StatusCode resp) +:+ "): "
          +:+ body_text (Content resp)).
Definition with_network (n : N) (t : HTTPTransport) : HTTPTransport :=
  mkHTTP n (client_parser t) (client_options t).

(** [createSafeResponseReader]: the wire limit ends the body silently, the limit
    on decompressed bytes with an error. *)
Definition gz_read_error (fin : gz_end) : ReadError :=
  match fin with GzDone => ErrEOF | GzTruncated => ErrUnexpectedEOF | GzCorrupt e => OtherError e end.
Definition createSafeResponseReader (resp : Response) (o : ClientOptions) : result error reader :=
  let c := Content resp in
  let limited := if MaxResponseSize o <? body_len c then prefix (MaxResponseSize o) c else c in
  if gzipped resp then
    match gunzip limited with
    | BadHeader _ e => Err e
    | Stream b fin together =>
        let n := MaxDecompressedResponseSize o in
        Ok (if (n <? body_len b) || ((n =? body_len b) && negb together)
            then mkReader (prefix n b) ResponseTooLarge else mkReader b (gz_read_error fin))
    end
  else Ok (mkReader limited ErrEOF).
Definition read_error (e : ReadError) : error :=
  match e with OtherError e => e | _ => ErrMsg (read_error_text e) end.
(** The body of a successful response, decoded. *)
Definition read_response {A} (scan : body → scanned A) (op what : string) (resp : Response)
    (o : ClientOptions) : result error A :=
  match createSafeResponseReader resp o with
  | Err e => Err (wrapped op (ErrWrap "failed to create safe response reader" e))
  | Ok rd =>
      match decode scan rd with
      | Ok a => Ok a
      | Err ResponseTooLarge =>
          Err (wrapped op (ErrWrap "response decompressed size exceeds limit" (read_error ResponseTooLarge)))
      | Err e => Err (wrapped op (ErrWrap ("failed to decode " +:+ what) (read_error e)))
      end
  end.

Definition push_request (js : list JSONEventWithVersion) (o : ClientOptions) : result error Request :=
  match marshal (PEvents js) with
  | Err e => Err (wrapped opPush (ErrWrap "failed to marshal events" e))
  | Ok payload =>
      let min := if GzipMinBytes o =? 0 then 1024 else GzipMinBytes o in
      let squeeze := ClientCompression o && (min <? body_len payload) in
      let b := if squeeze then gzip payload else payload in
      Ok (mkRequest "POST" "/push"
            (<["Content-Type" := "application/json"]>
               ((if squeeze then <["Content-Encoding" := "gzip"]> else id) (accept_encoding o)))
            ∅ (body_len b) b)
  end.
Definition Push (ctx : CtxView) (evs : list EventWithVersion) (t : HTTPTransport)
    : outcome (HTTPTransport * option error) :=
  match evs with
  | [] => Done (t, None)
  | _ =>
      let* js := to_json_events evs in
      match push_request js (client_options t) with
      | Err e => Done (t, Some e)
      | Ok req =>
          let* (n, r) := Do ctx req (network t) in
          let t := with_network n t in
          Done (t, match r with
                   | Err e => Some (wrapped opPush (ErrWrap "network error" e))
                   | Ok resp => if StatusCode resp =? 200 then None
                                else Some (wrapped opPush (server_error "" resp))
                   end)
      end
  end.

Fixpoint parse_events (ctx : CtxView) (t : HTTPTransport) (fail : error → error)
    (js : list JSONEventWithVersion) : outcome (result error (list EventWithVersion)) :=
  match js with
  | [] => Done (Ok [])
  | j :: rest =>
      let* v := client_parser t ctx (j_Version j) in
      match v with
      | Err e => Done (Err (fail e))
      | Ok v =>
          let* evs := parse_events ctx t fail rest in
          Done (match evs with
                | Err e => Err e
                | Ok evs => Ok (mkEWV (Some (SimpleEvent (j_Event j))) v :: evs)
                end)
      end
  end.
(** The log lines call [String] on the version asked for, so a nil one panics. *)
Definition Pull (ctx : CtxView) (since : option Version) (t : HTTPTransport)
    : outcome (HTTPTransport * result error (list EventWithVersion)) :=
  let* v := deref since in
  let* text := version_String v in
  match raw_query ("since=" +:+ text) with
  | Err e => Done (t, Err (wrapped opPull (ErrWrap "failed to create request" e)))
  | Ok q =>
      let* (n, r) := Do ctx (mkRequest "GET" "/pull" (accept_encoding (client_options t)) q 0
                              no_body) (network t) in
      let t := with_network n t in
      match r with
      | Err e => Done (t, Err (wrapped opPull (ErrWrap "network error" e)))
      | Ok resp =>
          if negb (StatusCode resp =? 200) then Done (t, Err (wrapped opPull (server_error "" resp)))
          else match read_response scan_events opPull "response" resp (client_options t) with
               | Err e => Done (t, Err e)
               | Ok js =>
                   let* evs := parse_events ctx t
                     (λ e, wrapped opPull (ErrWrap "invalid version in response" e)) js in
                   Done (t, evs)
               end
      end
  end.

Definition GetLatestVersion (ctx : CtxView) (t : HTTPTransport)
    : outcome (HTTPTransport * result error (option Version)) :=
  let* (n, r) := Do ctx (mkRequest "GET" "/latest-version" ∅ ∅ 0 no_body) (network t) in
  let t := with_network n t in
  let fail e := wrapped opLatestVersion e in
  match r with
  | Err e => Done (t, Err (fail (ErrWrap "network error while getting latest version" e)))
  | Ok resp =>
      if negb (StatusCode resp =? 200)
      then Done (t, Err (fail (server_error " while fetching latest version" resp)))
      else match read_response scan_text opLatestVersion "latest version" resp (client_options t) with
           | Err e => Done (t, Err e)
           | Ok text =>
               let* v := client_parser t ctx text in
               Done (t, match v with Err e => Err (fail (ErrWrap "invalid version format" e)) | Ok v => Ok v end)
           end
  end.
Definition Subscribe : option error :=
  Some (wrapped opSubscribe (ErrMsg "subscribe is not implemented for HTTP transport")).
Definition Close (t : HTTPTransport) : HTTPTransport * option error := (t, None).

(** *** Cursor pages (cursor_client.go); a nil cursor starts at the beginning *)
Definition cursor_request (reg : Cursor.Registry) (since : option Cursor.Cursor) (limit : Z)
    : result error (result error body) :=
  match (match since with
         | None => Ok None
         | Some c => match Cursor.MarshalWire reg c with Ok w => Ok (Some w) | Err e => Err e end
         end) with
  | Err e => Err e
  | Ok w => Ok (marshal (PCursorRequest (mkCursorRequest w (page_limit limit))))
  end.
Definition PullWithCursor (reg : Cursor.Registry) (ctx : CtxView) (since : option Cursor.Cursor)
    (limit : Z) (t : HTTPTransport)
    : outcome (HTTPTransport * result error (list EventWithVersion * option Cursor.Cursor)) :=
  match cursor_request reg since limit with
  | Err e => Done (t, Err e)
  | Ok b =>
      (* the error of the marshalling is dropped: the body is then empty *)
      let b := match b with Ok b => b | Err _ => no_body end in
      let* (n, r) := Do ctx (mkRequest "POST" "/pull-cursor" {["Content-Type" := "application/json"]} ∅
                              (body_len b) b) (network t) in
      let t := with_network n t in
      match r with
      | Err e => Done (t, Err e)
      | Ok resp =>
          if negb (StatusCode resp =? 200)
          then Done (t, Err (ErrMsg ("pull-cursor failed: " +:+ status_text (StatusCode resp) +:+ ": "
                                     +:+ body_text (Content resp))))
          else
            match createSafeResponseReader resp (client_options t) with
            | Err e => Done (t, Err (ErrWrap "failed to create safe response reader" e))
            | Ok rd =>
                match decode scan_cursor_response rd with
                | Err ResponseTooLarge =>
                    Done (t, Err (ErrWrap "response decompressed size exceeds limit" (read_error ResponseTooLarge)))
                | Err e => Done (t, Err (read_error e))
                | Ok pr =>
                    let* evs := parse_events ctx t (λ e, ErrWrap "invalid version" e) (resp_Events pr) in
                    match evs with
                    | Err e => Done (t, Err e)
                    | Ok evs =>
                        match resp_Next pr with
                        | None => Done (t, Ok (evs, None))
                        | Some w =>
                            match Cursor.UnmarshalWire reg (Some w) with
                            | Err e => Done (t, Err (ErrWrap "bad next cursor" e))
                            | Ok c => Done (t, Ok (evs, Some c))
                            end
                        end
                    end
                end
            end
      end
  end.

(** The transport interface; what a read changes at the server is not kept. *)
#[global] Instance http_Transport : Transport HTTPTransport := {|
  tr_Push := Push;
  tr_Pull := λ ctx since t, let* (_, r) := Pull ctx since t in Done r;
  tr_GetLatestVersion := λ ctx t, let* (_, r) := GetLatestVersion ctx t in Done r;
  tr_Close := λ t, Done (Close t);
  tr_IsHealthy := λ _, None;
  tr_CanSendReceive := λ _, None
|}.
End client.
Arguments HTTPTransport N : clear implicits.
