(* ===== verification/LegacyCursor.v ===== *)
(** * The earlier cursor endpoint (src/transport/httptransport/cursor.go)

    A client and a server of envelope pages, over any store that answers by
    cursor; JSON and the network are parameters. *)
From S2P Require Import Prelude Types Json Versions HttpServer.
From S2P Require Cursor HttpClient.
From stdpp Require Import options.

Record PullRequest := mkPullRequest { pr_Since : option Cursor.WireCursor; pr_Limit : Z }.
Record EventEnvelope := mkEnvelope {
  env_ID : string; env_Type : string; env_AggregateID : string; env_Data : gomap any;
  env_Metadata : gomap any; OriginNode : string; OriginCounter : Z; Seq : Z
}.
Record PullResponse := mkPullResponse { pr_Events : list EventEnvelope; pr_Next : option Cursor.WireCursor }.

(** What encoding/json does with the two messages. *)
Class EnvelopeJSON := {
  text : Type;
  no_text : text;
  text_string : text → string;
  marshal_request : PullRequest → result error text;
  marshal_response : PullResponse → result error text;
  decode_request : text → result error PullRequest;
  decode_response : text → result error PullResponse
}.

Section endpoint.
Context {J : EnvelopeJSON} (reg : Cursor.Registry).

(** A response of status and body; [Do] sends the body of a POST to a path. *)
Record Reply := mkReply { code : Z; content : text }.
Class Wire (N : Type) := { Do : CtxView → string → text → N → outcome (N * result error Reply) }.
Class Store (St : Type) := {
  PullWithCursor : CtxView → option Cursor.Cursor → Z → St
    → outcome (St * result error (list EventEnvelope * option Cursor.Cursor))
}.

(** ** The client *)
Definition Client_PullWithCursor {N} {NW : Wire N} (ctx : CtxView) (since : option Cursor.Cursor)
    (limit : Z) (n : N) : outcome (N * result error (list EventEnvelope * option Cursor.Cursor)) :=
  match (match since with
         | None => Ok None
         | Some c => match Cursor.MarshalWire reg c with Ok w => Ok (Some w) | Err e => Err e end
         end) with
  | Err e => Done (n, Err e)
  | Ok w =>
      let body := match marshal_request (mkPullRequest w limit) with Ok b => b | Err _ => no_text end in
      let* (n, r) := Do ctx "/pull" body n in
      Done (n,
        match r with
        | Err e => Err e
        | Ok reply =>
            if negb (code reply =? 200)
            then Err (ErrMsg ("pull failed: " +:+ HttpClient.status_text (code reply) +:+ ": " +:+ text_string (content reply)))
            else match decode_response (content reply) with
                 | Err e => Err e
                 | Ok pr =>
                     match pr_Next pr with
                     | None => Ok (pr_Events pr, None)
                     | Some w => match Cursor.UnmarshalWire reg (Some w) with
                                 | Err e => Err e
                                 | Ok c => Ok (pr_Events pr, Some c)
                                 end
                     end
                 end
        end)
  end.

(** ** The server *)
Definition newline : string := String (Ascii.ascii_of_nat 10) "".
Definition http_Error (text_of : string → text) (msg : string) (c : Z) : Reply := mkReply c (text_of (msg +:+ newline)).
(** A next cursor that has no wire form is left out; a response that has no JSON
    text is an empty one, of status 200. *)
Definition HandlePullWithCursor {St} {SS : Store St} (text_of : string → text) (ctx : CtxView) (b : text) (s : St)
    : outcome (St * Reply) :=
  match decode_request b with
  | Err _ => Done (s, http_Error text_of "bad request" 400)
  | Ok req =>
      match (match pr_Since req with
             | None => Ok None
             | Some w => match Cursor.UnmarshalWire reg (Some w) with Ok c => Ok (Some c) | Err e => Err e end
             end) with
      | Err _ => Done (s, http_Error text_of "bad cursor" 400)
      | Ok since =>
          let* (s, r) := PullWithCursor ctx since (page_limit (pr_Limit req)) s in
          match r with
          | Err _ => Done (s, http_Error text_of "server error" 500)
          | Ok (evs, next) =>
              let wire := match next with
                          | None => None
                          | Some c => match Cursor.MarshalWire reg c with Ok w => Some w | Err _ => None end
                          end in
              Done (s, mkReply 200 (match marshal_response (mkPullResponse evs wire) with
                                    | Ok b => b | Err _ => no_text end))
          end
      end
  end.
(** The client's requests served by the server directly. *)
Definition link_Wire {St} {SS : Store St} (text_of : string → text) : Wire St := {|
  Do := λ ctx _ b s, let* (s, reply) := HandlePullWithCursor text_of ctx b s in Done (s, Ok reply)
|}.

(** ** Laws of the messages *)
Class EnvelopeLaws := {
  sendable_page : list EventEnvelope → Prop;
  norm_page : list EventEnvelope → list EventEnvelope;
  request_law : ∀ r, ∃ b, marshal_request r = Ok b ∧ decode_request b = Ok r;
  response_law : ∀ evs next, sendable_page evs →
    ∃ b, marshal_response (mkPullResponse evs next) = Ok b
      ∧ decode_response b = Ok (mkPullResponse (norm_page evs) next);
  response_fails : ∀ evs next, ¬ sendable_page evs → ∃ e, marshal_response (mkPullResponse evs next) = Err e;
  no_text_law : ∃ e, decode_response no_text = Err e
}.

(** A cursor that survives the wire. *)
Definition survives (c : Cursor.Cursor) : Prop :=
  ∃ w, Cursor.MarshalWire reg c = Ok w ∧ Cursor.UnmarshalWire reg (Some w) = Ok c.
(** What the client makes of the next cursor. *)
Definition next_cursor (next : option Cursor.Cursor) : option Cursor.Cursor :=
  match next with
  | Some c => match Cursor.MarshalWire reg c with Ok _ => Some c | Err _ => None end
  | None => None
  end.
End endpoint.
Arguments EnvelopeLaws J : clear implicits.

(** Remark: a page pulled through client and server is the page the store gives for the
    same cursor and the limit (200 unless between 1 and 1000), as JSON leaves
    it; an error of the store or a page JSON cannot write is an error; and when
    the store's next cursor has no wire form the page comes as if it were the
    last. *)
Theorem legacy_pull {J : EnvelopeJSON} {L : EnvelopeLaws J} {St} {SS : Store St} (reg : Cursor.Registry)
    (text_of : string → text) (ctx : CtxView) (since : option Cursor.Cursor) (limit : Z) (s s' : St)
    (r : result error (list EventEnvelope * option Cursor.Cursor))
    (Hsince : ∀ c, since = Some c → survives reg c)
    (Hstore : PullWithCursor ctx since (page_limit limit) s = Done (s', r))
    (Hnext : ∀ evs c, r = Ok (evs, Some c) → (∃ e, Cursor.MarshalWire reg c = Err e) ∨ survives reg c) :
  ∃ answer, Client_PullWithCursor (NW := link_Wire reg text_of) reg ctx since limit s = Done (s', answer)
    ∧ match r with
      | Err _ => ∃ e, answer = Err e
      | Ok (evs, next) =>
          (sendable_page evs → answer = Ok (norm_page evs, next_cursor reg next))
          ∧ (¬ sendable_page evs → ∃ e, answer = Err e)
      end.
Proof.
  unfold Client_PullWithCursor.
  assert (∃ w, match since with
               | None => Ok None
               | Some c => match Cursor.MarshalWire reg c with Ok w => Ok (Some w) | Err e => Err e end
               end = Ok w
    ∧ match w with
      | None => Ok None
      | Some w => match Cursor.UnmarshalWire reg (Some w) with Ok c => Ok (Some c) | Err e => Err e end
      end = Ok since) as (w & -> & Hw).
  { destruct since as [c|]; [|by exists None]. destruct (Hsince c eq_refl) as (w & -> & Hu).
    exists (Some w). by rewrite Hu. }
  destruct (request_law (mkPullRequest w limit)) as (b & -> & Hb).
  unfold Do, link_Wire, HandlePullWithCursor. rewrite Hb. cbn [pr_Since pr_Limit]. rewrite Hw, Hstore.
  cbn [obind]. destruct r as [[evs next]|e]; [|eexists; split; [reflexivity|by eexists]]. cbn [obind].
  eexists. split; [reflexivity|]. cbn [code content]. change (negb (200 =? 200)) with false. cbv iota.
  set (wire := match next with None => None | Some _ => _ end). split; intros Hp.
  - destruct (response_law evs wire Hp) as (rb & -> & ->). cbn [pr_Next pr_Events]. unfold wire, next_cursor.
    destruct next as [c|]; [|done]. destruct (Hnext evs c eq_refl) as [[e ->]|(wc & -> & ->)]; done.
  - destruct (response_fails evs wire Hp) as [e ->]. destruct no_text_law as [e' ->]. by eexists.
Qed.

(** ** A concrete store: numbered envelopes, two to a page *)
#[local] Instance demo_json : EnvelopeJSON := {|
  text := (option PullRequest * option PullResponse);
  no_text := (None, None);
  text_string := λ _, "";
  marshal_request := λ r, Ok (Some r, None);
  marshal_response := λ r, Ok (None, Some r);
  decode_request := λ b, match b.1 with Some r => Ok r | None => Err (ErrMsg "EOF") end;
  decode_response := λ b, match b.2 with Some r => Ok r | None => Err (ErrMsg "EOF") end
|}.
#[local] Program Instance demo_laws : EnvelopeLaws demo_json := {| sendable_page := λ _, True; norm_page := id |}.
Next Obligation. intros r. by eexists. Qed.
Next Obligation. intros evs next _. by eexists. Qed.
Next Obligation. done. Qed.
Next Obligation. by eexists. Qed.
#[local] Instance demo_Store : Store (list EventEnvelope) := {|
  PullWithCursor := λ _ since limit s,
    let k := match since with Some (Cursor.IntegerC k) => Z.to_nat k | _ => 0%nat end in
    let page := take (Z.to_nat limit) (drop k s) in
    Done (s, Ok (page, match page with
                       | [] => None
                       | _ => Some (Cursor.IntegerC (Z.of_nat (k + length page)))
                       end))
|}.
Definition demo_envelopes : list EventEnvelope :=
  (λ n, mkEnvelope "e" "Updated" "order-1" None None "" 0 n) <$> [1; 2; 3].
Lemma legacy_pull_witness :
  Client_PullWithCursor (NW := link_Wire (Cursor.InitDefaultCodecs ∅) (λ _, no_text)) (Cursor.InitDefaultCodecs ∅)
    background (Some (Cursor.IntegerC 1)) 2 demo_envelopes
  = Done (demo_envelopes, Ok (drop 1 demo_envelopes, Some (Cursor.IntegerC 3))).
Proof.
  assert (∀ k, is_u64 k → survives (Cursor.InitDefaultCodecs ∅) (Cursor.IntegerC k)) as Hsurv.
  { intros k Hk. apply (Cursor.wire_roundtrip Cursor.integerCodec Cursor.integer_cursor);
      [apply _|by exists k|apply Cursor.Lookup_default_integer]. }
  destruct (legacy_pull (Cursor.InitDefaultCodecs ∅) (λ _, no_text) background (Some (Cursor.IntegerC 1)) 2
    demo_envelopes demo_envelopes (Ok (drop 1 demo_envelopes, Some (Cursor.IntegerC 3))))
    as (answer & Hrun & Hok & _).
  - intros c [= <-]. by apply Hsurv.
  - reflexivity.
  - intros evs c [= _ <-]. right. by apply Hsurv.
  - rewrite Hrun, (Hok I). reflexivity.
Defined.
