(* ===== verification/HttpSync.v ===== *)
(** * Synchronising over HTTP

    A client of [HttpClient.v] linked to a server of [HttpServer.v]: what a push
    stores, what idempotency keys protect from, how cursor pages add up, and how
    the manager fares on this transport.  What JSON and gzip do is stated by
    [WireLaws]; the network between the two hands requests over unchanged (its
    client does no compression of its own). *)
From S2P Require Import Prelude Types Json Text Errors VectorClock Versions Interfaces.
From S2P Require Import Idempotency HttpServer HttpClient.
From S2P Require Cursor MemStore Manager.
From stdpp Require Import options.

(** ** The laws of the wire

    [sendable] events have JSON text; [norm_data] and [norm_meta] are what is left
    of the data and the metadata of an event after encoding and decoding (numbers
    become floating-point numbers, say); its texts survive. *)
Definition plain (p : Payload) : Prop :=
  match p with PError _ | PStructured _ _ _ | PStatus _ | PText _ => True | _ => False end.
Definition norm_fields (fd : any → any) (fm : gomap any → gomap any) (j : JSONEventWithVersion)
    : JSONEventWithVersion :=
  mkJSON (mkJSONEvent (j_ID (j_Event j)) (j_Type (j_Event j)) (j_AggregateID (j_Event j))
            (fd (j_Data (j_Event j))) (fm (j_Metadata (j_Event j)))) (j_Version j).
Class WireLaws (W : WireFormat) := {
  sendable : JSONEventWithVersion → Prop;
  norm_data : any → any;
  norm_meta : gomap any → gomap any;
  plain_marshal : ∀ p, plain p → ∃ b, marshal p = Ok b;
  text_roundtrip : ∀ s b, marshal (PText s) = Ok b → scan_text b = Found s;
  events_roundtrip : ∀ js, Forall sendable js →
    ∃ b, marshal (PEvents js) = Ok b ∧ scan_events b = Found (norm_fields norm_data norm_meta <$> js);
  page_roundtrip : ∀ js next, Forall sendable js →
    ∃ b, marshal (PCursor (mkCursorResponse js next)) = Ok b
      ∧ scan_cursor_response b
        = Found (mkCursorResponse (norm_fields norm_data norm_meta <$> js) next);
  request_roundtrip : ∀ w n,
    ∃ b, marshal (PCursorRequest (mkCursorRequest w n)) = Ok b
      ∧ scan_cursor_request b = Found (mkCursorRequest w n);
  gunzip_gzip : ∀ b, ∃ together, gunzip (gzip b) = Stream b GzDone together;
  body_len_nonneg : ∀ b, 0 ≤ body_len b
}.
Definition norm `{WireLaws} : JSONEventWithVersion → JSONEventWithVersion := norm_fields norm_data norm_meta.
Lemma norm_version `{WireLaws} j : sendable j → j_Version (norm j) = j_Version j.
Proof. done. Qed.
Lemma norm_ID `{WireLaws} j : sendable j → j_ID (j_Event (norm j)) = j_ID (j_Event j).
Proof. done. Qed.

Section server.
Context {W : WireFormat} {L : WireLaws W} {MR : MapRange} {St : Type} {ES : EventStore St}.
Implicit Types (h : SyncHandler St) (r : Request).

Lemma respond_plain r code p o : plain p →
  ∃ resp, respondWithJSON r code p o = Done resp ∧ StatusCode resp = code.
Proof using L.
  intros Hp. unfold respondWithJSON. destruct (plain_marshal p Hp) as [b ->].
  unfold respond_body. destruct (negotiateCompression _ _ _); by eexists.
Qed.

(** A push whose key is remembered. *)
Lemma handlePush_cached now later ctx r h resp :
  header HeaderIdempotencyKey r ≠ "" →
  Check_ now (header HeaderIdempotencyKey r) (idempotencyTracker h) = Some resp → plain resp →
  ∃ answer, handlePush now later ctx r h = Done (h, answer) ∧ StatusCode answer = 200
    ∧ respondWithJSON r 200 resp (options h) = Done answer.
Proof using L.
  intros Hk Hc Hp. unfold handlePush, push_check. rewrite bool_decide_false by done. rewrite Hc.
  destruct (respond_plain r 200 resp (options h) Hp) as (answer & -> & ?). by eexists.
Qed.

(** A push that is read. *)
Lemma handlePush_read now later ctx r h js :
  (header HeaderIdempotencyKey r = ""
   ∨ Check_ now (header HeaderIdempotencyKey r) (idempotencyTracker h) = None) →
  Method r = "POST" → read_post scan_events r (options h) (options h) = Done (inl js) →
  ∀ s evs, push_events ctx h js (store h) [] = Done (s, evs) →
  ∃ resp, StatusCode resp = 200 ∧ respondWithJSON r 200 status_ok (options h) = Done resp ∧
    handlePush now later ctx r h
    = Done (after_commit evs
              (let h := with_store s h in
               if bool_decide (header HeaderIdempotencyKey r = "") then h
               else with_tracker (Record_ later (header HeaderIdempotencyKey r) status_ok
                                    (idempotencyTracker h)) h), resp).
Proof using L.
  intros Hkey Hpost Hread s evs Hpush. unfold handlePush, push_check, push_record.
  destruct (respond_plain r 200 status_ok (options h) I) as (resp & Hresp & Hcode).
  exists resp. split; [done|]. split; [done|].
  assert ((if bool_decide (header HeaderIdempotencyKey r = "") then None
           else Check_ now (header HeaderIdempotencyKey r) (idempotencyTracker h)) = None) as ->.
  { destruct Hkey as [->|Hn]; [done|]. by case_bool_decide. }
  rewrite Hpost. cbn [negb]. rewrite bool_decide_true by done. cbn [negb].
  rewrite Hread. cbn [obind]. rewrite Hpush. cbn [obind].
  assert (options (let h := with_store s h in
     if bool_decide (header HeaderIdempotencyKey r = "") then h
     else with_tracker (Record_ later (header HeaderIdempotencyKey r) status_ok (idempotencyTracker h)) h)
     = options h) as Ho by (cbn; by case_bool_decide).
  cbn zeta in *. by rewrite Ho, Hresp.
Qed.

Lemma after_commit_fields evs h :
  store (after_commit evs h) = store h ∧ idempotencyTracker (after_commit evs h) = idempotencyTracker h
  ∧ versionParser (after_commit evs h) = versionParser h ∧ options (after_commit evs h) = options h.
Proof. unfold after_commit. by destruct (_ && _). Qed.

(** Events stored one after the other. *)
Section appending.
Context {LS : LogStore St}.
Fixpoint appended (n : Z) (js : list JSONEventWithVersion) : list EventWithVersion :=
  match js with
  | [] => []
  | j :: rest => entry (SimpleEvent (j_Event j)) n :: appended (n + 1) rest
  end.
Definition parses h (j : JSONEventWithVersion) : Prop :=
  ∀ s, ∃ v, versionParser h background (j_Version j) s = Done (Ok v).
Lemma push_events_log h js s n done :
  Forall (parses h) js → ready s (length js + n) →
  ∃ s' evs, push_events background h js s done = Done (s', done ++ evs) ∧ ready s' n
    ∧ log s' = log s ++ appended (Z.of_nat (length (log s)) + 1) js
    ∧ ev_event <$> evs = (λ j, Some (SimpleEvent (j_Event j))) <$> js.
Proof.
  intros Hp. revert s done; induction Hp as [|j js Hj _ IH]; intros s done Hr.
  { exists s, []. cbn. by rewrite !app_nil_r. }
  cbn [push_events]. unfold fromJSONEventWithVersion.
  destruct (Hj s) as [v ->]. cbn [obind].
  destruct (log_Store s (length js + n) (SimpleEvent (j_Event j)) v Hr) as (s1 & Hs & Hr1 & Hl).
  cbn [ev_event ev_version]. rewrite Hs. cbn [obind].
  destruct (IH s1 (done ++ [mkEWV (Some (SimpleEvent (j_Event j))) v]) Hr1) as (s' & evs & -> & Hr' & Hl' & He).
  exists s', (mkEWV (Some (SimpleEvent (j_Event j))) v :: evs). split_and!; [|done| |].
  - by rewrite <-app_assoc.
  - rewrite Hl', Hl, <-app_assoc, length_app. cbn [length app appended].
    do 3 f_equal. lia.
  - cbn. by rewrite He.
Qed.
End appending.

(** What is refused is passed over. *)
Lemma push_events_refused ctx h js s done :
  (∀ ev v, ∃ e, es_Store ctx ev v s = Done (s, Some e)) →
  (∀ j, j ∈ js → ∃ v, versionParser h ctx (j_Version j) s = Done v) →
  push_events ctx h js s done = Done (s, done).
Proof.
  intros Href. induction js as [|j js IH]; intros Hp; [done|]. cbn [push_events].
  unfold fromJSONEventWithVersion. destruct (Hp j) as [[v|e] ->]; [by left|..]; cbn [obind ev_event ev_version].
  - destruct (Href (Some (SimpleEvent (j_Event j))) v) as [e ->]. cbn. apply IH.
    intros j' Hj'. apply Hp. by right.
  - apply IH. intros j' Hj'. apply Hp. by right.
Qed.
End server.

(** ** The link *)
(** What net/url makes of a query with a number in it. *)
Class QueryText := {
  parse_query : string → result error (gmap string string);
  parse_since : ∀ n, is_u64 n →
    parse_query ("since=" +:+ format_uint n) = Ok {["since" := format_uint n]}
}.
(** A server and its clock; each request is served by it directly. *)
Record Link (St : Type) := mkLink { server : SyncHandler St; clock : Z }.
Arguments mkLink {St}.
Arguments server {St}.
Arguments clock {St}.

Section link.
Context {W : WireFormat} {MR : MapRange} {QT : QueryText} {St : Type} {ES : EventStore St}.
Definition registry : Cursor.Registry := Cursor.InitDefaultCodecs ∅.
#[global] Instance link_Network : Network (Link St) := {|
  Do := λ ctx r l,
    let* (h, resp) := ServeHTTP registry (clock l) (clock l + 1) ctx r (server l) in
    Done (mkLink h (clock l + 2), Ok resp);
  raw_query := parse_query
|}.
End link.

Section push.
Context {W : WireFormat} {L : WireLaws W} {MR : MapRange} {QT : QueryText}.
Context {St : Type} {ES : EventStore St} {LS : LogStore St}.
Implicit Types (h : SyncHandler St) (t : HTTPTransport (Link St)).

(** The server's limits are ones that [ServerOptions_Validate] accepts, and the
    requests keep to them. *)
Definition fits_request (o : ServerOptions) (p : Payload) : Prop :=
  0 < MaxRequestSize o ≤ MaxDecompressedSize o ∧ ∀ b, marshal p = Ok b →
    body_len b ≤ MaxRequestSize o ∧ body_len (gzip b) ≤ MaxRequestSize o
    ∧ body_len b < MaxDecompressedSize o.

Lemma accept_encoding_other o k : k ≠ "Accept-Encoding" → accept_encoding o !! k = None.
Proof.
  intros Hk. unfold accept_encoding. destruct (ClientCompression o); [|by rewrite lookup_empty].
  by rewrite lookup_singleton_ne.
Qed.

(** Reading a JSON body, compressed or not. *)
Lemma read_post_body {A} (scan : body → scanned A) r o errs b a :
  Method r = "POST" → header "Content-Type" r = "application/json" →
  (header "Content-Encoding" r = "" ∧ Body r = b
   ∨ header "Content-Encoding" r = "gzip" ∧ Body r = gzip b) →
  ContentLength r = body_len (Body r) → scan b = Found a →
  0 < MaxRequestSize o ≤ MaxDecompressedSize o → body_len (Body r) ≤ MaxRequestSize o → body_len b < MaxDecompressedSize o →
  read_post scan r o errs = Done (inl a).
Proof using L.
  intros Hpost Hct Henc Hlen Hscan Hmax Hsize Hdec. unfold read_post, validateContentType, bad_content_type.
  rewrite Hpost, Hct.
  assert (bool_decide ("POST" = "GET") || bool_decide ("POST" = "HEAD") || bool_decide ("POST" = "DELETE") = false)
    as -> by reflexivity.
  assert (bad_content_type r = false) as Hbad by (unfold bad_content_type; rewrite Hct; reflexivity).
  assert (HasPrefix "application/json" "application/json" = true) as -> by reflexivity.
  cbn [negb andb]. rewrite andb_false_r. cbn [obind]. rewrite Hlen.
  assert (MaxRequestSize o <? body_len (Body r) = false) as Hok by (apply Z.ltb_ge; lia).
  rewrite Hok. unfold createSafeRequestReader. rewrite Hbad, Hlen.
  pose proof (body_len_nonneg b).
  unfold or_default. destruct (Z.eqb_spec (MaxRequestSize o) 0); [lia|].
  destruct (Z.eqb_spec (MaxDecompressedSize o) 0); [lia|].
  rewrite Hok, andb_false_r.
  destruct Henc as [[-> Hb]|[-> Hb]].
  - assert (TrimSpace (ToLower "") = "") as -> by reflexivity. rewrite (bool_decide_true ("" = "")) by done.
    assert (MaxDecompressedSize o <? MaxRequestSize o = false) as -> by (apply Z.ltb_ge; lia).
    cbn [andb]. unfold max_bytes. rewrite Hb in *.
    assert (Z.min (MaxRequestSize o) (MaxDecompressedSize o) <? body_len b = false) as ->
      by (apply Z.ltb_ge; lia).
    unfold decode. cbn. by rewrite Hscan.
  - assert (TrimSpace (ToLower "gzip") = "gzip") as -> by reflexivity.
    rewrite (bool_decide_false ("gzip" = "")), (bool_decide_true ("gzip" = "gzip")) by done. cbn zeta.
    unfold gzip_reader. destruct (gunzip_gzip b) as [together Hz]. rewrite Hb, Hz.
    unfold max_decompressed. cbn [given].
    assert (MaxDecompressedSize o <? body_len b = false) as -> by (apply Z.ltb_ge; lia).
    assert (MaxDecompressedSize o =? body_len b = false) as -> by (apply Z.eqb_neq; lia).
    unfold decode. cbn. by rewrite Hscan.
Qed.

Lemma push_request_read js co o :
  Forall sendable js → fits_request o (PEvents js) →
  ∃ r, push_request js co = Ok r ∧ Method r = "POST" ∧ Path r = "/push"
    ∧ header HeaderIdempotencyKey r = ""
    ∧ read_post scan_events r o o = Done (inl (norm <$> js)).
Proof using L.
  intros Hs [Hmax Hfit]. destruct (events_roundtrip js Hs) as (b & Hb & Hscan).
  destruct (Hfit b Hb) as (H1 & H2 & H3). unfold push_request. rewrite Hb.
  eexists. split; [reflexivity|]. split; [done|]. split; [done|].
  set (squeeze := ClientCompression co && _). split.
  - unfold header. cbn [Header]. rewrite lookup_insert_ne by done.
    destruct squeeze; unfold id; rewrite ?lookup_insert_ne by done; by rewrite accept_encoding_other.
  - apply (read_post_body _ _ _ _ b); cbn [Method Body ContentLength]; try done.
    + unfold header. cbn [Header]. by rewrite lookup_insert_eq.
    + unfold header. cbn [Header]. rewrite lookup_insert_ne by done.
      destruct squeeze; unfold id; [right|left].
      * by rewrite lookup_insert_eq.
      * by rewrite accept_encoding_other.
    + by destruct squeeze.
Qed.

(** An event as the client writes it, field by field, and what the server keeps. *)
Definition as_sent (it : Event * option Version * string) : JSONEventWithVersion :=
  let '(e, _, x) := it in
  mkJSON (mkJSONEvent (ID e) (Type_ e) (AggregateID e) (Data e) (Metadata e)) x.
Lemma to_json_events_sent (items : list (Event * option Version * string)) :
  Forall (λ '(_, v, x), match v with Some v => version_String v = Done x | None => x = "" end) items →
  to_json_events ((λ '(e, v, _), mkEWV (Some e) v) <$> items) = Done (as_sent <$> items).
Proof.
  induction 1 as [|[[e v] x] items Ht _ IH]; [done|]. rewrite !fmap_cons. cbn [to_json_events].
  unfold toJSONEventWithVersion at 1. cbn [ev_version ev_event].
  destruct v as [v|]; rewrite Ht; cbn [obind toJSONEvent deref]; by rewrite IH.
Qed.
Lemma appended_imap (items : list (Event * option Version * string)) k :
  appended (Z.of_nat k) (norm <$> (as_sent <$> items))
  = imap (λ i '(e, _, _), entry (mkEvent (ID e) (Type_ e) (AggregateID e) (norm_data (Data e))
                                   (norm_meta (Metadata e))) (Z.of_nat (k + i))) items.
Proof.
  revert k; induction items as [|[[e v] x] items IH]; intros k; [done|].
  rewrite !fmap_cons. cbn [appended imap]. f_equal; [by rewrite Nat.add_0_r|].
  replace (Z.of_nat k + 1) with (Z.of_nat (S k)) by lia. rewrite IH.
  apply imap_ext. intros i [[e' v'] x'] _. cbn. do 2 f_equal. lia.
Qed.

(** C20: a push over HTTP to a store that keeps its promises succeeds and appends
    to the server's log exactly the pushed events in order, each with the
    identifier, the type and the aggregate it was sent with and the data and
    metadata that JSON leaves of it, under the server's own numbers: the text of
    a version is parsed and then forgotten, so the shared log of the channel
    transport (which keeps versions) is not what this transport implements.
    Bodies keep to the server's limits, which are ones its validation accepts;
    the push may be compressed or not. *)
Theorem http_push_appends (t : HTTPTransport (Link St))
    (items : list (Event * option Version * string)) (n : nat)
    (Htext : Forall (λ '(_, v, x), match v with Some v => version_String v = Done x | None => x = "" end)
               items)
    (Hsend : ∀ e v x, (e, v, x) ∈ items →
       sendable (mkJSON (mkJSONEvent (ID e) (Type_ e) (AggregateID e) (Data e) (Metadata e)) x))
    (Hne : items ≠ [])
    (Hfits : fits_request (options (server (network t)))
       (PEvents ((λ '(e, _, x), mkJSON (mkJSONEvent (ID e) (Type_ e) (AggregateID e) (Data e)
                                          (Metadata e)) x) <$> items)))
    (Hparse : ∀ e v x, (e, v, x) ∈ items →
       ∀ s, ∃ v', versionParser (server (network t)) background x s = Done (Ok v'))
    (Hready : ready (store (server (network t))) (length items + n)) :
  ∃ t', Push background ((λ '(e, v, _), mkEWV (Some e) v) <$> items) t = Done (t', None)
    ∧ ready (store (server (network t'))) n
    ∧ log (store (server (network t')))
      = log (store (server (network t)))
        ++ imap (λ i '(e, _, _),
             entry (mkEvent (ID e) (Type_ e) (AggregateID e) (norm_data (Data e)) (norm_meta (Metadata e)))
               (Z.of_nat (length (log (store (server (network t)))) + 1 + i))) items.
Proof using L.
  destruct t as [[h c] parser co]. cbn in *.
  set (js := as_sent <$> items).
  assert (Hs : Forall sendable js).
  { apply Forall_fmap, Forall_forall. intros [[e v] x] Hin. by apply (Hsend e v x). }
  assert (Hp : Forall (parses h) (norm <$> js)).
  { apply Forall_fmap, Forall_fmap, Forall_forall. intros [[e v] x] Hin. exact (Hparse e v x Hin). }
  destruct (push_request_read js co (options h) Hs Hfits) as (r & Hr & Hpost & Hpath & Hkey & Hread).
  destruct (push_events_log h (norm <$> js) (store h) n [] Hp) as (s & done & Hpush & Hrs & Hlog & _).
  { unfold js. by rewrite !length_fmap. }
  destruct (handlePush_read c (c + 1) background r h _ (or_introl Hkey) Hpost Hread s done Hpush)
    as (resp & Hcode & _ & Hserve).
  unfold Push. rewrite (to_json_events_sent items Htext). fold js.
  destruct items as [|[[e v] x] items]; [done|]. rewrite fmap_cons. cbn [obind client_options].
  rewrite Hr. unfold Do, link_Network. unfold ServeHTTP. rewrite Hpath.
  assert (strip_sync "/push" = "/push") as -> by reflexivity.
  rewrite bool_decide_true by done. cbn [network server clock] in *. rewrite Hserve. cbn [obind].
  rewrite Hcode. eexists. split; [reflexivity|]. cbn [network with_network server].
  destruct (after_commit_fields done (with_store s h)) as (Hst & _).
  rewrite Hkey, bool_decide_true by done. rewrite Hst. cbn [store with_store]. split; [done|].
  rewrite Hlog. f_equal. replace (Z.of_nat (length (log (store h))) + 1)
    with (Z.of_nat (length (log (store h)) + 1)) by lia. apply appended_imap.
Qed.

(** Remark: with limits that the constructor accepts but the validation would not,
    a decompressed limit below the request limit, every uncompressed push that
    is not empty is answered 400 and stores nothing: the source closes the body
    before it reads it. *)
Theorem closed_body_refused (now later : Z) (ctx : CtxView) (r : Request) (h : SyncHandler St)
    (Hkey : header HeaderIdempotencyKey r = "") (Hpost : Method r = "POST")
    (Htype : header "Content-Type" r = "application/json")
    (Hplain : header "Content-Encoding" r = "")
    (Hlen : 0 < ContentLength r ≤ MaxRequestSize (options h))
    (Hlimits : 0 < MaxDecompressedSize (options h) < MaxRequestSize (options h))
    (Hempty : scan_events no_body = Incomplete true) :
  ∃ resp, handlePush now later ctx r h = Done (h, resp) ∧ StatusCode resp = 400.
Proof using L.
  destruct (respond_plain r 400 (PError "http: invalid Read on closed Body") (options h) I)
    as (resp & Hresp & Hcode).
  exists resp. split; [|done]. unfold handlePush, push_check. rewrite Hkey, Hpost.
  rewrite !bool_decide_true by done. cbn [negb].
  assert (bad_content_type r = false) as Hbad by (unfold bad_content_type; rewrite Htype; reflexivity).
  unfold read_post, validateContentType. rewrite Hbad, Hpost. cbn [obind].
  assert (MaxRequestSize (options h) <? ContentLength r = false) as Hok by (apply Z.ltb_ge; lia).
  rewrite Hok. unfold createSafeRequestReader. rewrite Hbad, Hplain.
  unfold or_default. destruct (Z.eqb_spec (MaxRequestSize (options h)) 0); [lia|].
  destruct (Z.eqb_spec (MaxDecompressedSize (options h)) 0); [lia|].
  rewrite Hok, andb_false_r.
  assert (TrimSpace (ToLower "") = "") as -> by reflexivity. rewrite (bool_decide_true ("" = "")) by done.
  assert (MaxDecompressedSize (options h) <? MaxRequestSize (options h) = true) as -> by (apply Z.ltb_lt; lia).
  destruct (Z.eqb_spec (ContentLength r) 0); [lia|]. cbn [andb negb].
  unfold decode. cbn [given ending]. rewrite Hempty. cbn [closed_body].
  unfold closed_body, respondWithMappedError, respondWithError.
  change (mapErrorToHTTPStatus _) with 400. cbn [read_error_text error_string]. by rewrite Hresp.
Qed.
End push.

(** ** Idempotency keys at the server *)
Section keys.
Context {W : WireFormat} {L : WireLaws W} {MR : MapRange} {St : Type} {ES : EventStore St}.
Implicit Types (h : SyncHandler St) (r : Request).
Definition with_server_tracker (t : IdempotencyTracker Payload) (s : St) h : SyncHandler St :=
  with_tracker t (with_store s h).

(** A request under a key recorded at [t0] with the answer [resp], later on. *)
Lemma replayed_request t0 k resp now0 (t : IdempotencyTracker Payload) j t' q later ctx r h :
  k ≠ "" → plain resp → tracker_inv now0 t → now0 < t0 →
  replay_run t0 k j (t0, Record_ t0 k resp t) t' → Z.of_nat j < maxSize t →
  idempotencyTracker h = t'.2 → header HeaderIdempotencyKey r = k → q - t0 ≤ maxAge t →
  ∃ answer, handlePush q later ctx r h = Done (h, answer) ∧ StatusCode answer = 200
    ∧ respondWithJSON r 200 resp (options h) = Done answer.
Proof using L.
  intros Hk Hplain Hinv Ht0 Hrun Hroom Ht Hheader Hage.
  destruct (replay_remembers t0 k resp 0 j _ t' Hrun) as [[He _] Hsame];
    [by eapply Record_inv|by eapply Record_first|done|].
  apply handlePush_cached; [by rewrite Hheader| |done].
  rewrite Hheader, Ht. unfold Check_. rewrite He, Hsame. cbn.
  assert (maxAge t <? q - t0 = false) as -> by (apply Z.ltb_ge; lia). done.
Qed.

(** Remark: a push under a new key that is served alone answers 200 and stores what
    it stores; a request with the same key, whatever its body and whatever the
    server's store is by then, is answered 200 without changing anything, until
    the key is older than the tracker's age or [maxSize] other keys have been
    recorded after it. *)
Theorem push_once (ctx : CtxView) (r : Request) (h : SyncHandler St) (js : list JSONEventWithVersion)
    (now0 now t0 : Z) (s : St) (evs : list EventWithVersion)
    (Hinv : tracker_inv now0 (idempotencyTracker h)) (Ht0 : now0 < t0)
    (Hkey : header HeaderIdempotencyKey r ≠ "")
    (Hnew : Check_ now (header HeaderIdempotencyKey r) (idempotencyTracker h) = None)
    (Hpost : Method r = "POST")
    (Hread : read_post scan_events r (options h) (options h) = Done (inl js))
    (Hpush : push_events ctx h js (store h) [] = Done (s, evs)) :
  ∃ h' resp, handlePush now t0 ctx r h = Done (h', resp) ∧ StatusCode resp = 200 ∧ store h' = s
    ∧ ∀ j t' s2 q later ctx2 r2,
        let h2 := with_server_tracker t'.2 s2 h' in
        replay_run t0 (header HeaderIdempotencyKey r) j (t0, idempotencyTracker h') t' →
        Z.of_nat j < maxSize (idempotencyTracker h) → q - t0 ≤ maxAge (idempotencyTracker h) →
        header HeaderIdempotencyKey r2 = header HeaderIdempotencyKey r →
        ∃ resp2, handlePush q later ctx2 r2 h2 = Done (h2, resp2) ∧ StatusCode resp2 = 200.
Proof using L.
  destruct (handlePush_read now t0 ctx r h js (or_intror Hnew) Hpost Hread s evs Hpush)
    as (resp & Hcode & _ & Hserve).
  rewrite bool_decide_false in Hserve by done. cbn zeta in Hserve.
  eexists _, resp. split; [exact Hserve|]. split; [done|].
  match goal with |- context [after_commit evs ?hh] =>
    destruct (after_commit_fields evs hh) as (Hst & Htr & _ & _); rewrite Hst; split; [done|] end.
  intros j t' s2 q later ctx2 r2 h2 Hrun Hj Hq Hsame. rewrite Htr in Hrun. cbn in Hrun.
  destruct (replayed_request t0 (header HeaderIdempotencyKey r) status_ok now0 (idempotencyTracker h) j t' q
              later ctx2 r2 h2) as (answer & ? & ? & _); try done. by exists answer.
Qed.

(** Remark: when the store refuses every event, a push still answers 200, as if all
    were stored; and since its key is recorded, a retry with that key is
    answered 200 as well, without a second attempt, even when the store works
    again: the events are lost. *)
Theorem push_hides_failures (ctx : CtxView) (r : Request) (h : SyncHandler St)
    (js : list JSONEventWithVersion) (now0 now t0 : Z)
    (Hinv : tracker_inv now0 (idempotencyTracker h)) (Ht0 : now0 < t0)
    (Hkey : header HeaderIdempotencyKey r ≠ "")
    (Hnew : Check_ now (header HeaderIdempotencyKey r) (idempotencyTracker h) = None)
    (Hpost : Method r = "POST")
    (Hread : read_post scan_events r (options h) (options h) = Done (inl js))
    (Hparse : ∀ j, j ∈ js → ∃ v, versionParser h ctx (j_Version j) (store h) = Done v)
    (Hrefuse : ∀ ev v, ∃ e, es_Store ctx ev v (store h) = Done (store h, Some e))
    (Hsize : 0 < maxSize (idempotencyTracker h)) :
  ∃ h' resp, handlePush now t0 ctx r h = Done (h', resp) ∧ StatusCode resp = 200
    ∧ store h' = store h ∧ committed h' = committed h
    ∧ ∀ working q later ctx2, q - t0 ≤ maxAge (idempotencyTracker h) →
        let h2 := with_server_tracker (idempotencyTracker h') working h' in
        ∃ resp2, handlePush q later ctx2 r h2 = Done (h2, resp2) ∧ StatusCode resp2 = 200.
Proof using L.
  pose proof (push_events_refused ctx h js (store h) [] Hrefuse Hparse) as Hpush.
  destruct (handlePush_read now t0 ctx r h js (or_intror Hnew) Hpost Hread _ _ Hpush)
    as (resp & Hcode & _ & Hserve).
  rewrite bool_decide_false in Hserve by done. cbn zeta in Hserve.
  assert (∀ x : SyncHandler St, after_commit [] x = x) as Hno
    by (intros x; unfold after_commit; by rewrite andb_false_r).
  rewrite Hno in Hserve. eexists _, resp. split; [exact Hserve|]. do 3 (split; [done|]).
  intros working q later ctx2 Hq h2. subst h2.
  match goal with |- context [handlePush q later ctx2 r ?h2] =>
    destruct (replayed_request t0 (header HeaderIdempotencyKey r) status_ok now0 (idempotencyTracker h) 0
      (t0, Record_ t0 (header HeaderIdempotencyKey r) status_ok (idempotencyTracker h)) q later ctx2 r h2)
      as (answer & ? & ? & _) end; try done; [by constructor|by exists answer].
Qed.
End keys.

(** ** Cursor pages *)
Lemma atoi_format_uint n : 0 ≤ n < 2 ^ 63 → atoi (format_uint n) = Some n.
Proof.
  intros Hn.
  assert (is_u64 n) as Hu by (unfold is_u64, u64_modulus; lia).
  pose proof (parse_format_uint n Hu) as Hp. unfold parse_uint in Hp.
  pose proof (format_go_all_digits 20 n "" eq_refl) as Hd. unfold format_uint in *.
  destruct (format_go 20 n "") as [|c rest]; [done|].
  cbn [all_digits] in Hd. apply andb_true_iff in Hd as [Hc _].
  unfold is_digit in Hc. apply andb_true_iff in Hc as [H1 H2]. zbool.
  unfold atoi. destruct (Z.eqb_spec (code c) 45); [lia|]. destruct (Z.eqb_spec (code c) 43); [lia|].
  destruct (parse_digits (String c rest) 0) as [z|]; [|done].
  destruct (z <? u64_modulus); [|done]. injection Hp as ->. cbn zeta.
  destruct (Z.leb_spec (- 2 ^ 63) n), (Z.ltb_spec n (2 ^ 63)); done || lia.
Qed.

(** Entries numbered from [k + 1] on. *)
Definition numbered_from (k : Z) (evs : list EventWithVersion) : Prop :=
  ∀ i ev, evs !! i = Some ev →
    is_Some (ev_event ev) ∧ ev_version ev = Some (IntegerCursor (k + Z.of_nat i + 1)).
Lemma numbered_cons k ev evs :
  numbered_from k (ev :: evs) →
  (∃ e, ev_event ev = Some e) ∧ ev_version ev = Some (IntegerCursor (k + 1)) ∧ numbered_from (k + 1) evs.
Proof.
  intros Hn. destruct (Hn 0%nat ev eq_refl) as [[e He] Hv]. split; [by exists e|]. split.
  - rewrite Hv. do 2 f_equal. lia.
  - intros i x Hx. destruct (Hn (S i) x Hx) as [? Hv']. split; [done|]. rewrite Hv'. do 2 f_equal. lia.
Qed.
Lemma numbered_from_take k n evs : numbered_from k evs → numbered_from k (take n evs).
Proof. intros Hn i ev [? _]%lookup_take_Some. by apply Hn. Qed.
Lemma numbered_from_drop n evs : numbered_from 0 evs → numbered_from (Z.of_nat n) (drop n evs).
Proof.
  intros Hn i ev Hi. rewrite lookup_drop in Hi. destruct (Hn _ _ Hi) as [? Hv]. split; [done|].
  rewrite Hv. do 2 f_equal. lia.
Qed.

Lemma max_seq_numbered k evs m :
  numbered_from k evs → m ≤ k → 0 ≤ k → k + Z.of_nat (length evs) < 2 ^ 63 →
  fold_left (λ m ev, match ev_version ev with
                     | Some (IntegerCursor seq) => if m <? i64 seq then i64 seq else m
                     | _ => m
                     end) evs m
  = match evs with [] => m | _ => k + Z.of_nat (length evs) end.
Proof.
  revert k m; induction evs as [|ev evs IH]; intros k m Hn Hm Hk Hlen; [done|].
  apply numbered_cons in Hn as (_ & Hv & Hn). cbn [fold_left length] in *. rewrite Hv.
  rewrite i64_small by lia. destruct (Z.ltb_spec m (k + 1)); [|lia].
  rewrite (IH (k + 1)) by (done || lia). destruct evs; cbn [length] in *; lia.
Qed.

Definition json_of (ev : EventWithVersion) : JSONEventWithVersion :=
  match toJSONEventWithVersion ev with
  | Done j => j
  | Panic _ => mkJSON (mkJSONEvent "" "" "" AnyNil None) ""
  end.
Lemma toJSON_numbered k ev evs :
  numbered_from k (ev :: evs) →
  toJSONEventWithVersion ev = Done (json_of ev) ∧ j_Version (json_of ev) = format_uint (k + 1).
Proof.
  intros ([e He] & Hv & _)%numbered_cons. unfold json_of, toJSONEventWithVersion. rewrite Hv, He. done.
Qed.
Lemma to_json_numbered k evs : numbered_from k evs → to_json_events evs = Done (json_of <$> evs).
Proof.
  revert k; induction evs as [|ev evs IH]; intros k Hn; [done|]. cbn [to_json_events].
  destruct (toJSON_numbered k ev evs Hn) as [-> _]. cbn [obind].
  apply numbered_cons in Hn as (_ & _ & Hn). by rewrite (IH _ Hn).
Qed.

Section paging.
Context {W : WireFormat} {L : WireLaws W} {MR : MapRange} {QT : QueryText}.
Context {St : Type} {ES : EventStore St} {LS : LogStore St}.
Implicit Types (h : SyncHandler St) (t : HTTPTransport (Link St)).

(** What a client is left with of a stored event. *)
Definition received (ev : EventWithVersion) : EventWithVersion :=
  mkEWV (Some (SimpleEvent (j_Event (norm (json_of ev))))) (ev_version ev).

Lemma parse_events_numbered ctx t fail k evs :
  client_parser t = default_parser → numbered_from k evs → 0 ≤ k →
  k + Z.of_nat (length evs) < 2 ^ 63 → Forall sendable (json_of <$> evs) →
  parse_events ctx t fail (norm <$> (json_of <$> evs)) = Done (Ok (received <$> evs)).
Proof using L.
  intros Hp. revert k; induction evs as [|ev evs IH]; intros k Hn Hk Hlen Hs; [done|].
  cbn [fmap list_fmap] in Hs. apply Forall_cons in Hs as [Hsend Hs].
  destruct (toJSON_numbered k ev evs Hn) as [_ Hver].
  pose proof Hn as ([e He] & Hv & Hn')%numbered_cons.
  cbn [fmap list_fmap parse_events length] in *. rewrite Hp, norm_version, Hver by done.
  unfold default_parser. rewrite atoi_format_uint by lia.
  destruct (Z.eqb_spec (k + 1) 0); [lia|]. cbn [obind].
  specialize (IH (k + 1) Hn' ltac:(lia) ltac:(lia) Hs). cbn [fmap list_fmap] in IH. rewrite IH.
  cbn [obind]. unfold received at 2.
  rewrite Hv, u64_small by (unfold is_u64, u64_modulus; lia). done.
Qed.

(** The wire form of an integer cursor. *)
Lemma integer_wire seq : is_u64 seq →
  ∃ w, Cursor.MarshalWire registry (Cursor.IntegerC seq) = Ok w
    ∧ Cursor.UnmarshalWire registry (Some w) = Ok (Cursor.IntegerC seq).
Proof.
  intros Hs. apply (Cursor.wire_roundtrip Cursor.integerCodec Cursor.integer_cursor registry).
  - apply _.
  - by exists seq.
  - apply Cursor.Lookup_default_integer.
Qed.

(** One page, after [k] entries. *)
Definition since_of (k : nat) : option Cursor.Cursor :=
  match k with O => None | _ => Some (Cursor.IntegerC (Z.of_nat k)) end.
Record pageable (s : St) (o : ClientOptions) : Prop := {
  pg_ready : ready s 0;
  pg_numbered : numbered_from 0 (log s);
  pg_length : Z.of_nat (length (log s)) < 2 ^ 63;
  pg_sendable : Forall sendable (json_of <$> log s);
  pg_request : ∀ w n, w = None ∨ (∃ seq w0, w = Some w0 ∧ Cursor.MarshalWire registry (Cursor.IntegerC seq) = Ok w0) →
    fits_request NewCursorOptions (PCursorRequest (mkCursorRequest w n));
  pg_response : ∀ i n next b,
    marshal (PCursor (mkCursorResponse (json_of <$> take n (drop i (log s))) next)) = Ok b →
    body_len b ≤ MaxResponseSize o
}.

Lemma cursor_request_ok k limit : Z.of_nat k < 2 ^ 63 →
  ∃ w b, cursor_request registry (since_of k) limit = Ok (Ok b)
    ∧ marshal (PCursorRequest (mkCursorRequest w (page_limit limit))) = Ok b
    ∧ scan_cursor_request b = Found (mkCursorRequest w (page_limit limit))
    ∧ (w = None ∨ ∃ seq w0, w = Some w0 ∧ Cursor.MarshalWire registry (Cursor.IntegerC seq) = Ok w0)
    ∧ match w with
      | None => Ok (Cursor.IntegerC 0)
      | Some w => Cursor.UnmarshalWire registry (Some w)
      end = Ok (Cursor.IntegerC (Z.of_nat k)).
Proof using L.
  intros Hk. unfold cursor_request, since_of. destruct k as [|k].
  - destruct (request_roundtrip None (page_limit limit)) as (b & Hb & Hs).
    exists None, b. rewrite Hb. by split_and!; [..|left|].
  - destruct (integer_wire (Z.of_nat (S k))) as (w & Hw & Hu); [unfold is_u64, u64_modulus; lia|].
    destruct (request_roundtrip (Some w) (page_limit limit)) as (b & Hb & Hs).
    exists (Some w), b. rewrite Hw, Hb. split_and!; try done. right. by exists (Z.of_nat (S k)), w.
Qed.
Lemma page_limit_fix limit : page_limit (page_limit limit) = page_limit limit.
Proof.
  unfold page_limit. destruct (Z.leb_spec limit 0); cbn; [done|].
  destruct (Z.ltb_spec 1000 limit); cbn; [done|].
  destruct (Z.leb_spec limit 0); [lia|]. cbn. destruct (Z.ltb_spec 1000 limit); [lia|done].
Qed.
Lemma page_limit_pos limit : 0 < page_limit limit.
Proof. unfold page_limit. destruct (Z.leb_spec limit 0); cbn; [lia|]. destruct (Z.ltb_spec 1000 limit); lia. Qed.

Lemma pull_page h c o k limit :
  pageable (store h) o → (k ≤ length (log (store h)))%nat →
  let page := take (Z.to_nat (page_limit limit)) (drop k (log (store h))) in
  PullWithCursor registry background (since_of k) limit (mkHTTP (mkLink h c) default_parser o)
  = Done (mkHTTP (mkLink h (c + 2)) default_parser o,
          Ok (received <$> page,
              match page with [] => None | _ => since_of (k + length page) end)).
Proof using L.
  intros [Hready Hnum Hlen Hsend Hreq Hresp] Hk page.
  destruct (cursor_request_ok k limit) as (w & b & Hc & Hb & Hscan & Hw & Hu); [lia|].
  destruct (Hreq w (page_limit limit) Hw) as [Hmax Hfit]. destruct (Hfit b Hb) as (H1 & _ & H3).
  assert (numbered_from (Z.of_nat k) page) as Hnp by (by apply numbered_from_take, numbered_from_drop).
  assert (length page ≤ length (log (store h)) - k)%nat as Hlp
    by (unfold page; rewrite length_take, length_drop; lia).
  assert (Forall sendable (json_of <$> page)) as Hsp.
  { unfold page. rewrite fmap_take, fmap_drop. by apply Forall_take, Forall_drop. }
  unfold PullWithCursor. rewrite Hc. cbn [network].
  unfold Do, link_Network, ServeHTTP. cbn [Path server clock].
  assert (strip_sync "/pull-cursor" = "/pull-cursor") as -> by reflexivity.
  rewrite (bool_decide_false (_ = "/push")), (bool_decide_false (_ = "/pull")),
    (bool_decide_false (_ = "/latest-version")), (bool_decide_true (_ = "/pull-cursor")) by done.
  unfold handlePullCursor. cbn [Method]. rewrite bool_decide_true by done. cbn [negb].
  match goal with |- context [read_post scan_cursor_request ?r _ _] =>
    rewrite (read_post_body scan_cursor_request r NewCursorOptions (options h) b
               (mkCursorRequest w (page_limit limit)));
    [|done|unfold header; cbn [Header]; by rewrite lookup_singleton_eq
     |left; split; [unfold header; cbn [Header]; by rewrite lookup_singleton_ne|done]
     |done..] end.
  cbn [obind req_Since req_Limit]. rewrite Hu, (log_Load _ 0 k Hready). cbn [obind].
  rewrite page_limit_fix. fold page. rewrite (to_json_numbered _ _ Hnp). cbn [obind].
  set (next := next_wire registry (max_seq page)).
  destruct (page_roundtrip (json_of <$> page) next Hsp) as (rb & Hrb & Hrscan).
  unfold respondWithJSON. rewrite Hrb.
  assert (negotiateCompression
    (mkRequest "POST" "/pull-cursor" {["Content-Type" := "application/json"]} ∅ (body_len b) b)
    (Some NewCursorOptions) (body_len rb) = false) as Hneg.
  { unfold negotiateCompression, header. cbn [Header]. rewrite lookup_singleton_ne by done.
    by rewrite andb_false_r. }
  unfold respond_body. rewrite Hneg. cbn [obind network with_network client_parser client_options].
  cbn [StatusCode gzipped Content]. unfold createSafeResponseReader. cbn [gzipped Content].
  pose proof (Hresp k (Z.to_nat (page_limit limit)) next rb Hrb) as Hfits.
  assert (MaxResponseSize o <? body_len rb = false) as -> by (apply Z.ltb_ge; lia).
  unfold decode. cbn [given]. change (negb (200 =? 200)) with false. cbv iota. rewrite Hrscan.
  cbn [resp_Events resp_Next].
  rewrite (parse_events_numbered background _ _ (Z.of_nat k) page) by (done || lia). cbn [obind].
  assert (next = match page with
                 | [] => None
                 | _ => match Cursor.MarshalWire registry (Cursor.IntegerC (Z.of_nat (k + length page))) with
                        | Ok w => Some w | Err _ => None end
                 end) as ->.
  { unfold next, next_wire, max_seq.
    rewrite (max_seq_numbered (Z.of_nat k) page 0 Hnp) by lia. destruct page as [|x xs]; [done|].
    rewrite Nat2Z.inj_add. destruct (Z.ltb_spec 0 (Z.of_nat k + Z.of_nat (length (x :: xs)))); [done|].
    cbn [length] in *. lia. }
  destruct page as [|x xs]; [done|].
  destruct (integer_wire (Z.of_nat (k + length (x :: xs)))) as (w2 & -> & Hu2);
    [unfold is_u64, u64_modulus; lia|].
  rewrite Hu2. cbn [length]. by rewrite Nat.add_succ_r.
Qed.

(** Reading page after page until no further cursor comes. *)
Fixpoint pages (fuel : nat) (since : option Cursor.Cursor) (limit : Z) (t : HTTPTransport (Link St))
    : option (list EventWithVersion) :=
  match fuel with
  | O => None
  | S fuel =>
      match PullWithCursor registry background since limit t with
      | Done (t, Ok (evs, None)) => Some evs
      | Done (t, Ok (evs, Some c)) => (λ rest, evs ++ rest) <$> pages fuel (Some c) limit t
      | _ => None
      end
  end.
Lemma pages_from fuel h c o k limit :
  pageable (store h) o → (k ≤ length (log (store h)))%nat → (length (log (store h)) - k < fuel)%nat →
  pages fuel (since_of k) limit (mkHTTP (mkLink h c) default_parser o)
  = Some (received <$> drop k (log (store h))).
Proof using L.
  intros Hp. revert c k; induction fuel as [|fuel IH]; intros c k Hk Hfuel; [lia|].
  cbn [pages]. rewrite pull_page by done. cbn zeta.
  pose proof (page_limit_pos limit) as Hpos.
  destruct (take (Z.to_nat (page_limit limit)) (drop k (log (store h)))) as [|x xs] eqn:Hpage.
  - assert (drop k (log (store h)) = []) as ->; [|done].
    destruct (drop k (log (store h))) as [|y ys]; [done|].
    replace (Z.to_nat (page_limit limit)) with (S (pred (Z.to_nat (page_limit limit)))) in Hpage by lia. done.
  - assert (length (x :: xs) ≤ length (log (store h)) - k)%nat as Hlen
      by (rewrite <-Hpage, length_take, length_drop; lia).
    assert (length (x :: xs) = length (take (Z.to_nat (page_limit limit)) (drop k (log (store h))))) as Heq
      by (by rewrite Hpage).
    cbn [length] in Hlen. replace (k + length (x :: xs))%nat with (S (k + length xs)) by (cbn; lia).
    cbn [since_of].
    change (Some (Cursor.IntegerC (Z.of_nat (S (k + length xs))))) with (since_of (S (k + length xs))).
    rewrite IH by lia. cbn [fmap option_fmap option_map]. f_equal. rewrite <-fmap_app. f_equal.
    rewrite <-(take_drop (Z.to_nat (page_limit limit)) (drop k (log (store h)))), Hpage. f_equal.
    rewrite drop_drop. cbn [length] in Heq. rewrite length_take, length_drop in Heq.
    destruct (Nat.le_gt_cases (length (log (store h)) - k) (Z.to_nat (page_limit limit))).
    + rewrite !drop_ge by lia. done.
    + f_equal. lia.
Qed.

(** C22: following the cursors from the beginning, with any page limit, valid or not,
    a client receives every entry of the server's log exactly once, in order,
    and the pages come to an end. *)
Theorem paging_complete (h : SyncHandler St) (c : Z) (o : ClientOptions) (limit : Z)
    (Hpage : pageable (store h) o) :
  pages (S (length (log (store h)))) None limit (mkHTTP (mkLink h c) default_parser o)
  = Some (received <$> log (store h)).
Proof using L. by rewrite (pages_from _ h c o 0) by (done || lia). Qed.
(** *** One pull: the server's default limit *)
Definition fits_response (o : ClientOptions) (p : Payload) : Prop :=
  ∀ b, marshal p = Ok b →
    body_len b ≤ MaxResponseSize o ∧ body_len (gzip b) ≤ MaxResponseSize o
    ∧ body_len b < MaxDecompressedResponseSize o.

Lemma read_response_ok {A} (scan : body → scanned A) r code b so co op what a :
  scan b = Found a → body_len b ≤ MaxResponseSize co → body_len (gzip b) ≤ MaxResponseSize co →
  body_len b < MaxDecompressedResponseSize co →
  read_response scan op what (respond_body r code b so) co = Ok a.
Proof using L.
  intros Hscan H1 H2 H3. unfold read_response, createSafeResponseReader, respond_body.
  destruct (negotiateCompression r (Some so) (body_len b)); cbn [gzipped Content].
  - assert (MaxResponseSize co <? body_len (gzip b) = false) as -> by (apply Z.ltb_ge; lia).
    destruct (gunzip_gzip b) as [together ->].
    assert (MaxDecompressedResponseSize co <? body_len b = false) as -> by (apply Z.ltb_ge; lia).
    assert (MaxDecompressedResponseSize co =? body_len b = false) as -> by (apply Z.eqb_neq; lia).
    unfold decode. cbn. by rewrite Hscan.
  - assert (MaxResponseSize co <? body_len b = false) as -> by (apply Z.ltb_ge; lia).
    unfold decode. cbn. by rewrite Hscan.
Qed.

(** Remark: a pull gets at most the first 100 entries past the version it asks from: the
    client never sends a limit and the server then takes 100, so a manager that
    is further behind catches up by one hundred events a sync. *)
Theorem http_pull_hundred (h : SyncHandler St) (c : Z) (o : ClientOptions) (k : nat)
    (Hready : ready (store h) 0) (Hnum : numbered_from 0 (log (store h)))
    (Hlen : Z.of_nat (length (log (store h))) < 2 ^ 63) (Hk : (k ≤ length (log (store h)))%nat)
    (Hsend : Forall sendable (json_of <$> log (store h)))
    (Hparse : ∀ s, versionParser h background (format_uint (Z.of_nat k)) s
                   = Done (Ok (Some (IntegerCursor (Z.of_nat k)))))
    (Hfits : fits_response o (PEvents (json_of <$> take 100 (drop k (log (store h)))))) :
  ∃ t', Pull background (Some (IntegerCursor (Z.of_nat k))) (mkHTTP (mkLink h c) default_parser o)
        = Done (t', Ok (received <$> take 100 (drop k (log (store h)))))
    ∧ store (server (network t')) = store h.
Proof using L.
  set (page := take 100 (drop k (log (store h)))) in *.
  assert (is_u64 (Z.of_nat k)) as Hu by (unfold is_u64, u64_modulus; lia).
  assert (numbered_from (Z.of_nat k) page) as Hnp by (by apply numbered_from_take, numbered_from_drop).
  assert (Forall sendable (json_of <$> page)) as Hsp.
  { unfold page. rewrite fmap_take, fmap_drop. by apply Forall_take, Forall_drop. }
  assert (length page ≤ length (log (store h)) - k)%nat as Hlp
    by (unfold page; rewrite length_take, length_drop; lia).
  unfold Pull. cbn [deref obind].
  change (version_String (IntegerCursor (Z.of_nat k))) with (Done (format_uint (Z.of_nat k))). cbn [obind].
  unfold raw_query, link_Network. rewrite (parse_since _ Hu). cbn [network client_options].
  unfold Do, ServeHTTP. cbn [Path server clock].
  assert (strip_sync "/pull" = "/pull") as -> by reflexivity.
  rewrite (bool_decide_false (_ = "/push")), (bool_decide_true (_ = "/pull")) by done.
  unfold handlePull. cbn [Method]. rewrite bool_decide_true by done. cbn [negb].
  set (r := mkRequest _ _ _ _ _ _).
  assert (query "since" r = format_uint (Z.of_nat k)) as Hq by (unfold query; cbn; by rewrite lookup_singleton_eq).
  assert (∀ key, key ≠ "since" → query key r = "") as Hno
    by (intros key ?; unfold query; cbn; by rewrite lookup_singleton_ne).
  assert (format_uint (Z.of_nat k) ≠ "") as Hne.
  { intros He. pose proof (parse_format_uint _ Hu) as Hp. by rewrite He in Hp. }
  assert (ParsePullQuery background r h
          = Done (Ok (mkPullQuery (Some (IntegerCursor (Z.of_nat k))) 100 []))) as ->.
  { unfold ParsePullQuery. rewrite Hq, bool_decide_false, Hparse by done. cbn [obind].
    unfold param_filter. by rewrite !Hno by done. }
  cbn [obind Since Limit Filters deref].
  assert (tenant_filter r [] = []) as ->.
  { assert (header HeaderSyncKitTenant r = "") as Hh
      by (unfold header, r; cbn [Header]; by rewrite accept_encoding_other).
    unfold tenant_filter, ExtractTenant. rewrite Hh, bool_decide_true by done. by rewrite Hno. }
  change (version_String (IntegerCursor (Z.of_nat k))) with (Done (format_uint (Z.of_nat k))). cbn [obind].
  set (h' := before_pull _ h).
  assert (store h' = store h) as Hst by (unfold h', before_pull; by destruct (BeforePull _)).
  rewrite Hst, (log_Load _ 0 k Hready). cbn [obind]. change (Z.to_nat 100) with 100%nat. fold page.
  rewrite (to_json_numbered _ _ Hnp). cbn [obind].
  destruct (events_roundtrip _ Hsp) as (b & Hb & Hscan). destruct (Hfits b Hb) as (H1 & H2 & H3).
  unfold respondWithJSON. rewrite Hb. cbn [obind].
  assert (∀ so, StatusCode (respond_body r 200 b so) = 200) as Hcode
    by (intros so; unfold respond_body; by destruct (negotiateCompression _ _ _)).
  rewrite Hcode. change (negb (200 =? 200)) with false. cbv iota.
  rewrite (read_response_ok _ _ _ _ _ _ _ _ _ Hscan) by done.
  rewrite (parse_events_numbered background _ _ (Z.of_nat k) page) by (done || lia). cbn [obind].
  eexists. by split.
Qed.
End paging.

(** ** The manager on this transport *)
Section bootstrap.
Context {W : WireFormat} {L : WireLaws W} {MR : MapRange} {QT : QueryText}.
Context {St : Type} {ES : EventStore St} {LS : LogStore St}.
Context {Local : Type} {LES : EventStore Local}.
Implicit Types (h : SyncHandler St).

(** What the client hears about an empty server. *)
Lemma latest_of_empty h c o :
  ready (store h) 0 → log (store h) = [] →
  (∀ b, marshal (PText "0") = Ok b → body_len b ≤ MaxResponseSize o) →
  ∃ e, tr_GetLatestVersion background (mkHTTP (mkLink h c) default_parser o) = Done (Err e).
Proof using L.
  intros Hr Hlog Hfits. cbn [tr_GetLatestVersion http_Transport]. unfold GetLatestVersion.
  cbn [network client_options]. unfold Do, link_Network, ServeHTTP. cbn [Path server clock].
  assert (strip_sync "/latest-version" = "/latest-version") as -> by reflexivity.
  rewrite (bool_decide_false (_ = "/push")), (bool_decide_false (_ = "/pull")),
    (bool_decide_true (_ = "/latest-version")) by done.
  unfold handleLatestVersion. cbn [Method]. rewrite bool_decide_true by done. cbn [negb].
  rewrite (log_LatestVersion _ 0 Hr), Hlog. cbn [obind deref length].
  change (version_String (IntegerCursor (Z.of_nat 0))) with (Done "0"). cbn [obind].
  destruct (plain_marshal (PText "0") I) as [b Hb]. pose proof (Hfits b Hb) as Hsize.
  unfold respondWithJSON. rewrite Hb. unfold respond_body.
  match goal with |- context [negotiateCompression ?r ?o ?n] =>
    assert (negotiateCompression r o n = false) as -> end.
  { unfold negotiateCompression, header. cbn [Header]. rewrite lookup_empty. cbn [default].
    by rewrite andb_false_r. }
  cbn [obind StatusCode]. change (negb (200 =? 200)) with false. cbv iota.
  unfold read_response, createSafeResponseReader. cbn [gzipped Content client_options with_network].
  assert (MaxResponseSize o <? body_len b = false) as -> by (apply Z.ltb_ge; lia).
  unfold decode. cbn [given]. rewrite (text_roundtrip _ _ Hb). cbn [client_parser with_network].
  change (default_parser background "0")
    with (Done (@Err error (option Version) (ErrMsg "invalid version: zero is not a valid version"))).
  cbn [obind]. by eexists.
Qed.

(** Remark: with the client's default version parser, a manager can never make the first
    push to an empty server: asked for its latest version the server answers
    "0", which that parser refuses, so every push fails before reading the local
    store, whatever it holds, and leaves the server empty for the next one. *)
Theorem http_bootstrap_fails (env : Manager.Env) (h : SyncHandler St) (c : Z) (o : ClientOptions)
    (w : Manager.World Local (HTTPTransport (Link St)))
    (Hcalm : ∀ n, Manager.e_ctx env n = background)
    (Hr : ready (store h) 0) (Hempty : log (store h) = [])
    (Hfits : ∀ b, marshal (PText "0") = Ok b → body_len b ≤ MaxResponseSize o)
    (Ht : Manager.w_transport w = mkHTTP (mkLink h c) default_parser o)
    (Hopen : Manager.closed (Manager.w_mgr w) = false) :
  ∃ w' r e, Manager.Push env w = Done (w', (Some r, Some e))
    ∧ Manager.EventsPushed r = 0%nat
    ∧ Manager.w_store w' = Manager.w_store w ∧ Manager.w_transport w' = Manager.w_transport w
    ∧ Manager.w_mgr w' = Manager.w_mgr w.
Proof using L.
  destruct (latest_of_empty h c o Hr Hempty Hfits) as [e He].
  unfold Manager.Push, Manager.mbind at 1, Manager.get_mgr. rewrite Hopen.
  unfold Manager.push, Manager.push_body, Manager.mbind, Manager.now, Manager.ask_transport.
  cbn [Manager.w_transport Manager.tick Manager.w_tick]. rewrite Ht, Hcalm, He.
  eexists _, _, _. split; [reflexivity|]. cbn. by split_and!.
Qed.
End bootstrap.

(** ** Concrete instances

    A wire whose bodies are payloads under layers of compression. *)
Definition demo_scan {A} (f : Payload → option A) (b : nat * option Payload) : scanned A :=
  match b with
  | (O, Some p) => match f p with Some a => Found a | None => Malformed (ErrMsg "json: cannot unmarshal") end
  | (O, None) => Incomplete true
  | _ => Malformed (ErrMsg "invalid character")
  end.
#[local] Instance demo_wire : WireFormat := {|
  body := nat * option Payload;
  no_body := (0%nat, None);
  body_len := λ _, 0;
  body_text := λ _, "";
  prefix := λ _ b, b;
  marshal := λ p, Ok (0%nat, Some p);
  scan_events := demo_scan (λ p, match p with PEvents js => Some js | _ => None end);
  scan_text := demo_scan (λ p, match p with PText s => Some s | _ => None end);
  scan_cursor_request := demo_scan (λ p, match p with PCursorRequest r => Some r | _ => None end);
  scan_cursor_response := demo_scan (λ p, match p with PCursor r => Some r | _ => None end);
  gzip := λ b, (S b.1, b.2);
  gunzip := λ b, match b with
                 | (S n, p) => Stream (n, p) GzDone true
                 | _ => BadHeader false (ErrMsg "gzip: invalid header")
                 end
|}.
Lemma demo_norm (js : list JSONEventWithVersion) : norm_fields id id <$> js = js.
Proof. induction js as [|[[] ] js IH]; [done|]. rewrite fmap_cons, IH. done. Qed.
#[local] Program Instance demo_laws : WireLaws demo_wire := {| sendable := λ _, True; norm_data := id; norm_meta := id |}.
Next Obligation. by eexists. Qed.
Next Obligation. by intros s b [= <-]. Qed.
Next Obligation. intros js _. eexists. split; [reflexivity|]. cbn. by rewrite demo_norm. Qed.
Next Obligation. intros js next _. eexists. split; [reflexivity|]. cbn. by rewrite demo_norm. Qed.
Next Obligation. intros w n. by eexists. Qed.
Next Obligation. intros [n p]. by exists true. Qed.
Next Obligation. done. Qed.
Definition after_equals (s : string) : string :=
  match s with
  | String _ (String _ (String _ (String _ (String _ (String _ rest))))) => rest
  | _ => ""
  end.
#[local] Program Instance demo_query : QueryText := {| parse_query := λ s, Ok {["since" := after_equals s]} |}.
Next Obligation. done. Qed.
#[local] Instance demo_range : MapRange := canonical_range.

Definition demo_handler (s : MemStore.MemStore) : SyncHandler MemStore.MemStore := NewSyncHandler s None None.
Definition demo_client (s : MemStore.MemStore) : HTTPTransport (Link MemStore.MemStore) :=
  NewTransport (mkLink (demo_handler s) 1) None None.
Definition demo_json : list JSONEventWithVersion := [mkJSON (mkJSONEvent "e2" "UserCreated" "user-1" AnyNil None) "7"].
Definition demo_request : Request :=
  mkRequest "POST" "/push" {["Content-Type" := "application/json"; HeaderIdempotencyKey := "k1"]} ∅ 0
    (0%nat, Some (PEvents demo_json)).

Lemma demo_fits o p : 0 < MaxRequestSize o ≤ MaxDecompressedSize o → fits_request o p.
Proof. intros H. split; [done|]. intros b _. cbn. lia. Qed.

Lemma http_push_appends_witness :
  ∃ t', Push background [mkEWV (Some MemStore.demo_user) (Some (IntegerCursor 7))]
          (demo_client MemStore.demo_store) = Done (t', None)
    ∧ log (store (server (network t')))
      = log MemStore.demo_store
        ++ [entry (mkEvent (ID MemStore.demo_user) (Type_ MemStore.demo_user) (AggregateID MemStore.demo_user)
                     (Data MemStore.demo_user) (Metadata MemStore.demo_user)) 4].
Proof.
  destruct (http_push_appends (demo_client MemStore.demo_store)
    [(MemStore.demo_user, Some (IntegerCursor 7), "7")] 9) as (t' & Hp & _ & Hl).
  - by apply Forall_singleton.
  - done.
  - done.
  - by apply demo_fits.
  - intros e v x Hin s. apply list_elem_of_singleton in Hin. injection Hin as -> -> ->. by eexists.
  - split; [apply MemStore.demo_store_inv|apply MemStore.demo_store_room; cbn; lia].
  - exists t'. split; [exact Hp|exact Hl].
Defined.

Lemma closed_body_refused_witness :
  let h := mkHandler MemStore.demo_store es_ParseVersion (mkServerOptions 100 50 false 0 0 0) (mkHooks false false)
             (NewIdempotencyTracker 0 0) [] [] in
  let r := mkRequest "POST" "/push" {["Content-Type" := "application/json"]} ∅ 20
             (0%nat, Some (PEvents demo_json)) in
  ∃ resp, handlePush 1 2 background r h = Done (h, resp) ∧ StatusCode resp = 400.
Proof. cbn zeta. by apply closed_body_refused. Defined.

Lemma push_once_witness :
  ∃ h' resp, handlePush 1 2 background demo_request (demo_handler MemStore.demo_store) = Done (h', resp)
    ∧ StatusCode resp = 200
    ∧ ∀ s2, ∃ resp2, handlePush 9 10 background demo_request (with_server_tracker (idempotencyTracker h') s2 h')
              = Done (with_server_tracker (idempotencyTracker h') s2 h', resp2) ∧ StatusCode resp2 = 200.
Proof.
  destruct (push_events background (demo_handler MemStore.demo_store) demo_json MemStore.demo_store [])
    as [[s evs]|] eqn:Hpush.
  - destruct (push_once background demo_request (demo_handler MemStore.demo_store) demo_json 0 1 2 s evs)
      as (h' & resp & Hrun & Hcode & _ & Hagain); [|done..|exact Hpush|].
    + apply New_tracker_inv.
    + exists h', resp. split; [exact Hrun|]. split; [exact Hcode|]. intros s2.
      apply (Hagain 0%nat (2, idempotencyTracker h') s2 9 10 background demo_request);
        [apply run_done|done|by vm_compute|done].
  - destruct (push_events_log (demo_handler MemStore.demo_store) demo_json MemStore.demo_store 9 [])
      as (s & evs & Hrun & _).
    + apply Forall_singleton. intros s. by eexists.
    + split; [apply MemStore.demo_store_inv|apply MemStore.demo_store_room; cbn; lia].
    + by rewrite Hrun in Hpush.
Defined.

Lemma push_hides_failures_witness :
  let h := demo_handler (MemStore.Close MemStore.demo_store) in
  ∃ h' resp, handlePush 1 2 background demo_request h = Done (h', resp) ∧ StatusCode resp = 200
    ∧ store h' = store h
    ∧ let h2 := with_server_tracker (idempotencyTracker h') MemStore.demo_store h' in
      ∃ resp2, handlePush 9 10 background demo_request h2 = Done (h2, resp2) ∧ StatusCode resp2 = 200.
Proof.
  cbn zeta. set (h := demo_handler _).
  destruct (push_hides_failures background demo_request h demo_json 0 1 2)
    as (h' & resp & Hrun & Hcode & Hst & _ & Hagain); try done.
  - intros j _. by eexists.
  - intros ev v. by eexists.
  - exists h', resp. split_and!; try done. apply Hagain. by vm_compute.
Defined.

Lemma demo_pageable : pageable MemStore.demo_store DefaultClientOptions.
Proof.
  split.
  - split; [apply MemStore.demo_store_inv|apply MemStore.demo_store_room; lia].
  - intros [|[|[|i]]] ev Hi; vm_compute in Hi; simplify_eq; by split; [eexists|].
  - by vm_compute.
  - apply Forall_forall. by intros ? _.
  - intros w n _. by apply demo_fits.
  - intros i n next b _. done.
Qed.
Lemma paging_complete_witness :
  pages (S (length (log MemStore.demo_store))) None 2 (demo_client MemStore.demo_store)
  = Some (received <$> log MemStore.demo_store).
Proof. apply (paging_complete (demo_handler MemStore.demo_store) 1 DefaultClientOptions 2 demo_pageable). Defined.

Lemma http_pull_hundred_witness :
  ∃ t', Pull background (Some (IntegerCursor 1)) (demo_client MemStore.demo_store)
        = Done (t', Ok (received <$> take 100 (drop 1 (log MemStore.demo_store)))).
Proof.
  destruct (http_pull_hundred (demo_handler MemStore.demo_store) 1 DefaultClientOptions 1
    (pg_ready _ _ demo_pageable) (pg_numbered _ _ demo_pageable) (pg_length _ _ demo_pageable))
    as (t' & Hrun & _).
  - vm_compute. lia.
  - apply (pg_sendable _ _ demo_pageable).
  - intros s. reflexivity.
  - intros b _. cbn. lia.
  - exists t'. exact Hrun.
Defined.

Lemma http_bootstrap_fails_witness :
  let w := Manager.sample_world MemStore.demo_store (demo_client MemStore.New)
             (Manager.sample_options false false None None 0) in
  ∃ w' r e, Manager.Push Manager.sample_env w = Done (w', (Some r, Some e))
    ∧ Manager.EventsPushed r = 0%nat.
Proof.
  cbn zeta.
  destruct (http_bootstrap_fails Manager.sample_env (demo_handler MemStore.New) 1 DefaultClientOptions
    (Manager.sample_world MemStore.demo_store (demo_client MemStore.New)
             (Manager.sample_options false false None None 0))) as (w' & r & e & Hrun & H0 & _); try done.
  - split; [apply MemStore.New_inv|by vm_compute].
  - by exists w', r, e.
Defined.
