(* ===== verification/PushInterleaving.v ===== *)
(** * Pushes that overlap (src/transport/httptransport/http.go, handlePush)

    net/http serves every request in a goroutine of its own.  A push looks its
    idempotency key up, stores its events one after the other and records the key
    at the end, and nothing is locked from the look-up to the record: here these
    are separate steps, between which other pushes, the clean-up of the tracker
    and everything else that uses the store may happen.  Once a key is recorded no
    further request with it is carried out while it is remembered; requests that
    were past their look-up by then are carried out as well. *)
From S2P Require Import Prelude Types Json Text Errors VectorClock Versions Interfaces.
From S2P Require Import Idempotency HttpServer HttpClient HttpSync.
From S2P Require MemStore.
From stdpp Require Import options.

Section overlap.
Context {W : WireFormat} {MR : MapRange} {St : Type} {ES : EventStore St}.

(** Where a request is: not looked up yet; with events left to store and those
    stored so far; answered; ended by a panic, which net/http recovers. *)
Inductive phase :=
  | Arrived | Storing (js : list JSONEventWithVersion) (stored : list EventWithVersion)
  | Answered (resp : Response) | Aborted (why : string).
Record call := mkCall { c_ctx : CtxView; c_req : Request; c_phase : phase }.
Definition key_of (c : call) : string := header HeaderIdempotencyKey (c_req c).
(** The clock, the handler all requests share, the requests in order of arrival;
    [carried] lists those that went past their checks, [records] counts the keys
    recorded. *)
Record world := mkWorld {
  w_clock : Z; w_handler : SyncHandler St; calls : list call; carried : list nat; records : nat
}.
Definition w_tracker (w : world) : IdempotencyTracker Payload := idempotencyTracker (w_handler w).
Definition moved (i : nat) (p : phase) (w : world) : list call :=
  alter (λ c, mkCall (c_ctx c) (c_req c) p) i (calls w).
Definition records_key (c : call) : nat := if bool_decide (key_of c = "") then 0 else 1.

Inductive pstep : world → world → Prop :=
  | ps_arrive ctx r w :
      pstep w (mkWorld (w_clock w) (w_handler w) (calls w ++ [mkCall ctx r Arrived]) (carried w) (records w))
  | ps_refuse i c now resp w : calls w !! i = Some c → c_phase c = Arrived → w_clock w ≤ now →
      push_check now (c_req c) (w_handler w) = Done (inr resp) →
      pstep w (mkWorld now (w_handler w) (moved i (Answered resp) w) (carried w) (records w))
  | ps_carry i c now js w : calls w !! i = Some c → c_phase c = Arrived → w_clock w ≤ now →
      push_check now (c_req c) (w_handler w) = Done (inl js) →
      pstep w (mkWorld now (w_handler w) (moved i (Storing js []) w) (carried w ++ [i]) (records w))
  | ps_store i c j js stored stored' s w : calls w !! i = Some c → c_phase c = Storing (j :: js) stored →
      push_events (c_ctx c) (w_handler w) [j] (store (w_handler w)) stored = Done (s, stored') →
      pstep w (mkWorld (w_clock w) (with_store s (w_handler w)) (moved i (Storing js stored') w) (carried w)
                 (records w))
  | ps_record i c stored now h resp w : calls w !! i = Some c → c_phase c = Storing [] stored →
      w_clock w < now → push_record now (c_req c) stored (w_handler w) = Done (h, resp) →
      pstep w (mkWorld now h (moved i (Answered resp) w) (carried w) (records w + records_key c))
  | ps_abort_check i c now why w : calls w !! i = Some c → c_phase c = Arrived → w_clock w ≤ now →
      push_check now (c_req c) (w_handler w) = Panic why →
      pstep w (mkWorld now (w_handler w) (moved i (Aborted why) w) (carried w) (records w))
  | ps_abort_store i c j js stored why w : calls w !! i = Some c → c_phase c = Storing (j :: js) stored →
      push_events (c_ctx c) (w_handler w) [j] (store (w_handler w)) stored = Panic why →
      pstep w (mkWorld (w_clock w) (w_handler w) (moved i (Aborted why) w) (carried w) (records w))
  | ps_cleanup now t w : w_clock w ≤ now → cleanup_tick now (w_tracker w) = Some t →
      pstep w (mkWorld now (with_tracker t (w_handler w)) (calls w) (carried w) (records w))
  (** The other endpoints and the other users of the store. *)
  | ps_elsewhere h w : idempotencyTracker h = w_tracker w → options h = options (w_handler w) →
      versionParser h = versionParser (w_handler w) →
      pstep w (mkWorld (w_clock w) h (calls w) (carried w) (records w)).

(** A server before its first push. *)
Definition started (now : Z) (h : SyncHandler St) : world := mkWorld now h [] [] 0.

(** ** Lemmas *)
Lemma moved_lookup i p w k :
  moved i p w !! k = (if decide (i = k) then λ c, mkCall (c_ctx c) (c_req c) p else id) <$> calls w !! k.
Proof.
  unfold moved. case_decide as Hk; [subst k; by rewrite list_lookup_alter_eq|].
  rewrite list_lookup_alter_ne by done. by rewrite option_fmap_id.
Qed.
Lemma moved_request i p w k c :
  calls w !! k = Some c → ∃ c', moved i p w !! k = Some c' ∧ c_req c' = c_req c.
Proof. intros Hk. rewrite moved_lookup, Hk. eexists. split; [reflexivity|]. by case_decide. Qed.

(** A call keeps its request; clock and number of records only grow. *)
Lemma pstep_monotone w w' : pstep w w' →
  w_clock w ≤ w_clock w' ∧ (records w ≤ records w')%nat
  ∧ ∀ k c, calls w !! k = Some c → ∃ c', calls w' !! k = Some c' ∧ c_req c' = c_req c.
Proof.
  destruct 1; cbn [w_clock records calls]; (split; [lia|]); (split; [lia|]); intros k c' Hk;
    try (by apply moved_request); [by exists c'; rewrite (lookup_app_l_Some _ _ _ _ Hk)|by exists c'..].
Qed.

Lemma push_record_tracker now r evs (h h' : SyncHandler St) resp :
  push_record now r evs h = Done (h', resp) →
  idempotencyTracker h'
  = (if bool_decide (header HeaderIdempotencyKey r = "") then idempotencyTracker h
     else Record_ now (header HeaderIdempotencyKey r) (PStatus "ok") (idempotencyTracker h)).
Proof.
  unfold push_record. intros H.
  destruct (respondWithJSON _ _ _ _) as [resp'|]; [|done]. injection H as <- _.
  match goal with |- context [after_commit evs ?hh] =>
    destruct (after_commit_fields evs hh) as (_ & -> & _) end.
  by case_bool_decide.
Qed.

(** The invariant of the tracker and its limits, along any run. *)
Definition settled (age sz : Z) (w : world) : Prop :=
  tracker_inv (w_clock w) (w_tracker w) ∧ maxAge (w_tracker w) = age ∧ maxSize (w_tracker w) = sz.
Lemma tracker_inv_later {R} now now' (t : IdempotencyTracker R) :
  now ≤ now' → tracker_inv now t → tracker_inv now' t.
Proof. intros Hle [Hs Hp Hd]. split; [done| |done]. intros k e He. specialize (Hp k e He). lia. Qed.
Lemma cleanup_settled {R} now now' (t t' : IdempotencyTracker R) :
  now ≤ now' → cleanup_tick now' t = Some t' → tracker_inv now t →
  tracker_inv now' t' ∧ maxAge t' = maxAge t ∧ maxSize t' = maxSize t.
Proof using MR.
  intros Hle Ht Hi. split; [by eapply (step_inv (now, t) (now', t')); [constructor|]|].
  unfold cleanup_tick in Ht. destruct (cleaning t); [|done]. by injection Ht as <-.
Qed.
Lemma pstep_settled age sz w w' : pstep w w' → settled age sz w → settled age sz w'.
Proof.
  intros Hstep (Hi & Ha & Hz).
  destruct Hstep as [| | | |i c evs now h resp w Hc Hp Hlt Hrec| | |now t w Hle Ht|h w Ht Ho Hv];
    unfold settled, w_tracker in *; cbn [w_clock w_handler idempotencyTracker with_store with_tracker] in *;
    try (split_and!; [by eapply tracker_inv_later|done|done]).
  - rewrite (push_record_tracker _ _ _ _ _ _ Hrec). case_bool_decide; [|by split_and!; [eapply Record_inv|..]].
    split_and!; [|done|done]. eapply tracker_inv_later; [|done]. lia.
  - destruct (cleanup_settled _ _ _ _ Hle Ht Hi) as (? & -> & ->). done.
  - by rewrite Ht.
Qed.

(** Only calls are carried out. *)
Definition carried_known (w : world) : Prop := ∀ i, i ∈ carried w → is_Some (calls w !! i).
Lemma pstep_carried_known w w' : pstep w w' → carried_known w → carried_known w'.
Proof.
  intros Hstep Hw i Hin.
  assert (i ∈ carried w ∨ is_Some (calls w !! i)) as Hi.
  { destruct Hstep; cbn [carried] in *; try by left.
    apply elem_of_app in Hin as [Hin|Heq%list_elem_of_singleton]; [by left|subst; right; by eexists]. }
  assert (is_Some (calls w !! i)) as [c Hc] by (destruct Hi; [by apply Hw|done]).
  destruct (pstep_monotone w w' Hstep) as (_ & _ & Hcalls).
  destruct (Hcalls i c Hc) as (c' & ? & _). by exists c'.
Qed.

(** [k] is remembered since [t0] or later, with at most [n] younger keys. *)
Definition known (t0 : Z) (k : string) (n : nat) (w : world) : Prop :=
  ∃ ts m, remembered ts k (PStatus "ok") m (w_tracker w) ∧ t0 ≤ ts ∧ (m ≤ n)%nat.
Lemma known_mono t0 k n n' w : (n ≤ n')%nat → known t0 k n w → known t0 k n' w.
Proof. intros Hle (ts & m & ? & ? & ?). exists ts, m. split_and!; [done|done|lia]. Qed.
Lemma known_step age sz t0 k n w w' :
  pstep w w' → settled age sz w → t0 ≤ w_clock w → k ≠ "" → known t0 k n w →
  Z.of_nat (n + (records w' - records w)) < sz → w_clock w' ≤ t0 + age →
  known t0 k (n + (records w' - records w)) w'.
Proof.
  intros Hstep (Hi & Ha & Hz) Ht0 Hk (ts & m & Hrem & Hts & Hm) Hroom Hyoung.
  destruct Hstep as [| | | |i c evs now h resp w Hc Hp Hlt Hrec| | |now t w Hle Ht|h w Ht Ho Hv];
    cbn [w_clock records] in *; try (by exists ts, m; split_and!; [done|done|lia]).
  - rewrite Nat.add_sub_swap, Nat.sub_diag in * by lia. cbn [Nat.add] in *. unfold records_key in *.
    unfold known, w_tracker in *. cbn [w_handler] in *. rewrite (push_record_tracker _ _ _ _ _ _ Hrec).
    change (header HeaderIdempotencyKey (c_req c)) with (key_of c).
    case_bool_decide as Hkey; [exists ts, m; split_and!; [done|done|lia]|].
    destruct (decide (k = key_of c)) as [->|Hne].
    + exists now, 0%nat. split_and!; [by eapply Record_first|lia|lia].
    + exists ts, (S m). split_and!; [|done|lia]. eapply Record_remembers; [done|done| |done|done].
      rewrite Hz. lia.
  - rewrite Nat.sub_diag, Nat.add_0_r. exists ts, m. split_and!; [|done|done].
    unfold w_tracker in *. cbn [w_handler with_tracker idempotencyTracker].
    unfold cleanup_tick in Ht. destruct (cleaning _); [|done]. injection Ht as <-.
    destruct Hrem as [He Hn]. split; cbn [keys with_keys].
    + apply map_lookup_filter_Some. split; [done|]. unfold expired. cbn [timestamp snd].
      apply Z.ltb_ge. unfold w_tracker in Ha. lia.
    + etransitivity; [|exact Hn]. apply map_subseteq_size.
      apply map_filter_subseteq_mono, map_filter_subseteq.
  - exists ts, m. unfold w_tracker in *. cbn [w_handler]. rewrite Ht. split_and!; [done|done|lia].
Qed.

(** A request under a known key is answered and changes nothing. *)
Lemma known_check {L : WireLaws W} t0 k n w r now :
  known t0 k n w → k ≠ "" → now - t0 ≤ maxAge (w_tracker w) → header HeaderIdempotencyKey r = k →
  ∃ answer, push_check now r (w_handler w) = Done (inr answer) ∧ StatusCode answer = 200.
Proof.
  intros (ts & m & [He _] & Hts & _) Hk Hage Hr.
  destruct (respond_plain r 200 (PStatus "ok") (options (w_handler w)) I) as (resp & Hresp & Hcode).
  exists resp. split; [|done]. unfold push_check. rewrite Hr, bool_decide_false by done.
  unfold Check_. unfold w_tracker in *. rewrite He. cbn [timestamp response].
  assert (maxAge (idempotencyTracker (w_handler w)) <? now - ts = false) as -> by (apply Z.ltb_ge; lia).
  by rewrite Hresp.
Qed.

(** What is carried out in one step. *)
Lemma carried_step w w' i :
  pstep w w' → i ∈ carried w' → i ∉ carried w →
  ∃ c now js, calls w !! i = Some c ∧ w_clock w ≤ now ∧ now = w_clock w'
    ∧ push_check now (c_req c) (w_handler w) = Done (inl js).
Proof.
  intros Hstep Hin Hnew. destruct Hstep; cbn [carried w_clock] in *; try done.
  apply elem_of_app in Hin as [Hin|Heq%list_elem_of_singleton]; [done|subst]. by eexists _, _, _.
Qed.
Lemma known_run {L : WireLaws W} age sz t0 k w1 w2 :
  rtc pstep w1 w2 → settled age sz w1 → carried_known w1 → t0 ≤ w_clock w1 → k ≠ "" → known t0 k 0 w1 →
  Z.of_nat (records w2 - records w1) < sz → w_clock w2 ≤ t0 + age →
  settled age sz w2 ∧ carried_known w2 ∧ known t0 k (records w2 - records w1) w2 ∧ w_clock w1 ≤ w_clock w2
  ∧ (records w1 ≤ records w2)%nat
  ∧ ∀ i c, i ∈ carried w2 → calls w2 !! i = Some c → key_of c = k → i ∈ carried w1.
Proof.
  intros Hrun Hset Hck Ht0 Hk Hknown. revert w2 Hrun. refine (rtc_ind_r _ w1 _ _).
  all: [>|intros w w' Hrun Hstep IH]; intros Hroom Hage.
  { rewrite Nat.sub_diag. by split_and!. }
  destruct (pstep_monotone w w' Hstep) as (Hclock & Hrecs & Hcalls).
  destruct IH as (Hset' & Hck' & Hknown' & Hc1 & Hr1 & Hcarried); [lia..|].
  split; [by eapply pstep_settled|]. split; [by eapply pstep_carried_known|]. split.
  { replace (records w' - records w1)%nat with (records w - records w1 + (records w' - records w))%nat by lia.
    eapply known_step; try done; lia. }
  split; [lia|]. split; [lia|]. intros i c Hin Hc Hkey.
  destruct (decide (i ∈ carried w)) as [Hold|Hnew].
  - destruct (Hck' i Hold) as [c0 Hc0].
    destruct (Hcalls i c0 Hc0) as (c' & Hc' & Hreq). rewrite Hc in Hc'. injection Hc' as <-.
    apply (Hcarried i c0 Hold Hc0). unfold key_of in *. by rewrite <-Hreq.
  - exfalso. destruct (carried_step w w' i Hstep Hin Hnew) as (c0 & now & js & Hc0 & Hle & -> & Hchk).
    destruct (Hcalls i c0 Hc0) as (c' & Hc' & Hreq). rewrite Hc in Hc'. injection Hc' as <-.
    destruct (known_check t0 k _ w (c_req c0) (w_clock w') Hknown' Hk) as (answer & Hans & _).
    + destruct Hset' as (_ & -> & _). lia.
    + unfold key_of in Hkey. by rewrite <-Hreq.
    + by rewrite Hchk in Hans.
Qed.
(** Storing one event after the other is storing them all. *)
Lemma push_events_cons ctx (h : SyncHandler St) j js s stored :
  push_events ctx h (j :: js) s stored
  = (let* (s', stored') := push_events ctx h [j] s stored in push_events ctx h js s' stored').
Proof.
  cbn [push_events]. destruct (fromJSONEventWithVersion ctx h s j) as [[ev|e]|]; [|done|done]. cbn [obind].
  destruct (es_Store _ _ _ _) as [[s' [e|]]|]; done.
Qed.
Lemma push_events_handler ctx (h : SyncHandler St) s1 js s stored :
  push_events ctx (with_store s1 h) js s stored = push_events ctx h js s stored.
Proof.
  revert s stored; induction js as [|j js IH]; intros s stored; [done|]. cbn [push_events].
  unfold fromJSONEventWithVersion. cbn [versionParser with_store].
  destruct (versionParser h ctx (j_Version j) s) as [[v|e]|]; cbn [obind]; [|by rewrite IH|done].
  destruct (es_Store _ _ _ _) as [[s' [e|]]|]; cbn [obind]; by rewrite ?IH.
Qed.
Lemma storing_run i js stored w c s evs :
  calls w !! i = Some c → c_phase c = Storing js stored →
  push_events (c_ctx c) (w_handler w) js (store (w_handler w)) stored = Done (s, evs) →
  rtc pstep w (mkWorld (w_clock w) (with_store s (w_handler w)) (moved i (Storing [] evs) w) (carried w)
                 (records w)).
Proof.
  revert w c stored; induction js as [|j js IH]; intros w c stored Hc Hp Hpush.
  - injection Hpush as <- <-.
    assert (moved i (Storing [] stored) w = calls w) as ->.
    { apply list_eq. intros k. rewrite moved_lookup. case_decide as Hk; [|by rewrite option_fmap_id].
      subst k. rewrite Hc. cbn. destruct c as [ctx r ph]. cbn in *. by rewrite Hp. }
    destruct w as [n h cs ca re]; destruct h. apply rtc_refl.
  - rewrite push_events_cons in Hpush.
    destruct (push_events _ _ [j] _ _) as [[s1 stored1]|] eqn:H1; [|done]. cbn [obind] in Hpush.
    eapply rtc_l; [by eapply ps_store|].
    assert (moved i (Storing js stored1) w !! i = Some (mkCall (c_ctx c) (c_req c) (Storing js stored1))) as Hi
      by (by rewrite moved_lookup, decide_True, Hc by done).
    specialize (IH (mkWorld (w_clock w) (with_store s1 (w_handler w)) (moved i (Storing js stored1) w)
      (carried w) (records w)) _ stored1 Hi eq_refl).
    cbn [w_handler w_clock carried records store with_store c_ctx] in IH.
    rewrite push_events_handler in IH. specialize (IH Hpush).
    assert (moved i (Storing [] evs) (mkWorld (w_clock w) (with_store s1 (w_handler w))
      (moved i (Storing js stored1) w) (carried w) (records w)) = moved i (Storing [] evs) w) as Heq.
    { apply list_eq. intros k. rewrite !moved_lookup. cbn [calls]. rewrite moved_lookup.
      case_decide; by destruct (calls w !! k). }
    by rewrite Heq in IH.
Qed.
(** The last step always answers 200 and leaves the store. *)
Lemma push_record_answers {L : WireLaws W} now r evs (h : SyncHandler St) :
  ∃ h' resp, push_record now r evs h = Done (h', resp) ∧ StatusCode resp = 200 ∧ store h' = store h.
Proof.
  unfold push_record. cbn zeta. set (h1 := if bool_decide _ then h else _).
  destruct (respond_plain r 200 status_ok (options h1) I) as (resp & -> & Hcode).
  exists (after_commit evs h1), resp. split_and!; [done|done|].
  destruct (after_commit_fields evs h1) as (-> & _). unfold h1. by case_bool_decide.
Qed.

(** A request served alone takes the three steps one after the other. *)
Lemma alone_is_handlePush {L : WireLaws W} c0 now later ctx r (h h' : SyncHandler St) resp :
  c0 ≤ now → now < later → handlePush now later ctx r h = Done (h', resp) →
  ∃ w, rtc pstep (mkWorld c0 h [mkCall ctx r Arrived] [] 0) w
    ∧ w_handler w = h' ∧ calls w = [mkCall ctx r (Answered resp)].
Proof.
  intros Hle Hlt Hrun. unfold handlePush in Hrun.
  destruct (push_check now r h) as [[js|resp']|] eqn:Hchk; [| |done]; cbn [obind] in Hrun.
  - destruct (push_events ctx h js (store h) []) as [[s evs]|] eqn:Hpush; [|done]. cbn [obind] in Hrun.
    eexists. split; [|split].
    + eapply rtc_l; [by apply (ps_carry 0 (mkCall ctx r Arrived) now js)|].
      etrans; [by eapply (storing_run 0)|].
      eapply rtc_l; [by eapply (ps_record 0 _ evs later)|]. apply rtc_refl.
    + done.
    + done.
  - injection Hrun as <- <-. eexists. split; [|split].
    + eapply rtc_l; [by apply (ps_refuse 0 (mkCall ctx r Arrived) now resp')|]. apply rtc_refl.
    + done.
    + done.
Qed.

(** ** Properties *)

(** C21: once a push has recorded its idempotency key, no request with that key is
    carried out any more, and every one is answered 200 without changing
    anything, whatever other requests arrive, check, store, record and answer in
    between, in any interleaving, until the key is older than the tracker's age
    or [maxSize] further keys have been recorded. Requests with the same key that
    were past their own check when the first one recorded it are the only others
    that are carried out: nothing is locked between check and record
    ([overlapping_pushes_both_carried] shows two of them). *)
Theorem recorded_key_not_carried_again {L : WireLaws W} (now0 age sz : Z) (h0 : SyncHandler St)
    (w w1 w2 : world) (i : nat) (c : call) (stored : list EventWithVersion) (t0 : Z)
    (h : SyncHandler St) (resp : Response)
    (Hnew : idempotencyTracker h0 = NewIdempotencyTracker age sz)
    (Hstart : rtc pstep (started now0 h0) w)
    (Hc : calls w !! i = Some c) (Hphase : c_phase c = Storing [] stored) (Hkey : key_of c ≠ "")
    (Hlt : w_clock w < t0)
    (Hrec : push_record t0 (c_req c) stored (w_handler w) = Done (h, resp))
    (Hw1 : w1 = mkWorld t0 h (moved i (Answered resp) w) (carried w) (records w + 1))
    (Hrun : rtc pstep w1 w2)
    (Hfew : Z.of_nat (records w2 - records w1) < maxSize (w_tracker w))
    (Hyoung : w_clock w2 ≤ t0 + maxAge (w_tracker w)) :
  StatusCode resp = 200
  ∧ (∀ i' c', i' ∈ carried w2 → calls w2 !! i' = Some c' → key_of c' = key_of c → i' ∈ carried w)
  ∧ ∀ now r, w_clock w2 ≤ now ≤ t0 + maxAge (w_tracker w) →
      header HeaderIdempotencyKey r = key_of c →
      ∃ answer, push_check now r (w_handler w2) = Done (inr answer) ∧ StatusCode answer = 200
        ∧ ∀ later ctx, handlePush now later ctx r (w_handler w2) = Done (w_handler w2, answer).
Proof.
  assert (settled (maxAge (NewIdempotencyTracker (R := Payload) age sz))
            (maxSize (NewIdempotencyTracker (R := Payload) age sz)) w ∧ carried_known w) as [Hset Hck].
  { revert w Hstart Hc Hlt Hrec Hw1 Hfew Hyoung. intros w Hstart _ _ _ _ _ _.
    revert w Hstart. refine (rtc_ind_r _ _ _ _).
    - unfold settled, w_tracker, started, carried_known. cbn [w_clock w_handler carried]. rewrite Hnew.
      split; [|by intros ? ?%not_elem_of_nil]. split; [apply New_tracker_inv|done].
    - intros w w' _ Hstep [Hs Hk]. split; [by eapply pstep_settled|by eapply pstep_carried_known]. }
  assert (pstep w w1) as Hstep.
  { subst w1. replace 1%nat with (records_key c) by (unfold records_key; by rewrite bool_decide_false).
    by eapply ps_record. }
  assert (maxAge (w_tracker w) = maxAge (NewIdempotencyTracker (R := Payload) age sz)
    ∧ maxSize (w_tracker w) = maxSize (NewIdempotencyTracker (R := Payload) age sz)) as [Ha Hz]
    by (by destruct Hset as (_ & ? & ?)).
  assert (known t0 (key_of c) 0 w1) as Hknown.
  { subst w1. exists t0, 0%nat. split_and!; [|done|done]. unfold w_tracker. cbn [w_handler].
    rewrite (push_record_tracker _ _ _ _ _ _ Hrec), bool_decide_false by done.
    eapply Record_first; [apply Hset|done]. }
  destruct (known_run _ _ t0 (key_of c) w1 w2 Hrun (pstep_settled _ _ _ _ Hstep Hset)
    (pstep_carried_known _ _ Hstep Hck)) as (Hset2 & _ & Hknown2 & _ & _ & Hcarried);
    [by subst w1|done|done|by rewrite <-Hz|by rewrite <-Ha|].
  split; [|split].
  - destruct (push_record_answers t0 (c_req c) stored (w_handler w)) as (h' & resp' & Hrec' & Hcode & _).
    rewrite Hrec in Hrec'. by injection Hrec' as <- <-.
  - intros i' c' Hin Hc' Hk. subst w1. by eapply Hcarried.
  - intros now r Hnow Hr.
    destruct (known_check t0 (key_of c) _ w2 r now Hknown2 Hkey) as (answer & Hans & Hcode); [|done|].
    { destruct Hset2 as (_ & -> & _). lia. }
    exists answer. split_and!; [done|done|]. intros later ctx. unfold handlePush. by rewrite Hans.
Qed.

(** Remark: two requests with one new key that are both past their look-up before
    either records it are both carried out: both store all their events, and
    both are answered 200, as if each were the only one. *)
Theorem overlapping_pushes_both_carried {L : WireLaws W} (c0 now t1 t2 : Z) (ctx1 ctx2 : CtxView)
    (r1 r2 : Request) (h : SyncHandler St) (js1 js2 : list JSONEventWithVersion) (s1 s2 : St)
    (evs1 evs2 : list EventWithVersion)
    (Hclock : c0 ≤ now < t1) (Ht : t1 < t2)
    (Hsame : header HeaderIdempotencyKey r1 = header HeaderIdempotencyKey r2)
    (Hset : header HeaderIdempotencyKey r1 ≠ "")
    (Hchk1 : push_check now r1 h = Done (inl js1)) (Hchk2 : push_check now r2 h = Done (inl js2))
    (Hpush1 : push_events ctx1 h js1 (store h) [] = Done (s1, evs1))
    (Hpush2 : push_events ctx2 h js2 s1 [] = Done (s2, evs2)) :
  ∃ w, rtc pstep (mkWorld c0 h [mkCall ctx1 r1 Arrived; mkCall ctx2 r2 Arrived] [] 0) w
    ∧ carried w = [0; 1]%nat ∧ store (w_handler w) = s2
    ∧ ∃ resp1 resp2, calls w = [mkCall ctx1 r1 (Answered resp1); mkCall ctx2 r2 (Answered resp2)]
        ∧ StatusCode resp1 = 200 ∧ StatusCode resp2 = 200.
Proof.
  destruct (push_record_answers t1 r1 evs1 (with_store s2 h)) as (h1 & resp1 & Hr1 & Hcode1 & Hst1).
  destruct (push_record_answers t2 r2 evs2 h1) as (h2 & resp2 & Hr2 & Hcode2 & Hst2).
  eexists. split; [|split_and!].
  - eapply rtc_l; [apply (ps_carry 0 (mkCall ctx1 r1 Arrived) now js1); [done|done|cbn; lia|done]|].
    eapply rtc_l; [apply (ps_carry 1 (mkCall ctx2 r2 Arrived) now js2); [done|done|cbn; lia|done]|].
    etrans; [by eapply (storing_run 0 js1 [] _ (mkCall ctx1 r1 (Storing js1 [])))|].
    etrans; [eapply (storing_run 1 js2 [] _ (mkCall ctx2 r2 (Storing js2 [])) s2 evs2);
             [done|done|cbn; by rewrite push_events_handler]|].
    eapply rtc_l; [eapply (ps_record 0 (mkCall ctx1 r1 (Storing [] evs1)) evs1 t1 h1 resp1);
                   [done|done|cbn; lia|exact Hr1]|].
    eapply rtc_l; [eapply (ps_record 1 (mkCall ctx2 r2 (Storing [] evs2)) evs2 t2 h2 resp2);
                   [done|done|done|exact Hr2]|].
    apply rtc_refl.
  - done.
  - cbn [w_handler]. by rewrite Hst2, Hst1.
  - exists resp1, resp2. split_and!; [|done|done]. reflexivity.
Qed.
End overlap.

(** ** Concrete instances: one push, and what its key does afterwards *)
#[local] Existing Instance HttpSync.demo_wire.
#[local] Existing Instance HttpSync.demo_laws.
#[local] Existing Instance HttpSync.demo_range.
Lemma demo_stored :
  ∃ s evs, push_events background (demo_handler MemStore.demo_store) demo_json MemStore.demo_store []
           = Done (s, evs).
Proof. by eexists _, _. Qed.

Lemma recorded_key_not_carried_again_witness :
  ∃ (h : SyncHandler MemStore.MemStore) answer, push_check 9 demo_request h = Done (inr answer) ∧ StatusCode answer = 200.
Proof.
  destruct demo_stored as (s & evs & Hpush).
  set (h0 := demo_handler MemStore.demo_store).
  destruct (push_record_answers 5 demo_request evs (with_store s h0)) as (h & resp & Hrec & _).
  set (c := mkCall background demo_request (Storing [] evs)).
  set (w := mkWorld 2 (with_store s h0) [c] [0%nat] 0).
  assert (rtc pstep (started 0 h0) w) as Hstart.
  { eapply rtc_l; [apply (ps_arrive background demo_request)|].
    eapply rtc_l; [apply (ps_carry 0 (mkCall background demo_request Arrived) 2 demo_json); done|].
    apply (storing_run 0 demo_json [] (mkWorld 2 h0 [mkCall background demo_request (Storing demo_json [])] [0%nat] 0)
      (mkCall background demo_request (Storing demo_json [])) s evs); [done|done|exact Hpush]. }
  destruct (recorded_key_not_carried_again 0 (10 * 60 * 1000000000) 1000 h0 w
    (mkWorld 5 h (moved 0 (Answered resp) w) (carried w) (records w + 1))
    (mkWorld 5 h (moved 0 (Answered resp) w) (carried w) (records w + 1)) 0 c evs 5 h resp) as (_ & _ & Hagain);
    [done|exact Hstart|done|done|done|done|exact Hrec|done|apply rtc_refl|done|done|].
  destruct (Hagain 9 demo_request) as (answer & Hans & Hcode & _); [done|done|].
  exists h, answer. split; [exact Hans|exact Hcode].
Defined.

Lemma overlapping_pushes_both_carried_witness :
  let h := demo_handler MemStore.demo_store in
  ∃ w, rtc pstep (mkWorld 0 h [mkCall background demo_request Arrived; mkCall background demo_request Arrived] [] 0) w
    ∧ carried w = [0; 1]%nat ∧ length (log (store (w_handler w))) = 5%nat.
Proof.
  destruct demo_stored as (s & evs & Hpush).
  destruct (push_events background (demo_handler MemStore.demo_store) demo_json s []) as [[s2 evs2]|] eqn:Hpush2.
  - destruct (overlapping_pushes_both_carried 0 1 2 3 background background demo_request demo_request
      (demo_handler MemStore.demo_store) demo_json demo_json s s2 evs evs2) as (w & Hrun & Hcarried & Hst & _);
      [done|done|done|done|reflexivity|reflexivity|exact Hpush|exact Hpush2|].
    exists w. split_and!; [exact Hrun|exact Hcarried|]. rewrite Hst.
    vm_compute in Hpush. injection Hpush as <- <-. vm_compute in Hpush2. injection Hpush2 as <- <-.
    reflexivity.
  - exfalso. vm_compute in Hpush. injection Hpush as <- <-. by vm_compute in Hpush2.
Defined.
