(* ===== verification/Health.v ===== *)
(** * Health checks (src/observability/health: checker.go, handler.go)

    The registry of checks, the runs of all checks of one type and what they add
    up to, checks made of checks, and the HTTP endpoints that report them.  A
    check is a function of its context that may panic; the clock is given by
    the position of each reading; net/http's writer sends the headers set before
    the status.  Starting and stopping a server is left out. *)
From S2P Require Import Prelude Types Json Errors Text.
From S2P Require StateMachine.
From stdpp Require Import options.

(** ** Results (checker.go) *)

(** A status is a string; only four of them mean something. *)
Inductive Status := StatusUp | StatusDown | StatusDegraded | StatusUnknown | OtherStatus (s : string).
#[global] Instance Status_eq_dec : EqDecision Status.
Proof. solve_decision. Defined.
Definition status_string (s : Status) : string :=
  match s with
  | StatusUp => "up" | StatusDown => "down" | StatusDegraded => "degraded" | StatusUnknown => "unknown"
  | OtherStatus s => s
  end.
Abbreviation CheckType := string.
Definition CheckTypeLiveness : CheckType := "liveness".
Definition CheckTypeReadiness : CheckType := "readiness".
Definition CheckTypeStartup : CheckType := "startup".

(** Details by key, in the order they are set; a composite check keeps the
    results of its parts among them. *)
Inductive Detail :=
  | Plain (a : any)
  | Strings (l : list string)
  | SubChecks (rs : list (string * CheckResult))
with CheckResult :=
  | mkCheckResult (st : Status) (component message : string) (details : list (string * Detail))
      (timestamp duration : Z).
Definition Status_ (r : CheckResult) : Status := match r with mkCheckResult s _ _ _ _ _ => s end.
Definition Message (r : CheckResult) : string := match r with mkCheckResult _ _ m _ _ _ => m end.
Definition Duration (r : CheckResult) : Z := match r with mkCheckResult _ _ _ _ _ d => d end.
Definition zero_time : Z := - 62135596800000000000.
Definition zero_result : CheckResult := mkCheckResult (OtherStatus "") "" "" [] zero_time 0.
(** Assigning a key of a map kept as a list. *)
Fixpoint put {V} (k : string) (v : V) (l : list (string * V)) : list (string * V) :=
  match l with
  | [] => [(k, v)]
  | (k', v') :: rest => if bool_decide (k = k') then (k, v) :: rest else (k', v') :: put k v rest
  end.

Record HealthCheck := mkHealthCheck {
  Check_ : CtxView → outcome CheckResult; Name : string; Component : string
}.

Section health.
Context {MR : MapRange}.

(** ** The registry *)
Record Config := mkConfig {
  Timeout : Z; CheckInterval : Z; FailureThreshold : Z; SuccessThreshold : Z
}.
Definition DefaultConfig : Config := mkConfig 30000000000 30000000000 3 1.
Record HealthChecker := mkChecker {
  checks : gmap string (gmap CheckType (list HealthCheck)); config : Config
}.
Definition NewHealthChecker (c : Config) : HealthChecker :=
  mkChecker ∅ (if Timeout c =? 0 then DefaultConfig else c).
Definition checks_of (component : string) (ty : CheckType) (h : HealthChecker) : list HealthCheck :=
  default [] (default ∅ (checks h !! component) !! ty).
Definition set_checks (component : string) (ty : CheckType) (l : list HealthCheck) (h : HealthChecker)
    : HealthChecker :=
  mkChecker (<[component := <[ty := l]> (default ∅ (checks h !! component))]> (checks h)) (config h).
Definition AddCheck (ty : CheckType) (c : HealthCheck) (h : HealthChecker) : HealthChecker :=
  set_checks (Component c) ty (checks_of (Component c) ty h ++ [c]) h.

(** The first check of that name, in the first component that has one. *)
Fixpoint remove_named (name : string) (l : list HealthCheck) : option (list HealthCheck) :=
  match l with
  | [] => None
  | c :: rest => if bool_decide (Name c = name) then Some rest else (λ r, c :: r) <$> remove_named name rest
  end.
Fixpoint remove_from (ty : CheckType) (name : string) (components : list string) (h : HealthChecker)
    : HealthChecker :=
  match components with
  | [] => h
  | component :: rest =>
      match remove_named name (checks_of component ty h) with
      | Some l => set_checks component ty l h
      | None => remove_from ty name rest h
      end
  end.
Definition RemoveCheck (ty : CheckType) (name : string) (h : HealthChecker) : HealthChecker :=
  remove_from ty name (range (checks h)).*1 h.

(** ** Running checks *)

(** One check between two readings of the clock; a panic is recovered from, and
    the result is then the zero value. *)
Definition executeCheck (start stop : Z) (ctx : CtxView) (c : HealthCheck) : CheckResult :=
  match Check_ c ctx with
  | Panic _ => zero_result
  | Done (mkCheckResult st comp msg det _ d) =>
      let duration := StateMachine.time_sub stop start in
      let d := if (d =? 0) || (d <? duration) then duration else d in
      mkCheckResult st comp msg det start (if d =? 0 then 1 else d)
  end.

Record Summary := mkSummary { Total : nat; Up : nat; Down : nat; Degraded : nat; Unknown : nat }.
Definition tally (s : Status) (t : Summary) : Summary :=
  let '(mkSummary n u d g k) := t in
  match s with
  | StatusUp => mkSummary (S n) (S u) d g k
  | StatusDown => mkSummary (S n) u (S d) g k
  | StatusDegraded => mkSummary (S n) u d (S g) k
  | StatusUnknown => mkSummary (S n) u d g (S k)
  | OtherStatus _ => mkSummary (S n) u d g k
  end.
Definition worst (overall s : Status) : Status :=
  match s with
  | StatusDown => StatusDown
  | StatusDegraded => if bool_decide (overall = StatusUp) then StatusDegraded else overall
  | StatusUnknown => if bool_decide (overall = StatusUp) then StatusUnknown else overall
  | _ => overall
  end.
Record OverallResult := mkOverall {
  o_Status : Status; o_CheckType : CheckType; Results : gmap string CheckResult; o_Summary : Summary;
  o_Timestamp : Z; o_Duration : Z
}.

(** The state of the loops: the readings so far, the results, the summary, the
    overall status. *)
Record Run := mkRun { ticks : nat; results : gmap string CheckResult; summary : Summary; overall : Status }.
Definition run_check (clk : nat → Z) (ctx : CtxView) (component : string) (r : Run) (c : HealthCheck) : Run :=
  let result := executeCheck (clk (ticks r)) (clk (S (ticks r))) ctx c in
  mkRun (S (S (ticks r))) (<[component +:+ "." +:+ Name c := result]> (results r))
    (tally (Status_ result) (summary r)) (worst (overall r) (Status_ result)).
Definition run_component (clk : nat → Z) (ctx : CtxView) (ty : CheckType) (r : Run)
    (cb : string * gmap CheckType (list HealthCheck)) : Run :=
  match cb.2 !! ty with
  | Some l => fold_left (run_check clk ctx cb.1) l r
  | None => r
  end.
Definition runChecks (clk : nat → Z) (ctx : CtxView) (ty : CheckType) (h : HealthChecker) : OverallResult :=
  let r := fold_left (run_component clk ctx ty) (range (checks h)) (mkRun 1 ∅ (mkSummary 0 0 0 0 0) StatusUp) in
  let d := StateMachine.time_sub (clk (ticks r)) (clk 0%nat) in
  mkOverall (if Nat.eqb (Total (summary r)) 0 then StatusUnknown else overall r) ty (results r) (summary r)
    (clk 0%nat) (if d =? 0 then 1 else d).
Definition CheckLiveness clk ctx := runChecks clk ctx CheckTypeLiveness.
Definition CheckReadiness clk ctx := runChecks clk ctx CheckTypeReadiness.
Definition CheckStartup clk ctx := runChecks clk ctx CheckTypeStartup.
(** The three runs, each with a clock of its own. *)
Definition CheckAll (clk : CheckType → nat → Z) (ctx : CtxView) (h : HealthChecker) : gmap CheckType OverallResult :=
  <[CheckTypeStartup := CheckStartup (clk CheckTypeStartup) ctx h]>
    (<[CheckTypeReadiness := CheckReadiness (clk CheckTypeReadiness) ctx h]>
      {[CheckTypeLiveness := CheckLiveness (clk CheckTypeLiveness) ctx h]}).

(** Only the first check of each type is run. *)
Definition GetComponentStatus (clk : CheckType → nat → Z) (ctx : CtxView) (component : string) (h : HealthChecker)
    : gmap CheckType CheckResult :=
  map_imap (λ ty l, match l with
                    | [] => None
                    | c :: _ => Some (executeCheck (clk ty 0%nat) (clk ty 1%nat) ctx c)
                    end) (default ∅ (checks h !! component)).
Definition ListComponents (h : HealthChecker) : list string := (range (checks h)).*1.

(** ** A check made of checks (checks.go) *)
Record CompositeCheck := mkComposite { comp_name : string; comp : string; parts : list HealthCheck }.
Definition NewCompositeCheck (name component : string) (l : list HealthCheck) : CompositeCheck :=
  mkComposite name component l.
Definition CompositeCheck_AddCheck (c : HealthCheck) (cc : CompositeCheck) : CompositeCheck :=
  mkComposite (comp_name cc) (comp cc) (parts cc ++ [c]).
Fixpoint run_parts (ctx : CtxView) (l : list HealthCheck) (rs : list (string * CheckResult)) (o : Status)
    (messages : list string) : outcome (list (string * CheckResult) * Status * list string) :=
  match l with
  | [] => Done (rs, o, messages)
  | c :: rest =>
      let* r := Check_ c ctx in
      run_parts ctx rest (put (Name c) r rs) (worst o (Status_ r))
        (match Status_ r with
         | StatusDown | StatusDegraded | StatusUnknown => messages ++ [Name c +:+ ": " +:+ Message r]
         | _ => messages
         end)
  end.
Definition CompositeCheck_Check (start stop : Z) (ctx : CtxView) (cc : CompositeCheck) : outcome CheckResult :=
  let d := StateMachine.time_sub stop start in
  match parts cc with
  | [] => Done (mkCheckResult StatusUnknown (comp cc) "No checks configured" [] start d)
  | l =>
      let* (rs, o, messages) := run_parts ctx l [] StatusUp [] in
      Done (mkCheckResult o (comp cc)
              (match messages with
               | [] => "All sub-checks passed"
               | _ => "Composite check: [" +:+ join " " messages +:+ "]"
               end) [("sub_checks", SubChecks rs)] start d)
  end.

(** ** HTTP endpoints (handler.go) *)
Inductive Content :=
  | COverall (r : OverallResult)
  | CComponent (status : Status) (component : string) (rs : gmap CheckType CheckResult) (timestamp : Z)
  | CAll (status : Status) (rs : gmap CheckType OverallResult) (timestamp : Z)
  | CComponents (l : list string) (count : nat) (timestamp : Z)
  | CDetailed (status : Status) (timestamp : option Z) (duration : string) (rs : option (gmap string CheckResult))
  | CText (s : string).
(** What is sent is the status and the headers set before it. *)
Record Writer := mkWriter {
  headers : gmap string string; sent : option (Z * gmap string string); written : list Content
}.
Definition SetHeader (k v : string) (w : Writer) : Writer := mkWriter (<[k := v]> (headers w)) (sent w) (written w).
Definition WriteHeader (code : Z) (w : Writer) : Writer :=
  match sent w with None => mkWriter (headers w) (Some (code, headers w)) (written w) | Some _ => w end.
Definition Write (c : Content) (w : Writer) : Writer :=
  let w := WriteHeader 200 w in mkWriter (headers w) (sent w) (written w ++ [c]).
Definition newline : string := String (Ascii.ascii_of_nat 10) "".
Definition http_Error (msg : string) (code : Z) (w : Writer) : Writer :=
  Write (CText (msg +:+ newline)) (WriteHeader code (SetHeader "X-Content-Type-Options" "nosniff"
    (SetHeader "Content-Type" "text/plain; charset=utf-8" w))).
Definition method_not_allowed (w : Writer) : Writer := http_Error "Method not allowed" 405 w.

Record HTTPHandler := mkHTTPHandler { checker : HealthChecker; timeout : Z }.
Definition NewHTTPHandler (c : HealthChecker) (t : Z) : HTTPHandler :=
  mkHTTPHandler c (if t =? 0 then 30000000000 else t).
Record Request := mkRequest { Method : string; Path : string; q_type : string; q_component : string }.

Definition getStatusCode (s : Status) : Z :=
  match s with
  | StatusUp | StatusDegraded => 200
  | StatusDown | StatusUnknown => 503
  | OtherStatus _ => 500
  end.
Definition writeHealthResponse (r : OverallResult) (w : Writer) : Writer :=
  let w := SetHeader "Content-Type" "application/json" w in
  let w := WriteHeader (getStatusCode (o_Status r)) w in
  let w := SetHeader "Cache-Control" "no-cache, no-store, must-revalidate" w in
  let w := SetHeader "Pragma" "no-cache" w in
  let w := SetHeader "Expires" "0" w in
  Write (COverall r) w.
(** The context is the request's, with the handler's timeout. *)
Definition probe (ty : CheckType) (clk : nat → Z) (ctx : CtxView) (h : HTTPHandler) (r : Request) (w : Writer) : Writer :=
  if negb (bool_decide (Method r = "GET")) then method_not_allowed w
  else writeHealthResponse (runChecks clk ctx ty (checker h)) w.
Definition LivenessHandler := probe CheckTypeLiveness.
Definition ReadinessHandler := probe CheckTypeReadiness.
Definition StartupHandler := probe CheckTypeStartup.

(** The worst of several, leaving at the first that is down. *)
Fixpoint combine (o : Status) (l : list Status) : Status :=
  match l with
  | [] => o
  | s :: rest => if bool_decide (s = StatusDown) then StatusDown else combine (worst o s) rest
  end.
Definition HealthHandler (clk : CheckType → nat → Z) (now : Z) (ctx : CtxView) (h : HTTPHandler) (r : Request)
    (w : Writer) : Writer :=
  if negb (bool_decide (Method r = "GET")) then method_not_allowed w
  else if bool_decide (q_type r = "liveness")
  then writeHealthResponse (CheckLiveness (clk CheckTypeLiveness) ctx (checker h)) w
  else if bool_decide (q_type r = "readiness")
  then writeHealthResponse (CheckReadiness (clk CheckTypeReadiness) ctx (checker h)) w
  else if bool_decide (q_type r = "startup")
  then writeHealthResponse (CheckStartup (clk CheckTypeStartup) ctx (checker h)) w
  else
    let w := SetHeader "Content-Type" "application/json" w in
    if negb (bool_decide (q_component r = "")) then
      let rs := GetComponentStatus clk ctx (q_component r) (checker h) in
      let s := combine StatusUp (Status_ <$> (range rs).*2) in
      Write (CComponent s (q_component r) rs now) (WriteHeader (getStatusCode s) w)
    else
      let rs := CheckAll clk ctx (checker h) in
      let s := combine StatusUp (o_Status <$> (range rs).*2) in
      Write (CAll s rs now) (WriteHeader (getStatusCode s) w).
Definition ComponentsHandler (now : Z) (h : HTTPHandler) (r : Request) (w : Writer) : Writer :=
  if negb (bool_decide (Method r = "GET")) then method_not_allowed w
  else let l := ListComponents (checker h) in
       Write (CComponents l (length l) now) (WriteHeader 200 (SetHeader "Content-Type" "application/json" w)).
Definition SimpleHealthHandler (r : Request) (w : Writer) : Writer :=
  if negb (bool_decide (Method r = "GET")) then method_not_allowed w
  else Write (CText "OK") (WriteHeader 200 (SetHeader "Cache-Control" "no-cache, no-store, must-revalidate"
         (SetHeader "Content-Type" "text/plain" w))).
Record DetailedHealthOptions := mkDetailed {
  IncludeDetails : bool; IncludeTimestamp : bool; IncludeDuration : bool; Format : string
}.
Definition DetailedHealthHandler (rfc3339 : Z → string) (opts : DetailedHealthOptions) (clk : nat → Z) (ctx : CtxView)
    (h : HTTPHandler) (r : Request) (w : Writer) : Writer :=
  if negb (bool_decide (Method r = "GET")) then method_not_allowed w
  else
    let result := CheckLiveness clk ctx (checker h) in
    if bool_decide (Format opts = "text") then
      Write (CText (status_string (o_Status result)
                    +:+ (if IncludeTimestamp opts then " at " +:+ rfc3339 (o_Timestamp result) else "")
                    +:+ (if IncludeDuration opts then " (took " +:+ duration_String (o_Duration result) +:+ ")" else "")))
        (WriteHeader (getStatusCode (o_Status result)) (SetHeader "Content-Type" "text/plain" w))
    else
      Write (CDetailed (o_Status result) (if IncludeTimestamp opts then Some (o_Timestamp result) else None)
               (if IncludeDuration opts then duration_String (o_Duration result) else "")
               (if IncludeDetails opts then Some (Results result) else None))
        (WriteHeader (getStatusCode (o_Status result)) (SetHeader "Content-Type" "application/json" w)).

(** The mux of [RegisterRoutes] and the ping endpoint of [NewHealthCheckServer]. *)
Definition serve (clk : CheckType → nat → Z) (now : Z) (ctx : CtxView) (h : HTTPHandler) (r : Request) (w : Writer)
    : Writer :=
  let p := Path r in
  if bool_decide (p = "/health") then HealthHandler clk now ctx h r w
  else if bool_decide (p = "/health/live") then LivenessHandler (clk CheckTypeLiveness) ctx h r w
  else if bool_decide (p = "/health/ready") then ReadinessHandler (clk CheckTypeReadiness) ctx h r w
  else if bool_decide (p = "/health/startup") then StartupHandler (clk CheckTypeStartup) ctx h r w
  else if bool_decide (p = "/health/components") then ComponentsHandler now h r w
  else if bool_decide (p = "/ping")
  then Write (CText "pong") (WriteHeader 200 (SetHeader "Content-Type" "text/plain" w))
  else http_Error "404 page not found" 404 w.
Definition HealthMiddleware (clk : nat → Z) (ctx : CtxView) (h : HTTPHandler) (next : Request → Writer → Writer)
    (r : Request) (w : Writer) : Writer :=
  let w := SetHeader "X-Health-Endpoint" "/health" (SetHeader "X-Health-Status" "available" w) in
  let p := Path r in
  if negb (bool_decide (p = "/health")) && negb (bool_decide (p = "/health/live"))
     && negb (bool_decide (p = "/health/ready")) && negb (bool_decide (p = "/health/startup"))
     && bool_decide (o_Status (CheckLiveness clk ctx (checker h)) = StatusDown)
  then http_Error "Service temporarily unavailable" 503 w
  else next r w.
End health.

(** ** What a run adds up to *)
Section facts.
Context {MR : MapRange}.
Implicit Types (h : HealthChecker) (ss : list Status).

(** The checks of a type, with their components, in the order they run. *)
Definition sched (ty : CheckType) (l : list (string * gmap CheckType (list HealthCheck))) : list (string * HealthCheck) :=
  l ≫= λ cb, (λ c, (cb.1, c)) <$> default [] (cb.2 !! ty).
Definition scheduled (ty : CheckType) h : list (string * HealthCheck) := sched ty (range (checks h)).
(** What a check counts as. *)
Definition status_of (ctx : CtxView) (c : HealthCheck) : Status :=
  match Check_ c ctx with Done r => Status_ r | Panic _ => OtherStatus "" end.
Definition statuses (ctx : CtxView) (ty : CheckType) h : list Status := status_of ctx <$> (scheduled ty h).*2.

Lemma fold_components clk ctx ty l r :
  fold_left (run_component clk ctx ty) l r = fold_left (λ r cc, run_check clk ctx cc.1 r cc.2) (sched ty l) r.
Proof.
  revert r; induction l as [|[comp by_type] l IH]; intros r; [done|]. cbn [fold_left]. rewrite IH.
  unfold sched at 2. cbn [mbind list_bind]. rewrite fold_left_app. f_equal. unfold run_component. cbn.
  destruct (by_type !! ty) as [cs|]; [|done]. cbn. clear. revert r. induction cs as [|c cs IH]; intros r; [done|].
  cbn. apply IH.
Qed.
Lemma execute_status start stop ctx c : Status_ (executeCheck start stop ctx c) = status_of ctx c.
Proof. unfold executeCheck, status_of. by destruct (Check_ c ctx) as [[]|]. Qed.
Lemma fold_run clk ctx l r :
  let r' := fold_left (λ r cc, run_check clk ctx cc.1 r cc.2) l r in
  summary r' = fold_left (λ t s, tally s t) (status_of ctx <$> l.*2) (summary r)
  ∧ overall r' = fold_left worst (status_of ctx <$> l.*2) (overall r).
Proof.
  cbn zeta. revert r; induction l as [|[comp c] l IH]; intros r; [done|]. cbn [fold_left fmap list_fmap fst snd].
  destruct (IH (run_check clk ctx comp r c)) as [-> ->]. cbn [run_check summary overall].
  by rewrite execute_status.
Qed.

Definition count ss (s : Status) : nat := length (filter (λ x, x = s) ss).
Lemma count_cons ss s x : count (x :: ss) s = ((if bool_decide (x = s) then 1 else 0) + count ss s)%nat.
Proof. unfold count. rewrite filter_cons. case_bool_decide; by destruct (decide _). Qed.
Lemma tally_counts ss t :
  fold_left (λ t s, tally s t) ss t
  = mkSummary (Total t + length ss) (Up t + count ss StatusUp) (Down t + count ss StatusDown)
      (Degraded t + count ss StatusDegraded) (Unknown t + count ss StatusUnknown).
Proof.
  revert t; induction ss as [|s ss IH]; intros [n u d g k]; cbn [fold_left Total Up Down Degraded Unknown length].
  { cbn. f_equal; lia. }
  rewrite IH, !count_cons. destruct s; cbn [tally Total Up Down Degraded Unknown];
    f_equal; repeat case_bool_decide; (done || lia).
Qed.

(** The first status that is neither up nor foreign. *)
Definition notable (s : Status) : bool :=
  match s with StatusDown | StatusDegraded | StatusUnknown => true | _ => false end.
Fixpoint first_notable ss : option Status :=
  match ss with [] => None | s :: rest => if notable s then Some s else first_notable rest end.
Definition verdict ss : Status :=
  match ss with
  | [] => StatusUnknown
  | _ => if decide (StatusDown ∈ ss) then StatusDown else default StatusUp (first_notable ss)
  end.
Lemma worst_down ss : fold_left worst ss StatusDown = StatusDown.
Proof. induction ss as [|s ss IH]; [done|]. cbn. by destruct s. Qed.
Lemma worst_kept o ss : notable o = true →
  fold_left worst ss o = if decide (StatusDown ∈ ss) then StatusDown else o.
Proof.
  intros Ho. induction ss as [|s ss IH]; [by rewrite decide_False by apply not_elem_of_nil|]. cbn [fold_left].
  assert (worst o s = if bool_decide (s = StatusDown) then StatusDown else o) as ->
    by (destruct o, s; done).
  case_bool_decide as Hs.
  - subst. rewrite worst_down, decide_True by left. done.
  - rewrite IH. destruct (decide (StatusDown ∈ ss)); [by rewrite decide_True by (by right)|].
    rewrite decide_False; [done|]. intros [?|?]%elem_of_cons; done.
Qed.
Lemma worst_from_up ss :
  fold_left worst ss StatusUp = if decide (StatusDown ∈ ss) then StatusDown else default StatusUp (first_notable ss).
Proof.
  induction ss as [|s ss IH]; [by rewrite decide_False by apply not_elem_of_nil|]. cbn [fold_left first_notable].
  destruct (notable s) eqn:Hs.
  - assert (worst StatusUp s = s) as -> by (by destruct s). rewrite worst_kept by done.
    destruct (decide (StatusDown ∈ ss)); [by rewrite decide_True by (by right)|].
    destruct (decide (s = StatusDown)) as [->|Hd]; [by rewrite decide_True by left|].
    rewrite decide_False; [done|]. intros [?|?]%elem_of_cons; done.
  - assert (worst StatusUp s = StatusUp) as -> by (by destruct s). rewrite IH.
    assert (s ≠ StatusDown) by (by intros ->).
    destruct (decide (StatusDown ∈ ss)); [by rewrite decide_True by (by right)|].
    rewrite decide_False; [done|]. intros [?|?]%elem_of_cons; done.
Qed.
Lemma runChecks_verdict clk ctx ty h :
  o_Status (runChecks clk ctx ty h) = verdict (statuses ctx ty h)
  ∧ o_Summary (runChecks clk ctx ty h)
    = let ss := statuses ctx ty h in
      mkSummary (length ss) (count ss StatusUp) (count ss StatusDown) (count ss StatusDegraded)
        (count ss StatusUnknown).
Proof.
  unfold runChecks. rewrite fold_components. cbn [o_Status o_Summary].
  destruct (fold_run clk ctx (sched ty (range (checks h))) (mkRun 1 ∅ (mkSummary 0 0 0 0 0) StatusUp)) as [-> ->].
  cbn [summary overall]. rewrite tally_counts, worst_from_up. cbn [Total Up Down Degraded Unknown].
  fold (scheduled ty h). fold (statuses ctx ty h). rewrite !Nat.add_0_l. split; [|done].
  unfold verdict. by destruct (statuses ctx ty h).
Qed.
Lemma first_notable_elem ss s : first_notable ss = Some s → s ∈ ss ∧ notable s = true.
Proof.
  induction ss as [|x ss IH]; [done|]. cbn. destruct (notable x) eqn:Hx.
  - intros [= <-]. split; [by left|done].
  - intros [? ?]%IH. split; [by right|done].
Qed.
Lemma first_notable_None ss : first_notable ss = None ↔ ∀ s, s ∈ ss → notable s = false.
Proof.
  induction ss as [|x ss IH]; cbn; [split; [by intros _ s ?%not_elem_of_nil|done]|]. destruct (notable x) eqn:Hx.
  - split; [done|]. intros Ha. rewrite (Ha x) in Hx by left. done.
  - rewrite IH. split; [intros Ha s [->|?]%elem_of_cons; auto|intros Ha s ?; apply Ha; by right].
Qed.
Lemma verdict_code ss : getStatusCode (verdict ss) = 200 ∨ getStatusCode (verdict ss) = 503.
Proof.
  unfold verdict. destruct ss as [|x ss]; [by right|]. destruct (decide _); [by right|].
  destruct (first_notable (x :: ss)) as [s|] eqn:Hf; [|by left].
  apply first_notable_elem in Hf as [_ Hn]. destruct s; cbn; auto; done.
Qed.
Lemma combine_down ss o : StatusDown ∈ ss → combine o ss = StatusDown.
Proof.
  revert o; induction ss as [|x ss IH]; intros o; [by intros ?%not_elem_of_nil|]. cbn. case_bool_decide; [done|].
  intros [?|?]%elem_of_cons; [done|by apply IH].
Qed.
Lemma combine_worst ss o : StatusDown ∉ ss → combine o ss = fold_left worst ss o.
Proof.
  revert o; induction ss as [|x ss IH]; intros o Hn; [done|]. cbn. rewrite bool_decide_false.
  - apply IH. intros ?. apply Hn. by right.
  - intros ->. apply Hn. left.
Qed.
Lemma combine_up ss : combine StatusUp ss
  = if decide (StatusDown ∈ ss) then StatusDown else default StatusUp (first_notable ss).
Proof.
  destruct (decide (StatusDown ∈ ss)) as [Hd|Hd]; [by apply combine_down|].
  by rewrite combine_worst, worst_from_up, decide_False.
Qed.
End facts.

Section theorems.
Context {MR : MapRange}.

Definition new_writer : Writer := mkWriter ∅ None [].
Definition get_request (path : string) : Request := mkRequest "GET" path "" "".

(** Remark: a run counts every registered check of its type once; it is down exactly when
    a check is down, unknown when there are no checks, and otherwise takes the
    first of degraded and unknown that comes up, or is up; its probe answers
    200 or 503 accordingly and sends no header that forbids caching; and a check
    that panics, whose result is the zero value, does not count against it:
    when every check panics the probe answers 200. *)
Theorem probe_reports (ty : CheckType) (clk : nat → Z) (ctx : CtxView) (h : HTTPHandler) (path : string) :
  let ss := statuses ctx ty (checker h) in
  let result := runChecks clk ctx ty (checker h) in
  o_Status result = verdict ss
  ∧ (Total (o_Summary result), Up (o_Summary result), Down (o_Summary result), Degraded (o_Summary result),
      Unknown (o_Summary result))
    = (length ss, count ss StatusUp, count ss StatusDown, count ss StatusDegraded, count ss StatusUnknown)
  ∧ sent (probe ty clk ctx h (get_request path) new_writer)
    = Some (getStatusCode (verdict ss), {["Content-Type" := "application/json"]})
  ∧ (getStatusCode (verdict ss) = 200 ∨ getStatusCode (verdict ss) = 503)
  ∧ (verdict ss = StatusDown ↔ StatusDown ∈ ss)
  ∧ (scheduled ty (checker h) ≠ [] →
     (∀ cc, cc ∈ scheduled ty (checker h) → ∃ why, Check_ cc.2 ctx = Panic why) → getStatusCode (verdict ss) = 200).
Proof.
  cbn zeta. destruct (runChecks_verdict clk ctx ty (checker h)) as [Hv Hs]. rewrite Hs. cbn zeta.
  split; [exact Hv|]. split; [done|]. split.
  { unfold probe, writeHealthResponse. cbn [Method get_request]. rewrite bool_decide_true by done. cbn [negb].
    rewrite Hv. reflexivity. }
  split; [apply verdict_code|]. split.
  - unfold verdict. destruct (statuses ctx ty (checker h)) as [|s ss] eqn:Hss.
    + split; [done|]. by intros ?%not_elem_of_nil.
    + destruct (decide (StatusDown ∈ s :: ss)) as [Hd|Hd]; [done|]. split; [|done]. intros Hf.
      destruct (first_notable (s :: ss)) as [x|] eqn:Hx; cbn in Hf; [|done]. subst.
      by apply first_notable_elem in Hx as [? _].
  - intros Hne Hpanic.
    assert (∀ s, s ∈ statuses ctx ty (checker h) → s = OtherStatus "") as Hall.
    { intros s Hs0. apply list_elem_of_fmap in Hs0 as (c & -> & Hc).
      apply list_elem_of_fmap in Hc as (cc & -> & Hin).
      destruct (Hpanic cc Hin) as [why Hp]. unfold status_of. by rewrite Hp. }
    unfold verdict. destruct (statuses ctx ty (checker h)) as [|s ss] eqn:Hss.
    { unfold statuses in Hss. apply fmap_nil_inv in Hss. by apply fmap_nil_inv in Hss. }
    rewrite decide_False by (intros Hd; by apply Hall in Hd).
    assert (first_notable (s :: ss) = None) as ->; [|done].
    apply first_notable_None. intros x Hx. by rewrite (Hall x Hx).
Qed.

(** Remark: the endpoint of all checks answers 503 unless each of the three types has a
    check (or something is degraded), although a service need not have all
    three; and asked for a component nobody registered, it answers that it is
    up. *)
Theorem health_endpoint (clk : CheckType → nat → Z) (now : Z) (ctx : CtxView) (h : HTTPHandler) (path component : string)
    (ty : CheckType) (Hty : ty = CheckTypeLiveness ∨ ty = CheckTypeReadiness ∨ ty = CheckTypeStartup)
    (Hnone : scheduled ty (checker h) = [])
    (Hdeg : ∀ ty s, s ∈ statuses ctx ty (checker h) → s ≠ StatusDegraded)
    (Hcomp : component ≠ "") (Hunreg : checks (checker h) !! component = None) :
  fst <$> sent (HealthHandler clk now ctx h (get_request path) new_writer) = Some 503
  ∧ ∃ rs, HealthHandler clk now ctx h (mkRequest "GET" path "" component) new_writer
          = mkWriter {["Content-Type" := "application/json"]} (Some (200, {["Content-Type" := "application/json"]}))
              [CComponent StatusUp component rs now].
Proof.
  split.
  - unfold HealthHandler. cbn [Method get_request q_type q_component].
    rewrite (bool_decide_true ("GET" = "GET")), (bool_decide_false ("" = "liveness")),
      (bool_decide_false ("" = "readiness")), (bool_decide_false ("" = "startup")), (bool_decide_true ("" = "")) by done.
    cbn [negb]. cbn zeta. set (rs := CheckAll clk ctx (checker h)).
    assert (∀ s, s ∈ o_Status <$> (range rs).*2 → ∃ ty', s = verdict (statuses ctx ty' (checker h))) as Hfrom.
    { intros s Hs0. apply list_elem_of_fmap in Hs0 as (r & -> & Hr).
      apply list_elem_of_fmap in Hr as ([ty' r'] & -> & Hin). apply elem_of_range in Hin.
      unfold rs, CheckAll in Hin. cbn.
      apply lookup_insert_Some in Hin as [[_ <-]|[_ Hin]];
        [eexists; apply runChecks_verdict|].
      apply lookup_insert_Some in Hin as [[_ <-]|[_ Hin]]; [eexists; apply runChecks_verdict|].
      apply lookup_singleton_Some in Hin as [_ <-]. eexists. apply runChecks_verdict. }
    assert (StatusUnknown ∈ o_Status <$> (range rs).*2) as Hunk.
    { assert (∃ r, rs !! ty = Some r ∧ o_Status r = StatusUnknown) as (r & Hr & Hs).
      { assert (∀ clk0, o_Status (runChecks clk0 ctx ty (checker h)) = StatusUnknown) as Hu.
        { intros clk0. destruct (runChecks_verdict clk0 ctx ty (checker h)) as [-> _]. unfold statuses.
          by rewrite Hnone. }
        unfold rs, CheckAll. destruct Hty as [-> | [-> | ->]]; eexists; (split; [reflexivity|apply Hu]). }
      rewrite <-Hs. apply list_elem_of_fmap_2. apply (list_elem_of_fmap_2' snd _ (ty, r)); [|done].
      by apply elem_of_range. }
    set (ss := o_Status <$> (range rs).*2) in *.
    assert (getStatusCode (combine StatusUp ss) = 503) as Hcode; [|cbn; by rewrite Hcode].
    rewrite combine_up. destruct (decide (StatusDown ∈ ss)); [done|].
    destruct (first_notable ss) as [s|] eqn:Hf.
    + apply first_notable_elem in Hf as [Hin Hn]. cbn.
      destruct (Hfrom s Hin) as [ty' Hs].
      assert (s ≠ StatusDegraded) as Hnd.
      { subst s. unfold verdict. destruct (statuses ctx ty' (checker h)) as [|x xs] eqn:Hss; [done|].
        destruct (decide _); [done|]. destruct (first_notable (x :: xs)) as [y|] eqn:Hy; [|done]. cbn.
        apply first_notable_elem in Hy as [Hy _]. apply (Hdeg ty'). by rewrite Hss. }
      destruct s; done.
    + rewrite first_notable_None in Hf. by apply Hf in Hunk.
  - eexists. unfold HealthHandler. cbn [Method q_type q_component].
    rewrite (bool_decide_true ("GET" = "GET")), (bool_decide_false ("" = "liveness")),
      (bool_decide_false ("" = "readiness")), (bool_decide_false ("" = "startup")), (bool_decide_false (component = "")) by done.
    cbn [negb]. cbn zeta. unfold GetComponentStatus. rewrite Hunreg. cbn [default from_option].
    rewrite map_imap_empty.
    assert (range (∅ : gmap CheckType CheckResult) = []) as -> by (apply Permutation_nil_r; by rewrite range_perm, map_to_list_empty).
    reflexivity.
Qed.
End theorems.

(** ** The registry *)
Section registry.
Context {MR : MapRange}.
Implicit Types (h : HealthChecker).

#[export] Instance sched_Proper ty : Proper (Permutation ==> Permutation) (sched ty).
Proof. intros l l' Hl. unfold sched. by rewrite Hl. Qed.
Lemma scheduled_perm ty h : scheduled ty h ≡ₚ sched ty (map_to_list (checks h)).
Proof. unfold scheduled, sched. by rewrite range_perm. Qed.
Lemma sched_split ty component h :
  scheduled ty h ≡ₚ ((λ c, (component, c)) <$> checks_of component ty h)
                    ++ sched ty (map_to_list (delete component (checks h))).
Proof.
  rewrite scheduled_perm. unfold checks_of. destruct (checks h !! component) as [m|] eqn:Hm; cbn [default from_option id].
  - rewrite <-(map_to_list_delete (checks h) component m Hm). done.
  - rewrite lookup_empty, delete_id by done. done.
Qed.
Lemma scheduled_set ty ty' component l h :
  scheduled ty (set_checks component ty' l h)
  ≡ₚ ((λ c, (component, c)) <$> (if bool_decide (ty = ty') then l else checks_of component ty h))
     ++ sched ty (map_to_list (delete component (checks h))).
Proof.
  rewrite (sched_split ty component). unfold set_checks at 2. cbn [checks]. rewrite delete_insert_eq.
  f_equiv. f_equiv. unfold checks_of, set_checks. cbn [checks]. rewrite lookup_insert_eq. cbn [default from_option id].
  case_bool_decide as Ht; [subst; by rewrite lookup_insert_eq|by rewrite lookup_insert_ne].
Qed.
Lemma remove_named_perm name l :
  match remove_named name l with
  | Some l' => ∃ c, Name c = name ∧ l ≡ₚ c :: l'
  | None => ∀ c, c ∈ l → Name c ≠ name
  end.
Proof.
  induction l as [|c l IH]; cbn [remove_named]; [by intros c ?%not_elem_of_nil|]. case_bool_decide as Hn.
  - by exists c.
  - destruct (remove_named name l) as [l'|]; cbn.
    + destruct IH as (c' & ? & Hp). exists c'. split; [done|]. rewrite Hp. apply Permutation_swap.
    + intros c' [->|?]%elem_of_cons; auto.
Qed.
Lemma remove_from_perm ty name l h :
  (∃ c comp, comp ∈ l ∧ Name c = name ∧ scheduled ty h ≡ₚ (comp, c) :: scheduled ty (remove_from ty name l h)
     ∧ ∀ ty', ty' ≠ ty → scheduled ty' (remove_from ty name l h) ≡ₚ scheduled ty' h)
  ∨ remove_from ty name l h = h ∧ ∀ comp c, comp ∈ l → c ∈ checks_of comp ty h → Name c ≠ name.
Proof.
  induction l as [|comp l IH]; [right; split; [done|by intros ?? ?%not_elem_of_nil]|]. cbn [remove_from].
  pose proof (remove_named_perm name (checks_of comp ty h)) as Hr.
  destruct (remove_named name (checks_of comp ty h)) as [l'|].
  - left. destruct Hr as (c & Hn & Hp). exists c, comp. split; [left|]. split; [done|]. split.
    + rewrite (sched_split ty comp), scheduled_set, bool_decide_true, Hp by done. done.
    + intros ty' Hty. by rewrite scheduled_set, bool_decide_false, <-sched_split by done.
  - destruct IH as [(c & comp' & ? & ? & ? & ?)|[-> Hno]].
    + left. exists c, comp'. split; [by right|done].
    + right. split; [done|]. intros comp' c [->|?]%elem_of_cons; eauto.
Qed.
End registry.

(** Remark: adding a check adds it once, under its component, to the checks of its type;
    removing a name takes out exactly one check of that type and name, whichever
    the map shows first, or changes nothing when there is none; the checks of
    other types stay as they are. *)
Theorem registry_exact {MR : MapRange} (h : HealthChecker) (ty : CheckType) (c : HealthCheck) (name : string) :
  scheduled ty (AddCheck ty c h) ≡ₚ (Component c, c) :: scheduled ty h
  ∧ (∀ ty', ty' ≠ ty → scheduled ty' (AddCheck ty c h) ≡ₚ scheduled ty' h)
  ∧ ((∃ r, Name r.2 = name ∧ scheduled ty h ≡ₚ r :: scheduled ty (RemoveCheck ty name h)
        ∧ ∀ ty', ty' ≠ ty → scheduled ty' (RemoveCheck ty name h) ≡ₚ scheduled ty' h)
     ∨ RemoveCheck ty name h = h ∧ ∀ r, r ∈ scheduled ty h → Name r.2 ≠ name).
Proof.
  split_and!.
  - unfold AddCheck. rewrite scheduled_set, bool_decide_true, (sched_split ty (Component c) h), fmap_app by done.
    rewrite <-app_assoc. cbn. by rewrite Permutation_middle.
  - intros ty' Hty. unfold AddCheck. by rewrite scheduled_set, bool_decide_false, <-sched_split by done.
  - unfold RemoveCheck. destruct (remove_from_perm ty name (range (checks h)).*1 h)
      as [(c' & comp & _ & Hn & Hp & Ho)|[-> Hno]].
    + left. by exists (comp, c').
    + right. split; [done|]. intros [comp c'] Hin. cbn. unfold scheduled, sched in Hin.
      apply list_elem_of_bind in Hin as ([comp' m] & Hc & Hin). apply list_elem_of_fmap in Hc as (c'' & [= -> ->] & Hc).
      cbn in Hc. apply (Hno comp'); [by apply (list_elem_of_fmap_2' fst _ (comp', m))|].
      unfold checks_of. apply elem_of_range in Hin. by rewrite Hin.
Qed.

(** ** Concrete instances *)
Definition fixed (name component : string) (s : Status) : HealthCheck :=
  mkHealthCheck (λ _, Done (mkCheckResult s component "" [] 0 1)) name component.
Definition crashing (name component : string) : HealthCheck :=
  mkHealthCheck (λ _, Panic "nil pointer dereference") name component.
Definition reversed_range : MapRange.
Proof. refine {| range := λ V m, reverse (map_to_list m) |}. intros V m. apply reverse_Permutation. Defined.
Definition two_checks : HTTPHandler :=
  NewHTTPHandler (AddCheck CheckTypeReadiness (fixed "pool" "database" StatusDegraded)
                    (AddCheck CheckTypeReadiness (fixed "lag" "projection" StatusUnknown)
                       (NewHealthChecker DefaultConfig))) 0.

(** Remark: with one degraded and one unknown check in two components, whether the probe
    answers 200 or 503 depends on the order in which the map shows them. *)
Theorem status_depends_on_order :
  ∃ MR1 MR2 : MapRange, ∀ (clk : nat → Z) (ctx : CtxView),
    fst <$> sent (probe (MR := MR1) CheckTypeReadiness clk ctx two_checks (get_request "/health/ready") new_writer) = Some 200
    ∧ fst <$> sent (probe (MR := MR2) CheckTypeReadiness clk ctx two_checks (get_request "/health/ready") new_writer) = Some 503.
Proof.
  destruct (decide (fst <$> sent (probe (MR := canonical_range) CheckTypeReadiness (λ _, 0) background two_checks
                                    (get_request "/health/ready") new_writer) = Some 200)) as [H|H].
  - exists canonical_range, reversed_range. intros clk ctx.
    split; unfold probe, writeHealthResponse; cbn [Method get_request]; rewrite bool_decide_true by done; cbn [negb];
      match goal with |- context [@runChecks ?mr ?c ?x ?t ?h] => destruct (@runChecks_verdict mr c x t h) as [-> _] end;
      vm_compute; first [reflexivity|by vm_compute in H].
  - exists reversed_range, canonical_range. intros clk ctx.
    split; unfold probe, writeHealthResponse; cbn [Method get_request]; rewrite bool_decide_true by done; cbn [negb];
      match goal with |- context [@runChecks ?mr ?c ?x ?t ?h] => destruct (@runChecks_verdict mr c x t h) as [-> _] end;
      vm_compute; first [reflexivity|exfalso; apply H; by vm_compute].
Qed.

Lemma health_endpoint_witness :
  let h := NewHTTPHandler (AddCheck CheckTypeLiveness (crashing "ping" "database") (NewHealthChecker DefaultConfig)) 0 in
  fst <$> sent (HealthHandler (MR := canonical_range) (λ _ _, 0) 7 background h (get_request "/health") new_writer) = Some 503
  ∧ ∃ rs, HealthHandler (MR := canonical_range) (λ _ _, 0) 7 background h (mkRequest "GET" "/health" "" "nothing") new_writer
          = mkWriter {["Content-Type" := "application/json"]} (Some (200, {["Content-Type" := "application/json"]}))
              [CComponent StatusUp "nothing" rs 7].
Proof.
  cbn zeta. apply (health_endpoint (MR := canonical_range) (λ _ _, 0) 7 background _ "/health" "nothing" CheckTypeStartup).
  - by right; right.
  - by vm_compute.
  - intros ty s Hs. unfold statuses in Hs. apply list_elem_of_fmap in Hs as (c & -> & Hc).
    apply list_elem_of_fmap in Hc as ([comp c'] & -> & Hin). unfold scheduled, sched in Hin.
    apply list_elem_of_bind in Hin as ([comp' m] & Hin & Hm).
    assert (m = <["liveness" := [crashing "ping" "database"]]> ∅) as ->.
    { apply (elem_of_range (MR := canonical_range)) in Hm. cbn in Hm.
      apply lookup_insert_Some in Hm as [[_ <-]|[_ Hm]]; [|by rewrite lookup_empty in Hm]. reflexivity. }
    apply list_elem_of_fmap in Hin as (c'' & [= _ ->] & Hin). cbn in Hin.
    destruct (decide (ty = "liveness")) as [->|Hne].
    + rewrite lookup_insert_eq in Hin. by apply list_elem_of_singleton in Hin as ->.
    + rewrite lookup_insert_ne, lookup_empty in Hin by done. by apply not_elem_of_nil in Hin.
  - done.
  - by vm_compute.
Defined.
