(* ===== verification/HealthChecks.v ===== *)
(** * The built-in health checks (src/observability/health: checks.go,
    synckit_checks.go)

    Databases, endpoints, addresses and stores are what the checks ask; each is a
    parameter, as is floating-point arithmetic.  [start] and [stop] are the
    clock around a check, [ctx] the context it polls. *)
From S2P Require Import Prelude Types Json Errors Text Health.
From S2P Require StateMachine.
From stdpp Require Import options.

Class Float64 := {
  float : Type;
  flit : string → float;
  f_of_int : Z → float;
  fltb : float → float → bool;
  fmul : float → float → float;
  fdiv : float → float → float;
  fmt1 : float → string;
  f_any : float → any
}.

Definition result (st : Status) (component message : string) (details : list (string * Detail)) (start stop : Z)
    : CheckResult := mkCheckResult st component message details start (StateMachine.time_sub stop start).
Definition down component message := result StatusDown component message [].
Definition since (start stop : Z) : string := duration_String (StateMachine.time_sub stop start).
Definition int_of (n : Z) : Detail := Plain (AnyInt n).
Definition text_of (s : string) : Detail := Plain (AnyString s).
Definition bool_of (b : bool) : Detail := Plain (AnyBool b).

(** ** A database (checks.go) *)
Record DBStats := mkStats { OpenConnections : Z; InUse : Z; Idle : Z; WaitCount : Z; WaitDuration : Z }.
Class Database (D : Type) := {
  PingContext : CtxView → D → option error;
  QueryRow : CtxView → string → D → option error;
  Stats : D → DBStats
}.
Section checks.
Context {D : Type} {DB : Database D}.
Record DatabaseCheck := mkDatabaseCheck {
  db_name : string; db : D; query : string; db_timeout : Z; connPool : bool
}.
Inductive DatabaseCheckOption :=
  | WithDatabaseQuery (q : string) | WithDatabaseTimeout (t : Z) | WithConnectionPoolCheck.
Definition apply_db_option (c : DatabaseCheck) (o : DatabaseCheckOption) : DatabaseCheck :=
  match o with
  | WithDatabaseQuery q => mkDatabaseCheck (db_name c) (db c) q (db_timeout c) (connPool c)
  | WithDatabaseTimeout t => mkDatabaseCheck (db_name c) (db c) (query c) t (connPool c)
  | WithConnectionPoolCheck => mkDatabaseCheck (db_name c) (db c) (query c) (db_timeout c) true
  end.
Definition NewDatabaseCheck (name : string) (d : D) (opts : list DatabaseCheckOption) : DatabaseCheck :=
  fold_left apply_db_option opts (mkDatabaseCheck name d "SELECT 1" 5000000000 false).
(** [ctx] is the context with the check's timeout. *)
Definition DatabaseCheck_Check (start stop : Z) (ctx : CtxView) (c : DatabaseCheck) : CheckResult :=
  match PingContext ctx (db c) with
  | Some e => down "database" ("Database ping failed: " +:+ error_string e) start stop
  | None =>
      match (if bool_decide (query c = "") then None else QueryRow ctx (query c) (db c)) with
      | Some e => down "database" ("Database query failed: " +:+ error_string e) start stop
      | None =>
          let s := Stats (db c) in
          let details :=
            if connPool c
            then [("open_connections", int_of (OpenConnections s)); ("in_use_connections", int_of (InUse s));
                  ("idle_connections", int_of (Idle s)); ("wait_count", Plain (AnyInt64 (WaitCount s)));
                  ("wait_duration", text_of (duration_String (WaitDuration s)))]
            else [] in
          if connPool c && (10 <? WaitCount s)
          then result StatusDegraded "database" "High connection pool wait count" details start stop
          else result StatusUp "database" "Database is healthy" details start stop
      end
  end.

(** ** An endpoint and an address *)
Record HTTPCheck := mkHTTPCheck {
  http_name : string; url : string; method : string; http_timeout : Z; expectedStatus : Z
}.
Inductive HTTPCheckOption := WithHTTPMethod (m : string) | WithHTTPTimeout (t : Z) | WithExpectedStatus (s : Z).
Definition apply_http_option (c : HTTPCheck) (o : HTTPCheckOption) : HTTPCheck :=
  match o with
  | WithHTTPMethod m => mkHTTPCheck (http_name c) (url c) m (http_timeout c) (expectedStatus c)
  | WithHTTPTimeout t => mkHTTPCheck (http_name c) (url c) (method c) t (expectedStatus c)
  | WithExpectedStatus s => mkHTTPCheck (http_name c) (url c) (method c) (http_timeout c) s
  end.
Definition NewHTTPCheck (name url : string) (opts : list HTTPCheckOption) : HTTPCheck :=
  fold_left apply_http_option opts (mkHTTPCheck name url "GET" 10000000000 200).
(** [new_request] and [do] are net/http's; [mid] is the clock after the response. *)
Definition HTTPCheck_Check (new_request : string → string → option error)
    (do : CtxView → string → string → Prelude.result error Z) (start mid stop : Z) (ctx : CtxView) (c : HTTPCheck) : CheckResult :=
  match new_request (method c) (url c) with
  | Some e => down "http" ("Failed to create HTTP request: " +:+ error_string e) start stop
  | None =>
      match do ctx (method c) (url c) with
      | Err e => down "http" ("HTTP request failed: " +:+ error_string e) start stop
      | Ok code =>
          let details := [("status_code", int_of code); ("response_time", text_of (since start mid))] in
          if code =? expectedStatus c then result StatusUp "http" "HTTP endpoint is healthy" details start stop
          else result StatusDown "http" ("Unexpected status code: got " +:+ format_int code +:+ ", expected "
                                         +:+ format_int (expectedStatus c)) details start stop
      end
  end.
Record TCPCheck := mkTCPCheck { tcp_name : string; address : string; tcp_timeout : Z }.
Definition NewTCPCheck (name address : string) (timeouts : list Z) : TCPCheck :=
  mkTCPCheck name address (fold_left (λ _ t, t) timeouts 5000000000).
Definition TCPCheck_Check (dial : CtxView → string → option error) (start mid stop : Z) (ctx : CtxView) (c : TCPCheck)
    : CheckResult :=
  match dial ctx (address c) with
  | Some e => down "tcp" ("TCP connection failed: " +:+ error_string e) start stop
  | None => result StatusUp "tcp" "TCP connection successful"
              [("address", text_of (address c)); ("connection_time", text_of (since start mid))] start stop
  end.

(** ** Memory: the statistics are never filled in *)
Record MemoryCheck := mkMemoryCheck { mem_name : string; threshold : Z }.
Definition NewMemoryCheck (name : string) (thresholdMB : Z) : MemoryCheck :=
  mkMemoryCheck name (u64 (thresholdMB * 1024 * 1024)).
Definition MemoryCheck_Check (start stop : Z) (c : MemoryCheck) : CheckResult :=
  let alloc := 0 in
  let details := [("allocated_memory", Plain (AnyUint64 alloc)); ("total_allocated", Plain (AnyUint64 0));
                  ("system_memory", Plain (AnyUint64 0)); ("gc_cycles", Plain (AnyOther "uint32" "0"));
                  ("threshold", Plain (AnyUint64 (threshold c)))] in
  if threshold c <? alloc
  then result StatusDegraded "system" ("Memory usage above threshold: " +:+ format_int alloc +:+ " bytes > "
                                       +:+ format_int (threshold c) +:+ " bytes") details start stop
  else result StatusUp "system" "Memory usage is healthy" details start stop.

(** ** The parts of the sync kit (synckit_checks.go) *)

(** [available] is that the pointer or interface is not nil. *)
Definition SyncManagerCheck_Check (start stop : Z) (available : bool) : CheckResult :=
  if negb available then down "syncmanager" "SyncManager is not initialized" start stop
  else result StatusUp "syncmanager" "SyncManager is initialized and ready"
         [("manager_initialized", bool_of true)] start stop.
Record TransportCheck := mkTransportCheck { tr_name : string; transport : bool; testPeer : string }.
Definition NewTransportCheck (name : string) (available : bool) (peers : list string) : TransportCheck :=
  mkTransportCheck name available (fold_left (λ _ p, p) peers "health_check_peer").
Definition TransportCheck_Check (start stop : Z) (c : TransportCheck) : CheckResult :=
  if negb (transport c) then down "transport" "Transport layer is not initialized" start stop
  else result StatusUp "transport" "Transport layer is initialized"
         [("transport_initialized", bool_of true); ("test_peer", text_of (testPeer c))] start stop.
Definition ConflictResolverCheck_Check (start stop : Z) : CheckResult :=
  result StatusUp "conflict_resolver" "Conflict resolver is available" [("resolver_available", bool_of true)] start stop.
(** The context with the timeout is asked once whether it is over. *)
Definition timed_out (ctx : CtxView) : bool :=
  match ctx 0%nat with Some DeadlineExceeded => true | _ => false end.
Definition timed (ctx : CtxView) (component ok late : string) (details : list (string * Detail)) (start stop : Z)
    : CheckResult :=
  if timed_out ctx then result StatusDegraded component late (details ++ [("timeout_occurred", bool_of true)]) start stop
  else result StatusUp component ok details start stop.
Record SyncOperationCheck := mkSyncOp { op_name : string; manager : bool; testResource : string; op_timeout : Z }.
Inductive SyncOperationCheckOption := WithSyncTestResource (r : string) | WithSyncOperationTimeout (t : Z).
Definition apply_op_option (c : SyncOperationCheck) (o : SyncOperationCheckOption) : SyncOperationCheck :=
  match o with
  | WithSyncTestResource r => mkSyncOp (op_name c) (manager c) r (op_timeout c)
  | WithSyncOperationTimeout t => mkSyncOp (op_name c) (manager c) (testResource c) t
  end.
Definition NewSyncOperationCheck (name : string) (available : bool) (opts : list SyncOperationCheckOption)
    : SyncOperationCheck := fold_left apply_op_option opts (mkSyncOp name available "health_check_resource" 10000000000).
Definition SyncOperationCheck_Check (start stop : Z) (ctx : CtxView) (c : SyncOperationCheck) : CheckResult :=
  if negb (manager c) then down "sync_operations" "SyncManager is not available for sync operation test" start stop
  else timed ctx "sync_operations" "Sync operations are available" "Sync operation health check timed out"
         [("manager_available", bool_of true); ("test_resource", text_of (testResource c));
          ("timeout", text_of (duration_String (op_timeout c)))] start stop.
Definition ProjectionRunnerHealthCheck_Check (start stop timeout : Z) (ctx : CtxView) (runner : bool) : CheckResult :=
  if negb runner then down "projection_runner" "Projection runner is not initialized" start stop
  else timed ctx "projection_runner" "Projection runner is available" "Projection runner health check timed out"
         [("runner_initialized", bool_of true); ("timeout", text_of (duration_String timeout))] start stop.

(** Every peer counts as reachable. *)
Definition NetworkConnectivityCheck_Check (start stop : Z) (peers : list string) : CheckResult :=
  match peers with
  | [] => result StatusUp "network" "No peers configured to check" [("peer_count", int_of 0)] start stop
  | _ =>
      let total := Z.of_nat (length peers) in
      let reachable := fold_left (λ n _, n + 1) peers 0 in
      let seen := fold_left (λ m p, <[p := AnyBool true]> m) peers (∅ : gmap string any) in
      let details := [("peers", Strings (map_to_list seen).*1); ("total_peers", int_of total);
                      ("reachable_peers", int_of reachable)] in
      if reachable =? total then result StatusUp "network" "All peers are reachable" details start stop
      else if 0 <? reachable
      then result StatusDegraded "network" ("Only " +:+ format_int reachable +:+ "/" +:+ format_int total
                                            +:+ " peers are reachable") details start stop
      else result StatusDown "network" "No peers are reachable" details start stop
  end.

(** ** A store of keys and values *)
Class KeyStore (S : Type) := {
  Put : CtxView → string → string → S → S * option error;
  Get : CtxView → string → S → Prelude.result error string;
  Delete : CtxView → string → S → S * option error
}.
Record StorageCheck := mkStorageCheck { st_name : string; testKey : string }.
Definition NewStorageCheck (name : string) (test_keys : list string) : StorageCheck :=
  mkStorageCheck name (fold_left (λ _ k, k) test_keys "health_check_test").
(** [unix] is the second the test data are made of; [None] is the nil store. *)
Definition StorageCheck_Check {S} {KS : KeyStore S} (start unix stop : Z) (ctx : CtxView) (c : StorageCheck)
    (store : option S) : option S * CheckResult :=
  match store with
  | None => (None, down "storage" "Storage backend is not initialized" start stop)
  | Some s =>
      let testData := "health_check_data_" +:+ format_int unix in
      let '(s, err) := Put ctx (testKey c) testData s in
      match err with
      | Some e => (Some s, down "storage" ("Storage Put operation failed: " +:+ error_string e) start stop)
      | None =>
          match Get ctx (testKey c) s with
          | Err e => (Some s, down "storage" ("Storage Get operation failed: " +:+ error_string e) start stop)
          | Ok got =>
              if negb (bool_decide (got = testData)) then
                (Some s, result StatusDegraded "storage" "Storage data integrity check failed"
                           [("expected_data", text_of testData); ("retrieved_data", text_of got)] start stop)
              else
                let '(s, err) := Delete ctx (testKey c) s in
                match err with
                | Some e => (Some s, result StatusDegraded "storage"
                                       ("Storage Delete operation failed: " +:+ error_string e) [] start stop)
                | None => (Some s, result StatusUp "storage" "Storage backend is healthy"
                                     [("operations_tested", Strings ["put"; "get"; "delete"]);
                                      ("data_integrity", text_of "passed")] start stop)
                end
          end
      end
  end.

(** ** Projections *)
Context {F : Float64}.
Record ProjectionMetricsHealthCheck := mkProjectionMetrics {
  pm_name : string; metricsProvider : bool; projectionName : string; maxLagSeconds : float; maxErrorRate : float
}.
Inductive ProjectionMetricsCheckOption := WithMaxProjectionLag (x : float) | WithMaxProjectionErrorRate (x : float).
Definition apply_metrics_option (c : ProjectionMetricsHealthCheck) (o : ProjectionMetricsCheckOption)
    : ProjectionMetricsHealthCheck :=
  match o with
  | WithMaxProjectionLag x => mkProjectionMetrics (pm_name c) (metricsProvider c) (projectionName c) x (maxErrorRate c)
  | WithMaxProjectionErrorRate x => mkProjectionMetrics (pm_name c) (metricsProvider c) (projectionName c) (maxLagSeconds c) x
  end.
Definition NewProjectionMetricsHealthCheck (name : string) (provider : bool) (projection : string)
    (opts : list ProjectionMetricsCheckOption) : ProjectionMetricsHealthCheck :=
  fold_left apply_metrics_option opts (mkProjectionMetrics name provider projection (flit "300.0") (flit "0.05")).
(** The lag and the error rate are constants. *)
Definition ProjectionMetricsHealthCheck_Check (start stop : Z) (c : ProjectionMetricsHealthCheck) : CheckResult :=
  if negb (metricsProvider c)
  then down "projection_metrics" "Projection metrics provider is not available" start stop
  else
    let lag := flit "30.0" in
    let rate := flit "0.02" in
    let details := [("projection_name", text_of (projectionName c)); ("current_lag_seconds", Plain (f_any lag));
                    ("max_lag_seconds", Plain (f_any (maxLagSeconds c))); ("current_error_rate", Plain (f_any rate));
                    ("max_error_rate", Plain (f_any (maxErrorRate c)))] in
    if fltb (maxLagSeconds c) lag
    then result StatusDegraded "projection_metrics"
           ("Projection lag too high: " +:+ fmt1 lag +:+ "s (max: " +:+ fmt1 (maxLagSeconds c) +:+ "s)") details start stop
    else if fltb (maxErrorRate c) rate
    then result StatusDegraded "projection_metrics"
           ("Projection error rate too high: " +:+ fmt1 (fmul rate (f_of_int 100)) +:+ "% (max: "
            +:+ fmt1 (fmul (maxErrorRate c) (f_of_int 100)) +:+ "%)") details start stop
    else result StatusUp "projection_metrics" "Projection metrics are within healthy thresholds" details start stop.

(** A runner is healthy when it is not nil. *)
Record ProjectionSystemHealthCheck := mkProjectionSystem {
  ps_name : string; projectionRunners : list bool; minHealthyRunners : Z
}.
Definition NewProjectionSystemHealthCheck (name : string) (runners : list bool) (mins : list Z)
    : ProjectionSystemHealthCheck :=
  mkProjectionSystem name runners (fold_left (λ _ m, m) mins (Z.of_nat (length runners))).
Definition ProjectionSystemHealthCheck_Check (start stop : Z) (c : ProjectionSystemHealthCheck) : CheckResult :=
  let total := Z.of_nat (length (projectionRunners c)) in
  let healthy := fold_left (λ n r, if r : bool then n + 1 else n) (projectionRunners c) 0 in
  let details := [("total_runners", int_of total); ("healthy_runners", int_of healthy);
                  ("min_healthy_required", int_of (minHealthyRunners c));
                  ("healthy_percentage", Plain (f_any (fmul (fdiv (f_of_int healthy) (f_of_int total)) (f_of_int 100))))] in
  let ratio := format_int healthy +:+ "/" +:+ format_int total in
  if minHealthyRunners c <=? healthy
  then result StatusUp "projection_system" ("Projection system healthy: " +:+ ratio +:+ " runners operational") details start stop
  else if 0 <? healthy
  then result StatusDegraded "projection_system" ("Projection system degraded: " +:+ ratio +:+ " runners operational (min: "
         +:+ format_int (minHealthyRunners c) +:+ ")") details start stop
  else result StatusDown "projection_system" "Projection system down: no healthy runners" details start stop.
End checks.
Arguments DatabaseCheck : clear implicits.

(** ** What the checks tell *)
Section facts.
Lemma fold_count (l : list bool) n :
  fold_left (λ n r, if r : bool then n + 1 else n) l n = n + Z.of_nat (length (filter (λ r, r = true) l)).
Proof.
  revert n; induction l as [|r l IH]; intros n; cbn [fold_left]; [cbn; lia|].
  rewrite IH, filter_cons. destruct r, (decide _); cbn [length]; (done || lia).
Qed.
Lemma fold_length {A} (l : list A) n : fold_left (λ n _, n + 1) l n = n + Z.of_nat (length l).
Proof. revert n; induction l as [|x l IH]; intros n; cbn [fold_left length]; [lia|]. rewrite IH. lia. Qed.
Lemma fold_length_0 {A} (l : list A) : fold_left (λ n _, n + 1) l 0 = Z.of_nat (length l).
Proof. by rewrite fold_length. Qed.
End facts.

(** Remark: the checks that measure nothing: memory is never above its threshold, every
    peer is reachable, managers and transports are up as soon as they exist, and
    a projection system goes by how many of its runners are not nil, so that
    without any runner it is up. *)
Theorem placeholder_checks {F : Float64} (start stop threshold : Z) (peers : list string) (available : bool)
    (c : TransportCheck) (runners : list bool) (mins : list Z) :
  Status_ (MemoryCheck_Check start stop (NewMemoryCheck "memory" threshold)) = StatusUp
  ∧ Status_ (NetworkConnectivityCheck_Check start stop peers) = StatusUp
  ∧ Status_ (SyncManagerCheck_Check start stop available) = (if available then StatusUp else StatusDown)
  ∧ Status_ (TransportCheck_Check start stop c) = (if transport c then StatusUp else StatusDown)
  ∧ let p := NewProjectionSystemHealthCheck "p" runners mins in
    let healthy := Z.of_nat (length (filter (λ r, r = true) runners)) in
    Status_ (ProjectionSystemHealthCheck_Check start stop p)
    = (if minHealthyRunners p <=? healthy then StatusUp else if 0 <? healthy then StatusDegraded else StatusDown)
    ∧ (mins = [] → (Status_ (ProjectionSystemHealthCheck_Check start stop p) = StatusUp ↔ Forall (eq true) runners)).
Proof.
  split_and!.
  - unfold MemoryCheck_Check, NewMemoryCheck. cbn zeta. cbn [HealthChecks.threshold].
    pose proof (u64_range (threshold * 1024 * 1024)) as Hr. unfold is_u64 in Hr.
    assert (u64 (threshold * 1024 * 1024) <? 0 = false) as -> by (apply Z.ltb_ge; lia). done.
  - unfold NetworkConnectivityCheck_Check. destruct peers as [|x xs]; [done|]. rewrite fold_length_0.
    by rewrite Z.eqb_refl.
  - by destruct available.
  - unfold TransportCheck_Check. by destruct (transport c).
  - cbn zeta. set (p := NewProjectionSystemHealthCheck "p" runners mins).
    assert (Status_ (ProjectionSystemHealthCheck_Check start stop p)
      = if minHealthyRunners p <=? Z.of_nat (length (filter (λ r, r = true) runners)) then StatusUp
        else if 0 <? Z.of_nat (length (filter (λ r, r = true) runners)) then StatusDegraded else StatusDown) as Hst.
    { unfold ProjectionSystemHealthCheck_Check. cbn zeta. cbn [projectionRunners p NewProjectionSystemHealthCheck].
      rewrite fold_count, Z.add_0_l. by destruct (_ <=? _); [|destruct (_ <? _)]. }
    split; [exact Hst|]. intros ->. rewrite Hst. cbn [minHealthyRunners p NewProjectionSystemHealthCheck fold_left].
    assert (∀ l : list bool, (length (filter (λ r, r = true) l) ≤ length l)%nat
      ∧ (length (filter (λ r, r = true) l) = length l ↔ Forall (eq true) l)) as Hall.
    { induction l as [|r l [IH1 IH2]]; [done|]. rewrite filter_cons, Forall_cons.
      destruct r, (decide _); try done; cbn [length]; split; try lia.
      rewrite <-IH2. split; [intros ?; split; [done|lia]|intros [_ ?]; lia]. }
    destruct (Hall runners) as [Hle Hiff].
    destruct (Z.leb_spec (Z.of_nat (length runners)) (Z.of_nat (length (filter (λ r, r = true) runners)))).
    + split; [intros _; apply Hiff; lia|done].
    + split; [destruct (_ <? _); done|]. intros ?%Hiff. lia.
Qed.

(** What a store of keys and values promises. *)
Class KeyStoreLaws (S : Type) {KS : KeyStore S} := {
  view : S → gmap string string;
  put_law : ∀ k v s, ∃ s', Put background k v s = (s', None) ∧ view s' = <[k := v]> (view s);
  get_law : ∀ k s, Get background k s = match view s !! k with Some v => Ok v | None => Err (ErrMsg "not found") end;
  delete_law : ∀ k s, ∃ s', Delete background k s = (s', None) ∧ view s' = delete k (view s)
}.

(** Remark: on a store that works the storage check is up, and it leaves every other key
    alone; but what the store held under the check's own key is gone after it. *)
Theorem storage_check_clean {S} {KS : KeyStore S} {L : KeyStoreLaws S} (start unix stop : Z) (c : StorageCheck) (s : S) :
  ∃ s', (StorageCheck_Check start unix stop background c (Some s)).1 = Some s'
    ∧ Status_ (StorageCheck_Check start unix stop background c (Some s)).2 = StatusUp
    ∧ view s' = delete (testKey c) (view s).
Proof.
  unfold StorageCheck_Check. cbn zeta.
  destruct (put_law (testKey c) ("health_check_data_" +:+ format_int unix) s) as (s1 & -> & Hv1).
  rewrite get_law, Hv1, lookup_insert_eq, bool_decide_true by done. cbn [negb].
  destruct (delete_law (testKey c) s1) as (s2 & -> & Hv2). exists s2. split_and!; [done..|].
  by rewrite Hv2, Hv1, delete_insert_eq.
Qed.

(** Remark: a database is down exactly when its ping or its query fails, and otherwise
    degraded exactly when the pool is watched and has ever made more than ten
    callers wait. *)
Theorem database_check_exact {D} {DB : Database D} (start stop : Z) (ctx : CtxView) (c : DatabaseCheck D) :
  let s := Status_ (DatabaseCheck_Check start stop ctx c) in
  (s = StatusDown ↔ is_Some (PingContext ctx (db c)) ∨ (query c ≠ "" ∧ is_Some (QueryRow ctx (query c) (db c))))
  ∧ (s = StatusDegraded ↔ s ≠ StatusDown ∧ connPool c = true ∧ 10 < WaitCount (Stats (db c)))
  ∧ (s = StatusUp ∨ s = StatusDown ∨ s = StatusDegraded).
Proof.
  cbn zeta. unfold DatabaseCheck_Check. destruct (PingContext ctx (db c)) as [e|].
  { cbn. split_and!; [split; [by left; eexists|done]|split; [done|by intros [[] _]]|by right; left]. }
  case_bool_decide as Hq.
  - cbn zeta. destruct (connPool c); cbn [andb].
    + destruct (Z.ltb_spec 10 (WaitCount (Stats (db c)))); cbn; rewrite !is_Some_alt; naive_solver lia.
    + cbn. rewrite !is_Some_alt. naive_solver.
  - destruct (QueryRow ctx (query c) (db c)) as [e|].
    + cbn. rewrite !is_Some_alt. naive_solver.
    + cbn zeta. destruct (connPool c); cbn [andb].
      * destruct (Z.ltb_spec 10 (WaitCount (Stats (db c)))); cbn; rewrite !is_Some_alt; naive_solver lia.
      * cbn. rewrite !is_Some_alt. naive_solver.
Qed.

(** A store that is a map. *)
#[local] Instance map_KeyStore : KeyStore (gmap string string) := {|
  Put := λ _ k v s, (<[k := v]> s, None);
  Get := λ _ k s, match s !! k with Some v => Ok v | None => Err (ErrMsg "not found") end;
  Delete := λ _ k s, (delete k s, None)
|}.
#[local] Program Instance map_laws : KeyStoreLaws (gmap string string) := {| view := id |}.
Next Obligation. intros k v s. by eexists. Qed.
Next Obligation. done. Qed.
Next Obligation. intros k s. by eexists. Qed.
Example storage_check_run :
  (StorageCheck_Check 1 2 3 background (NewStorageCheck "s" []) (Some {["health_check_test" := "mine"; "k" := "v"]})).1
  = Some {["k" := "v"]}.
Proof. by vm_compute. Qed.
