(* ===== verification/SqlDriver.v ===== *)
(** * Databases behind the SQL stores

    [database/sql] and a driver, as src/storage/sqlite and src/storage/postgres
    use them: what each call returns, over a database [D] that is a parameter.
    What a database does with the statements is stated by the laws of each store
    ([Sqlite.SQLiteLaws], [Postgres.PgLaws]). *)
From S2P Require Import Prelude Types.
From stdpp Require Import options.

Inductive Arg := AText (s : string) | AInt (z : Z).
Record Row := mkRow {
  r_version : Z; r_id : string; r_aggregate : string; r_type : string;
  r_data : option string; r_metadata : option string
}.
(** The rows of a query come with the error, if any, that ends them. *)
Class SQL (D : Type) := {
  Tx : Type;
  Open : string → result error D;
  Ping : D → option error;
  DB_Close : D → D * option error;
  Exec : CtxView → string → D → D * option error;
  BeginTx : CtxView → D → D * result error Tx;
  Prepare : CtxView → Tx → string → D → D * option error;
  TxExec : CtxView → Tx → string → list Arg → D → D * option error;
  Commit : Tx → D → D * option error;
  Rollback : Tx → D → D * option error;
  Query : CtxView → string → list Arg → D → result error (list Row * option error);
  QueryMax : CtxView → string → D → result error (option Z)
}.
(** encoding/json, as the store uses it. *)
Class StoreJSON := {
  marshal_data : any → result error string;
  marshal_metadata : gomap any → result error string;
  unmarshal_metadata : string → gomap any
}.
