(* ===== verification/Sqlite.v ===== *)
(** * The SQLite event store (src/storage/sqlite/store.go)

    The statements the store sends, their transactions and what it makes of the
    rows.  The database is a parameter; [SQLiteLaws] says what SQLite does with
    exactly these statements.  Each method is one step: the store's own mutex
    only guards [closed].  A context deadline is what is left of it at the two
    readings of the clock; loggers are left out. *)
From S2P Require Import Prelude Types Json Errors Text VectorClock Versions Interfaces SqlDriver.
From S2P Require HttpServer MemStore.
From stdpp Require Import options.

Section store.
Context {D : Type} {DB : SQL D} {J : StoreJSON}.

Definition component : string := "storage/sqlite".
Definition wrap (op : string) (e : error) : error := Errors.E [AOp op; AComponent component; AErr e].
Definition ErrIncompatibleVersion : error := ErrMsg "incompatible version type: expected cursor.IntegerCursor".
Definition ErrStoreClosed : error := ErrMsg "store is closed".

(** ** Versions and events *)
Definition parse_version (what s : string) : result error Version :=
  if bool_decide (s = "") || bool_decide (s = "0") then Ok (IntegerCursor 0)
  else match HttpServer.atoi s with
       | None => Err (ErrWrap ("invalid " +:+ what +:+ " '" +:+ s +:+ "'") (ErrMsg ("strconv.ParseInt: parsing " +:+ s)))
       | Some v => Ok (IntegerCursor (u64 v))
       end.
Definition ParseVersion_pkg : string → result error Version := parse_version "version string".
Definition ParseVersion : string → result error Version := parse_version "integer version string".
(** A [StoredEvent] through its accessors: raw JSON data, decoded metadata. *)
Definition raw_message (s : option string) : any := AnyOther "json.RawMessage" (default "" s).
Definition StoredEvent (r : Row) : Event :=
  mkEvent (r_id r) (r_type r) (r_aggregate r) (raw_message (r_data r)) (r_metadata r ≫= unmarshal_metadata).
Definition scanned_row (r : Row) : EventWithVersion :=
  mkEWV (Some (StoredEvent r)) (Some (IntegerCursor (u64 (r_version r)))).
Definition scanEvents (rows : list Row * option error) : result error (list EventWithVersion) :=
  match rows.2 with
  | Some e => Err (ErrWrap "error during row iteration" e)
  | None => Ok (scanned_row <$> rows.1)
  end.

(** ** Configuration and construction *)
Record Config := mkConfig {
  DataSourceName : string; EnableWAL : bool; TableName : string; MaxOpenConns : Z; MaxIdleConns : Z;
  ConnMaxLifetime : Z; ConnMaxIdleTime : Z
}.
Definition or_ (n dflt : Z) : Z := if n =? 0 then dflt else n.
Definition setDefaults (c : Config) : Config :=
  mkConfig
    (if EnableWAL c && negb (Contains (DataSourceName c) "?_journal_mode=")
     then DataSourceName c +:+ "?_journal_mode=WAL" else DataSourceName c)
    (EnableWAL c) (if bool_decide (TableName c = "") then "events" else TableName c)
    (or_ (MaxOpenConns c) 25) (or_ (MaxIdleConns c) 5) (or_ (ConnMaxLifetime c) 3600000000000)
    (or_ (ConnMaxIdleTime c) 300000000000).
Definition DefaultConfig (source : string) : Config := setDefaults (mkConfig source true "" 0 0 0 0).

Record SQLiteEventStore := mkStore { db : D; closed : bool; tableName : string }.
Definition with_db (d : D) (s : SQLiteEventStore) : SQLiteEventStore := mkStore d (closed s) (tableName s).

Fixpoint exec_all (l : list (string * string)) (d : D) : D * option error :=
  match l with
  | [] => (d, None)
  | (text, failed) :: rest =>
      let '(d, err) := Exec background text d in
      match err with Some e => (d, Some (ErrWrap failed e)) | None => exec_all rest d end
  end.
Definition applyPragmaSettings (c : Config) : D → D * option error :=
  exec_all ((if EnableWAL c then [("PRAGMA journal_mode = WAL;", "failed to set WAL mode")] else [])
            ++ [("PRAGMA busy_timeout = 5000;", "failed to set busy timeout");
                ("PRAGMA synchronous = NORMAL;", "failed to set synchronous mode");
                ("PRAGMA temp_store = MEMORY;", "failed to set temp store");
                ("PRAGMA cache_size = -20000;", "failed to set cache size")]).
(** Up to white space. *)
Definition schema : string :=
  "CREATE TABLE IF NOT EXISTS events (version INTEGER PRIMARY KEY AUTOINCREMENT, id TEXT NOT NULL UNIQUE, aggregate_id TEXT NOT NULL, event_type TEXT NOT NULL, data TEXT, metadata TEXT, created_at TIMESTAMP DEFAULT CURRENT_TIMESTAMP); CREATE INDEX IF NOT EXISTS idx_aggregate_id ON events (aggregate_id); CREATE INDEX IF NOT EXISTS idx_version ON events (version); CREATE INDEX IF NOT EXISTS idx_created_at ON events (created_at);".
Definition setupSchema (d : D) : D * option error := Exec background schema d.
(** The settings of the connection pool are left to the driver. *)
Definition New (c : option Config) : result error SQLiteEventStore :=
  match c with
  | None => Err (ErrMsg "config cannot be nil")
  | Some c =>
      let c := setDefaults c in
      if bool_decide (DataSourceName c = "") then Err (ErrMsg "DataSourceName is required")
      else
        match Open (DataSourceName c) with
        | Err e => Err (ErrWrap "failed to open sqlite database" e)
        | Ok d =>
            match applyPragmaSettings c d with
            | (_, Some e) => Err (ErrWrap "failed to apply PRAGMA settings" e)
            | (d, None) =>
                match Ping d with
                | Some e => Err (ErrWrap "failed to connect to sqlite database" e)
                | None =>
                    match setupSchema d with
                    | (_, Some e) => Err (ErrWrap "failed to setup database schema" e)
                    | (d, None) => Ok (mkStore d false (TableName c))
                    end
                end
            end
        end
  end.
Definition NewWithDataSource (source : string) : result error SQLiteEventStore := New (Some (DefaultConfig source)).

(** ** Storing *)
Definition insert_text : string :=
  "INSERT INTO events (id, aggregate_id, event_type, data, metadata) VALUES (?, ?, ?, ?, ?)".
Definition insert_args (e : Event) (data metadata : string) : list Arg :=
  [AText (ID e); AText (AggregateID e); AText (Type_ e); AText data; AText metadata].
(** The deadline is too close: what was left at the check, and at the message. *)
Definition too_close (deadline : option (Z * Z)) : option error :=
  match deadline with
  | Some (remaining, shown) =>
      if remaining <? 1000000000
      then Some (ErrMsg ("context deadline too close: " +:+ duration_String shown +:+ " remaining")) else None
  | None => None
  end.
(** The deferred rollback; its own error is only logged. *)
Definition roll_back (tx : Tx) (d : D) : D := (Rollback tx d).1.

Definition Store (deadline : option (Z * Z)) (ctx : CtxView) (event : option Event) (version : option Version)
    (s : SQLiteEventStore) : outcome (SQLiteEventStore * option error) :=
  match ctx 0%nat with
  | Some e => Done (s, Some (ErrCtx e))
  | None =>
      match too_close deadline with
      | Some e => Done (s, Some e)
      | None =>
          if closed s then Done (s, Some ErrStoreClosed)
          else
            let '(d, r) := BeginTx ctx (db s) in
            match r with
            | Err e => Done (with_db d s, Some (wrap "sqlite.Store" e))
            | Ok tx =>
                let* e := deref event in
                let fail d err := Done (with_db (roll_back tx d) s, Some (wrap "sqlite.Store" err)) in
                match marshal_data (Data e) with
                | Err err => fail d err
                | Ok data =>
                    match marshal_metadata (Metadata e) with
                    | Err err => fail d err
                    | Ok metadata =>
                        let '(d, err) := TxExec ctx tx insert_text (insert_args e data metadata) d in
                        match err with
                        | Some err => fail d err
                        | None =>
                            let '(d, err) := Commit tx d in
                            match err with
                            | Some err => fail d err
                            | None => Done (with_db d s, None)
                            end
                        end
                    end
                end
            end
      end
  end.

(** The loop of a batch: its errors are variables of the loop body, so the
    deferred rollback does not see them. *)
Fixpoint insert_all (ctx : CtxView) (tx : Tx) (evs : list EventWithVersion) (d : D) : outcome (D * option error) :=
  match evs with
  | [] => Done (d, None)
  | ev :: rest =>
      let* e := deref (ev_event ev) in
      match marshal_data (Data e) with
      | Err err => Done (d, Some (ErrWrap "failed to marshal event data" err))
      | Ok data =>
          match marshal_metadata (Metadata e) with
          | Err err => Done (d, Some (ErrWrap "failed to marshal event metadata" err))
          | Ok metadata =>
              let '(d, err) := TxExec ctx tx insert_text (insert_args e data metadata) d in
              match err with
              | Some err => Done (d, Some (ErrWrap "failed to insert event" err))
              | None => insert_all ctx tx rest d
              end
          end
      end
  end.
Definition StoreBatch (deadline : option (Z * Z)) (ctx : CtxView) (evs : list EventWithVersion) (s : SQLiteEventStore)
    : outcome (SQLiteEventStore * option error) :=
  match too_close deadline with
  | Some e => Done (s, Some e)
  | None =>
      if closed s then Done (s, Some ErrStoreClosed)
      else match evs with
           | [] => Done (s, None)
           | _ =>
               let '(d, r) := BeginTx ctx (db s) in
               match r with
               | Err e => Done (with_db d s, Some (ErrWrap "failed to begin batch transaction" e))
               | Ok tx =>
                   let '(d, err) := Prepare ctx tx insert_text d in
                   match err with
                   | Some e => Done (with_db (roll_back tx d) s, Some (ErrWrap "failed to prepare batch statement" e))
                   | None =>
                       let* (d, err) := insert_all ctx tx evs d in
                       match err with
                       | Some e => Done (with_db d s, Some e)
                       | None =>
                           let '(d, err) := Commit tx d in
                           match err with
                           | Some e => Done (with_db (roll_back tx d) s, Some (ErrWrap "failed to commit batch transaction" e))
                           | None => Done (with_db d s, None)
                           end
                       end
                   end
               end
           end
  end.

(** ** Loading *)
Inductive Cond := CType (s : string) | CAggregate (s : string) | CTenant (s : string).
Definition cond_text (c : Cond) : string :=
  match c with
  | CType _ => " AND event_type = ?"
  | CAggregate _ => " AND aggregate_id = ?"
  | CTenant _ => " AND json_extract(metadata, '$.tenant') = ?"
  end.
Definition cond_arg (c : Cond) : Arg := match c with CType s | CAggregate s | CTenant s => AText s end.
Definition columns : string := "SELECT version, id, aggregate_id, event_type, data, metadata FROM events WHERE ".
Definition clauses (cs : list Cond) : string := foldr (λ c text, cond_text c +:+ text) " ORDER BY version ASC" cs.
Definition load_text (cs : list Cond) : string := columns +:+ "version > ?" +:+ clauses cs.
Definition aggregate_text (cs : list Cond) : string := columns +:+ "aggregate_id = ? AND version > ?" +:+ clauses cs.
Definition cond_of (f : string → Cond) (key : string) (m : gmap string string) : list Cond :=
  match m !! key with Some v => [f v] | None => [] end.
Definition check_version (since : option Version) : outcome (option error) :=
  if snd (as_integer since) then Done None
  else let* v := deref since in
       let* z := version_IsZero v in
       Done (if z then None else Some ErrIncompatibleVersion).
Definition run_query (op : string) (ctx : CtxView) (text : string) (args : list Arg) (s : SQLiteEventStore)
    : result error (list EventWithVersion) :=
  match Query ctx text args (db s) with Err e => Err (wrap op e) | Ok rows => scanEvents rows end.

Definition Load (ctx : CtxView) (since : option Version) (filters : list Filter) (s : SQLiteEventStore)
    : outcome (result error (list EventWithVersion)) :=
  if closed s then Done (Err ErrStoreClosed)
  else
    let* bad := check_version since in
    match bad with
    | Some e => Done (Err e)
    | None =>
        let m := MemStore.filter_map_of filters in
        let cs := cond_of CType "type" m ++ cond_of CAggregate "aggregate_id" m ++ cond_of CTenant "tenant" m in
        Done (run_query "sqlite.Load" ctx (load_text cs) (AInt (i64 (fst (as_integer since))) :: (cond_arg <$> cs)) s)
    end.
Definition LoadByAggregate (ctx : CtxView) (aggregateID : string) (since : option Version) (filters : list Filter)
    (s : SQLiteEventStore) : outcome (result error (list EventWithVersion)) :=
  if closed s then Done (Err ErrStoreClosed)
  else
    let* bad := check_version since in
    match bad with
    | Some e => Done (Err e)
    | None =>
        let m := MemStore.filter_map_of filters in
        let cs := cond_of CType "type" m ++ cond_of CTenant "tenant" m in
        Done (run_query "sqlite.LoadByAggregate" ctx (aggregate_text cs)
                (AText aggregateID :: AInt (i64 (fst (as_integer since))) :: (cond_arg <$> cs)) s)
    end.
Definition max_text : string := "SELECT MAX(version) FROM events".
Definition LatestVersion (ctx : CtxView) (s : SQLiteEventStore) : result error Version :=
  if closed s then Err ErrStoreClosed
  else match QueryMax ctx max_text (db s) with
       | Err e => Err (wrap "sqlite.LatestVersion" e)
       | Ok None => Ok (IntegerCursor 0)
       | Ok (Some n) => Ok (IntegerCursor (u64 n))
       end.
Definition Close (s : SQLiteEventStore) : SQLiteEventStore * option error :=
  if closed s then (s, None)
  else let '(d, err) := DB_Close (db s) in (mkStore d true (tableName s), err).

#[global] Instance sqlite_EventStore : EventStore SQLiteEventStore := {|
  es_Store := Store None;
  es_Load := Load;
  es_LoadByAggregate := LoadByAggregate;
  es_LatestVersion := λ ctx s, Done (lift_version (LatestVersion ctx s));
  es_ParseVersion := λ _ v _, Done (lift_version (ParseVersion v));
  es_Close := λ s, Done (Close s)
|}.
End store.
Arguments SQLiteEventStore : clear implicits.

(** ** What SQLite does with these statements

    [table] is the committed rows in the order of their versions, [seq] the
    AUTOINCREMENT counter, [open_txs] the transactions that are open, the latest
    first, each with its own rows once it holds the write lock. *)
Section laws.
Context {D : Type} {DB : SQL D}.
Abbreviation txs := (list (Tx * option (list Row))).
Definition no_lock (l : txs) : Prop := Forall (λ t, t.2 = None) l.
Definition own (p : option (list Row)) : list Row := match p with Some l => l | None => [] end.
Definition row_of (e : Event) (data metadata : string) (n : Z) : Row :=
  mkRow n (ID e) (AggregateID e) (Type_ e) (Some data) (Some metadata).
Definition holds (tenant_of : option string → option string) (r : Row) (c : Cond) : Prop :=
  match c with
  | CType s => r_type r = s
  | CAggregate s => r_aggregate r = s
  | CTenant s => tenant_of (r_metadata r) = Some s
  end.
#[global] Instance holds_dec t r c : Decision (holds t r c).
Proof. destruct c; unfold holds; apply _. Defined.

Class SQLiteLaws := {
  table : D → list Row;
  seq : D → Z;
  open_txs : D → txs;
  capacity : D → nat;
  json_tenant : option string → option string;
  same_data (d d' : D) : Prop := table d' = table d ∧ seq d' = seq d ∧ capacity d' = capacity d;
  begin_law : ∀ d, (length (open_txs d) < capacity d)%nat →
    ∃ d' tx, BeginTx background d = (d', Ok tx) ∧ open_txs d' = (tx, None) :: open_txs d ∧ same_data d d';
  prepare_law : ∀ d tx p rest, open_txs d = (tx, p) :: rest →
    ∃ d', Prepare background tx insert_text d = (d', None) ∧ open_txs d' = open_txs d ∧ same_data d d';
  insert_law : ∀ d tx p rest e data metadata, open_txs d = (tx, p) :: rest → no_lock rest →
    ID e ∉ r_id <$> table d ++ own p → seq d + Z.of_nat (length (own p)) + 1 < 2 ^ 63 →
    ∃ d', TxExec background tx insert_text (insert_args e data metadata) d = (d', None)
      ∧ open_txs d' = (tx, Some (own p ++ [row_of e data metadata (seq d + Z.of_nat (length (own p)) + 1)])) :: rest
      ∧ same_data d d';
  unique_law : ∀ d tx p rest e data metadata, open_txs d = (tx, p) :: rest → no_lock rest →
    ID e ∈ r_id <$> table d ++ own p →
    ∃ d' err, TxExec background tx insert_text (insert_args e data metadata) d = (d', Some err)
      ∧ open_txs d' = (tx, Some (own p)) :: rest ∧ same_data d d';
  busy_law : ∀ d tx rest e data metadata, open_txs d = (tx, None) :: rest → ¬ no_lock rest →
    ∃ d' err, TxExec background tx insert_text (insert_args e data metadata) d = (d', Some err)
      ∧ open_txs d' = open_txs d ∧ same_data d d';
  commit_law : ∀ d tx p rest, open_txs d = (tx, p) :: rest →
    ∃ d', Commit tx d = (d', None) ∧ open_txs d' = rest ∧ table d' = table d ++ own p
      ∧ seq d' = seq d + Z.of_nat (length (own p)) ∧ capacity d' = capacity d;
  rollback_law : ∀ d tx p rest, open_txs d = (tx, p) :: rest →
    open_txs (Rollback tx d).1 = rest ∧ same_data d (Rollback tx d).1;
  load_law : ∀ d n cs, - 2 ^ 63 ≤ n < 2 ^ 63 →
    Query background (load_text cs) (AInt n :: (cond_arg <$> cs)) d
    = Ok (filter (λ r, n < r_version r ∧ Forall (holds json_tenant r) cs) (table d), None);
  aggregate_law : ∀ d a n cs, - 2 ^ 63 ≤ n < 2 ^ 63 →
    Query background (aggregate_text cs) (AText a :: AInt n :: (cond_arg <$> cs)) d
    = Ok (filter (λ r, r_aggregate r = a ∧ n < r_version r ∧ Forall (holds json_tenant r) cs) (table d), None);
  max_law : ∀ d, QueryMax background max_text d
    = Ok (match table d with [] => None | r :: rest => Some (fold_left (λ m x, Z.max m (r_version x)) rest (r_version r)) end)
}.
End laws.
Arguments SQLiteLaws D {DB}.

Section facts.
Context {D : Type} {DB : SQL D} {J : StoreJSON} {L : SQLiteLaws D}.
Implicit Types (s : SQLiteEventStore D) (d : D) (e : Event).

(** An event with its JSON texts. *)
Record Encoded := mkEncoded { enc_event : Event; enc_version : option Version; enc_data : string; enc_metadata : string }.
Definition encoded (x : Encoded) : Prop :=
  marshal_data (Data (enc_event x)) = Ok (enc_data x) ∧ marshal_metadata (Metadata (enc_event x)) = Ok (enc_metadata x).
Definition enc_ewv (x : Encoded) : EventWithVersion := mkEWV (Some (enc_event x)) (enc_version x).
Definition enc_row (x : Encoded) (n : Z) : Row := row_of (enc_event x) (enc_data x) (enc_metadata x) n.
Fixpoint rows_from (n : Z) (l : list Encoded) : list Row :=
  match l with [] => [] | x :: rest => enc_row x (n + 1) :: rows_from (n + 1) rest end.
Lemma rows_from_app n l l' : rows_from n (l ++ l') = rows_from n l ++ rows_from (n + Z.of_nat (length l)) l'.
Proof.
  revert n; induction l as [|x l IH]; intros n; cbn [app rows_from length]; [by rewrite Z.add_0_r|].
  rewrite IH. cbn [app]. do 3 f_equal. lia.
Qed.
Lemma rows_from_ids n l : r_id <$> rows_from n l = (λ x, ID (enc_event x)) <$> l.
Proof. revert n; induction l as [|x l IH]; intros n; [done|]. cbn. by rewrite IH. Qed.
Lemma length_rows_from n l : length (rows_from n l) = length l.
Proof. revert n; induction l as [|x l IH]; intros n; cbn; auto. Qed.

(** Versions are positions, and the counter is their number. *)
Definition numbered d : Prop :=
  (∀ i r, table d !! i = Some r → r_version r = Z.of_nat i + 1) ∧ seq d = Z.of_nat (length (table d)).
(** Open, with room for [n] more rows and a free connection, and nobody writing. *)
Record usable s (n : nat) : Prop := {
  u_open : closed s = false;
  u_numbered : numbered (db s);
  u_room : seq (db s) + Z.of_nat n < 2 ^ 63;
  u_capacity : (length (open_txs (db s)) < capacity (db s))%nat;
  u_unlocked : no_lock (open_txs (db s))
}.
(** The log a store shows. *)
Definition log s : list EventWithVersion := scanned_row <$> table (db s).
Definition ids s : list string := r_id <$> table (db s).
(** The data of a store, and its open transactions. *)
Definition unchanged s s' : Prop :=
  closed s' = closed s ∧ open_txs (db s') = open_txs (db s) ∧ same_data (db s) (db s').

Lemma numbered_rows d l d' : numbered d →
  table d' = table d ++ rows_from (seq d) l → seq d' = seq d + Z.of_nat (length l) → numbered d'.
Proof.
  intros [Hn Hs] Ht Hs'. split.
  - rewrite Ht. intros i r [Hi|[Hle Hi]]%lookup_app_Some; [by apply Hn|].
    rewrite Hs in Hi. remember (Z.of_nat (length (table d))) as n eqn:Hnn. remember (i - length (table d))%nat as j eqn:Hj.
    assert (r_version r = n + Z.of_nat j + 1) as ->; [|lia]. clear -Hi. revert n j Hi.
    induction l as [|x l IH]; intros n j Hi; [done|]. destruct j as [|j]; cbn in Hi.
    + injection Hi as <-. cbn. lia.
    + apply IH in Hi. lia.
  - rewrite Hs', Ht, length_app, length_rows_from, Hs. lia.
Qed.
Lemma numbered_same d d' : numbered d → same_data d d' → numbered d'.
Proof. intros [H1 H2] (Ht & Hs & _). split; [by rewrite Ht|by rewrite Hs, Ht]. Qed.
Lemma unchanged_usable s s' n : unchanged s s' → usable s n → usable s' n.
Proof.
  intros (Hc & Ho & Hsame) [H1 H2 H3 H4 H5]. pose proof Hsame as (Ht & Hs & Hcap). split.
  - congruence.
  - by eapply numbered_same.
  - congruence.
  - congruence.
  - congruence.
Qed.
Lemma same_trans d d' d'' : same_data d d' → same_data d' d'' → same_data d d''.
Proof. unfold same_data. intros (?&?&?) (?&?&?). split_and!; congruence. Qed.

Lemma filter_numbered (l : list Row) (k n : nat) :
  (∀ i r, l !! i = Some r → r_version r = Z.of_nat n + Z.of_nat i + 1) →
  filter (λ r, Z.of_nat k < r_version r) l = drop (k - n) l.
Proof.
  revert n; induction l as [|r l IH]; intros n Hl; [by rewrite drop_nil|].
  pose proof (Hl 0%nat r eq_refl) as Hr. rewrite filter_cons.
  destruct (Nat.le_gt_cases k n) as [Hle|Hgt].
  - rewrite decide_True by lia. replace (k - n)%nat with 0%nat by lia. cbn [drop]. f_equal.
    rewrite filter_all; [done|]. intros x [i Hi]%list_elem_of_lookup. rewrite (Hl (S i) x Hi). lia.
  - rewrite decide_False by lia. rewrite (IH (S n)); [|intros i x Hi; rewrite (Hl (S i) x Hi); lia].
    by replace (k - n)%nat with (S (k - S n)) by lia.
Qed.

(** *** The loop of a batch *)
Lemma insert_all_ok tx l : ∀ p rest d,
  open_txs d = (tx, p) :: rest → no_lock rest → Forall encoded l →
  NoDup ((λ x, ID (enc_event x)) <$> l) → (∀ x, x ∈ l → ID (enc_event x) ∉ r_id <$> table d ++ own p) →
  seq d + Z.of_nat (length (own p)) + Z.of_nat (length l) < 2 ^ 63 →
  ∃ d', insert_all background tx (enc_ewv <$> l) d = Done (d', None)
    ∧ open_txs d' = (tx, match l with
                         | [] => p
                         | _ => Some (own p ++ rows_from (seq d + Z.of_nat (length (own p))) l)
                         end) :: rest
    ∧ same_data d d'.
Proof using L.
  induction l as [|x l IH]; intros p rest d Ho Hl Henc Hnd Hfresh Hroom; [by exists d|].
  apply Forall_cons in Henc as [[Hd Hm] Henc]. cbn in Hnd. apply NoDup_cons in Hnd as [Hnew Hnd].
  cbn [fmap list_fmap insert_all enc_ewv ev_event deref obind]. rewrite Hd, Hm.
  destruct (insert_law d tx p rest (enc_event x) (enc_data x) (enc_metadata x) Ho Hl) as (d1 & -> & Ho1 & Hsame);
    [apply Hfresh; by left|cbn in Hroom; lia|].
  pose proof Hsame as (Ht & Hs & Hc).
  destruct (IH _ rest d1 Ho1 Hl Henc Hnd) as (d2 & Hrun & Ho2 & Hsame2).
  - cbn [own]. intros y Hy. rewrite Ht, app_assoc, fmap_app. cbn.
    intros [Hin|Hin%list_elem_of_singleton]%elem_of_app.
    + apply (Hfresh y); [by right|done].
    + apply Hnew. rewrite <-Hin. by apply (list_elem_of_fmap_2 (λ x, ID (enc_event x))).
  - rewrite Hs. cbn [own]. rewrite length_app. cbn in Hroom |- *. lia.
  - exists d2. split; [exact Hrun|]. split; [|by eapply same_trans]. rewrite Ho2, Hs. cbn [own].
    rewrite length_app. cbn [length rows_from]. do 2 f_equal.
    rewrite Nat2Z.inj_add. change (Z.of_nat 1) with 1. rewrite Z.add_assoc.
    destruct l as [|y l]; [done|]. by rewrite <-app_assoc.
Qed.
Lemma insert_all_app tx l1 l2 d d' :
  insert_all background tx l1 d = Done (d', None) →
  insert_all background tx (l1 ++ l2) d = insert_all background tx l2 d'.
Proof.
  revert d; induction l1 as [|ev l1 IH]; intros d; [by intros [= ->]|]. cbn [app insert_all].
  destruct (deref (ev_event ev)) as [e|]; [|done]. cbn [obind].
  destruct (marshal_data (Data e)) as [data|]; [|done]. destruct (marshal_metadata (Metadata e)) as [md|]; [|done].
  destruct (TxExec _ _ _ _ _) as [d1 [err|]]; [done|]. apply IH.
Qed.
Lemma insert_all_unique tx p rest d x post : encoded x →
  open_txs d = (tx, p) :: rest → no_lock rest → ID (enc_event x) ∈ r_id <$> table d ++ own p →
  ∃ d' err, insert_all background tx (enc_ewv x :: post) d = Done (d', Some err)
    ∧ open_txs d' = (tx, Some (own p)) :: rest ∧ same_data d d'.
Proof using L.
  intros [Hd Hm] Ho Hl Hin. cbn [insert_all enc_ewv ev_event deref obind]. rewrite Hd, Hm.
  destruct (unique_law d tx p rest (enc_event x) (enc_data x) (enc_metadata x) Ho Hl Hin) as (d' & err & -> & ? & ?).
  by eexists d', _.
Qed.

(** *** Storing one event *)
Lemma Store_fresh x s n : usable s (S n) → encoded x → ID (enc_event x) ∉ ids s →
  ∃ s', Store None background (Some (enc_event x)) (enc_version x) s = Done (s', None)
    ∧ table (db s') = table (db s) ++ [enc_row x (seq (db s) + 1)] ∧ open_txs (db s') = open_txs (db s) ∧ usable s' n.
Proof using L.
  intros [Hc Hn Hr Hcap Hl] [Hd Hm] Hfresh. unfold Store. cbn [background too_close]. rewrite Hc.
  destruct (begin_law (db s) Hcap) as (d1 & tx & -> & Ho1 & Ht1 & Hs1 & Hc1). cbn [deref obind]. rewrite Hd, Hm.
  destruct (insert_law d1 tx None (open_txs (db s)) (enc_event x) (enc_data x) (enc_metadata x) Ho1 Hl)
    as (d2 & -> & Ho2 & Ht2 & Hs2 & Hc2);
    [by rewrite app_nil_r, Ht1|cbn; lia|].
  destruct (commit_law d2 tx _ _ Ho2) as (d3 & -> & Ho3 & Ht3 & Hs3 & Hc3). cbn [own app length] in *.
  eexists. split; [reflexivity|]. cbn [with_db db].
  assert (table d3 = table (db s) ++ [enc_row x (seq (db s) + 1)]) as Ht
    by (rewrite Ht3, Ht2, Ht1, Hs1; cbn; by rewrite Z.add_0_r).
  split; [done|]. split; [done|]. split; cbn [with_db db closed]; [done| |rewrite Hs3, Hs2, Hs1; lia| |by rewrite Ho3].
  - apply (numbered_rows (db s) [x]); [done|exact Ht|rewrite Hs3, Hs2, Hs1; done].
  - rewrite Ho3, Hc3, Hc2, Hc1. done.
Qed.
Lemma Store_fails x s n v : usable s n → encoded x →
  (ID (enc_event x) ∈ ids s → ∃ s' err, Store None background (Some (enc_event x)) v s = Done (s', Some err) ∧ unchanged s s').
Proof using L.
  intros [Hc Hn Hr Hcap Hl] [Hd Hm] Hdup. unfold Store. cbn [background too_close]. rewrite Hc.
  destruct (begin_law (db s) Hcap) as (d1 & tx & -> & Ho1 & Hsame1). cbn [deref obind]. rewrite Hd, Hm.
  pose proof Hsame1 as (Ht1 & _).
  destruct (unique_law d1 tx None (open_txs (db s)) (enc_event x) (enc_data x) (enc_metadata x) Ho1 Hl)
    as (d2 & err & -> & Ho2 & Hsame2); [by rewrite app_nil_r, Ht1|].
  destruct (rollback_law d2 tx _ _ Ho2) as [Ho3 Hsame3]. eexists _, _. split; [reflexivity|].
  split; [done|]. split; [exact Ho3|]. cbn [with_db db]. by eapply same_trans, same_trans.
Qed.
(** While somebody else holds the write lock, nothing is stored. *)
Lemma Store_locked x s v : closed s = false → (length (open_txs (db s)) < capacity (db s))%nat →
  ¬ no_lock (open_txs (db s)) → encoded x →
  ∃ s' err, Store None background (Some (enc_event x)) v s = Done (s', Some err) ∧ unchanged s s'.
Proof using L.
  intros Hc Hcap Hl [Hd Hm]. unfold Store. cbn [background too_close]. rewrite Hc.
  destruct (begin_law (db s) Hcap) as (d1 & tx & -> & Ho1 & Hsame1). cbn [deref obind]. rewrite Hd, Hm.
  destruct (busy_law d1 tx (open_txs (db s)) (enc_event x) (enc_data x) (enc_metadata x) Ho1 Hl)
    as (d2 & err & -> & Ho2 & Hsame2). rewrite Ho1 in Ho2.
  destruct (rollback_law d2 tx _ _ Ho2) as [Ho3 Hsame3]. eexists _, _. split; [reflexivity|].
  split; [done|]. split; [exact Ho3|]. cbn [with_db db]. by eapply same_trans, same_trans.
Qed.

(** *** Reading *)
Lemma i64_range z : - 2 ^ 63 ≤ i64 z < 2 ^ 63.
Proof. unfold i64. pose proof (Z.mod_pos_bound (z + 2 ^ 63) (2 ^ 64)). lia. Qed.
Lemma sqlite_load_since s k : closed s = false → numbered (db s) → Z.of_nat k < 2 ^ 63 →
  Load background (Some (IntegerCursor (Z.of_nat k))) [] s = Done (Ok (drop k (log s))).
Proof using L.
  intros Hc [Hn _] Hk. unfold Load. rewrite Hc. cbn [check_version as_integer snd fst obind].
  unfold run_query. change (cond_of _ "type" _ ++ _) with (@nil Cond).
  rewrite load_law by apply i64_range. rewrite i64_small by lia. unfold scanEvents. cbn [fst snd].
  do 2 f_equal. unfold log. rewrite <-fmap_drop. f_equal.
  rewrite (filter_ext_elem _ (λ r, Z.of_nat k < r_version r)) by (intros r _; rewrite Forall_nil; tauto).
  rewrite (filter_numbered _ k 0) by (intros i r Hr; rewrite (Hn i r Hr); lia). by rewrite Nat.sub_0_r.
Qed.
Lemma max_numbered (l : list Row) n m : (∀ i r, l !! i = Some r → r_version r = n + Z.of_nat i + 1) → m ≤ n →
  fold_left (λ m x, Z.max m (r_version x)) l m = match l with [] => m | _ => n + Z.of_nat (length l) end.
Proof.
  revert n m; induction l as [|r l IH]; intros n m Hl Hm; [done|]. cbn [fold_left length].
  rewrite (Hl 0%nat r eq_refl), (IH (n + 1)); [|intros i x Hi; rewrite (Hl (S i) x Hi); lia|lia].
  destruct l; cbn [length]; lia.
Qed.
Lemma sqlite_latest_length s : closed s = false → numbered (db s) → Z.of_nat (length (log s)) < 2 ^ 63 →
  LatestVersion background s = Ok (IntegerCursor (Z.of_nat (length (log s)))).
Proof using L.
  unfold log. rewrite length_fmap. intros Hc [Hn _] Hlen. unfold LatestVersion. rewrite Hc, max_law.
  destruct (table (db s)) as [|r l]; [done|]. rewrite (Hn 0%nat r eq_refl).
  rewrite (max_numbered l 1); [|intros i x Hi; rewrite (Hn (S i) x Hi); lia|lia].
  cbn [length] in *. do 2 f_equal. destruct l; [done|]. cbn [length] in *.
  rewrite u64_small by (unfold is_u64, u64_modulus; lia). lia.
Qed.
End facts.

(** C25: the SQLite store keeps the promise of an append-only log for identifiers it
    does not hold yet: storing appends the event under the next number; storing
    an identifier again fails and changes nothing; loading from the [k]-th
    version gives the entries past it, and the latest version is their number. *)
Theorem sqlite_log {D} {DB : SQL D} {J : StoreJSON} {L : SQLiteLaws D} (s : SQLiteEventStore D) (x : Encoded) (n k : nat)
    (Hs : usable s (S n)) (Hx : encoded x) (Hk : Z.of_nat k < 2 ^ 63) :
  (ID (enc_event x) ∉ ids s →
     ∃ s', Store None background (Some (enc_event x)) (enc_version x) s = Done (s', None)
       ∧ log s' = log s ++ [scanned_row (enc_row x (Z.of_nat (length (log s)) + 1))] ∧ usable s' n)
  ∧ (ID (enc_event x) ∈ ids s →
     ∃ s' err, Store None background (Some (enc_event x)) (enc_version x) s = Done (s', Some err)
       ∧ log s' = log s ∧ usable s' (S n))
  ∧ Load background (Some (IntegerCursor (Z.of_nat k))) [] s = Done (Ok (drop k (log s)))
  ∧ LatestVersion background s = Ok (IntegerCursor (Z.of_nat (length (log s)))).
Proof.
  pose proof (u_open _ _ Hs) as Hc. pose proof (u_numbered _ _ Hs) as Hn.
  assert (seq (db s) = Z.of_nat (length (log s))) as Hseq by (unfold log; rewrite length_fmap; apply Hn).
  split_and!.
  - intros Hf. destruct (Store_fresh x s n Hs Hx Hf) as (s' & Hrun & Ht & _ & Hu). exists s'. split; [exact Hrun|].
    split; [|done]. unfold log at 1 2. by rewrite Ht, fmap_app, Hseq.
  - intros Hd. destruct (Store_fails x s (S n) (enc_version x) Hs Hx Hd) as (s' & err & Hrun & Hun).
    exists s', err. split; [exact Hrun|]. split; [|by eapply unchanged_usable].
    unfold log. by destruct Hun as (_ & _ & -> & _).
  - by apply sqlite_load_since.
  - apply sqlite_latest_length; [done..|]. pose proof (u_room _ _ Hs). lia.
Qed.

(** Remark: a batch of new, distinct identifiers is stored whole, in order, under
    consecutive numbers. *)
Theorem sqlite_batch {D} {DB : SQL D} {J : StoreJSON} {L : SQLiteLaws D} (s : SQLiteEventStore D) (l : list Encoded) (n : nat)
    (Hs : usable s (length l + n)) (Hl : Forall encoded l) (Hnd : NoDup ((λ x, ID (enc_event x)) <$> l))
    (Hfresh : ∀ x, x ∈ l → ID (enc_event x) ∉ ids s) :
  ∃ s', StoreBatch None background (enc_ewv <$> l) s = Done (s', None)
    ∧ log s' = log s ++ (scanned_row <$> rows_from (Z.of_nat (length (log s))) l) ∧ usable s' n.
Proof.
  destruct Hs as [Hc Hn Hr Hcap Hlock]. unfold StoreBatch. cbn [too_close]. rewrite Hc.
  destruct l as [|x l].
  { exists s. cbn. rewrite app_nil_r. split_and!; [done..|]. by split. }
  assert (∀ A (a b : A), match enc_ewv <$> x :: l with [] => a | _ => b end = b) as Hmatch by done.
  rewrite Hmatch. clear Hmatch.
  destruct (begin_law (db s) Hcap) as (d1 & tx & -> & Ho1 & Hsame1).
  destruct (prepare_law d1 tx None _ Ho1) as (d2 & -> & Ho2 & Hsame2). rewrite Ho1 in Ho2.
  pose proof (same_trans _ _ _ Hsame1 Hsame2) as (Ht2 & Hs2 & Hc2).
  destruct (insert_all_ok tx (x :: l) None (open_txs (db s)) d2 Ho2 Hlock Hl Hnd) as (d3 & -> & Ho3 & Ht3 & Hs3 & Hc3).
  { cbn [own]. rewrite app_nil_r, Ht2. exact Hfresh. }
  { cbn [own]. rewrite Hs2. cbn [length] in *. lia. }
  cbn [own app obind] in *. rewrite Z.add_0_r, Hs2 in Ho3.
  destruct (commit_law d3 tx _ _ Ho3) as (d4 & -> & Ho4 & Ht4 & Hs4 & Hc4). cbn [own] in *.
  rewrite length_rows_from in Hs4.
  assert (table d4 = table (db s) ++ rows_from (seq (db s)) (x :: l)) as Ht by (by rewrite Ht4, Ht3, Ht2).
  assert (seq d4 = seq (db s) + Z.of_nat (length (x :: l))) as Hseq by (by rewrite Hs4, Hs3, Hs2).
  eexists. split; [reflexivity|]. split.
  - unfold log. cbn [with_db db]. rewrite Ht, fmap_app, length_fmap. by destruct Hn as [_ <-].
  - split; cbn [with_db db closed]; [done|by eapply numbered_rows|rewrite Hseq; lia| |by rewrite Ho4].
    rewrite Ho4, Hc4, Hc3, Hc2. done.
Qed.

(** Remark: a batch that holds an identifier twice, or one that is stored already, fails
    and stores nothing, but its transaction is never rolled back: it keeps the
    write lock, so that from then on no event whatsoever can be stored. *)
Theorem sqlite_batch_leaks {D} {DB : SQL D} {J : StoreJSON} {L : SQLiteLaws D} (s : SQLiteEventStore D)
    (pre : list Encoded) (bad : Encoded) (post : list EventWithVersion) (n : nat)
    (Hs : usable s (length pre + n)) (Hpre : Forall encoded pre) (Hbad : encoded bad)
    (Hnd : NoDup ((λ x, ID (enc_event x)) <$> pre)) (Hfresh : ∀ x, x ∈ pre → ID (enc_event x) ∉ ids s)
    (Hdup : ID (enc_event bad) ∈ ids s ∨ ID (enc_event bad) ∈ (λ x, ID (enc_event x)) <$> pre)
    (Hroom : (S (length (open_txs (db s))) < capacity (db s))%nat) :
  ∃ s' err tx, StoreBatch None background ((enc_ewv <$> pre) ++ enc_ewv bad :: post) s = Done (s', Some err)
    ∧ log s' = log s
    ∧ open_txs (db s') = (tx, Some (rows_from (Z.of_nat (length (log s))) pre)) :: open_txs (db s)
    ∧ ∀ x v, encoded x → ∃ s'' err', Store None background (Some (enc_event x)) v s' = Done (s'', Some err')
        ∧ unchanged s' s''.
Proof.
  destruct Hs as [Hc Hn Hr Hcap Hlock]. unfold StoreBatch. cbn [too_close]. rewrite Hc.
  assert (∀ A (a b : A), match (enc_ewv <$> pre) ++ enc_ewv bad :: post with [] => a | _ => b end = b) as Hmatch
    by (by destruct pre). rewrite Hmatch. clear Hmatch.
  destruct (begin_law (db s) Hcap) as (d1 & tx & -> & Ho1 & Hsame1).
  destruct (prepare_law d1 tx None _ Ho1) as (d2 & -> & Ho2 & Hsame2). rewrite Ho1 in Ho2.
  pose proof (same_trans _ _ _ Hsame1 Hsame2) as (Ht2 & Hs2 & Hc2).
  destruct (insert_all_ok tx pre None (open_txs (db s)) d2 Ho2 Hlock Hpre Hnd) as (d3 & Hrun3 & Ho3 & Ht3 & Hs3 & Hc3).
  { cbn [own]. rewrite app_nil_r, Ht2. exact Hfresh. }
  { cbn [own]. rewrite Hs2. cbn [length] in *. lia. }
  rewrite (insert_all_app _ _ _ _ _ Hrun3). cbn [own app length] in Ho3. rewrite Z.add_0_r, Hs2 in Ho3.
  assert (seq (db s) = Z.of_nat (length (log s))) as Hseq by (unfold log; rewrite length_fmap; apply Hn).
  set (p := match pre with [] => None | _ => Some (rows_from (seq (db s)) pre) end) in *.
  assert (own p = rows_from (Z.of_nat (length (log s))) pre) as Hown by (unfold p; rewrite Hseq; by destruct pre).
  destruct (insert_all_unique tx p (open_txs (db s)) d3 bad post Hbad Ho3 Hlock) as (d4 & err & -> & Ho4 & Ht4 & Hs4 & Hc4).
  { rewrite fmap_app, Ht3, Ht2, Hown, rows_from_ids. apply elem_of_app. exact Hdup. }
  cbn [obind]. eexists _, _, tx. split; [reflexivity|]. unfold log. cbn [with_db db]. rewrite Ht4, Ht3, Ht2, Ho4.
  split; [done|]. split; [by rewrite Hown; unfold log|].
  intros x v Hx. apply Store_locked; cbn [with_db db closed]; [done| | |done].
  - rewrite Ho4, Hc4, Hc3, Hc2. exact Hroom.
  - rewrite Ho4. by intros [? _]%Forall_cons.
Qed.

(** Remark: reading a stream is reading the store with an aggregate filter, an aggregate
    among the given filters being ignored. *)
Theorem sqlite_aggregate_is_filtered_load {D} {DB : SQL D} {J : StoreJSON} {L : SQLiteLaws D} (s : SQLiteEventStore D)
    (aggregateID : string) (since : option Version) (filters : list Filter) :
  LoadByAggregate background aggregateID since filters s
  = Load background since (filters ++ [mkFilter "aggregate_id" aggregateID]) s.
Proof.
  unfold LoadByAggregate, Load. destruct (closed s); [done|].
  destruct (check_version since) as [[e|]|]; [done| |done]. cbn [obind]. f_equal.
  unfold MemStore.filter_map_of. rewrite fold_left_app. cbn [fold_left Key Value].
  set (m := fold_left _ filters ∅). unfold cond_of.
  rewrite lookup_insert_eq, !lookup_insert_ne by done.
  set (ct := match m !! "type" with Some v => [CType v] | None => [] end).
  set (cn := match m !! "tenant" with Some v => [CTenant v] | None => [] end).
  unfold run_query. rewrite aggregate_law, load_law by apply i64_range. do 2 f_equal.
  apply filter_ext_elem. intros r _. rewrite !Forall_app, Forall_singleton. cbn [holds]. tauto.
Qed.

(** ** A concrete database *)
Fixpoint strip (p t : string) : option string :=
  match p, t with
  | EmptyString, _ => Some t
  | String a p, String b t => if bool_decide (a = b) then strip p t else None
  | _, _ => None
  end.
Lemma strip_app p t : strip p (p +:+ t) = Some t.
Proof.
  induction p as [|a p IH]; [done|]. change (String a p +:+ t) with (String a (p +:+ t)). cbn [strip].
  by rewrite (bool_decide_true (a = a)).
Qed.
Fixpoint parse_clauses (args : list Arg) (t : string) : option (list Cond) :=
  match args with
  | [] => if bool_decide (t = " ORDER BY version ASC") then Some [] else None
  | AText a :: args =>
      match strip " AND event_type = ?" t, strip " AND aggregate_id = ?" t,
            strip " AND json_extract(metadata, '$.tenant') = ?" t with
      | Some t, _, _ => (λ cs, CType a :: cs) <$> parse_clauses args t
      | _, Some t, _ => (λ cs, CAggregate a :: cs) <$> parse_clauses args t
      | _, _, Some t => (λ cs, CTenant a :: cs) <$> parse_clauses args t
      | _, _, _ => None
      end
  | _ => None
  end.
Lemma parse_clauses_ok cs : parse_clauses (cond_arg <$> cs) (clauses cs) = Some cs.
Proof.
  induction cs as [|c cs IH]; [done|]. cbn [fmap list_fmap]. unfold clauses in *. cbn [foldr].
  set (rest := foldr _ _ cs) in *. destruct c as [a|a|a]; cbn [cond_arg cond_text parse_clauses].
  - rewrite strip_app, IH. done.
  - rewrite strip_app. change (strip " AND event_type = ?" (" AND aggregate_id = ?" +:+ rest)) with (@None string).
    cbv iota. by rewrite IH.
  - rewrite strip_app.
    change (strip " AND event_type = ?" (" AND json_extract(metadata, '$.tenant') = ?" +:+ rest)) with (@None string).
    change (strip " AND aggregate_id = ?" (" AND json_extract(metadata, '$.tenant') = ?" +:+ rest)) with (@None string).
    cbv iota. by rewrite IH.
Qed.

Record MemDB := mkMemDB { m_table : list Row; m_seq : Z; m_open : list (nat * option (list Row)); m_next : nat }.
Definition busy (l : list (nat * option (list Row))) : bool := existsb (λ t, match t.2 with Some _ => true | None => false end) l.
Definition demo_tenant (md : option string) : option string := md.
Definition mem_insert (args : list Arg) (m : MemDB) : MemDB * option error :=
  match args, m_open m with
  | [AText id; AText agg; AText ty; AText data; AText md], (tx, p) :: rest =>
      if busy rest then (m, Some (ErrMsg "database is locked"))
      else if bool_decide (id ∈ r_id <$> m_table m ++ own p)
      then (mkMemDB (m_table m) (m_seq m) ((tx, Some (own p)) :: rest) (m_next m),
            Some (ErrMsg "UNIQUE constraint failed: events.id"))
      else (mkMemDB (m_table m) (m_seq m)
              ((tx, Some (own p ++ [mkRow (m_seq m + Z.of_nat (length (own p)) + 1) id agg ty (Some data) (Some md)])) :: rest)
              (m_next m), None)
  | _, _ => (m, Some (ErrMsg "no such statement"))
  end.
Definition mem_query (text : string) (args : list Arg) (m : MemDB) : result error (list Row * option error) :=
  match strip (columns +:+ "version > ?") text, strip (columns +:+ "aggregate_id = ? AND version > ?") text, args with
  | Some t, _, AInt n :: args =>
      match parse_clauses args t with
      | Some cs => Ok (filter (λ r, n < r_version r ∧ Forall (holds demo_tenant r) cs) (m_table m), None)
      | None => Err (ErrMsg "syntax error")
      end
  | _, Some t, AText a :: AInt n :: args =>
      match parse_clauses args t with
      | Some cs => Ok (filter (λ r, r_aggregate r = a ∧ n < r_version r ∧ Forall (holds demo_tenant r) cs) (m_table m), None)
      | None => Err (ErrMsg "syntax error")
      end
  | _, _, _ => Err (ErrMsg "syntax error")
  end.
#[local] Instance mem_SQL : SQL MemDB := {|
  Tx := nat;
  Open := λ _, Ok (mkMemDB [] 0 [] 0);
  Ping := λ _, None;
  DB_Close := λ m, (m, None);
  Exec := λ _ _ m, (m, None);
  BeginTx := λ _ m, (mkMemDB (m_table m) (m_seq m) ((m_next m, None) :: m_open m) (S (m_next m)), Ok (m_next m));
  Prepare := λ _ _ _ m, (m, None);
  TxExec := λ _ _ _ args m, mem_insert args m;
  Commit := λ _ m, match m_open m with
                   | (_, p) :: rest => (mkMemDB (m_table m ++ own p) (m_seq m + Z.of_nat (length (own p))) rest (m_next m), None)
                   | [] => (m, Some (ErrMsg "no transaction"))
                   end;
  Rollback := λ _ m, match m_open m with
                     | _ :: rest => (mkMemDB (m_table m) (m_seq m) rest (m_next m), None)
                     | [] => (m, Some (ErrMsg "no transaction"))
                     end;
  Query := λ _, mem_query;
  QueryMax := λ _ _ m, Ok (match m_table m with
                           | [] => None
                           | r :: rest => Some (fold_left (λ m x, Z.max m (r_version x)) rest (r_version r))
                           end)
|}.
Lemma busy_no_lock l : busy l = false ↔ no_lock l.
Proof.
  unfold no_lock, busy. induction l as [|[tx [p|]] l IH]; [done|..]; rewrite Forall_cons; cbn.
  - split; [done|by intros [? _]].
  - rewrite IH. tauto.
Qed.
#[local] Program Instance mem_laws : SQLiteLaws MemDB := {|
  table := m_table; seq := m_seq; open_txs := m_open; capacity := λ _, 25%nat; json_tenant := demo_tenant
|}.
Next Obligation. intros d _. by eexists _, _. Qed.
Next Obligation. intros d tx p rest _. by eexists. Qed.
Next Obligation.
  intros d tx p rest e data md Ho Hl%busy_no_lock Hf _. cbn. unfold mem_insert, insert_args. rewrite Ho, Hl.
  rewrite bool_decide_false by done. by eexists.
Qed.
Next Obligation.
  intros d tx p rest e data md Ho Hl%busy_no_lock Hf. cbn. unfold mem_insert, insert_args. rewrite Ho, Hl.
  rewrite bool_decide_true by done. by eexists _, _.
Qed.
Next Obligation.
  intros d tx rest e data md Ho Hl. cbn. unfold mem_insert, insert_args. rewrite Ho.
  destruct (busy rest) eqn:Hb; [by eexists _, _|]. by apply busy_no_lock in Hb.
Qed.
Next Obligation. intros d tx p rest Ho. cbn. rewrite Ho. by eexists. Qed.
Next Obligation. intros d tx p rest Ho. cbn. by rewrite Ho. Qed.
Next Obligation.
  intros d n cs _. cbn. unfold mem_query, load_text.
  change (columns +:+ "version > ?" +:+ clauses cs) with ((columns +:+ "version > ?") +:+ clauses cs).
  by rewrite strip_app, parse_clauses_ok.
Qed.
Next Obligation.
  intros d a n cs _. cbn. unfold mem_query, aggregate_text.
  change (columns +:+ "aggregate_id = ? AND version > ?" +:+ clauses cs)
    with ((columns +:+ "aggregate_id = ? AND version > ?") +:+ clauses cs).
  rewrite strip_app.
  change (strip (columns +:+ "version > ?") ((columns +:+ "aggregate_id = ? AND version > ?") +:+ clauses cs))
    with (@None string).
  cbv iota. by rewrite parse_clauses_ok.
Qed.
Next Obligation. done. Qed.
#[local] Instance demo_json : StoreJSON := {|
  marshal_data := λ _, Ok "{}"; marshal_metadata := λ _, Ok "{}"; unmarshal_metadata := λ _, None
|}.
Definition demo_encoded (id : string) : Encoded := mkEncoded (mkEvent id "Updated" "order-1" AnyNil None) None "{}" "{}".
Definition demo_db : SQLiteEventStore MemDB :=
  mkStore (mkMemDB [row_of (enc_event (demo_encoded "a")) "{}" "{}" 1] 1 [] 7) false "events".
Lemma demo_usable n : (n < 100)%nat → usable demo_db n.
Proof.
  intros Hn. split; cbn; [done| |lia|lia|by apply Forall_nil].
  split; [|done]. intros [|i] r Hi; [by injection Hi as <-|done].
Qed.

Lemma sqlite_log_witness :
  (∃ s', Store None background (Some (enc_event (demo_encoded "b"))) None demo_db = Done (s', None)
     ∧ length (log s') = 2%nat)
  ∧ Load background (Some (IntegerCursor 0)) [] demo_db = Done (Ok (log demo_db)).
Proof.
  assert (encoded (demo_encoded "b")) as Henc by done.
  destruct (sqlite_log demo_db (demo_encoded "b") 9 0 (demo_usable 10 ltac:(lia)) Henc) as (Hnew & _ & Hload & _); [done|].
  split; [|exact Hload]. destruct Hnew as (s' & Hrun & Hlog & _); [by vm_compute; intros ?%list_elem_of_singleton|].
  exists s'. split; [exact Hrun|]. by rewrite Hlog.
Defined.
Lemma sqlite_batch_witness :
  ∃ s', StoreBatch None background (enc_ewv <$> [demo_encoded "b"; demo_encoded "c"]) demo_db = Done (s', None)
    ∧ length (log s') = 3%nat.
Proof.
  destruct (sqlite_batch demo_db [demo_encoded "b"; demo_encoded "c"] 9) as (s' & Hrun & Hlog & _).
  - apply demo_usable. cbn. lia.
  - by repeat constructor.
  - apply (bool_decide_unpack _). by vm_compute.
  - intros x Hx Hin. vm_compute in Hin. apply list_elem_of_singleton in Hin.
    apply elem_of_cons in Hx as [-> | ->%list_elem_of_singleton]; done.
  - exists s'. split; [exact Hrun|]. by rewrite Hlog.
Defined.
Lemma sqlite_batch_leaks_witness :
  ∃ s' err, StoreBatch None background [enc_ewv (demo_encoded "b"); enc_ewv (demo_encoded "a")] demo_db = Done (s', Some err)
    ∧ log s' = log demo_db
    ∧ ∃ s'' err', Store None background (Some (enc_event (demo_encoded "c"))) None s' = Done (s'', Some err').
Proof.
  destruct (sqlite_batch_leaks demo_db [demo_encoded "b"] (demo_encoded "a") [] 9)
    as (s' & err & tx & Hrun & Hlog & _ & Hstuck).
  - apply demo_usable. cbn. lia.
  - by repeat constructor.
  - done.
  - apply NoDup_singleton.
  - intros x ->%list_elem_of_singleton Hin. vm_compute in Hin. by apply list_elem_of_singleton in Hin.
  - left. vm_compute. by apply list_elem_of_singleton.
  - cbn. lia.
  - exists s', err. split; [exact Hrun|]. split; [exact Hlog|].
    destruct (Hstuck (demo_encoded "c") None) as (s'' & err' & H & _); [done|]. by exists s'', err'.
Defined.
