(* ===== verification/Realtime.v ===== *)
(** * Real-time synchronisation (src/synckit/realtime.go)

    The manager that synchronises when a notifier says that data changed, and
    polls while the notifier is not connected.  Enabling starts a goroutine that
    subscribes again and again and one that watches the connection; failures
    start a third that polls.  A goroutine is a [thread] that stops at the points
    where it waits or takes the lock; a step runs it from one such point to the
    next, and [step] is any of them, a call of the interface, a notification, or
    the end of a context.  The answers of the notifier and the clock are labels.
    A synchronisation started by a goroutine is one step. *)
From S2P Require Import Prelude Types Json Errors StateMachine SyncState Resolvers Interfaces Detect Manager.
From stdpp Require Import options.

Record Notification := mkNotification {
  n_Type : string; Source : string; AggregateIDs : list string; n_Metadata : gomap any; n_Timestamp : Z
}.

(** ** Back-off *)

(** [scaled d m n] is [time.Duration(float64(d) * math.Pow(m, float64(n)))]. *)
Class FloatPow := { float : Type; two : float; scaled : Z → float → Z → Z }.
Section realtime.
Context {FP : FloatPow}.

Record ExponentialBackoff := mkBackoff { InitialDelay : Z; MaxDelay : Z; Multiplier : float }.
Definition NextDelay (attempt : Z) (eb : ExponentialBackoff) : Z :=
  if attempt <=? 0 then Z.min (InitialDelay eb) (MaxDelay eb)
  else
    let delay := scaled (InitialDelay eb) (Multiplier eb) attempt in
    if (MaxDelay eb <? delay) || (delay <? 0) then MaxDelay eb else delay.
Definition default_backoff : ExponentialBackoff := mkBackoff 1000000000 30000000000 two.

(** ** The manager *)
Record RealtimeSyncOptions := mkRealtimeOptions {
  SyncOptions_ : SyncOptions; RealtimeNotifier : bool; NotificationFilter : option (Notification → bool);
  DisablePolling : bool; FallbackInterval : Z; ReconnectBackoff : option ExponentialBackoff
}.
Record ConnectionStatus := mkStatus {
  Connected : bool; LastConnected : option Z; ReconnectAttempts : Z; status_Error : option error
}.

(** Where a goroutine stands.  [attempt] of [handleNotifications] is shared with
    its callbacks and lives in a cell; the channel and the ticker a [select]
    waits on are the goroutine's own copies. *)
Inductive handler_pc :=
  | HTop
  | HSubscribed
  | HFailed (e : error)
  | HDelay
  | HWait (delay : Z) (stopChan : nat).
Inductive monitor_pc := MTop | MSelect (stopChan : nat) | MFallback (connected : bool).
Inductive poller_pc := PTop | PSelect (stopChan tickChan : nat).
Inductive thread :=
  | Handler (ctx cell : nat) (pc : handler_pc)
  | Monitor (ctx : nat) (pc : monitor_pc)
  | Poller (ctx ticker : nat) (pc : poller_pc)
  | SyncTask.

Inductive NotifierCall := CSubscribe (cell : nat) | CUnsubscribe | CClose.

Context {St T : Type} {ES : EventStore St} {TR : Transport T} {MR : MapRange} {TT : TimeText}.

(** [channels] counts the stop channels made and [closed_chans] are those closed,
    [tickers] counts the tickers and [ticking] are those not stopped; [attempts]
    are the cells; [listening] are the cells whose callback the notifier holds;
    [ended] are the contexts that are over. *)
Record realtimeSyncManager := mkRealtime {
  base : World St T;
  realtimeOptions : RealtimeSyncOptions;
  connectionStatus : ConnectionStatus;
  notificationStop : option nat;
  fallbackTicker : option nat;
  channels : nat;
  closed_chans : gset nat;
  tickers : nat;
  ticking : gset nat;
  attempts : list Z;
  listening : gset nat;
  calls : list NotifierCall;
  ended : gset nat;
  threads : list thread
}.
Implicit Types rsm : realtimeSyncManager.
Definition set_base (w : World St T) rsm : realtimeSyncManager :=
  mkRealtime w (realtimeOptions rsm) (connectionStatus rsm) (notificationStop rsm) (fallbackTicker rsm)
    (channels rsm) (closed_chans rsm) (tickers rsm) (ticking rsm) (attempts rsm) (listening rsm) (calls rsm)
    (ended rsm) (threads rsm).
Definition set_status (c : ConnectionStatus) rsm : realtimeSyncManager :=
  mkRealtime (base rsm) (realtimeOptions rsm) c (notificationStop rsm) (fallbackTicker rsm)
    (channels rsm) (closed_chans rsm) (tickers rsm) (ticking rsm) (attempts rsm) (listening rsm) (calls rsm)
    (ended rsm) (threads rsm).
Definition set_stop (stop : option nat) (n : nat) (closed : gset nat) rsm : realtimeSyncManager :=
  mkRealtime (base rsm) (realtimeOptions rsm) (connectionStatus rsm) stop (fallbackTicker rsm)
    n closed (tickers rsm) (ticking rsm) (attempts rsm) (listening rsm) (calls rsm)
    (ended rsm) (threads rsm).
Definition set_ticker (t : option nat) (n : nat) (on : gset nat) rsm : realtimeSyncManager :=
  mkRealtime (base rsm) (realtimeOptions rsm) (connectionStatus rsm) (notificationStop rsm) t
    (channels rsm) (closed_chans rsm) n on (attempts rsm) (listening rsm) (calls rsm)
    (ended rsm) (threads rsm).
Definition set_attempts (l : list Z) rsm : realtimeSyncManager :=
  mkRealtime (base rsm) (realtimeOptions rsm) (connectionStatus rsm) (notificationStop rsm) (fallbackTicker rsm)
    (channels rsm) (closed_chans rsm) (tickers rsm) (ticking rsm) l (listening rsm) (calls rsm)
    (ended rsm) (threads rsm).
Definition set_notifier (l : gset nat) (cs : list NotifierCall) rsm : realtimeSyncManager :=
  mkRealtime (base rsm) (realtimeOptions rsm) (connectionStatus rsm) (notificationStop rsm) (fallbackTicker rsm)
    (channels rsm) (closed_chans rsm) (tickers rsm) (ticking rsm) (attempts rsm) l cs
    (ended rsm) (threads rsm).
Definition set_ended (c : gset nat) rsm : realtimeSyncManager :=
  mkRealtime (base rsm) (realtimeOptions rsm) (connectionStatus rsm) (notificationStop rsm) (fallbackTicker rsm)
    (channels rsm) (closed_chans rsm) (tickers rsm) (ticking rsm) (attempts rsm) (listening rsm) (calls rsm)
    c (threads rsm).
Definition set_threads (l : list thread) rsm : realtimeSyncManager :=
  mkRealtime (base rsm) (realtimeOptions rsm) (connectionStatus rsm) (notificationStop rsm) (fallbackTicker rsm)
    (channels rsm) (closed_chans rsm) (tickers rsm) (ticking rsm) (attempts rsm) (listening rsm) (calls rsm)
    (ended rsm) l.
Definition go (l : list thread) rsm : realtimeSyncManager := set_threads (threads rsm ++ l) rsm.

Definition nil_options : RealtimeSyncOptions :=
  mkRealtimeOptions (mkSyncOptions false false None None 100 0 None false 0 false) false None false
    30000000000 (Some default_backoff).
(** The embedded manager has no state machine; options that are given keep
    their zero fields. *)
Definition NewRealtimeSyncManager (store : St) (transport : T) (options : option RealtimeSyncOptions)
    : realtimeSyncManager :=
  let o := default nil_options options in
  mkRealtime
    (mkWorld store transport (mkManager (SyncOptions_ o) None None 0 [] false None) [] 0 [] [])
    o (mkStatus false None 0 None) None None 0 ∅ 0 ∅ [] ∅ [] ∅ [].

Definition updateConnectionStatus (connected : bool) (lastConnected : option Z) (err : option error) rsm
    : realtimeSyncManager :=
  let c := connectionStatus rsm in
  set_status (mkStatus connected (match lastConnected with Some _ => lastConnected | None => LastConnected c end)
                (ReconnectAttempts c) err) rsm.
Definition updateReconnectAttempts (n : Z) rsm : realtimeSyncManager :=
  let c := connectionStatus rsm in
  set_status (mkStatus (Connected c) (LastConnected c) n (status_Error c)) rsm.

Definition EnableRealtime (ctx : nat) rsm : realtimeSyncManager * option error :=
  if negb (RealtimeNotifier (realtimeOptions rsm)) then (rsm, Some (ErrMsg "no realtime notifier configured"))
  else if notificationStop rsm then (rsm, Some (ErrMsg "realtime notifications already active"))
  else
    let cell := length (attempts rsm) in
    (go [Handler ctx cell HTop; Monitor ctx MTop]
       (set_attempts (attempts rsm ++ [0])
          (set_stop (Some (channels rsm)) (S (channels rsm)) (closed_chans rsm) rsm)), None).

Definition stop_ticker rsm : realtimeSyncManager :=
  match fallbackTicker rsm with
  | Some t => set_ticker None (tickers rsm) (ticking rsm ∖ {[t]}) rsm
  | None => rsm
  end.
Definition stopFallbackPolling : realtimeSyncManager → realtimeSyncManager := stop_ticker.

(** [Unsubscribe] ends the callbacks; its error is dropped. *)
Definition Unsubscribe rsm : realtimeSyncManager := set_notifier ∅ (calls rsm ++ [CUnsubscribe]) rsm.
(** Closing a channel that is closed already panics. *)
Definition close_chan (c : nat) rsm : outcome realtimeSyncManager :=
  if bool_decide (c ∈ closed_chans rsm) then Panic "close of closed channel"
  else Done (set_stop None (channels rsm) (closed_chans rsm ∪ {[c]}) rsm).
Definition DisableRealtime rsm : outcome (realtimeSyncManager * option error) :=
  match notificationStop rsm with
  | None => Done (rsm, Some (ErrMsg "realtime notifications not active"))
  | Some c =>
      let* rsm := close_chan c rsm in
      let rsm := stop_ticker rsm in
      Done (if RealtimeNotifier (realtimeOptions rsm) then Unsubscribe rsm else rsm, None)
  end.

Definition IsRealtimeActive rsm : bool := if notificationStop rsm then true else false.
Definition GetConnectionStatus rsm : ConnectionStatus := connectionStatus rsm.

Definition startFallbackPolling (ctx : nat) rsm : outcome realtimeSyncManager :=
  if (if fallbackTicker rsm then true else false) || DisablePolling (realtimeOptions rsm) then Done rsm
  else if FallbackInterval (realtimeOptions rsm) <=? 0 then Panic "non-positive interval for NewTicker"
  else
    let t := tickers rsm in
    Done (go [Poller ctx t PTop] (set_ticker (Some t) (S t) (ticking rsm ∪ {[t]}) rsm)).

(** The synchronisation a notification or a tick starts, in its goroutine. *)
Definition sync_task : M St T () :=
  let! (r, err) := Sync in
  match err, r with
  | None, Some r => notifySubscribers r
  | _, _ => mret ()
  end.

(** The callback given to [Subscribe]. *)
Definition on_notification (cell : nat) (n : Notification) (now : Z) rsm : realtimeSyncManager :=
  let rsm := set_attempts (<[cell := 0]> (attempts rsm)) rsm in
  let rsm := updateConnectionStatus true (Some now) None rsm in
  if negb (match NotificationFilter (realtimeOptions rsm) with Some f => f n | None => true end) then rsm
  else if bool_decide (n_Type n = "data_changed") || bool_decide (n_Type n = "sync_requested")
       then go [SyncTask] rsm
       else rsm.

(** ** Goroutines *)

(** What lets a goroutine go on: nothing ([Go]), the return of [Subscribe], the
    stop channel or the context ([Stopped]), a timer, a tick together with the
    answer of [IsConnected] and the time, a synchronisation. *)
Inductive answer :=
  | Go
  | Returned (err : option error)
  | Stopped
  | Elapsed
  | Ticked (connected : bool) (now : Z)
  | Synced (env : Env).

Definition over (ctx : nat) rsm : bool := bool_decide (ctx ∈ ended rsm).
Definition is_closed (c : nat) rsm : bool := bool_decide (c ∈ closed_chans rsm).
Definition backoff_of rsm : ExponentialBackoff := default default_backoff (ReconnectBackoff (realtimeOptions rsm)).
Definition maxTimeout : Z := 300000000000.

(** A step of a goroutine: not possible, or what it leaves behind, the goroutine
    included unless it has returned. *)
Definition moved := option (outcome (realtimeSyncManager * option thread)).
Definition stays rsm (th : thread) : moved := Some (Done (rsm, Some th)).
Definition ends rsm : moved := Some (Done (rsm, None)).

Definition handleNotifications (ctx cell : nat) (pc : handler_pc) (a : answer) rsm : moved :=
  match pc, a with
  | HTop, Go =>
      match notificationStop rsm with
      | None => ends rsm
      | Some c =>
          if over ctx rsm || is_closed c rsm then ends rsm
          else stays (set_notifier (listening rsm ∪ {[cell]}) (calls rsm ++ [CSubscribe cell]) rsm)
                 (Handler ctx cell HSubscribed)
      end
  | HSubscribed, Returned (Some e) =>
      let rsm := updateConnectionStatus false None (Some e) rsm in
      stays (updateReconnectAttempts (default 0 (attempts rsm !! cell)) rsm) (Handler ctx cell (HFailed e))
  | HSubscribed, Returned None => stays (stopFallbackPolling rsm) (Handler ctx cell HTop)
  | HFailed _, Go =>
      Some (let* rsm := if negb (DisablePolling (realtimeOptions rsm))
                           && (if fallbackTicker rsm then false else true)
                        then startFallbackPolling ctx rsm else Done rsm in
            Done (rsm, Some (Handler ctx cell HDelay)))
  | HDelay, Go =>
      let n := default 0 (attempts rsm !! cell) in
      let delay := NextDelay n (backoff_of rsm) in
      let delay := if maxTimeout <? delay then maxTimeout else delay in
      let rsm := set_attempts (<[cell := i64 (n + 1)]> (attempts rsm)) rsm in
      match notificationStop rsm with
      | None => ends rsm
      | Some c => stays rsm (Handler ctx cell (HWait delay c))
      end
  | HWait _ c, Stopped => if over ctx rsm || is_closed c rsm then ends rsm else None
  | HWait _ _, Elapsed => stays rsm (Handler ctx cell HTop)
  | _, _ => None
  end.

Definition monitorConnection (ctx : nat) (pc : monitor_pc) (a : answer) rsm : moved :=
  match pc, a with
  | MTop, Go =>
      match notificationStop rsm with
      | None => ends rsm
      | Some c => stays rsm (Monitor ctx (MSelect c))
      end
  | MSelect c, Stopped => if over ctx rsm || is_closed c rsm then ends rsm else None
  | MSelect _, Ticked connected now =>
      if RealtimeNotifier (realtimeOptions rsm) && negb (Bool.eqb (Connected (connectionStatus rsm)) connected)
      then stays (updateConnectionStatus connected (if connected then Some now else None) None rsm)
             (Monitor ctx (MFallback connected))
      else stays rsm (Monitor ctx MTop)
  | MFallback true, Go => stays (stopFallbackPolling rsm) (Monitor ctx MTop)
  | MFallback false, Go =>
      Some (let* rsm := startFallbackPolling ctx rsm in Done (rsm, Some (Monitor ctx MTop)))
  | _, _ => None
  end.

(** The loop of [startFallbackPolling]'s goroutine: its top reads
    [rsm.fallbackTicker.C] before it looks at the stop channel. *)
Definition poll_loop (ctx ticker : nat) (pc : poller_pc) (a : answer) rsm : moved :=
  let stop_own := set_ticker (fallbackTicker rsm) (tickers rsm) (ticking rsm ∖ {[ticker]}) rsm in
  match pc, a with
  | PTop, Go =>
      match fallbackTicker rsm with
      | None => Some (Panic "nil pointer dereference")
      | Some t =>
          match notificationStop rsm with
          | None => ends stop_own
          | Some c => stays rsm (Poller ctx ticker (PSelect c t))
          end
      end
  | PSelect c _, Stopped => if over ctx rsm || is_closed c rsm then ends stop_own else None
  | PSelect _ t, Ticked connected _ =>
      if bool_decide (t ∈ ticking rsm)
      then stays (if connected then rsm else go [SyncTask] rsm) (Poller ctx ticker PTop)
      else None
  | _, _ => None
  end.

Definition advance (th : thread) (a : answer) rsm : moved :=
  match th with
  | Handler ctx cell pc => handleNotifications ctx cell pc a rsm
  | Monitor ctx pc => monitorConnection ctx pc a rsm
  | Poller ctx ticker pc => poll_loop ctx ticker pc a rsm
  | SyncTask =>
      match a with
      | Synced env =>
          Some (match sync_task env (base rsm) with
                | Done (w, _) => Done (set_base w rsm, None)
                | Panic why => Panic why
                end)
      | _ => None
      end
  end.
(** The [i]-th goroutine goes on; what it starts is appended. *)
Definition run_thread (i : nat) (a : answer) rsm : option (outcome realtimeSyncManager) :=
  th ← threads rsm !! i;
  r ← advance th a rsm;
  Some (let* (rsm', th') := r in
        Done (set_threads (match th' with
                           | Some th' => <[i := th']> (threads rsm')
                           | None => delete i (threads rsm')
                           end) rsm')).

(** [Close]: the notifier's own error is only logged. *)
Definition Close (env : Env) rsm : outcome (realtimeSyncManager * option error) :=
  let* (rsm, _) := DisableRealtime rsm in
  let rsm := if RealtimeNotifier (realtimeOptions rsm)
             then set_notifier (listening rsm) (calls rsm ++ [CClose]) rsm else rsm in
  match Manager.Close env (base rsm) with
  | Done (w, err) => Done (set_base w rsm, err)
  | Panic why => Panic why
  end.

Inductive label :=
  | LEnable (ctx : nat)
  | LDisable
  | LClose (env : Env)
  | LNotify (cell : nat) (n : Notification) (now : Z)
  | LCtxEnds (ctx : nat)
  | LRun (i : nat) (a : answer).
Definition perform (l : label) rsm : option (outcome realtimeSyncManager) :=
  match l with
  | LEnable ctx => Some (Done (EnableRealtime ctx rsm).1)
  | LDisable => Some (let* (rsm, _) := DisableRealtime rsm in Done rsm)
  | LClose env => Some (let* (rsm, _) := Close env rsm in Done rsm)
  | LNotify cell n now => if bool_decide (cell ∈ listening rsm) then Some (Done (on_notification cell n now rsm)) else None
  | LCtxEnds ctx => Some (Done (set_ended (ended rsm ∪ {[ctx]}) rsm))
  | LRun i a => run_thread i a rsm
  end.
(** A schedule: performed label by label, [None] when a label is not possible. *)
Fixpoint run (ls : list label) rsm : option (outcome realtimeSyncManager) :=
  match ls with
  | [] => Some (Done rsm)
  | l :: ls =>
      match perform l rsm with
      | Some (Done rsm) => run ls rsm
      | Some (Panic why) => Some (Panic why)
      | None => None
      end
  end.

(** ** Back-off *)
Lemma NextDelay_range n eb : 0 ≤ InitialDelay eb → 0 ≤ MaxDelay eb → 0 ≤ NextDelay n eb ≤ MaxDelay eb.
Proof.
  intros Hi Hm. unfold NextDelay. destruct (n <=? 0); [lia|]. cbn zeta.
  destruct (_ || _) eqn:Hb; [lia|]. apply orb_false_iff in Hb as [H1%Z.ltb_ge H2%Z.ltb_ge]. lia.
Qed.

(** ** What every reachable state keeps *)
Definition chan_of (th : thread) : option nat :=
  match th with
  | Handler _ _ (HWait _ c) | Monitor _ (MSelect c) | Poller _ _ (PSelect c _) => Some c
  | _ => None
  end.
Definition known rsm (c : nat) : Prop := notificationStop rsm = Some c ∨ c ∈ closed_chans rsm.
Record realtime_inv rsm : Prop := {
  inv_open : ∀ c, notificationStop rsm = Some c → c ∉ closed_chans rsm ∧ (c < channels rsm)%nat;
  inv_closed : ∀ c, c ∈ closed_chans rsm → (c < channels rsm)%nat;
  inv_notifier : is_Some (notificationStop rsm) → RealtimeNotifier (realtimeOptions rsm) = true;
  inv_waits : ∀ th c, th ∈ threads rsm → chan_of th = Some c → known rsm c
}.

Lemma fresh_realtime_inv store transport o : realtime_inv (NewRealtimeSyncManager store transport o).
Proof.
  split; cbn; [done|intros c Hc; by apply elem_of_empty in Hc|by intros [? ?]|intros th c Hc; by apply elem_of_nil in Hc].
Qed.
(** The channels and the threads are all the invariant looks at. *)
Lemma inv_same rsm rsm' :
  realtime_inv rsm → notificationStop rsm' = notificationStop rsm → closed_chans rsm' = closed_chans rsm →
  channels rsm' = channels rsm → realtimeOptions rsm' = realtimeOptions rsm →
  (∀ th c, th ∈ threads rsm' → chan_of th = Some c → th ∈ threads rsm ∨ known rsm c) →
  realtime_inv rsm'.
Proof.
  intros [Ho Hc Hnf Hw] Hs Hcl Hn Hop Hth. split; rewrite ?Hs, ?Hcl, ?Hn, ?Hop; [done..|].
  intros th c Hin Hch. unfold known. rewrite Hs, Hcl.
  destruct (Hth th c Hin Hch) as [Hold|Hk]; [by eapply Hw|done].
Qed.

Ltac same_inv Hinv := eapply (inv_same _ _ Hinv); cbn; [done..|].
Lemma go_inv l rsm : (∀ th, th ∈ l → chan_of th = None) → realtime_inv rsm → realtime_inv (go l rsm).
Proof.
  intros Hl Hinv. same_inv Hinv. intros th c [Hin|Hin]%elem_of_app Hch; [by left|].
  by rewrite (Hl th Hin) in Hch.
Qed.
Lemma stop_ticker_same rsm :
  let rsm' := stop_ticker rsm in
  notificationStop rsm' = notificationStop rsm ∧ closed_chans rsm' = closed_chans rsm
  ∧ channels rsm' = channels rsm ∧ threads rsm' = threads rsm ∧ realtimeOptions rsm' = realtimeOptions rsm
  ∧ fallbackTicker rsm' = None ∧ base rsm' = base rsm ∧ ended rsm' = ended rsm.
Proof. unfold stop_ticker. destruct (fallbackTicker rsm) eqn:Ht; cbn; by split_and!. Qed.

Lemma Disable_cases rsm :
  realtime_inv rsm →
  ∃ rsm' err, DisableRealtime rsm = Done (rsm', err)
    ∧ realtime_inv rsm' ∧ notificationStop rsm' = None ∧ threads rsm' = threads rsm
    ∧ (err = None ↔ is_Some (notificationStop rsm)) ∧ (err ≠ None → rsm' = rsm)
    ∧ (err = None → fallbackTicker rsm' = None ∧ listening rsm' = ∅) ∧ base rsm' = base rsm
    ∧ realtimeOptions rsm' = realtimeOptions rsm.
Proof.
  intros Hinv. unfold DisableRealtime. destruct (notificationStop rsm) as [c|] eqn:Hs.
  2: { eexists _, _. split; [reflexivity|]. split_and!; try done. }
  destruct (inv_open _ Hinv c Hs) as [Hopen Hlt]. unfold close_chan. rewrite bool_decide_false by done. cbn [obind].
  set (rsm1 := set_stop _ _ _ rsm).
  assert (realtime_inv rsm1) as Hinv1.
  { split; cbn; [done| | |].
    - intros x [Hx| ->%elem_of_singleton]%elem_of_union; [by apply (inv_closed _ Hinv)|done].
    - by intros [? ?].
    - intros th x Hin Hch. right. destruct (inv_waits _ Hinv th x Hin Hch) as [Hk|Hk]; cbn; [|set_solver].
      rewrite Hs in Hk. injection Hk as <-. set_solver. }
  destruct (stop_ticker_same rsm1) as (H1 & H2 & H3 & H4 & H5 & H6 & H7 & H8). rewrite H5.
  assert (realtime_inv (stop_ticker rsm1)) as Hinv2.
  { eapply (inv_same _ _ Hinv1); [done..|]. rewrite H4. by left. }
  eexists _, _. split; [reflexivity|].
  assert (RealtimeNotifier (realtimeOptions rsm1) = true) as -> by (apply (inv_notifier _ Hinv); by eexists).
  cbn. split_and!; try done. same_inv Hinv2. by left.
Qed.

(** A goroutine leaves the stop channel and the options alone, starts only
    goroutines at their beginning, and waits on the current stop channel. *)
Record advanced rsm rsm' (th' : option thread) : Prop := {
  adv_stop : notificationStop rsm' = notificationStop rsm;
  adv_closed : closed_chans rsm' = closed_chans rsm;
  adv_channels : channels rsm' = channels rsm;
  adv_options : realtimeOptions rsm' = realtimeOptions rsm;
  adv_ended : ended rsm' = ended rsm;
  adv_started : ∃ l, threads rsm' = threads rsm ++ l ∧ (∀ th, th ∈ l → chan_of th = None);
  adv_waits : ∀ th c, th' = Some th → chan_of th = Some c → notificationStop rsm = Some c
}.
Lemma advanced_quiet rsm rsm' th' :
  notificationStop rsm' = notificationStop rsm → closed_chans rsm' = closed_chans rsm →
  channels rsm' = channels rsm → realtimeOptions rsm' = realtimeOptions rsm → ended rsm' = ended rsm →
  threads rsm' = threads rsm →
  (∀ th c, th' = Some th → chan_of th = Some c → notificationStop rsm = Some c) →
  advanced rsm rsm' th'.
Proof. intros. split; try done. exists []. rewrite app_nil_r. split; [done|]. intros th Hin. by apply elem_of_nil in Hin. Qed.
Lemma start_advanced ctx rsm rsm' th' :
  startFallbackPolling ctx rsm = Done rsm' →
  (∀ th c, th' = Some th → chan_of th = Some c → notificationStop rsm = Some c) →
  advanced rsm rsm' th'.
Proof.
  unfold startFallbackPolling. intros Hs Hw. destruct (_ || _); [injection Hs as <-; by apply advanced_quiet|].
  destruct (_ <=? 0); [done|]. injection Hs as <-. split; try done. eexists. split; [reflexivity|].
  intros th ->%list_elem_of_singleton. done.
Qed.
Lemma stop_ticker_advanced rsm th' :
  (∀ th c, th' = Some th → chan_of th = Some c → notificationStop rsm = Some c) →
  advanced rsm (stop_ticker rsm) th'.
Proof.
  intros Hw. destruct (stop_ticker_same rsm) as (H1 & H2 & H3 & H4 & H5 & H6 & H7 & H8).
  by apply advanced_quiet.
Qed.
Lemma advance_advanced th a rsm rsm' th' :
  advance th a rsm = Some (Done (rsm', th')) → advanced rsm rsm' th'.
Proof.
  assert (∀ th th1 c, @None thread = Some th1 → chan_of th = Some c → notificationStop rsm = Some c) as Hnone by done.
  destruct th as [ctx cell pc|ctx pc|ctx tk pc|]; cbn [advance].
  - destruct pc as [| |e| |d c], a as [|[e'|]| | | |]; cbn [handleNotifications]; unfold stays, ends; try done.
    + destruct (notificationStop rsm) as [c|] eqn:Hs; [|by intros [= <- <-]; apply advanced_quiet].
      destruct (_ || _); intros [= <- <-]; apply advanced_quiet; try done; by intros ? ? [= <-].
    + intros [= <- <-]. apply advanced_quiet; try done. by intros ? ? [= <-].
    + intros [= <- <-]. apply stop_ticker_advanced. by intros ? ? [= <-].
    + intros [= Hx]. destruct (negb _ && _).
      * destruct (startFallbackPolling ctx rsm) as [r|] eqn:Hst; [|done]. cbn in Hx. injection Hx as <- <-.
        eapply start_advanced; [exact Hst|]. by intros ? ? [= <-].
      * cbn in Hx. injection Hx as <- <-. apply advanced_quiet; try done. by intros ? ? [= <-].
    + cbn zeta. destruct (notificationStop _) as [c|] eqn:Hs; cbn in Hs; intros [= <- <-]; apply advanced_quiet; try done.
      by intros th1 c1 [= <-] [= <-].
    + destruct (_ || _); [|done]. intros [= <- <-]. by apply advanced_quiet.
    + intros [= <- <-]. apply advanced_quiet; try done. by intros ? ? [= <-].
  - destruct pc as [|c|[]], a; cbn [monitorConnection]; unfold stays, ends; try done.
    + destruct (notificationStop rsm) as [c|] eqn:Hs; intros [= <- <-]; apply advanced_quiet; try done.
      intros th1 c1 [= <-] [= <-]. done.
    + destruct (_ || _); [|done]. intros [= <- <-]. by apply advanced_quiet.
    + destruct (_ && _); intros [= <- <-]; apply advanced_quiet; try done; by intros ? ? [= <-].
    + intros [= <- <-]. apply stop_ticker_advanced. by intros ? ? [= <-].
    + intros [= Hx]. destruct (startFallbackPolling ctx rsm) as [r|] eqn:Hst; [|done]. cbn in Hx.
      injection Hx as <- <-. eapply start_advanced; [exact Hst|]. by intros ? ? [= <-].
  - destruct pc as [|c t], a; cbn [poll_loop]; unfold stays, ends; try done.
    + destruct (fallbackTicker rsm) as [t|] eqn:Ht; [|done].
      destruct (notificationStop rsm) as [c|] eqn:Hs; intros [= <- <-]; apply advanced_quiet; cbn; try done.
      intros th1 c1 [= <-] [= <-]. done.
    + destruct (_ || _); [|done]. intros [= <- <-]. by apply advanced_quiet.
    + destruct (bool_decide _); [|done]. intros [= <- <-]. destruct connected; [apply advanced_quiet; try done; by intros ? ? [= <-]|].
      split; try done; [|by intros ? ? [= <-]]. eexists. split; [reflexivity|].
      intros th ->%list_elem_of_singleton. done.
  - destruct a; try done. intros [= Hx]. destruct (sync_task env (base rsm)) as [[w []]|]; [|done].
    injection Hx as <- <-. by apply advanced_quiet.
Qed.

Lemma run_thread_cases i a rsm rsm' :
  run_thread i a rsm = Some (Done rsm') →
  ∃ th th' r, threads rsm !! i = Some th ∧ advance th a rsm = Some (Done (r, th')) ∧ advanced rsm r th'
    ∧ rsm' = set_threads (match th' with Some th' => <[i := th']> (threads r) | None => delete i (threads r) end) r.
Proof.
  unfold run_thread. destruct (threads rsm !! i) as [th|]; [|done].
  destruct (advance th a rsm) as [[[r th']|]|] eqn:Ha; cbn -[advance]; rewrite Ha; [|done..]. cbn. intros [= <-].
  exists th, th', r. split_and!; [done|done| |done]. by eapply advance_advanced.
Qed.
Lemma elem_of_replaced (i : nat) (th' : option thread) (l : list thread) (th : thread) :
  th ∈ match th' with Some th' => <[i := th']> l | None => delete i l end → th ∈ l ∨ th' = Some th.
Proof.
  destruct th' as [th'|]; [|by intros ?%list_elem_of_delete_inv; left].
  intros [j Hj]%list_elem_of_lookup. destruct (decide (i = j)) as [<-|Hne].
  - destruct (decide (i < length l)%nat).
    + rewrite list_lookup_insert_eq in Hj by done. injection Hj as ->. by right.
    + rewrite list_insert_ge in Hj by lia. left. by eapply list_elem_of_lookup_2.
  - rewrite list_lookup_insert_ne in Hj by done. left. by eapply list_elem_of_lookup_2.
Qed.
Lemma run_thread_inv i a rsm rsm' : realtime_inv rsm → run_thread i a rsm = Some (Done rsm') → realtime_inv rsm'.
Proof.
  intros Hinv (th & th' & r & Hth & Ha & [Hs Hc Hn Ho He (l & Hl & Hnew) Hw] & ->)%run_thread_cases.
  eapply (inv_same _ _ Hinv); cbn; [done..|]. intros th1 c Hin Hch.
  apply elem_of_replaced in Hin as [Hin|Heq]; [rewrite Hl in Hin; apply elem_of_app in Hin as [Hold|Hin1]|].
  - by left.
  - by rewrite (Hnew th1 Hin1) in Hch.
  - right. left. by eapply Hw.
Qed.

Lemma Enable_cases ctx rsm :
  realtime_inv rsm →
  realtime_inv (EnableRealtime ctx rsm).1
  ∧ ((EnableRealtime ctx rsm).2 = None
     ↔ RealtimeNotifier (realtimeOptions rsm) = true ∧ notificationStop rsm = None)
  ∧ ((EnableRealtime ctx rsm).2 = None →
       notificationStop (EnableRealtime ctx rsm).1 = Some (channels rsm)
       ∧ threads (EnableRealtime ctx rsm).1
         = threads rsm ++ [Handler ctx (length (attempts rsm)) HTop; Monitor ctx MTop])
  ∧ ((EnableRealtime ctx rsm).2 ≠ None → (EnableRealtime ctx rsm).1 = rsm).
Proof.
  intros Hinv. unfold EnableRealtime.
  destruct (RealtimeNotifier (realtimeOptions rsm)) eqn:Hn; cbn [negb]; [|split_and!; naive_solver].
  destruct (notificationStop rsm) as [c|] eqn:Hs; [split_and!; naive_solver|]. cbn.
  split_and!; [|done|done|done]. apply go_inv.
  { by intros th [-> | ->%list_elem_of_singleton]%elem_of_cons. }
  split; cbn; [| |done|].
  - intros c [= <-]. split; [|lia]. intros Hc%(inv_closed _ Hinv). lia.
  - intros c Hc%(inv_closed _ Hinv). lia.
  - intros th c Hin Hch. destruct (inv_waits _ Hinv th c Hin Hch) as [Hk|Hk]; [congruence|by right].
Qed.

Definition same_but_world rsm rsm' : Prop :=
  notificationStop rsm' = notificationStop rsm ∧ closed_chans rsm' = closed_chans rsm
  ∧ channels rsm' = channels rsm ∧ realtimeOptions rsm' = realtimeOptions rsm ∧ threads rsm' = threads rsm
  ∧ listening rsm' = listening rsm ∧ ended rsm' = ended rsm.
Lemma same_but_world_inv rsm rsm' : same_but_world rsm rsm' → realtime_inv rsm → realtime_inv rsm'.
Proof.
  intros (H1 & H2 & H3 & H4 & H5 & _) Hinv. eapply (inv_same _ _ Hinv); [done..|]. rewrite H5. by left.
Qed.
Lemma Close_cases env rsm rsm' err :
  Close env rsm = Done (rsm', err) →
  ∃ rsm1 err1, DisableRealtime rsm = Done (rsm1, err1) ∧ same_but_world rsm1 rsm'.
Proof.
  unfold Close. destruct (DisableRealtime rsm) as [[rsm1 err1]|]; [|done]. cbn [obind].
  destruct (Manager.Close env _) as [[w e]|]; [|done]. intros [= <- <-]. exists rsm1, err1. split; [done|].
  unfold same_but_world. destruct (RealtimeNotifier (realtimeOptions rsm1)); by split_and!.
Qed.

Definition relevant (n : Notification) rsm : bool :=
  match NotificationFilter (realtimeOptions rsm) with Some f => f n | None => true end
  && (bool_decide (n_Type n = "data_changed") || bool_decide (n_Type n = "sync_requested")).

Lemma on_notification_cases cell n now rsm :
  let rsm' := on_notification cell n now rsm in
  notificationStop rsm' = notificationStop rsm ∧ closed_chans rsm' = closed_chans rsm
  ∧ channels rsm' = channels rsm ∧ realtimeOptions rsm' = realtimeOptions rsm
  ∧ listening rsm' = listening rsm ∧ base rsm' = base rsm ∧ ended rsm' = ended rsm
  ∧ fallbackTicker rsm' = fallbackTicker rsm ∧ attempts rsm' = <[cell := 0]> (attempts rsm)
  ∧ connectionStatus rsm' = mkStatus true (Some now) (ReconnectAttempts (connectionStatus rsm)) None
  ∧ threads rsm' = threads rsm ++
      (if relevant n rsm then [SyncTask] else []).
Proof.
  unfold on_notification, relevant. cbn.
  destruct (match NotificationFilter _ with Some f => f n | None => true end); cbn;
    [|rewrite app_nil_r; by split_and!].
  destruct (bool_decide (n_Type n = "data_changed") || _); cbn; [|rewrite app_nil_r]; by split_and!.
Qed.

Lemma perform_inv l rsm rsm' : realtime_inv rsm → perform l rsm = Some (Done rsm') → realtime_inv rsm'.
Proof.
  intros Hinv. destruct l as [ctx| |env|cell n now|ctx|i a]; cbn [perform].
  - intros [= <-]. by apply Enable_cases.
  - destruct (Disable_cases rsm Hinv) as (r & e & -> & Hr & _). by intros [= <-].
  - destruct (Close env rsm) as [[r e]|] eqn:Hc; [|done]. intros [= <-].
    destruct (Close_cases _ _ _ _ Hc) as (r1 & e1 & Hd & Hsame).
    destruct (Disable_cases rsm Hinv) as (r2 & e2 & Hd2 & Hr & _). rewrite Hd2 in Hd. injection Hd as <- <-.
    by eapply same_but_world_inv.
  - destruct (bool_decide _); [|done]. intros [= <-].
    destruct (on_notification_cases cell n now rsm) as (H1 & H2 & H3 & H4 & _ & _ & _ & _ & _ & _ & H5).
    eapply (inv_same _ _ Hinv); [done..|]. rewrite H5. intros th c [Hin|Hin]%elem_of_app Hch; [by left|].
    destruct (relevant n rsm); [apply list_elem_of_singleton in Hin as ->|by apply elem_of_nil in Hin]. done.
  - intros [= <-]. same_inv Hinv. by left.
  - by apply run_thread_inv.
Qed.
Lemma run_inv ls : ∀ rsm rsm', realtime_inv rsm → run ls rsm = Some (Done rsm') → realtime_inv rsm'.
Proof.
  induction ls as [|l ls IH]; intros rsm rsm' Hinv; cbn [run]; [by intros [= <-]|].
  destruct (perform l rsm) as [[r|]|] eqn:Hp; [|done..]. apply IH. by eapply perform_inv.
Qed.

#[local] Arguments total : simpl never.



(** ** What a synchronisation tells the subscribers *)
Definition silent {A} (m : M St T A) : Prop := ∀ env w w' a,
  m env w = Done (w', a) → w_notified w' = w_notified w ∧ subscribers (w_mgr w') = subscribers (w_mgr w).

Lemma silent_bind {A B} (m : M St T A) (f : A → M St T B) : silent m → (∀ a, silent (f a)) → silent (Manager.mbind m f).
Proof.
  intros Hm Hf env w w' b. unfold Manager.mbind. destruct (m env w) as [[w1 a]|] eqn:H1; [|done].
  intros H2. destruct (Hf _ _ _ _ _ H2) as [-> ->]. by eapply Hm.
Qed.
Lemma silent_ret {A} (a : A) : silent (Manager.mret a).
Proof. by intros env w w' b [= <- <-]. Qed.
Lemma silent_lift {A} (o : outcome A) : silent (lift o).
Proof. intros env w w' a. unfold lift. destruct o; [by intros [= <- <-]|done]. Qed.
Lemma silent_now : silent (@now St T).
Proof. by intros env w w' a [= <- <-]. Qed.
Lemma silent_ctx : silent (@Manager.ctx St T).
Proof. by intros env w w' a [= <- <-]. Qed.
Lemma silent_poll : silent (@poll St T).
Proof. by intros env w w' a [= <- <-]. Qed.
Lemma silent_get_mgr : silent (@get_mgr St T).
Proof. by intros env w w' a [= <- <-]. Qed.
Lemma silent_metric c : silent (@metric St T c).
Proof. by intros env w w' a [= <- <-]. Qed.
Lemma silent_on_store {A} f : silent (@on_store St T A f).
Proof. intros env w w' a. unfold on_store. destruct (f _ _) as [[s x]|]; [by intros [= <- <-]|done]. Qed.
Lemma silent_ask_store {A} f : silent (@ask_store St T A f).
Proof. intros env w w' a. unfold ask_store. destruct (f _ _); [by intros [= <- <-]|done]. Qed.
Lemma silent_on_transport {A} f : silent (@on_transport St T A f).
Proof. intros env w w' a. unfold on_transport. destruct (f _ _) as [[s x]|]; [by intros [= <- <-]|done]. Qed.
Lemma silent_ask_transport {A} f : silent (@ask_transport St T A f).
Proof. intros env w w' a. unfold ask_transport. destruct (f _ _); [by intros [= <- <-]|done]. Qed.
Lemma silent_transition to md : silent (@transition St T to md).
Proof.
  intros env w w' a. unfold transition. destruct (Manager.stateMachine (w_mgr w)); [|by intros [= <- <-]].
  destruct (TransitionWithContext _ _ _ _ _). by intros [= <- <-].
Qed.
#[local] Hint Resolve silent_ret silent_lift silent_now silent_ctx silent_poll silent_get_mgr silent_metric silent_on_store
  silent_ask_store silent_on_transport silent_ask_transport silent_transition : silent.
Ltac silent := repeat first [progress intros | apply silent_bind | solve [eauto with silent] | case_match].

Lemma silent_push_batches bs : ∀ n, silent (push_batches (TR := TR) (St := St) bs n).
Proof. induction bs; cbn [push_batches]; silent. Qed.
Lemma silent_store_events evs : ∀ n, silent (store_events (ES := ES) (T := T) evs n).
Proof. induction evs; cbn [store_events]; silent. Qed.
Lemma silent_resolve_all r cs : ∀ acc, silent (resolve_all (St := St) (T := T) r cs acc).
Proof. induction cs; cbn [resolve_all]; silent. Qed.
#[local] Hint Resolve silent_push_batches silent_store_events silent_resolve_all : silent.
Lemma silent_wait timeout n : ∀ errs, silent (wait_projections (TT := TT) (St := St) (T := T) timeout n errs).
Proof.
  induction n as [|n IH]; intros errs; cbn [wait_projections]; [apply silent_ret|].
  intros env w w' a. destruct (e_projection env (w_tick w)) as [i slot applied|]; [|by intros [= <- <-]].
  intros [H1 H2]%IH. by rewrite H1, H2.
Qed.
#[local] Hint Resolve silent_wait : silent.
Lemma silent_sync_body r : silent (sync_body (ES := ES) (TR := TR) r).
Proof.
  unfold sync_body, sync_pull, sync_push, sync_finish, pull, pull_body, conflict_phase, resolve_conflicts,
    store_phase, push, push_body, apply_filter, transport_failure, runProjectionsAfterSync. silent.
Qed.

(** [m] tells the subscribers [f] of its answer. *)
Definition tells {A} (f : A → option SyncResult) (m : M St T A) : Prop := ∀ env w w' a,
  m env w = Done (w', a) →
  w_notified w' = w_notified w ++ match f a with Some r => (λ h, (h, r)) <$> subscribers (w_mgr w) | None => [] end
  ∧ subscribers (w_mgr w') = subscribers (w_mgr w).
Lemma bind_inv {A B} (m : M St T A) (f : A → M St T B) env w w' b :
  Manager.mbind m f env w = Done (w', b) → ∃ w1 a, m env w = Done (w1, a) ∧ f a env w1 = Done (w', b).
Proof. unfold Manager.mbind. destruct (m env w) as [[w1 a]|]; [|done]. by exists w1, a. Qed.
Lemma tells_bind {A B} f (m : M St T A) (k : A → M St T B) : silent m → (∀ a, tells f (k a)) → tells f (Manager.mbind m k).
Proof.
  intros Hm Hk env w w' b (w1 & a & H1 & H2)%bind_inv. destruct (Hm _ _ _ _ H1) as [<- <-]. by eapply Hk.
Qed.
Lemma tells_ret {A} (f : A → option SyncResult) a : f a = None → tells f (Manager.mret a).
Proof. intros Hf env w w' b [= <- <-]. by rewrite Hf, app_nil_r. Qed.
Lemma tells_notify {A} f r (m : M St T A) (a : A) : silent m → (∀ env w w' b, m env w = Done (w', b) → f b = Some r) →
  tells f (notifySubscribers r ;; m).
Proof.
  intros Hm Hf env w w' b (w1 & [] & [= <-] & H2)%bind_inv. destruct (Hm _ _ _ _ H2) as [-> ->].
  by rewrite (Hf _ _ _ _ H2).
Qed.
Lemma sync_defer_tells r : tells Some (sync_defer (St := St) (T := T) r).
Proof.
  unfold sync_defer. apply tells_bind; [apply silent_now|]. intros t. cbn zeta.
  apply tells_bind; [apply silent_transition|]. intros _. apply tells_bind; [apply silent_transition|]. intros _.
  apply tells_notify; [exact r|silent|].
  intros env w w' b (w1 & [] & _ & (w2 & [] & _ & [= _ <-])%bind_inv)%bind_inv. done.
Qed.
(** A run tells every subscriber its result once, a refused run tells nobody. *)
Lemma Sync_tells : tells fst (Sync (ES := ES) (TR := TR)).
Proof.
  assert (∀ t, tells fst (Manager.mbind (sync_body (ES := ES) (TR := TR) (new_result t))
    (λ r, Manager.mbind (sync_defer r) (λ r, Manager.mret (Some r, None : option error))))) as Hrun.
  { intros t. apply tells_bind; [apply silent_sync_body|]. intros r env w w' b (w1 & r1 & H1 & [= <- <-])%bind_inv.
    by eapply sync_defer_tells in H1. }
  unfold Sync. apply tells_bind; [apply silent_now|]. intros start. apply tells_bind; [apply silent_get_mgr|].
  intros m. destruct (closed m); [by apply tells_ret|].
  destruct (Current <$> _) as [s|]; cbn match; [|apply tells_bind; [apply silent_now|done]].
  destruct (negb (CanAutoSync s)); [by apply tells_ret|]. apply tells_bind; [apply silent_transition|].
  intros [e|]; [by apply tells_ret|]. apply tells_bind; [apply silent_now|done].
Qed.
(** A synchronisation answers a result or an error. *)
Lemma Sync_answers env w w' r err :
  Sync (ES := ES) (TR := TR) env w = Done (w', (r, err)) → err = None ↔ is_Some r.
Proof.
  unfold Sync. intros (w1 & t & _ & (w2 & m & _ & H)%bind_inv)%bind_inv.
  assert (∀ t env w w' r err,
    Manager.mbind (sync_body (ES := ES) (TR := TR) (new_result t))
      (λ r, Manager.mbind (sync_defer r) (λ r, Manager.mret (Some r, None : option error))) env w = Done (w', (r, err)) →
    err = None ↔ is_Some r) as Hrun.
  { intros ?????? (? & ? & _ & (? & ? & _ & [= _ <- <-])%bind_inv)%bind_inv. split; [by eexists|done]. }
  destruct (closed m); [by injection H as _ <- <-; split; [|intros [? ?]]|].
  destruct (Current <$> _) as [s|]; cbn match in H; [|apply bind_inv in H as (? & ? & _ & H); by eapply Hrun].
  destruct (negb (CanAutoSync s)); [by injection H as _ <- <-; split; [|intros [? ?]]|].
  apply bind_inv in H as (w3 & e & _ & H). destruct e as [e|]; [by injection H as _ <- <-; split; [|intros [? ?]]|].
  apply bind_inv in H as (? & ? & _ & H). by eapply Hrun.
Qed.

(** ** Properties *)

(** Remark: whatever happened before, enabling succeeds exactly when there is a
    notifier and real time is not active, and starts one handler and one
    monitor; disabling never closes a channel twice, succeeds exactly when real
    time is active, and leaves it inactive with no ticker and no callback; a
    call that fails changes nothing. *)
Theorem realtime_lifecycle (store : St) (transport : T) (o : option RealtimeSyncOptions) (ls : list label)
    rsm (ctx : nat) (Hrun : run ls (NewRealtimeSyncManager store transport o) = Some (Done rsm)) :
  ((EnableRealtime ctx rsm).2 = None ↔ RealtimeNotifier (realtimeOptions rsm) = true ∧ IsRealtimeActive rsm = false)
  ∧ ((EnableRealtime ctx rsm).2 = None → IsRealtimeActive (EnableRealtime ctx rsm).1 = true
       ∧ threads (EnableRealtime ctx rsm).1
         = threads rsm ++ [Handler ctx (length (attempts rsm)) HTop; Monitor ctx MTop])
  ∧ ((EnableRealtime ctx rsm).2 ≠ None → (EnableRealtime ctx rsm).1 = rsm)
  ∧ ∃ rsm' err, DisableRealtime rsm = Done (rsm', err)
      ∧ (err = None ↔ IsRealtimeActive rsm = true) ∧ IsRealtimeActive rsm' = false
      ∧ (err = None → fallbackTicker rsm' = None ∧ listening rsm' = ∅) ∧ (err ≠ None → rsm' = rsm).
Proof.
  assert (realtime_inv rsm) as Hinv by (eapply run_inv, Hrun; apply fresh_realtime_inv).
  assert (∀ s, (if notificationStop s then true else false) = false ↔ notificationStop s = None) as Hact
    by (intros s; by destruct (notificationStop s)).
  destruct (Enable_cases ctx rsm Hinv) as (_ & H1 & H2 & H3). unfold IsRealtimeActive. split_and!.
  - by rewrite Hact.
  - intros [Hs Hth]%H2. by rewrite Hs.
  - done.
  - destruct (Disable_cases rsm Hinv) as (rsm' & err & Hd & _ & Hs & _ & He & Hid & Ht & _).
    exists rsm', err. rewrite Hs. split_and!; try done. rewrite He. destruct (notificationStop rsm); split; naive_solver.
Qed.



Lemma perform_options l rsm rsm' :
  realtime_inv rsm → perform l rsm = Some (Done rsm') → realtimeOptions rsm' = realtimeOptions rsm.
Proof.
  intros Hinv. destruct l as [ctx| |env|cell n now|ctx|i a]; cbn [perform].
  - intros [= <-]. unfold EnableRealtime. destruct (negb _); [done|]. by destruct (notificationStop rsm).
  - destruct (Disable_cases rsm Hinv) as (r & e & -> & Hr). intros [= <-]. apply Hr.
  - destruct (Close env rsm) as [[r e]|] eqn:Hc; [|done]. intros [= <-].
    destruct (Close_cases _ _ _ _ Hc) as (r1 & e1 & Hd & _ & _ & _ & -> & _).
    destruct (Disable_cases rsm Hinv) as (r2 & e2 & Hd2 & Hr). rewrite Hd2 in Hd. injection Hd as <- <-. apply Hr.
  - destruct (bool_decide _); [|done]. intros [= <-].
    by destruct (on_notification_cases cell n now rsm) as (_ & _ & _ & H4 & _).
  - by intros [= <-].
  - intros (th & th' & r & _ & _ & Hadv & ->)%run_thread_cases. apply Hadv.
Qed.

(** The goroutine of a panicking step, and what made it panic. *)
Definition panics_of (th : thread) rsm : Prop :=
  match th with
  | Poller _ _ PTop => fallbackTicker rsm = None
  | Handler _ _ (HFailed _) | Monitor _ (MFallback false) =>
      FallbackInterval (realtimeOptions rsm) ≤ 0 ∧ DisablePolling (realtimeOptions rsm) = false
      ∧ fallbackTicker rsm = None
  | SyncTask => True
  | _ => False
  end.
Lemma start_panic ctx rsm why :
  startFallbackPolling ctx rsm = Panic why →
  FallbackInterval (realtimeOptions rsm) ≤ 0 ∧ DisablePolling (realtimeOptions rsm) = false ∧ fallbackTicker rsm = None.
Proof.
  unfold startFallbackPolling. destruct (fallbackTicker rsm), (DisablePolling _); cbn; try done.
  destruct (Z.leb_spec (FallbackInterval (realtimeOptions rsm)) 0); [|done]. by intros _; split_and!.
Qed.
Lemma advance_panic th a rsm why : advance th a rsm = Some (Panic why) → panics_of th rsm.
Proof.
  destruct th as [ctx' cell' pc|ctx' pc|ctx' tk pc|]; cbn [advance].
  - destruct pc as [| |e| |d' c'], a as [|[e'|]| | | |]; cbn [handleNotifications]; unfold stays, ends; try done.
    + destruct (notificationStop rsm); [destruct (_ || _)|]; done.
    + destruct (negb _ && _); [|done]. destruct (startFallbackPolling ctx' rsm) eqn:Hs; [done|]. intros _.
      by eapply start_panic.
    + cbn. by destruct (notificationStop rsm).
    + by destruct (_ || _).
  - destruct pc as [|c'|[]], a; cbn [monitorConnection]; unfold stays, ends; try done.
    + by destruct (notificationStop rsm).
    + by destruct (_ || _).
    + by destruct (_ && _).
    + destruct (startFallbackPolling ctx' rsm) eqn:Hs; [done|]. intros _. by eapply start_panic.
  - destruct pc as [|c' t], a; cbn [poll_loop]; unfold stays, ends; try done.
    + destruct (fallbackTicker rsm) eqn:Ht; [by destruct (notificationStop rsm)|by intros _].
    + by destruct (_ || _).
    + by destruct (bool_decide _).
  - done.
Qed.




(** Remark: a notification marks the connection as connected and restarts the
    back-off; it starts exactly one synchronisation if the filter admits it and
    it announces changed data or asks for a sync, and none otherwise.  A
    synchronisation started this way or by polling tells every subscriber its
    result twice, and nobody anything when it was refused. *)
Theorem notification_syncs (cell : nat) (n : Notification) (now : Z) rsm (env : Env) rsm' :
  (let s := on_notification cell n now rsm in
   threads s = threads rsm ++ (if relevant n rsm then [SyncTask] else [])
   ∧ Connected (GetConnectionStatus s) = true ∧ LastConnected (GetConnectionStatus s) = Some now
   ∧ status_Error (GetConnectionStatus s) = None ∧ attempts s = <[cell := 0]> (attempts rsm) ∧ base s = base rsm)
  ∧ (advance SyncTask (Synced env) rsm = Some (Done (rsm', None)) →
     ∃ w r err, Sync env (base rsm) = Done (w, (r, err)) ∧ (err = None ↔ is_Some r)
       ∧ w_notified (base rsm') = w_notified (base rsm) ++
           match r with
           | Some r => ((λ h, (h, r)) <$> subscribers (w_mgr (base rsm)))
                       ++ ((λ h, (h, r)) <$> subscribers (w_mgr (base rsm)))
           | None => []
           end).
Proof.
  split.
  - destruct (on_notification_cases cell n now rsm) as (_ & _ & _ & _ & _ & Hb & _ & _ & Ha & Hc & Ht).
    unfold GetConnectionStatus. rewrite Hc, Ha, Hb, Ht. by split_and!.
  - cbn [advance]. unfold sync_task. intros [= Hx].
    destruct (Manager.mbind _ _ env (base rsm)) as [[w []]|] eqn:Hrun; [|done]. injection Hx as <-.
    apply bind_inv in Hrun as (w1 & [r err] & Hsync & Hrest). exists w1, r, err.
    destruct (Sync_tells _ _ _ _ Hsync) as [Hn Hsub]. cbn [fst] in Hn.
    pose proof (Sync_answers _ _ _ _ _ Hsync) as Hans. split_and!; [done|done|]. cbn [base set_base].
    destruct r as [r|].
    + rewrite (proj2 Hans) in Hrest by (by eexists). injection Hrest as <-. cbn. by rewrite Hn, Hsub, <-app_assoc.
    + destruct err; [|by destruct (proj1 Hans eq_refl)]. injection Hrest as <-. done.
Qed.

(** Every wait of a handler in [rsm] keeps to the back-off. *)
Definition delays_ok rsm : Prop := ∀ ctx cell d c, Handler ctx cell (HWait d c) ∈ threads rsm →
  0 ≤ d ≤ maxTimeout ∧ d ≤ MaxDelay (backoff_of rsm).
Definition sane (o : RealtimeSyncOptions) : Prop :=
  let eb := default default_backoff (ReconnectBackoff o) in 0 ≤ InitialDelay eb ∧ 0 ≤ MaxDelay eb.
Lemma advance_delay th a rsm rsm' ctx cell d c :
  sane (realtimeOptions rsm) → advance th a rsm = Some (Done (rsm', Some (Handler ctx cell (HWait d c)))) →
  0 ≤ d ≤ maxTimeout ∧ d ≤ MaxDelay (backoff_of rsm).
Proof.
  intros [Hi Hm]. destruct th as [ctx' cell' pc|ctx' pc|ctx' tk pc|]; cbn [advance].
  - destruct pc as [| |e| |d' c'], a as [|[e'|]| | | |]; cbn [handleNotifications]; unfold stays, ends; try done.
    + destruct (notificationStop rsm); [destruct (_ || _)|]; done.
    + intros [= Hx]. destruct (if negb _ && _ then _ else _); [|done]. cbn in Hx. done.
    + cbn. destruct (notificationStop rsm); [|done]. intros [= _ _ _ Hd _].
      pose proof (NextDelay_range (default 0 (attempts rsm !! cell')) (backoff_of rsm) Hi Hm).
      unfold maxTimeout in *. subst d. destruct (Z.ltb_spec 300000000000 (NextDelay (default 0 (attempts rsm !! cell')) (backoff_of rsm))); lia.
    + destruct (_ || _); done.
  - destruct pc as [|c'|[]], a; cbn [monitorConnection]; unfold stays, ends; try done.
    + destruct (notificationStop rsm); done.
    + destruct (_ || _); done.
    + destruct (_ && _); done.
    + intros [= Hx]. destruct (startFallbackPolling ctx' rsm); done.
  - destruct pc as [|c' t], a; cbn [poll_loop]; unfold stays, ends; try done.
    + destruct (fallbackTicker rsm); [|done]. destruct (notificationStop rsm); done.
    + destruct (_ || _); done.
    + destruct (bool_decide _); [|done]. done.
  - destruct a; try done. intros [= Hx]. destruct (sync_task env (base rsm)) as [[w []]|]; done.
Qed.

Lemma perform_delays l rsm rsm' :
  realtime_inv rsm → sane (realtimeOptions rsm) → delays_ok rsm → perform l rsm = Some (Done rsm') → delays_ok rsm'.
Proof.
  intros Hinv Hsane Hok Hp ctx cell d c Hin. unfold backoff_of. rewrite (perform_options _ _ _ Hinv Hp).
  change (default _ _) with (backoff_of rsm).
  cut (Handler ctx cell (HWait d c) ∈ threads rsm
       ∨ ∃ th a r, advance th a rsm = Some (Done (r, Some (Handler ctx cell (HWait d c))))).
  { intros [Hold|(th & a & r & Ha)]; [by eapply Hok|by eapply advance_delay]. }
  destruct l as [ctx'| |env|cell' n now|ctx'|i a]; cbn [perform] in Hp.
  - injection Hp as <-. left. destruct (Enable_cases ctx' rsm Hinv) as (_ & _ & Hs & Hf).
    destruct (EnableRealtime ctx' rsm).2; [by rewrite Hf in Hin|]. destruct (Hs eq_refl) as [_ Ht].
    rewrite Ht in Hin. apply elem_of_app in Hin as [Hin|[?|?%list_elem_of_singleton]%elem_of_cons]; done.
  - left. destruct (Disable_cases rsm Hinv) as (r & e & Hd & _ & _ & Hth & _). rewrite Hd in Hp. injection Hp as <-.
    by rewrite Hth in Hin.
  - left. destruct (Close env rsm) as [[r e]|] eqn:Hc; [|done]. injection Hp as <-.
    destruct (Close_cases _ _ _ _ Hc) as (r1 & e1 & Hd & _ & _ & _ & _ & H5 & _).
    destruct (Disable_cases rsm Hinv) as (r2 & e2 & Hd2 & _ & _ & Hth & _). rewrite Hd2 in Hd. injection Hd as <- <-.
    by rewrite H5, Hth in Hin.
  - left. destruct (bool_decide _); [|done]. injection Hp as <-.
    destruct (on_notification_cases cell' n now rsm) as (_ & _ & _ & _ & _ & _ & _ & _ & _ & _ & Ht).
    rewrite Ht in Hin. apply elem_of_app in Hin as [Hin|Hin]; [done|].
    destruct (relevant n rsm); [by apply list_elem_of_singleton in Hin|by apply elem_of_nil in Hin].
  - injection Hp as <-. by left.
  - apply run_thread_cases in Hp as (th & th' & r & Hth & Ha & Hadv & ->). cbn in Hin.
    apply elem_of_replaced in Hin as [Hin| ->]; [|right; by eexists _, _, _].
    destruct (adv_started _ _ _ Hadv) as (l & Hl & Hnew). rewrite Hl in Hin.
    apply elem_of_app in Hin as [Hin|Hin%Hnew]; [by left|done].
Qed.
Lemma run_delays ls : ∀ rsm rsm',
  realtime_inv rsm → sane (realtimeOptions rsm) → delays_ok rsm → run ls rsm = Some (Done rsm') →
  delays_ok rsm' ∧ realtimeOptions rsm' = realtimeOptions rsm.
Proof.
  induction ls as [|l ls IH]; intros rsm rsm' Hinv Hs Hd; cbn [run]; [by intros [= <-]|].
  destruct (perform l rsm) as [[r|]|] eqn:Hp; [|done..]. pose proof (perform_options _ _ _ Hinv Hp) as Ho.
  rewrite <-Ho in Hs |- *. apply IH; [by eapply perform_inv|done|]. rewrite Ho in Hs. by eapply perform_delays.
Qed.

(** Remark: with a back-off of non-negative delays no handler ever waits longer than
    its largest delay or five minutes before it subscribes again. *)
Theorem reconnect_waits_bounded (store : St) (transport : T) (o : option RealtimeSyncOptions) (ls : list label) rsm
    (ctx cell stopChan : nat) (d : Z) (Hsane : sane (default nil_options o))
    (Hrun : run ls (NewRealtimeSyncManager store transport o) = Some (Done rsm))
    (Hwait : Handler ctx cell (HWait d stopChan) ∈ threads rsm) :
  0 ≤ d ≤ 300000000000 ∧ d ≤ MaxDelay (default default_backoff (ReconnectBackoff (default nil_options o))).
Proof.
  destruct (run_delays ls (NewRealtimeSyncManager store transport o) rsm (fresh_realtime_inv _ _ _) Hsane) as [Hd Ho];
    [|done|].
  - intros ???? Hin. by apply elem_of_nil in Hin.
  - destruct (Hd _ _ _ _ Hwait) as [H1 H2]. unfold backoff_of in H2. rewrite Ho in H2. done.
Qed.

(** Options with a notifier and polling, the latter every [interval]. *)
Definition polling (o : RealtimeSyncOptions) : Prop := RealtimeNotifier o = true ∧ DisablePolling o = false.
(** A first subscription that fails with [e], the second ends well. *)
Definition first_failure (e : error) : list label := [LEnable 0; LRun 0 Go; LRun 0 (Returned (Some e)); LRun 0 Go].
Definition crash_schedule (e : error) : list label :=
  first_failure e ++ [LRun 0 Go; LRun 2 Go; LRun 2 (Ticked false 0); LRun 0 Elapsed; LRun 0 Go;
                      LRun 0 (Returned None); LRun 2 Go].

(** Remark: apart from the synchronisations it runs, a real-time manager panics in
    two cases only, and both occur: a poller that goes round after polling was
    stopped reads the ticker that is gone, which a subscription that succeeds
    at the wrong moment is enough for; and options that leave the interval of
    polling zero make the first failed subscription panic. *)
Theorem realtime_panics (store : St) (transport : T) (o : RealtimeSyncOptions) (e : error) (Hpoll : polling o) :
  (∀ ls l rsm why, run ls (NewRealtimeSyncManager store transport (Some o)) = Some (Done rsm) →
     perform l rsm = Some (Panic why) →
     (∃ env, l = LClose env) ∨ ∃ i a th, l = LRun i a ∧ threads rsm !! i = Some th ∧ panics_of th rsm)
  ∧ (0 < FallbackInterval o → run (crash_schedule e) (NewRealtimeSyncManager store transport (Some o))
                              = Some (Panic "nil pointer dereference"))
  ∧ (FallbackInterval o ≤ 0 → run (first_failure e) (NewRealtimeSyncManager store transport (Some o))
                              = Some (Panic "non-positive interval for NewTicker")).
Proof.
  destruct Hpoll as [Hn Hd]. split; [|split].
  - intros ls l rsm why Hrun Hp.
    assert (realtime_inv rsm) as Hinv by (eapply run_inv, Hrun; apply fresh_realtime_inv).
    destruct l as [ctx| |env|cell n now|ctx|i a]; cbn [perform] in Hp; [done| |by left; eexists| |done|].
    + by destruct (Disable_cases rsm Hinv) as (r & er & Hdis & _); rewrite Hdis in Hp.
    + by destruct (bool_decide _).
    + right. exists i, a. unfold run_thread in Hp. destruct (threads rsm !! i) as [th|]; [|done].
      exists th. split_and!; [done|done|]. destruct (advance th a rsm) as [[[r th']|w]|] eqn:Ha;
        cbn -[advance] in Hp; rewrite Ha in Hp; [done| |done]. by eapply advance_panic.
  - destruct o as [so nf flt dp [|p|p] bo]; cbn in Hn, Hd |- *; subst; [lia| |lia]. intros _. by vm_compute.
  - destruct o as [so nf flt dp [|p|p] bo]; cbn in Hn, Hd |- *; subst; [|lia|]; intros _; by vm_compute.
Qed.

Lemma run_app l1 l2 rsm :
  run (l1 ++ l2) rsm = match run l1 rsm with Some (Done r) => run l2 r | x => x end.
Proof.
  revert rsm. induction l1 as [|l l1 IH]; intros rsm; [done|]. cbn [app run].
  destruct (perform l rsm) as [[r|]|]; [apply IH|done..].
Qed.
(** Remark: disabling and enabling again while a subscription is under way leaves two
    handlers, so that one change is synchronised twice; disabling while one
    fails leaves a stopped ticker behind, after which polling never starts; and
    when the context ends every goroutine ends, yet real time counts as active
    and cannot be enabled. *)
Theorem restart_races (store : St) (transport : T) (o : RealtimeSyncOptions) (e : error) (n : Notification) (t1 t2 : Z)
    (Hpoll : polling o) (Hint : 0 < FallbackInterval o) (Hn : relevant n (NewRealtimeSyncManager store transport (Some o)) = true) :
  let s := NewRealtimeSyncManager store transport (Some o) in
  (∃ rsm, run [LEnable 0; LRun 0 Go; LDisable; LEnable 1; LRun 0 (Returned None); LRun 0 Go; LRun 2 Go;
               LNotify 0 n t1; LNotify 1 n t2] s = Some (Done rsm)
     ∧ threads rsm = [Handler 0 0 HSubscribed; Monitor 0 MTop; Handler 1 1 HSubscribed; Monitor 1 MTop; SyncTask; SyncTask])
  ∧ (∃ rsm, run [LEnable 0; LRun 0 Go; LRun 0 (Returned (Some e)); LDisable; LRun 0 Go; LRun 0 Go; LRun 1 Go; LEnable 1] s
            = Some (Done rsm)
     ∧ IsRealtimeActive rsm = true ∧ (∀ t, t ∉ ticking rsm) ∧ ∀ ctx, startFallbackPolling ctx rsm = Done rsm)
  ∧ (∃ rsm, run [LEnable 0; LCtxEnds 0; LRun 0 Go; LRun 0 Go; LRun 0 Stopped] s = Some (Done rsm)
     ∧ threads rsm = [] ∧ IsRealtimeActive rsm = true ∧ ∀ ctx, (EnableRealtime ctx rsm).2 ≠ None).
Proof.
  destruct o as [so nf flt dp [|p|p] bo]; destruct Hpoll as [Hnf Hdp]; cbn in Hnf, Hdp, Hint; [lia| |lia]. subst.
  intros s. split_and!.
  - assert (∃ rsm, run [LEnable 0; LRun 0 Go; LDisable; LEnable 1; LRun 0 (Returned None); LRun 0 Go; LRun 2 Go] s
                   = Some (Done rsm)
      ∧ threads rsm = [Handler 0 0 HSubscribed; Monitor 0 MTop; Handler 1 1 HSubscribed; Monitor 1 MTop]
      ∧ 0%nat ∈ listening rsm ∧ 1%nat ∈ listening rsm ∧ realtimeOptions rsm = realtimeOptions s)
      as (rsm & Hrun & Hth & H0 & H1 & Ho).
    { eexists. split; [unfold s; vm_compute; reflexivity|]. split_and!; [done| | |done]; by vm_compute. }
    change [LEnable 0; LRun 0 Go; LDisable; LEnable 1; LRun 0 (Returned None); LRun 0 Go; LRun 2 Go; LNotify 0 n t1;
            LNotify 1 n t2]
      with ([LEnable 0; LRun 0 Go; LDisable; LEnable 1; LRun 0 (Returned None); LRun 0 Go; LRun 2 Go]
            ++ [LNotify 0 n t1; LNotify 1 n t2]).
    rewrite run_app, Hrun. cbn [run perform]. rewrite bool_decide_true by done.
    destruct (on_notification_cases 0 n t1 rsm) as (_ & _ & _ & Ho1 & Hl1 & _ & _ & _ & _ & _ & Ht1).
    set (r1 := on_notification 0 n t1 rsm) in *. rewrite bool_decide_true by (by rewrite Hl1).
    destruct (on_notification_cases 1 n t2 r1) as (_ & _ & _ & _ & _ & _ & _ & _ & _ & _ & Ht2).
    eexists. split; [reflexivity|]. assert (∀ r, realtimeOptions r = realtimeOptions s → relevant n r = true) as Hrel
      by (intros r Hr; unfold relevant; rewrite Hr; exact Hn).
    rewrite Ht2, Ht1, (Hrel rsm Ho), (Hrel r1) by (by rewrite Ho1). by rewrite Hth.
  - eexists. split; [unfold s; vm_compute; reflexivity|].
    split_and!; [done|intros t Ht; by apply elem_of_empty in Ht|done].
  - eexists. split; [unfold s; vm_compute; reflexivity|]. split_and!; [done|done|done].
Qed.
Fixpoint cycles (n : nat) : list label :=
  match n with O => [] | S n => LRun 0 Go :: LRun 0 (Returned None) :: cycles n end.
(** Remark: a notifier whose [Subscribe] returns once it listens, rather than when it
    stops, is subscribed to again and again without any wait. *)
Theorem resubscribes_without_wait (store : St) (transport : T) (o : RealtimeSyncOptions) (n : nat)
    (Hnotif : RealtimeNotifier o = true) :
  ∃ rsm, run (LEnable 0 :: cycles n) (NewRealtimeSyncManager store transport (Some o)) = Some (Done rsm)
    ∧ calls rsm = replicate n (CSubscribe 0).
Proof.
  assert (∀ b o c ft ch tk tg at_ ls cs l,
    ∃ rsm', run (cycles n) (mkRealtime b o c (Some 0%nat) ft ch ∅ tk tg at_ ls cs ∅ (Handler 0 0 HTop :: l))
            = Some (Done rsm') ∧ calls rsm' = cs ++ replicate n (CSubscribe 0)) as Hcyc.
  { induction n as [|n IH]; intros; [eexists; by rewrite app_nil_r|].
    cbn -[union stop_ticker]. unfold over, is_closed. rewrite !bool_decide_false by set_solver.
    cbn -[union stop_ticker]. unfold stopFallbackPolling, stop_ticker. cbn -[union].
    assert (cs ++ CSubscribe 0 :: replicate n (CSubscribe 0) = (cs ++ [CSubscribe 0]) ++ replicate n (CSubscribe 0))
      as -> by (by rewrite <-app_assoc).
    destruct ft as [t|]; unfold set_threads, set_ticker, set_notifier; cbn -[union difference replicate]; apply IH. }
  cbn [run perform]. unfold EnableRealtime. cbn. rewrite Hnotif. cbn. apply Hcyc.
Qed.
End realtime.

(** ** Concrete runs *)
#[local] Instance demo_pow : FloatPow := {| float := Z; two := 2; scaled := λ d m n, d * m ^ n |}.
#[local] Instance demo_text : TimeText := {| rfc3339 := format_int; duration_string := format_int |}.
#[local] Instance demo_range : MapRange := canonical_range.
Definition demo_options : RealtimeSyncOptions :=
  mkRealtimeOptions (mkSyncOptions false false None None 10 0 None false 0 false) true None false 1000 None.
Definition demo_realtime : realtimeSyncManager :=
  NewRealtimeSyncManager MemStore.New NullTransport (Some demo_options).
Definition demo_refused : error := ErrMsg "refused".
Definition demo_notification : Notification := mkNotification "data_changed" "n2" [] None 0.
(** Enabled, one subscription refused, polling, waiting to subscribe again. *)
Definition demo_run : list label := first_failure demo_refused ++ [LRun 0 Go; LRun 2 Go].

Lemma realtime_lifecycle_witness :
  ∃ rsm rsm', run demo_run demo_realtime = Some (Done rsm) ∧ DisableRealtime rsm = Done (rsm', None)
    ∧ IsRealtimeActive rsm' = false ∧ (EnableRealtime 7 rsm).2 ≠ None.
Proof.
  destruct (run demo_run demo_realtime) as [[rsm|]|] eqn:Hrun; [|by vm_compute in Hrun..].
  destruct (realtime_lifecycle MemStore.New NullTransport (Some demo_options) demo_run rsm 7 Hrun)
    as (Hen & _ & _ & rsm' & err & Hd & Herr & Hin & _).
  assert (IsRealtimeActive rsm = true) as Hact by (by vm_compute in Hrun; injection Hrun as <-).
  destruct err as [e|]; [discriminate (proj2 Herr Hact)|].
  exists rsm, rsm'. split_and!; [done|exact Hd|exact Hin|]. rewrite Hen, Hact. by intros [_ ?].
Defined.


Lemma reconnect_waits_bounded_witness :
  ∃ rsm d, run demo_run demo_realtime = Some (Done rsm) ∧ Handler 0 0 (HWait d 0) ∈ threads rsm ∧ 0 ≤ d ≤ 300000000000.
Proof.
  destruct (run demo_run demo_realtime) as [[rsm|]|] eqn:Hrun; [|by vm_compute in Hrun..].
  assert (Handler 0 0 (HWait 1000000000 0) ∈ threads rsm) as Hin
    by (by vm_compute in Hrun; injection Hrun as <-; left).
  exists rsm, 1000000000. split_and!; [done|exact Hin|..];
    destruct (reconnect_waits_bounded MemStore.New NullTransport (Some demo_options) demo_run rsm 0 0 0 1000000000
      ltac:(vm_compute; split; discriminate) Hrun Hin) as [[H1 H2] _]; [exact H1|exact H2].
Defined.

Lemma realtime_panics_witness :
  run (crash_schedule demo_refused) demo_realtime = Some (Panic "nil pointer dereference").
Proof.
  assert (polling demo_options) as Hpoll by done.
  destruct (realtime_panics MemStore.New NullTransport demo_options demo_refused Hpoll) as (_ & H & _).
  exact (H eq_refl).
Defined.

Lemma restart_races_witness :
  ∃ rsm, run [LEnable 0; LCtxEnds 0; LRun 0 Go; LRun 0 Go; LRun 0 Stopped] demo_realtime = Some (Done rsm)
     ∧ threads rsm = [] ∧ IsRealtimeActive rsm = true ∧ ∀ ctx, (EnableRealtime ctx rsm).2 ≠ None.
Proof.
  destruct (restart_races MemStore.New NullTransport demo_options demo_refused demo_notification 1 2)
    as (_ & _ & H); [done|reflexivity|reflexivity|exact H].
Defined.

Lemma resubscribes_without_wait_witness :
  ∃ rsm, run (LEnable 0 :: cycles 1000) demo_realtime = Some (Done rsm) ∧ length (calls rsm) = 1000%nat.
Proof.
  destruct (resubscribes_without_wait MemStore.New NullTransport demo_options 1000) as (rsm & H1 & H2); [done|].
  exists rsm. split; [exact H1|]. rewrite H2. apply length_replicate.
Defined.
