(* ===== verification/StatefulRealtime.v ===== *)
(** * Real-time synchronisation with a transport state machine
    (src/synckit/stateful_realtime.go)

    The wrapper of the real-time manager that keeps the connection state of its
    notifier in a [TransportStateManager].  The transport manager starts a
    goroutine per handler and transition; [to_handle] are those of this
    wrapper's handler that have not run, [starters] the goroutines they start in
    turn, [reconnecting] the goroutines of [attemptReconnection]. *)
From S2P Require Import Prelude Types Json Errors StateMachine SyncState Interfaces Detect Manager TransportState Realtime.
From S2P Require MemStore.
From stdpp Require Import options.

Section stateful.
Context {FP : FloatPow}.
Context {St T : Type} {ES : EventStore St} {TR : Transport T} {MR : MapRange} {TT : TimeText}.
Local Notation realtime := (realtimeSyncManager (St := St) (T := T)).

Record StatefulRealtimeSyncOptions := mkStatefulOptions {
  RealtimeSyncOptions_ : RealtimeSyncOptions; Endpoint : string; Observability : bool;
  ConnectionTimeout : Z; MaxConnectionAttempts : Z; ConnectionRetryDelay : Z
}.
(** The defaults are written into the caller's options and never read. *)
Definition set_defaults (o : StatefulRealtimeSyncOptions) : StatefulRealtimeSyncOptions :=
  mkStatefulOptions (RealtimeSyncOptions_ o)
    (if bool_decide (Endpoint o = "") then "realtime_connection" else Endpoint o) (Observability o)
    (if ConnectionTimeout o =? 0 then 30000000000 else ConnectionTimeout o)
    (if MaxConnectionAttempts o =? 0 then 5 else MaxConnectionAttempts o)
    (if ConnectionRetryDelay o =? 0 then 2000000000 else ConnectionRetryDelay o).

(** [attemptReconnection] inside [Subscribe], with the time it began. *)
Inductive reconnection := RBegin (ctx : nat) | RSubscribed (start : Z).

Record StatefulRealtimeSyncManager := mkStateful {
  inner : realtime;
  transportStateManager : TransportStateManager;
  to_handle : list (StateTransition TransportState);
  starters : nat;
  reconnecting : list reconnection
}.
Implicit Types s : StatefulRealtimeSyncManager.
Definition set_inner (r : realtime) s : StatefulRealtimeSyncManager :=
  mkStateful r (transportStateManager s) (to_handle s) (starters s) (reconnecting s).
Definition set_transport (t : TransportStateManager) s : StatefulRealtimeSyncManager :=
  mkStateful (inner s) t (to_handle s) (starters s) (reconnecting s).
Definition set_reconnecting (l : list reconnection) s : StatefulRealtimeSyncManager :=
  mkStateful (inner s) (transportStateManager s) (to_handle s) (starters s) l.

(** The wrapper's own handler among the transport manager's. *)
Definition own_handler : nat := 0.
Definition NewStatefulRealtimeSyncManager (store : St) (transport : T) (now : Z)
    (options : option StatefulRealtimeSyncOptions) : result error StatefulRealtimeSyncManager :=
  match options with
  | None => Err (ErrMsg "options cannot be nil")
  | Some o =>
      let o := set_defaults o in
      let base := NewRealtimeSyncManager store transport (Some (RealtimeSyncOptions_ o)) in
      match NewTransportStateManager now (Endpoint o) (Observability o) with
      | Err e => Err (ErrWrap "failed to create transport state manager" e)
      | Ok t =>
          match SubscribeToStateChanges (Some own_handler) t with
          | (t, None) => Ok (mkStateful base t [] 0 [])
          | (_, Some e) => Err e
          end
      end
  end.

(** ** Reactions to the transport *)
Definition onTransportConnected (now : Z) s : StatefulRealtimeSyncManager :=
  set_inner (stopFallbackPolling (updateConnectionStatus true (Some now) None (inner s))) s.
(** The goroutine that starts polling, unless polling is off. *)
Definition start_later s : StatefulRealtimeSyncManager :=
  if DisablePolling (realtimeOptions (inner s)) then s
  else mkStateful (inner s) (transportStateManager s) (to_handle s) (S (starters s)) (reconnecting s).
Definition text_in (key dflt : string) (tr : StateTransition TransportState) : string :=
  match map_of (TMetadata tr) !! key with Some (AnyString r) => r | _ => dflt end.
Definition onTransportDisconnected (tr : StateTransition TransportState) s : StatefulRealtimeSyncManager :=
  start_later (set_inner (updateConnectionStatus false None
    (Some (ErrMsg ("disconnected: " +:+ text_in "disconnect_reason" "unknown" tr))) (inner s)) s).
Definition onTransportFailed (tr : StateTransition TransportState) s : StatefulRealtimeSyncManager :=
  start_later (set_inner (updateConnectionStatus false None
    (Some (ErrMsg (text_in "error" "transport failed" tr))) (inner s)) s).
(** Reconnecting is only logged. *)
Definition handleTransportStateChange (now : Z) (tr : StateTransition TransportState) s : StatefulRealtimeSyncManager :=
  match To tr with
  | TransportConnected => onTransportConnected now s
  | TransportDisconnected => onTransportDisconnected tr s
  | TransportFailed => onTransportFailed tr s
  | _ => s
  end.

(** A pending notification of the transport's machine is delivered; the
    handlers it starts for this wrapper are pending in turn. *)
Definition deliver_notification (i : nat) s : StatefulRealtimeSyncManager :=
  let t := transportStateManager s in
  let t' := run_notification i t in
  let fresh := omap (λ c : nat * StateTransition TransportState,
                       if Nat.eqb c.1 own_handler then Some c.2 else None)
                 (drop (length (handled t)) (handled t')) in
  mkStateful (inner s) t' (to_handle s ++ fresh) (starters s) (reconnecting s).

(** ** Operations; readings of the clock are arguments *)
Definition EnhancedEnableRealtime (now1 now2 now3 : Z) (tid1 tid2 : string) (ctx : nat) s
    : outcome (StatefulRealtimeSyncManager * option error) :=
  let currentState := GetConnectionState (transportStateManager s) in
  if negb (CanConnect currentState) && negb (bool_decide (currentState = TransportDisconnected)) then
    Done (s, Some (ErrMsg ("cannot enable realtime from transport state: " +:+ TransportState_String currentState)))
  else
    let '(t, err) := TransitionToConnecting now1 tid1 30000000000 (transportStateManager s) in
    let s := set_transport t s in
    match err with
    | Some e => Done (s, Some (ErrWrap "failed to transition to connecting state" e))
    | None =>
        let '(r, err) := EnableRealtime ctx (inner s) in
        let s := set_inner r s in
        match err with
        | Some e =>
            let* (t, _) := TransitionToFailed now3 tid2 (Some e) 1 (time_sub now3 now2) (transportStateManager s) in
            Done (set_transport t s, Some e)
        | None =>
            let '(t, _) := TransitionToConnected now3 tid2 (time_sub now3 now2) (transportStateManager s) in
            Done (set_transport t s, None)
        end
    end.
Definition EnhancedDisableRealtime (now1 now2 : Z) (tid1 tid2 : string) s
    : outcome (StatefulRealtimeSyncManager * option error) :=
  let s := set_transport (TransitionToShuttingDown now1 tid1 "realtime_disabled" (transportStateManager s)).1 s in
  let* (r, err) := DisableRealtime (inner s) in
  let s := set_inner r s in
  match err with
  | Some e => Done (s, Some e)
  | None =>
      Done (set_transport (TransitionToDisconnected now2 tid2 "realtime_disabled" true (transportStateManager s)).1 s, None)
  end.
Definition EnhancedClose (env : Env) (now : Z) (tid : string) s : outcome (StatefulRealtimeSyncManager * option error) :=
  let s := set_transport (tsm_Close now tid (transportStateManager s)) s in
  let* (r, err) := Close env (inner s) in
  Done (set_inner r s, err).

Definition GetTransportConnectionState s : TransportState := GetConnectionState (transportStateManager s).
Definition IsTransportHealthy s : bool := IsHealthy (transportStateManager s).
Definition CanSendRealtimeData s : bool := CanSendData (GetTransportConnectionState s).
Definition CanReceiveRealtimeData s : bool := CanReceiveData (GetTransportConnectionState s).
Definition GetTransportConnectionMetadata (now : Z) s : gmap string any :=
  GetConnectionMetadata now (transportStateManager s).
Definition SubscribeToTransportStateChanges (handler : option nat) s : StatefulRealtimeSyncManager * option error :=
  let '(t, err) := SubscribeToStateChanges handler (transportStateManager s) in (set_transport t s, err).

(** One tick of [MonitorTransportHealth]: [connected] is the notifier's answer. *)
Definition performHealthCheck (now : Z) (tid : string) (ctx : nat) (connected : bool) s : StatefulRealtimeSyncManager :=
  let currentState := GetConnectionState (transportStateManager s) in
  match currentState with
  | TransportShuttingDown | TransportConnecting | TransportReconnecting => s
  | _ =>
      if negb (RealtimeNotifier (realtimeOptions (inner s))) then s
      else
        let mismatch := bool_decide (currentState = TransportConnected) && negb connected in
        let '(t, err) :=
          if mismatch then TransitionToReconnecting now tid "health_check_failed" 1 2000000000 (transportStateManager s)
          else (transportStateManager s, None) in
        let s := set_transport t s in
        if mismatch && (if err then true else false) then s
        else
          let s := if mismatch then set_reconnecting (reconnecting s ++ [RBegin ctx]) s else s in
          if (bool_decide (currentState = TransportDisconnected) || bool_decide (currentState = TransportFailed))
             && IsRealtimeActive (inner s)
          then set_reconnecting (reconnecting s ++ [RBegin ctx]) s else s
  end.

(** [attemptReconnection] up to its call of [Subscribe], whose callback only
    logs, and from the return of [Subscribe]; [None] when the goroutine has
    returned. *)
Definition attempt_begin (start now : Z) (tid : string) s : StatefulRealtimeSyncManager * option reconnection :=
  let currentState := GetConnectionState (transportStateManager s) in
  let '(t, err) := if CanConnect currentState then TransitionToConnecting now tid 30000000000 (transportStateManager s)
                   else (transportStateManager s, None) in
  let s := set_transport t s in
  if err then (s, None)
  else if negb (RealtimeNotifier (realtimeOptions (inner s))) then (s, None)
  else (set_inner (Unsubscribe (inner s)) s, Some (RSubscribed start)).
Definition attempt_end (start now : Z) (tid : string) (subscribed : option error) s : outcome StatefulRealtimeSyncManager :=
  match subscribed with
  | Some e =>
      let* (t, _) := TransitionToFailed now tid (Some e) 1 (time_sub now start) (transportStateManager s) in
      Done (set_transport t s)
  | None => Done (set_transport (TransitionToConnected now tid (time_sub now start) (transportStateManager s)).1 s)
  end.

(** ** Schedules *)
(** [context.Background()]. *)
Definition background_ctx : nat := 0.
Inductive slabel :=
  | SInner (l : label)
  | SEnable (now1 now2 now3 : Z) (tid1 tid2 : string) (ctx : nat)
  | SDisable (now1 now2 : Z) (tid1 tid2 : string)
  | SClose (env : Env) (now : Z) (tid : string)
  | SDeliver (i : nat)
  | SHandle (i : nat) (now : Z)
  | SStart
  | SHealth (now : Z) (tid : string) (ctx : nat) (connected : bool)
  | SReconnect (i : nat) (start now : Z) (tid : string)
  | SReconnected (i : nat) (now : Z) (tid : string) (subscribed : option error).
Definition sperform (l : slabel) s : option (outcome StatefulRealtimeSyncManager) :=
  match l with
  | SInner l => (λ r, let* r := r in Done (set_inner r s)) <$> perform l (inner s)
  | SEnable n1 n2 n3 t1 t2 ctx => Some (let* (s, _) := EnhancedEnableRealtime n1 n2 n3 t1 t2 ctx s in Done s)
  | SDisable n1 n2 t1 t2 => Some (let* (s, _) := EnhancedDisableRealtime n1 n2 t1 t2 s in Done s)
  | SClose env now tid => Some (let* (s, _) := EnhancedClose env now tid s in Done s)
  | SDeliver i => Some (Done (deliver_notification i s))
  | SHandle i now =>
      (λ tr, Done (handleTransportStateChange now tr
                     (mkStateful (inner s) (transportStateManager s) (delete i (to_handle s)) (starters s)
                        (reconnecting s)))) <$> to_handle s !! i
  | SStart =>
      match starters s with
      | O => None
      | S n => Some (let* r := startFallbackPolling background_ctx (inner s) in
                     Done (mkStateful r (transportStateManager s) (to_handle s) n (reconnecting s)))
      end
  | SHealth now tid ctx connected => Some (Done (performHealthCheck now tid ctx connected s))
  | SReconnect i start now tid =>
      match reconnecting s !! i with
      | Some (RBegin _) =>
          let '(s', th) := attempt_begin start now tid s in
          Some (Done (set_reconnecting (match th with Some th => <[i := th]> (reconnecting s)
                                                    | None => delete i (reconnecting s) end) s'))
      | _ => None
      end
  | SReconnected i now tid subscribed =>
      match reconnecting s !! i with
      | Some (RSubscribed start) =>
          Some (let* s' := attempt_end start now tid subscribed s in
                Done (set_reconnecting (delete i (reconnecting s')) s'))
      | _ => None
      end
  end.
Fixpoint srun (ls : list slabel) s : option (outcome StatefulRealtimeSyncManager) :=
  match ls with
  | [] => Some (Done s)
  | l :: ls =>
      match sperform l s with
      | Some (Done s) => srun ls s
      | Some (Panic why) => Some (Panic why)
      | None => None
      end
  end.

Definition GetEnhancedConnectionStatus (now : Z) s : gmap string any :=
  let baseStatus := GetConnectionStatus (inner s) in
  let enhanced : gmap string any :=
    {["base_connected" := AnyBool (Connected baseStatus);
      "base_last_connected" := AnyOther "time.Time" (match LastConnected baseStatus with Some c => rfc3339 c | None => "" end);
      "base_reconnect_attempts" := AnyInt (ReconnectAttempts baseStatus);
      "base_error" := match status_Error baseStatus with Some e => AnyOther "error" (error_string e) | None => AnyNil end]} in
  let enhanced := fold_left (λ m kv, <["transport_" +:+ kv.1 := kv.2]> m) (range (GetTransportConnectionMetadata now s)) enhanced in
  <["can_receive_data" := AnyBool (CanReceiveRealtimeData s)]>
    (<["can_send_data" := AnyBool (CanSendRealtimeData s)]>
       (<["transport_healthy" := AnyBool (IsTransportHealthy s)]> enhanced)).

(** ** The transport's machine only makes its own steps *)
Lemma connecting_step now tid t t' err : TransitionToConnecting now tid 30000000000 t = (t', err) → tsm_step t t'.
Proof. intros H. replace t' with (TransitionToConnecting now tid 30000000000 t).1 by (by rewrite H). constructor. Qed.
Lemma connected_step now tid c t t' err : TransitionToConnected now tid c t = (t', err) → tsm_step t t'.
Proof. intros H. replace t' with (TransitionToConnected now tid c t).1 by (by rewrite H). constructor. Qed.
Lemma reconnecting_step now tid r a n t t' err : TransitionToReconnecting now tid r a n t = (t', err) → tsm_step t t'.
Proof. intros H. replace t' with (TransitionToReconnecting now tid r a n t).1 by (by rewrite H). constructor. Qed.

Lemma Enable_steps n1 n2 n3 t1 t2 ctx s s' err :
  EnhancedEnableRealtime n1 n2 n3 t1 t2 ctx s = Done (s', err) →
  rtc tsm_step (transportStateManager s) (transportStateManager s').
Proof.
  unfold EnhancedEnableRealtime. destruct (_ && _); [intros [= <- <-]; done|].
  destruct (TransitionToConnecting _ _ _ _) as [ta ea] eqn:Ha. apply connecting_step in Ha.
  destruct ea as [e|]; [intros [= <- <-]; by apply rtc_once|].
  destruct (EnableRealtime ctx _) as [r er]. cbn [transportStateManager set_inner set_transport].
  destruct er as [e|].
  - destruct (TransitionToFailed _ _ _ _ _ _) as [[tb eb]|] eqn:Hb; [|done]. intros [= <- <-].
    eapply rtc_l; [done|]. eapply rtc_once, tsm_failed, Hb.
  - destruct (TransitionToConnected _ _ _ _) as [tb eb] eqn:Hb. apply connected_step in Hb. intros [= <- <-].
    eapply rtc_l; [done|]. by apply rtc_once.
Qed.
Lemma Disable_steps n1 n2 t1 t2 s s' err :
  EnhancedDisableRealtime n1 n2 t1 t2 s = Done (s', err) →
  rtc tsm_step (TransitionToShuttingDown n1 t1 "realtime_disabled" (transportStateManager s)).1 (transportStateManager s').
Proof.
  unfold EnhancedDisableRealtime. cbn [inner set_transport]. destruct (DisableRealtime _) as [[r [e|]]|]; [|..|done];
    intros [= <- <-]; [done|]. apply rtc_once, tsm_disconnected.
Qed.
Lemma Health_steps now tid ctx b s :
  rtc tsm_step (transportStateManager s) (transportStateManager (performHealthCheck now tid ctx b s)).
Proof.
  assert (∀ (c : bool) s l, transportStateManager (if c then set_reconnecting l s else s) = transportStateManager s) as Hset
    by (intros [] ??; done).
  unfold performHealthCheck. destruct (GetConnectionState _); try done;
    (destruct (negb (RealtimeNotifier _)); [done|]); cbn zeta;
    match goal with |- context [bool_decide ?P && negb b] => destruct (bool_decide P && negb b) end;
    try (destruct (TransitionToReconnecting _ _ _ _ _ _) as [t e] eqn:Ht; apply reconnecting_step in Ht;
         destruct e; cbn; [by apply rtc_once|]; rewrite Hset; by apply rtc_once);
    cbn; by rewrite Hset.
Qed.

Lemma attempt_begin_steps start now tid s s' th :
  attempt_begin start now tid s = (s', th) → rtc tsm_step (transportStateManager s) (transportStateManager s').
Proof.
  unfold attempt_begin. destruct (CanConnect _).
  - destruct (TransitionToConnecting _ _ _ _) as [t e] eqn:Ht. apply connecting_step in Ht.
    destruct e; [|destruct (negb _)]; intros [= <- <-]; by apply rtc_once.
  - destruct (negb _); by intros [= <- <-].
Qed.
Lemma attempt_end_steps start now tid e s s' :
  attempt_end start now tid e s = Done s' → rtc tsm_step (transportStateManager s) (transportStateManager s').
Proof.
  unfold attempt_end. destruct e as [e|].
  - destruct (TransitionToFailed _ _ _ _ _ _) as [[t err]|] eqn:Ht; [|done]. intros [= <-]. eapply rtc_once, tsm_failed, Ht.
  - intros [= <-]. apply rtc_once, tsm_connected.
Qed.
Lemma handle_transport now tr s : transportStateManager (handleTransportStateChange now tr s) = transportStateManager s.
Proof.
  unfold handleTransportStateChange, onTransportDisconnected, onTransportFailed, start_later.
  destruct (To tr); cbn; try done; by destruct (DisablePolling _).
Qed.
Lemma sperform_steps l s s' :
  sperform l s = Some (Done s') → rtc tsm_step (transportStateManager s) (transportStateManager s').
Proof.
  destruct l; cbn [sperform].
  - destruct (perform l (inner s)) as [[r|]|]; cbn; [|done..]. by intros [= <-].
  - destruct (EnhancedEnableRealtime _ _ _ _ _ _ _) as [[s1 e]|] eqn:He; [|done]. intros [= <-]. by eapply Enable_steps.
  - destruct (EnhancedDisableRealtime _ _ _ _ _) as [[s1 e]|] eqn:He; [|done]. intros [= <-].
    eapply rtc_l; [apply tsm_shutdown|]. by eapply Disable_steps.
  - destruct (EnhancedClose _ _ _ _) as [[s1 e]|] eqn:He; [|done]. intros [= <-]. revert He. unfold EnhancedClose.
    cbn [inner set_transport]. destruct (Close _ _) as [[r e']|]; [|done]. intros [= <- _]. apply rtc_once, tsm_close.
  - intros [= <-]. apply rtc_once, tsm_notification.
  - destruct (to_handle s !! i) as [tr|]; [|done]. intros [= <-]. by rewrite handle_transport.
  - destruct (starters s); [done|]. destruct (startFallbackPolling _ _); [|done]. by intros [= <-].
  - intros [= <-]. apply Health_steps.
  - destruct (reconnecting s !! i) as [[ctx|]|]; [|done..]. destruct (attempt_begin _ _ _ _) as [s1 th] eqn:Ha.
    intros [= <-]. cbn [transportStateManager set_reconnecting]. eapply attempt_begin_steps, Ha.
  - destruct (reconnecting s !! i) as [[|start]|]; [done| |done]. destruct (attempt_end _ _ _ _ _) as [s1|] eqn:Ha; [|done].
    intros [= <-]. cbn [transportStateManager set_reconnecting]. eapply attempt_end_steps, Ha.
Qed.
Lemma srun_steps ls : ∀ s s', srun ls s = Some (Done s') → rtc tsm_step (transportStateManager s) (transportStateManager s').
Proof.
  induction ls as [|l ls IH]; intros s s'; cbn [srun]; [by intros [= <-]|].
  destruct (sperform l s) as [[s1|]|] eqn:Hp; [|done..]. intros Hr%IH. etrans; [by eapply sperform_steps|done].
Qed.
Lemma New_stateful_inv store transport now o s :
  NewStatefulRealtimeSyncManager store transport now o = Ok s → tsm_inv (transportStateManager s).
Proof.
  unfold NewStatefulRealtimeSyncManager. destruct o as [o|]; [|done]. cbn zeta.
  destruct (NewTransportStateManager _ _ _) as [t|] eqn:Ht; [|done]. cbn [SubscribeToStateChanges]. intros [= <-].
  eapply inv_same_machine, New_tsm_inv, Ht. done.
Qed.

(** ** Properties *)


Lemma move_to now tid to md t :
  tsm_inv t → transport_edge (GetConnectionState t) to →
  tsm_inv (move now tid to md t).1 ∧ (move now tid to md t).2 = None ∧ GetConnectionState (move now tid to md t).1 = to.
Proof.
  intros Hinv He. destruct (move_cases now tid to md t Hinv) as (Hi & _ & _ & [(H1 & _ & H2 & _)|(_ & Hn & _)]); done.
Qed.

Lemma EnableRealtime_outcome ctx (r : realtime) :
  (RealtimeNotifier (realtimeOptions r) && negb (IsRealtimeActive r) = true
   ∧ ∃ r', EnableRealtime ctx r = (r', None) ∧ IsRealtimeActive r' = true ∧ calls r' = calls r
       ∧ GetConnectionStatus r' = GetConnectionStatus r)
  ∨ (RealtimeNotifier (realtimeOptions r) && negb (IsRealtimeActive r) = false
     ∧ ∃ e, EnableRealtime ctx r = (r, Some e)).
Proof.
  unfold EnableRealtime, IsRealtimeActive. destruct (RealtimeNotifier _); [|right; split; [done|by eexists]].
  destruct (notificationStop r); [right; split; [done|by eexists]|]. left. split; [done|]. by eexists.
Qed.

(** Remark: enabling real time is refused without any change unless the transport is
    disconnected or failed; it then succeeds exactly when there is a notifier and
    real time is not active, and the transport counts as connected at once,
    although nothing has been subscribed to; otherwise the transport fails. *)
Theorem enabling_outcome (store : St) (transport : T) (now : Z) (o : option StatefulRealtimeSyncOptions)
    (before : list slabel) (s0 s : StatefulRealtimeSyncManager) (n1 n2 n3 : Z) (t1 t2 : string) (ctx : nat)
    (Hnew : NewStatefulRealtimeSyncManager store transport now o = Ok s0) (Hbefore : srun before s0 = Some (Done s)) :
  let connects := CanConnect (GetTransportConnectionState s) in
  let enables := RealtimeNotifier (realtimeOptions (inner s)) && negb (IsRealtimeActive (inner s)) in
  ∃ s' err, EnhancedEnableRealtime n1 n2 n3 t1 t2 ctx s = Done (s', err)
    ∧ (err = None ↔ connects = true ∧ enables = true)
    ∧ (connects = false → s' = s)
    ∧ (err = None → GetTransportConnectionState s' = TransportConnected ∧ IsTransportHealthy s' = true
         ∧ IsRealtimeActive (inner s') = true ∧ calls (inner s') = calls (inner s)
         ∧ GetConnectionStatus (inner s') = GetConnectionStatus (inner s))
    ∧ (connects = true → enables = false → GetTransportConnectionState s' = TransportFailed ∧ inner s' = inner s).
Proof.
  assert (tsm_inv (transportStateManager s)) as Hinv
    by (eapply tsm_run_inv; [by eapply New_stateful_inv|by eapply srun_steps]).
  cbn zeta. unfold EnhancedEnableRealtime, GetTransportConnectionState.
  destruct (CanConnect (GetConnectionState (transportStateManager s))) eqn:Hc; cbn [negb andb].
  2: { assert (bool_decide (GetConnectionState (transportStateManager s) = TransportDisconnected) = false) as ->
         by (by destruct (GetConnectionState (transportStateManager s))).
       eexists _, _. split; [reflexivity|]. split_and!; naive_solver. }
  unfold TransitionToConnecting. rewrite Hc. cbn [negb].
  destruct (move_to n1 t1 TransportConnecting (ConnectingMetadata n1 (endpoint (transportStateManager s)) 30000000000)
    (transportStateManager s) Hinv) as (Hia & Hea & Hsa); [by destruct (GetConnectionState (transportStateManager s))|].
  destruct (move n1 t1 TransportConnecting _ _) as [ta ea]. cbn [fst snd] in *. subst ea.
  cbn [inner set_transport]. destruct (EnableRealtime_outcome ctx (inner s)) as [(-> & r & -> & Hr)|(-> & e & ->)];
    cbn [inner set_inner set_transport transportStateManager].
  - destruct (move_to n3 t2 TransportConnected (ConnectedMetadata n3 (endpoint ta) (time_sub n3 n2)) ta Hia)
      as (_ & _ & Hst); [by rewrite Hsa|]. unfold TransitionToConnected, IsTransportHealthy, IsHealthy.
    destruct (move n3 t2 _ _ _) as [tb eb]. cbn in Hst |- *. eexists _, _. split; [reflexivity|]. cbn. rewrite Hst.
    split_and!; try done; try apply Hr.
  - unfold TransitionToFailed. cbn [FailedMetadata deref obind].
    match goal with |- context [move n3 t2 TransportFailed ?md ta] =>
      destruct (move_to n3 t2 TransportFailed md ta Hia) as (_ & _ & Hst); [by rewrite Hsa|];
      destruct (move n3 t2 TransportFailed md ta) as [tb eb] end.
    cbn in Hst |- *. eexists _, _. split; [reflexivity|]. cbn. rewrite Hst. split_and!; naive_solver.
Qed.

(** Remark: when a health check of a connected transport finds its notifier
    disconnected, the reconnection that follows drops the callbacks of the
    real-time manager: once it has subscribed the transport is connected and
    healthy again, yet no notification can start a synchronisation. *)
Theorem reconnection_is_deaf (store : St) (transport : T) (now : Z) (o : option StatefulRealtimeSyncOptions)
    (before : list slabel) (s0 s : StatefulRealtimeSyncManager) (n1 n2 n3 : Z) (t1 t2 t3 : string) (ctx : nat) (start : Z)
    (Hnew : NewStatefulRealtimeSyncManager store transport now o = Ok s0) (Hbefore : srun before s0 = Some (Done s))
    (Hconn : GetTransportConnectionState s = TransportConnected)
    (Hnotif : RealtimeNotifier (realtimeOptions (inner s)) = true) :
  let i := length (reconnecting s) in
  ∃ s', srun [SHealth n1 t1 ctx false; SReconnect i start n2 t2; SReconnected i n3 t3 None] s = Some (Done s')
    ∧ GetTransportConnectionState s' = TransportConnected ∧ IsTransportHealthy s' = true
    ∧ reconnecting s' = reconnecting s ∧ threads (inner s') = threads (inner s)
    ∧ ∀ cell n at_, sperform (SInner (LNotify cell n at_)) s' = None.
Proof.
  assert (tsm_inv (transportStateManager s)) as Hinv
    by (eapply tsm_run_inv; [by eapply New_stateful_inv|by eapply srun_steps]).
  cbn zeta. unfold GetTransportConnectionState in *.
  destruct (move_to n1 t1 TransportReconnecting (ReconnectingMetadata n1 "health_check_failed" 1 2000000000)
    (transportStateManager s) Hinv) as (Hia & Hea & Hsa); [by rewrite Hconn|].
  destruct (move n1 t1 TransportReconnecting _ _) as [ta ea] eqn:Hta. cbn [fst snd] in *. subst ea.
  destruct (move_to n3 t3 TransportConnected (ConnectedMetadata n3 (endpoint ta) (time_sub n3 start)) ta Hia)
    as (_ & _ & Hsb); [by rewrite Hsa|].
  assert (performHealthCheck n1 t1 ctx false s = set_reconnecting (reconnecting s ++ [RBegin ctx]) (set_transport ta s)) as Hh.
  { unfold performHealthCheck, TransitionToReconnecting. rewrite Hconn, Hnotif. cbn [negb CanReconnect].
    rewrite bool_decide_true by done. cbn [andb]. rewrite Hta. reflexivity. }
  cbn [srun sperform]. rewrite Hh. cbn [reconnecting set_reconnecting].
  rewrite lookup_app_r, Nat.sub_diag by done. cbn [lookup list_lookup].
  unfold attempt_begin. cbn [transportStateManager set_reconnecting set_transport inner]. rewrite Hsa, Hnotif. cbn [CanConnect negb].
  cbn [set_reconnecting set_transport set_inner inner transportStateManager reconnecting].
  rewrite insert_app_r_alt, Nat.sub_diag by done. cbn [insert list_insert].
  rewrite lookup_app_r, Nat.sub_diag by done. cbn [lookup list_lookup].
  unfold attempt_end, TransitionToConnected. cbn [set_reconnecting set_transport set_inner inner transportStateManager reconnecting obind].
  eexists. split; [reflexivity|]. unfold IsTransportHealthy, IsHealthy.
  cbn [set_reconnecting set_transport set_inner inner transportStateManager reconnecting]. rewrite Hsb.
  split_and!; [done|done| |done|].
  - rewrite delete_take_drop, take_app_length, drop_app_ge by lia. replace (S (length (reconnecting s)) - length (reconnecting s))%nat with 1%nat by lia. cbn. by rewrite app_nil_r.
  - intros cell n at_. cbn [sperform perform inner]. rewrite bool_decide_false; [done|]. cbn. set_solver.
Qed.
End stateful.

(** ** Concrete runs *)
#[local] Instance demo_pow : FloatPow := {| float := Z; two := 2; scaled := λ d m n, d * m ^ n |}.
#[local] Instance demo_text : TimeText := {| rfc3339 := format_int; duration_string := format_int |}.
#[local] Instance demo_range : MapRange := canonical_range.
Definition demo_options : StatefulRealtimeSyncOptions :=
  mkStatefulOptions
    (mkRealtimeOptions (mkSyncOptions false false None None 10 0 None false 0 false) true None false 1000 None)
    "" false 0 0 0.
#[local] Notation demo := (StatefulRealtimeSyncManager (St := MemStore.MemStore) (T := nullTransport)).
Definition demo_enable : list slabel := [SEnable 1 2 3 "a" "b" 1].
Definition demo_new : result error demo :=
  NewStatefulRealtimeSyncManager MemStore.New NullTransport 0 (Some demo_options).
Lemma demo_states_spec :
  ∃ s0 s, demo_new = Ok s0 ∧ srun demo_enable s0 = Some (Done s)
    ∧ GetTransportConnectionState s = TransportConnected ∧ RealtimeNotifier (realtimeOptions (inner s)) = true.
Proof. do 2 eexists. split; [reflexivity|]. split; [vm_compute; reflexivity|by split]. Qed.


Lemma enabling_outcome_witness :
  ∃ s0 s' : demo, EnhancedEnableRealtime 1 2 3 "a" "b" 1 s0 = Done (s', None)
    ∧ GetTransportConnectionState s' = TransportConnected ∧ calls (inner s') = calls (inner s0).
Proof.
  destruct demo_new as [s0|] eqn:Hnew; [|by vm_compute in Hnew].
  destruct (enabling_outcome MemStore.New NullTransport 0 (Some demo_options) [] s0 s0 1 2 3 "a" "b" 1 Hnew eq_refl)
    as (s' & err & Hrun & Herr & _ & Hok & _).
  assert (err = None) as -> by (apply Herr; vm_compute in Hnew; injection Hnew as <-; by split).
  destruct (Hok eq_refl) as (H1 & _ & _ & H2 & _).
  exists s0, s'. split; [exact Hrun|]. split; [exact H1|exact H2].
Defined.

Lemma reconnection_is_deaf_witness :
  ∃ s s' : demo, srun [SHealth 4 "c" 1 false; SReconnect 0 5 6 "d"; SReconnected 0 7 "e" None] s = Some (Done s')
    ∧ GetTransportConnectionState s' = TransportConnected
    ∧ ∀ cell n at_, sperform (SInner (LNotify cell n at_)) s' = None.
Proof.
  destruct demo_states_spec as (s0 & s & Hnew & Hrun & Hconn & Hnotif).
  destruct (reconnection_is_deaf MemStore.New NullTransport 0 (Some demo_options) demo_enable s0 s 4 6 7 "c" "d" "e" 1 5
    Hnew Hrun Hconn Hnotif) as (s' & H1 & H2 & _ & _ & _ & H3).
  assert (length (reconnecting s) = 0%nat) as Hlen
    by (vm_compute in Hnew; injection Hnew as <-; vm_compute in Hrun; injection Hrun as <-; reflexivity).
  rewrite Hlen in H1. exists s, s'. split; [exact H1|]. split; [exact H2|exact H3].
Defined.
