(* ===== verification/Middleware.v ===== *)
(** * Middleware of the HTTP transport (src/transport/httptransport/middleware:
    middleware.go, bearer.go, tenant.go, hmac.go)

    Handlers over a request with the values of its context and a state of their
    own; the middleware functions, their chain, and what they come to in front of
    the sync handler of [HttpServer.v].  HMAC-SHA256 is a parameter, hexadecimal
    and canonical header names are written out. *)
From Stdlib Require Ascii.
From S2P Require Import Prelude Types Json Text Errors VectorClock Versions Interfaces.
From S2P Require Import Idempotency HttpServer.
From S2P Require Cursor MemStore HttpSync.
From stdpp Require Import options.

(** ** Header names ([textproto.CanonicalMIMEHeaderKey]) *)
Definition is_lower (c : Ascii.ascii) : bool := (97 <=? code c) && (code c <=? 122).
Definition is_upper (c : Ascii.ascii) : bool := (65 <=? code c) && (code c <=? 90).
Definition token_byte (c : Ascii.ascii) : bool :=
  is_lower c || is_upper c || is_digit c
  || existsb (Z.eqb (code c)) [33; 35; 36; 37; 38; 39; 42; 43; 45; 46; 94; 95; 96; 124; 126].
Fixpoint canonical_from (upper : bool) (s : string) : string :=
  match s with
  | EmptyString => EmptyString
  | String c r =>
      let c' := if upper && is_lower c then ch (code c - 32)
                else if negb upper && is_upper c then ch (code c + 32) else c in
      String c' (canonical_from (code c' =? 45) r)
  end.
Fixpoint all_bytes (p : Ascii.ascii → bool) (s : string) : bool :=
  match s with EmptyString => true | String c r => p c && all_bytes p r end.
Definition CanonicalHeaderKey (s : string) : string :=
  if all_bytes token_byte s then canonical_from true s else s.
Example canonical_ex : CanonicalHeaderKey "x-SIGNATURE-a b" = "x-SIGNATURE-a b"
  ∧ CanonicalHeaderKey "x-sIGNATURE" = "X-Signature".
Proof. by split. Qed.

(** ** [encoding/hex] *)
Definition hex_digit (n : Z) : Ascii.ascii := if n <? 10 then ch (48 + n) else ch (87 + n).
Fixpoint EncodeToString (s : string) : string :=
  match s with
  | EmptyString => EmptyString
  | String c r => String (hex_digit (code c / 16)) (String (hex_digit (code c mod 16)) (EncodeToString r))
  end.
Example hex_ex : EncodeToString "a~" = "617e".
Proof. reflexivity. Qed.

(** [strings.SplitN(s, " ", 2)]: the text before the first space and after it. *)
Fixpoint split_space (s : string) : option (string * string) :=
  match s with
  | EmptyString => None
  | String c r =>
      if code c =? 32 then Some (EmptyString, r)
      else match split_space r with Some (a, b) => Some (String c a, b) | None => None end
  end.
Example split_ex : split_space "Bearer a b" = Some ("Bearer", "a b").
Proof. reflexivity. Qed.

Lemma code_inj c d : code c = code d → c = d.
Proof. unfold code. intros E%N2Z.inj. rewrite <- (Ascii.ascii_N_embedding c), <- (Ascii.ascii_N_embedding d). by f_equal. Qed.
Lemma split_space_first a b : split_space (a +:+ String (ch 32) b) = Some (a, b) ↔ split_space a = None.
Proof.
  induction a as [|c a IH]; simpl; [done|]. destruct (code c =? 32); [split; [|done]; congruence|].
  destruct (split_space a) as [[]|] eqn:E, (split_space (a +:+ _)) as [[]|] eqn:E';
    split; intros; simplify_eq; try done.
  - naive_solver.
  - destruct IH as [_ IH]. by specialize (IH eq_refl); simplify_eq.
  - destruct IH as [_ IH]. by specialize (IH eq_refl).
Qed.
Lemma split_space_spec s a b : split_space s = Some (a, b) → s = a +:+ String (ch 32) b.
Proof.
  revert a. induction s as [|c s IH]; intros a; simpl; [done|].
  destruct (Z.eqb_spec (code c) 32) as [E|_].
  - intros [= <- <-]. by rewrite (code_inj c (ch 32) E).
  - destruct (split_space s) as [[a' b']|]; [|done]. intros [= <- <-]. simpl. by rewrite (IH a').
Qed.

Lemma hex_digit_inj a b : 0 ≤ a < 16 → 0 ≤ b < 16 → hex_digit a = hex_digit b → a = b.
Proof.
  intros Ha Hb E. apply (f_equal code) in E. revert E. unfold hex_digit, code, ch.
  destruct (Z.ltb_spec a 10), (Z.ltb_spec b 10); rewrite !Ascii.N_ascii_embedding; lia.
Qed.
Lemma code_range c : 0 ≤ code c < 256.
Proof. unfold code. pose proof (Ascii.N_ascii_bounded c). lia. Qed.
Lemma EncodeToString_inj x y : EncodeToString x = EncodeToString y → x = y.
Proof.
  revert y; induction x as [|c x IH]; intros [|d y]; simpl; try done.
  intros [= H1 H2 H3]. pose proof (code_range c). pose proof (code_range d).
  apply hex_digit_inj in H1, H2; try (apply Z.mod_pos_bound; lia);
    try (split; [apply Z.div_pos|apply Z.div_lt_upper_bound]; lia).
  f_equal; [|by apply IH]. apply code_inj.
  rewrite (Z.div_mod (code c) 16), (Z.div_mod (code d) 16) by lia. by rewrite H1, H2.
Qed.

(** ** Requests on their way through the handlers *)
Section middleware.
Context {W : WireFormat}.
(** The body of a text response. *)
Context (text_body : string → body).
(** [hmac_sha256 secret data]. *)
Context (hmac_sha256 : string → string → string).

(** A request, the values in its context by typed key, and the errors that
    reading its body to the end and closing it give. *)
Record Incoming := mkIncoming {
  request : Request; values : gmap string any; read_error : option error; close_error : option error
}.
Definition with_values (m : gmap string any) (i : Incoming) : Incoming :=
  mkIncoming (request i) m (read_error i) (close_error i).
Definition with_body (b : body) (read close : option error) (i : Incoming) : Incoming :=
  let r := request i in
  mkIncoming (mkRequest (Method r) (Path r) (Header r) (Query r) (ContentLength r) b) (values i) read close.
Definition header_get (name : string) (i : Incoming) : string := header (CanonicalHeaderKey name) (request i).
Definition http_error (msg : string) (status : Z) : Response := mkResponse status false (text_body (msg +:+ "
")).

Definition ContextKeyTenant : string := "tenant".
Definition ContextKeyUserID : string := "user_id".
Definition WithValue (key : string) (v : any) (m : gmap string any) : gmap string any := <[key := v]> m.
Definition string_value (key : string) (m : gmap string any) : string * bool :=
  match m !! key with Some (AnyString s) => (s, true) | _ => ("", false) end.
Definition UserIDFromContext (m : gmap string any) : string * bool := string_value ContextKeyUserID m.
Definition TenantFromContext (m : gmap string any) : string * bool := string_value ContextKeyTenant m.

(** ** The middleware *)
Section chain.
Context {S : Type}.
Definition Handler : Type := Incoming → S → outcome (S * Response).
Definition Middleware : Type := Handler → Handler.

(** The loop from the last to the first; [i] middleware are still to apply. *)
Fixpoint chain_from (middleware : list Middleware) (i : nat) (h : Handler) : Handler :=
  match i with
  | O => h
  | Datatypes.S i =>
      match middleware !! i with
      | Some m => chain_from middleware i (m h)
      | None => λ _ _, Panic "index out of range"
      end
  end.
Definition Chain (h : Handler) (middleware : list Middleware) : Handler :=
  chain_from middleware (length middleware) h.

Definition TokenValidator : Type := string → string * string * option error.
Definition BearerAuth (validator : TokenValidator) : Middleware := λ next inc s,
  let auth := header_get "Authorization" inc in
  if bool_decide (auth = "") then Done (s, http_error "missing authorization header" 401)
  else
    match split_space auth with
    | None => Done (s, http_error "invalid authorization header format" 401)
    | Some (scheme, token) =>
        if negb (bool_decide (scheme = "Bearer"))
        then Done (s, http_error "invalid authorization header format" 401)
        else if bool_decide (token = "") then Done (s, http_error "empty bearer token" 401)
        else
          let '(userID, tenantID, err) := validator token in
          match err with
          | Some _ => Done (s, http_error "invalid token" 401)
          | None =>
              let ctx := WithValue ContextKeyUserID (AnyString userID) (values inc) in
              let ctx := if bool_decide (tenantID = "") then ctx
                         else WithValue ContextKeyTenant (AnyString tenantID) ctx in
              next (with_values ctx inc) s
          end
    end.

Definition TenantExtractor (headerName : string) : Middleware := λ next inc s,
  match values inc !! ContextKeyTenant with
  | Some AnyNil | None =>
      let tenant := header_get headerName inc in
      if bool_decide (tenant = "") then next inc s
      else next (with_values (WithValue ContextKeyTenant (AnyString tenant) (values inc)) inc) s
  | Some _ => next inc s
  end.

(** Reading the body to its end leaves nothing of it. *)
Definition ReadAll (inc : Incoming) : result error body * Incoming :=
  match read_error inc with
  | Some e => (Err e, inc)
  | None => (Ok (Body (request inc)), with_body no_body None (close_error inc) inc)
  end.
Definition signature_of (secret : string) (b : body) : string := EncodeToString (hmac_sha256 secret (body_text b)).
Definition HMACValidator (secret headerName : string) : Middleware := λ next inc s,
  let providedSignature := header_get headerName inc in
  if bool_decide (providedSignature = "") then Done (s, http_error "missing signature header" 401)
  else
    match ReadAll inc with
    | (Err _, _) => Done (s, http_error "failed to read request body" 400)
    | (Ok b, inc) =>
        match close_error inc with
        | Some _ => Done (s, http_error "failed to close request body" 500)
        | None =>
            let expectedSignature := signature_of secret b in
            if negb (bool_decide (providedSignature = expectedSignature))
            then Done (s, http_error "invalid signature" 401)
            else next (with_body b None None inc) s
        end
    end.
End chain.
Arguments Handler S : clear implicits.
Arguments Middleware S : clear implicits.

(** ** Lemmas *)
Section generic.
Context {S : Type}.
Implicit Types (h : Handler S) (m : Middleware S) (ms : list (Middleware S)) (inc : Incoming) (s : S).

Lemma chain_from_foldr ms h : ∀ i, (i ≤ length ms)%nat →
  chain_from ms i h = foldr (λ m h, m h) h (take i ms).
Proof.
  unfold Middleware in *. intros i; revert h; induction i as [|i IH]; intros h Hi; [done|]; simpl; unfold Middleware in *.
  destruct (ms !! i) as [m|] eqn:Hm; [|apply lookup_ge_None in Hm; lia].
  etrans; [apply IH; lia|]. by rewrite (take_S_r _ _ _ Hm), foldr_app.
Qed.
Lemma Chain_foldr ms h : Chain h ms = foldr (λ m h, m h) h ms.
Proof. unfold Chain. by rewrite chain_from_foldr, firstn_all by lia. Qed.
Lemma Chain_cons m ms h : Chain h (m :: ms) = m (Chain h ms).
Proof. by rewrite !Chain_foldr. Qed.
Lemma Chain_app ms ms' h : Chain h (ms ++ ms') = Chain (Chain h ms') ms.
Proof. by rewrite !Chain_foldr, foldr_app. Qed.
Lemma Chain_nil h : Chain h [] = h.
Proof. done. Qed.

(** A middleware that answers by itself. *)
Definition refuses (m : Middleware S) inc (resp : Response) : Prop :=
  ∀ h s, m h inc s = Done (s, resp).
Lemma with_body_id inc : read_error inc = None → close_error inc = None →
  with_body (Body (request inc)) None None inc = inc.
Proof. by destruct inc as [[] ? ? ?]; simpl; intros -> ->. Qed.
End generic.


(** ** What each middleware does *)
Section theorems.
Context {S : Type}.
Implicit Types (next : Handler S) (inc : Incoming) (s : S).

(** The values a bearer token puts into the context. *)
Definition granted (userID tenantID : string) inc : Incoming :=
  let ctx := WithValue ContextKeyUserID (AnyString userID) (values inc) in
  with_values (if bool_decide (tenantID = "") then ctx
               else WithValue ContextKeyTenant (AnyString tenantID) ctx) inc.
Definition bears (validator : TokenValidator) inc (userID tenantID : string) : Prop :=
  ∃ token, token ≠ "" ∧ header_get "Authorization" inc = "Bearer" +:+ String (ch 32) token
           ∧ validator token = (userID, tenantID, None).

Lemma bearer_accepts (validator : TokenValidator) inc u t :
  bears validator inc u t → ∀ next s, BearerAuth validator next inc s = next (granted u t inc) s.
Proof.
  intros (token & Ht & Ha & Hv) next s. unfold BearerAuth. rewrite Ha.
  replace (split_space _) with (Some ("Bearer", token)) by done.
  rewrite (bool_decide_false (_ +:+ _ = "")) by done. rewrite (bool_decide_true ("Bearer" = "Bearer")) by done.
  cbn [negb]. by rewrite (bool_decide_false (token = "")), Hv by done.
Qed.
Lemma bearer_refuses (validator : TokenValidator) inc : (¬ ∃ u t, bears validator inc u t) →
  ∃ msg, refuses (S := S) (BearerAuth validator) inc (http_error msg 401).
Proof.
  intros Hno. unfold refuses, BearerAuth. case_bool_decide as H1; [by eexists|].
  destruct (split_space _) as [[scheme token]|] eqn:Hs; [|by eexists].
  destruct (decide (scheme = "Bearer")) as [->|H2]; cycle 1.
  { rewrite (bool_decide_false (scheme = "Bearer")) by done. by eexists. }
  rewrite (bool_decide_true ("Bearer" = "Bearer")) by done; cbn [negb].
  case_bool_decide as H3; [by eexists|].
  destruct (validator token) as [[u t] [e|]] eqn:Hv; [by eexists|].
  exfalso; apply Hno. exists u, t, token. split_and!; [done| |done]. by apply split_space_spec.
Qed.
Lemma granted_values u t inc :
  UserIDFromContext (values (granted u t inc)) = (u, true)
  ∧ (t ≠ "" → TenantFromContext (values (granted u t inc)) = (t, true))
  ∧ (t = "" → values (granted u t inc) !! ContextKeyTenant = values inc !! ContextKeyTenant)
  ∧ ∀ key, key ≠ ContextKeyUserID → key ≠ ContextKeyTenant →
      values (granted u t inc) !! key = values inc !! key.
Proof.
  assert (Hne : ContextKeyUserID ≠ ContextKeyTenant) by done.
  unfold granted, UserIDFromContext, TenantFromContext, string_value, WithValue; cbn.
  case_bool_decide as Ht; split_and!; intros;
    repeat first [rewrite (lookup_insert_eq (M := gmap string))
                 |rewrite (lookup_insert_ne (M := gmap string)) by done]; done.
Qed.
Lemma granted_tenantless u inc : TenantFromContext (values (granted u "" inc)) = TenantFromContext (values inc).
Proof.
  destruct (granted_values u "" inc) as (_ & _ & H & _). unfold TenantFromContext, string_value. by rewrite H.
Qed.

(** Remark: a request passes [BearerAuth] exactly when its header is [Bearer], one
    space, and a non-empty token the validator accepts; the next handler then
    sees the same request with the user, and the tenant if there is one, in its
    context and every other value kept.  Otherwise the answer is 401 and no
    handler runs. *)
Theorem bearer_exact (validator : TokenValidator) inc :
  (∀ u t, bears validator inc u t → ∃ inc',
      (∀ next s, BearerAuth validator next inc s = next inc' s)
      ∧ request inc' = request inc ∧ UserIDFromContext (values inc') = (u, true)
      ∧ (t ≠ "" → TenantFromContext (values inc') = (t, true))
      ∧ (t = "" → TenantFromContext (values inc') = TenantFromContext (values inc))
      ∧ ∀ key, key ≠ ContextKeyUserID → key ≠ ContextKeyTenant → values inc' !! key = values inc !! key)
  ∧ ((¬ ∃ u t, bears validator inc u t) →
     ∃ msg, refuses (S := S) (BearerAuth validator) inc (http_error msg 401)).
Proof.
  split; [|apply bearer_refuses]. intros u t H. exists (granted u t inc).
  destruct (granted_values u t inc) as (H1 & H2 & H3 & H4).
  split_and!; try done; [by apply bearer_accepts|].
  intros ->. apply granted_tenantless.
Qed.

(** Remark: with a tenant from the token, the next handler sees that tenant whatever
    the header says and whichever of the two middleware comes first; with a token
    that names no tenant and a context that has none, the tenant is the one the
    client writes into the header. *)
Theorem authenticated_tenant_wins (validator : TokenValidator) inc u t headerName
    (Hb : bears validator inc u t) next s :
  (t ≠ "" → ∃ inc1 inc2,
     Chain next [BearerAuth validator; TenantExtractor headerName] inc s = next inc1 s
     ∧ Chain next [TenantExtractor headerName; BearerAuth validator] inc s = next inc2 s
     ∧ TenantFromContext (values inc1) = (t, true) ∧ TenantFromContext (values inc2) = (t, true)
     ∧ request inc1 = request inc ∧ request inc2 = request inc)
  ∧ (t = "" → values inc !! ContextKeyTenant = None → header_get headerName inc ≠ "" → ∃ inc1 inc2,
     Chain next [BearerAuth validator; TenantExtractor headerName] inc s = next inc1 s
     ∧ Chain next [TenantExtractor headerName; BearerAuth validator] inc s = next inc2 s
     ∧ TenantFromContext (values inc1) = (header_get headerName inc, true)
     ∧ TenantFromContext (values inc2) = (header_get headerName inc, true)).
Proof.
  rewrite !Chain_cons, !Chain_nil, (bearer_accepts _ _ _ _ Hb). destruct (granted_values u t inc) as (_ & H2 & H3 & _).
  assert (Hb' : ∀ m, bears validator (with_values m inc) u t) by (intros m; exact Hb).
  split.
  - intros Ht. specialize (H2 Ht). exists (granted u t inc).
    assert (∃ inc2, TenantExtractor headerName (BearerAuth validator next) inc s = next (granted u t inc2) s
                    ∧ request inc2 = request inc) as (inc2 & -> & Hr).
    { unfold TenantExtractor. repeat case_match; eexists; split; try (by apply bearer_accepts); done. }
    exists (granted u t inc2). destruct (granted_values u t inc2) as (_ & H2' & _).
    split_and!; auto. unfold TenantExtractor.
    revert H2; unfold TenantFromContext, string_value. by repeat case_match; intros; simplify_eq.
  - intros Ht Hv Hh. specialize (H3 Ht). rewrite Hv in H3.
    unfold TenantExtractor. rewrite Hv, H3. unfold header_get in *; cbn.
    rewrite bool_decide_false by done.
    eexists _, (granted u t _). split_and!; [done|by apply bearer_accepts| |].
    + unfold TenantFromContext, string_value, WithValue; cbn. by rewrite lookup_insert_eq.
    + subst t. rewrite granted_tenantless. unfold TenantFromContext, string_value, WithValue; cbn.
      by rewrite lookup_insert_eq.
Qed.

Definition signed (secret headerName : string) inc : Prop :=
  read_error inc = None ∧ close_error inc = None ∧ header_get headerName inc ≠ ""
  ∧ header_get headerName inc = signature_of secret (Body (request inc)).
Lemma hmac_accepts secret headerName inc : signed secret headerName inc →
  ∀ next s, HMACValidator secret headerName next inc s = next inc s.
Proof.
  intros (Hr & Hc & Hn & Hs) next s. unfold HMACValidator, ReadAll.
  rewrite (bool_decide_false (header_get headerName inc = "")), Hr by done. cbn [close_error with_body].
  rewrite Hc, (bool_decide_true (_ = signature_of _ _)) by done. cbn [negb].
  f_equal. by destruct inc as [[] ? ? ?]; cbn in *; subst.
Qed.
Lemma hmac_refuses secret headerName inc : ¬ signed secret headerName inc →
  ∃ msg code, (code = 400 ∨ code = 401 ∨ code = 500)
    ∧ refuses (S := S) (HMACValidator secret headerName) inc (http_error msg code).
Proof.
  intros Hno. unfold refuses, HMACValidator, ReadAll. case_bool_decide as H1; [eexists _, 401; naive_solver|].
  destruct (read_error inc) as [e|] eqn:Hr; [eexists _, 400; naive_solver|]. cbn [close_error with_body].
  destruct (close_error inc) as [e|] eqn:Hc; [eexists _, 500; naive_solver|].
  rewrite bool_decide_false; [eexists _, 401; naive_solver|]. intros Hs. by apply Hno.
Qed.

(** Remark: a request passes [HMACValidator] exactly when its body can be read and
    closed and the header is the lower-case hexadecimal text of the body's HMAC;
    the next handler then gets the very request, its body restored.  Otherwise
    the answer is 400, 401 or 500 and no handler runs.  Two bodies with one
    signature have one HMAC. *)
Theorem hmac_exact secret headerName inc :
  (signed secret headerName inc → ∀ next s, HMACValidator secret headerName next inc s = next inc s)
  ∧ (¬ signed secret headerName inc → ∃ msg code, (code = 400 ∨ code = 401 ∨ code = 500)
       ∧ refuses (S := S) (HMACValidator secret headerName) inc (http_error msg code))
  ∧ ∀ b b', signature_of secret b = signature_of secret b' →
      hmac_sha256 secret (body_text b) = hmac_sha256 secret (body_text b').
Proof.
  split_and!; [apply hmac_accepts|apply hmac_refuses|].
  intros b b'. apply EncodeToString_inj.
Qed.

(** Remark: [Chain] nests its middleware with the first outermost: what the first
    refuses reaches none of the others, and a chain of two lists is the first
    list around the second. *)
Theorem chain_order (ms ms' : list (Middleware S)) (m : Middleware S) next :
  Chain next (m :: ms) = m (Chain next ms)
  ∧ Chain next (ms ++ ms') = Chain (Chain next ms') ms
  ∧ (∀ inc resp, refuses m inc resp → refuses (λ h, Chain h (m :: ms)) inc resp).
Proof.
  split_and!; [apply Chain_cons|apply Chain_app|].
  intros inc resp H h s. rewrite Chain_cons. apply H.
Qed.
End theorems.

(** ** In front of the sync handler *)
Section server.
Context {MR : MapRange} {St : Type} {ES : EventStore St}.
Implicit Types (h : SyncHandler St) (inc : Incoming).

Definition sync_handler (reg : Cursor.Registry) (now later : Z) (ctx : CtxView) : Handler (SyncHandler St) :=
  λ inc h, ServeHTTP reg now later ctx (request inc) h.

Lemma sync_handler_context reg now later ctx inc m h :
  sync_handler reg now later ctx (with_values m inc) h = sync_handler reg now later ctx inc h.
Proof. done. Qed.
Lemma tenant_extractor_sync headerName reg now later ctx inc h :
  TenantExtractor headerName (sync_handler reg now later ctx) inc h = ServeHTTP reg now later ctx (request inc) h.
Proof. unfold TenantExtractor. by repeat case_match. Qed.

(** Remark: behind [BearerAuth] and [TenantExtractor] the sync handler serves every
    request with an accepted token exactly as if there were no middleware, so
    neither the user nor the tenant of the token limits what is read or stored;
    any other request gets 401 and changes nothing. *)
Theorem tokens_do_not_separate_tenants (validator : TokenValidator) headerName reg now later ctx inc h :
  (∀ u t, bears validator inc u t →
     Chain (sync_handler reg now later ctx) [BearerAuth validator; TenantExtractor headerName] inc h
     = ServeHTTP reg now later ctx (request inc) h)
  ∧ ((¬ ∃ u t, bears validator inc u t) → ∃ msg,
     Chain (sync_handler reg now later ctx) [BearerAuth validator; TenantExtractor headerName] inc h
     = Done (h, http_error msg 401)).
Proof.
  rewrite !Chain_cons, Chain_nil. split.
  - intros u t Hb. rewrite (bearer_accepts _ _ _ _ Hb). by rewrite tenant_extractor_sync.
  - intros Hno. destruct (bearer_refuses (S := SyncHandler St) _ _ Hno) as [msg Hr]. exists msg. apply Hr.
Qed.

(** Remark: a signature covers the body alone: a request that carries the body and
    the signature of a signed one is served whatever its path, method, query,
    tenant and idempotency key; and an unsigned one changes nothing. *)
Theorem signature_covers_body_only secret headerName reg now later ctx inc inc' h
    (Hs : signed secret headerName inc)
    (Hr : read_error inc' = None) (Hc : close_error inc' = None)
    (Hh : header_get headerName inc' = header_get headerName inc)
    (Hb : Body (request inc') = Body (request inc)) :
  Chain (sync_handler reg now later ctx) [HMACValidator secret headerName] inc' h
  = ServeHTTP reg now later ctx (request inc') h
  ∧ ∀ inc2, ¬ signed secret headerName inc2 → ∃ resp,
      Chain (sync_handler reg now later ctx) [HMACValidator secret headerName] inc2 h = Done (h, resp).
Proof.
  rewrite Chain_cons, Chain_nil. split.
  - rewrite hmac_accepts; [done|]. destruct Hs as (_ & _ & Hn & He).
    split_and!; [done|done| |]; by rewrite Hh, ?Hb.
  - intros inc2 Hno. destruct (hmac_refuses (S := SyncHandler St) _ _ _ Hno) as (msg & code & _ & H).
    exists (http_error msg code). apply H.
Qed.
End server.
End middleware.

(** ** Concrete instances *)
#[local] Existing Instance HttpSync.demo_wire.
#[local] Instance demo_range : MapRange := canonical_range.
Definition demo_text (s : string) : body := (0%nat, Some (PText s)).
Definition demo_validator : TokenValidator := λ token,
  if bool_decide (token = "t0ken") then ("alice", "acme", None) else ("", "", Some (ErrMsg "unknown token")).
Definition demo_incoming (h : gmap string string) (b : body) : Incoming :=
  mkIncoming (mkRequest "POST" "/sync/push" (<["Content-Type" := "application/json"]> h) ∅ 0 b) ∅ None None.
Definition demo_bearer : Incoming :=
  demo_incoming {["Authorization" := "Bearer t0ken"; "X-Tenant" := "other"]} HttpSync.demo_request.(Body).
(** A toy keyed function in the place of HMAC-SHA256. *)
Definition demo_mac (secret data : string) : string := secret +:+ data.
Definition demo_signed (key : string) : Incoming :=
  demo_incoming {["X-Signature" := "6b"; HeaderIdempotencyKey := key]} HttpSync.demo_request.(Body).
Lemma demo_bears : bears demo_validator demo_bearer "alice" "acme".
Proof. exists "t0ken". by vm_compute. Qed.

Lemma authenticated_tenant_wins_witness :
  ∃ inc1 inc2, Chain (λ i (s : unit), Done (s, http_error demo_text "seen" 200))
       [BearerAuth demo_text demo_validator; TenantExtractor "x-tenant"] demo_bearer ()
       = Done ((), http_error demo_text "seen" 200)
     ∧ TenantFromContext (values inc1) = ("acme", true) ∧ TenantFromContext (values inc2) = ("acme", true).
Proof.
  destruct (authenticated_tenant_wins demo_text demo_validator demo_bearer "alice" "acme" "x-tenant" demo_bears
              (λ i (s : unit), Done (s, http_error demo_text "seen" 200)) ()) as [H _].
  destruct H as (inc1 & inc2 & H1 & _ & H3 & H4 & _); [done|]. exact (ex_intro _ inc1 (ex_intro _ inc2 (conj H1 (conj H3 H4)))).
Defined.

Lemma signature_covers_body_only_witness :
  Chain (sync_handler HttpSync.registry 1 2 background) [HMACValidator demo_text demo_mac "k" "x-signature"]
    (demo_signed "second") (HttpSync.demo_handler MemStore.demo_store)
  = ServeHTTP HttpSync.registry 1 2 background (request (demo_signed "second"))
      (HttpSync.demo_handler MemStore.demo_store).
Proof.
  apply (signature_covers_body_only demo_text demo_mac "k" "x-signature" HttpSync.registry 1 2 background
           (demo_signed "first")); by vm_compute.
Defined.
(** A captured push sent again under another key stores its events again. *)
Example replay_stores_twice :
  let server := Chain (sync_handler HttpSync.registry 1 2 background)
                  [HMACValidator demo_text demo_mac "k" "x-signature"] in
  match server (demo_signed "first") (HttpSync.demo_handler MemStore.demo_store) with
  | Done (h, r1) =>
      match server (demo_signed "first") h, server (demo_signed "second") h with
      | Done (h1, _), Done (h2, r2) =>
          (length (MemStore.events (store h)), length (MemStore.events (store h1)),
           length (MemStore.events (store h2)), StatusCode r1, StatusCode r2)
          = (4%nat, 4%nat, 5%nat, 200, 200)
      | _, _ => False
      end
  | Panic _ => False
  end.
Proof. by vm_compute. Qed.
