(* ===== verification/Sse.v ===== *)
(** * The SSE transport (src/transport/sse: types.go, server.go, client.go)

    The wire events, the server's rounds over any store, and the client with its
    line scanner, its reconnections and its back-off.  The JSON text of a frame is
    a parameter ([FrameText]); the loops run along explicit scripts: what the
    store holds and the context says in each round of the server, and what each
    connection of the client gives. *)
From S2P Require Import Prelude Types Json Text Errors VectorClock Versions Interfaces.
From S2P Require Cursor MemStore HttpSync.
From stdpp Require Import options.

(** ** Wire data (types.go) *)
Record JSONEvent := mkJSONEvent {
  j_ID : string; j_Type : string; j_AggregateID : string; j_Data : any; j_Metadata : gomap any
}.
Record JSONEventWithVersion := mkJSON { j_Event : JSONEvent; j_Version : string }.
(** A [SimpleEvent] is seen through its accessors, as an [Event]. *)
Definition SimpleEvent (j : JSONEvent) : Event :=
  mkEvent (j_ID j) (j_Type j) (j_AggregateID j) (j_Data j) (j_Metadata j).
Definition toJSONEvent (e : option Event) : outcome JSONEvent :=
  let* e := deref e in
  Done (mkJSONEvent (ID e) (Type_ e) (AggregateID e) (Data e) (Metadata e)).
Definition toJSONEventWithVersion (ev : EventWithVersion) : outcome JSONEventWithVersion :=
  let* v := match ev_version ev with Some v => version_String v | None => Done "" end in
  let* j := toJSONEvent (ev_event ev) in
  Done (mkJSON j v).
Fixpoint to_json_events (evs : list EventWithVersion) : outcome (list JSONEventWithVersion) :=
  match evs with
  | [] => Done []
  | ev :: rest =>
      let* j := toJSONEventWithVersion ev in
      let* js := to_json_events rest in
      Done (j :: js)
  end.
(** Of the version texts only two are read. *)
Definition fromJSONEventWithVersion (j : JSONEventWithVersion) : EventWithVersion :=
  let version := if bool_decide (j_Version j = "1") then 1 else if bool_decide (j_Version j = "2") then 2 else 0 in
  mkEWV (Some (SimpleEvent (j_Event j))) (Some (IntegerCursor version)).

(** The payload of a frame and its JSON text; decoding gives the events alone,
    which is what the client uses. *)
Record payload := mkPayload { p_events : list JSONEventWithVersion; p_next : Cursor.WireCursor }.
Class FrameText := {
  encode : payload → result error string;
  decode : string → result error (list JSONEventWithVersion);
  parse_wire : string → result error Cursor.WireCursor
}.

Definition newline : string := "
".
Definition data_prefix : string := "data: ".

Section sse.
Context {FT : FrameText}.

(** ** Server *)
Section server.
Context {St : Type} {ES : EventStore St} (reg : Cursor.Registry).

Definition since_of (cur : option Cursor.Cursor) : option Version :=
  match cur with
  | Some (Cursor.IntegerC n) => Some (IntegerCursor n)
  | Some (Cursor.VectorC m) => Some (VectorCursor m)
  | _ => None
  end.
Definition cursor_of (n : nat) (v : option Version) : Cursor.Cursor :=
  match v with
  | Some (IntegerCursor seq) => Cursor.NewInteger seq
  | Some (VectorCursor m) => Cursor.NewVector m
  | _ => Cursor.NewInteger (Z.of_nat n)
  end.
Definition loadNext (ctx : CtxView) (store : St) (cur : option Cursor.Cursor) (batch : Z)
    : outcome (result error (list EventWithVersion * option Cursor.Cursor)) :=
  let* loaded := es_Load ctx (since_of cur) [] store in
  match loaded with
  | Err e => Done (Err e)
  | Ok [] => Done (Ok ([], cur))
  | Ok evs =>
      let* evs := if Z.of_nat (length evs) <=? batch then Done evs
                  else if batch <? 0 then Panic "slice bounds out of range"
                  else Done (take (Z.to_nat batch) evs) in
      Done (Ok (evs, match last evs with
                     | Some ev => Some (cursor_of (length evs) (ev_version ev))
                     | None => cur
                     end))
  end.

(** How the stream of a request stands: it goes on from a cursor, its handler
    has returned, or it has panicked. *)
Inductive phase := Running (cur : option Cursor.Cursor) | Ended | Crashed (why : string).
(** A payload without JSON text leaves an empty frame. *)
Definition frame (p : payload) : string :=
  data_prefix +:+ match encode p with Ok b => b | Err _ => "" end +:+ newline +:+ newline.
(** One turn of the loop, over what the store holds then. *)
Definition round (ctx : CtxView) (store : St) (batch : Z) (cur : option Cursor.Cursor) : string * phase :=
  match ctx 0%nat with
  | Some _ => ("", Ended)
  | None =>
      match loadNext (λ n, ctx (S n)) store cur batch with
      | Panic why => ("", Crashed why)
      | Done (Err _) => ("", Ended)
      | Done (Ok ([], _)) => ("", Running cur)
      | Done (Ok (events, nextCur)) =>
          match (let* js := to_json_events events in
                 let* next := deref nextCur in
                 let* w := Cursor.MustMarshalWire reg next in
                 Done (frame (mkPayload js w))) with
          | Panic why => ("", Crashed why)
          | Done text => (text, Running nextCur)
          end
      end
  end.
Fixpoint rounds (script : list (CtxView * St)) (batch : Z) (ph : phase) : string * phase :=
  match script, ph with
  | (ctx, store) :: rest, Running cur =>
      let '(text, ph) := round ctx store batch cur in
      let '(more, ph) := rounds rest batch ph in
      (text +:+ more, ph)
  | _, _ => ("", ph)
  end.

Inductive reply := Refused (msg : string) (status : Z) | Streaming (text : string) (ph : phase).
Definition Handler (flusher : bool) (curParam : string) (batch : Z) (script : list (CtxView * St)) : reply :=
  if negb flusher then Refused "streaming unsupported" 500
  else
    let start cur := let '(text, ph) := rounds script batch (Running cur) in Streaming text ph in
    if bool_decide (curParam = "") then start None
    else match parse_wire curParam with
         | Err _ => Refused "bad cursor format" 400
         | Ok wc => match Cursor.UnmarshalWire reg (Some wc) with
                    | Err _ => Refused "bad cursor" 400
                    | Ok parsed => start (Some parsed)
                    end
         end.
End server.
Definition default_batch : Z := 100.

(** ** Client *)

(** [bufio.Scanner] over lines: the lines ended by a newline and what comes after
    the last; a trailing carriage return is dropped; a line of [max_token] bytes
    or more ends the scan. *)
Definition max_token : Z := 10 * 2 ^ 20.
Fixpoint split_lines (s : string) : list string * string :=
  match s with
  | EmptyString => ([], EmptyString)
  | String c r =>
      let '(ls, rest) := split_lines r in
      if code c =? 10 then (EmptyString :: ls, rest)
      else match ls with
           | [] => ([], String c rest)
           | l :: ls => (String c l :: ls, rest)
           end
  end.
Fixpoint drop_cr (s : string) : string :=
  match s with
  | EmptyString => EmptyString
  | String c EmptyString => if code c =? 13 then EmptyString else s
  | String c r => String c (drop_cr r)
  end.
Definition err_too_long : error := ErrMsg "bufio.Scanner: token too long".
Fixpoint scan (ls : list string) (final : option error) : list string * option error :=
  match ls with
  | [] => ([], final)
  | l :: ls => if max_token <=? Z.of_nat (String.length l) then ([], Some err_too_long)
               else let '(toks, err) := scan ls final in (drop_cr l :: toks, err)
  end.
(** The tokens of a body that ends, or fails with an error, after [text], and
    [scanner.Err()]. *)
Definition tokens (text : string) (read_error : option error) : list string * option error :=
  let '(ls, rest) := split_lines text in
  scan (ls ++ if bool_decide (rest = "") then [] else [rest]) read_error.

Section client.
Context {H : Type} (handler : list EventWithVersion → H → H * option error).

Definition sse_component : string := "transport/sse".
Fixpoint drop_bytes (n : nat) (s : string) : string :=
  match n, s with O, _ => s | S n, String _ r => drop_bytes n r | S _, EmptyString => EmptyString end.
Fixpoint consume (ctx : CtxView) (toks : list string) (scan_err : option error) (h : H) : H * option error :=
  match toks with
  | [] =>
      (h, match scan_err with
          | None => None
          | Some e => if Contains (error_string e) "context canceled" then Some (ErrCtx Canceled)
                      else Some (E [AOp "sse.consumeStream"; AComponent sse_component; AErr e; AText "scan"])
          end)
  | line :: toks =>
      match ctx 0%nat with
      | Some e => (h, Some (ErrCtx e))
      | None =>
          let continue := consume (λ n, ctx (S n)) toks scan_err in
          if negb (HasPrefix line data_prefix) then continue h
          else match decode (drop_bytes (String.length data_prefix) line) with
               | Err _ => continue h
               | Ok [] => continue h
               | Ok js =>
                   match handler (map fromJSONEventWithVersion js) h with
                   | (h, Some e) =>
                       (h, Some (E [AOp "sse.consumeStream"; AComponent sse_component; AErr e; AText "handler"]))
                   | (h, None) => continue h
                   end
               end
      end
  end.
Definition consumeStream (ctx : CtxView) (text : string) (read_error : option error) (h : H) : H * option error :=
  let '(toks, scan_err) := tokens text read_error in consume ctx toks scan_err h.

(** One turn of the loop of [Subscribe]: what [ctx.Err()] says at its start, what
    the request comes to, the polls while the stream is read, [ctx.Err()] after
    it, and whether the context ends the wait that follows. *)
Record attempt := mkAttempt {
  at_start : option CtxErr;
  connect : result error (Z * string * option error);
  during : CtxView;
  after_stream : option CtxErr;
  in_wait : option CtxErr
}.
Definition initial_delay : Z := 250000000.
Definition maxDelay : Z := 10000000000.
Definition pause : Z := 150000000.
Definition next_delay (delay : Z) : Z := if delay <? maxDelay then delay * 2 else delay.

(** What [Subscribe] has done along a script: the handler's state, the waits, and
    its answer, or the delay it goes on with. *)
Inductive progress := Returned (err : option error) | Goes (delay : Z).
Definition ctx_error (e : option CtxErr) : option error := ErrCtx <$> e.
Definition turn (req_error : option error) (a : attempt) (delay : Z) (h : H) : H * list Z * progress :=
  match at_start a with
  | Some e => (h, [], Returned (Some (ErrCtx e)))
  | None =>
      match req_error with
      | Some e =>
          (h, [], Returned (Some (E [AOp "sse.Subscribe"; AComponent sse_component; AErr e; AText "create request"])))
      | None =>
          let retry := (h, [delay], match in_wait a with
                                    | Some e => Returned (Some (ErrCtx e))
                                    | None => Goes (next_delay delay)
                                    end) in
          match connect a with
          | Err _ => retry
          | Ok (status, text, read_error) =>
              if negb (status =? 200) then retry
              else
                let '(h, err) := consumeStream (during a) text read_error h in
                if match err with Some e => errors_Is e Canceled | None => false end
                   || (if after_stream a then true else false)
                then (h, [], Returned (ctx_error (after_stream a)))
                else if match err with Some e => Contains (error_string e) "handler" | None => false end
                then (h, [], Returned err)
                else (h, [pause], match in_wait a with
                                  | Some e => Returned (Some (ErrCtx e))
                                  | None => Goes initial_delay
                                  end)
          end
      end
  end.
Fixpoint subscribe (req_error : option error) (script : list attempt) (delay : Z) (h : H) : H * list Z * progress :=
  match script with
  | [] => (h, [], Goes delay)
  | a :: script =>
      let '(h, waits, p) := turn req_error a delay h in
      match p with
      | Returned err => (h, waits, p)
      | Goes delay => let '(h, more, p) := subscribe req_error script delay h in (h, waits ++ more, p)
      end
  end.
Definition Subscribe (req_error : option error) (script : list attempt) (h : H) : H * list Z * progress :=
  subscribe req_error script initial_delay h.
End client.

(** The other methods of the transport. *)
Definition not_implemented (op : string) : error :=
  E [AOp op; AComponent sse_component; AKind KindMethodNotAllowed; AText "not implemented"].
Definition Push (ctx : CtxView) (evs : list EventWithVersion) : option error := Some (not_implemented "sse.Push").
Definition Pull (ctx : CtxView) (since : option Version) : result error (list EventWithVersion) :=
  Err (not_implemented "sse.Pull").
Definition GetLatestVersion (ctx : CtxView) : result error (option Version) :=
  Err (not_implemented "sse.GetLatestVersion").
Definition Close : option error := None.
End sse.

(** ** What JSON does with a frame

    [sendable] events have JSON text, on one line; [norm] is what is left of an
    event after encoding and decoding, its version text among it. *)
Definition one_line (s : string) : Prop := ∀ c, c ∈ String.list_ascii_of_string s → code c ≠ 10 ∧ code c ≠ 13.
Class FrameLaws (FT : FrameText) := {
  sendable : JSONEventWithVersion → Prop;
  norm : JSONEventWithVersion → JSONEventWithVersion;
  norm_version : ∀ j, sendable j → j_Version (norm j) = j_Version j;
  frame_roundtrip : ∀ p, Forall sendable (p_events p) →
    ∃ b, encode p = Ok b ∧ decode b = Ok (norm <$> p_events p) ∧ one_line b
}.
Definition registry : Cursor.Registry := Cursor.InitDefaultCodecs ∅.

(** ** Lines *)
Lemma split_lines_line b rest : one_line b →
  split_lines (b +:+ newline +:+ rest) = (b :: (split_lines rest).1, (split_lines rest).2).
Proof.
  induction b as [|c b IH]; intros Hb.
  - change (split_lines (String (ch 10) rest) = ("" :: (split_lines rest).1, (split_lines rest).2)).
    cbn [split_lines]. by destruct (split_lines rest).
  - assert (code c ≠ 10) as Hc by (apply Hb; cbn; left).
    change (split_lines (String c (b +:+ newline +:+ rest)) = (String c b :: (split_lines rest).1, (split_lines rest).2)).
    cbn [split_lines]. rewrite IH by (intros d Hd; apply Hb; cbn; by right).
    by destruct (Z.eqb_spec (code c) 10).
Qed.
Lemma one_line_app a b : one_line a → one_line b → one_line (a +:+ b).
Proof.
  intros Ha Hb c. replace (String.list_ascii_of_string (a +:+ b))
    with (String.list_ascii_of_string a ++ String.list_ascii_of_string b).
  - intros [?|?]%elem_of_app; auto.
  - clear. induction a as [|c a IH]; [done|]. cbn. by rewrite IH.
Qed.
Lemma one_line_data : one_line data_prefix.
Proof. intros c Hc. cbn in Hc. repeat (apply elem_of_cons in Hc as [->|Hc]; [by split|]). by apply elem_of_nil in Hc. Qed.
Lemma drop_cr_line s : one_line s → drop_cr s = s.
Proof.
  induction s as [|c s IH]; [done|]. intros Hs. destruct s as [|d s].
  - cbn. destruct (Z.eqb_spec (code c) 13); [|done]. exfalso. destruct (Hs c); [cbn; left|done].
  - change (String c (drop_cr (String d s)) = String c (String d s)). f_equal.
    apply IH. intros e He. apply Hs. cbn in *. by right.
Qed.
Lemma drop_bytes_prefix a b : drop_bytes (String.length a) (a +:+ b) = b.
Proof. by induction a. Qed.
Lemma HasPrefix_app a b : HasPrefix (a +:+ b) a = true.
Proof.
  induction a as [|c a IH]; [by destruct b|].
  change (bool_decide (c = c) && HasPrefix (a +:+ b) a = true). by rewrite bool_decide_true, IH.
Qed.
Lemma scan_app_done l ls final : Z.of_nat (String.length l) < max_token → one_line l →
  scan (l :: ls) final = (l :: (scan ls final).1, (scan ls final).2).
Proof.
  intros Hlen Hl. cbn [scan]. destruct (Z.leb_spec max_token (Z.of_nat (String.length l))); [lia|].
  destruct (scan ls final). by rewrite drop_cr_line.
Qed.

Section laws.
Context {FT : FrameText} {FL : FrameLaws FT}.

Definition stream_text (ps : list payload) : string := foldr (λ p t, frame p +:+ t) "" ps.
(** The JSON text of the payload fits into the scanner's buffer. *)
Definition sent_whole (p : payload) : Prop :=
  Forall sendable (p_events p)
  ∧ ∀ b, encode p = Ok b → Z.of_nat (String.length data_prefix) + Z.of_nat (String.length b) < max_token.

Lemma string_length_app a b : String.length (a +:+ b) = (String.length a + String.length b)%nat.
Proof.
  induction a as [|x a IH]; [done|].
  change (S (String.length (a +:+ b)) = S (String.length a + String.length b)%nat). by rewrite IH.
Qed.

Lemma tokens_frames ps final : Forall sent_whole ps →
  ∃ bs, Forall2 (λ p b, decode b = Ok (norm <$> p_events p)) ps bs
    ∧ tokens (stream_text ps) final = (flat_map (λ b, [data_prefix +:+ b; ""]) bs, final).
Proof using FL.
  intros Hps. enough (∃ bs, Forall2 (λ p b, decode b = Ok (norm <$> p_events p)) ps bs
    ∧ (split_lines (stream_text ps)).2 = ""
    ∧ scan (split_lines (stream_text ps)).1 final = (flat_map (λ b, [data_prefix +:+ b; ""]) bs, final)) as (bs & H1 & H2 & H3).
  { exists bs. split; [done|]. unfold tokens. destruct (split_lines _) as [ls rest]; cbn in *. subst rest.
    by rewrite bool_decide_true, app_nil_r. }
  induction Hps as [|p ps [Hs Hlen] _ (bs & H1 & H2 & H3)]; [by exists []|].
  destruct (frame_roundtrip p Hs) as (b & He & Hd & Hb). exists (b :: bs). split; [by constructor|].
  assert (split_lines (stream_text (p :: ps))
          = ((data_prefix +:+ b) :: "" :: (split_lines (stream_text ps)).1, (split_lines (stream_text ps)).2)) as E.
  { change (stream_text (p :: ps)) with (frame p +:+ stream_text ps). unfold frame. rewrite He, !strings_app_assoc, <-(strings_app_assoc data_prefix b).
    rewrite split_lines_line by (apply one_line_app; [apply one_line_data|done]).
    change (newline +:+ stream_text ps) with ("" +:+ newline +:+ stream_text ps).
    by rewrite split_lines_line by (intros c; by intros ?%elem_of_nil). }
  rewrite E; cbn [fst snd]. split; [done|].
  rewrite scan_app_done, scan_app_done, H3; [done|done|intros c; by intros ?%elem_of_nil| |].
  - rewrite string_length_app. specialize (Hlen b He). lia.
  - apply one_line_app; [apply one_line_data|done].
Qed.

(** ** The client on a stream of frames *)
Section delivery.
Context {H : Type} (handler : list EventWithVersion → H → H * option error).

(** The batches handed to the handler one after the other, until it fails. *)
Fixpoint deliver (batches : list (list EventWithVersion)) (h : H) : H * option error :=
  match batches with
  | [] => (h, None)
  | b :: rest => match handler b h with (h, None) => deliver rest h | r => r end
  end.
Definition handler_error (e : error) : error :=
  E [AOp "sse.consumeStream"; AComponent sse_component; AErr e; AText "handler"].
Definition read_back (p : payload) : list EventWithVersion :=
  map fromJSONEventWithVersion (norm <$> p_events p).

Lemma consume_frames ps bs scan_err h : Forall (λ p, p_events p ≠ []) ps →
  Forall2 (λ p b, decode b = Ok (norm <$> p_events p)) ps bs →
  consume handler background (flat_map (λ b, [data_prefix +:+ b; ""]) bs) scan_err h
  = match deliver (map read_back ps) h with
    | (h, None) => consume handler background [] scan_err h
    | (h, Some e) => (h, Some (handler_error e))
    end.
Proof.
  intros Hne Hps. revert h. induction Hps as [|p b ps bs Hd _ IH]; intros h; [done|].
  apply Forall_cons in Hne as [Hn Hne].
  cbn [flat_map app consume map deliver background]. rewrite HasPrefix_app, drop_bytes_prefix, Hd. cbn [negb].
  assert (Hrb : read_back p = map fromJSONEventWithVersion (norm <$> p_events p)) by done.
  destruct (norm <$> p_events p) as [|j js] eqn:E; [by apply fmap_nil_inv in E|]. rewrite <-Hrb.
  destruct (handler (read_back p) h) as [h' [e|]]; [done|]. by rewrite <-IH.
Qed.

Lemma frames_handled ps h : Forall (λ p, p_events p ≠ []) ps → Forall sent_whole ps →
  consumeStream handler background (stream_text ps) None h
  = match deliver (map read_back ps) h with
    | (h, None) => (h, None)
    | (h, Some e) => (h, Some (handler_error e))
    end.
Proof using FL.
  intros Hne Hps. destruct (tokens_frames ps None Hps) as (bs & Hbs & Ht). unfold consumeStream. rewrite Ht.
  by rewrite (consume_frames ps).
Qed.

(** Remark: a stream of whole frames hands its batches to the handler one by one and
    in order, until the handler fails; and an event read back keeps its identity
    and data as JSON leaves them, while its version is 1 or 2 for those two texts
    and 0 for every other. *)
Theorem frames_delivered ps h (Hne : Forall (λ p, p_events p ≠ []) ps) (Hps : Forall sent_whole ps) :
  consumeStream handler background (stream_text ps) None h
  = match deliver (map read_back ps) h with
    | (h, None) => (h, None)
    | (h, Some e) => (h, Some (handler_error e))
    end
  ∧ ∀ p j ev, p ∈ ps → j ∈ p_events p → ev = fromJSONEventWithVersion (norm j) →
      ev_event ev = Some (SimpleEvent (j_Event (norm j)))
      ∧ ev_version ev = Some (IntegerCursor (if bool_decide (j_Version j = "1") then 1
                                             else if bool_decide (j_Version j = "2") then 2 else 0)).
Proof using FL.
  split; [by apply frames_handled|]. intros p j ev Hp Hj ->. split; [done|]. cbn. rewrite norm_version; [done|].
  apply (proj1 (Forall_forall _ ps) Hps) in Hp as [Hs _]. by apply (proj1 (Forall_forall _ _) Hs).
Qed.
End delivery.

(** ** The server's rounds over a log *)
Section rounds.
Context {St : Type} {ES : EventStore St} {LS : LogStore St}.
Implicit Types (s : St).

Definition json_of (ev : EventWithVersion) : JSONEventWithVersion :=
  match toJSONEventWithVersion ev with
  | Done j => j
  | Panic _ => mkJSON (mkJSONEvent "" "" "" AnyNil None) ""
  end.
Lemma sse_json_numbered k evs : HttpSync.numbered_from k evs → to_json_events evs = Done (json_of <$> evs).
Proof.
  revert k; induction evs as [|ev evs IH]; intros k Hn; [done|]. cbn [to_json_events].
  apply HttpSync.numbered_cons in Hn as ([e He] & Hv & Hn).
  assert (toJSONEventWithVersion ev = Done (json_of ev)) as ->
    by (unfold json_of, toJSONEventWithVersion; by rewrite Hv, He).
  cbn [obind]. by rewrite (IH _ Hn).
Qed.
(** The pages of a log read from [k] on, and their payloads. *)
Fixpoint payloads (n : nat) (batch : nat) (k : nat) (l : list EventWithVersion) : list payload :=
  match n, drop k l with
  | S n, _ :: _ =>
      let page := take batch (drop k l) in
      mkPayload (json_of <$> page) (Cursor.mkWire Cursor.KindInteger (format_uint (Z.of_nat (k + length page))))
      :: payloads n batch (k + length page) l
  | _, _ => []
  end.
Lemma numbered_last k evs ev : HttpSync.numbered_from k evs → last evs = Some ev →
  ev_version ev = Some (IntegerCursor (k + Z.of_nat (length evs))).
Proof.
  intros Hn Hl. rewrite last_lookup in Hl. destruct (Hn _ _ Hl) as [_ ->].
  do 2 f_equal. destruct evs; cbn in *; [done|lia].
Qed.
Lemma round_log s m k batch : ready s m → (0 < batch)%nat → HttpSync.numbered_from 0 (log s) →
  round registry background s (Z.of_nat batch) (Some (Cursor.IntegerC (Z.of_nat k)))
  = match payloads 1 batch k (log s) with
    | p :: _ => (frame p, Running (Some (Cursor.IntegerC (Z.of_nat (k + length (p_events p))))))
    | [] => ("", Running (Some (Cursor.IntegerC (Z.of_nat k))))
    end.
Proof using LS.
  intros Hr Hb Hn. unfold round, loadNext. cbn [background since_of].
  change (λ n : nat, background (S n)) with background. rewrite (log_Load s m k Hr). cbn [obind].
  pose proof (HttpSync.numbered_from_drop k _ Hn) as Hd.
  cbn [payloads]. destruct (drop k (log s)) as [|ev evs]; [done|]. set (l := ev :: evs) in *.
  assert (Hp : (if Z.of_nat (length l) <=? Z.of_nat batch then Done l
                else if Z.of_nat batch <? 0 then Panic "slice bounds out of range"
                else Done (take (Z.to_nat (Z.of_nat batch)) l)) = Done (take batch l)).
  { destruct (Z.leb_spec (Z.of_nat (length l)) (Z.of_nat batch)); [by rewrite take_ge by lia|].
    destruct (Z.ltb_spec (Z.of_nat batch) 0); [lia|]. by rewrite Nat2Z.id. }
  rewrite Hp. cbn [obind]. pose proof (HttpSync.numbered_from_take _ batch _ Hd) as Ht.
  destruct batch as [|b]; [lia|]. set (page := take (S b) l) in *.
  assert (last page ≠ None) as Hl by (by rewrite last_None).
  destruct (last page) as [lst|] eqn:El; [|done]. rewrite (numbered_last _ _ _ Ht El). cbn [cursor_of].
  rewrite (sse_json_numbered _ _ Ht). cbn [obind deref p_events]. rewrite length_fmap.
  assert (page ≠ []) by done. destruct page as [|q page'] eqn:Ep; [done|].
  cbn -[frame format_uint Z.of_nat length fmap list_fmap].
  by rewrite <-Nat2Z.inj_add.
Qed.

Lemma rounds_cons ctx s script batch cur :
  rounds (St := St) registry ((ctx, s) :: script) batch (Running cur)
  = let '(text, ph) := round registry ctx s batch cur in
    let '(more, ph) := rounds registry script batch ph in (text +:+ more, ph).
Proof. done. Qed.
Lemma payloads_one batch k l :
  payloads 1 batch k l = match drop k l with
    | [] => []
    | _ :: _ => [mkPayload (json_of <$> take batch (drop k l))
                   (Cursor.mkWire Cursor.KindInteger (format_uint (Z.of_nat (k + length (take batch (drop k l))))))]
    end.
Proof. cbn [payloads]. by destruct (drop k l). Qed.

Definition streams (script : list St) (batch k : nat) (l : list EventWithVersion) (ps : list payload) (k' : nat) : Prop :=
  rounds registry (pair background <$> script) (Z.of_nat batch) (Running (Some (Cursor.IntegerC (Z.of_nat k))))
    = (stream_text ps, Running (Some (Cursor.IntegerC (Z.of_nat k'))))
  ∧ (k ≤ k')%nat
  ∧ concat (p_events <$> ps) = json_of <$> take (k' - k) (drop k l)
  ∧ Forall (λ p, p_events p ≠ [] ∧ (length (p_events p) ≤ batch)%nat) ps
  ∧ ∀ n, Forall (λ s, (n ≤ length (log s))%nat) script →
      (n ≤ k')%nat ∨ k' = (k + batch * length script)%nat.
Lemma streams_log script batch l : (0 < batch)%nat → HttpSync.numbered_from 0 l →
  Forall (λ s, (∃ m, ready s m) ∧ log s `prefix_of` l) script → ∀ k, ∃ ps k', streams script batch k l ps k'.
Proof using LS.
  intros Hb Hn Hs. induction Hs as [|s script [[m Hr] [tail Hl]] _ IH]; intros k.
  { exists [], k. split_and!; [done|lia|by rewrite Nat.sub_diag|done|]. intros n _. right. cbn. lia. }
  assert (Hns : HttpSync.numbered_from 0 (log s)).
  { intros i ev Hi. apply Hn. rewrite Hl. by apply lookup_app_l_Some. }
  pose proof (round_log s m k batch Hr Hb Hns) as Hround. rewrite payloads_one in Hround.
  destruct (drop k (log s)) as [|ev evs] eqn:Ed.
  - destruct (IH k) as (ps & k' & Hrun & Hle & Hev & Hps & Hprog). exists ps, k'.
    split_and!; [|done|done|done|].
    + rewrite fmap_cons, rounds_cons, Hround. by rewrite Hrun.
    + intros n [Hlen Hrest]%Forall_cons. left. apply (f_equal length) in Ed. rewrite length_drop in Ed. cbn in Ed. lia.
  - rewrite <-Ed in Hround. set (page := take batch (drop k (log s))) in *. cbn [p_events] in Hround.
    rewrite length_fmap in Hround.
    assert (Hpage : page = take (length page) (drop k l)).
    { rewrite Hl, drop_app. rewrite take_app_le, <-(take_app_length page (drop batch (drop k (log s)))) at 1.
      - unfold page at 2. by rewrite take_drop.
      - unfold page. rewrite length_take. lia. }
    assert (Hlen : (length page = batch `min` (length (log s) - k))%nat)
      by (unfold page; by rewrite length_take, length_drop).
    assert (Hpos : (0 < length page)%nat)
      by (apply (f_equal length) in Ed; rewrite length_drop in Ed; cbn in Ed; lia).
    destruct (IH (k + length page)%nat) as (ps & k' & Hrun & Hle & Hev & Hps & Hprog).
    eexists (mkPayload (json_of <$> page) _ :: ps), k'. split_and!.
    + rewrite fmap_cons, rounds_cons, Hround. by rewrite Hrun.
    + lia.
    + cbn [fmap list_fmap concat p_events]. rewrite Hev, <-fmap_app. f_equal. rewrite Hpage at 1.
      rewrite <-drop_drop, take_take_drop. f_equal. lia.
    + constructor; [|done]. cbn [p_events]. rewrite length_fmap. split; [|lia].
      intros E%fmap_nil_inv. rewrite E in Hpos. cbn in Hpos. lia.
    + intros n [Hn0 Hrest]%Forall_cons. destruct (Hprog n Hrest) as [? | ->]; [by left|].
      destruct (decide (n ≤ k + length page + batch * length script)%nat); [by left|].
      right. cbn [length]. lia.
Qed.

(** Remark: from a given cursor the server streams the log in pages of at most
    [batch] events, without a gap or a repetition, as the store grows: what has
    been sent after any number of rounds is the stretch of the log between the
    two cursors; and it either has reached what the store held or has sent a full
    page in every round. *)
Theorem server_streams script batch l k (Hb : (0 < batch)%nat) (Hn : HttpSync.numbered_from 0 l)
    (Hs : Forall (λ s, (∃ m, ready s m) ∧ log s `prefix_of` l) script) :
  ∃ ps k', rounds registry (pair background <$> script) (Z.of_nat batch) (Running (Some (Cursor.IntegerC (Z.of_nat k))))
           = (stream_text ps, Running (Some (Cursor.IntegerC (Z.of_nat k'))))
    ∧ (k ≤ k')%nat
    ∧ concat (p_events <$> ps) = json_of <$> take (k' - k) (drop k l)
    ∧ Forall (λ p, p_events p ≠ [] ∧ (length (p_events p) ≤ batch)%nat) ps
    ∧ ∀ n, Forall (λ s, (n ≤ length (log s))%nat) script → (n ≤ k')%nat ∨ k' = (k + batch * length script)%nat.
Proof using LS.
  destruct (streams_log script batch l Hb Hn Hs k) as (ps & k' & H). by exists ps, k'.
Qed.

(** What the client makes of a stored event. *)
Definition received (ev : EventWithVersion) : EventWithVersion := fromJSONEventWithVersion (norm (json_of ev)).
Definition collect (evs : list EventWithVersion) (h : list EventWithVersion) : list EventWithVersion * option error :=
  (h ++ evs, None).
Lemma deliver_collect batches h : deliver collect batches h = (h ++ concat batches, None).
Proof.
  revert h; induction batches as [|b batches IH]; intros h; cbn; [by rewrite app_nil_r|].
  by rewrite IH, <-app_assoc.
Qed.
Lemma concat_read_back ps : concat (map read_back ps) = (λ j, fromJSONEventWithVersion (norm j)) <$> concat (p_events <$> ps).
Proof.
  induction ps as [|p ps IH]; [done|]. cbn. rewrite IH, fmap_app. f_equal.
  unfold read_back. clear. by induction (p_events p) as [|j js IHj]; cbn; [|rewrite <-IHj].
Qed.

(** Remark: a client that reads what the server streams from a cursor gets exactly
    the events of the log from there on, each once and in order; but entry [i]
    of the log, whose version is [i + 1], arrives as version 1 or 2 when it is
    one of the first two and as version 0 otherwise. *)
Theorem versions_collapse script batch l k (Hb : (0 < batch)%nat) (Hn : HttpSync.numbered_from 0 l)
    (Hlen : Z.of_nat (length l) < 2 ^ 64)
    (Hs : Forall (λ s, (∃ m, ready s m) ∧ log s `prefix_of` l) script)
    (Hsend : Forall sendable (json_of <$> l))
    (Hsmall : ∀ p b, Forall (λ j, j ∈ json_of <$> l) (p_events p) → (length (p_events p) ≤ batch)%nat →
       encode p = Ok b → Z.of_nat (String.length b) + 6 < max_token) :
  ∃ text k', rounds registry (pair background <$> script) (Z.of_nat batch) (Running (Some (Cursor.IntegerC (Z.of_nat k))))
             = (text, Running (Some (Cursor.IntegerC (Z.of_nat k')))) ∧ (k ≤ k')%nat
    ∧ consumeStream collect background text None [] = (received <$> take (k' - k) (drop k l), None)
    ∧ ∀ i ev, l !! i = Some ev → ev_version (received ev)
        = Some (IntegerCursor (match i with O => 1 | 1%nat => 2 | _ => 0 end)).
Proof using LS FL.
  destruct (streams_log script batch l Hb Hn Hs k) as (ps & k' & Hrun & Hle & Hev & Hps & _).
  exists (stream_text ps), k'. split_and!; [done|done| |].
  - rewrite frames_handled, deliver_collect; cbn [app].
    + by rewrite concat_read_back, Hev, <-list_fmap_compose.
    + by apply (Forall_impl _ _ _ Hps); intros p [].
    + apply Forall_forall. intros p Hp.
      assert (Hin : Forall (λ j, j ∈ json_of <$> l) (p_events p)).
      { apply Forall_forall. intros j Hj.
        assert (j ∈ json_of <$> take (k' - k) (drop k l)) as (ev & -> & He)%list_elem_of_fmap.
        { rewrite <-Hev. apply list_elem_of_In, in_concat. exists (p_events p).
          rewrite <-!list_elem_of_In. split; [|done]. by apply list_elem_of_fmap_2. }
        apply list_elem_of_fmap_2, list_elem_of_lookup.
        apply list_elem_of_lookup_1 in He as [i [Hi _]%lookup_take_Some]. rewrite lookup_drop in Hi. by eexists. }
      split.
      * eapply Forall_impl; [exact Hin|]. intros j. by apply (proj1 (Forall_forall _ _) Hsend).
      * intros b Hp'. apply (proj1 (Forall_forall _ _) Hps) in Hp as [_ Hlb].
        specialize (Hsmall p b Hin Hlb Hp'). cbn. lia.
  - intros i ev Hi. destruct (Hn i ev Hi) as [[e He] Hv]. unfold received; cbn.
    assert (Hj : sendable (json_of ev))
      by (apply (proj1 (Forall_forall _ _) Hsend), list_elem_of_fmap_2; by eapply list_elem_of_lookup_2).
    rewrite norm_version by done. unfold json_of, toJSONEventWithVersion. rewrite Hv, He; cbn -[format_uint].
    do 2 f_equal. apply lookup_lt_Some in Hi.
    assert (Hi1 : is_u64 (Z.of_nat i + 1)) by (unfold is_u64, u64_modulus; lia).
    assert (H1 : is_u64 1) by done. assert (H2 : is_u64 2) by done.
    pose proof (format_uint_inj _ _ Hi1 H1) as E1. pose proof (format_uint_inj _ _ Hi1 H2) as E2.
    replace (format_uint 1) with "1" in E1 by done. replace (format_uint 2) with "2" in E2 by done.
    case_bool_decide as Hc1; [specialize (E1 Hc1); by replace i with 0%nat by lia|].
    case_bool_decide as Hc2; [specialize (E2 Hc2); by replace i with 1%nat by lia|].
    destruct i as [|[|i]]; [by destruct Hc1|by destruct Hc2|done].
Qed.
End rounds.
End laws.

(** ** Subscribing *)
Section subscribing.
Context {FT : FrameText}.
Context {H : Type} (handler : list EventWithVersion → H → H * option error).
Implicit Types (a : attempt) (h : H).

(** The delays a subscription can be at: 250 ms doubled up to six times. *)
Definition delays : list Z := (λ i, initial_delay * 2 ^ Z.of_nat i) <$> seq 0 7.
Lemma next_delay_delays d : d ∈ delays → next_delay d ∈ delays.
Proof.
  unfold delays. cbn. intros Hd. repeat (apply elem_of_cons in Hd as [->|Hd]; [vm_compute; set_solver|]).
  by apply elem_of_nil in Hd.
Qed.
Lemma turn_waits req a d h : d ∈ delays → let '(_, waits, p) := turn handler req a d h in
  Forall (λ w, w = pause ∨ w ∈ delays) waits ∧ match p with Goes d' => d' ∈ delays | _ => True end.
Proof.
  intros Hd. unfold turn. assert (Hi : initial_delay ∈ delays) by (unfold delays; cbn; set_solver).
  pose proof (next_delay_delays d Hd).
  assert (H1 : Forall (λ w, w = pause ∨ w ∈ delays) [pause]) by (apply Forall_singleton; by left).
  assert (H2 : Forall (λ w, w = pause ∨ w ∈ delays) [d]) by (apply Forall_singleton; by right).
  destruct (at_start a); [by split|]. destruct req; [by split|].
  destruct (connect a) as [[[status text] rerr]|e]; [|by destruct (in_wait a)].
  destruct (status =? 200); cbn [negb]; [|by destruct (in_wait a)].
  destruct (consumeStream _ _ _ _ _) as [h' err]. destruct (_ || _); [by split|].
  destruct err as [e|]; [destruct (Contains _ _)|]; try (by split); by destruct (in_wait a).
Qed.
Lemma subscribe_waits req script d h : d ∈ delays →
  Forall (λ w, w = pause ∨ w ∈ delays) (subscribe handler req script d h).1.2.
Proof.
  revert d h. induction script as [|a script IH]; intros d h Hd; [constructor|]. cbn [subscribe].
  pose proof (turn_waits req a d h Hd) as Ht. destruct (turn handler req a d h) as [[h' waits] [err|d']];
    destruct Ht as [Hw Hp]; [done|].
  specialize (IH d' h' Hp). destruct (subscribe handler req script d' h') as [[h2 more] p]. cbn in *.
  by apply Forall_app.
Qed.

(** An attempt that finds no server, in a context that lives. *)
Definition down : attempt := mkAttempt None (Err (ErrMsg "connection refused")) background None None.

(** Remark: no wait of a subscription is longer than 16 seconds or shorter than 150
    milliseconds; the documented cap of ten seconds does not hold: after six
    failures in a row the client waits 16 seconds. *)
Theorem backoff_overshoots script h :
  Forall (λ w, pause ≤ w ≤ 16000000000) (Subscribe handler None script h).1.2
  ∧ ∃ w, (Subscribe handler None (replicate 7 down) h).1.2 !! 6%nat = Some w ∧ w = 16000000000 ∧ maxDelay < w.
Proof.
  split.
  - eapply Forall_impl; [apply subscribe_waits; unfold delays; cbn; set_solver|].
    intros w [->|Hw]; [by vm_compute|]. unfold delays in Hw; cbn in Hw.
    repeat (apply elem_of_cons in Hw as [->|Hw]; [by vm_compute|]). by apply elem_of_nil in Hw.
  - by eexists.
Qed.

(** *** What ends a subscription *)
Lemma Contains_app x y b : Contains (x +:+ b +:+ y) b = true.
Proof.
  induction x as [|c x IH].
  - change (Contains (b +:+ y) b = true). destruct b as [|c b]; [by destruct y|].
    change (HasPrefix (String c b +:+ y) (String c b) || Contains (b +:+ y) (String c b) = true).
    by rewrite HasPrefix_app.
  - change (HasPrefix (String c (x +:+ b +:+ y)) b || Contains (x +:+ b +:+ y) b = true). rewrite IH. apply orb_true_r.
Qed.
Lemma handler_error_text e : Contains (error_string (handler_error e)) "handler" = true.
Proof.
  destruct (decide (e = ErrNil)) as [->|He]; [by vm_compute|].
  assert (error_string (handler_error e)
          = "sse.consumeStream operation failed in transport/sse component: " +:+ "handler" +:+ (": " +:+ error_string e)) as ->.
  { unfold handler_error, E. cbn [fold_left e_step e_msgs e_err e_op e_component e_code e_kind app].
    by rewrite bool_decide_false. }
  apply Contains_app.
Qed.
End subscribing.

Section outcomes.
Context {FT : FrameText} {FL : FrameLaws FT}.
Context {H : Type} (handler : list EventWithVersion → H → H * option error).

(** Remark: a handler that fails on a stream of frames ends the subscription with its
    error, unless that error is a [context.Canceled] of the handler's own: then
    [Subscribe] answers nil although its context is alive.  When the handler
    takes everything and the stream ends, the client pauses and connects again. *)
Theorem handler_failure_ends ps (script : list attempt) h
    (Hne : Forall (λ p, p_events p ≠ []) ps) (Hps : Forall sent_whole ps) :
  let a := mkAttempt None (Ok (200, stream_text ps, None)) background None None in
  match deliver handler (map read_back ps) h with
  | (h', Some e) =>
      Subscribe handler None (a :: script) h
      = (h', [], Returned (if errors_Is e Canceled then None else Some (handler_error e)))
  | (h', None) =>
      Subscribe handler None (a :: script) h
      = let '(h2, waits, p) := Subscribe handler None script h' in (h2, pause :: waits, p)
  end.
Proof using FL.
  cbn zeta. pose proof (frames_handled handler ps h Hne Hps) as Hc.
  destruct (deliver handler (map read_back ps) h) as [h' [e|]];
    unfold Subscribe; cbn [subscribe turn at_start connect Errors.E]; rewrite Z.eqb_refl; cbn [negb];
    cbn [during after_stream in_wait]; rewrite Hc.
  - assert (errors_Is (handler_error e) Canceled = errors_Is e Canceled) as ->.
    { unfold handler_error, E. cbn [fold_left e_step e_msgs e_err app errors_Is].
      case_bool_decide as He; [by rewrite He|done]. }
    destruct (errors_Is e Canceled); cbn [orb]; [done|]. by rewrite handler_error_text.
  - cbn [orb app]. by destruct (subscribe handler None script initial_delay h') as [[h2 waits] p].
Qed.

End outcomes.

(** *** Starting without a cursor *)
Section scratch.
Context {FT : FrameText} {MR : MapRange}.
Context {H : Type} (handler : list EventWithVersion → H → H * option error).

Lemma Load_without_version ctx (s : MemStore.MemStore) :
  match es_Load ctx None [] s with Done (Ok _) => False | _ => True end.
Proof. cbn. unfold MemStore.Load. destruct (ctx 0%nat), (MemStore.closed s); done. Qed.
Lemma round_without_cursor ctx (s : MemStore.MemStore) batch : (round registry ctx s batch None).1 = "".
Proof.
  unfold round, loadNext. destruct (ctx 0%nat); [done|]. cbn [since_of].
  pose proof (Load_without_version (λ n, ctx (S n)) s). by destruct (es_Load _ _ _ _) as [[]|].
Qed.
Lemma rounds_without_cursor (script : list (CtxView * MemStore.MemStore)) batch :
  (rounds registry script batch (Running None)).1 = "".
Proof.
  destruct script as [|[ctx s] script]; [done|]. cbn [rounds].
  pose proof (round_without_cursor ctx s batch) as Hr.
  assert (Hp : match (round registry ctx s batch None).2 with Running _ => False | _ => True end).
  { unfold round, loadNext. destruct (ctx 0%nat); [done|]. cbn [since_of].
    pose proof (Load_without_version (λ n, ctx (S n)) s). by destruct (es_Load _ _ _ _) as [[]|]. }
  destruct (round registry ctx s batch None) as [text [cur| |why]]; cbn in *; subst; [done|by destruct script as [|[]]..].
Qed.

Lemma round_crashes (s : MemStore.MemStore) batch : MemStore.closed s = false →
  round registry background s batch None = ("", Crashed "nil pointer dereference").
Proof.
  intros Hopen. unfold round, loadNext. cbn [background since_of es_Load memstore_EventStore].
  unfold MemStore.Load. by rewrite Hopen.
Qed.

(** What a connection of this client to such a server can come to: no answer, or
    what a handler over the in-memory store makes of the request, which carries
    no cursor. *)
Definition from_scratch (a : attempt) : Prop :=
  ∀ text rerr, connect a = Ok (200, text, rerr) → ∃ batch (script : list (CtxView * MemStore.MemStore)) ph,
    Handler registry true "" batch script = Streaming text ph.

(** Remark: the client never sends a cursor, and a server over the in-memory store
    answers a request without one by a nil dereference: the first round panics
    unless the store is closed, and no client that subscribes to such servers ever
    gets an event, whatever the stores hold and however often it connects. *)
Theorem subscription_from_scratch_gets_nothing (req : option error) script h
    (Hs : Forall from_scratch script) :
  (Subscribe handler req script h).1.1 = h
  ∧ ∀ (s : MemStore.MemStore) batch rest, MemStore.closed s = false →
      Handler registry true "" batch ((background, s) :: rest)
      = Streaming "" (Crashed "nil pointer dereference").
Proof.
  split.
  - unfold Subscribe. generalize initial_delay as d. induction Hs as [|a script Ha _ IH]; intros d; [done|].
    cbn [subscribe]. assert (Ht : (turn handler req a d h).1.1 = h).
    { unfold turn. destruct (at_start a); [done|]. destruct req; [done|].
      destruct (connect a) as [[[status text] rerr]|e] eqn:Hc; [|done].
      destruct (Z.eqb_spec status 200) as [->|]; cbn [negb]; [|done].
      destruct (Ha text rerr Hc) as (batch & views & ph & Hh).
      assert (text = "") as ->.
      { unfold Handler in Hh. rewrite bool_decide_true in Hh by done. cbn [negb] in Hh.
        pose proof (rounds_without_cursor views batch) as Hr.
        destruct (rounds registry views batch (Running None)). cbn in Hr. by simplify_eq. }
      replace (consumeStream handler (during a) "" rerr h)
        with (h, (consume handler (during a) [] rerr h).2) by done.
      by repeat case_match. }
    destruct (turn handler req a d h) as [[h' waits] [err|d']]; cbn in Ht; subst h'; [done|].
    specialize (IH d'). by destruct (subscribe handler req script d' h) as [[h2 more] p].
  - intros s batch rest Hopen. unfold Handler. rewrite bool_decide_true by done. cbn [negb].
    rewrite rounds_cons, round_crashes by done. by destruct rest as [|[]].
Qed.
End scratch.

(** ** Concrete instances: a frame is the last digits of its version texts *)
#[local] Instance demo_range : MapRange := canonical_range.
Definition demo_log : list EventWithVersion := MemStore.events MemStore.demo_store.
Definition demo_table : list JSONEventWithVersion := json_of <$> demo_log.
Definition demo_char (j : JSONEventWithVersion) : Ascii.ascii :=
  match j_Version j with String c _ => c | EmptyString => ch 48 end.
Definition demo_find (c : Ascii.ascii) : option JSONEventWithVersion :=
  List.find (λ j, bool_decide (demo_char j = c)) demo_table.
Arguments demo_find : simpl never.
Arguments demo_char : simpl never.
#[local] Instance demo_frames : FrameText := {|
  encode := λ p, Ok (String.string_of_list_ascii (demo_char <$> p_events p));
  decode := λ s, Ok (omap demo_find (String.list_ascii_of_string s));
  parse_wire := λ s, Ok (Cursor.mkWire Cursor.KindInteger s)
|}.
Lemma demo_find_char j : j ∈ demo_table → demo_find (demo_char j) = Some j.
Proof. intros Hj. vm_compute in Hj. repeat (apply elem_of_cons in Hj as [->|Hj]; [by vm_compute|]). by apply elem_of_nil in Hj. Qed.
Lemma demo_char_line j : j ∈ demo_table → code (demo_char j) ≠ 10 ∧ code (demo_char j) ≠ 13.
Proof. intros Hj. vm_compute in Hj. repeat (apply elem_of_cons in Hj as [->|Hj]; [by vm_compute|]). by apply elem_of_nil in Hj. Qed.
#[local] Program Instance demo_frame_laws : FrameLaws demo_frames := {| sendable := λ j, j ∈ demo_table; norm := id |}.
Next Obligation. done. Qed.
Next Obligation.
  intros p Hp. eexists. split; [reflexivity|]. cbn. rewrite String.list_ascii_of_string_of_list_ascii. split.
  - f_equal. induction Hp as [|j js Hj _ IH]; [done|]. cbn. by rewrite (demo_find_char j Hj), IH.
  - intros c. rewrite String.list_ascii_of_string_of_list_ascii. intros (j & -> & Hj)%list_elem_of_fmap.
    apply demo_char_line. by apply (proj1 (Forall_forall _ _) Hp).
Qed.
Lemma demo_numbered : HttpSync.numbered_from 0 demo_log.
Proof. intros [|[|[|[|i]]]] ev Hi; vm_compute in Hi; simplify_eq; by split; [eexists|]. Qed.
Lemma demo_script : Forall (λ s, (∃ m, ready s m) ∧ log s `prefix_of` demo_log) [MemStore.demo_store; MemStore.demo_store].
Proof.
  repeat constructor; try done; exists 1%nat; (split; [apply MemStore.demo_store_inv|apply MemStore.demo_store_room; lia]).
Qed.
Lemma demo_length p : String.length (String.string_of_list_ascii (demo_char <$> p_events p)) = length (p_events p).
Proof. induction (p_events p) as [|j js IH]; [done|]. cbn. by rewrite IH. Qed.
Lemma demo_sent_whole ps : Forall (λ p, Forall sendable (p_events p) ∧ (length (p_events p) ≤ 9)%nat) ps → Forall sent_whole ps.
Proof.
  intros Hps. eapply Forall_impl; [exact Hps|]. intros p [Hs Hl]. split; [done|]. intros b [= <-]. rewrite demo_length. cbn. unfold max_token. lia.
Qed.
Definition demo_payload : payload := mkPayload demo_table (Cursor.mkWire Cursor.KindInteger "3").
Lemma demo_payloads : Forall (λ p, p_events p ≠ []) [demo_payload] ∧ Forall sent_whole [demo_payload].
Proof.
  split; [by apply Forall_singleton|]. apply demo_sent_whole, Forall_singleton. split; [|by vm_compute; lia].
  apply Forall_forall. by intros j.
Qed.

Lemma server_streams_witness : ∃ ps k',
  rounds registry (pair background <$> [MemStore.demo_store; MemStore.demo_store]) (Z.of_nat 1)
    (Running (Some (Cursor.IntegerC (Z.of_nat 1)))) = (stream_text ps, Running (Some (Cursor.IntegerC (Z.of_nat k'))))
  ∧ (1 ≤ k')%nat.
Proof.
  destruct (server_streams [MemStore.demo_store; MemStore.demo_store] 1 demo_log 1) as (ps & k' & Hr & Hk & _);
    [lia|apply demo_numbered|apply demo_script|]. by exists ps, k'.
Defined.
Lemma frames_delivered_witness :
  (consumeStream collect background (stream_text [demo_payload]) None []).2 = None.
Proof.
  destruct (frames_delivered collect [demo_payload] [] (proj1 demo_payloads) (proj2 demo_payloads)) as [E _].
  rewrite E. reflexivity.
Defined.
Lemma versions_collapse_witness : ∃ text k',
  rounds registry (pair background <$> [MemStore.demo_store; MemStore.demo_store]) (Z.of_nat 2)
    (Running (Some (Cursor.IntegerC (Z.of_nat 0)))) = (text, Running (Some (Cursor.IntegerC (Z.of_nat k'))))
  ∧ consumeStream collect background text None [] = (received <$> take (k' - 0) (drop 0 demo_log), None).
Proof.
  destruct (versions_collapse [MemStore.demo_store; MemStore.demo_store] 2 demo_log 0)
    as (text & k' & Hr & _ & Hc & _).
  - lia.
  - apply demo_numbered.
  - by vm_compute.
  - apply demo_script.
  - apply Forall_forall. by intros j.
  - intros p b _ Hl [= <-]. rewrite demo_length. unfold max_token. lia.
  - by exists text, k'.
Defined.
(** A handler that gives up with an error of its own. *)
Definition demo_fails (e : error) (evs : list EventWithVersion) (n : nat) : nat * option error := (S n, Some e).
Lemma handler_failure_ends_witness :
  let a := mkAttempt None (Ok (200, stream_text [demo_payload], None)) background None None in
  Subscribe (demo_fails (ErrWrap "worker" (ErrCtx Canceled))) None [a; down] 0%nat = (1%nat, [], Returned None).
Proof.
  cbn zeta.
  pose proof (handler_failure_ends (demo_fails (ErrWrap "worker" (ErrCtx Canceled))) [demo_payload] [down] 0%nat
    (proj1 demo_payloads) (proj2 demo_payloads)) as E.
  exact E.
Defined.
Lemma subscription_from_scratch_gets_nothing_witness :
  (Subscribe collect None [mkAttempt None (Ok (200, "", None)) background None None; down] []).1.1 = [].
Proof.
  apply (subscription_from_scratch_gets_nothing collect None).
  constructor; [|by constructor]. intros text rerr [= <- _].
  exists 100, [(background, MemStore.demo_store)]. eexists. by vm_compute.
Defined.
