(* ===== verification/PgListener.v ===== *)
(** * LISTEN/NOTIFY subscriptions (src/storage/postgres/listener.go)

    The subscription manager, the listener over [pq.Listener] and the loops that
    hand notifications to the handlers.  [pq.Listener] is a parameter with its
    documented behaviour ([PQLaws]); handlers are user functions, known by number;
    what they answer is a parameter too, and their calls are recorded.  Loggers
    are left out. *)
From S2P Require Import Prelude Types.
From stdpp Require Import options.

Record NotificationPayload := mkNotification {
  Version_ : Z; n_ID : string; n_AggregateID : string; n_EventType : string; StreamName : string; CreatedAt : Z
}.
(** A handler of the application, or the filter around one that
    [SubscribeToEventType] makes. *)
Inductive EventHandler := Plain (id : nat) | Filtering (eventType : string) (id : nat).

(** [pq.Listener]; [Notify] is seen as the notifications handed over. *)
Class PQ (L : Type) := {
  NewListener : string → Z → Z → L;
  Listen : string → L → L * option error;
  Unlisten : string → L → L * option error;
  pq_Ping : L → option error;
  pq_Close : L → L * option error
}.
Class PayloadText := { parse_payload : string → result error NotificationPayload }.

(** ** Subscriptions *)
Abbreviation SubscriptionManager := (gmap string (list EventHandler)).
Definition NewSubscriptionManager : SubscriptionManager := ∅.
Definition Subscribe (channel : string) (h : EventHandler) (sm : SubscriptionManager) : SubscriptionManager :=
  <[channel := default [] (sm !! channel) ++ [h]]> sm.
Definition Unsubscribe (channel : string) (sm : SubscriptionManager) : SubscriptionManager := delete channel sm.
(** The order of a map is any enumeration. *)
Definition GetChannels {MR : MapRange} (sm : SubscriptionManager) : list string := fst <$> range sm.

(** What the application's handlers answer, and a call of one. *)
Definition Answers : Type := nat → NotificationPayload → option error.
Definition Call : Type := nat * NotificationPayload.
Definition run_handler (ans : Answers) (h : EventHandler) (p : NotificationPayload) : list Call * option error :=
  match h with
  | Plain id => ([(id, p)], ans id p)
  | Filtering ty id => if bool_decide (n_EventType p = ty) then ([(id, p)], ans id p) else ([], None)
  end.
Fixpoint call_all (ans : Answers) (channel : string) (hs : list EventHandler) (p : NotificationPayload)
    : list Call * option error :=
  match hs with
  | [] => ([], None)
  | h :: hs =>
      let '(calls, err) := run_handler ans h p in
      match err with
      | Some e => (calls, Some (ErrWrap ("handler error for channel " +:+ channel) e))
      | None => let '(more, err) := call_all ans channel hs p in (calls ++ more, err)
      end
  end.

Section listener.
Context {L : Type} {P : PQ L} {T : PayloadText} {MR : MapRange}.

Definition HandleNotification (ans : Answers) (channel payload : string) (sm : SubscriptionManager)
    : list Call * option error :=
  match sm !! channel with
  | None => ([], None)
  | Some handlers =>
      match parse_payload payload with
      | Err e => ([], Some (ErrWrap "failed to parse notification payload" e))
      | Ok p => call_all ans channel handlers p
      end
  end.

(** ** The listener; [loops] are the contexts of the loops that run *)
Record NotificationListener := mkListener {
  connectionString : string; listener : L; closed : bool; subscriptions : SubscriptionManager;
  reconnectInterval : Z; maxReconnectAttempts : Z; notificationTimeout : Z;
  loops : list nat; calls : list Call
}.
Implicit Types nl : NotificationListener.
Definition with_listener (l : L) nl : NotificationListener :=
  mkListener (connectionString nl) l (closed nl) (subscriptions nl) (reconnectInterval nl)
    (maxReconnectAttempts nl) (notificationTimeout nl) (loops nl) (calls nl).
Definition with_subscriptions (sm : SubscriptionManager) nl : NotificationListener :=
  mkListener (connectionString nl) (listener nl) (closed nl) sm (reconnectInterval nl)
    (maxReconnectAttempts nl) (notificationTimeout nl) (loops nl) (calls nl).
Definition with_loops (l : list nat) nl : NotificationListener :=
  mkListener (connectionString nl) (listener nl) (closed nl) (subscriptions nl) (reconnectInterval nl)
    (maxReconnectAttempts nl) (notificationTimeout nl) l (calls nl).
Definition with_calls (c : list Call) nl : NotificationListener :=
  mkListener (connectionString nl) (listener nl) (closed nl) (subscriptions nl) (reconnectInterval nl)
    (maxReconnectAttempts nl) (notificationTimeout nl) (loops nl) c.

Definition NewNotificationListener (conn : string) : result error NotificationListener :=
  if bool_decide (conn = "") then Err (ErrMsg "connection string cannot be empty")
  else Ok (mkListener conn (NewListener conn 5000000000 30000000000) false NewSubscriptionManager
             5000000000 10 30000000000 [] []).

(** Listening again after a reconnection; failures are only logged. *)
Definition resubscribeAllChannels nl : NotificationListener :=
  with_listener (fold_left (λ l c, (Listen c l).1) (GetChannels (subscriptions nl)) (listener nl)) nl.
Inductive ListenerEvent := EventConnected | EventDisconnected | EventReconnected | EventConnectionAttemptFailed.
Definition eventCallback (event : ListenerEvent) nl : NotificationListener :=
  match event with EventReconnected => resubscribeAllChannels nl | _ => nl end.

Definition err_closed : error := ErrMsg "listener is closed".
Definition Start (ctx : nat) nl : NotificationListener * option error :=
  if closed nl then (nl, Some err_closed) else (with_loops (loops nl ++ [ctx]) nl, None).

(** Errors of handlers are only logged. *)
Definition handleNotification (ans : Answers) (notification : option (string * string)) nl : NotificationListener :=
  match notification with
  | None => nl
  | Some (channel, extra) =>
      with_calls (calls nl ++ (HandleNotification ans channel extra (subscriptions nl)).1) nl
  end.
(** What the [i]-th loop may do next: end, because its context or the listener is
    over, or take a notification.  Pings change nothing. *)
Inductive signal := CtxDone | ListenerDone | Notified (n : option (string * string)).
Definition listenLoop (ans : Answers) (i : nat) (s : signal) nl : option NotificationListener :=
  match loops nl !! i with
  | None => None
  | Some _ =>
      match s with
      | CtxDone => Some (with_loops (delete i (loops nl)) nl)
      | ListenerDone => if closed nl then Some (with_loops (delete i (loops nl)) nl) else None
      | Notified n => Some (handleNotification ans n nl)
      end
  end.

Definition stream_channel (aggregateID : string) : string := "stream_" +:+ aggregateID.
Definition global_channel : string := "events_global".
(** Both kinds of subscription; on failure all handlers of the channel go. *)
Definition subscribe_channel (channel failed : string) (h : EventHandler) nl : NotificationListener * option error :=
  if closed nl then (nl, Some err_closed)
  else
    let nl := with_subscriptions (Subscribe channel h (subscriptions nl)) nl in
    let '(l, err) := Listen channel (listener nl) in
    let nl := with_listener l nl in
    match err with
    | Some e => (with_subscriptions (Unsubscribe channel (subscriptions nl)) nl, Some (ErrWrap failed e))
    | None => (nl, None)
    end.
Definition SubscribeToStream (aggregateID : string) (h : EventHandler) nl : NotificationListener * option error :=
  let channel := stream_channel aggregateID in
  subscribe_channel channel ("failed to listen to channel " +:+ channel) h nl.
Definition SubscribeToAll (h : EventHandler) nl : NotificationListener * option error :=
  subscribe_channel global_channel "failed to listen to global channel" h nl.
Definition SubscribeToEventType (eventType : string) (id : nat) nl : NotificationListener * option error :=
  if closed nl then (nl, Some err_closed) else SubscribeToAll (Filtering eventType id) nl.
Definition unsubscribe_channel (channel failed : string) nl : NotificationListener * option error :=
  let nl := with_subscriptions (Unsubscribe channel (subscriptions nl)) nl in
  let '(l, err) := Unlisten channel (listener nl) in
  (with_listener l nl, ErrWrap failed <$> err).
Definition UnsubscribeFromStream (aggregateID : string) nl : NotificationListener * option error :=
  let channel := stream_channel aggregateID in
  unsubscribe_channel channel ("failed to unlisten from channel " +:+ channel) nl.
Definition UnsubscribeFromAll nl : NotificationListener * option error :=
  unsubscribe_channel global_channel "failed to unlisten from global channel" nl.
Definition GetActiveChannels nl : list string := GetChannels (subscriptions nl).
Definition IsConnected nl : bool := negb (closed nl) && (if pq_Ping (listener nl) then false else true).
Definition Close nl : NotificationListener * option error :=
  if closed nl then (nl, None)
  else
    let '(l, err) := pq_Close (listener nl) in
    (mkListener (connectionString nl) l true (subscriptions nl) (reconnectInterval nl) (maxReconnectAttempts nl)
       (notificationTimeout nl) (loops nl) (calls nl), err).
(** The settings are kept beside the listener that exists already. *)
Definition WithReconnectSettings (interval maxAttempts : Z) nl : NotificationListener :=
  mkListener (connectionString nl) (listener nl) (closed nl) (subscriptions nl) interval maxAttempts
    (notificationTimeout nl) (loops nl) (calls nl).
Definition WithNotificationTimeout (timeout : Z) nl : NotificationListener :=
  mkListener (connectionString nl) (listener nl) (closed nl) (subscriptions nl) (reconnectInterval nl)
    (maxReconnectAttempts nl) timeout (loops nl) (calls nl).
End listener.
Arguments NotificationListener L : clear implicits.

(** ** The documented behaviour of [pq.Listener]

    It listens to a set of channels; [Listen] fails at once on a channel it
    listens to already, [Unlisten] on one it does not. *)
Class PQLaws (L : Type) {P : PQ L} := {
  open_channels : L → gset string;
  new_law : ∀ c a b, open_channels (NewListener c a b) = ∅;
  listen_law : ∀ c l, c ∉ open_channels l →
    ((Listen c l).2 = None ∧ open_channels (Listen c l).1 = open_channels l ∪ {[c]})
    ∨ ((Listen c l).2 ≠ None ∧ open_channels (Listen c l).1 = open_channels l);
  listen_open_law : ∀ c l, c ∈ open_channels l →
    (Listen c l).2 = Some (ErrMsg "pq: channel is already open") ∧ open_channels (Listen c l).1 = open_channels l;
  unlisten_law : ∀ c l, c ∈ open_channels l →
    ((Unlisten c l).2 = None ∧ open_channels (Unlisten c l).1 = open_channels l ∖ {[c]})
    ∨ ((Unlisten c l).2 ≠ None ∧ open_channels (Unlisten c l).1 = open_channels l);
  unlisten_absent_law : ∀ c l, c ∉ open_channels l →
    (Unlisten c l).2 = Some (ErrMsg "pq: channel is not open") ∧ open_channels (Unlisten c l).1 = open_channels l
}.

Section facts.
Context {L : Type} {P : PQ L} {PL : PQLaws L} {T : PayloadText} {MR : MapRange}.
Implicit Types nl : NotificationListener L.

(** ** Reachable listeners *)
Inductive op :=
  | OStream (aggregateID : string) (id : nat)
  | OAll (id : nat)
  | OType (eventType : string) (id : nat)
  | OUnStream (aggregateID : string)
  | OUnAll
  | OStart (ctx : nat)
  | OEvent (e : ListenerEvent)
  | OLoop (i : nat) (s : signal)
  | OClose.
Definition apply (ans : Answers) (o : op) nl : NotificationListener L :=
  match o with
  | OStream a id => (SubscribeToStream a (Plain id) nl).1
  | OAll id => (SubscribeToAll (Plain id) nl).1
  | OType t id => (SubscribeToEventType t id nl).1
  | OUnStream a => (UnsubscribeFromStream a nl).1
  | OUnAll => (UnsubscribeFromAll nl).1
  | OStart ctx => (Start ctx nl).1
  | OEvent e => eventCallback e nl
  | OLoop i s => default nl (listenLoop ans i s nl)
  | OClose => (Close nl).1
  end.
(** A channel with handlers has one, and is listened to unless the listener has
    been closed. *)
Record listener_inv nl : Prop := {
  inv_one : map_Forall (λ _ hs, length hs = 1%nat) (subscriptions nl);
  inv_open : closed nl = false → dom (subscriptions nl) ⊆ open_channels (listener nl)
}.
Definition New (conn : string) : NotificationListener L :=
  mkListener conn (NewListener conn 5000000000 30000000000) false NewSubscriptionManager
    5000000000 10 30000000000 [] [].

Lemma Listen_grows c l : open_channels l ⊆ open_channels (Listen c l).1.
Proof.
  destruct (decide (c ∈ open_channels l)) as [Hc|Hc].
  - by destruct (listen_open_law c l Hc) as [_ ->].
  - destruct (listen_law c l Hc) as [[_ ->]|[_ ->]]; set_solver.
Qed.
Lemma listen_all_grows cs l : open_channels l ⊆ open_channels (fold_left (λ l c, (Listen c l).1) cs l).
Proof.
  revert l; induction cs as [|c cs IH]; intros l; [done|]. cbn [fold_left].
  etrans; [apply (Listen_grows c)|apply IH].
Qed.

Lemma subscribe_fails c f h nl l e : closed nl = false → Listen c (listener nl) = (l, Some e) →
  subscribe_channel c f h nl
  = (with_subscriptions (delete c (subscriptions nl)) (with_listener l nl), Some (ErrWrap f e)).
Proof.
  intros Hc Hl. unfold subscribe_channel. rewrite Hc. cbn [with_subscriptions listener]. rewrite Hl.
  unfold Unsubscribe, Subscribe, with_listener, with_subscriptions; cbn. by rewrite delete_insert_eq.
Qed.
Lemma subscribe_succeeds c f h nl l : closed nl = false → Listen c (listener nl) = (l, None) →
  subscribe_channel c f h nl = (with_subscriptions (Subscribe c h (subscriptions nl)) (with_listener l nl), None).
Proof. intros Hc Hl. unfold subscribe_channel. rewrite Hc. cbn [with_subscriptions listener]. by rewrite Hl. Qed.
Lemma subscribe_channel_inv c f h nl : listener_inv nl → listener_inv (subscribe_channel c f h nl).1.
Proof using PL.
  intros [Hone Hopen]. destruct (closed nl) eqn:Hcl; [unfold subscribe_channel; rewrite Hcl; split; [done|by cbn; rewrite Hcl]|].
  specialize (Hopen eq_refl). pose proof (Listen_grows c (listener nl)) as Hg.
  destruct (Listen c (listener nl)) as [l [e|]] eqn:Hl.
  - rewrite (subscribe_fails _ _ _ _ _ _ Hcl Hl). cbn in *. split; cbn.
    + intros c' hs [_ Hc']%lookup_delete_Some. by eapply Hone.
    + intros _. rewrite dom_delete_L. set_solver.
  - rewrite (subscribe_succeeds _ _ _ _ _ Hcl Hl). cbn in *.
    assert (Hc : c ∉ open_channels (listener nl)).
    { intros Hc. destruct (listen_open_law c _ Hc) as [E _]. by rewrite Hl in E. }
    destruct (listen_law c _ Hc) as [[_ Ho]|[E _]]; rewrite Hl in *; [|done]. cbn in Ho.
    assert (subscriptions nl !! c = None) as Hn by (apply not_elem_of_dom; set_solver).
    split; cbn; unfold Subscribe; rewrite Hn.
    + intros c' hs [[<- <-]|[_ Hc']]%lookup_insert_Some; [done|by eapply Hone].
    + intros _. rewrite dom_insert_L, Ho. set_solver.
Qed.
Lemma unsubscribe_channel_inv c f nl : listener_inv nl → listener_inv (unsubscribe_channel c f nl).1.
Proof using PL.
  intros [Hone Hopen]. unfold unsubscribe_channel. cbn [with_subscriptions listener].
  assert (Hg : open_channels (listener nl) ∖ {[c]} ⊆ open_channels (Unlisten c (listener nl)).1).
  { destruct (decide (c ∈ open_channels (listener nl))) as [Hc|Hc].
    - destruct (unlisten_law c _ Hc) as [[_ ->]|[_ ->]]; set_solver.
    - destruct (unlisten_absent_law c _ Hc) as [_ ->]. set_solver. }
  destruct (Unlisten c (listener nl)) as [l err]. cbn in *. split; cbn; unfold Unsubscribe.
  - intros c' hs [_ Hc']%lookup_delete_Some. by eapply Hone.
  - intros Hcl. specialize (Hopen Hcl). rewrite dom_delete_L. set_solver.
Qed.
Lemma apply_inv ans o nl : listener_inv nl → listener_inv (apply ans o nl).
Proof using PL.
  intros Hi. destruct o; cbn [apply].
  - by apply subscribe_channel_inv.
  - by apply subscribe_channel_inv.
  - unfold SubscribeToEventType. destruct (closed nl) eqn:Hc; [done|]. by apply subscribe_channel_inv.
  - by apply unsubscribe_channel_inv.
  - by apply unsubscribe_channel_inv.
  - unfold Start. destruct (closed nl) eqn:Hc; [done|]. destruct Hi. by split.
  - destruct e; cbn; try done. destruct Hi as [H1 H2]. split; cbn; [done|].
    intros Hc. etrans; [by apply H2|apply listen_all_grows].
  - unfold listenLoop. destruct (loops nl !! i); [|done]. destruct Hi as [H1 H2].
    destruct s as [| |[[c x]|]]; cbn; try (by split). destruct (closed nl) eqn:Hc; cbn; split; try done; cbn; by rewrite Hc.
  - unfold Close. destruct (closed nl) eqn:Hc; [done|]. destruct (pq_Close _) as [l err]. destruct Hi as [H1 _]. by split.
Qed.

(** Remark: however a listener is used, a channel never has more than one handler. *)
Theorem one_handler_per_channel ans (ops : list op) conn :
  let nl := fold_left (λ nl o, apply ans o nl) ops (New conn) in
  listener_inv nl ∧ ∀ c, (length (default [] (subscriptions nl !! c)) ≤ 1)%nat.
Proof using PL.
  cbn zeta. assert (listener_inv (fold_left (λ nl o, apply ans o nl) ops (New conn))) as Hi.
  { assert (listener_inv (New conn)) as H0 by (split; [by apply map_Forall_empty|intros _; cbn; set_solver]).
    revert H0. generalize (New conn). induction ops as [|o ops IH]; intros nl H0; [done|].
    cbn. by apply IH, apply_inv. }
  split; [done|]. intros c. destruct (subscriptions _ !! c) as [hs|] eqn:E; cbn; [|lia].
  by rewrite (inv_one _ Hi c hs E).
Qed.

(** The subscriptions that a channel can get. *)
Definition subscribes (c : string) (f : NotificationListener L → NotificationListener L * option error) : Prop :=
  ∃ failed h, ∀ nl, closed nl = false → f nl = subscribe_channel c failed h nl.
Lemma subscriptions_subscribe a h t id :
  subscribes (stream_channel a) (SubscribeToStream a h) ∧ subscribes global_channel (SubscribeToAll h)
  ∧ subscribes global_channel (SubscribeToEventType t id).
Proof.
  split_and!; [by eexists _, _|by eexists _, _|].
  eexists _, _. intros nl Hc. unfold SubscribeToEventType. by rewrite Hc.
Qed.
Lemma subscribe_again c f nl : subscribes c f → closed nl = false → c ∈ open_channels (listener nl) →
  ∃ nl' e, f nl = (nl', Some e) ∧ closed nl' = false ∧ c ∈ open_channels (listener nl')
    ∧ subscriptions nl' = delete c (subscriptions nl).
Proof using PL.
  intros (failed & h & Hf) Hcl Hc. destruct (listen_open_law c _ Hc) as [E Ho].
  destruct (Listen c (listener nl)) as [l err] eqn:Hl. cbn in E, Ho. subst err.
  rewrite (Hf nl Hcl), (subscribe_fails _ _ _ _ _ _ Hcl Hl). eexists _, _. split; [done|]. cbn.
  by rewrite Ho.
Qed.

(** C31: on a channel that has a handler every further subscription fails and
    takes the handler away: from then on its notifications call nobody, and
    every later subscription to it fails too, as long as nobody unsubscribes.
    All event types share one channel. *)
Theorem second_subscription_silences (nl : NotificationListener L) c f ans
    (fs : list (NotificationListener L → NotificationListener L * option error))
    (Hi : listener_inv nl) (Hcl : closed nl = false) (Hs : is_Some (subscriptions nl !! c))
    (Hf : subscribes c f) (Hfs : Forall (subscribes c) fs) :
  let nl' := fold_left (λ nl f, (f nl).1) (f :: fs) nl in
  (f nl).2 ≠ None
  ∧ (∀ extra, calls (handleNotification ans (Some (c, extra)) nl') = calls nl')
  ∧ ∀ g, subscribes c g → (g nl').2 ≠ None.
Proof using PL.
  assert (Hc : c ∈ open_channels (listener nl)) by (by apply (inv_open _ Hi Hcl), elem_of_dom).
  cbn zeta. cbn [fold_left].
  destruct (subscribe_again c f nl Hf Hcl Hc) as (nl1 & e & E & Hcl1 & Hc1 & Hs1). rewrite E. cbn [fst snd].
  split; [done|].
  assert (Hn1 : subscriptions nl1 !! c = None) by (by rewrite Hs1, lookup_delete_eq).
  clear E Hs1. revert nl1 Hcl1 Hc1 Hn1. induction Hfs as [|f2 fs Hf2 _ IH]; intros nl1 Hcl1 Hc1 Hn1.
  - split; cbn [fold_left].
    + intros extra. cbn. unfold HandleNotification. rewrite Hn1. by rewrite app_nil_r.
    + intros g Hg. by destruct (subscribe_again c g nl1 Hg Hcl1 Hc1) as (? & ? & -> & _).
  - cbn [fold_left]. destruct (subscribe_again c f2 nl1 Hf2 Hcl1 Hc1) as (nl2 & e2 & -> & H1 & H2 & H3).
    cbn [fst]. apply IH; [done|done|]. by rewrite H3, lookup_delete_eq.
Qed.

(** Remark: a notification that a running loop takes calls, of the channel's handlers
    in order, those that accept its event type, up to and including the first
    that fails; nothing else of the listener changes. *)
Theorem notification_calls ans i nl c extra p hs
    (Hloop : is_Some (loops nl !! i)) (Hs : subscriptions nl !! c = Some hs) (Hp : parse_payload extra = Ok p) :
  ∃ pre rest nl', listenLoop ans i (Notified (Some (c, extra))) nl = Some nl'
    ∧ nl' = with_calls (calls nl ++ ((λ id, (id, p)) <$> pre)) nl
    ∧ omap (λ h, match h with Plain id => Some id
                 | Filtering t id => if bool_decide (n_EventType p = t) then Some id else None end) hs = pre ++ rest
    ∧ match last pre with
      | Some id => (ans id p = None → rest = []) ∧ ∀ j k, pre !! j = Some k → (S j < length pre)%nat → ans k p = None
      | None => rest = []
      end.
Proof.
  destruct Hloop as [ctx Hl]. unfold listenLoop, handleNotification, HandleNotification. rewrite Hl, Hs, Hp.
  enough (∃ pre rest, (call_all ans c hs p).1 = (λ id, (id, p)) <$> pre
    ∧ omap (λ h, match h with Plain id => Some id
                 | Filtering t id => if bool_decide (n_EventType p = t) then Some id else None end) hs = pre ++ rest
    ∧ match last pre with
      | Some id => (ans id p = None → rest = []) ∧ ∀ j k, pre !! j = Some k → (S j < length pre)%nat → ans k p = None
      | None => rest = []
      end) as (pre & rest & E & H1 & H2).
  { exists pre, rest. rewrite E. by eexists. }
  clear. induction hs as [|h hs (pre & rest & E & H1 & H2)]; [by exists [], []|].
  assert (Hstep : ∀ id, let '(cs, err) := ([(id, p)], ans id p) in
    ∃ pre' rest', (match err with
                   | Some e => (cs, Some (ErrWrap ("handler error for channel " +:+ c) e))
                   | None => let '(more, err) := call_all ans c hs p in (cs ++ more, err)
                   end).1 = (λ id, (id, p)) <$> pre' ∧ id :: pre ++ rest = pre' ++ rest'
      ∧ match last pre' with
        | Some id => (ans id p = None → rest' = []) ∧ ∀ j k, pre' !! j = Some k → (S j < length pre')%nat → ans k p = None
        | None => rest' = []
        end).
  { intros id. cbn. destruct (ans id p) as [e|] eqn:Ha.
    - exists [id], (pre ++ rest). split_and!; try done. cbn. split; [by rewrite Ha|intros [|j] k; cbn; [lia|done]].
    - exists (id :: pre), rest. destruct (call_all ans c hs p) as [more err]. cbn in E |- *. rewrite E. split_and!; try done.
      rewrite last_cons. destruct (last pre) as [x|] eqn:Hlast.
      + destruct H2 as [Ha' Hb]. split; [done|]. intros [|j] k Hj Hlt; cbn in *; [by simplify_eq|].
        apply (Hb j k Hj). lia.
      + subst rest. split; [done|]. apply last_None in Hlast as ->. intros [|j] k Hj _; cbn in Hj; [by simplify_eq|done]. }
  cbn [call_all]. destruct h as [id|t id]; cbn [run_handler omap list_omap].
  - destruct (Hstep id) as (pre' & rest' & E' & H1' & H2'). exists pre', rest'.
    split_and!; [exact E'| |exact H2']. rewrite <-H1'. f_equal. exact H1.
  - case_bool_decide as Ht.
    + destruct (Hstep id) as (pre' & rest' & E' & H1' & H2'). exists pre', rest'.
      split_and!; [exact E'| |exact H2']. rewrite <-H1'. f_equal. exact H1.
    + exists pre, rest. split_and!; [|exact H1|done]. by destruct (call_all ans c hs p).
Qed.

(** Remark: closing is final: it is done once, refuses every later subscription and
    start, and lets every loop end; the settings given after construction change
    nothing of the connection that exists already. *)
Theorem listener_close_final nl a h t id ctx :
  let nl' := (Close nl).1 in
  closed nl' = true ∧ Close nl' = (nl', None) ∧ IsConnected nl' = false
  ∧ SubscribeToStream a h nl' = (nl', Some err_closed) ∧ SubscribeToAll h nl' = (nl', Some err_closed)
  ∧ SubscribeToEventType t id nl' = (nl', Some err_closed) ∧ Start ctx nl' = (nl', Some err_closed)
  ∧ (∀ ans i, is_Some (loops nl' !! i) → ∃ nl'', listenLoop ans i ListenerDone nl' = Some nl''
       ∧ length (loops nl'') = pred (length (loops nl')))
  ∧ ∀ interval n timeout, listener (WithReconnectSettings interval n (WithNotificationTimeout timeout nl)) = listener nl.
Proof.
  cbn zeta. assert (Hc : closed (Close nl).1 = true).
  { unfold Close. destruct (closed nl) eqn:Hc; [done|]. by destruct (pq_Close _). }
  set (nl' := (Close nl).1) in *.
  unfold Close, IsConnected, SubscribeToEventType, SubscribeToStream, SubscribeToAll, subscribe_channel, Start, listenLoop.
  rewrite Hc. split_and!; try done. intros ans i Hl. pose proof Hl as [ctx' Hctx]. rewrite Hctx. eexists. split; [done|].
  cbn. rewrite length_delete by done. lia.
Qed.
End facts.

(** ** A concrete listener: the set of its channels *)
#[local] Instance demo_range : MapRange := canonical_range.
#[local] Instance demo_payload : PayloadText := {|
  parse_payload := λ s, if bool_decide (s = "") then Err (ErrMsg "unexpected end of JSON input")
                        else Ok (mkNotification 1 s "order-1" "OrderPlaced" "stream_order-1" 0)
|}.
#[local] Instance demo_PQ : PQ (gset string) := {|
  NewListener := λ _ _ _, ∅;
  Listen := λ c l, if bool_decide (c ∈ l) then (l, Some (ErrMsg "pq: channel is already open")) else (l ∪ {[c]}, None);
  Unlisten := λ c l, if bool_decide (c ∈ l) then (l ∖ {[c]}, None) else (l, Some (ErrMsg "pq: channel is not open"));
  pq_Ping := λ _, None;
  pq_Close := λ l, (l, None)
|}.
#[local] Program Instance demo_PQLaws : PQLaws (gset string) := {| open_channels := id |}.
Next Obligation. done. Qed.
Next Obligation. intros c l Hc. cbn. rewrite bool_decide_false by done. by left. Qed.
Next Obligation. intros c l Hc. cbn. by rewrite bool_decide_true. Qed.
Next Obligation. intros c l Hc. cbn. rewrite bool_decide_true by done. by left. Qed.
Next Obligation. intros c l Hc. cbn. by rewrite bool_decide_false. Qed.
(** A dashboard follows the placed orders; then a mailer wants the paid ones. *)
Definition demo_listener : NotificationListener (gset string) :=
  (SubscribeToEventType "OrderPlaced" 1 (Start 0 (New "postgres://")).1).1.
Definition demo_ans : Answers := λ _ _, None.
Lemma demo_listener_inv : listener_inv demo_listener.
Proof.
  unfold demo_listener. change (listener_inv (apply demo_ans (OType "OrderPlaced" 1) (apply demo_ans (OStart 0) (New "postgres://")))).
  apply apply_inv, apply_inv. split; [by apply map_Forall_empty|intros _; cbn; set_solver].
Qed.

Lemma second_subscription_silences_witness :
  calls (handleNotification demo_ans (Some (global_channel, "e9")) demo_listener) = [(1%nat, mkNotification 1 "e9" "order-1" "OrderPlaced" "stream_order-1" 0)]
  ∧ let nl := (SubscribeToEventType "OrderPaid" 2 demo_listener).1 in
    calls (handleNotification demo_ans (Some (global_channel, "e9")) nl) = [].
Proof.
  split; [by vm_compute|].
  destruct (second_subscription_silences demo_listener global_channel (SubscribeToEventType "OrderPaid" 2) demo_ans []
    demo_listener_inv) as (_ & H & _).
  - by vm_compute.
  - by eexists; vm_compute.
  - apply (subscriptions_subscribe "" (Plain 0) "OrderPaid" 2).
  - constructor.
  - etrans; [exact (H "e9")|by vm_compute].
Defined.
Lemma notification_calls_witness : ∃ nl', listenLoop demo_ans 0 (Notified (Some (global_channel, "e9"))) demo_listener = Some nl'
  ∧ length (calls nl') = 1%nat.
Proof.
  destruct (notification_calls demo_ans 0 demo_listener global_channel "e9"
    (mkNotification 1 "e9" "order-1" "OrderPlaced" "stream_order-1" 0) [Filtering "OrderPlaced" 1])
    as (pre & rest & nl' & H & _); [by eexists|by vm_compute|by vm_compute|].
  exists nl'. split; [exact H|].
  apply (f_equal (fmap (λ l, length (calls l)))) in H. vm_compute in H. by apply (inj Some) in H.
Defined.
