(* ===== verification/BadgerOffsets.v ===== *)
(** * The badger offset store (src/projection/badger/offsets.go)

    Offsets of projections in a key-value database that is a parameter
    ([Badger]) with the documented behaviour of its transactions
    ([BadgerLaws]).  The store keeps the promise [Projection.DurableOffsets], so
    what is proved of the runner holds over it, also across a restart.  Loggers
    are left out. *)
From S2P Require Import Prelude Types Json Errors VectorClock Versions Text Interfaces Convergence Projection.
From S2P Require MemStore.
From stdpp Require Import options.

Inductive KVError := ErrKeyNotFound | ErrNoRewrite | KVOther (e : error).
Definition kv_error (e : KVError) : error :=
  match e with
  | ErrKeyNotFound => ErrMsg "Key not found"
  | ErrNoRewrite => ErrMsg "Value log GC attempt didn't result in any cleanup"
  | KVOther e => e
  end.
(** The transactions of the store hold one operation each. *)
Class Badger (D : Type) := {
  Options : Type;
  DefaultOptions : string → Options;
  with_dirs : string → Options → Options;
  db_Open : Options → result KVError D;
  db_Get : string → D → result KVError string;
  db_Set : string → string → D → D * option KVError;
  db_Delete : string → D → D * option KVError;
  db_Keys : D → result KVError (list string);
  db_Close : D → D * option error;
  RunValueLogGC : D → D * option KVError
}.

Section store.
Context {D : Type} {BD : Badger D}.

Record Config := mkConfig { Path : string; BadgerOptions : option Options }.
Definition DefaultConfig (path : string) : Config := mkConfig path None.
Definition VersionParser : Type := CtxView → string → outcome (result error (option Version)).
Record OffsetStore := mkOffsets { db : D; parseVersion : VersionParser; closed : bool }.
Implicit Types o : OffsetStore.

Definition badger_component : string := "projection/badger".
Definition invalid (op msg : string) : error :=
  E [AOp op; AComponent badger_component; AKind KindInvalid; AErr (ErrMsg msg)].
Definition failed (op msg : string) (e : error) : error :=
  E [AOp op; AComponent badger_component; AErr (ErrWrap msg e)].
Definition closed_error : error := invalid OpOffsetStore "offset store is closed".
Definition empty_name : error := invalid OpOffsetStore "projection name cannot be empty".

Definition NewOffsetStore (config : option Config) (parse : option VersionParser) : result error OffsetStore :=
  match config with
  | None => Err (invalid "NewOffsetStore" "config cannot be nil")
  | Some config =>
      if bool_decide (Path config = "") then Err (invalid "NewOffsetStore" "config.Path cannot be empty")
      else match parse with
           | None => Err (invalid "NewOffsetStore" "parseVersion function cannot be nil")
           | Some parse =>
               let options := default (DefaultOptions (Path config)) (BadgerOptions config) in
               match db_Open (with_dirs (Path config) options) with
               | Err e => Err (failed "NewOffsetStore" "failed to open BadgerDB" (kv_error e))
               | Ok d => Ok (mkOffsets d parse false)
               end
           end
  end.

Definition Get (ctx : CtxView) (name : string) o : outcome (result error (option Version)) :=
  if bool_decide (name = "") then Done (Err empty_name)
  else if closed o then Done (Err closed_error)
  else match db_Get name (db o) with
       | Err ErrKeyNotFound => Done (Ok None)
       | Err e => Done (Err (failed OpOffsetStore ("failed to get offset for projection " +:+ name) (kv_error e)))
       | Ok versionStr =>
           let* v := parseVersion o ctx versionStr in
           match v with
           | Err e => Done (Err (failed OpOffsetStore ("failed to parse version for projection " +:+ name) e))
           | Ok v => Done (Ok v)
           end
       end.
Definition with_db (d : D) o : OffsetStore := mkOffsets d (parseVersion o) (closed o).
Definition Set_ (name : string) (v : option Version) o : outcome (OffsetStore * option error) :=
  if bool_decide (name = "") then Done (o, Some empty_name)
  else match v with
       | None => Done (o, Some (invalid OpOffsetStore "version cannot be nil"))
       | Some v =>
           if closed o then Done (o, Some closed_error)
           else
             let* versionStr := version_String v in
             let '(d, err) := db_Set name versionStr (db o) in
             Done (with_db d o,
                   match err with
                   | Some e => Some (failed OpOffsetStore ("failed to set offset for projection " +:+ name
                                                           +:+ " to " +:+ versionStr) (kv_error e))
                   | None => None
                   end)
       end.
Definition ListProjections o : result error (list string) :=
  if closed o then Err closed_error
  else match db_Keys (db o) with
       | Err e => Err (failed OpOffsetStore "failed to list projections" (kv_error e))
       | Ok keys => Ok keys
       end.
Definition Reset (name : string) o : OffsetStore * option error :=
  if bool_decide (name = "") then (o, Some empty_name)
  else if closed o then (o, Some closed_error)
  else
    let '(d, err) := db_Delete name (db o) in
    (with_db d o,
     match err with
     | None | Some ErrKeyNotFound => None
     | Some e => Some (failed OpOffsetStore ("failed to reset offset for projection " +:+ name) (kv_error e))
     end).
Definition Close o : OffsetStore * option error :=
  if closed o then (o, None)
  else let '(d, err) := db_Close (db o) in (mkOffsets d (parseVersion o) true, err).

(** The loop of the garbage collection; running out of fuel stands for a loop
    that does not end. *)
Fixpoint gc_loop (fuel : nat) (ctx : CtxView) (d : D) : outcome (D * option error) :=
  match fuel with
  | O => Panic "the loop does not end"
  | S fuel =>
      match ctx 0%nat with
      | Some e => Done (d, Some (ErrCtx e))
      | None =>
          match RunValueLogGC d with
          | (d, None) => gc_loop fuel (λ n, ctx (S n)) d
          | (d, Some ErrNoRewrite) => Done (d, None)
          | (d, Some e) => Done (d, Some (ErrWrap "GC failed" (kv_error e)))
          end
      end
  end.
Definition RunGC (fuel : nat) (ctx : CtxView) o : outcome (OffsetStore * option error) :=
  if closed o then Done (o, Some closed_error)
  else let* (d, err) := gc_loop fuel ctx (db o) in Done (with_db d o, err).

(** The store as the runner sees it. *)
#[export] Instance badger_offsets : Projection.OffsetStore OffsetStore := {|
  os_Get := Get;
  os_Set := λ _, Set_
|}.
End store.
Arguments OffsetStore D : clear implicits.

(** ** What the database promises

    [contents] are the committed pairs, [live] an open database that can be
    read.  A failed transaction leaves no trace; keys that start with "!badger!"
    belong to the database; the collector frees one file at a time. *)
Definition reserved_prefix : string := "!badger!".
Class BadgerLaws (D : Type) {BD : Badger D} := {
  contents : D → gmap string string;
  live : D → Prop;
  garbage : D → nat;
  get_law : ∀ k d, live d → k ≠ "" → HasPrefix k reserved_prefix = false →
    db_Get k d = match contents d !! k with Some v => Ok v | None => Err ErrKeyNotFound end;
  set_law : ∀ k v d, live d → k ≠ "" → HasPrefix k reserved_prefix = false →
    let '(d', err) := db_Set k v d in
    live d' ∧ contents d' = match err with None => <[k := v]> (contents d) | Some _ => contents d end;
  delete_law : ∀ k d, live d → k ≠ "" → HasPrefix k reserved_prefix = false →
    let '(d', err) := db_Delete k d in
    live d' ∧ contents d' = match err with None => delete k (contents d) | Some _ => contents d end
    ∧ (err = Some ErrKeyNotFound → contents d !! k = None);
  keys_law : ∀ d, live d → ∃ ks, db_Keys d = Ok ks ∧ ks ≡ₚ (map_to_list (contents d)).*1;
  gc_law : ∀ d, live d → let '(d', err) := RunValueLogGC d in
    live d' ∧ contents d' = contents d ∧ (err = None → (garbage d' < garbage d)%nat)
}.

Section laws.
Context {D : Type} {BD : Badger D} {BL : BadgerLaws D}.
Implicit Types (o : OffsetStore D) (name : string).

Definition usable name : Prop := name ≠ "" ∧ HasPrefix name reserved_prefix = false.
Definition ok_store o : Prop := closed o = false ∧ live (db o).
(** What is stored under a name, read back. *)
Definition stored_offset o name : option Version :=
  match contents (db o) !! name with
  | None => None
  | Some s => match parseVersion o background s with Done (Ok v) => v | _ => None end
  end.
Definition readable o name : Prop :=
  match contents (db o) !! name with
  | None => True
  | Some s => ∃ v, parseVersion o background s = Done (Ok v)
  end.
(** The parser reads sequence numbers. *)
Definition reads_numbers (parse : VersionParser) : Prop :=
  ∀ n, is_u64 n → parse background (IntegerCursor_String n) = Done (Ok (Some (IntegerCursor n))).

Lemma Get_stored ctx name o : usable name → ok_store o →
  Get ctx name o = match contents (db o) !! name with
                   | None => Done (Ok None)
                   | Some s => let* v := parseVersion o ctx s in
                               match v with
                               | Err e => Done (Err (failed OpOffsetStore ("failed to parse version for projection " +:+ name) e))
                               | Ok v => Done (Ok v)
                               end
                   end.
Proof.
  intros [Hn Hr] [Hc Hl]. unfold Get. rewrite bool_decide_false, Hc, get_law by done. by destruct (_ !! _).
Qed.
Lemma Set_stored name v s o : usable name → ok_store o → version_String v = Done s →
  ∃ o' err, Set_ name (Some v) o = Done (o', err) ∧ ok_store o' ∧ parseVersion o' = parseVersion o
    ∧ contents (db o') = match err with None => <[name := s]> (contents (db o)) | Some _ => contents (db o) end.
Proof.
  intros [Hn Hr] [Hc Hl] Hs. unfold Set_. rewrite bool_decide_false, Hc, Hs by done. cbn [obind].
  pose proof (set_law name s (db o) Hl Hn Hr) as Hset. destruct (db_Set name s (db o)) as [d err].
  destruct Hset as [Hl' Hd]. eexists _, _. split; [reflexivity|]. split; [done|]. split; [done|]. by destruct err.
Qed.

(** ** The promise to the runner *)
#[export] Program Instance badger_durable : DurableOffsets (OffsetStore D) := {|
  offset := stored_offset;
  serves := λ o name, usable name ∧ ok_store o ∧ readable o name ∧ reads_numbers (parseVersion o)
|}.
Next Obligation.
  intros name o (Hn & Ho & Hr & _). cbn. rewrite Get_stored by done. unfold readable, stored_offset in *.
  destruct (_ !! _) as [s|]; [|done]. by destruct Hr as [v ->].
Qed.
Next Obligation.
  intros ctx name n o (Hn & Ho & Hr & Hp) Hu. cbn.
  destruct (Set_stored name (IntegerCursor n) _ o Hn Ho eq_refl) as (o' & err & -> & Ho' & Hpar & Hd).
  exists o', err. split; [done|]. unfold readable, stored_offset in *. rewrite Hpar, Hd.
  destruct err as [e|]; [done|]. rewrite lookup_insert_eq, Hp by done.
  split; [|done]. split; [done|]. split; [done|]. split; [eexists; by apply Hp|done].
Qed.

(** ** Reading back what was set *)

(** Remark: what [Set] reports as stored [Get] reads back, when the parser given to
    the store reads the text of the version; a failed [Set] changes nothing; the
    offsets of other projections stay. *)
Theorem Set_Get_roundtrip ctx name other v s o
    (Hn : usable name) (Hm : usable other) (Hne : other ≠ name) (Ho : ok_store o)
    (Hs : version_String v = Done s) (Hp : parseVersion o ctx s = Done (Ok (Some v))) :
  ∃ o' err, Set_ name (Some v) o = Done (o', err) ∧ ok_store o'
    ∧ Get ctx name o' = (if err then Get ctx name o else Done (Ok (Some v)))
    ∧ Get ctx other o' = Get ctx other o.
Proof.
  destruct (Set_stored name v s o Hn Ho Hs) as (o' & err & Hset & Ho' & Hpar & Hd).
  exists o', err. split; [done|]. split; [done|]. rewrite !Get_stored by done. rewrite Hpar, Hd.
  destruct err as [e|]; [done|]. rewrite lookup_insert_eq, lookup_insert_ne by done. by rewrite Hp.
Qed.

(** Remark: after a reset, also of a projection that had no offset, [Get] finds no
    offset and the projection starts over; other projections are untouched. *)
Lemma Reset_forgets ctx name other o : usable name → usable other → other ≠ name → ok_store o →
  let '(o', err) := Reset name o in
  ok_store o' ∧ (err = None → Get ctx name o' = Done (Ok None)) ∧ Get ctx other o' = Get ctx other o.
Proof.
  intros Hn Hm Hne Ho. destruct (Hn) as [Hn1 Hn2]. destruct (Ho) as [Hc Hl].
  unfold Reset. rewrite bool_decide_false, Hc by done.
  pose proof (delete_law name (db o) Hl Hn1 Hn2) as Hdel. destruct (db_Delete name (db o)) as [d err].
  destruct Hdel as (Hl' & Hd & Hnf). assert (ok_store (with_db d o)) as Ho' by by split.
  split; [done|]. rewrite !Get_stored by done. cbn [with_db db parseVersion]. rewrite Hd.
  destruct err as [[]|]; try by (split; [intros|]).
  - split; [|done]. intros _. by rewrite Hnf.
  - split; [|by rewrite lookup_delete_ne]. intros _. by rewrite lookup_delete_eq.
Qed.

(** Remark: [ListProjections] names every projection that has an offset, once. *)
Lemma ListProjections_exact o : ok_store o →
  ∃ names, ListProjections o = Ok names ∧ NoDup names ∧ ∀ name, name ∈ names ↔ is_Some (contents (db o) !! name).
Proof.
  intros [Hc Hl]. destruct (keys_law (db o) Hl) as (ks & Hk & Hp). exists ks. unfold ListProjections. rewrite Hc, Hk.
  split; [done|]. rewrite Hp. split; [apply NoDup_fst_map_to_list|]. intros name. rewrite Hp, list_elem_of_fmap. split.
  - intros ([k v] & -> & Hin%elem_of_map_to_list). by exists v.
  - intros [v Hv]. exists (name, v). split; [done|]. by apply elem_of_map_to_list.
Qed.

(** Remark: a closed store refuses every operation without touching the database,
    and closing it again does nothing. *)
Lemma closed_refuses fuel ctx name v o : closed o = true → usable name →
  Get ctx name o = Done (Err closed_error) ∧ Set_ name (Some v) o = Done (o, Some closed_error)
  ∧ ListProjections o = Err closed_error ∧ Reset name o = (o, Some closed_error)
  ∧ RunGC fuel ctx o = Done (o, Some closed_error) ∧ Close o = (o, None).
Proof.
  intros Hc [Hn _]. unfold Get, Set_, ListProjections, Reset, RunGC, Close. by rewrite !bool_decide_false, !Hc by done.
Qed.

(** Remark: garbage collection ends once every file that can be freed is: with one
    turn more than that it returns, keeps every offset, and fails only when the
    context has ended or a turn fails. *)
Lemma RunGC_ends fuel ctx o : ok_store o → (garbage (db o) < fuel)%nat →
  ∃ o' err, RunGC fuel ctx o = Done (o', err) ∧ ok_store o' ∧ contents (db o') = contents (db o)
    ∧ ∀ e, err = Some e → (∃ n c, ctx n = Some c ∧ e = ErrCtx c) ∨ ∃ e', e = ErrWrap "GC failed" e'.
Proof.
  intros [Hc Hl] Hf. unfold RunGC. rewrite Hc.
  enough (∃ d err, gc_loop fuel ctx (db o) = Done (d, err) ∧ live d ∧ contents d = contents (db o)
    ∧ ∀ e, err = Some e → (∃ n c, ctx n = Some c ∧ e = ErrCtx c) ∨ ∃ e', e = ErrWrap "GC failed" e') as (d & err & -> & ? & ? & ?).
  { by exists (with_db d o), err. }
  revert ctx Hl Hf. generalize (db o). induction fuel as [|fuel IH]; intros d ctx Hl Hf; [lia|]. cbn [gc_loop].
  destruct (ctx 0%nat) as [c|] eqn:Ec.
  { eexists _, _. split; [reflexivity|]. split_and!; try done. intros e [= <-]. left. by exists 0%nat, c. }
  pose proof (gc_law d Hl) as Hg. destruct (RunValueLogGC d) as [d' [e|]]; destruct Hg as (Hl' & Hd & Hless).
  - destruct e; eexists _, _; (split; [reflexivity|]); split_and!; try done; intros ? [= <-]; right; by eexists.
  - destruct (IH d' (λ n, ctx (S n)) Hl') as (d2 & err & Hrun & H1 & H2 & H3); [specialize (Hless eq_refl); lia|].
    exists d2, err. split; [done|]. split; [done|]. split; [by rewrite H2|].
    intros e [(n & c & Hn & ->)|He]%H3; [left; by exists (S n), c|by right].
Qed.
End laws.

(** ** Projections over the store *)
Section projections.
Context {D St P : Type} {BD : Badger D} {BL : BadgerLaws D}.
Context {ES : EventStore St} {LS : LogStore St} {PR : Projector P} {AP : AtomicProjector P}.
Notation runner := (runner St (OffsetStore D) P).
Implicit Types r : runner.

(** A runner that can work: its events are a numbered log, its name and its
    offset store are usable. *)
Record works (room k : nat) r : Prop := {
  w_ready : ready (r_store r) room;
  w_numbered : numbered 0 (log (r_store r));
  w_size : 0 < batchSize r;
  w_bound : is_u64 (Z.of_nat (length (log (r_store r))));
  w_zero : es_ParseVersion background "" (r_store r) = Done (Ok (Some (IntegerCursor 0)));
  w_served : served r;
  w_position : at_position r k
}.
(** The runner of a new process: the same events, the database opened again
    with what was committed, and the projection as it was kept. *)
Definition restarted r r' : Prop :=
  r_store r' = r_store r ∧ served r' ∧ 0 < batchSize r'
  ∧ contents (db (r_offsets r')) = contents (db (r_offsets r))
  ∧ parseVersion (r_offsets r') = parseVersion (r_offsets r)
  ∧ p_Name (r_projector r') = p_Name (r_projector r)
  ∧ seen (r_projector r') = seen (r_projector r).

Lemma restarted_position r r' k : restarted r r' → at_position r k → at_position r' k.
Proof.
  intros (_ & _ & _ & Hd & Hp & Hn & _). unfold at_position, position. cbn [offset badger_durable].
  unfold stored_offset. by rewrite Hd, Hp, Hn.
Qed.

(** C33: with offsets in the database a projection survives its process.  Let a
    first run stop wherever it does, and a second one, in a new process, end
    without an error: the projection has seen every event of the log in order,
    [a] of them settled before and [c], at most one batch more, seen before, so
    that the events between [a] and [c] are the only ones seen twice. *)
Theorem projection_survives_restart (fuel room : nat) r r1 r2 r3 a lastv err b lastv'
    (Hw : works room 0 r) (Hfuel : (length (log (r_store r)) < fuel)%nat) (Hfresh : seen (r_projector r) = [])
    (Hrun : ApplySince fuel (λ _, background) r = Done (r1, (a, lastv, err)))
    (Hre : restarted r1 r2)
    (Hrun' : ApplySince fuel (λ _, background) r2 = Done (r3, (b, lastv', None))) :
  ∃ c, (a ≤ c)%nat ∧ Z.of_nat c ≤ Z.of_nat a + batchSize r
    ∧ seen (r_projector r3) = take c (log (r_store r)) ++ drop a (log (r_store r))
    ∧ b = (length (log (r_store r)) - a)%nat.
Proof.
  destruct Hw as [Hr Hnum Hsz Hb Hz Hs Hpos].
  destruct (ApplySince_run fuel 0 room r Hr Hnum Hsz Hs Hb Hz Hpos Hfuel)
    as (r1' & a' & lv & er & c & Hrun1 & Hst & Hp1 & Hseen1 & Hac & Hca & _).
  rewrite Hrun1 in Hrun. injection Hrun as <- <- <- <-.
  pose proof (restarted_position _ _ _ Hre Hp1) as Hp2. destruct Hre as (Hst2 & Hs2 & Hsz2 & _ & _ & _ & Hseen2).
  assert (r_store r2 = r_store r) as E by congruence.
  destruct (ApplySince_run fuel a' room r2) as (r3' & b' & lv' & er' & c' & Hrun2 & _ & _ & _ & _ & _ & Hdone);
    rewrite ?E; try done.
  rewrite Hrun2 in Hrun'. injection Hrun' as <- <- <- ->. destruct (Hdone eq_refl) as [Hseen3 ->].
  exists c. split; [done|]. split; [done|]. by rewrite Hseen3, Hseen2, Hseen1, Hfresh, E, drop_0.
Qed.
End projections.

(** ** A database in memory; one that is full refuses writes *)
Record MemKV := mkKV { pairs : gmap string string; full : bool; files : nat }.
#[export] Instance mem_Badger : Badger MemKV := {|
  Options := string;
  DefaultOptions := id;
  with_dirs := λ path _, path;
  db_Open := λ _, Ok (mkKV ∅ false 0);
  db_Get := λ k d, match pairs d !! k with Some v => Ok v | None => Err ErrKeyNotFound end;
  db_Set := λ k v d, if full d then (d, Some (KVOther (ErrMsg "no space"))) else (mkKV (<[k := v]> (pairs d)) false (files d), None);
  db_Delete := λ k d, if full d then (d, Some (KVOther (ErrMsg "no space"))) else (mkKV (delete k (pairs d)) false (files d), None);
  db_Keys := λ d, Ok (map_to_list (pairs d)).*1;
  db_Close := λ d, (d, None);
  RunValueLogGC := λ d, match files d with
                        | O => (d, Some ErrNoRewrite)
                        | S n => (mkKV (pairs d) (full d) n, None)
                        end
|}.
#[export] Program Instance mem_BadgerLaws : BadgerLaws MemKV := {|
  contents := pairs; live := λ _, True; garbage := files
|}.
Next Obligation. done. Qed.
Next Obligation. intros k v d _ _ _. cbn. by destruct (full d). Qed.
Next Obligation. intros k d _ _ _. cbn. by destruct (full d). Qed.
Next Obligation. intros d _. by eexists. Qed.
Next Obligation. intros d _. cbn. destruct (files d); cbn; repeat split; try done; lia. Qed.

#[local] Instance demo_range : MapRange := canonical_range.
#[local] Existing Instance recorder_Projector.
#[local] Existing Instance recorder_Atomic.
Definition demo_parse : VersionParser := λ ctx s, es_ParseVersion ctx s MemStore.demo_store.
Definition demo_offsets : OffsetStore MemKV := mkOffsets (mkKV ∅ false 0) demo_parse false.

Lemma Set_Get_roundtrip_witness :
  ∃ o' err, Set_ "orders" (Some (IntegerCursor 7)) demo_offsets = Done (o', err) ∧ ok_store o'
    ∧ Get background "orders" o' = (if err then Get background "orders" demo_offsets else Done (Ok (Some (IntegerCursor 7))))
    ∧ Get background "users" o' = Get background "users" demo_offsets.
Proof.
  apply (Set_Get_roundtrip background "orders" "users" (IntegerCursor 7) "7" demo_offsets);
    [by split|by split|done|by split|reflexivity|reflexivity].
Defined.

(** The second of three events is refused at first; the next process accepts it. *)
Definition demo_first : runner MemStore.MemStore (OffsetStore MemKV) Recorder :=
  NewRunner MemStore.demo_store demo_offsets (mkRecorder "e2" []) [WithBatchSize 1].
Definition demo_stopped : runner MemStore.MemStore (OffsetStore MemKV) Recorder :=
  match ApplySince 9 (λ _, background) demo_first with Done (r, _) => r | Panic _ => demo_first end.
Definition demo_second : runner MemStore.MemStore (OffsetStore MemKV) Recorder :=
  mkRunner (r_store demo_stopped) (r_offsets demo_stopped) (mkRecorder "" (recorded (r_projector demo_stopped))) 2
    false false [].

Lemma demo_parse_numbers : reads_numbers demo_parse.
Proof.
  intros n Hn. change (demo_parse background (IntegerCursor_String n))
    with (Done (lift_version (MemStore.ParseVersion (IntegerCursor_String n)))). by rewrite MemStore.ParseVersion_String.
Qed.
Lemma demo_works : works 1 0 demo_first.
Proof.
  split.
  - split; [apply MemStore.demo_store_inv|apply MemStore.demo_store_room; lia].
  - intros i ev Hi. destruct i as [|[|[|i]]]; vm_compute in Hi; try done; injection Hi as <-; reflexivity.
  - done.
  - by apply (bool_decide_unpack _); vm_compute.
  - reflexivity.
  - split; [by split|]. split; [by split|]. split; [done|apply demo_parse_numbers].
  - right. by split.
Qed.
Lemma demo_restarted : restarted demo_stopped demo_second.
Proof.
  split; [done|]. split; [|by split_and!].
  split; [by split|]. split; [by split|]. split; [|apply demo_parse_numbers].
  unfold readable. eexists. reflexivity.
Qed.
Lemma projection_survives_restart_witness :
  match ApplySince 9 (λ _, background) demo_first, ApplySince 9 (λ _, background) demo_second with
  | Done (_, (a, _, _)), Done (r3, (b, _, None)) =>
      ∃ c, (a ≤ c)%nat ∧ Z.of_nat c ≤ Z.of_nat a + batchSize demo_first
        ∧ seen (r_projector r3) = take c (log (r_store demo_first)) ++ drop a (log (r_store demo_first))
        ∧ b = (length (log (r_store demo_first)) - a)%nat
  | _, _ => False
  end.
Proof.
  assert (match ApplySince 9 (λ _, background) demo_first with Done _ => true | Panic _ => false end = true) as H1
    by by vm_compute.
  assert (match ApplySince 9 (λ _, background) demo_second with Done (_, (_, e)) => e | Panic _ => Some empty_name end = None)
    as H2 by by vm_compute.
  destruct (ApplySince 9 (λ _, background) demo_first) as [[r1 [[a lv] err]]|] eqn:E1; [|discriminate H1].
  assert (r1 = demo_stopped) as -> by (unfold demo_stopped; by rewrite E1).
  destruct (ApplySince 9 (λ _, background) demo_second) as [[r3 [[b lv'] err']]|] eqn:E2; [|discriminate H2].
  subst err'.
  apply (projection_survives_restart 9 1 demo_first demo_stopped demo_second r3 a lv err b lv' demo_works);
    [|done|exact E1|exact demo_restarted|exact E2]. vm_compute. lia.
Defined.
