(* ===== verification/Metrics.v ===== *)
(** * Prometheus metrics (src/observability/metrics: collector.go, adapter.go)

    The descriptors, their registration, what each recording operation does to
    the vectors, and the adapter the manager reports to.  The registry is a
    parameter with the documented behaviour of [Register] ([RegistryLaws]); a
    recording operation is the list of calls it makes on its vectors, and the
    value of a counter is what the calls add up to.  Sums of float64 are exact
    below 2^53; durations stay in nanoseconds, buckets are in units of 1/10000.
    Help texts and HTTP handlers are left out. *)
From S2P Require Import Prelude Types Errors Versions StateMachine SyncState Interfaces Detect Manager.
From S2P Require MemStore MemChan Convergence.
From stdpp Require Import options.

Abbreviation Labels := (gmap string string).
Inductive Kind := CounterVec | GaugeVec | HistogramVec (buckets : list Z).
(** A gauge without labels is a [GaugeVec] with none. *)
Record Desc := mkDesc {
  Subsystem : string; Name : string; ConstLabels : Labels; kind : Kind; variable : list string
}.
Definition Namespace : string := "synckit".
Definition fq_name (d : Desc) : string := Namespace +:+ "_" +:+ Subsystem d +:+ "_" +:+ Name d.
#[export] Instance Kind_eq_dec : EqDecision Kind.
Proof. solve_decision. Defined.
#[export] Instance Desc_eq_dec : EqDecision Desc.
Proof. solve_decision. Defined.

(** [Register] of a registry. *)
Class Registry (R : Type) := {
  NewRegistry : R;
  Register : Desc → R → result error R
}.

Section collector.
Context {R : Type} {RG : Registry R}.

Record SyncKitMetrics := mkMetrics { registry : R; labels : Labels }.
Inductive MetricsOption := WithRegistry (r : R) | WithLabels (l : Labels).
Definition apply_option (m : SyncKitMetrics) (o : MetricsOption) : SyncKitMetrics :=
  match o with
  | WithRegistry r => mkMetrics r (labels m)
  | WithLabels l => mkMetrics (registry m) (l ∪ labels m)
  end.

(** ** The vectors *)
Implicit Type l : Labels.
Definition DefBuckets : list Z := [50; 100; 250; 500; 1000; 2500; 5000; 10000; 25000; 50000; 100000].
Definition syncOpsTotal l := mkDesc "sync" "operations_total" l CounterVec ["operation"; "status"].
Definition syncOpsDuration l := mkDesc "sync" "operation_duration_seconds" l (HistogramVec DefBuckets) ["operation"].
Definition syncEventsProcessed l := mkDesc "sync" "events_processed_total" l CounterVec ["operation"; "direction"].
Definition syncConflictsTotal l := mkDesc "sync" "conflicts_total" l CounterVec ["strategy"; "resolution"].
Definition syncErrorsTotal l := mkDesc "sync" "errors_total" l CounterVec ["operation"; "error_type"].
Definition syncLastSuccess l := mkDesc "sync" "last_success_timestamp" l GaugeVec ["operation"].
Definition initSyncMetrics l : list Desc :=
  [syncOpsTotal l; syncOpsDuration l; syncEventsProcessed l; syncConflictsTotal l; syncErrorsTotal l; syncLastSuccess l].

Definition transportOpsTotal l :=
  mkDesc "transport" "operations_total" l CounterVec ["protocol"; "operation"; "status"].
Definition transportDuration l :=
  mkDesc "transport" "operation_duration_seconds" l
    (HistogramVec [10; 50; 100; 250; 500; 1000; 2500; 5000; 10000; 25000; 50000]) ["protocol"; "operation"].
Definition transportBytesTotal l := mkDesc "transport" "bytes_total" l CounterVec ["protocol"; "direction"].
Definition transportErrorsTotal l :=
  mkDesc "transport" "errors_total" l CounterVec ["protocol"; "operation"; "error_type"].
Definition initTransportMetrics l : list Desc :=
  [transportOpsTotal l; transportDuration l; transportBytesTotal l; transportErrorsTotal l].

Definition storageOpsTotal l := mkDesc "storage" "operations_total" l CounterVec ["backend"; "operation"; "status"].
Definition storageDuration l :=
  mkDesc "storage" "operation_duration_seconds" l
    (HistogramVec [1; 5; 10; 50; 100; 250; 500; 1000; 2500; 5000; 10000]) ["backend"; "operation"].
Definition storageErrorsTotal l := mkDesc "storage" "errors_total" l CounterVec ["backend"; "operation"; "error_type"].
Definition initStorageMetrics l : list Desc := [storageOpsTotal l; storageDuration l; storageErrorsTotal l].

Definition conflictOpsTotal l := mkDesc "conflict" "operations_total" l CounterVec ["strategy"; "result"].
Definition conflictDuration l :=
  mkDesc "conflict" "resolution_duration_seconds" l
    (HistogramVec [1; 5; 10; 50; 100; 250; 500; 1000; 2500; 5000]) ["strategy"].
Definition initConflictMetrics l : list Desc := [conflictOpsTotal l; conflictDuration l].

Definition projectionOpsTotal l :=
  mkDesc "projection" "operations_total" l CounterVec ["projection"; "operation"; "status"].
Definition projectionOpsDuration l :=
  mkDesc "projection" "operation_duration_seconds" l
    (HistogramVec [10; 50; 100; 250; 500; 1000; 2500; 5000; 10000; 25000; 50000; 100000]) ["projection"; "operation"].
Definition projectionEventsProcessed l :=
  mkDesc "projection" "events_processed_total" l CounterVec ["projection"; "operation"].
Definition projectionBatchSize l :=
  mkDesc "projection" "batch_size" l
    (HistogramVec [10000; 50000; 100000; 250000; 500000; 1000000; 2500000; 5000000; 10000000; 20000000]) ["projection"].
Definition projectionErrorsTotal l :=
  mkDesc "projection" "errors_total" l CounterVec ["projection"; "operation"; "error_type"].
Definition projectionLastSuccess l :=
  mkDesc "projection" "last_success_timestamp" l GaugeVec ["projection"; "operation"].
Definition projectionLag l := mkDesc "projection" "lag_seconds" l GaugeVec ["projection"].
Definition projectionHealth l := mkDesc "projection" "health" l GaugeVec ["projection"].
Definition initProjectionMetrics l : list Desc :=
  [projectionOpsTotal l; projectionOpsDuration l; projectionEventsProcessed l; projectionBatchSize l;
   projectionErrorsTotal l; projectionLastSuccess l; projectionLag l; projectionHealth l].

Definition activeConnections l := mkDesc "system" "active_connections" l GaugeVec [].
Definition memoryUsage l := mkDesc "system" "memory_usage_bytes" l GaugeVec [].
Definition goroutines l := mkDesc "system" "goroutines" l GaugeVec [].
Definition initSystemMetrics l : list Desc := [activeConnections l; memoryUsage l; goroutines l].

(** ** Registration *)
Fixpoint MustRegister (ds : list Desc) (r : R) : outcome R :=
  match ds with
  | [] => Done r
  | d :: ds => match Register d r with
               | Ok r => MustRegister ds r
               | Err e => Panic (error_string e)
               end
  end.
Definition all_metrics l : list Desc :=
  initSyncMetrics l ++ initTransportMetrics l ++ initStorageMetrics l ++ initConflictMetrics l
  ++ initProjectionMetrics l ++ initSystemMetrics l.
Definition registerMetrics (m : SyncKitMetrics) : outcome SyncKitMetrics :=
  let* r := MustRegister (all_metrics (labels m)) (registry m) in
  Done (mkMetrics r (labels m)).
Definition NewMetrics (serviceName : string) (opts : list MetricsOption) : outcome SyncKitMetrics :=
  registerMetrics (fold_left apply_option opts (mkMetrics NewRegistry {["service" := serviceName]})).

(** ** Recording *)
Inductive Call :=
  | Inc (d : Desc) (values : list string)
  | Add (d : Desc) (values : list string) (n : Z)
  | Observe (d : Desc) (values : list string) (v : Z)
  | SetTo (d : Desc) (values : list string) (v : Z)
  | SetToCurrentTime (d : Desc) (values : list string).
Implicit Type m : SyncKitMetrics.

Definition status_of (success : bool) : string := if success then "success" else "error".
Definition RecordSyncOperation (operation : string) (duration : Z) (success : bool)
    (eventsPushed eventsPulled conflictsResolved : Z) m : list Call :=
  [Inc (syncOpsTotal (labels m)) [operation; status_of success];
   Observe (syncOpsDuration (labels m)) [operation] duration]
  ++ (if 0 <? eventsPushed then [Add (syncEventsProcessed (labels m)) [operation; "push"] eventsPushed] else [])
  ++ (if 0 <? eventsPulled then [Add (syncEventsProcessed (labels m)) [operation; "pull"] eventsPulled] else [])
  ++ (if 0 <? conflictsResolved then [Add (syncConflictsTotal (labels m)) ["auto"; "resolved"] conflictsResolved] else [])
  ++ (if success then [SetToCurrentTime (syncLastSuccess (labels m)) [operation]] else []).
Definition RecordSyncError (operation errorType : string) m : list Call :=
  [Inc (syncErrorsTotal (labels m)) [operation; errorType]].
Definition RecordTransportOperation (protocol operation : string) (duration : Z) (success : bool)
    (bytesTransferred : Z) m : list Call :=
  [Inc (transportOpsTotal (labels m)) [protocol; operation; status_of success];
   Observe (transportDuration (labels m)) [protocol; operation] duration]
  ++ (if 0 <? bytesTransferred then
        let direction := if bool_decide (operation = "push") then "send"
                         else if bool_decide (operation = "pull") then "receive" else "unknown" in
        [Add (transportBytesTotal (labels m)) [protocol; direction] bytesTransferred]
      else []).
Definition RecordTransportError (protocol operation errorType : string) m : list Call :=
  [Inc (transportErrorsTotal (labels m)) [protocol; operation; errorType]].
Definition RecordStorageOperation (backend operation : string) (duration : Z) (success : bool) m : list Call :=
  [Inc (storageOpsTotal (labels m)) [backend; operation; status_of success];
   Observe (storageDuration (labels m)) [backend; operation] duration].
Definition RecordStorageError (backend operation errorType : string) m : list Call :=
  [Inc (storageErrorsTotal (labels m)) [backend; operation; errorType]].
Definition RecordConflictResolution (strategy : string) (duration : Z) (res : string) m : list Call :=
  [Inc (conflictOpsTotal (labels m)) [strategy; res]; Observe (conflictDuration (labels m)) [strategy] duration].
Definition RecordProjectionOperation (projection operation : string) (duration : Z) (success : bool)
    (eventsProcessed : Z) m : list Call :=
  [Inc (projectionOpsTotal (labels m)) [projection; operation; status_of success];
   Observe (projectionOpsDuration (labels m)) [projection; operation] duration]
  ++ (if 0 <? eventsProcessed then
        [Add (projectionEventsProcessed (labels m)) [projection; operation] eventsProcessed;
         Observe (projectionBatchSize (labels m)) [projection] eventsProcessed]
      else [])
  ++ (if success then [SetToCurrentTime (projectionLastSuccess (labels m)) [projection; operation];
                       SetTo (projectionHealth (labels m)) [projection] 1] else []).
Definition RecordProjectionError (projection operation errorType : string) m : list Call :=
  [Inc (projectionErrorsTotal (labels m)) [projection; operation; errorType];
   SetTo (projectionHealth (labels m)) [projection] 0].
Definition UpdateProjectionLag (projection : string) (lag : Z) m : list Call :=
  [SetTo (projectionLag (labels m)) [projection] lag].
Definition SetProjectionHealth (projection : string) (healthy : bool) m : list Call :=
  [SetTo (projectionHealth (labels m)) [projection] (if healthy then 1 else 0)].
Definition SetActiveConnections (count : Z) m : list Call := [SetTo (activeConnections (labels m)) [] count].
Definition SetMemoryUsage (bytes : Z) m : list Call := [SetTo (memoryUsage (labels m)) [] bytes].
Definition SetGoroutines (count : Z) m : list Call := [SetTo (goroutines (labels m)) [] count].
(** [UpdateSystemMetrics] has no body. *)
Definition UpdateSystemMetrics m : list Call := [].

(** ** The adapter for the manager

    The manager's calls ([Manager.MetricCall]) carry no durations: [dur] gives
    the one of each. *)
Definition Adapter_RecordSyncDuration (operation : string) (duration : Z) m : list Call :=
  RecordSyncOperation operation duration true 0 0 0 m.
Definition Adapter_RecordSyncEvents (pushed pulled : Z) m : list Call :=
  RecordSyncOperation "sync" 0 true pushed pulled 0 m.
Definition Adapter_RecordSyncErrors (operation errorType : string) m : list Call :=
  RecordSyncError operation errorType m.
Definition Adapter_RecordConflicts (resolved : Z) m : list Call :=
  RecordSyncOperation "sync" 0 true 0 0 resolved m.
Definition adapt (m : SyncKitMetrics) (dur : Z) (c : MetricCall) : list Call :=
  match c with
  | RecordSyncDuration op => Adapter_RecordSyncDuration op dur m
  | RecordSyncEvents pushed pulled => Adapter_RecordSyncEvents (Z.of_nat pushed) (Z.of_nat pulled) m
  | RecordSyncErrors op reason => Adapter_RecordSyncErrors op reason m
  | RecordConflicts n => Adapter_RecordConflicts (Z.of_nat n) m
  end.
(** ** The extended adapter hands every recording on. *)
Inductive ExtendedCall :=
  | XSyncDuration (operation : string) (duration : Z)
  | XSyncEvents (pushed pulled : Z)
  | XSyncErrors (operation errorType : string)
  | XConflicts (resolved : Z)
  | XSyncOperationComplete (operation : string) (duration : Z) (success : bool) (pushed pulled resolved : Z)
  | XTransportOperation (protocol operation : string) (duration : Z) (success : bool) (bytes : Z)
  | XStorageOperation (backend operation : string) (duration : Z) (success : bool)
  | XConflictResolution (strategy : string) (duration : Z) (res : string)
  | XProjectionOperation (projection operation : string) (duration : Z) (success : bool) (events : Z)
  | XProjectionError (projection operation errorType : string)
  | XProjectionLag (projection : string) (lag : Z)
  | XProjectionHealth (projection : string) (healthy : bool)
  | XActiveConnections (count : Z)
  | XMemoryUsage (bytes : Z)
  | XGoroutines (count : Z).
Definition ExtendedAdapter (m : SyncKitMetrics) (c : ExtendedCall) : list Call :=
  match c with
  | XSyncDuration op d => Adapter_RecordSyncDuration op d m
  | XSyncEvents pushed pulled => Adapter_RecordSyncEvents pushed pulled m
  | XSyncErrors op ty => Adapter_RecordSyncErrors op ty m
  | XConflicts n => Adapter_RecordConflicts n m
  | XSyncOperationComplete op d ok p q k => RecordSyncOperation op d ok p q k m
  | XTransportOperation proto op d ok n => RecordTransportOperation proto op d ok n m
  | XStorageOperation backend op d ok => RecordStorageOperation backend op d ok m
  | XConflictResolution strategy d res => RecordConflictResolution strategy d res m
  | XProjectionOperation p op d ok n => RecordProjectionOperation p op d ok n m
  | XProjectionError p op ty => RecordProjectionError p op ty m
  | XProjectionLag p lag => UpdateProjectionLag p lag m
  | XProjectionHealth p ok => SetProjectionHealth p ok m
  | XActiveConnections n => SetActiveConnections n m
  | XMemoryUsage n => SetMemoryUsage n m
  | XGoroutines n => SetGoroutines n m
  end.
Fixpoint adapt_all (m : SyncKitMetrics) (dur : nat → Z) (cs : list MetricCall) : list Call :=
  match cs with [] => [] | c :: cs => adapt m (dur 0%nat) c ++ adapt_all m (λ n, dur (S n)) cs end.
End collector.
Arguments SyncKitMetrics : clear implicits.

(** The value of a counter after some calls. *)
Definition adds (d : Desc) (values : list string) (c : Call) : Z :=
  match c with
  | Inc d' v => if decide (d' = d ∧ v = values) then 1 else 0
  | Add d' v n => if decide (d' = d ∧ v = values) then n else 0
  | _ => 0
  end.
Definition counter (d : Desc) (values : list string) (cs : list Call) : Z :=
  foldr (λ c n, adds d values c + n) 0 cs.
Lemma counter_app d v cs cs' : counter d v (cs ++ cs') = counter d v cs + counter d v cs'.
Proof.
  induction cs as [|c cs IH]; [done|].
  change (adds d v c + counter d v (cs ++ cs') = adds d v c + counter d v cs + counter d v cs'). lia.
Qed.

(** ** What a registry promises

    A descriptor needs distinct label names, and is refused beside one of its
    name with the same constant labels or with other label names. *)
Definition label_names (d : Desc) : list string := (map_to_list (ConstLabels d)).*1 ++ variable d.
Definition consistent (d : Desc) : Prop := NoDup (label_names d).
Definition conflicts (d d' : Desc) : Prop :=
  fq_name d = fq_name d' ∧ (ConstLabels d = ConstLabels d' ∨ ¬ label_names d ≡ₚ label_names d').
Class RegistryLaws (R : Type) {RG : Registry R} := {
  registered : R → list Desc;
  new_empty : registered NewRegistry = [];
  register_ok : ∀ d r, consistent d → (∀ d', d' ∈ registered r → ¬ conflicts d d') → ∃ r', Register d r = Ok r';
  register_adds : ∀ d r r', Register d r = Ok r' → registered r' = d :: registered r;
  register_refused : ∀ d r, ¬ consistent d ∨ (∃ d', d' ∈ registered r ∧ conflicts d d') →
    ∃ e, Register d r = Err e
}.

Lemma append_cancel (a b c : string) : a +:+ b = a +:+ c → b = c.
Proof. induction a as [|x a IH]; [done|]. intros H. apply IH. by injection H. Qed.
Definition used_names : list string :=
  ["operation"; "status"; "direction"; "strategy"; "resolution"; "error_type"; "protocol"; "backend"; "result"; "projection"].

Section laws.
Context {R : Type} {RG : Registry R} {RL : RegistryLaws R}.
Implicit Types (l : Labels) (m : SyncKitMetrics R).

(** The descriptors differ in their names and have no label of their own twice. *)
Lemma all_names_distinct l : NoDup (fq_name <$> all_metrics l).
Proof. apply (bool_decide_unpack _). by vm_compute. Qed.
Lemma all_labels_known l d : d ∈ all_metrics l → ConstLabels d = l ∧ NoDup (variable d) ∧ variable d ⊆ used_names.
Proof.
  intros Hd. unfold all_metrics in Hd. cbn in Hd.
  repeat (apply elem_of_cons in Hd as [->|Hd]; [split; [done|]; split; by apply (bool_decide_unpack _); vm_compute|]).
  by apply elem_of_nil in Hd.
Qed.
Definition relabel l (d : Desc) : Desc := mkDesc (Subsystem d) (Name d) l (kind d) (variable d).
Lemma NoDup_fmap_inj {X Y} (f : X → Y) xs x y : NoDup (f <$> xs) → x ∈ xs → y ∈ xs → f x = f y → x = y.
Proof.
  intros Hn [i Hi]%list_elem_of_lookup [j Hj]%list_elem_of_lookup Heq.
  assert (i = j) as ->; [|congruence]. apply (NoDup_lookup _ i j (f x) Hn); rewrite list_lookup_fmap; [by rewrite Hi|].
  by rewrite Hj, Heq.
Qed.
Lemma same_name_same_variables l l' d d' :
  d ∈ all_metrics l → d' ∈ all_metrics l' → fq_name d = fq_name d' → variable d = variable d'.
Proof.
  intros Hd Hd' Hfq. change (all_metrics l') with (relabel l' <$> all_metrics l) in Hd'.
  apply list_elem_of_fmap in Hd' as (d0 & -> & Hd0).
  by rewrite (NoDup_fmap_inj fq_name (all_metrics l) d d0 (all_names_distinct l) Hd Hd0 Hfq).
Qed.
Definition free_labels l : Prop := ∀ n, n ∈ used_names → l !! n = None.
Lemma all_consistent l d : free_labels l → d ∈ all_metrics l → consistent d.
Proof.
  intros Hl (<- & Hnd & Hsub)%all_labels_known. unfold consistent, label_names. apply NoDup_app.
  split; [apply NoDup_fst_map_to_list|]. split; [|done]. intros n Hn Hv.
  apply list_elem_of_fmap in Hn as ([n' v] & -> & Hin%elem_of_map_to_list). cbn in Hv.
  rewrite Hl in Hin by (by apply Hsub). done.
Qed.

Lemma MustRegister_ok ds r : Forall consistent ds → NoDup (fq_name <$> ds) →
  (∀ d d', d ∈ ds → d' ∈ registered r → ¬ conflicts d d') →
  ∃ r', MustRegister ds r = Done r' ∧ registered r' = reverse ds ++ registered r.
Proof.
  revert r. induction ds as [|d ds IH]; intros r Hc Hn Hr; [by eexists|].
  apply Forall_cons in Hc as [Hd Hc]. rewrite fmap_cons in Hn. apply NoDup_cons in Hn as [Hd2 Hn].
  destruct (register_ok d r Hd) as [r1 H1]; [intros; apply Hr; [left|done]|].
  pose proof (register_adds d r r1 H1) as H2.
  cbn [MustRegister]. rewrite H1. destruct (IH r1) as (r2 & H3 & H4); [done|done| |].
  - intros d1 d' Hd1. rewrite H2. intros [->|Hd']%elem_of_cons; [|apply Hr; [by right|done]].
    intros [Hfq _]. apply Hd2. rewrite <-Hfq. by apply list_elem_of_fmap_2.
  - exists r2. split; [done|]. by rewrite H4, H2, reverse_cons, <-app_assoc.
Qed.
Lemma MustRegister_panics ds r :
  (∃ d, d ∈ ds ∧ (¬ consistent d ∨ ∃ d', d' ∈ registered r ∧ conflicts d d')) → ∃ why, MustRegister ds r = Panic why.
Proof using RL.
  revert r. induction ds as [|d ds IH]; intros r (d0 & Hin & Hbad); [by apply elem_of_nil in Hin|].
  cbn [MustRegister]. destruct (Register d r) as [r1|e] eqn:E; [|by eexists].
  apply elem_of_cons in Hin as [->|Hin].
  - destruct (register_refused d r Hbad) as [e He]. by rewrite He in E.
  - apply IH. exists d0. split; [done|]. destruct Hbad as [Hbad|(d' & Hd' & Hc)]; [by left|right].
    exists d'. split; [|done]. rewrite (register_adds d r r1 E). by right.
Qed.

(** Remark: a second collector on one registry: with the name of another service
    it registers all its metrics beside those of the first, with the same name
    making it panics. *)
Theorem second_collector (s1 s2 : string) :
  ∃ m1, NewMetrics (R := R) s1 [] = Done m1
    ∧ registered (registry m1) = reverse (all_metrics {["service" := s1]})
    ∧ if decide (s1 = s2) then ∃ why, NewMetrics s2 [WithRegistry (registry m1)] = Panic why
      else ∃ m2, NewMetrics s2 [WithRegistry (registry m1)] = Done m2
             ∧ registered (registry m2) = reverse (all_metrics {["service" := s2]}) ++ registered (registry m1).
Proof using RL.
  assert (∀ s, free_labels {["service" := s]}) as Hfree.
  { intros s n Hn. apply lookup_singleton_ne. intros <-. revert Hn. apply (bool_decide_unpack _). by vm_compute. }
  assert (∀ s, Forall consistent (all_metrics {["service" := s]})) as Hcons.
  { intros s. apply Forall_forall. intros d. by apply all_consistent. }
  unfold NewMetrics, registerMetrics. cbn [fold_left apply_option labels registry].
  destruct (MustRegister_ok (all_metrics {["service" := s1]}) NewRegistry (Hcons s1) (all_names_distinct _))
    as (r1 & -> & Hr1); [intros d d' _; rewrite new_empty; by intros ?%elem_of_nil|]. cbn [obind].
  eexists. split; [reflexivity|]. cbn [registry labels]. rewrite new_empty, app_nil_r in Hr1. split; [done|].
  destruct (decide (s1 = s2)) as [<-|Hne].
  - destruct (MustRegister_panics (all_metrics {["service" := s1]}) r1) as [why ->]; [|by eexists].
    exists (syncOpsTotal {["service" := s1]}). split; [left|]. right. exists (syncOpsTotal {["service" := s1]}).
    split; [|split; [done|by left]]. rewrite Hr1, elem_of_reverse. left.
  - destruct (MustRegister_ok (all_metrics {["service" := s2]}) r1 (Hcons s2) (all_names_distinct _)) as (r2 & -> & Hr2).
    { intros d d' Hd. rewrite Hr1, elem_of_reverse. intros Hd' [Hfq Hc].
      pose proof (all_labels_known _ _ Hd) as (Hl & _). pose proof (all_labels_known _ _ Hd') as (Hl' & _).
      assert (variable d = variable d') as Hv by by apply (same_name_same_variables {["service" := s2]} {["service" := s1]}).
      destruct Hc as [Hc|Hc].
      - rewrite Hl, Hl' in Hc. apply Hne. apply (f_equal (lookup "service")) in Hc. rewrite !lookup_singleton_eq in Hc. congruence.
      - apply Hc. unfold label_names. rewrite Hl, Hl', Hv, !map_to_list_singleton. done. }
    cbn [obind]. eexists. split; [reflexivity|]. cbn [registry]. done.
Qed.

(** Remark: a constant label with the name of one of the collector's own makes
    [NewMetrics] panic, whatever its value and the rest of the configuration. *)
Lemma own_label_panics s n v r : n ∈ used_names →
  ∃ why, NewMetrics s [WithRegistry r; WithLabels {[n := v]}] = Panic why.
Proof using RL.
  intros Hn. unfold NewMetrics, registerMetrics. cbn [fold_left apply_option labels registry].
  set (l := {[n := v]} ∪ {["service" := s]}).
  destruct (MustRegister_panics (all_metrics l) r) as [why ->]; [|by eexists].
  assert (∃ d, d ∈ all_metrics l ∧ n ∈ variable d) as (d & Hd & Hv).
  { unfold used_names in Hn.
    assert (Forall (λ n, Exists (λ d, n ∈ variable d) (all_metrics l)) used_names) as Hall
      by (apply (bool_decide_unpack _); by vm_compute).
    rewrite Forall_forall in Hall. apply Exists_exists. by apply Hall. }
  exists d. split; [done|]. left. unfold consistent, label_names. intros (_ & Hdis & _)%NoDup_app.
  apply (Hdis n); [|done]. apply list_elem_of_fmap. exists (n, v). split; [done|]. apply elem_of_map_to_list.
  apply all_labels_known in Hd as [-> _]. unfold l. by rewrite lookup_union, lookup_singleton_eq, union_Some_l.
Qed.

(** ** Recording never panics *)

(** A call names a vector of the collector, gives a value for each label and
    adds no negative number. *)
Definition well_formed m (c : Call) : Prop :=
  match c with
  | Inc d v => d ∈ all_metrics (labels m) ∧ kind d = CounterVec ∧ length v = length (variable d)
  | Add d v n => d ∈ all_metrics (labels m) ∧ kind d = CounterVec ∧ length v = length (variable d) ∧ 0 ≤ n
  | Observe d v _ => d ∈ all_metrics (labels m) ∧ (∃ b, kind d = HistogramVec b) ∧ length v = length (variable d)
  | SetTo d v _ | SetToCurrentTime d v => d ∈ all_metrics (labels m) ∧ kind d = GaugeVec ∧ length v = length (variable d)
  end.

Ltac well_formed_calls :=
  repeat case_match; zbool; cbn [app];
  repeat (apply Forall_cons; split); try apply Forall_nil; cbn [well_formed];
  repeat split; try (by eexists); try lia;
  unfold all_metrics; cbn [initSyncMetrics initTransportMetrics initStorageMetrics initConflictMetrics
    initProjectionMetrics initSystemMetrics app];
  repeat (apply elem_of_cons; first [left; reflexivity | right]).

(** Remark: no recording can panic: each call names a vector of the collector and
    gives as many values as it has labels, and counters only grow, whatever the
    arguments, negative ones included. *)
Lemma recordings_well_formed m a b c t ok n n2 n3 :
  Forall (Forall (well_formed m))
    [RecordSyncOperation a t ok n n2 n3 m; RecordSyncError a b m; RecordTransportOperation a b t ok n m;
     RecordTransportError a b c m; RecordStorageOperation a b t ok m; RecordStorageError a b c m;
     RecordConflictResolution a t b m; RecordProjectionOperation a b t ok n m; RecordProjectionError a b c m;
     UpdateProjectionLag a t m; SetProjectionHealth a ok m; SetActiveConnections n m; SetMemoryUsage n m;
     SetGoroutines n m; UpdateSystemMetrics m].
Proof.
  repeat (apply Forall_cons; split); try apply Forall_nil.
  all: unfold RecordSyncOperation, RecordSyncError, RecordTransportOperation, RecordTransportError, RecordStorageOperation,
    RecordStorageError, RecordConflictResolution, RecordProjectionOperation, RecordProjectionError,
    UpdateProjectionLag, SetProjectionHealth, SetActiveConnections, SetMemoryUsage, SetGoroutines, UpdateSystemMetrics.
  all: well_formed_calls.
Qed.
(** Remark: nothing that is recorded through the extended adapter can panic. *)
Theorem ExtendedAdapter_well_formed m c : Forall (well_formed m) (ExtendedAdapter m c).
Proof.
  destruct c as [op d|pushed pulled|op ty|k|op d ok p q k|proto op d ok n|backend op d ok|strategy d res
    |p op d ok n|p op ty|p lag|p ok|n|n|n]; cbn [ExtendedAdapter];
    unfold Adapter_RecordSyncDuration, Adapter_RecordSyncEvents, Adapter_RecordSyncErrors, Adapter_RecordConflicts,
    RecordSyncOperation, RecordSyncError, RecordTransportOperation, RecordStorageOperation, RecordConflictResolution,
    RecordProjectionOperation, RecordProjectionError, UpdateProjectionLag, SetProjectionHealth, SetActiveConnections,
    SetMemoryUsage, SetGoroutines; well_formed_calls.
Qed.
End laws.

(** ** The adapter's counters *)
Section adapter.
Context {R : Type}.
Implicit Types (m : SyncKitMetrics R).

Lemma counter_cons d v c cs : counter d v (c :: cs) = adds d v c + counter d v cs.
Proof. done. Qed.
Lemma counter_guard d v d' v' n : 0 ≤ n →
  counter d v (if 0 <? n then [Add d' v' n] else []) = if decide (d' = d ∧ v' = v) then n else 0.
Proof.
  intros Hn. destruct (Z.ltb_spec 0 n); [cbn -[decide]; case_decide; lia|].
  cbn -[decide]. case_decide; lia.
Qed.
(** What one operation adds to the counters of events, conflicts and operations. *)
Lemma RecordSyncOperation_counts m op t ok p q k : 0 ≤ p → 0 ≤ q → 0 ≤ k →
  let calls := RecordSyncOperation op t ok p q k m in
  (∀ op', counter (syncEventsProcessed (labels m)) [op'; "push"] calls = if decide (op = op') then p else 0)
  ∧ (∀ op', counter (syncEventsProcessed (labels m)) [op'; "pull"] calls = if decide (op = op') then q else 0)
  ∧ counter (syncConflictsTotal (labels m)) ["auto"; "resolved"] calls = k
  ∧ (∀ op' st, counter (syncOpsTotal (labels m)) [op'; st] calls
               = if decide (op = op' ∧ st = status_of ok) then 1 else 0).
Proof.
  intros Hp Hq Hk. cbv zeta. unfold RecordSyncOperation.
  split_and!; intros; rewrite !counter_app, !counter_guard by done; destruct ok; cbn -[decide status_of];
    unfold syncOpsTotal, syncEventsProcessed, syncConflictsTotal in *; repeat case_decide; naive_solver lia.
Qed.

Definition pushed_in (cs : list MetricCall) : nat :=
  foldr (λ c n, (match c with RecordSyncEvents p _ => p | _ => 0 end + n)%nat) 0%nat cs.
Definition pulled_in (cs : list MetricCall) : nat :=
  foldr (λ c n, (match c with RecordSyncEvents _ p => p | _ => 0 end + n)%nat) 0%nat cs.
Definition conflicts_in (cs : list MetricCall) : nat :=
  foldr (λ c n, (match c with RecordConflicts k => k | _ => 0 end + n)%nat) 0%nat cs.

(** The events and conflicts the manager reports end up in the counters; no
    operation is ever counted as failed. *)
Lemma adapt_counts m dur cs (op : string) :
  let calls := adapt_all m dur cs in
  counter (syncEventsProcessed (labels m)) ["sync"; "push"] calls = Z.of_nat (pushed_in cs)
  ∧ counter (syncEventsProcessed (labels m)) ["sync"; "pull"] calls = Z.of_nat (pulled_in cs)
  ∧ counter (syncConflictsTotal (labels m)) ["auto"; "resolved"] calls = Z.of_nat (conflicts_in cs)
  ∧ counter (syncOpsTotal (labels m)) [op; "error"] calls = 0.
Proof.
  cbv zeta. revert dur. induction cs as [|c cs IH]; intros dur; [done|]. cbn [adapt_all].
  destruct (IH (λ n, dur (S n))) as (IH1 & IH2 & IH3 & IH4). rewrite !counter_app, IH1, IH2, IH3, IH4.
  unfold pushed_in, pulled_in, conflicts_in.
  destruct c as [o|p q|o reason|n]; cbn [adapt foldr].
  all: unfold Adapter_RecordSyncDuration, Adapter_RecordSyncEvents, Adapter_RecordConflicts.
  3: split_and!; cbn -[decide]; rewrite decide_False by naive_solver; lia.
  all: match goal with |- context [RecordSyncOperation ?o ?t ?ok ?p ?q ?k ?m'] =>
         destruct (RecordSyncOperation_counts m' o t ok p q k) as (H1 & H2 & H3 & H4); [lia..|] end.
  all: rewrite H1, H2, H3, H4; cbn [status_of]; rewrite (decide_False (P := _ ∧ _)) by (by intros [_ ?]).
  all: split_and!; try (case_decide; try done); lia.
Qed.
End adapter.

(** ** What the metrics of the manager add up to

    Every operation of the manager appends calls to the metrics; between the
    deferred ones only errors are recorded. *)
Section manager.
Context {St T : Type} {ES : EventStore St} {TR : Transport T} {MR : MapRange} {TT : TimeText}.
Notation M := (M St T).

(** [cs] records these totals. *)
Definition totals (cs : list MetricCall) (pushed pulled conflicts : nat) : Prop :=
  pushed_in cs = pushed ∧ pulled_in cs = pulled ∧ conflicts_in cs = conflicts.
Lemma totals_app cs cs' p q k p' q' k' :
  totals cs p q k → totals cs' p' q' k' → totals (cs ++ cs') (p + p')%nat (q + q')%nat (k + k')%nat.
Proof.
  intros (H1 & H2 & H3) (H1' & H2' & H3'). subst. unfold totals, pushed_in, pulled_in, conflicts_in.
  rewrite !foldr_app. clear. induction cs as [|c cs (IH1 & IH2 & IH3)]; [done|]. cbn [foldr].
  by rewrite IH1, IH2, IH3, !Nat.add_assoc.
Qed.

(** [m] appends calls with property [P] of its result. *)
Definition appends {A} (m : M A) (P : A → list MetricCall → Prop) : Prop :=
  ∀ env w w' a, m env w = Done (w', a) → ∃ cs, w_metrics w' = w_metrics w ++ cs ∧ P a cs.
Abbreviation no_counts m := (appends m (λ _ cs, totals cs 0 0 0)).

Lemma appends_weaken {A} (m : M A) (P Q : A → list MetricCall → Prop) :
  appends m P → (∀ a cs, P a cs → Q a cs) → appends m Q.
Proof. intros Hm HPQ env w w' a (cs & Hw & Hcs)%Hm. eauto. Qed.
Lemma appends_bind {A B} (m : M A) (f : A → M B) P Q :
  appends m P → (∀ a cs, P a cs → appends (f a) (λ b cs', Q b (cs ++ cs'))) → appends (mbind m f) Q.
Proof.
  intros Hm Hf env w w' b Hrun. unfold mbind in Hrun. destruct (m env w) as [[w1 a]|] eqn:E; [|done].
  destruct (Hm _ _ _ _ E) as (cs & Hw & HP). destruct (Hf a cs HP _ _ _ _ Hrun) as (cs' & Hw' & HQ).
  exists (cs ++ cs'). by rewrite Hw', Hw, app_assoc.
Qed.
Lemma appends_ret {A} (a : A) (P : A → list MetricCall → Prop) : P a [] → appends (mret a) P.
Proof. intros HP env w w' a' [= <- <-]. exists []. by rewrite app_nil_r. Qed.
Lemma appends_metric c (P : () → list MetricCall → Prop) : P () [c] → appends (metric c) P.
Proof. intros HP env w w' a [= <- <-]. by exists [c]. Qed.
Lemma no_counts_bind {A B} (m : M A) (f : A → M B) : no_counts m → (∀ a, no_counts (f a)) → no_counts (mbind m f).
Proof.
  intros Hm Hf. apply (appends_bind m f _ _ Hm). intros a cs Hcs. apply (appends_weaken _ _ _ (Hf a)).
  intros b cs' Hcs'. apply (totals_app _ _ _ _ _ _ _ _ Hcs Hcs').
Qed.

Lemma no_counts_lift {A} (o : outcome A) : no_counts (lift o).
Proof. intros env w w' a Hr. unfold lift in Hr. destruct o; [|done]. injection Hr as <- <-. exists []. by rewrite app_nil_r. Qed.
Lemma no_counts_now : no_counts now.
Proof. intros env w w' a [= <- <-]. exists []. by rewrite app_nil_r. Qed.
Lemma no_counts_ctx : no_counts ctx.
Proof. intros env w w' a [= <- <-]. exists []. by rewrite app_nil_r. Qed.
Lemma no_counts_poll : no_counts poll.
Proof. intros env w w' a [= <- <-]. exists []. by rewrite app_nil_r. Qed.
Lemma no_counts_get_mgr : no_counts get_mgr.
Proof. intros env w w' a [= <- <-]. exists []. by rewrite app_nil_r. Qed.
Lemma no_counts_ret {A} (a : A) : no_counts (mret a).
Proof. by apply appends_ret. Qed.
Lemma no_counts_error op reason : no_counts (metric (RecordSyncErrors op reason)).
Proof. by apply appends_metric. Qed.
Lemma no_counts_transition to md : no_counts (transition to md).
Proof.
  intros env w w' a Hr. unfold transition in Hr. destruct (stateMachine _).
  - destruct (TransitionWithContext _ _ _ _ _). injection Hr as <- <-. exists []. by rewrite app_nil_r.
  - injection Hr as <- <-. exists []. by rewrite app_nil_r.
Qed.
Lemma no_counts_on_store {A} (f : CtxView → St → outcome (St * A)) : no_counts (on_store f).
Proof.
  intros env w w' a Hr. unfold on_store in Hr. destruct (f _ _) as [[s b]|]; [|done]. injection Hr as <- <-. exists [].
  by rewrite app_nil_r.
Qed.
Lemma no_counts_ask_store {A} (f : CtxView → St → outcome A) : no_counts (ask_store f).
Proof.
  intros env w w' a Hr. unfold ask_store in Hr. destruct (f _ _); [|done]. injection Hr as <- <-. exists [].
  by rewrite app_nil_r.
Qed.
Lemma no_counts_on_transport {A} (f : CtxView → T → outcome (T * A)) : no_counts (on_transport f).
Proof.
  intros env w w' a Hr. unfold on_transport in Hr. destruct (f _ _) as [[s b]|]; [|done]. injection Hr as <- <-. exists [].
  by rewrite app_nil_r.
Qed.
Lemma no_counts_ask_transport {A} (f : CtxView → T → outcome A) : no_counts (ask_transport f).
Proof.
  intros env w w' a Hr. unfold ask_transport in Hr. destruct (f _ _); [|done]. injection Hr as <- <-. exists [].
  by rewrite app_nil_r.
Qed.
Lemma no_counts_notify r : no_counts (notifySubscribers r).
Proof. intros env w w' a [= <- <-]. exists []. by rewrite app_nil_r. Qed.
#[local] Hint Resolve no_counts_lift no_counts_now no_counts_ctx no_counts_poll no_counts_get_mgr no_counts_ret
  no_counts_error no_counts_transition no_counts_on_store no_counts_ask_store no_counts_on_transport
  no_counts_ask_transport no_counts_notify : counts.
Ltac counts_steps :=
  repeat first [solve [eauto with counts] | progress case_match | apply no_counts_bind; [|intros ?]].

Lemma no_counts_transport_failure op e : no_counts (transport_failure op e).
Proof. unfold transport_failure. counts_steps. Qed.
Lemma no_counts_apply_filter evs : no_counts (apply_filter evs).
Proof. unfold apply_filter. counts_steps. Qed.
#[local] Hint Resolve no_counts_transport_failure no_counts_apply_filter : counts.
Lemma no_counts_push_batches bs n : no_counts (push_batches bs n).
Proof. revert n. induction bs as [|b bs IH]; intros n; cbn [push_batches]; counts_steps. Qed.
Lemma no_counts_store_events evs n : no_counts (store_events evs n).
Proof. revert n. induction evs as [|ev evs IH]; intros n; cbn [store_events]; counts_steps. Qed.
Lemma no_counts_resolve_all r cs acc : no_counts (resolve_all r cs acc).
Proof. revert acc. induction cs as [|c cs IH]; intros acc; cbn [resolve_all]; counts_steps. Qed.
#[local] Hint Resolve no_counts_push_batches no_counts_store_events no_counts_resolve_all : counts.
Lemma no_counts_resolve_conflicts r cs res : no_counts (resolve_conflicts r cs res).
Proof. unfold resolve_conflicts. counts_steps. Qed.
#[local] Hint Resolve no_counts_resolve_conflicts : counts.
Lemma no_counts_conflict_phase v evs res : no_counts (conflict_phase v evs res).
Proof. unfold conflict_phase. counts_steps. Qed.
Lemma no_counts_store_phase evs n res : no_counts (store_phase evs n res).
Proof. unfold store_phase. counts_steps. Qed.
#[local] Hint Resolve no_counts_conflict_phase no_counts_store_phase : counts.
Lemma no_counts_push_body res : no_counts (push_body res).
Proof. unfold push_body. counts_steps. Qed.
Lemma no_counts_pull_body res : no_counts (pull_body res).
Proof. unfold pull_body. counts_steps. Qed.
Lemma no_counts_wait timeout n errs : no_counts (wait_projections timeout n errs).
Proof.
  revert errs. induction n as [|n IH]; intros errs; cbn [wait_projections]; [eauto with counts|].
  intros env w w' a Hr. destruct (e_projection env (w_tick w)).
  - by apply IH in Hr.
  - injection Hr as <- <-. exists []. by rewrite app_nil_r.
Qed.
#[local] Hint Resolve no_counts_push_body no_counts_pull_body no_counts_wait : counts.
Lemma no_counts_finish res : no_counts (sync_finish res).
Proof. unfold sync_finish, runProjectionsAfterSync. counts_steps. Qed.
#[local] Hint Resolve no_counts_finish : counts.

(** Steps that count nothing before steps with given totals. *)
Lemma counts_skip {A B} (m : M A) (f : A → M B) (p q k : B → nat) (Q : B → Prop) : no_counts m →
  (∀ a, appends (f a) (λ b cs, Q b → totals cs (p b) (q b) (k b))) →
  appends (mbind m f) (λ b cs, Q b → totals cs (p b) (q b) (k b)).
Proof.
  intros Hm Hf. apply (appends_bind m f _ _ Hm). intros a cs Hcs. apply (appends_weaken _ _ _ (Hf a)).
  intros b cs' Hcs' HQ. apply (totals_app _ _ _ _ _ _ _ _ Hcs (Hcs' HQ)).
Qed.
Lemma counts_then {A B} (m : M A) (b : B) p q k : appends m (λ _ cs, totals cs p q k) →
  appends (m ;; mret b) (λ b' cs, b' = b ∧ totals cs p q k).
Proof.
  intros Hm. apply (appends_bind m _ _ _ Hm). intros a cs Hcs. apply appends_ret. by rewrite app_nil_r.
Qed.
Lemma counts_both {A B} (m : M A) (m' : M B) p q k p' q' k' : appends m (λ _ cs, totals cs p q k) →
  appends m' (λ _ cs, totals cs p' q' k') → appends (m ;; m') (λ _ cs, totals cs (p + p')%nat (q + q')%nat (k + k')%nat).
Proof.
  intros Hm Hm'. apply (appends_bind m _ _ _ Hm). intros a cs Hcs. apply (appends_weaken _ _ _ Hm').
  intros b cs' Hcs'. by apply totals_app.
Qed.
Lemma count_pushed n : appends (if Nat.ltb 0 n then metric (RecordSyncEvents n 0) else mret ()) (λ _ cs, totals cs n 0 0).
Proof. destruct n; [by apply appends_ret|]. apply appends_metric. unfold totals. cbn. by rewrite !Nat.add_0_r. Qed.
Lemma count_pulled n : appends (if Nat.ltb 0 n then metric (RecordSyncEvents 0 n) else mret ()) (λ _ cs, totals cs 0 n 0).
Proof. destruct n; [by apply appends_ret|]. apply appends_metric. unfold totals. cbn. by rewrite !Nat.add_0_r. Qed.
Lemma count_conflicts n : appends (if Nat.ltb 0 n then metric (RecordConflicts n) else mret ()) (λ _ cs, totals cs 0 0 n).
Proof. destruct n; [by apply appends_ret|]. apply appends_metric. unfold totals. cbn. by rewrite !Nat.add_0_r. Qed.
Lemma count_duration op : no_counts (metric (RecordSyncDuration op)).
Proof. by apply appends_metric. Qed.

(** [push] and [pull] record what their results say. *)
Lemma push_counts : appends push (λ x cs, totals cs (EventsPushed x.1) 0 0).
Proof.
  apply (appends_weaken _ (λ x cs, True → totals cs (EventsPushed x.1) 0 0)); [|by intros ?? H; apply H].
  unfold push. do 2 (apply counts_skip; [apply no_counts_now|intros ?]).
  apply counts_skip; [apply no_counts_push_body|intros [r err]]. apply counts_skip; [apply no_counts_now|intros ?].
  apply counts_skip; [apply count_duration|intros _].
  apply (appends_weaken _ _ _ (counts_then _ _ _ _ _ (count_pushed _))). intros x cs [-> Hcs] _. exact Hcs.
Qed.
Lemma pull_counts : appends pull (λ x cs, totals cs 0 (EventsPulled x.1) (ConflictsResolved x.1)).
Proof.
  apply (appends_weaken _ (λ x cs, True → totals cs 0 (EventsPulled x.1) (ConflictsResolved x.1))); [|by intros ?? H; apply H].
  unfold pull. do 2 (apply counts_skip; [apply no_counts_now|intros ?]).
  apply counts_skip; [apply no_counts_pull_body|intros [r err]]. apply counts_skip; [apply no_counts_now|intros ?].
  apply counts_skip; [apply count_duration|intros _].
  apply (appends_bind _ _ _ _ (count_pulled _)). intros _ cs Hcs.
  apply (appends_weaken _ _ _ (counts_then _ _ _ _ _ (count_conflicts _))). intros x cs' [-> Hcs'] _.
  pose proof (totals_app _ _ _ _ _ _ _ _ Hcs Hcs') as Ht. rewrite !Nat.add_0_r in Ht. exact Ht.
Qed.

(** A phase that ends without errors had none before, and its result says what
    it recorded on top of what the result before said. *)
Definition same_counts (r r' : SyncResult) (p q k : nat) : Prop :=
  res_Errors r' = [] → res_Errors r = [] ∧ EventsPushed r' = (EventsPushed r + p)%nat
    ∧ EventsPulled r' = (EventsPulled r + q)%nat ∧ ConflictsResolved r' = (ConflictsResolved r + k)%nat.
Definition phase_counts (r : SyncResult) (r' : SyncResult) (cs : list MetricCall) : Prop :=
  ∃ p q k, same_counts r r' p q k ∧ (res_Errors r' = [] → totals cs p q k).

Lemma add_error_some e r : res_Errors (add_error e r) ≠ [].
Proof. cbn. by intros [_ ?]%app_nil. Qed.
Lemma failed_counts e r r0 cs : phase_counts r (add_error e r0) cs.
Proof. exists 0%nat, 0%nat, 0%nat. by split; intros H%add_error_some. Qed.
Lemma sync_pull_counts r : EventsPulled r = 0%nat → ConflictsResolved r = 0%nat →
  appends (sync_pull r) (λ x cs, (res_Errors x.1 = [] → x.2 = false) ∧ phase_counts r x.1 cs).
Proof.
  intros Hq Hk. unfold sync_pull. apply (appends_bind _ _ _ _ (no_counts_transition _ _)). intros [e|] cs Hcs.
  { apply appends_ret. split; [by intros H%add_error_some|apply failed_counts]. }
  apply (appends_bind _ _ _ _ pull_counts). intros [r1 [e|]] cs' Hcs'; apply appends_ret; cbn [fst snd] in *.
  { split; [by intros H%add_error_some|apply failed_counts]. }
  split; [done|]. exists 0%nat, (EventsPulled r1), (ConflictsResolved r1). split.
  - intros Herr. cbn. rewrite Hq, Hk. by split_and!; [|lia|..].
  - intros _. rewrite app_nil_r. apply (totals_app _ _ _ _ _ _ _ _ Hcs Hcs').
Qed.
Lemma sync_pull_pushed r env w w' x : sync_pull r env w = Done (w', x) → EventsPushed x.1 = EventsPushed r.
Proof.
  unfold sync_pull, mbind. destruct (transition _ _ _ _) as [[w1 [e|]]|]; [by intros [= <- <-]| |done].
  by destruct (pull env w1) as [[w2 [r1 [e|]]]|]; [intros [= <- <-]..|].
Qed.
Lemma sync_push_counts r : EventsPushed r = 0%nat →
  appends (sync_push r) (λ x cs, (res_Errors x.1 = [] → x.2 = false) ∧ phase_counts r x.1 cs).
Proof.
  intros Hp. unfold sync_push. apply (appends_bind _ _ _ _ (no_counts_transition _ _)). intros [e|] cs Hcs.
  { apply appends_ret. split; [by intros H%add_error_some|apply failed_counts]. }
  apply (appends_bind _ _ _ _ push_counts). intros [r1 [e|]] cs' Hcs'; apply appends_ret; cbn [fst snd] in *.
  { split; [by intros H%add_error_some|apply failed_counts]. }
  split; [done|]. exists (EventsPushed r1), 0%nat, 0%nat. split.
  - intros Herr. cbn. rewrite Hp. by split_and!; [..|lia|lia].
  - intros _. rewrite app_nil_r. apply (totals_app _ _ _ _ _ _ _ _ Hcs Hcs').
Qed.
Lemma phase_counts_trans r r1 r2 cs cs' : phase_counts r r1 cs → phase_counts r1 r2 cs' → phase_counts r r2 (cs ++ cs').
Proof.
  intros (p & q & k & Hs & Ht) (p' & q' & k' & Hs' & Ht').
  exists (p + p')%nat, (q + q')%nat, (k + k')%nat. split; intros Herr; destruct (Hs' Herr) as (H1 & H2 & H3 & H4).
  - destruct (Hs H1) as (H5 & H6 & H7 & H8). split; [done|]. rewrite H2, H3, H4, H6, H7, H8. lia.
  - apply totals_app; auto.
Qed.
Lemma phase_counts_refl r cs : totals cs 0 0 0 → phase_counts r r cs.
Proof. exists 0%nat, 0%nat, 0%nat. split; [|done]. intros ?. split; [done|]. lia. Qed.

Lemma sync_finish_counts r : appends (sync_finish r) (λ r' cs, phase_counts r r' cs).
Proof.
  assert (∀ m : M SyncResult, no_counts m →
    (∀ env w w' r', m env w = Done (w', r') → same_counts r r' 0 0 0) → appends m (λ r' cs, phase_counts r r' cs)) as Hgen.
  { intros m Hm Hs env w w' r' Hr. destruct (Hm _ _ _ _ Hr) as (cs & Hw & Hcs). exists cs. split; [done|].
    exists 0%nat, 0%nat, 0%nat. split; [by eapply Hs|done]. }
  apply Hgen; [apply no_counts_finish|]. intros env w w' r' Hr. unfold sync_finish in Hr.
  assert (∀ e, same_counts r (add_error e r) 0 0 0) as Hadd by by intros e H%add_error_some.
  assert (same_counts r r 0 0 0) as Hrefl by (intros ?; split; [done|]; lia).
  assert (∀ r1 v, same_counts r r1 0 0 0 → same_counts r (set_local v r1) 0 0 0) as Hlocal by done.
  assert (∀ r1 e, same_counts r (add_error e r1) 0 0 0) as Hadd1 by by intros r1 e H%add_error_some.
  unfold mbind in Hr.
  assert (∀ r1 w1, same_counts r r1 0 0 0 → match ask_store (λ ctx, es_LatestVersion ctx) env w1 with
    | Done (w', a) => mret (match a with Err e => add_error (sync_err OpLoad "store" e) r1 | Ok v => set_local v r1 end) env w'
    | Panic why => Panic why end = Done (w', r') → same_counts r r' 0 0 0) as Hend.
  { intros r1 w1 H1 Ha. destruct (ask_store _ env w1) as [[w2 [v|e]]|]; [..|done]; injection Ha as _ <-; auto. }
  destruct (res_Errors r).
  - destruct (runProjectionsAfterSync env w) as [[w2 [e|]]|]; [..|done]; eapply Hend, Hr; auto.
  - eapply Hend, Hr; auto.
Qed.

Lemma sync_body_counts t : appends (sync_body (new_result t)) (λ r cs,
  res_Errors r = [] → totals cs (EventsPushed r) (EventsPulled r) (ConflictsResolved r)).
Proof.
  assert (appends (sync_body (new_result t)) (λ r cs, phase_counts (new_result t) r cs)) as Hb.
  2:{ apply (appends_weaken _ _ _ Hb). intros r cs (p & q & k & Hs & Ht) Herr.
      destruct (Hs Herr) as (_ & -> & -> & ->). by apply Ht. }
  unfold sync_body. apply (appends_bind _ _ _ _ no_counts_get_mgr). intros m cs0 H0.
  apply (appends_bind _ _ (λ x cs, (res_Errors x.1 = [] → x.2 = false) ∧ phase_counts (new_result t) x.1 cs
    ∧ EventsPushed x.1 = 0%nat)).
  { destruct (PushOnly (options m)).
    - apply appends_ret. split; [done|]. split; [by apply phase_counts_refl|done].
    - intros env w w' x Hr. destruct (sync_pull_counts (new_result t) eq_refl eq_refl _ _ _ _ Hr) as (cs & Hw & H1 & H2).
      exists cs. split; [done|]. split; [done|]. split; [done|]. by apply (sync_pull_pushed _ _ _ _ _ Hr). }
  intros [r1 stop] cs1 (Hstop & Hc1 & Hp1). cbn [fst snd] in *.
  assert (phase_counts (new_result t) r1 (cs0 ++ cs1)) as H01.
  { apply (phase_counts_trans _ (new_result t)); [by apply phase_counts_refl|done]. }
  destruct stop; [apply appends_ret; by rewrite app_nil_r|].
  apply (appends_bind _ _ (λ x cs, (res_Errors x.1 = [] → x.2 = false) ∧ phase_counts r1 x.1 cs)).
  { destruct (PullOnly (options m)); [|by apply sync_push_counts].
    apply appends_ret. split; [done|]. by apply phase_counts_refl. }
  intros [r2 stop] cs2 (_ & Hc2). cbn [fst snd] in *.
  destruct stop.
  - apply appends_ret. rewrite app_nil_r, app_assoc. by apply (phase_counts_trans _ r1).
  - apply (appends_weaken _ _ _ (sync_finish_counts r2)). intros r3 cs3 Hc3. rewrite !app_assoc.
    apply (phase_counts_trans _ r2); [by apply (phase_counts_trans _ r1)|done].
Qed.

Lemma sync_defer_counts r : appends (sync_defer r) (λ r' cs,
  res_Errors r' = res_Errors r ∧ EventsPushed r' = EventsPushed r ∧ EventsPulled r' = EventsPulled r
  ∧ ConflictsResolved r' = ConflictsResolved r
  ∧ (res_Errors r = [] → totals cs (EventsPushed r) (EventsPulled r) (ConflictsResolved r))).
Proof.
  unfold sync_defer. apply (appends_bind _ _ _ _ no_counts_now). intros t cs0 H0.
  set (r' := set_duration _ r). destruct (decide (res_Errors r = [])) as [Hz|Hnz].
  - rewrite bool_decide_true by done. cbn [negb].
    set (tail := (metric (RecordSyncEvents _ _) ;; _) : M ()).
    assert (appends tail (λ _ cs, totals cs (EventsPushed r) (EventsPulled r) (ConflictsResolved r))) as Htail.
    { apply (appends_weaken _ (λ _ cs, totals cs (EventsPushed r + 0)%nat (EventsPulled r + 0)%nat (0 + ConflictsResolved r)%nat));
        [|by intros ??; rewrite !Nat.add_0_r].
      apply counts_both; [|apply count_conflicts]. apply appends_metric. unfold totals. cbn. by rewrite !Nat.add_0_r. }
    clearbody tail.
    apply (appends_bind _ _ _ _ (no_counts_transition _ _)). intros ? cs1 H1.
    apply (appends_bind _ _ _ _ (no_counts_transition _ _)). intros ? cs2 H2.
    apply (appends_bind _ _ _ _ (no_counts_notify _)). intros ? cs3 H3.
    apply (appends_bind _ _ _ _ (count_duration _)). intros ? cs4 H4.
    apply (appends_weaken _ _ _ (counts_then tail r' _ _ _ Htail)). intros x cs [-> Hcs]. split_and!; try done.
    intros _. rewrite !app_assoc.
    apply (totals_app _ _ 0 0 0 _ _ _); [|done]. repeat apply (totals_app _ _ 0 0 0 0 0 0); done.
  - rewrite bool_decide_false by done. cbn [negb].
    assert (∀ (m : M ()) , no_counts m → appends (m ;; mret r') (λ x cs, x = r')) as Hret.
    { intros m Hm. apply (appends_bind _ _ _ _ Hm). intros. by apply appends_ret. }
    apply (appends_weaken _ (λ x _, x = r')); [|by intros ?? ->; split_and!].
    apply (appends_bind _ _ _ _ (no_counts_transition _ _)). intros ? cs1 H1.
    apply (appends_bind _ _ _ _ (no_counts_transition _ _)). intros ? cs2 H2.
    apply (appends_bind _ _ _ _ (no_counts_notify _)). intros ? cs3 H3.
    apply (appends_bind _ _ _ _ (count_duration _)). intros ? cs4 H4.
    apply Hret, no_counts_error.
Qed.

Lemma Sync_totals env w w' r : Sync env w = Done (w', (Some r, None)) → res_Errors r = [] →
  ∃ cs, w_metrics w' = w_metrics w ++ cs
    ∧ totals cs (2 * EventsPushed r) (2 * EventsPulled r) (2 * ConflictsResolved r).
Proof.
  intros Hrun Hok.
  enough (appends (Sync (St := St) (T := T)) (λ x cs, ∀ r, x = (Some r, None) → res_Errors r = [] →
    totals cs (2 * EventsPushed r) (2 * EventsPulled r) (2 * ConflictsResolved r))) as Hs.
  { destruct (Hs _ _ _ _ Hrun) as (cs & Hw & Hcs). exists cs. split; [done|]. by apply Hcs. }
  assert (∀ t cs0, totals cs0 0 0 0 → appends (let! result := sync_body (new_result t) in
    let! result := sync_defer result in mret (Some result, None)) (λ x cs, ∀ r, x = (Some r, None : option error) → res_Errors r = [] →
    totals (cs0 ++ cs) (2 * EventsPushed r) (2 * EventsPulled r) (2 * ConflictsResolved r))) as Hmain.
  { intros t cs0 H0. apply (appends_bind _ _ _ _ (sync_body_counts t)). intros r1 cs1 H1.
    apply (appends_bind _ _ _ _ (sync_defer_counts r1)). intros r2 cs2 (He & Hp & Hq & Hk & H2).
    apply appends_ret. intros ? [= <-] Herr. rewrite He in Herr. rewrite Hp, Hq, Hk, app_nil_r.
    replace (2 * EventsPushed r1)%nat with (0 + (EventsPushed r1 + EventsPushed r1))%nat by lia.
    replace (2 * EventsPulled r1)%nat with (0 + (EventsPulled r1 + EventsPulled r1))%nat by lia.
    replace (2 * ConflictsResolved r1)%nat with (0 + (ConflictsResolved r1 + ConflictsResolved r1))%nat by lia.
    apply totals_app; [done|]. apply totals_app; auto. }
  unfold Sync. apply (appends_bind _ _ _ _ no_counts_now). intros start cs0 H0.
  apply (appends_bind _ _ _ _ no_counts_get_mgr). intros m cs1 H1.
  destruct (closed m); [by apply appends_ret|]. destruct (Current <$> stateMachine m) as [s|].
  - destruct (negb (CanAutoSync s)); [by apply appends_ret|].
    apply (appends_bind _ _ _ _ (no_counts_transition _ _)). intros [e|] cs2 H2; [by apply appends_ret|].
    apply (appends_bind _ _ _ _ no_counts_now). intros t cs3 H3.
    apply (appends_weaken _ _ _ (Hmain t (cs0 ++ cs1 ++ cs2 ++ cs3) ltac:(repeat apply (totals_app _ _ 0 0 0 0 0 0); done))).
    intros x cs Hx ???. rewrite !app_assoc. rewrite !app_assoc in Hx. by apply Hx.
  - apply (appends_bind _ _ _ _ no_counts_now). intros t cs3 H3.
    apply (appends_weaken _ _ _ (Hmain t (cs0 ++ cs1 ++ cs3) ltac:(repeat apply (totals_app _ _ 0 0 0 0 0 0); done))).
    intros x cs Hx ???. rewrite !app_assoc. rewrite !app_assoc in Hx. by apply Hx.
Qed.
(** Remark: a synchronisation that ends without an error counts every event and
    every conflict twice, once by the push or pull inside it and once by itself,
    over every store and transport; and whatever the manager reports, no
    operation is ever counted as failed. *)
Theorem Sync_counted_twice {R} (m : SyncKitMetrics R) dur env w w' r
    (Hrun : Sync env w = Done (w', (Some r, None))) (Hok : res_Errors r = []) :
  ∃ cs, w_metrics w' = w_metrics w ++ cs
    ∧ (let calls := adapt_all m dur cs in
       counter (syncEventsProcessed (labels m)) ["sync"; "push"] calls = 2 * Z.of_nat (EventsPushed r)
       ∧ counter (syncEventsProcessed (labels m)) ["sync"; "pull"] calls = 2 * Z.of_nat (EventsPulled r)
       ∧ counter (syncConflictsTotal (labels m)) ["auto"; "resolved"] calls = 2 * Z.of_nat (ConflictsResolved r)
       ∧ ∀ op, counter (syncOpsTotal (labels m)) [op; "error"] calls = 0).
Proof.
  destruct (Sync_totals env w w' r Hrun Hok) as (cs & Hw & H1 & H2 & H3). exists cs. split; [done|]. cbv zeta.
  destruct (adapt_counts m dur cs "") as (-> & -> & -> & _). rewrite H1, H2, H3. split_and!; [lia..|].
  intros op. apply (adapt_counts m dur cs op).
Qed.
End manager.

(** ** A registry in memory and a run *)
#[export] Instance consistent_dec d : Decision (consistent d).
Proof. unfold consistent. apply _. Defined.
#[export] Instance conflicts_dec d d' : Decision (conflicts d d').
Proof. unfold conflicts. apply _. Defined.
#[export] Instance list_Registry : Registry (list Desc) := {|
  NewRegistry := [];
  Register := λ d r, if decide (consistent d ∧ Forall (λ d', ¬ conflicts d d') r) then Ok (d :: r)
                     else Err (ErrMsg "duplicate metrics collector registration attempted")
|}.
#[export] Program Instance list_RegistryLaws : RegistryLaws (list Desc) := {| registered := id |}.
Next Obligation. done. Qed.
Next Obligation.
  intros d r Hc Hr. cbn. rewrite decide_True; [by eexists|]. split; [done|]. by apply Forall_forall.
Qed.
Next Obligation. intros d r r' Hr. cbn in *. case_decide; [|done]. by injection Hr as <-. Qed.
Next Obligation.
  intros d r Hbad. cbn. rewrite decide_False; [by eexists|]. intros [Hc Hr]. rewrite Forall_forall in Hr.
  destruct Hbad as [Hbad|(d' & Hd' & Hbad)]; [done|]. by apply (Hr d').
Qed.

#[local] Instance demo_text : TimeText := {| rfc3339 := format_int; duration_string := format_int |}.
#[local] Instance demo_range : MapRange := canonical_range.
#[local] Instance demo_TR : Transport MemChan.MemChan := memchan_Transport MemChan.eager.
Definition demo_metrics : SyncKitMetrics (list Desc) := mkMetrics [] {["service" := "orders"]}.

(** A synchronisation that pushes two events counts four. *)
Lemma Sync_counted_twice_witness :
  let w := sample_world MemStore.demo_store (Convergence.shared_chan ["a"]) (Convergence.plain false false) in
  match Sync sample_env w with
  | Done (w', (Some r, None)) =>
      EventsPushed r = 2%nat ∧
      ∃ cs, w_metrics w' = w_metrics w ++ cs
        ∧ counter (syncEventsProcessed (labels demo_metrics)) ["sync"; "push"] (adapt_all demo_metrics (λ _, 0) cs)
          = 2 * Z.of_nat (EventsPushed r)
  | _ => False
  end.
Proof.
  cbn zeta. set (w := sample_world _ _ _). set (run := Sync _ w).
  assert (match run with Done (_, (Some r, None)) => res_Errors r = [] ∧ EventsPushed r = 2%nat | _ => False end) as Hok
    by (vm_compute; by split).
  destruct run as [[w' [[r|] [e|]]]|] eqn:E; [exact (False_ind _ Hok)| |exact (False_ind _ Hok)..].
  destruct Hok as [Herr Hn]. split; [exact Hn|].
  destruct (Sync_counted_twice demo_metrics (λ _, 0) _ w w' r E Herr) as (cs & Hw & Hp & _). exact (ex_intro _ cs (conj Hw Hp)).
Defined.
