(* ===== verification/SqlitePull.v ===== *)
(** * Pulling by cursor from SQLite (src/storage/sqlite/pull.go)

    Pages of events past an integer cursor, or past a vector cursor by way of a
    temporary table.  The database is a parameter ([PullSQL]) with the documented
    behaviour of these statements ([PullLaws]), for a table that has the columns
    the queries name.  White space in the statements is normalised. *)
From S2P Require Import Prelude Types Json SqlDriver.
From S2P Require Cursor.
From stdpp Require Import options.

(** A row as the query gives it, and as it is scanned: NULL does not fit a
    string, a negative number no unsigned integer. *)
Record RawRow := mkRaw {
  q_seq : Z; q_id : string; q_type : string; q_aggregate : string; q_data : option string;
  q_metadata : option string; q_node : option string; q_counter : option Z
}.
Record EventRow := mkRow {
  er_Seq : Z; er_ID : string; er_Type : string; er_AggregateID : string; DataJSON : string; MetadataJSON : string;
  er_OriginNode : option string; er_OriginCounter : option Z
}.
Record EventEnvelope := mkEnvelope {
  ee_ID : string; ee_Type : string; ee_AggregateID : string; ee_Data : gomap any; ee_Metadata : gomap any;
  ee_OriginNode : string; ee_OriginCounter : Z; ee_Seq : Z
}.

(** The connection pool: a transaction runs on one of its connections, an idle one
    or a new one.  The pool closes connections as it sees fit (the store sets an
    idle limit, an idle time and a lifetime) and opens others. *)
Class PullSQL (D : Type) := {
  Tx : Type;
  Query : CtxView → string → list Arg → D → result error (list RawRow * option error);
  BeginTx : CtxView → D → D * result error Tx;
  TxExec : CtxView → Tx → string → list Arg → D → D * option error;
  TxQuery : CtxView → Tx → string → list Arg → D → result error (list RawRow * option error);
  Commit : Tx → D → D * option error;
  Rollback : Tx → D → D * option error
}.
(** What [json.Unmarshal] leaves in a map. *)
Class MapText := { unmarshal_map : string → gomap any }.

Definition scan_error (what : string) : error := ErrMsg ("sql: Scan error on column " +:+ what).
Definition scan (r : RawRow) : result error EventRow :=
  if q_seq r <? 0 then Err (scan_error "seq")
  else match q_data r, q_metadata r with
       | None, _ => Err (scan_error "data")
       | _, None => Err (scan_error "metadata")
       | Some data, Some metadata =>
           Ok (mkRow (q_seq r) (q_id r) (q_type r) (q_aggregate r) data metadata (q_node r) (q_counter r))
       end.

Section pull.
Context {D : Type} {DB : PullSQL D} {MT : MapText} {MR : MapRange}.

Definition jsonUnmarshalTo (s : string) : gomap any :=
  if bool_decide (s = "") || bool_decide (s = "null") then None else unmarshal_map s.
Definition toEnvelope (r : EventRow) : EventEnvelope :=
  mkEnvelope (er_ID r) (er_Type r) (er_AggregateID r)
    (if bool_decide (DataJSON r = "") then None else jsonUnmarshalTo (DataJSON r))
    (if bool_decide (MetadataJSON r = "") then None else jsonUnmarshalTo (MetadataJSON r))
    (default "" (er_OriginNode r))
    (match er_OriginCounter r with Some n => if 0 <? n then n else 0 | None => 0 end)
    (er_Seq r).

(** What a pull returns: events, cursor and error, all three at once. *)
Definition Pulled : Type := list EventEnvelope * option Cursor.Cursor * option error.
Definition failed (e : error) : Pulled := ([], None, Some e).

(** An unsigned argument must fit a signed integer. *)
Definition uint_arg (n : Z) : result error Arg :=
  if n <? 2 ^ 63 then Ok (AInt n) else Err (ErrMsg "sql: uint64 values with high bit set are not supported").
Definition columns : string := "seq, id, event_type, aggregate_id, data, metadata, origin_node, origin_counter".
Definition integer_text : string := "SELECT " +:+ columns +:+ " FROM events WHERE seq > ? ORDER BY seq ASC LIMIT ?".

Fixpoint scan_all (rows : list RawRow) : result error (list EventRow) :=
  match rows with
  | [] => Ok []
  | r :: rows => match scan r with
                 | Err e => Err e
                 | Ok x => match scan_all rows with Err e => Err e | Ok xs => Ok (x :: xs) end
                 end
  end.
Definition max_seq (xs : list EventRow) : Z := fold_left (λ m x, if m <? er_Seq x then er_Seq x else m) xs 0.
Definition fetchInteger (ctx : CtxView) (seq limit : Z) (d : D) : Pulled :=
  match uint_arg seq with
  | Err e => failed e
  | Ok arg =>
      match Query ctx integer_text [arg; AInt limit] d with
      | Err e => failed e
      | Ok (rows, rows_err) =>
          match scan_all rows with
          | Err e => failed e
          | Ok xs =>
              (toEnvelope <$> xs,
               Some (Cursor.IntegerC (match xs with [] => seq | _ => max_seq xs end)), rows_err)
          end
      end
  end.
Definition fetchFromZeroInteger (ctx : CtxView) (limit : Z) (d : D) : Pulled := fetchInteger ctx 0 limit d.

(** ** Vector cursors *)
Definition create_text : string := "CREATE TEMP TABLE since (node TEXT PRIMARY KEY, counter INTEGER)".
Definition insert_text (n : nat) : string :=
  "INSERT INTO since(node,counter) VALUES " +:+ String.concat "," (repeat "(?,?)" n).
Definition insert_args (l : list (string * Z)) : list Arg := flat_map (λ nc, [AText nc.1; AInt (i64 nc.2)]) l.
Definition vector_text : string :=
  "SELECT " +:+ "e.seq, e.id, e.event_type, e.aggregate_id, e.data, e.metadata, e.origin_node, e.origin_counter"
  +:+ " FROM events e LEFT JOIN since s ON s.node = e.origin_node"
  +:+ " WHERE COALESCE(s.counter, 0) < e.origin_counter ORDER BY e.seq ASC LIMIT ?".
Definition advance (next : gmap string Z) (x : EventRow) : gmap string Z :=
  match er_OriginNode x, er_OriginCounter x with
  | Some node, Some n =>
      let cnt := u64 n in
      match next !! node with
      | Some cur => if cur <? cnt then <[node := cnt]> next else next
      | None => <[node := cnt]> next
      end
  | _, _ => next
  end.
(** Inside the transaction, up to the commit. *)
Definition vector_page (ctx : CtxView) (tx : Tx) (counters : gmap string Z) (limit : Z) (d : D)
    : D * result error (list EventRow) :=
  match TxExec ctx tx create_text [] d with
  | (d, Some e) => (d, Err e)
  | (d, None) =>
      match (if bool_decide (counters = ∅) then (d, None)
             else let l := range counters in TxExec ctx tx (insert_text (length l)) (insert_args l) d) with
      | (d, Some e) => (d, Err e)
      | (d, None) =>
          (d, match TxQuery ctx tx vector_text [AInt limit] d with
              | Err e => Err e
              | Ok (rows, rows_err) =>
                  match scan_all rows with
                  | Err e => Err e
                  | Ok xs => match rows_err with Some e => Err e | None => Ok xs end
                  end
              end)
      end
  end.
Definition fetchVector (ctx : CtxView) (counters : gomap Z) (limit : Z) (d : D) : D * Pulled :=
  match BeginTx ctx d with
  | (d, Err e) => (d, failed e)
  | (d, Ok tx) =>
      match vector_page ctx tx (map_of counters) limit d with
      | (d, Err e) => ((Rollback tx d).1, failed e)
      | (d, Ok xs) =>
          match Commit tx d with
          | (d, Some e) => (d, failed e)
          | (d, None) =>
              (d, (toEnvelope <$> xs,
                   Some (Cursor.VectorC (match xs with
                                         | [] => counters
                                         | _ => Some (fold_left advance xs (map_of counters))
                                         end)), None))
          end
      end
  end.
Definition PullWithCursor (ctx : CtxView) (since : option Cursor.Cursor) (limit : Z) (d : D) : D * Pulled :=
  match since with
  | None => (d, fetchFromZeroInteger ctx limit d)
  | Some (Cursor.IntegerC seq) => (d, fetchInteger ctx seq limit d)
  | Some (Cursor.VectorC counters) => fetchVector ctx counters limit d
  | Some (Cursor.OtherC kind) => (d, failed (ErrMsg ("unsupported cursor type: " +:+ kind)))
  end.
End pull.

(** ** What SQLite promises

    [rows] is the table in the order of [seq]; [opened] are the connections the
    pool has ever opened, [temps] those of them that have committed a table
    [since] in their life, and [staged] is what the transaction has put into its
    own.  A temporary table belongs to its connection: it outlives the transaction
    that made it and goes when the connection is closed; a connection opened later
    is another one. *)
Definition sql_limit {A} (limit : Z) (l : list A) : list A := if limit <? 0 then l else take (Z.to_nat limit) l.
Definition newer (since : gmap string Z) (r : RawRow) : Prop :=
  match q_counter r with
  | Some n => default 0 (q_node r ≫= λ node, since !! node) < n
  | None => False
  end.
#[export] Instance newer_dec since r : Decision (newer since r).
Proof. unfold newer. destruct (q_counter r); apply _. Defined.
Class PullLaws (D : Type) {DB : PullSQL D} := {
  rows : D → list RawRow;
  temps : D → gset nat;
  staged : D → Tx → gmap string Z;
  conn : Tx → nat;
  opened : D → gset nat;
  same (d d' : D) : Prop := rows d' = rows d ∧ temps d' = temps d ∧ opened d' = opened d;
  integer_law : ∀ d n limit, Query background integer_text [AInt n; AInt limit] d
    = Ok (sql_limit limit (filter (λ r, n < q_seq r) (rows d)), None);
  begin_law : ∀ d, let '(d', res) := BeginTx background d in
    rows d' = rows d ∧ temps d' = temps d ∧ opened d ⊆ opened d'
    ∧ match res with Ok tx => conn tx ∈ opened d' | Err _ => True end;
  create_law : ∀ d tx, let '(d', err) := TxExec background tx create_text [] d in same d d' ∧
    if decide (conn tx ∈ temps d) then is_Some err else err = None ∧ staged d' tx = ∅;
  insert_law : ∀ d tx l, staged d tx = ∅ → NoDup l.*1 →
    let '(d', err) := TxExec background tx (insert_text (length l)) (insert_args l) d in same d d' ∧
    (err = None → staged d' tx = list_to_map (prod_map id i64 <$> l)) ∧ ((length l ≤ 1000)%nat → err = None);
  vector_law : ∀ d tx limit, TxQuery background tx vector_text [AInt limit] d
    = Ok (sql_limit limit (filter (newer (staged d tx)) (rows d)), None);
  commit_law : ∀ d tx, ∃ d', Commit tx d = (d', None) ∧ rows d' = rows d ∧ temps d' = {[conn tx]} ∪ temps d
    ∧ opened d' = opened d;
  rollback_law : ∀ d tx, same d (Rollback tx d).1
}.

Section facts.
Context {D : Type} {DB : PullSQL D} {L : PullLaws D} {MT : MapText} {MR : MapRange}.
Implicit Types (d : D) (r : RawRow).

(** ** Rows that can be read *)
Definition scannable r : Prop := 0 ≤ q_seq r ∧ is_Some (q_data r) ∧ is_Some (q_metadata r).
Definition clean r : EventRow :=
  mkRow (q_seq r) (q_id r) (q_type r) (q_aggregate r) (default "" (q_data r)) (default "" (q_metadata r))
    (q_node r) (q_counter r).
Definition envelope r : EventEnvelope := toEnvelope (clean r).
Lemma scan_all_ok l : Forall scannable l → scan_all l = Ok (clean <$> l).
Proof.
  induction 1 as [|r l (Hseq & [data Hd] & [meta Hm]) _ IH]; [done|]. cbn [scan_all]. unfold scan. rewrite Hd, Hm, IH.
  destruct (Z.ltb_spec (q_seq r) 0); [lia|]. cbn. unfold clean. by rewrite Hd, Hm.
Qed.

(** ** Integer pages *)
Definition in_order (l : list RawRow) : Prop := StronglySorted (λ a b, q_seq a < q_seq b) l.
Definition remaining d (n : Z) : list RawRow := filter (λ r, n < q_seq r) (rows d).

Lemma elem_of_take_elem {A} (x : A) n (l : list A) : x ∈ take n l → x ∈ l.
Proof. intros Hx. rewrite <-(take_drop n l). apply elem_of_app. by left. Qed.
Lemma in_order_take l n : in_order l → in_order (take n l).
Proof.
  intros Hs. revert n. induction Hs as [|a l Hs IH Hf]; intros [|n]; try constructor; [by apply IH|].
  rewrite Forall_forall in *. intros x Hx. by apply Hf, (elem_of_take_elem _ n).
Qed.
Lemma in_order_elem a l x : in_order (a :: l) → x ∈ l → q_seq a < q_seq x.
Proof. intros [_ Hf]%StronglySorted_inv Hx. rewrite Forall_forall in Hf. by apply Hf. Qed.
Lemma in_order_filter (P : RawRow → Prop) `{!∀ r, Decision (P r)} l : in_order l → in_order (filter P l).
Proof.
  induction 1 as [|a l Hs IH Hf]; [constructor|]. rewrite filter_cons. case_decide; [|done].
  constructor; [done|]. rewrite Forall_forall in *. intros x [_ Hx]%list_elem_of_filter. by apply Hf.
Qed.
Lemma in_order_drop l m x : in_order l → last (take m l) = Some x → filter (λ r, q_seq x < q_seq r) l = drop m l.
Proof.
  intros Hs. revert m. induction Hs as [|a l Hs IH Hf]; intros m Hl; [by rewrite take_nil in Hl|].
  destruct m as [|m]; [done|]. cbn [take drop] in *. rewrite Forall_forall in Hf.
  rewrite filter_cons. destruct (last (take m l)) as [y|] eqn:Hy.
  - rewrite last_cons, Hy in Hl. injection Hl as ->. rewrite decide_False; [by apply IH|].
    apply last_Some_elem_of in Hy. pose proof (Hf x (elem_of_take_elem _ _ _ Hy)). lia.
  - rewrite last_cons, Hy in Hl. injection Hl as ->. rewrite decide_False by lia.
    apply last_None in Hy. rewrite filter_all by (intros z Hz; by apply Hf).
    destruct m; [done|]. by destruct l.
Qed.
Lemma max_seq_last l x : in_order l → Forall scannable l → last l = Some x → max_seq (clean <$> l) = q_seq x.
Proof.
  assert (∀ m, in_order l → Forall (λ r, m ≤ q_seq r) l →
    fold_left (λ m y, if m <? er_Seq y then er_Seq y else m) (clean <$> l) m = from_option q_seq m (last l)) as Hgen.
  { induction l as [|a l IH]; intros m Hs Hm; [done|]. apply Forall_cons in Hm as [Ha _].
    assert (in_order l) as Hs' by by apply StronglySorted_inv in Hs as [? _].
    cbn [fmap list_fmap fold_left clean er_Seq].
    replace (if m <? q_seq a then q_seq a else m) with (q_seq a) by (destruct (Z.ltb_spec m (q_seq a)); lia).
    rewrite IH; [|done|]. { rewrite last_cons. by destruct (last l). }
    apply Forall_forall. intros y Hy. pose proof (in_order_elem _ _ _ Hs Hy). lia. }
  intros Hs Hl Hx. unfold max_seq. rewrite Hgen; [by rewrite Hx|done|].
  eapply Forall_impl; [exact Hl|]. by intros r [? _].
Qed.

(** A readable table: in the order of [seq], which fits the column. *)
Definition readable d : Prop := in_order (rows d) ∧ Forall (λ r, scannable r ∧ q_seq r < 2 ^ 63) (rows d).
Lemma fetchInteger_page d n limit : readable d → n < 2 ^ 63 → 0 ≤ limit →
  let page := take (Z.to_nat limit) (remaining d n) in
  fetchInteger background n limit d
  = (envelope <$> page, Some (Cursor.IntegerC (from_option q_seq n (last page))), None).
Proof.
  intros [Hs Hr] Hn Hl. cbv zeta. unfold fetchInteger, uint_arg. destruct (Z.ltb_spec n (2 ^ 63)); [|lia].
  rewrite integer_law. unfold sql_limit. destruct (Z.ltb_spec limit 0); [lia|]. fold (remaining d n).
  set (page := take _ _).
  assert (Forall scannable page) as Hp.
  { apply Forall_forall. intros r Hin. rewrite Forall_forall in Hr. apply elem_of_take_elem in Hin.
    unfold remaining in Hin. apply list_elem_of_filter in Hin as [_ Hin]. by apply Hr. }
  rewrite scan_all_ok by done. rewrite <-list_fmap_compose. do 2 f_equal. do 3 f_equal.
  destruct (last page) as [x|] eqn:Hx.
  - cbn [from_option]. destruct (clean <$> page) as [|y ys] eqn:E.
    { apply fmap_nil_inv in E. by rewrite E in Hx. }
    rewrite <-E. apply max_seq_last; [|done|done]. unfold page. apply in_order_take.
    by apply in_order_filter.
  - apply last_None in Hx. by rewrite Hx.
Qed.

(** Following the cursors until a page is empty. *)
Fixpoint follow (fuel : nat) (since : option Cursor.Cursor) (limit : Z) d : option (list EventEnvelope) :=
  match fuel with
  | O => None
  | S fuel => match PullWithCursor background since limit d with
              | (_, ([], _, None)) => Some []
              | (d, (evs, next, None)) => app evs <$> follow fuel next limit d
              | (_, (_, _, Some _)) => None
              end
  end.
Lemma follow_from fuel d n limit : readable d → n < 2 ^ 63 → 0 < limit → (length (remaining d n) < fuel)%nat →
  follow fuel (Some (Cursor.IntegerC n)) limit d = Some (envelope <$> remaining d n).
Proof.
  intros Hd Hn Hl. revert n Hn. induction fuel as [|fuel IH]; intros n Hn Hfuel; [lia|].
  cbn [follow PullWithCursor]. rewrite fetchInteger_page by (done || lia). cbv zeta.
  set (page := take (Z.to_nat limit) (remaining d n)).
  destruct (last page) as [x|] eqn:Hx.
  - destruct (envelope <$> page) as [|y ys] eqn:E; [apply fmap_nil_inv in E; by rewrite E in Hx|].
    rewrite <-E. cbn [from_option]. clear y ys E.
    assert (in_order (remaining d n)) as Hs by (apply in_order_filter, Hd).
    pose proof (in_order_drop _ _ _ Hs Hx) as Hdrop.
    assert (x ∈ remaining d n) as Hin by (apply last_Some_elem_of in Hx; by apply elem_of_take_elem in Hx).
    apply list_elem_of_filter in Hin as [Hnx Hin].
    assert (remaining d (q_seq x) = drop (Z.to_nat limit) (remaining d n)) as Hrem.
    { rewrite <-Hdrop. unfold remaining. rewrite list_filter_filter. apply filter_ext_elem. intros r _. lia. }
    rewrite IH, Hrem.
    + unfold page. cbn [fmap option_fmap option_map]. by rewrite <-fmap_app, take_drop.
    + destruct Hd as [_ Hr]. rewrite Forall_forall in Hr. apply (Hr x Hin).
    + rewrite Hrem, length_drop. assert (0 < length (remaining d n))%nat; [|lia].
      destruct (remaining d n); [by unfold page in Hx; rewrite take_nil in Hx|cbn; lia].
  - apply last_None in Hx. rewrite Hx. cbn.
    assert (remaining d n = []) as ->; [|done].
    destruct (remaining d n); [done|]. unfold page in Hx. destruct (Z.to_nat limit) eqn:?; [lia|done].
Qed.

(** Remark: pulling from the beginning and following the integer cursors, with any
    positive limit, delivers every row of a readable table exactly once and in
    the order of [seq], and ends. *)
Theorem integer_pages_complete d limit (Hd : readable d) (Hl : 0 < limit) :
  follow (S (S (length (rows d)))) None limit d = Some (envelope <$> filter (λ r, 0 < q_seq r) (rows d)).
Proof.
  apply (follow_from (S (S (length (rows d)))) d 0 limit Hd); [done|done|].
  unfold remaining. apply Nat.lt_succ_r. etrans; [apply length_filter|]. lia.
Qed.

(** ** Vector pulls *)
Lemma fetchVector_step counters limit d d' out next err :
  fetchVector background counters limit d = (d', (out, next, err)) →
  rows d' = rows d ∧ opened d ⊆ opened d' ∧
  match err with
  | Some _ => temps d' = temps d
  | None => ∃ n, n ∉ temps d ∧ n ∈ opened d' ∧ temps d' = {[n]} ∪ temps d
  end.
Proof using L.
  unfold fetchVector, vector_page. pose proof (begin_law d) as Hbegin.
  destruct (BeginTx background d) as [d1 [tx|e]]; destruct Hbegin as (Hr1 & Ht1 & Ho1 & Hconn);
    [|by intros [= <- <- <- <-]].
  assert (∀ d2 e d3 o, same d1 d2 → ((Rollback tx d2).1, failed e) = (d3, o) →
    rows d3 = rows d ∧ opened d ⊆ opened d3 ∧ temps d3 = temps d ∧ o = failed e) as Hback.
  { intros d2 e d3 o (H1 & H2 & H3) [= <- <-]. destruct (rollback_law d2 tx) as (H4 & H5 & H6).
    split_and!; [congruence|by rewrite H6, H3|congruence|done]. }
  pose proof (create_law d1 tx) as Hcreate. destruct (TxExec _ tx create_text [] d1) as [d2 [e|]].
  { destruct Hcreate as [H12 _]. intros H. destruct (Hback _ _ _ _ H12 H) as (? & ? & ? & [= -> -> ->]). done. }
  destruct Hcreate as [H12 Hin]. destruct (decide (conn tx ∈ temps d1)) as [_|Hnew]; [by destruct Hin|].
  destruct Hin as [_ Hst].
  set (inserted := if bool_decide (map_of counters = ∅) then (d2, None) else _).
  assert (same d1 inserted.1) as H13.
  { unfold inserted. case_bool_decide; [done|]. pose proof (insert_law d2 tx (range (map_of counters)) Hst (range_NoDup _)) as Hi.
    destruct (TxExec _ _ _ _ _) as [d3 e]. destruct Hi as [(H1 & H2 & H3) _], H12 as (H4 & H5 & H6). split_and!; cbn; congruence. }
  destruct inserted as [d3 [e|]]; cbn [fst] in H13.
  { intros H. destruct (Hback _ _ _ _ H13 H) as (? & ? & ? & [= -> -> ->]). done. }
  rewrite vector_law. destruct (scan_all _) as [xs|e].
  - destruct (commit_law d3 tx) as (d4 & -> & H5 & H6 & H7). intros [= <- <- <- <-].
    destruct H13 as (H8 & H9 & H10). split; [congruence|]. split; [by rewrite H7, H10|].
    exists (conn tx). rewrite <-Ht1. split; [done|]. split; [by rewrite H7, H10|]. congruence.
  - intros H. destruct (Hback _ _ _ _ H13 H) as (? & ? & ? & [= -> -> ->]). done.
Qed.
(** On a connection that has served a vector pull the table is still there. *)
Lemma fetchVector_used counters limit d d1 tx :
  BeginTx background d = (d1, Ok tx) → conn tx ∈ temps d →
  ∃ e d', fetchVector background counters limit d = (d', ([], None, Some e)).
Proof using L.
  intros Hb Hused. pose proof (begin_law d) as Hbegin. unfold fetchVector, vector_page. rewrite Hb in Hbegin |- *.
  destruct Hbegin as (_ & Ht & _). pose proof (create_law d1 tx) as Hcreate.
  destruct (TxExec _ tx create_text [] d1) as [d2 err]. destruct Hcreate as [_ Hc]. rewrite <-Ht in Hused.
  rewrite decide_True in Hc by done. destruct Hc as [e ->]. by eexists e, _.
Qed.

(** Pulls one after the other, and what becomes of each. *)
Fixpoint pull_all (reqs : list (gomap Z * Z)) d : D * list (option error) :=
  match reqs with
  | [] => (d, [])
  | (counters, limit) :: reqs =>
      let '(d, (_, _, err)) := fetchVector background counters limit d in
      let '(d, errs) := pull_all reqs d in (d, err :: errs)
  end.
Definition succeeded (errs : list (option error)) : nat := length (filter (λ e, e = None) errs).

(** C34: the temporary table of a vector pull outlives it, so that every connection
    of the pool serves at most one successful vector pull in its life: a pull that
    is given a connection which has served one fails and returns nothing, and in
    any sequence of vector pulls as many succeed, at most, as there are connections
    the pool has opened that had not served one, those it opened meanwhile
    included.  While the pool keeps its connections open, pulls that are not the
    first of theirs fail; only the closing of a connection makes room. *)
Theorem vector_pulls_use_up_connections reqs d (Htemps : temps d ⊆ opened d) :
  (succeeded (pull_all reqs d).2 + size (temps d) ≤ size (opened (pull_all reqs d).1))%nat
  ∧ ∀ counters limit d1 tx, let d' := (pull_all reqs d).1 in
      BeginTx background d' = (d1, Ok tx) → conn tx ∈ temps d' →
      ∃ e d2, fetchVector background counters limit d' = (d2, ([], None, Some e)).
Proof using L.
  split; [|intros; by eapply fetchVector_used].
  revert d Htemps. induction reqs as [|[counters limit] reqs IH]; intros d Htemps.
  - cbn. apply (subseteq_size _ _ Htemps).
  - cbn [pull_all]. destruct (fetchVector _ _ _ _) as [d1 [[out next] err]] eqn:E.
    apply fetchVector_step in E as (_ & Ho & Ht).
    specialize (IH d1). destruct (pull_all reqs d1) as [d2 errs]. cbn [fst snd] in *.
    unfold succeeded in *. rewrite filter_cons. destruct err as [e|].
    + rewrite decide_False by done. rewrite Ht in IH. apply IH. by etrans.
    + rewrite decide_True by done. destruct Ht as (n & Hn & Hop & Ht). rewrite Ht in IH.
      rewrite size_union, size_singleton in IH by set_solver. cbn [length].
      enough (length (filter (λ e, e = None) errs) + (1 + size (temps d)) ≤ size (opened d2))%nat by lia.
      apply IH. apply union_subseteq. split; [by apply singleton_subseteq_l|by etrans].
Qed.

(** What a successful pull returns. *)
Lemma fetchVector_page counters limit d d' out next :
  fetchVector background counters limit d = (d', (out, next, None)) →
  let page := sql_limit limit (filter (newer (i64 <$> map_of counters)) (rows d)) in
  Forall scannable page →
  out = envelope <$> page
  ∧ next = Some (Cursor.VectorC (match page with [] => counters | _ => Some (fold_left advance (clean <$> page) (map_of counters)) end)).
Proof using L.
  unfold fetchVector, vector_page. pose proof (begin_law d) as Hbegin.
  destruct (BeginTx background d) as [d1 [tx|e]]; [|done]. destruct Hbegin as (Hr1 & _).
  pose proof (create_law d1 tx) as Hcreate. destruct (TxExec _ tx create_text [] d1) as [d2 [e|]]; [done|].
  destruct Hcreate as [(Hr2 & _) Hin]. destruct (decide (conn tx ∈ temps d1)) as [_|Hnew]; [by destruct Hin|].
  destruct Hin as [_ Hst]. set (m := map_of counters).
  set (inserted := if bool_decide (m = ∅) then (d2, None) else _).
  assert (inserted.2 = None → rows inserted.1 = rows d ∧ staged inserted.1 tx = i64 <$> m) as Hi.
  { unfold inserted. case_bool_decide as Hm; [intros _; rewrite Hm, fmap_empty; split; [cbn; congruence|done]|].
    pose proof (insert_law d2 tx (range m) Hst (range_NoDup _)) as Hi. destruct (TxExec _ _ _ _ _) as [d3 e].
    destruct Hi as [(Hr3 & _) [Hi _]]. cbn. intros ->. split; [congruence|]. rewrite (Hi eq_refl).
    rewrite <-(list_to_map_range m) at 2. by rewrite list_to_map_fmap. }
  destruct inserted as [d3 [e|]]; [done|]. destruct (Hi eq_refl) as [Hr3 Hs3]; cbn in Hr3, Hs3.
  rewrite vector_law, Hs3, Hr3. cbv zeta. intros Hrun Hpage. rewrite scan_all_ok in Hrun by done.
  destruct (commit_law d3 tx) as (d4 & Hcommit & _). rewrite Hcommit in Hrun. injection Hrun as _ <- <-.
  rewrite <-list_fmap_compose. split; [done|]. by destruct (sql_limit _ _).
Qed.

(** Remark: two events of one node whose counters are stored in the wrong order: a
    pull of pages of one delivers the first and takes its counter for the whole
    node, so that no later pull, from this cursor on, delivers the second. *)
Theorem out_of_order_event_lost d r1 r2 node k1 k2 d1 out next
    (Hrows : rows d = [r1; r2]) (Hs : scannable r1)
    (Hn1 : q_node r1 = Some node) (Hn2 : q_node r2 = Some node)
    (Hk1 : q_counter r1 = Some k1) (Hk2 : q_counter r2 = Some k2) (Hk : 0 < k2 ≤ k1) (Hmax : k1 < 2 ^ 63)
    (Hrun : fetchVector background None 1 d = (d1, (out, next, None))) :
  out = [envelope r1] ∧ ∃ m, next = Some (Cursor.VectorC (Some m))
    ∧ ∀ limit d2 out' next', fetchVector background (Some m) limit d1 = (d2, (out', next', None)) → out' = [] ∧ next' = next.
Proof using L.
  assert (newer ∅ r1) as H1 by (unfold newer; rewrite Hk1, Hn1; cbn; rewrite lookup_empty; cbn; lia).
  assert (sql_limit 1 (filter (newer (i64 <$> map_of None)) (rows d)) = [r1]) as Hp1.
  { rewrite Hrows. change (map_of (None : gomap Z)) with (∅ : gmap string Z). by rewrite fmap_empty, filter_cons, decide_True. }
  pose proof Hrun as Hpage. apply fetchVector_page in Hpage; [|rewrite Hp1; by apply Forall_singleton].
  cbv zeta in Hpage. rewrite Hp1 in Hpage. destruct Hpage as [-> ->]. split; [done|].
  assert (fold_left advance (clean <$> [r1]) (map_of None) = ({[node := k1]} : gmap string Z)) as Hm.
  { change (advance ∅ (clean r1) = ({[node := k1]} : gmap string Z)). unfold advance. cbn [clean er_OriginNode er_OriginCounter].
    rewrite Hn1, Hk1, lookup_empty, u64_small by (unfold is_u64, u64_modulus; lia). done. }
  rewrite Hm. eexists. split; [reflexivity|]. intros limit d2 out' next' Hrun'.
  destruct (fetchVector_step _ _ _ _ _ _ _ Hrun) as (Hr & _ & _).
  assert (sql_limit limit (filter (newer (i64 <$> map_of (Some {[node := k1]}))) (rows d1)) = []) as Hp2.
  { rewrite Hr, Hrows, filter_none.
    - unfold sql_limit. destruct (limit <? 0); [done|]. by rewrite take_nil.
    - change (map_of (Some {[node := k1]})) with ({[node := k1]} : gmap string Z). rewrite map_fmap_singleton, i64_small by lia.
      intros r Hr'. unfold newer. set_unfold in Hr'.
      destruct Hr' as [->|[->|[]]]; rewrite ?Hn1, ?Hn2, ?Hk1, ?Hk2; cbn [mbind option_bind];
        rewrite lookup_singleton_eq; cbn [default]; unfold id; lia. }
  apply fetchVector_page in Hrun'; cbv zeta in Hrun'; [|by rewrite Hp2]. by rewrite Hp2 in Hrun'.
Qed.
End facts.

(** ** A database in memory, with one connection *)
Record TestDB := mkTest { t_rows : list RawRow; t_temps : gset nat; t_staged : gmap string Z }.
Fixpoint pairs_of (args : list Arg) : gmap string Z :=
  match args with AText node :: AInt n :: args => <[node := n]> (pairs_of args) | _ => ∅ end.
#[export] Instance test_PullSQL : PullSQL TestDB := {|
  Tx := nat;
  Query := λ _ _ args d,
    match args with
    | [AInt n; AInt limit] => Ok (sql_limit limit (filter (λ r, n < q_seq r) (t_rows d)), None)
    | _ => Err (ErrMsg "bad arguments")
    end;
  BeginTx := λ _ d, (d, Ok 0%nat);
  TxExec := λ _ tx text args d,
    if bool_decide (text = create_text)
    then if decide (tx ∈ t_temps d) then (d, Some (ErrMsg "table since already exists"))
         else (mkTest (t_rows d) (t_temps d) ∅, None)
    else (mkTest (t_rows d) (t_temps d) (pairs_of args), None);
  TxQuery := λ _ _ _ args d,
    match args with
    | [AInt limit] => Ok (sql_limit limit (filter (newer (t_staged d)) (t_rows d)), None)
    | _ => Err (ErrMsg "bad arguments")
    end;
  Commit := λ tx d, (mkTest (t_rows d) ({[tx]} ∪ t_temps d) ∅, None);
  Rollback := λ tx d, (mkTest (t_rows d) (t_temps d) ∅, None)
|}.
Lemma pairs_of_args l : pairs_of (insert_args l) = list_to_map (prod_map id i64 <$> l).
Proof.
  induction l as [|[node n] l IH]; [done|].
  change (<[node := i64 n]> (pairs_of (insert_args l)) = list_to_map ((node, i64 n) :: (prod_map id i64 <$> l))).
  by rewrite IH.
Qed.
#[export] Program Instance test_PullLaws : PullLaws TestDB := {|
  rows := t_rows; temps := t_temps; staged := λ d _, t_staged d; conn := λ tx, tx; opened := λ _, {[0%nat]}
|}.
Next Obligation. done. Qed.
Next Obligation. intros d. cbn. set_solver. Qed.
Next Obligation. intros d tx. cbn. rewrite bool_decide_true by done. by case_decide. Qed.
Next Obligation.
  intros d tx l _ _. cbn. split; [done|]. split; [|done]. intros _. apply pairs_of_args.
Qed.
Next Obligation. done. Qed.
Next Obligation. intros d tx. by eexists. Qed.
Next Obligation. done. Qed.

#[local] Instance demo_maps : MapText := {| unmarshal_map := λ _, Some ∅ |}.
#[local] Instance demo_range : MapRange := canonical_range.
Definition demo_row (seq : Z) (id : string) (counter : Z) : RawRow :=
  mkRaw seq id "Created" "a" (Some "{}") (Some "{}") (Some "n1") (Some counter).
Definition demo_db : TestDB := mkTest [demo_row 1 "e1" 2; demo_row 2 "e2" 1] ∅ ∅.

Lemma demo_readable : readable demo_db.
Proof.
  unfold readable, in_order. cbn [rows test_PullLaws demo_db t_rows].
  split; [constructor; [repeat constructor|]; apply Forall_singleton; cbn; lia|].
  repeat (apply Forall_cons; split); [..|done]; (split; [split; [cbn; lia|split; by eexists]|cbn; lia]).
Qed.
Lemma integer_pages_complete_witness :
  follow 4 None 1 demo_db = Some (envelope <$> filter (λ r, 0 < q_seq r) (rows demo_db)).
Proof. apply (integer_pages_complete demo_db 1 demo_readable). lia. Defined.
(** One connection, three pulls: one succeeds. *)
Lemma vector_pulls_use_up_connections_witness :
  let reqs := [(None, 1); (Some {["n1" := 1]}, 1); (None, 10)] in
  (succeeded (pull_all reqs demo_db).2 ≤ 1)%nat
  ∧ (pull_all reqs demo_db).2 !! 0%nat = Some None
  ∧ (∃ e, (pull_all reqs demo_db).2 !! 1%nat = Some (Some e)).
Proof.
  cbn zeta. split; [|split; [by vm_compute|by eexists; vm_compute]].
  destruct (vector_pulls_use_up_connections [(None, 1); (Some {["n1" := 1]}, 1); (None, 10)] demo_db) as [Hn _];
    [set_solver|].
  change (temps demo_db) with (∅ : gset nat) in Hn. rewrite size_empty in Hn.
  change (opened _) with ({[0%nat]} : gset nat) in Hn. rewrite size_singleton in Hn. lia.
Defined.
Lemma out_of_order_event_lost_witness :
  match fetchVector background None 1 demo_db with
  | (d1, (out, next, None)) =>
      out = [envelope (demo_row 1 "e1" 2)] ∧ ∃ m, next = Some (Cursor.VectorC (Some m))
        ∧ ∀ limit d2 out' next', fetchVector background (Some m) limit d1 = (d2, (out', next', None)) → out' = [] ∧ next' = next
  | _ => False
  end.
Proof.
  set (run := fetchVector _ _ _ _).
  assert (run.2.2 = None) as Hok by by vm_compute.
  destruct run as [d1 [[out next] err]] eqn:E. cbn in Hok. subst err.
  refine (out_of_order_event_lost demo_db (demo_row 1 "e1" 2) (demo_row 2 "e2" 1) "n1" 2 1 d1 out next
            eq_refl _ eq_refl eq_refl eq_refl eq_refl _ _ E); [|lia|lia].
  split; [done|]. split; by eexists.
Defined.
