(* ===== verification/StateObservability.v ===== *)
(** * Observability of state machines (src/synckit/statemachine/observability.go)

    The hooks a machine can be created with, the adapters that pass their calls
    on to the metrics, tracing and health interfaces, and the health a machine
    is reported with.  The collaborators are outside the file: what a method
    does is the list of the calls it makes of them, in order. *)
From S2P Require Import Prelude Types Json Errors Metrics SyncState TransportState DcrState StateMachine.
From stdpp Require Import options.

(** ** The collaborators *)

(** [StateMetricsCollector]. *)
Inductive StateMetricsCall :=
  | RecordStateTransition (component from to : string) (duration : Z) (metadata : gomap any)
  | RecordStateTransitionError (component from to errorType : string) (metadata : gomap any)
  | RecordCurrentState (component state : string)
  | RecordStateDuration (component state : string) (duration : Z)
  | RecordStateTransitionLatency (component from to : string) (latency : Z).

(** [StateHealthUpdater]; a nil error is [None]. *)
Inductive StateHealthCall :=
  | UpdateComponentState (component state : string) (metadata : gomap any)
  | RecordStateError (component state : string) (err : option error).

(** Attributes of a log record. *)
Inductive Attr :=
  | LogString (key value : string)
  | LogDuration (key : string) (d : Z)
  | LogTime (key : string) (t : Z).

(** What the hooks do. *)
Inductive HookCall :=
  | ToMetrics (c : StateMetricsCall)
  | ToHealth (c : StateHealthCall)
  | Info (msg : string) (attrs : list Attr)
  | LogError (msg : string) (attrs : list Attr).

(** The fields say which collaborators are not nil. *)
Record ObservabilityHooks := mkHooks {
  MetricsCollector : bool; Tracer : bool; HealthUpdater : bool; Logger : bool; ComponentName : string
}.
Definition NewObservabilityHooks (metricsCollector tracer healthUpdater logger : bool)
    (componentName : string) : ObservabilityHooks :=
  mkHooks metricsCollector tracer healthUpdater logger componentName.

Section hooks.
Context {T : Type} `{EqDecision0 : EqDecision T} `{!Countable T} {SK : StateKind T}.
Implicit Types (h : ObservabilityHooks) (m : machine T).

Definition Hooks_OnTransition h (transition : StateTransition T) : list HookCall :=
  let fromStr := show_state (From transition) in
  let toStr := show_state (To transition) in
  (if MetricsCollector h then
     [ToMetrics (RecordStateTransition (ComponentName h) fromStr toStr (Duration transition)
        (TMetadata transition));
      ToMetrics (RecordCurrentState (ComponentName h) toStr);
      ToMetrics (RecordStateDuration (ComponentName h) fromStr (Duration transition))]
   else [])
  ++ (if HealthUpdater h then
        [ToHealth (UpdateComponentState (ComponentName h) toStr (TMetadata transition))]
      else [])
  ++ (if Logger h then
        [Info "State transition completed"
           [LogString "component" (ComponentName h); LogString "from_state" fromStr;
            LogString "to_state" toStr; LogDuration "duration" (Duration transition);
            LogString "transition_id" (TransitionID transition);
            LogTime "timestamp" (Timestamp transition)]]
      else []).

(** The calls made, and whether the method then returns or panics: the logger
    asks the error for its text without the nil check made before. *)
Definition Hooks_OnTransitionFailed h (from to : T) (err : option error) (metadata : gomap any)
    : list HookCall * outcome unit :=
  let fromStr := show_state from in
  let toStr := show_state to in
  let errorType := match err with Some e => error_string e | None => "transition_failed" end in
  let calls :=
    (if MetricsCollector h then
       [ToMetrics (RecordStateTransitionError (ComponentName h) fromStr toStr errorType metadata)]
     else [])
    ++ (if HealthUpdater h then [ToHealth (RecordStateError (ComponentName h) fromStr err)] else []) in
  if Logger h then
    match err with
    | None => (calls, Panic "invalid memory address or nil pointer dereference")
    | Some e =>
        (calls ++ [LogError "State transition failed"
                     [LogString "component" (ComponentName h); LogString "from_state" fromStr;
                      LogString "to_state" toStr; LogString "error" (error_string e)]], Done tt)
    end
  else (calls, Done tt).

(** [o] is the identity the hooks get as an observer. *)
Definition CreateObservableStateMachine (now : Z) (cfg : StateMachineConfig T) (o : nat)
    : result error (machine T) :=
  match New now cfg with
  | Err err => Err err
  | Ok stateMachine => Ok (Subscribe (Some o) stateMachine)
  end.

(** The goroutine a machine starts for the hooks; a panic in it is recovered. *)
Definition hook_calls h (o : nat) (e : Effect T) : list HookCall :=
  match e with
  | OnTransition o' tr => if decide (o' = o) then Hooks_OnTransition h tr else []
  | OnTransitionFailed o' from to err md =>
      if decide (o' = o) then (Hooks_OnTransitionFailed h from to (Some err) md).1 else []
  | _ => []
  end.
End hooks.

(** ** The metrics adapter *)
Inductive SyncCall :=
  | SyncDuration (operation : string) (duration : Z)
  | SyncErrors (operation errorType : string).
Definition Adapter_RecordStateTransition (component from to : string) (duration : Z) : list SyncCall :=
  let operation := component +:+ "_" +:+ from +:+ "_to_" +:+ to in
  [SyncDuration operation duration].
Definition Adapter_RecordStateTransitionError (component from to errorType : string) : list SyncCall :=
  let operation := component +:+ "_transition" in
  [SyncErrors operation errorType].
Definition Adapter_RecordCurrentState (component state : string) : list SyncCall := [].
Definition Adapter_RecordStateDuration (component state : string) (duration : Z) : list SyncCall :=
  let operation := component +:+ "_state_" +:+ state in
  [SyncDuration operation duration].
Definition Adapter_RecordStateTransitionLatency (component from to : string) (latency : Z)
    : list SyncCall :=
  let operation := component +:+ "_transition_latency" in
  [SyncDuration operation latency].
Definition SyncKitMetricsAdapter (c : StateMetricsCall) : list SyncCall :=
  match c with
  | RecordStateTransition component from to duration _ =>
      Adapter_RecordStateTransition component from to duration
  | RecordStateTransitionError component from to errorType _ =>
      Adapter_RecordStateTransitionError component from to errorType
  | RecordCurrentState component state => Adapter_RecordCurrentState component state
  | RecordStateDuration component state duration => Adapter_RecordStateDuration component state duration
  | RecordStateTransitionLatency component from to latency =>
      Adapter_RecordStateTransitionLatency component from to latency
  end.

(** ** The tracer adapter *)
Inductive SpanCall :=
  | StartSyncOperation (operation : string)
  | SetAttributes (attrs : list (string * any))
  | SpanError (err : option error) (description : string).
Definition Milliseconds (d : Z) : Z := Z.quot d 1000000.
Definition StartStateTransition (component from to : string) : list SpanCall :=
  let operation := component +:+ ".state." +:+ from +:+ ".to." +:+ to in
  [StartSyncOperation operation].
Definition RecordTransitionSuccess `{!MapRange} (component from to transitionID : string)
    (duration : Z) (metadata : gomap any) : list SpanCall :=
  SetAttributes
    [("state.component", AnyString component); ("state.from", AnyString from);
     ("state.to", AnyString to); ("state.transition_id", AnyString transitionID);
     ("state.duration_ms", AnyInt64 (Milliseconds duration))]
  :: ((λ kv, SetAttributes [("state.meta." +:+ kv.1, AnyString (sprintf_v kv.2))])
        <$> range (map_of metadata)).
Definition RecordTransitionError (component from to : string) (err : option error)
    (metadata : gomap any) : list SpanCall :=
  let description := "State transition failed: " +:+ from +:+ " -> " +:+ to in
  [SpanError err description;
   SetAttributes
     [("state.component", AnyString component); ("state.from", AnyString from);
      ("state.to", AnyString to); ("state.transition_failed", AnyBool true)]].

(** ** The health updater *)
Inductive StateHealthStatus :=
  | StateHealthHealthy | StateHealthDegraded | StateHealthUnhealthy | StateHealthCritical.
#[global] Instance StateHealthStatus_eq_dec : EqDecision StateHealthStatus.
Proof. solve_decision. Defined.
Definition health_text (s : StateHealthStatus) : string :=
  match s with
  | StateHealthHealthy => "healthy"
  | StateHealthDegraded => "degraded"
  | StateHealthUnhealthy => "unhealthy"
  | StateHealthCritical => "critical"
  end.

(** The health checker behind it. *)
Inductive CheckerCall :=
  | UpdateStatus (component status : string) (metadata : gmap string any)
  | RecordError (component : string) (err : option error).
Record DefaultStateHealthUpdater := mkUpdater {
  healthChecker : bool; stateHealthMap : gmap string StateHealthStatus
}.
Definition default_health_map : gmap string StateHealthStatus := list_to_map
  [("idle", StateHealthHealthy); ("initializing", StateHealthHealthy);
   ("pushing", StateHealthHealthy); ("pulling", StateHealthHealthy);
   ("resolving_conflicts", StateHealthDegraded); ("completed", StateHealthHealthy);
   ("failed", StateHealthCritical); ("cancelled", StateHealthDegraded);
   ("connected", StateHealthHealthy); ("connecting", StateHealthDegraded);
   ("disconnected", StateHealthUnhealthy); ("reconnecting", StateHealthDegraded);
   ("transport_failed", StateHealthCritical)].
Definition NewDefaultStateHealthUpdater (checker : bool) : DefaultStateHealthUpdater :=
  mkUpdater checker default_health_map.

Section updater.
Context {TT : TimeText} {MR : MapRange}.
Implicit Type u : DefaultStateHealthUpdater.

Definition state_health u (state : string) : StateHealthStatus :=
  default StateHealthHealthy (stateHealthMap u !! state).
Definition Updater_UpdateComponentState (now : Z) (component state : string) (metadata : gomap any) u
    : list CheckerCall :=
  if healthChecker u then
    let healthStatus := state_health u state in
    let healthMetadata : gmap string any :=
      {["state" := AnyString state; "timestamp" := AnyString (rfc3339 now)]} in
    let healthMetadata :=
      fold_left (λ acc kv, <[kv.1 := kv.2]> acc) (range (map_of metadata)) healthMetadata in
    [UpdateStatus component (health_text healthStatus) healthMetadata]
  else [].
Definition Updater_RecordStateError (component state : string) (err : option error) u
    : list CheckerCall :=
  if healthChecker u then [RecordError component err] else [].

(** The calls of the checker behind some calls of the hooks; [clock] gives the
    time of each. *)
Definition checker_calls (now : Z) u (c : HookCall) : list CheckerCall :=
  match c with
  | ToHealth (UpdateComponentState component state md) =>
      Updater_UpdateComponentState now component state md u
  | ToHealth (RecordStateError component state err) => Updater_RecordStateError component state err u
  | _ => []
  end.
Fixpoint checker_run (clock : nat → Z) u (cs : list HookCall) : list CheckerCall :=
  match cs with
  | [] => []
  | c :: cs => checker_calls (clock 0%nat) u c ++ checker_run (λ n, clock (S n)) u cs
  end.
End updater.

(** The status a component was last given. *)
Definition status_update (component : string) (c : CheckerCall) : option string :=
  match c with
  | UpdateStatus component' status _ => if decide (component' = component) then Some status else None
  | RecordError _ _ => None
  end.
Definition reported (component : string) (cs : list CheckerCall) : option string :=
  last (omap (status_update component) cs).

(** ** What reaches the checker *)

(** The status a call of the hooks ends up giving the component. *)
Definition hook_status (u : DefaultStateHealthUpdater) (component : string) (c : HookCall)
    : option string :=
  match c with
  | ToHealth (UpdateComponentState component' state _) =>
      if decide (component' = component) then Some (health_text (state_health u state)) else None
  | _ => None
  end.

Section checker.
Context {TT : TimeText} {MR : MapRange}.

Lemma checker_run_statuses clock u component cs (Hu : healthChecker u = true) :
  omap (status_update component) (checker_run clock u cs) = omap (hook_status u component) cs.
Proof.
  revert clock. induction cs as [|c cs IH]; intros clock; [done|]. cbn [checker_run].
  rewrite omap_app, IH.
  destruct c as [|[c s md|c s err]| |]; cbn; unfold Updater_UpdateComponentState, Updater_RecordStateError;
    rewrite ?Hu; try done.
  cbn. by destruct (decide (c = component)).
Qed.

(** Copying a map over another one. *)
Lemma copy_over {V} (m base : gmap string V) :
  fold_left (λ acc kv, <[kv.1 := kv.2]> acc) (range m) base = m ∪ base.
Proof.
  rewrite <-(list_to_map_range m) at 2. generalize (range_NoDup m). generalize (range m).
  intros l. revert base. induction l as [|[k v] l IH]; intros base Hnd.
  - cbn. by rewrite map_empty_union.
  - rewrite fmap_cons in Hnd. apply NoDup_cons in Hnd as [Hk Hnd]. cbn [fold_left fst snd].
    rewrite IH by done. cbn. rewrite <-insert_union_r by (by apply not_elem_of_list_to_map_1).
    by rewrite <-insert_union_l.
Qed.

(** Remark: the metadata of the transition wins over the updater's own entries:
    with a key ["state"] the checker is told another state than the one
    entered. *)
Theorem transition_metadata_wins now component state md u (Hu : healthChecker u = true) :
  Updater_UpdateComponentState now component state md u =
    [UpdateStatus component (health_text (state_health u state))
       (map_of md ∪ {["state" := AnyString state; "timestamp" := AnyString (rfc3339 now)]})].
Proof. unfold Updater_UpdateComponentState. by rewrite Hu, copy_over. Qed.
End checker.

Section machine_health.
Context {T : Type} `{EqDecision0 : EqDecision T} `{!Countable T} {SK : StateKind T}.
Implicit Types (m : machine T).
Variables (h : ObservabilityHooks) (u : DefaultStateHealthUpdater) (o : nat).
Hypothesis (Hh : HealthUpdater h = true).

(** The goroutines a machine starts for its observers. *)
Definition is_notice (e : Effect T) : bool :=
  match e with OnTransition _ _ | OnTransitionFailed _ _ _ _ _ => true | _ => false end.
Definition goroutines (es : list (Effect T)) : list (Effect T) := filter is_notice es.
Definition status_of (s : T) : string := health_text (state_health u (show_state s)).
Definition statuses (es : list (Effect T)) : list string :=
  omap (hook_status u (ComponentName h)) (es ≫= hook_calls h o).

Lemma statuses_app es es' : statuses (es ++ es') = statuses es ++ statuses es'.
Proof. unfold statuses. by rewrite bind_app, omap_app. Qed.
Lemma statuses_one e :
  statuses [e] = match e with
                 | OnTransition o' tr => if decide (o' = o) then [status_of (To tr)] else []
                 | _ => []
                 end.
Proof using Hh.
  unfold statuses. cbn. rewrite app_nil_r.
  destruct e as [o' tr|o' from to err md| | | | |]; cbn; try done; destruct (decide (o' = o)); try done.
  - unfold Hooks_OnTransition. rewrite Hh.
    destruct (MetricsCollector h), (Logger h); cbn; by rewrite decide_True.
  - unfold Hooks_OnTransitionFailed. rewrite Hh. by destruct (MetricsCollector h), (Logger h); cbn.
Qed.
Lemma statuses_cons e es : statuses (e :: es) = statuses [e] ++ statuses es.
Proof. apply (statuses_app [e]). Qed.
Lemma statuses_silent es : (∀ e, e ∈ es → ∀ o' tr, e ≠ OnTransition o' tr) → statuses es = [].
Proof using Hh.
  induction es as [|e es IH]; intros Hes; [done|]. rewrite statuses_cons, IH by set_solver.
  rewrite statuses_one. destruct e; try done. exfalso. eapply Hes; [left|done].
Qed.
Lemma statuses_goroutines es : statuses (goroutines es) = statuses es.
Proof using Hh.
  induction es as [|e es IH]; [done|]. unfold goroutines in *. rewrite filter_cons, (statuses_cons e es).
  destruct (decide (is_notice e)) as [Hn|Hn]; [by rewrite statuses_cons, IH|].
  rewrite IH, statuses_one. by destruct e; try (exfalso; by apply Hn).
Qed.
Lemma statuses_perm es es' : es ≡ₚ es' → statuses es ≡ₚ statuses es'.
Proof. intros Hp. unfold statuses. by rewrite Hp. Qed.
Lemma statuses_notify tr os : o ∈ os →
  last (statuses ((λ o', OnTransition o' tr) <$> os)) = Some (status_of (To tr)).
Proof using Hh.
  assert (∀ os, Forall (.= status_of (To tr)) (statuses ((λ o', OnTransition o' tr) <$> os))) as Hall.
  { induction os0 as [|o' os0 IH]; [constructor|]. rewrite fmap_cons, statuses_cons, statuses_one.
    destruct (decide (o' = o)); [by constructor|done]. }
  intros Ho. destruct (last _) as [s|] eqn:E.
  - f_equal. apply last_Some_elem_of in E. by apply (proj1 (Forall_forall _ _) (Hall os)).
  - apply last_None in E. exfalso. induction os as [|o' os IH]; [by apply elem_of_nil in Ho|].
    rewrite fmap_cons, statuses_cons, statuses_one in E. destruct (decide (o' = o)) as [->|Hne]; [done|].
    apply elem_of_cons in Ho as [->|Ho]; [done|]. by apply IH.
Qed.

(** What a transition adds for the observers. *)
Lemma commit_notices now tid from to md m :
  ∃ rest, effects (commit now tid from to md m) = effects m
      ++ ((λ o, OnTransition o (record_of now tid from to md m)) <$> observers m) ++ rest
    ∧ ∀ e, e ∈ rest → is_notice e = false.
Proof.
  clear h Hh u. unfold commit, addToHistory, notifyTransition, collects. cbn.
  destruct (metrics m && MetricsEnabled (config m)); cbn;
    destruct (persistenceEnabled m && AutoSave (persistenceConfig m) && bool_decide (is_Some (persistence m)));
    cbn; rewrite <-?app_assoc; eexists; (split; [done || by rewrite app_nil_r|]); set_solver.
Qed.
Lemma commit_statuses now tid from to md m :
  statuses (effects (commit now tid from to md m)) =
    statuses (effects m)
    ++ statuses ((λ o, OnTransition o (record_of now tid from to md m)) <$> observers m).
Proof using Hh.
  destruct (commit_notices now tid from to md m) as (rest & -> & Hrest).
  rewrite !statuses_app, (statuses_silent rest), app_nil_r; [done|].
  intros e He o' tr ->. by apply Hrest in He.
Qed.
Lemma reject_statuses from to err md m :
  statuses (effects (reject from to err md m)) = statuses (effects m).
Proof using Hh.
  destruct (reject_fields from to err md m) as (_ & _ & _ & _ & ->).
  rewrite !statuses_app. rewrite (statuses_silent (_ <$> observers m)) by set_solver.
  rewrite (statuses_silent (if collects m then _ else _)), !app_nil_r; [done|].
  destruct (collects m); set_solver.
Qed.

Lemma statuses_entered es s :
  s ∈ statuses es → ∃ o' tr, OnTransition o' tr ∈ es ∧ s = status_of (To tr).
Proof using Hh.
  induction es as [|e es IH]; [by intros ?%elem_of_nil|]. rewrite statuses_cons, elem_of_app.
  intros [Hs|Hs].
  - rewrite statuses_one in Hs. destruct e as [o' tr| | | | | |]; try by apply elem_of_nil in Hs.
    destruct (decide (o' = o)); [|by apply elem_of_nil in Hs]. apply list_elem_of_singleton in Hs.
    exists o', tr. split; [left|done].
  - destruct (IH Hs) as (o' & tr & ? & ?). exists o', tr. split; [by right|done].
Qed.

(** The hooks are subscribed; and the status they gave last is the current
    state's. *)
Definition hooked m : Prop := o ∈ observers m ∧ well_formed m.
Definition synced m : Prop := last (statuses (effects m)) = Some (status_of (state m)).
(** As long as nothing is restored they are in step from the beginning. *)
Definition health_current m : Prop := if decide (history m = []) then statuses (effects m) = [] else synced m.

Lemma transition_cases now tid to md m :
  hooked m →
  let m' := (TransitionWithContext now tid to md m).1 in
  hooked m' ∧ if decide (accepts m (state m) to) then history m' ≠ [] ∧ synced m'
              else history m' = history m ∧ state m' = state m ∧ statuses (effects m') = statuses (effects m).
Proof using Hh.
  intros (Ho & Hwf). cbv zeta. destruct (decide (accepts m (state m) to)) as [Hacc|Hrej].
  - rewrite Transition_accepted by done. cbn [fst].
    destruct (commit_fields now tid (state m) to md m Hwf) as ((Hcfg & _ & _ & Hobs & _) & Hst & _ & Hhist & _).
    pose proof (commit_statuses now tid (state m) to md m) as Hs.
    set (m' := commit now tid (state m) to md m) in *.
    assert (max_history m' = max_history m) as Hmax by (unfold max_history; by rewrite Hcfg).
    split; [split; [by rewrite Hobs|unfold well_formed; rewrite Hcfg, Hmax, Hhist; split; [apply Hwf|apply length_keep]]|].
    split.
    + intros Hnil. rewrite Hhist in Hnil. apply (f_equal length) in Hnil. unfold keep in Hnil.
      rewrite length_drop, length_app in Hnil. cbn in Hnil.
      destruct Hwf as [Hpos _]. unfold max_history in Hnil. lia.
    + unfold synced. by rewrite Hs, last_app, statuses_notify, Hst.
  - destruct (Transition_rejected now tid to md m Hrej) as (err & e & ->). cbn [fst].
    destruct (reject_fields (state m) to err md m) as ((Hcfg & _ & _ & Hobs & _) & Hst & Hhist & _).
    pose proof (reject_statuses (state m) to err md m) as Hs.
    set (m' := reject (state m) to err md m) in *.
    assert (max_history m' = max_history m) as Hmax by (unfold max_history; by rewrite Hcfg).
    split; [split; [by rewrite Hobs|unfold well_formed; rewrite Hcfg, Hmax, Hhist; apply Hwf]|]. done.
Qed.
(** What one step without a restoration does to them. *)
Lemma calm_cases m m' :
  hooked m → calm_step m m' →
  hooked m' ∧ (history m' ≠ [] ∧ synced m'
               ∨ history m' = history m ∧ state m' = state m ∧ statuses (effects m') = statuses (effects m)).
Proof using Hh.
  intros Hk Hs. revert Hk. destruct Hs as [now tid to md m|now tid m|o' m|o' m|p id pc m|m]; intros Hk.
  - destruct (transition_cases now tid to md m Hk) as [? Hc]. split; [done|]. case_decide; auto.
  - destruct (transition_cases now tid (InitialState (config m)) (Some {["reset" := AnyBool true]}) m Hk)
      as [? Hc]. split; [done|]. case_decide; auto.
  - split; [|by right; destruct o']. destruct o' as [o'|]; [|done]. destruct Hk as (Ho & Hwf).
    split; [cbn; set_solver|exact Hwf].
  - rewrite Unsubscribe_id. auto.
  - split; [|by right; destruct p]. by destruct p.
  - split; [exact Hk|by right].
Qed.
Lemma hooked_step m m' : hooked m → sm_step m m' → hooked m'.
Proof using Hh u.
  intros Hk Hs. revert Hk. destruct Hs as [m m' Hs|p s id pc m (Hpos & _ & _ & full & _ & _ & Hhist)]; intros Hk.
  - by destruct (calm_cases m m' Hk Hs).
  - destruct Hk as [Ho _]. split; [exact Ho|]. unfold well_formed, max_history. cbn. rewrite Hhist.
    split; [done|apply length_keep].
Qed.
Lemma synced_calm m m' : hooked m ∧ synced m → rtc calm_step m m' → synced m'.
Proof using Hh.
  intros Hm Hrun. revert Hm. induction Hrun as [|m m1 m2 Hs _ IH]; intros [Hk Hsy]; [done|].
  apply IH. destruct (calm_cases m m1 Hk Hs) as [Hk1 [[_ ?]|(_ & Hst & Hss)]]; split; try done.
  unfold synced in *. by rewrite Hst, Hss.
Qed.
Lemma health_current_calm m m' : hooked m ∧ health_current m → rtc calm_step m m' → health_current m'.
Proof using Hh.
  intros Hm Hrun. revert Hm. induction Hrun as [|m m1 m2 Hs _ IH]; intros [Hk Hc]; [done|].
  apply IH. destruct (calm_cases m m1 Hk Hs) as [Hk1 [[Hne Hsy]|(Hhist & Hst & Hss)]]; (split; [done|]).
  - unfold health_current. by rewrite decide_False.
  - unfold health_current, synced in *. by rewrite Hhist, Hst, Hss.
Qed.
Lemma health_current_created now cfg m :
  CreateObservableStateMachine now cfg o = Ok m → hooked m ∧ health_current m.
Proof using Hh.
  unfold CreateObservableStateMachine. destruct (New now cfg) as [m0|] eqn:Hnew; [|done]. intros [= <-].
  destruct (explained_New now cfg m0 Hnew) as (Hwf & _).
  assert (history m0 = [] ∧ ∀ e, e ∈ effects m0 → ∀ o' tr, e ≠ OnTransition o' tr) as [Hhist Heff].
  { revert Hnew. unfold New. destruct (Rules cfg); [|done].
    destruct (MaxHistorySize cfg <=? 0); case_match; intros [= <-]; cbn; set_solver. }
  unfold health_current. split; [split; [cbn; set_solver|exact Hwf]|].
  cbn [Subscribe set_observers effects history state]. rewrite statuses_silent by exact Heff.
  by rewrite decide_True.
Qed.
(** Who has heard nothing was never notified. *)
Lemma statuses_none es tr : statuses es = [] → OnTransition o tr ∉ es.
Proof using Hh.
  induction es as [|e es IH]; intros Hs; [by apply not_elem_of_nil|].
  rewrite statuses_cons in Hs. apply app_eq_nil in Hs as [H1 H2].
  intros [<-|Hin]%elem_of_cons; [|by apply IH]. rewrite statuses_one, decide_True in H1 by done. done.
Qed.

Lemma reported_run `{!TimeText, !MapRange} clock es (Hu : healthChecker u = true) :
  reported (ComponentName h) (checker_run clock u (es ≫= hook_calls h o)) = last (statuses es).
Proof. unfold reported. by rewrite checker_run_statuses. Qed.
End machine_health.

(** C35: with the hooks and the default health updater installed.  As long as no
    snapshot is restored, whatever else is done with the machine, and its
    notifications are delivered in the order of the transitions, the checker last
    heard the status of the current state, and nothing before the first
    transition.  Restoring a snapshot ([EnablePersistence]) sets the state without
    a word to the observers, so that the checker keeps the status it had; from the
    next successful transition on it is in step again.  In any other order of
    delivery, and whatever is restored, it last heard the status of some state the
    machine has entered by a transition, and nothing only when there was none to
    be told of. *)
Theorem health_follows_machine {T} `{EqDecision0 : EqDecision T} `{!Countable T} {SK : StateKind T}
    {TT : TimeText} {MR : MapRange} (h : ObservabilityHooks) (u : DefaultStateHealthUpdater) (o : nat)
    (clock : nat → Z) (now : Z) (cfg : StateMachineConfig T) (m0 : machine T)
    (Hh : HealthUpdater h = true) (Hu : healthChecker u = true)
    (Hnew : CreateObservableStateMachine now cfg o = Ok m0) :
  let heard es := reported (ComponentName h) (checker_run clock u (es ≫= hook_calls h o)) in
  (∀ m, rtc calm_step m0 m →
     heard (goroutines (effects m)) =
       (if decide (History m = []) then None else Some (status_of u (Current m))))
  ∧ (∀ m p s id pc, rtc sm_step m0 m →
       let m' := EnablePersistence (Some p) (Some s) id pc m in
       Current m' = CurrentState s ∧ goroutines (effects m') = goroutines (effects m))
  ∧ (∀ m now tid to md m', rtc sm_step m0 m → accepts m (Current m) to →
       rtc calm_step (TransitionWithContext now tid to md m).1 m' →
       heard (goroutines (effects m')) = Some (status_of u (Current m')))
  ∧ ∀ m es, rtc sm_step m0 m → es ≡ₚ goroutines (effects m) →
      match heard es with
      | None => ∀ tr, OnTransition o tr ∉ effects m
      | Some s => ∃ o' tr, OnTransition o' tr ∈ effects m ∧ s = status_of u (To tr)
      end.
Proof.
  destruct (health_current_created h u o Hh now cfg m0 Hnew) as [Hk0 Hc0].
  assert (∀ m, rtc sm_step m0 m → hooked o m) as Hk.
  { intros m Hrun. clear Hc0 Hnew. induction Hrun as [|m0 m1 m2 Hstep _ IH]; [done|].
    apply IH. by eapply (hooked_step h u o Hh). }
  cbv beta zeta. split_and!.
  - intros m Hrun. rewrite reported_run, (statuses_goroutines h u o Hh) by done.
    pose proof (health_current_calm h u o Hh m0 m (conj Hk0 Hc0) Hrun) as Hc. unfold health_current, History in *.
    destruct (decide (history m = [])); [by rewrite Hc|exact Hc].
  - done.
  - intros m now' tid to md m' Hrun Hacc Hcalm. rewrite reported_run, (statuses_goroutines h u o Hh) by done.
    eapply (synced_calm h u o Hh); [|exact Hcalm].
    destruct (transition_cases h u o Hh now' tid to md m (Hk m Hrun)) as [Hk' Hc].
    rewrite decide_True in Hc by done. by destruct Hc.
  - intros m es Hrun Hes. rewrite reported_run by done. pose proof (statuses_perm h u o _ _ Hes) as Hperm.
    rewrite (statuses_goroutines h u o Hh) in Hperm.
    destruct (last (statuses h u o es)) as [s|] eqn:E.
    + apply (statuses_entered h u o Hh). rewrite <-Hperm. by apply last_Some_elem_of.
    + apply last_None in E. rewrite E in Hperm. apply Permutation_nil_l in Hperm.
      intros tr. by apply (statuses_none h u o Hh).
Qed.

(** Remark: each transition is notified by a goroutine of its own: after any two
    transitions in a row the checker can end up with the status of the state
    between them, which the machine has left for good. *)
Theorem health_can_be_stale {T} `{EqDecision0 : EqDecision T} `{!Countable T} {SK : StateKind T}
    {TT : TimeText} {MR : MapRange} (h : ObservabilityHooks) (u : DefaultStateHealthUpdater) (o : nat)
    (clock : nat → Z) (m : machine T) (a b : T) (t1 t2 : Z) (id1 id2 : string) (md1 md2 : gomap any)
    (Hh : HealthUpdater h = true) (Hu : healthChecker u = true) (Ho : o ∈ observers m)
    (Hwf : StateMachine.well_formed m) (Ha : accepts m (state m) a) (Hb : accepts m a b) :
  let m1 := (TransitionWithContext t1 id1 a md1 m).1 in
  let m2 := (TransitionWithContext t2 id2 b md2 m1).1 in
  Current m2 = b
  ∧ ∃ es, es ≡ₚ goroutines (effects m2)
      ∧ reported (ComponentName h) (checker_run clock u (es ≫= hook_calls h o)) = Some (status_of u a).
Proof.
  cbv zeta. rewrite (Transition_accepted t1 id1 a md1 m) by done. cbn [fst].
  destruct (commit_fields t1 id1 (state m) a md1 m Hwf) as ((Hcfg & Hval & _) & Hst & _).
  pose proof (commit_statuses h u o Hh t1 id1 (state m) a md1 m) as Hs1.
  set (m1 := commit t1 id1 (state m) a md1 m) in *.
  rewrite (Transition_accepted t2 id2 b md2 m1) by (unfold accepts in *; by rewrite Hst, Hcfg, Hval).
  cbn [fst]. split; [|].
  - unfold commit, addToHistory, notifyTransition, Current. cbn. by repeat case_match.
  - destruct (commit_notices t2 id2 (state m1) b md2 m1) as (rest & -> & _).
    set (new := _ ++ rest). exists (goroutines new ++ goroutines (effects m1)). split.
    { rewrite Permutation_app_comm. unfold goroutines. by rewrite <-filter_app. }
    rewrite reported_run by done. rewrite statuses_app, !(statuses_goroutines h u o Hh), Hs1, last_app, last_app.
    by rewrite (statuses_notify h u o Hh _ (observers m) Ho).
Qed.

(** ** What the metrics count *)

Section counting.
Context {T : Type} `{EqDecision0 : EqDecision T} `{!Countable T} {SK : StateKind T} {R : Type}.
Variable mk : SyncKitMetrics R.

(** The synckit collector behind the adapter, with its Prometheus counters. *)
Definition collector_calls (c : SyncCall) : list Metrics.Call :=
  match c with
  | SyncDuration operation duration => Adapter_RecordSyncDuration operation duration mk
  | SyncErrors operation errorType => Adapter_RecordSyncErrors operation errorType mk
  end.
Definition metric_calls (c : HookCall) : list Metrics.Call :=
  match c with
  | ToMetrics c => SyncKitMetricsAdapter c ≫= collector_calls
  | _ => []
  end.

(** The increments of a counter over all the label values that satisfy [p]. *)
Definition is_increment (d : Desc) (p : list string → bool) (c : Metrics.Call) : bool :=
  match c with Inc d' v => bool_decide (d' = d) && p v | _ => false end.
Definition increments (d : Desc) (p : list string → bool) (cs : list Metrics.Call) : nat :=
  length (filter (is_increment d p) cs).
Definition has_status (s : string) (v : list string) : bool := bool_decide (last v = Some s).

Lemma increments_app d p cs cs' : increments d p (cs ++ cs') = (increments d p cs + increments d p cs')%nat.
Proof. unfold increments. by rewrite filter_app, length_app. Qed.
#[local] Instance increments_proper d p : Proper ((≡ₚ) ==> eq) (increments d p).
Proof. intros cs cs' Hp. unfold increments. by rewrite Hp. Qed.

Definition succeeded (o : nat) (e : Effect T) : bool :=
  match e with OnTransition o' _ => bool_decide (o' = o) | _ => false end.
Definition failed (o : nat) (e : Effect T) : bool :=
  match e with OnTransitionFailed o' _ _ _ _ => bool_decide (o' = o) | _ => false end.

Lemma length_filter_cons {A} (f : A → bool) x l :
  length (filter f (x :: l)) = ((if f x then 1 else 0) + length (filter f l))%nat.
Proof. rewrite filter_cons. by destruct (f x). Qed.
Lemma increments_cons d p c cs :
  increments d p (c :: cs) = ((if is_increment d p c then 1 else 0) + increments d p cs)%nat.
Proof. apply length_filter_cons. Qed.
Lemma collector_calls_of c :
  increments (syncOpsTotal (labels mk)) (has_status "success") (collector_calls c) =
    (match c with SyncDuration _ _ => 1 | SyncErrors _ _ => 0 end)%nat
  ∧ increments (syncOpsTotal (labels mk)) (has_status "error") (collector_calls c) = 0%nat
  ∧ increments (syncErrorsTotal (labels mk)) (λ _, true) (collector_calls c) =
      (match c with SyncDuration _ _ => 0 | SyncErrors _ _ => 1 end)%nat.
Proof.
  assert (syncErrorsTotal (labels mk) ≠ syncOpsTotal (labels mk)) as Hne by done.
  destruct c as [op d|op t]; cbn [collector_calls].
  - change (Adapter_RecordSyncDuration op d mk) with
      [Inc (syncOpsTotal (labels mk)) [op; "success"]; Observe (syncOpsDuration (labels mk)) [op] d;
       SetToCurrentTime (syncLastSuccess (labels mk)) [op]].
    rewrite !increments_cons. cbn [is_increment]. rewrite (bool_decide_eq_true_2 (_ = _)) by done.
    by rewrite (bool_decide_eq_false_2 (syncOpsTotal _ = _)) by done.
  - change (Adapter_RecordSyncErrors op t mk) with [Inc (syncErrorsTotal (labels mk)) [op; t]].
    rewrite !increments_cons. cbn [is_increment].
    rewrite (bool_decide_eq_true_2 (syncErrorsTotal _ = syncErrorsTotal _)) by done.
    by rewrite (bool_decide_eq_false_2 (syncErrorsTotal _ = _)) by done.
Qed.
Lemma metric_calls_of h o e : MetricsCollector h = true →
  let cs := hook_calls h o e ≫= metric_calls in
  increments (syncOpsTotal (labels mk)) (has_status "success") cs = (if succeeded o e then 2 else 0)%nat
  ∧ increments (syncOpsTotal (labels mk)) (has_status "error") cs = 0%nat
  ∧ increments (syncErrorsTotal (labels mk)) (λ _, true) cs = (if failed o e then 1 else 0)%nat.
Proof.
  intros Hm. cbv zeta.
  assert (hook_calls h o e ≫= metric_calls =
    (match e with
     | OnTransition o' tr => if decide (o' = o) then
         [SyncDuration (ComponentName h +:+ "_" +:+ show_state (From tr) +:+ "_to_" +:+ show_state (To tr)) (Duration tr);
          SyncDuration (ComponentName h +:+ "_state_" +:+ show_state (From tr)) (Duration tr)] else []
     | OnTransitionFailed o' _ _ err _ => if decide (o' = o) then
         [SyncErrors (ComponentName h +:+ "_transition") (error_string err)] else []
     | _ => [] end) ≫= collector_calls) as ->.
  { destruct e as [o' tr|o' from to err md| | | | |]; try done; cbn [hook_calls];
      (destruct (decide (o' = o)); [|done]); unfold Hooks_OnTransition, Hooks_OnTransitionFailed;
      rewrite Hm; by destruct (HealthUpdater h), (Logger h). }
  destruct e as [o' tr|o' from to err md| | | | |]; try done; cbn [succeeded failed];
    (destruct (decide (o' = o)) as [->|Hn];
      [rewrite bool_decide_eq_true_2 by done|by rewrite bool_decide_eq_false_2 by done]).
  - rewrite !bind_cons, !increments_app.
    repeat match goal with |- context [collector_calls ?c] =>
      destruct (collector_calls_of c) as (-> & -> & ->) end. done.
  - rewrite !bind_cons, !increments_app.
    by destruct (collector_calls_of (SyncErrors (ComponentName h +:+ "_transition") (error_string err))) as (-> & -> & ->).
Qed.
End counting.

(** Remark: whatever the order in which the goroutines of the notifications run, and
    interleave, a machine observed through the metrics adapter counts as two
    successful synchronisations for every transition, into a failed state as
    well as into any other, counts no operation as failed, and counts one error
    for every refused transition. *)
Theorem transitions_count_as_synchronisations {T} `{EqDecision0 : EqDecision T} `{!Countable T}
    {SK : StateKind T} {R} (mk : SyncKitMetrics R) (h : ObservabilityHooks) (o : nat)
    (es : list (Effect T)) (calls : list HookCall)
    (Hm : MetricsCollector h = true) (Hcalls : calls ≡ₚ es ≫= hook_calls h o) :
  let cs := calls ≫= metric_calls mk in
  increments (syncOpsTotal (labels mk)) (has_status "success") cs = (2 * length (filter (succeeded o) es))%nat
  ∧ increments (syncOpsTotal (labels mk)) (has_status "error") cs = 0%nat
  ∧ increments (syncErrorsTotal (labels mk)) (λ _, true) cs = length (filter (failed o) es).
Proof.
  cbv zeta. rewrite !(increments_proper _ _ _ _ (bind_Permutation _ _ _ Hcalls)). clear calls Hcalls.
  induction es as [|e es (IH1 & IH2 & IH3)]; [done|].
  rewrite bind_cons, bind_app, !increments_app, IH1, IH2, IH3.
  destruct (metric_calls_of mk h o e Hm) as (-> & -> & ->). rewrite !length_filter_cons.
  destruct (succeeded o e), (failed o e); split_and!; lia.
Qed.

(** Remark: the health each state is reported with.  The key meant for a failed
    transport is the text of no state; a failed transport is critical only
    because it shares its text with a failed sync.  Shutting down, escalation
    and manual review have no entry and pass for healthy. *)
Theorem state_health_table (u := NewDefaultStateHealthUpdater true) :
  (λ s, state_health u (SyncState_String s)) <$> sync_states =
    [StateHealthHealthy; StateHealthHealthy; StateHealthHealthy; StateHealthHealthy;
     StateHealthDegraded; StateHealthHealthy; StateHealthCritical; StateHealthDegraded]
  ∧ (λ s, state_health u (TransportState_String s)) <$> transport_states =
    [StateHealthUnhealthy; StateHealthDegraded; StateHealthHealthy; StateHealthDegraded;
     StateHealthCritical; StateHealthHealthy]
  ∧ (λ s, state_health u (dcr_String s)) <$> dcr_states =
    [StateHealthHealthy; StateHealthHealthy; StateHealthHealthy; StateHealthHealthy;
     StateHealthHealthy; StateHealthHealthy; StateHealthCritical]
  ∧ (∀ s, SyncState_String s ≠ "transport_failed") ∧ (∀ s, TransportState_String s ≠ "transport_failed")
  ∧ (∀ s, dcr_String s ≠ "transport_failed").
Proof. split_and!; [reflexivity..| | |]; by intros []. Qed.

(** Remark: the hooks panic on a refused transition exactly when they have a
    logger and are given no error, after the metrics and the health updater have
    been told; a machine always gives them one. *)
Theorem failure_hook_panics {T} {SK : StateKind T} (h : ObservabilityHooks) (from to : T)
    (err : option error) (md : gomap any) :
  let '(calls, r) := Hooks_OnTransitionFailed h from to err md in
  ((∃ why, r = Panic why) ↔ Logger h = true ∧ err = None)
  ∧ (HealthUpdater h = true → ToHealth (RecordStateError (ComponentName h) (show_state from) err) ∈ calls)
  ∧ (MetricsCollector h = true → ToMetrics
       (RecordStateTransitionError (ComponentName h) (show_state from) (show_state to)
          (match err with Some e => error_string e | None => "transition_failed" end) md) ∈ calls).
Proof.
  unfold Hooks_OnTransitionFailed.
  destruct (Logger h), err as [e|]; (split; [naive_solver|]);
    (split; intros ->); set_solver.
Qed.

(** ** A run *)
Definition run_text : TimeText := {| rfc3339 := λ _, "now"; duration_string := λ _, "1s" |}.
Definition run_hooks : ObservabilityHooks := NewObservabilityHooks true false true true "sync".
Definition run_updater : DefaultStateHealthUpdater := NewDefaultStateHealthUpdater true.
Definition observed_machine : machine SyncState :=
  match CreateObservableStateMachine 0 sync_config 7 with Ok m => m | Err _ => new_sync_machine 0 end.

(** A failed sync is critical; a snapshot of an idle machine makes the machine
    idle again, and the checker hears nothing of it. *)
Lemma health_follows_machine_witness :
  let m := (Transition 2 "b" SyncFailed (Transition 1 "a" SyncInitializing observed_machine).1).1 in
  let heard m := reported "sync" (checker_run (TT := run_text) (MR := canonical_range) (λ _, 0) run_updater
    (goroutines (effects m) ≫= hook_calls run_hooks 7)) in
  heard m = Some "critical"
  ∧ let m' := EnablePersistence (Some 0%nat) (Some (createSnapshot 3 observed_machine)) "id" (mkPersistence false) m in
    Current m' = SyncIdle ∧ heard m' = Some "critical".
Proof.
  cbv zeta. set (m := (Transition 2 "b" SyncFailed _).1).
  assert (CreateObservableStateMachine 0 sync_config 7 = Ok observed_machine) as Hnew by reflexivity.
  assert (rtc calm_step observed_machine m) as Hcalm.
  { eapply rtc_l; [apply (st_transition 1 "a" SyncInitializing None)|].
    eapply rtc_l; [apply (st_transition 2 "b" SyncFailed None)|]. apply rtc_refl. }
  assert (rtc sm_step observed_machine m) as Hrun.
  { eapply rtc_l; [apply st_calm, (st_transition 1 "a" SyncInitializing None)|].
    eapply rtc_l; [apply st_calm, (st_transition 2 "b" SyncFailed None)|]. apply rtc_refl. }
  destruct (health_follows_machine (TT := run_text) (MR := canonical_range)
    run_hooks run_updater 7 (λ _, 0) 0 sync_config observed_machine eq_refl eq_refl Hnew) as (Hin & Hrestore & _).
  specialize (Hin m Hcalm). split; [exact Hin|].
  destruct (Hrestore m 0%nat (createSnapshot 3 observed_machine) "id" (mkPersistence false) Hrun) as [Hst Hgo].
  split; [exact Hst|]. rewrite Hgo. exact Hin.
Defined.
Definition initializing_machine : machine SyncState := (Transition 1 "a" SyncInitializing observed_machine).1.
Lemma health_can_be_stale_witness :
  let m1 := (TransitionWithContext 2 "b" SyncFailed None initializing_machine).1 in
  let m2 := (TransitionWithContext 3 "c" SyncIdle None m1).1 in
  Current m2 = SyncIdle
  ∧ ∃ es, es ≡ₚ goroutines (effects m2)
     ∧ reported (ComponentName run_hooks) (checker_run (TT := run_text) (MR := canonical_range)
         (λ _, 0) run_updater (es ≫= hook_calls run_hooks 7)) = Some (status_of run_updater SyncFailed).
Proof.
  assert (7%nat ∈ observers initializing_machine) as Ho by (apply (bool_decide_unpack _); reflexivity).
  assert (StateMachine.well_formed initializing_machine) as Hwf by (split; vm_compute; [done|lia]).
  assert (accepts initializing_machine (state initializing_machine) SyncFailed) as Ha by (by split; vm_compute).
  assert (accepts initializing_machine SyncFailed SyncIdle) as Hb by (by split; vm_compute).
  exact (health_can_be_stale (TT := run_text) (MR := canonical_range) run_hooks run_updater 7
    (λ _, 0) initializing_machine SyncFailed SyncIdle 2 3 "b" "c" None None eq_refl eq_refl Ho Hwf Ha Hb).
Defined.
Lemma transitions_count_witness :
  let m := (Transition 2 "b" SyncFailed (Transition 1 "a" SyncInitializing observed_machine).1).1 in
  let mk := mkMetrics ([] : list Desc) {["service" := "demo"]} in
  let cs := (effects m ≫= hook_calls run_hooks 7) ≫= metric_calls mk in
  increments (syncOpsTotal (labels mk)) (has_status "success") cs = 4%nat.
Proof.
  cbv zeta. set (m := (Transition 2 "b" SyncFailed _).1).
  exact (proj1 (transitions_count_as_synchronisations (mkMetrics ([] : list Desc) {["service" := "demo"]})
    run_hooks 7 (effects m) _ eq_refl (reflexivity _))).
Defined.
