(* ===== verification/ProjectionMetrics.v ===== *)
(** * Metrics of projections (src/projection/metrics.go; what runner.go records)

    The package's own vectors with their registration, recordings, reset and
    default instance; then what a run of the runner tells the collector it is
    given, and what the counters and the health gauge make of it.  Registries
    and calls are those of [Metrics]; a vector is the set of its series. *)
From S2P Require Import Prelude Types Errors Interfaces Metrics Projection.
From S2P Require MemStore.
From stdpp Require Import options.

(** ** The vectors *)
Section vectors.
Implicit Type l : Labels.
Definition opsTotal l := mkDesc "projection" "operations_total" l CounterVec ["projection"; "operation"; "status"].
Definition opsDuration l :=
  mkDesc "projection" "operation_duration_seconds" l
    (HistogramVec [10; 50; 100; 250; 500; 1000; 2500; 5000; 10000; 25000; 50000; 100000]) ["projection"; "operation"].
Definition eventsProcessed l :=
  mkDesc "projection" "events_processed_total" l CounterVec ["projection"; "operation"].
Definition batchSizes l :=
  mkDesc "projection" "batch_size" l
    (HistogramVec [10000; 50000; 100000; 250000; 500000; 1000000; 2500000; 5000000; 10000000; 20000000]) ["projection"].
Definition errorsTotal l :=
  mkDesc "projection" "errors_total" l CounterVec ["projection"; "operation"; "error_type"].
Definition lastSuccess l := mkDesc "projection" "last_success_timestamp" l GaugeVec ["projection"; "operation"].
Definition lag l := mkDesc "projection" "lag_seconds" l GaugeVec ["projection"].
Definition health l := mkDesc "projection" "health" l GaugeVec ["projection"].
Definition projection_metrics l : list Desc :=
  [opsTotal l; opsDuration l; eventsProcessed l; batchSizes l; errorsTotal l; lastSuccess l; lag l; health l].
End vectors.

Section metrics.
Context {R : Type} {RG : Registry R}.

Record ProjectionMetrics := mkPM { pm_registry : R; pm_labels : Labels }.
Inductive ProjectionMetricsOption := WithProjectionRegistry (r : R) | WithProjectionLabels (l : Labels).
Definition apply_projection_option (m : ProjectionMetrics) (o : ProjectionMetricsOption) : ProjectionMetrics :=
  match o with
  | WithProjectionRegistry r => mkPM r (pm_labels m)
  | WithProjectionLabels l => mkPM (pm_registry m) (l ∪ pm_labels m)
  end.
Definition registerProjectionMetrics (m : ProjectionMetrics) : outcome ProjectionMetrics :=
  let* r := MustRegister (projection_metrics (pm_labels m)) (pm_registry m) in
  Done (mkPM r (pm_labels m)).
Definition NewProjectionMetrics (serviceName : string) (opts : list ProjectionMetricsOption)
    : outcome ProjectionMetrics :=
  registerProjectionMetrics
    (fold_left apply_projection_option opts (mkPM NewRegistry {["service" := serviceName]})).
Implicit Type m : ProjectionMetrics.

Definition PM_RecordProjectionOperation (projection operation : string) (duration : Z) (success : bool)
    (events : Z) m : list Call :=
  let status := if success then "success" else "error" in
  [Inc (opsTotal (pm_labels m)) [projection; operation; status];
   Observe (opsDuration (pm_labels m)) [projection; operation] duration]
  ++ (if 0 <? events then
        [Add (eventsProcessed (pm_labels m)) [projection; operation] events;
         Observe (batchSizes (pm_labels m)) [projection] events]
      else [])
  ++ (if success then [SetToCurrentTime (lastSuccess (pm_labels m)) [projection; operation];
                       SetTo (health (pm_labels m)) [projection] 1] else []).
Definition PM_RecordProjectionError (projection operation errorType : string) m : list Call :=
  [Inc (errorsTotal (pm_labels m)) [projection; operation; errorType];
   SetTo (health (pm_labels m)) [projection] 0].
Definition PM_UpdateProjectionLag (projection : string) (lag_ : Z) m : list Call :=
  [SetTo (lag (pm_labels m)) [projection] lag_].
Definition PM_SetProjectionHealth (projection : string) (healthy : bool) m : list Call :=
  [SetTo (health (pm_labels m)) [projection] (if healthy then 1 else 0)].

(** The values do not come from the vectors. *)
Definition GetProjectionMetrics (projection : string) m : gmap string Z :=
  {["operations_total" := 0; "errors_total" := 0; "lag_seconds" := 0; "health" := 1]}.

(** ** Series and their deletion *)
Definition Series : Type := string * list string.
Definition series_of (c : Call) : Series :=
  match c with
  | Inc d v | Add d v _ | Observe d v _ | SetTo d v _ | SetToCurrentTime d v => (fq_name d, v)
  end.
(** Whether every label given has that value; labels and values correspond by
    position. *)
Definition partial_match (d : Desc) (given : list (string * string)) (values : list string) : bool :=
  forallb (λ kv, bool_decide (kv ∈ zip (variable d) values)) given.
Definition DeletePartialMatch (d : Desc) (given : list (string * string)) (ss : list Series) : list Series :=
  filter (λ s : Series, ¬ (s.1 = fq_name d ∧ partial_match d given s.2 = true)) ss.
Definition DeleteLabelValues (d : Desc) (values : list string) (ss : list Series) : list Series :=
  filter (λ s : Series, ¬ (s.1 = fq_name d ∧ s.2 = values)) ss.

Definition ResetProjectionMetrics (projection : string) m (ss : list Series) : list Series :=
  let l := pm_labels m in
  let ss := DeletePartialMatch (opsTotal l) [("projection", projection)] ss in
  let ss := DeletePartialMatch (eventsProcessed l) [("projection", projection)] ss in
  let ss := DeletePartialMatch (errorsTotal l) [("projection", projection)] ss in
  let ss := DeletePartialMatch (lastSuccess l) [("projection", projection)] ss in
  let ss := DeleteLabelValues (batchSizes l) [projection] ss in
  let ss := DeleteLabelValues (health l) [projection] ss in
  let ss := DeleteLabelValues (lag l) [projection] ss in
  DeletePartialMatch (opsDuration l) [("projection", projection)] ss.

(** ** The default instance: a package variable, nil at first. *)
Definition InitDefaultProjectionMetrics (serviceName : string) (opts : list ProjectionMetricsOption)
    (default : option ProjectionMetrics) : outcome (option ProjectionMetrics) :=
  let* m := NewProjectionMetrics serviceName opts in Done (Some m).
Definition GetDefaultProjectionMetrics (default : option ProjectionMetrics) := default.
Definition RecordProjectionApplied (name : string) (count duration : Z) (operation : string)
    (default : option ProjectionMetrics) : list Call :=
  match default with
  | Some m => PM_RecordProjectionOperation name operation duration true count m
  | None => []
  end.
Definition Default_RecordProjectionError (name errorType : string) (default : option ProjectionMetrics)
    : list Call :=
  match default with Some m => PM_RecordProjectionError name "unknown" errorType m | None => [] end.
Definition Default_UpdateProjectionLag (name : string) (lag_ : Z) (default : option ProjectionMetrics)
    : list Call :=
  match default with Some m => PM_UpdateProjectionLag name lag_ m | None => [] end.
Definition Default_SetProjectionHealth (name : string) (healthy : bool) (default : option ProjectionMetrics)
    : list Call :=
  match default with Some m => PM_SetProjectionHealth name healthy m | None => [] end.
End metrics.
Arguments ProjectionMetrics : clear implicits.

(** ** What the runner's calls record *)
Section runner_metrics.
Context {R : Type}.
Variable mk : SyncKitMetrics R.
Definition record_call (duration : Z) (c : MetricsCall) : list Call :=
  match c with
  | ProjectionOperation p op success events =>
      RecordProjectionOperation p op duration success (Z.of_nat events) mk
  | ProjectionError p op errorType => RecordProjectionError p op errorType mk
  end.
Fixpoint record_all (durations : nat → Z) (cs : list MetricsCall) : list Call :=
  match cs with
  | [] => []
  | c :: cs => record_call (durations 0%nat) c ++ record_all (λ n, durations (S n)) cs
  end.
End runner_metrics.
(** The value a gauge was last set to. *)
Definition set_value (d : Desc) (values : list string) (c : Call) : option Z :=
  match c with
  | SetTo d' v x => if decide (d' = d ∧ v = values) then Some x else None
  | _ => None
  end.
Definition gauge (d : Desc) (values : list string) (cs : list Call) : option Z :=
  last (omap (set_value d values) cs).

(** ** What a run tells the collector *)
Section runs.
Context {St O P : Type} {ES : EventStore St} {OS : OffsetStore O} {PR : Projector P}.
Context {AP : AtomicProjector P}.
Notation runner := (runner St O P).
Implicit Types r : runner.

Definition batch_done (name : string) (n : nat) : MetricsCall :=
  ProjectionOperation name OperationApplyBatch true n.
(** What a failing batch adds. *)
Definition batch_error (name : string) (cs : list MetricsCall) : Prop :=
  ∃ ty, cs = [ProjectionError name OperationApplyBatch ty] ∧ ty ∈ [ErrorTypeApply; ErrorTypeOffset].

Lemma ApplyBatch_calls ctx n batch r r' err :
  ApplyBatch ctx n batch r = Done (r', err) → recording r = true → batch ≠ [] →
  recording r' = true ∧ p_Name (r_projector r') = p_Name (r_projector r) ∧ batchSize r' = batchSize r
  ∧ ∃ cs, r_calls r' = r_calls r ++ cs
    ∧ match err with
      | None => cs = [batch_done (p_Name (r_projector r)) (length batch)]
      | Some _ => batch_error (p_Name (r_projector r)) cs
      end.
Proof using AP.
  intros Hrun Hrec Hne. unfold ApplyBatch in Hrun.
  destruct (last batch) as [ev|] eqn:Hl; [|by apply last_None in Hl].
  destruct (apply_atomic (ctx n) batch (r_projector r)) as (p & perr & Hp & Hname & _).
  rewrite Hp in Hrun. cbn [obind] in Hrun. unfold recording in *.
  destruct perr as [e|]; [injection Hrun as <- <-|].
  { split_and!; [done|done|done|]. eexists. unfold record, recording. cbn. rewrite Hrec.
    split; [done|]. eexists. split; [done|]. set_solver. }
  destruct (os_Set _ _ _ _) as [[o oerr]|w]; cbn [obind] in Hrun; [|done].
  destruct oerr as [e|]; injection Hrun as <- <-;
    (split_and!; [done|done|done|]); eexists; unfold record, recording; cbn; rewrite Hrec; (split; [done|]).
  - eexists. split; [done|]. set_solver.
  - done.
Qed.

(** The batches that were applied, and what is left behind by the one that was
    not. *)
Lemma apply_loop_calls fuel ctx n after total lastv r r' t l err :
  apply_loop fuel ctx n after total lastv r = Done (r', (t, l, err)) → recording r = true →
  recording r' = true ∧ ∃ sizes rest,
    t = (total + sum_list sizes)%nat
    ∧ r_calls r' = r_calls r ++ (batch_done (p_Name (r_projector r)) <$> sizes) ++ rest
    ∧ Forall (λ s, 0 < s)%nat sizes
    ∧ match err with
      | None => rest = []
      | Some _ => rest = [] ∨ batch_error (p_Name (r_projector r)) rest
      end.
Proof using AP.
  revert n after total lastv r. induction fuel as [|fuel IH]; intros n after total lastv r Hrun Hrec; [done|].
  cbn [apply_loop] in Hrun. destruct (es_Load _ _ _ _) as [[evs|e]|w]; cbn [obind] in Hrun; [| |done].
  2: { injection Hrun as <- <- <- <-. split; [done|]. exists [], []. cbn. rewrite app_nil_r. split_and!; auto. }
  set (batch := if _ <? _ then _ else _) in Hrun.
  destruct (last batch) as [ev|] eqn:Hl.
  2: { injection Hrun as <- <- <- <-. split; [done|]. exists [], []. cbn. rewrite app_nil_r. split_and!; auto. }
  assert (batch ≠ []) as Hne by by intros ->.
  destruct (ApplyBatch ctx (S n) batch r) as [[r1 berr]|w] eqn:Hb; cbn [obind] in Hrun; [|done].
  destruct (ApplyBatch_calls ctx (S n) batch r r1 berr Hb Hrec Hne) as (Hrec1 & Hname & Hsize & cs & Hcs & Herr).
  destruct berr as [e|].
  { injection Hrun as <- <- <- <-. split; [done|]. exists [], cs. cbn. split_and!; auto. }
  subst cs. assert (0 < length batch)%nat as Hpos by (destruct batch; [done|cbn; lia]).
  destruct (Z.of_nat (length batch) <? batchSize r1).
  - injection Hrun as <- <- <- <-. split; [done|]. exists [length batch], []. cbn. split_and!; auto with lia.
  - destruct (IH _ _ _ _ _ Hrun Hrec1) as (Hrec' & sizes & rest & -> & Hcalls & Hall & Hrest).
    split; [done|]. exists (length batch :: sizes), rest. rewrite Hname in *. rewrite Hcalls, Hcs. cbn.
    split_and!; [lia|by rewrite <-!app_assoc|by constructor|done].
Qed.

(** The recordings of a whole run. *)
Definition run_record (name : string) (applied : nat) (err : option error) (cs : list MetricsCall) : Prop :=
  ∃ sizes rest, applied = sum_list sizes ∧ Forall (λ s, 0 < s)%nat sizes
    ∧ cs = (batch_done name <$> sizes) ++ rest
    ∧ match err with
      | None => rest = if (0 <? applied)%nat
                       then [ProjectionOperation name OperationApplySince true applied] else []
      | Some _ => ∃ before, rest = before ++ [ProjectionError name OperationApplySince
                      (if (0 <? applied)%nat then ErrorTypeApply else ErrorTypeLoad)]
          ∧ (before = [] ∨ batch_error name before
             ∨ before = [ProjectionError name OperationApplySince ErrorTypeOffset] ∧ sizes = [])
      end.

Lemma ApplySince_calls fuel ctx r r' a l err :
  ApplySince fuel ctx r = Done (r', (a, l, err)) → recording r = true →
  recording r' = true ∧ ∃ cs, r_calls r' = r_calls r ++ cs ∧ run_record (p_Name (r_projector r)) a err cs.
Proof using AP.
  unfold ApplySince, apply_since. intros Hrun Hrec.
  destruct (getStartVersion ctx r) as [[v|e]|w]; cbn [obind] in Hrun; [| |done].
  2: { injection Hrun as <- <- <- <-. unfold record, recording in *. cbn. rewrite Hrec. cbn. split; [done|].
       eexists. rewrite <-app_assoc. split; [reflexivity|]. eexists [], _. split_and!; [done|constructor|reflexivity|].
       eexists [_]. split; [reflexivity|]. auto. }
  destruct (apply_loop fuel ctx 2 v 0 None r) as [[r1 [[t l1] err1]]|w] eqn:Hl; cbn [obind] in Hrun; [|done].
  destruct (apply_loop_calls _ _ _ _ _ _ _ _ _ _ _ Hl Hrec) as (Hrec1 & sizes & rest & Ht & Hcalls & Hall & Hrest).
  cbn in Ht. destruct err1 as [e|]; cbn [obind] in Hrun; injection Hrun as <- <- <- <-.
  - split; [done|]. unfold record. rewrite Hrec1. cbn [r_calls]. rewrite Hcalls, <-!app_assoc.
    eexists. split; [reflexivity|]. eexists sizes, _. split_and!; [done|done|reflexivity|].
    exists rest. split; [done|]. tauto.
  - subst rest. rewrite app_nil_r in Hcalls.
    destruct (0 <? t)%nat eqn:Hlt.
    + split; [done|]. unfold record. rewrite Hrec1. cbn [r_calls]. rewrite Hcalls, <-!app_assoc.
      eexists. split; [reflexivity|]. eexists sizes, _. split_and!; [done|done|reflexivity|]. by rewrite Hlt.
    + split; [done|]. rewrite Hcalls. eexists. split; [reflexivity|].
      exists sizes, []. rewrite app_nil_r, Hlt. by split_and!.
Qed.
End runs.

(** ** The counters and the gauge *)
Section values.
Context {R : Type}.
Variable mk : SyncKitMetrics R.
Notation L := (labels mk).

Definition events_of (name op : string) (c : MetricsCall) : Z :=
  match c with
  | ProjectionOperation n o _ k => if decide (n = name ∧ o = op) then Z.of_nat k else 0
  | ProjectionError _ _ _ => 0
  end.
Definition errors_of (name op ty : string) (c : MetricsCall) : Z :=
  match c with
  | ProjectionOperation _ _ _ _ => 0
  | ProjectionError n o t => if decide (n = name ∧ o = op ∧ t = ty) then 1 else 0
  end.
Definition health_of (name : string) (c : MetricsCall) : option Z :=
  match c with
  | ProjectionOperation n _ success _ => if decide (n = name ∧ success = true) then Some 1 else None
  | ProjectionError n _ _ => if decide (n = name) then Some 0 else None
  end.
Definition total (f : MetricsCall → Z) (cs : list MetricsCall) : Z := foldr (λ c n, f c + n) 0 cs.

Lemma record_call_values t c name op ty :
  counter (projectionEventsProcessed L) [name; op] (record_call mk t c) = events_of name op c
  ∧ counter (projectionErrorsTotal L) [name; op; ty] (record_call mk t c) = errors_of name op ty c
  ∧ omap (set_value (projectionHealth L) [name]) (record_call mk t c) =
      match health_of name c with Some x => [x] | None => [] end.
Proof.
  destruct c as [n o s k|n o t']; cbn [record_call events_of errors_of health_of].
  - unfold RecordProjectionOperation. rewrite !counter_app, !omap_app.
    assert (counter (projectionEventsProcessed L) [name; op]
      (if 0 <? Z.of_nat k then [Add (projectionEventsProcessed L) [n; o] (Z.of_nat k);
         Observe (projectionBatchSize L) [n] (Z.of_nat k)] else [])
      = if decide (n = name ∧ o = op) then Z.of_nat k else 0) as ->.
    { destruct (Z.ltb_spec 0 (Z.of_nat k)); cbn -[decide]; repeat case_decide; naive_solver lia. }
    destruct s, (0 <? Z.of_nat k); cbn -[decide]; unfold projectionOpsTotal, projectionErrorsTotal, projectionEventsProcessed,
      projectionHealth; repeat case_decide; cbn; naive_solver lia.
  - cbn -[decide]. unfold projectionErrorsTotal, projectionEventsProcessed, projectionHealth.
    repeat case_decide; cbn; naive_solver lia.
Qed.
Lemma record_all_values dur cs name op ty :
  counter (projectionEventsProcessed L) [name; op] (record_all mk dur cs) = total (events_of name op) cs
  ∧ counter (projectionErrorsTotal L) [name; op; ty] (record_all mk dur cs) = total (errors_of name op ty) cs
  ∧ gauge (projectionHealth L) [name] (record_all mk dur cs) = last (omap (health_of name) cs).
Proof.
  assert (omap (set_value (projectionHealth L) [name]) (record_all mk dur cs) = omap (health_of name) cs) as Hg.
  { revert dur. induction cs as [|c cs IH]; intros dur; [done|]. cbn [record_all].
    destruct (record_call_values (dur 0%nat) c name op ty) as (_ & _ & H). rewrite omap_app, H, IH.
    cbn. by destruct (health_of name c). }
  split_and!; [| |unfold gauge; by rewrite Hg]; clear Hg; revert dur;
    (induction cs as [|c cs IH]; intros dur; [done|]); cbn [record_all]; rewrite counter_app, IH;
    destruct (record_call_values (dur 0%nat) c name op ty) as (H1 & H2 & _); [by rewrite H1|by rewrite H2].
Qed.

Lemma calls_total_app f cs cs' : total f (cs ++ cs') = total f cs + total f cs'.
Proof.
  induction cs as [|c cs IH]; [done|].
  change (f c + total f (cs ++ cs') = f c + total f cs + total f cs'). lia.
Qed.
Lemma calls_total_cons f c cs : total f (c :: cs) = f c + total f cs.
Proof. done. Qed.
Lemma total_batches name op sizes :
  total (events_of name op) (batch_done name <$> sizes)
    = if decide (op = OperationApplyBatch) then Z.of_nat (sum_list sizes) else 0.
Proof.
  induction sizes as [|s sizes IH]; [cbn; by case_decide|]. rewrite fmap_cons, calls_total_cons, IH. cbn -[decide].
  repeat case_decide; naive_solver lia.
Qed.
Lemma total_batch_errors name op ty sizes :
  total (errors_of name op ty) (batch_done name <$> sizes) = 0.
Proof. by induction sizes. Qed.
Lemma health_batches name sizes : Forall (.= 1) (omap (health_of name) (batch_done name <$> sizes)).
Proof. induction sizes as [|s sizes IH]; [constructor|]. cbn. rewrite decide_True by done. by constructor. Qed.
Lemma last_all_equal {A} (x : A) l : Forall (.= x) l → last l = if decide (l = []) then None else Some x.
Proof.
  intros Hl. destruct (last l) as [y|] eqn:E.
  - rewrite decide_False by by intros ->. f_equal. apply last_Some_elem_of in E. by eapply Forall_forall in Hl.
  - apply last_None in E. by rewrite decide_True.
Qed.
(** An error of the runner is none of the batches'. *)
Lemma batch_error_totals name op ty cs : batch_error name cs →
  total (events_of name op) cs = 0 ∧ total (errors_of name OperationApplySince ty) cs = 0.
Proof.
  intros (t & -> & _). split; [done|]. cbn -[decide]. rewrite decide_False; [done|]. by intros (_ & ? & _).
Qed.

Lemma run_record_values name a err cs op :
  run_record name a err cs →
  total (events_of name OperationApplyBatch) cs = Z.of_nat a
  ∧ total (events_of name OperationApplySince) cs = (match err with None => Z.of_nat a | Some _ => 0 end)
  ∧ match err with
    | None => (∀ ty, total (errors_of name op ty) cs = 0)
        ∧ last (omap (health_of name) cs) = (if (0 <? a)%nat then Some 1 else None)
    | Some _ => last (omap (health_of name) cs) = Some 0
        ∧ ∀ ty, ty ∈ [ErrorTypeLoad; ErrorTypeApply] → total (errors_of name OperationApplySince ty) cs =
            if decide (ty = if (0 <? a)%nat then ErrorTypeApply else ErrorTypeLoad) then 1 else 0
    end.
Proof.
  intros (sizes & rest & -> & Hall & -> & Hrest). rewrite !calls_total_app, !total_batches.
  rewrite decide_True, decide_False by done. destruct err as [e|].
  - destruct Hrest as (before & -> & Hbefore). rewrite !calls_total_app, omap_app, omap_app.
    assert (∀ op, total (events_of name op) before = 0) as Hev.
    { intros op'. destruct Hbefore as [->|[Hb|[-> _]]]; [done|by apply (batch_error_totals name op' "")|done]. }
    assert (∀ ty, ty ∈ [ErrorTypeLoad; ErrorTypeApply] →
      total (errors_of name OperationApplySince ty) before = 0) as Herr.
    { intros ty Hty. destruct Hbefore as [->|[Hb|[-> _]]];
        [done|by apply (batch_error_totals name "" ty)|].
      cbn -[decide]. rewrite decide_False; [done|]. intros (_ & _ & <-). set_solver. }
    rewrite !Hev. cbn -[decide last]. split_and!; try lia.
    + by rewrite decide_True, !last_app.
    + intros ty Hty. rewrite calls_total_app, calls_total_app, total_batch_errors, Herr by done. cbn -[decide].
      repeat case_decide; naive_solver lia.
  - subst rest. destruct (Nat.ltb_spec 0 (sum_list sizes)) as [Hlt|Hge].
    + cbn -[decide]. rewrite decide_False, decide_True by naive_solver. split_and!; try lia.
      * intros ty. by rewrite calls_total_app, total_batch_errors.
      * rewrite omap_app, last_app. cbn. by rewrite decide_True.
    + assert (sizes = []) as -> by (destruct Hall; cbn in *; [done|lia]). by split_and!.
Qed.
End values.

(** C36: what a run of a projection with metrics records: the batches count the
    events applied, and a run without an error counts them a second time under
    the other operation; a failed run leaves the health at 0 and names its error
    by the events applied and not by what failed: a refused first batch is a
    load error, a store that fails after a batch an apply error; a run that
    finds nothing to do records nothing, so that it does not restore the health. *)
Theorem run_recordings {St O P : Type} {ES : EventStore St} {OS : OffsetStore O} {PR : Projector P}
    {AP : AtomicProjector P} {R : Type} (mk : SyncKitMetrics R) (dur : nat → Z)
    (fuel : nat) (ctx : nat → CtxView) (r r' : runner St O P) (a : nat) (l : option Version) (err : option error)
    (Hrun : ApplySince fuel ctx r = Done (r', (a, l, err))) (Hrec : recording r = true) :
  ∃ cs, r_calls r' = r_calls r ++ cs
    ∧ let name := p_Name (r_projector r) in
      let calls := record_all mk dur cs in
      let events op := counter (projectionEventsProcessed (labels mk)) [name; op] calls in
      let errors op ty := counter (projectionErrorsTotal (labels mk)) [name; op; ty] calls in
      events OperationApplyBatch = Z.of_nat a
      ∧ events OperationApplySince = (match err with None => Z.of_nat a | Some _ => 0 end)
      ∧ match err with
        | None => (∀ op ty, errors op ty = 0)
            ∧ (a = 0%nat → cs = [])
            ∧ gauge (projectionHealth (labels mk)) [name] calls = (if (0 <? a)%nat then Some 1 else None)
        | Some _ => gauge (projectionHealth (labels mk)) [name] calls = Some 0
            ∧ ∀ ty, ty ∈ [ErrorTypeLoad; ErrorTypeApply] → errors OperationApplySince ty =
                if decide (ty = if (0 <? a)%nat then ErrorTypeApply else ErrorTypeLoad) then 1 else 0
        end.
Proof.
  destruct (ApplySince_calls fuel ctx r r' a l err Hrun Hrec) as (_ & cs & Hcs & Hr).
  exists cs. split; [done|]. cbv zeta.
  assert (∀ op ty, _) as Hv by exact (λ op ty, record_all_values mk dur cs (p_Name (r_projector r)) op ty).
  destruct (Hv OperationApplyBatch "") as (-> & _ & ->). destruct (Hv OperationApplySince "") as (-> & _).
  destruct (run_record_values _ _ _ _ OperationApplySince Hr) as (H1 & H2 & H3).
  split_and!; [done|done|]. destruct err as [e|].
  - destruct H3 as [H3 H4]. split; [done|]. intros ty Hty.
    destruct (Hv OperationApplySince ty) as (_ & -> & _). by apply H4.
  - split_and!; [|intros ->|by apply H3].
    + intros op ty. destruct (Hv op ty) as (_ & -> & _).
      by destruct (run_record_values _ _ _ _ op Hr) as (_ & _ & Hn & _).
    + destruct Hr as (sizes & rest & Hsum & Hall & -> & ->). rewrite app_nil_r.
      destruct Hall; [done|cbn in Hsum; lia].
Qed.

(** ** Registration and reset *)
Section registries.
Context {R : Type} {RG : Registry R} {RL : RegistryLaws R}.

Lemma projection_metrics_of l : projection_metrics l = initProjectionMetrics l.
Proof. reflexivity. Qed.
Lemma projection_metrics_sub l d : d ∈ projection_metrics l → d ∈ all_metrics l.
Proof.
  rewrite projection_metrics_of. unfold all_metrics. intros Hd. rewrite !elem_of_app. tauto.
Qed.
Lemma projection_names_distinct l : NoDup (fq_name <$> projection_metrics l).
Proof. apply (bool_decide_unpack _). by vm_compute. Qed.

(** Remark: the vectors are those the general collector registers for
    projections: on a registry that has a collector of the same service,
    [NewProjectionMetrics] panics; on one of its own it succeeds. *)
Theorem no_second_registration (s : string) :
  ∃ m p, NewMetrics (R := R) s [] = Done m ∧ NewProjectionMetrics (R := R) s [] = Done p
    ∧ registered (pm_registry p) = reverse (projection_metrics {["service" := s]})
    ∧ ∃ why, NewProjectionMetrics s [WithProjectionRegistry (registry m)] = Panic why.
Proof using RL.
  assert (free_labels {["service" := s]}) as Hfree.
  { intros n Hn. apply lookup_singleton_ne. intros <-. revert Hn. apply (bool_decide_unpack _). by vm_compute. }
  set (l := {["service" := s]} : Labels) in *.
  unfold NewMetrics, registerMetrics, NewProjectionMetrics, registerProjectionMetrics.
  cbn [fold_left apply_option apply_projection_option labels registry pm_labels pm_registry]. fold l.
  destruct (MustRegister_ok (all_metrics l) NewRegistry) as (r1 & -> & Hr1).
  { apply Forall_forall. intros d. by apply all_consistent. }
  { apply all_names_distinct. }
  { intros d d' _. rewrite new_empty. by intros ?%elem_of_nil. }
  destruct (MustRegister_ok (projection_metrics l) NewRegistry) as (r2 & -> & Hr2).
  { apply Forall_forall. intros d Hd%projection_metrics_sub. by apply (all_consistent l). }
  { apply projection_names_distinct. }
  { intros d d' _. rewrite new_empty. by intros ?%elem_of_nil. }
  cbn [obind]. rewrite new_empty, app_nil_r in Hr1, Hr2.
  eexists _, _. split; [reflexivity|]. split; [reflexivity|]. split; [exact Hr2|].
  destruct (MustRegister_panics (projection_metrics l) r1) as [why Hwhy].
  - exists (opsTotal l). split; [left|]. right. exists (opsTotal l). split; [|split; [done|by left]].
    rewrite Hr1, elem_of_reverse. by apply projection_metrics_sub; left.
  - exists why. unfold fold_left, apply_projection_option. cbn [pm_labels pm_registry registry].
    fold l. by rewrite Hwhy.
Qed.
End registries.

(** A series of one of the vectors, with a value for every label. *)
Definition series_ok (l : Labels) (s : Series) : Prop :=
  ∃ d, d ∈ projection_metrics l ∧ s.1 = fq_name d ∧ length s.2 = length (variable d).
(** The projection a series is about: the first label of every vector. *)
Definition about (projection : string) (s : Series) : Prop := s.2 !! 0%nat = Some projection.
#[export] Instance about_dec projection s : Decision (about projection s).
Proof. unfold about. apply _. Defined.

Lemma match_first d p values rest : variable d = "projection" :: rest → NoDup (variable d) →
  length values = length (variable d) →
  partial_match d [("projection", p)] values = true ↔ values !! 0%nat = Some p.
Proof.
  intros Hv Hnd Hlen. unfold partial_match. cbn [forallb]. rewrite Hv in *. destruct values as [|x values]; [done|].
  rewrite andb_true_r, bool_decide_eq_true. cbn. split.
  - intros [[= <-]|Hin]%elem_of_cons; [done|]. exfalso. apply NoDup_cons in Hnd as [Hn _]. apply Hn.
    by apply elem_of_zip_l in Hin.
  - intros [= <-]. left.
Qed.

Lemma matches_about l d p n values : d ∈ projection_metrics l → length values = length (variable d) →
  partial_match d [("projection", p)] values = true ↔ about p (n, values).
Proof.
  intros Hd Hlen. assert (∃ rest, variable d = "projection" :: rest) as [rest Hv].
  { cbn in Hd. repeat (apply elem_of_cons in Hd as [->|Hd]; [by eexists|]). by apply elem_of_nil in Hd. }
  apply (match_first d p values rest); [done| |done].
  by apply projection_metrics_sub, all_labels_known in Hd as (_ & ? & _).
Qed.
Lemma values_about d p n values rest : variable d = ["projection"] ++ rest → rest = [] →
  length values = length (variable d) → values = [p] ↔ about p (n, values).
Proof. intros -> -> Hlen. unfold about. destruct values as [|x [|]]; naive_solver. Qed.

(** Remark: a reset removes every series about the projection from all eight
    vectors and no other series, whatever operations, states and errors have
    been recorded. *)
Theorem ResetProjectionMetrics_exact {R} (p : string) (m : ProjectionMetrics R) (ss : list Series)
    (Hss : Forall (series_ok (pm_labels m)) ss) :
  ResetProjectionMetrics p m ss = filter (λ s, ¬ about p s) ss.
Proof.
  unfold ResetProjectionMetrics, DeletePartialMatch, DeleteLabelValues.
  rewrite !list_filter_filter. apply filter_ext_elem. intros [n values] Hs.
  rewrite Forall_forall in Hss. destruct (Hss _ Hs) as (d & Hd & Hn & Hlen). cbn [fst snd] in *.
  pose proof (matches_about _ d p n values Hd Hlen) as Hm.
  pose proof (λ rest, values_about d p n values rest) as Hvs.
  cbn in Hd. repeat (apply elem_of_cons in Hd as [->|Hd]; [subst n|]); [..|by apply elem_of_nil in Hd].
  all: split; [intros H Ha|intros Ha; split_and!; intros [Hf Hv]; try discriminate Hf].
  all: try (by apply Ha, Hm); try (by apply Ha, (Hvs [])).
  all: first [pose proof (proj2 Hm Ha); tauto | pose proof (proj2 (Hvs [] eq_refl eq_refl Hlen) Ha); tauto].
Qed.

(** ** A run *)
#[local] Existing Instances Projection.map_offsets Projection.recorder_Projector Projection.recorder_Atomic
  Projection.demo_range.
Definition demo_metrics : SyncKitMetrics (list Desc) := mkMetrics [] {["service" := "demo"]}.
Definition demo_runner : runner MemStore.MemStore (gmap string Version) Recorder :=
  NewRunner MemStore.demo_store ∅ (mkRecorder "e1" []) [WithBatchSize 1; WithMetrics true].

(** The projector refuses the very first batch: a load error. *)
Lemma run_recordings_witness :
  ∃ r' l err, ApplySince 9 (λ _, background) demo_runner = Done (r', (0%nat, l, Some err))
    ∧ ∃ cs, r_calls r' = [] ++ cs
      ∧ counter (projectionErrorsTotal (labels demo_metrics)) ["orders"; "apply_since"; "load_error"]
          (record_all demo_metrics (λ _, 1) cs) = 1.
Proof.
  assert (match ApplySince 9 (λ _, background) demo_runner with
          | Done (_, (0%nat, _, Some _)) => True | _ => False end) as Hok by (vm_compute; exact I).
  destruct (ApplySince 9 (λ _, background) demo_runner) as [[r' [[[|a] l] [err|]]]|w] eqn:Hrun; try destruct Hok.
  destruct (run_recordings demo_metrics (λ _, 1) 9 (λ _, background) demo_runner r' 0 l (Some err) Hrun eq_refl)
    as (cs & Hcs & _ & _ & _ & Herr).
  refine (ex_intro _ r' (ex_intro _ l (ex_intro _ err (conj eq_refl (ex_intro _ cs (conj Hcs _)))))).
  specialize (Herr ErrorTypeLoad (proj2 (elem_of_cons _ _ _) (or_introl eq_refl))).
  exact Herr.
Defined.
