(* ===== verification/Tracing.v ===== *)
(** * Tracing (src/observability/tracing: tracer.go, attributes.go, middleware.go)

    Spans as the calls that are made on them, the tracer's attributes, the
    validators and limits of attribute values, and the HTTP middlewares: on the
    server side over net/http's response writer, on the client side over the
    round tripper below.  Propagation and texts of status codes belong to other
    packages and are parameters. *)
From S2P Require Import Prelude Types Json Errors.
From S2P Require Sse.
From stdpp Require Import options.

(** ** Spans *)

(** A value of an attribute; milliseconds are kept as nanoseconds. *)
Inductive Value :=
  | VString (s : string)
  | VInt (z : Z)
  | VBool (b : bool)
  | VStringSlice (l : list string)
  | VMillis (ns : Z).
Abbreviation KeyValue := (string * Value)%type.
Inductive SpanKind := SpanKindInternal | SpanKindClient | SpanKindServer.
Inductive Code := CodeError | CodeOk.
Record Span := mkSpan { span_name : string; span_attributes : list KeyValue; span_kind : SpanKind }.
Inductive SpanCall :=
  | SetAttributes (attrs : list KeyValue)
  | SetStatus (c : Code) (description : string)
  | SpanRecordError (err : error) (attrs : list KeyValue)
  | AddEvent (name : string) (attrs : list KeyValue)
  | End_.
(** A span keeps one value per key, the last one given. *)
Definition effective (attrs : list KeyValue) (k : string) : option Value :=
  last (omap (λ kv, if decide (kv.1 = k) then Some kv.2 else None) attrs).

(** ** Keys and values *)
Definition ComponentKey : string := "synckit.component".
Definition SyncOperationKey : string := "synckit.sync.operation".
Definition SyncPhaseKey : string := "synckit.sync.phase".
Definition EventCountKey : string := "synckit.events.count".
Definition EventsPushedKey : string := "synckit.events.pushed".
Definition EventsPulledKey : string := "synckit.events.pulled".
Definition AggregateIDsKey : string := "synckit.aggregates.ids".
Definition ConflictsResolvedKey : string := "synckit.conflicts.resolved".
Definition ConflictStrategyKey : string := "synckit.conflict.strategy".
Definition ConflictDecisionKey : string := "synckit.conflict.decision".
Definition ConflictReasonKey : string := "synckit.conflict.reason".
Definition TransportOperationKey : string := "synckit.transport.operation".
Definition TransportTypeKey : string := "synckit.transport.type".
Definition TransportEndpointKey : string := "synckit.transport.endpoint".
Definition StorageOperationKey : string := "synckit.storage.operation".
Definition StorageTypeKey : string := "synckit.storage.type".
Definition StorageTableKey : string := "synckit.storage.table".
Definition BatchSizeKey : string := "synckit.batch.size".

Definition sync_operations : list string := ["full"; "push"; "pull"].
Definition conflict_strategies : list string :=
  ["last_write_wins"; "first_write_wins"; "additive_merge"; "manual"; "custom"].
Definition transport_types : list string := ["http"; "grpc"; "nats"; "null"].
Definition storage_types : list string := ["sqlite"; "postgresql"; "memory"].
Definition one_of (l : list string) (fallback s : string) : string :=
  if bool_decide (s ∈ l) then s else fallback.
Definition ValidateSyncOperation : string → string := one_of sync_operations "full".
Definition ValidateConflictStrategy : string → string := one_of conflict_strategies "custom".
Definition ValidateTransportType : string → string := one_of transport_types "unknown".
Definition ValidateStorageType : string → string := one_of storage_types "unknown".

(** Slicing with a negative bound panics. *)
Definition SanitizeStringAttribute (value : string) (maxLength : Z) : outcome string :=
  if Z.of_nat (String.length value) <=? maxLength then Done value
  else if maxLength - 3 <? 0 then Panic "slice bounds out of range"
  else Done (String.substring 0 (Z.to_nat (maxLength - 3)) value +:+ "...").
Definition SanitizeSliceAttribute (values : list string) (maxItems : Z) : outcome (list string) :=
  if Z.of_nat (length values) <=? maxItems then Done values
  else if maxItems <? 0 then Panic "slice bounds out of range"
  else Done (take (Z.to_nat maxItems) values).

Definition SyncOperationAttributes (operation : string) (batchSize : Z) : list KeyValue :=
  [(SyncOperationKey, VString (ValidateSyncOperation operation)); (BatchSizeKey, VInt batchSize);
   (ComponentKey, VString "synckit")].
Definition TransportAttributes (transportType operation endpoint : string) : outcome (list KeyValue) :=
  let* e := SanitizeStringAttribute endpoint 100 in
  Done [(TransportTypeKey, VString (ValidateTransportType transportType));
        (TransportOperationKey, VString operation); (TransportEndpointKey, VString e);
        (ComponentKey, VString "transport")].
Definition StorageAttributes (storageType operation table : string) : list KeyValue :=
  [(StorageTypeKey, VString (ValidateStorageType storageType)); (StorageOperationKey, VString operation);
   (StorageTableKey, VString table); (ComponentKey, VString "storage")].
Definition ConflictAttributes (strategy decision reason : string) : outcome (list KeyValue) :=
  let* r := SanitizeStringAttribute reason 200 in
  Done [(ConflictStrategyKey, VString (ValidateConflictStrategy strategy));
        (ConflictDecisionKey, VString decision); (ConflictReasonKey, VString r);
        (ComponentKey, VString "conflict-resolver")].

(** ** The tracer *)
Record SyncKitTracer := mkTracer { serviceName : string; version : string; attributes : list KeyValue }.
Inductive TracerOption :=
  | WithServiceName (name : string) | WithVersion (version : string) | WithAttributes (attrs : list KeyValue).
Definition apply_tracer_option (t : SyncKitTracer) (o : TracerOption) : SyncKitTracer :=
  match o with
  | WithServiceName name => mkTracer name (version t) (attributes t ++ [("service.name", VString name)])
  | WithVersion v => mkTracer (serviceName t) v (attributes t ++ [("service.version", VString v)])
  | WithAttributes attrs => mkTracer (serviceName t) (version t) (attributes t ++ attrs)
  end.
Definition NewTracer (serviceName : string) (opts : list TracerOption) : SyncKitTracer :=
  fold_left apply_tracer_option opts
    (mkTracer serviceName "" [("service.name", VString serviceName); ("library.name", VString "go-sync-kit")]).

Implicit Type t : SyncKitTracer.
Definition StartSyncOperation (operation : string) t : Span :=
  mkSpan ("synckit.sync." +:+ operation)
    ([(SyncOperationKey, VString operation); (SyncPhaseKey, VString "start"); (ComponentKey, VString "synckit")]
     ++ attributes t) SpanKindInternal.
Definition StartTransportOperation (operation transport : string) t : Span :=
  mkSpan ("synckit.transport." +:+ operation)
    ([(TransportOperationKey, VString operation); (TransportTypeKey, VString transport);
      (ComponentKey, VString "transport")] ++ attributes t) SpanKindClient.
Definition StartStorageOperation (operation storageType : string) t : Span :=
  mkSpan ("synckit.storage." +:+ operation)
    ([(StorageOperationKey, VString operation); (StorageTypeKey, VString storageType);
      (ComponentKey, VString "storage")] ++ attributes t) SpanKindInternal.
Definition StartConflictResolution (strategy : string) t : Span :=
  mkSpan "synckit.conflict.resolve"
    ([(ConflictStrategyKey, VString strategy); (ComponentKey, VString "conflict-resolver")] ++ attributes t)
    SpanKindInternal.
Definition AddEventAttributes (eventCount : Z) (aggregateIDs : list string) t : list SpanCall :=
  let attrs := [(EventCountKey, VInt eventCount)] in
  let maxAggregateIDs := 10%nat in
  let attrs :=
    match aggregateIDs with
    | [] => attrs
    | _ =>
        if (maxAggregateIDs <? length aggregateIDs)%nat
        then attrs ++ [(AggregateIDsKey, VStringSlice (take maxAggregateIDs aggregateIDs));
                       ("aggregate_ids_truncated", VBool true)]
        else attrs ++ [(AggregateIDsKey, VStringSlice aggregateIDs)]
    end in
  [SetAttributes attrs].
(** [type_name] is what [%T] prints of the error. *)
Definition RecordError (err : option error) (type_name description : string) t : list SpanCall :=
  match err with
  | None => []
  | Some e =>
      [SetStatus CodeError description;
       SpanRecordError e [("error.type", VString type_name); ("error.description", VString description)]]
  end.
Definition SetSyncResult (eventsPushed eventsPulled conflictsResolved : Z) t : list SpanCall :=
  [SetAttributes [(EventsPushedKey, VInt eventsPushed); (EventsPulledKey, VInt eventsPulled);
                  (ConflictsResolvedKey, VInt conflictsResolved); ("success", VBool true)];
   SetStatus CodeOk "Sync operation completed successfully"].
Definition AddSpanEvent (name : string) (attrs : list KeyValue) t : list SpanCall := [AddEvent name attrs].

(** ** The response writer of net/http

    [WriteHeader] sends informational codes at once and the first other code as
    the status; a body without a status gets 200.  [w_written] counts the bytes
    of the body, [flusher] says whether the value has a [Flush] method. *)
Record Writer := mkWriter {
  informational : list Z; w_status : option Z; w_written : Z; flusher : bool
}.
Definition is_informational (code : Z) : bool :=
  (100 <=? code) && (code <=? 199) && negb (code =? 101).
(** A method leaves its writer behind, also when it panics. *)
Definition net_WriteHeader (code : Z) (w : Writer) : Writer * outcome unit :=
  match w_status w with
  | Some _ => (w, Done tt)
  | None =>
      if (code <? 100) || (999 <? code) then (w, Panic "invalid WriteHeader code")
      else if is_informational code
           then (mkWriter (informational w ++ [code]) None (w_written w) (flusher w), Done tt)
           else (mkWriter (informational w) (Some code) (w_written w) (flusher w), Done tt)
  end.
Definition with_header (w : Writer) : Writer * outcome unit :=
  match w_status w with None => net_WriteHeader 200 w | Some _ => (w, Done tt) end.
(** [n] is how many of the bytes are written. *)
Definition net_Write (n : Z) (w : Writer) : Writer * outcome unit :=
  match with_header w with
  | (w, Done _) => (mkWriter (informational w) (w_status w) (w_written w + n) (flusher w), Done tt)
  | r => r
  end.
(** The status the client receives when the handler is through. *)
Definition final_status (w : Writer) : Z := default 200 (w_status w).

(** What a handler does to its writer; [Flush] is the method of [http.Flusher]
    after a type assertion, which panics on a writer without it. *)
Inductive WriterCall := WriteHeader (code : Z) | Write (n : Z) | Flush.
Definition no_flusher : string := "interface conversion: missing method Flush".
Definition net_call (w : Writer) (c : WriterCall) : Writer * outcome unit :=
  match c with
  | WriteHeader code => net_WriteHeader code w
  | Write n => net_Write n w
  | Flush => if flusher w then with_header w else (w, Panic no_flusher)
  end.
(** A handler: it returns, panics on its own, calls a method of its writer and
    goes on from there, whether the method has returned or panicked, or asks
    whether the writer can flush. *)
Inductive Handler :=
  | Return_
  | Crash (why : string)
  | Call (c : WriterCall) (k : outcome unit → Handler)
  | AskFlusher (k : bool → Handler).
(** A call whose panic is not recovered. *)
Definition then_ (c : WriterCall) (h : Handler) : Handler :=
  Call c (λ res, match res with Done _ => h | Panic why => Crash why end).
Fixpoint run_handler {W} (flush : bool) (call : W → WriterCall → W * outcome unit) (h : Handler) (w : W)
    : W * outcome unit :=
  match h with
  | Return_ => (w, Done tt)
  | Crash why => (w, Panic why)
  | Call c k => let '(w, res) := call w c in run_handler flush call (k res) w
  | AskFlusher k => run_handler flush call (k flush) w
  end.

(** ** The server middleware *)
Record wrappedResponseWriter := mkWrapped {
  ResponseWriter : Writer; statusCode : Z; bytesWritten : Z; headerWritten : bool
}.
(** The wrapper has the three methods of the interface and no [Flush]. *)
Definition wrapped_flusher (w : wrappedResponseWriter) : bool := false.
Definition wrapped_WriteHeader (code : Z) (w : wrappedResponseWriter) : wrappedResponseWriter * outcome unit :=
  if headerWritten w then (w, Done tt)
  else
    let '(u, res) := net_WriteHeader code (ResponseWriter w) in
    (mkWrapped u code (bytesWritten w) true, res).
Definition wrapped_Write (n : Z) (w : wrappedResponseWriter) : wrappedResponseWriter * outcome unit :=
  match (if headerWritten w then (w, Done tt) else wrapped_WriteHeader 200 w) with
  | (w, Done _) =>
      match net_Write n (ResponseWriter w) with
      | (u, Done _) => (mkWrapped u (statusCode w) (bytesWritten w + n) (headerWritten w), Done tt)
      | (u, Panic why) => (mkWrapped u (statusCode w) (bytesWritten w) (headerWritten w), Panic why)
      end
  | r => r
  end.
Definition wrapped_call (w : wrappedResponseWriter) (c : WriterCall) : wrappedResponseWriter * outcome unit :=
  match c with
  | WriteHeader code => wrapped_WriteHeader code w
  | Write n => wrapped_Write n w
  | Flush => (w, Panic no_flusher)
  end.

(** What the middleware reads of a request. *)
Record Request := mkRequest {
  Method : string; URL : string; Scheme : string; Host : string; URLHost : string; Path : string; UserAgent : string
}.
Section middleware.
Variable StatusText : Z → string.

Definition http_span (serviceName : string) (r : Request) : Span :=
  let spanName := Method r +:+ " " +:+ Path r in
  let spanName := if bool_decide (spanName = "") then "HTTP " +:+ Method r else spanName in
  mkSpan spanName
    [("http.method", VString (Method r)); ("http.url", VString (URL r)); ("http.scheme", VString (Scheme r));
     ("http.host", VString (Host r)); ("http.target", VString (Path r)); ("http.user_agent", VString (UserAgent r));
     ("http.route", VString (Path r)); ("service.name", VString serviceName); (ComponentKey, VString "transport")]
    SpanKindServer.
Definition after_handler (duration : Z) (ww : wrappedResponseWriter) : list SpanCall :=
  [SetAttributes [("http.status_code", VInt (statusCode ww)); ("http.response_size", VInt (bytesWritten ww));
                  ("http.duration_ms", VMillis duration)]]
  ++ (if 400 <=? statusCode ww then
        [SetStatus CodeError (StatusText (statusCode ww)); SetAttributes [("error", VBool true)]]
      else [SetStatus CodeOk "Request completed successfully"])
  ++ (if 500 <=? statusCode ww then
        [AddEvent "server_error" [("error.message", VString (StatusText (statusCode ww)))]]
      else if 400 <=? statusCode ww then
        [AddEvent "client_error" [("error.message", VString (StatusText (statusCode ww)))]]
      else []).
(** The span ends in a deferred call, so also when the handler panics, and the
    panic goes on. *)
Definition HTTPMiddleware_Handler (serviceName : string) (duration : Z) (handler : Handler) (r : Request)
    (w : Writer) : Writer * outcome unit * (Span * list SpanCall) :=
  let ww := mkWrapped w 200 0 false in
  let '(ww, res) := run_handler (wrapped_flusher ww) wrapped_call handler ww in
  match res with
  | Panic why => (ResponseWriter ww, Panic why, (http_span serviceName r, [End_]))
  | Done _ => (ResponseWriter ww, Done tt, (http_span serviceName r, after_handler duration ww ++ [End_]))
  end.
(** Without the middleware. *)
Definition serve (handler : Handler) (w : Writer) : Writer * outcome unit :=
  run_handler (flusher w) net_call handler w.

Record TraceConfig := mkTraceConfig {
  ServiceName : string; SkipHealthCheck : bool; SkipUserAgent : list string;
  AttributeFilter : option (Request → list KeyValue)
}.
(** The service name of the middleware; the other fields are not read. *)
Definition NewHTTPMiddlewareWithConfig (config : TraceConfig) : string :=
  if bool_decide (ServiceName config = "") then "sync-kit-service" else ServiceName config.

(** ** The client transport *)
Record Response := mkResponse { StatusCode : Z; ContentLength : Z }.
(** [injected] is what the propagator sets for the span's context; setting a key
    of a nil header panics. *)
Definition Inject (injected : list (string * string)) (h : gomap string) : outcome (gomap string) :=
  match injected, h with
  | [], h => Done h
  | _, None => Panic "assignment to entry in nil map"
  | kvs, Some h => Done (Some (fold_left (λ h kv, <[kv.1 := kv.2]> h) kvs h))
  end.
Definition client_span (r : Request) : Span :=
  mkSpan (Method r +:+ " " +:+ URLHost r)
    [("http.method", VString (Method r)); ("http.url", VString (URL r)); ("http.scheme", VString (Scheme r));
     ("http.host", VString (URLHost r)); ("http.target", VString (Path r)); (ComponentKey, VString "transport");
     (TransportTypeKey, VString "http")] SpanKindClient.
Definition after_response (duration : Z) (res : result error Response) : list SpanCall :=
  match res with
  | Err e =>
      [SetStatus CodeError "Request failed"; SpanRecordError e [("error.type", VString "http_request_failed")];
       SetAttributes [("error", VBool true)]]
  | Ok resp =>
      [SetAttributes [("http.status_code", VInt (StatusCode resp)); ("http.duration_ms", VMillis duration)]]
      ++ (if 400 <=? StatusCode resp then
            [SetStatus CodeError (StatusText (StatusCode resp)); SetAttributes [("error", VBool true)]]
          else [SetStatus CodeOk "Request completed successfully"])
      ++ (if 0 <? ContentLength resp then [SetAttributes [("http.response_size", VInt (ContentLength resp))]] else [])
  end.
(** The header is shared with the caller's request, so it comes back changed. *)
Definition RoundTrip (injected : list (string * string)) (duration : Z)
    (base : Request → gomap string → result error Response) (r : Request) (h : gomap string)
    : gomap string * outcome (result error Response) * (Span * list SpanCall) :=
  match Inject injected h with
  | Panic why => (h, Panic why, (client_span r, [End_]))
  | Done h =>
      let res := base r h in
      (h, Done res, (client_span r, after_response duration res ++ [End_]))
  end.
End middleware.

(** ** What the client and the span see *)

(** The wrapper and the plain writer after the same calls. *)
Definition agree (ww : wrappedResponseWriter) (u : Writer) : Prop :=
  ResponseWriter ww = u ∧ (headerWritten ww = true ↔ is_Some (w_status u))
  ∧ statusCode ww = final_status u ∧ bytesWritten ww = w_written u.
(** A handler that sends no informational code, does the same whether its writer
    can flush or not, and does not go on after an invalid status code. *)
Fixpoint ordinary (h : Handler) : Prop :=
  match h with
  | Return_ | Crash _ => True
  | Call (WriteHeader code) k =>
      is_informational code = false
      ∧ (100 ≤ code ≤ 999 ∨ ∀ why, ∃ why', k (Panic why) = Crash why')
      ∧ ∀ res, ordinary (k res)
  | Call (Write _) k => ∀ res, ordinary (k res)
  | Call Flush k => False
  | AskFlusher k => k true = k false ∧ ordinary (k false)
  end.

Lemma agree_WriteHeader ww u code : agree ww u → is_informational code = false →
  let '(ww', res) := wrapped_WriteHeader code ww in
  net_WriteHeader code u = (ResponseWriter ww', res)
  ∧ (res = Done tt ∧ agree ww' (ResponseWriter ww') ∧ headerWritten ww' = true
     ∨ (code < 100 ∨ 999 < code) ∧ ∃ why, res = Panic why).
Proof.
  intros (<- & Hh & Hs & Hb) Hi. unfold wrapped_WriteHeader, net_WriteHeader.
  destruct (headerWritten ww) eqn:E, (w_status (ResponseWriter ww)) as [s|] eqn:Es.
  - split; [done|]. left. split; [done|]. split; [|done].
    unfold agree. rewrite E, Es. by split_and!.
  - destruct Hh as [Hh _]. by destruct (Hh eq_refl).
  - destruct Hh as [_ Hh]. by discriminate (Hh (ex_intro _ s eq_refl)).
  - destruct ((code <? 100) || (999 <? code)) eqn:Hc.
    + split; [done|]. right. split; [|by eexists]. apply orb_true_iff in Hc as [Hc%Z.ltb_lt|Hc%Z.ltb_lt]; lia.
    + rewrite Hi. split; [done|]. left. by split_and!.
Qed.
Lemma agree_Write ww u n : agree ww u →
  let '(ww', res) := wrapped_Write n ww in
  net_Write n u = (ResponseWriter ww', res) ∧ res = Done tt ∧ agree ww' (ResponseWriter ww').
Proof.
  intros Ha. pose proof (agree_WriteHeader ww u 200 Ha eq_refl) as H.
  pose proof Ha as (Hr & Hh & Hs & Hb). unfold wrapped_Write, net_Write, with_header.
  destruct (headerWritten ww) eqn:E.
  - destruct (proj1 Hh eq_refl) as [s Hsome]. rewrite Hr, Hsome. cbn [ResponseWriter].
    split; [done|]. split; [done|]. unfold agree, final_status in *. cbn. rewrite E, Hsome in *.
    split; [done|]. split; [split; by eauto|]. split; [done|lia].
  - destruct (w_status u) as [s|] eqn:Es; [by discriminate (proj2 Hh (ex_intro _ s eq_refl))|].
    destruct (wrapped_WriteHeader 200 ww) as [ww1 res]. destruct H as [Hnet [(-> & Ha1 & Hw1)|[Hc _]]]; [|lia].
    rewrite Hnet. destruct Ha1 as (_ & Hh1 & Hs1 & Hb1). destruct (proj1 Hh1 Hw1) as [s Hsome].
    rewrite Hsome. cbn. rewrite ?Hsome. split; [done|]. split; [done|].
    unfold agree, final_status in *. cbn. rewrite Hw1, Hsome in *. split; [done|]. split; [split; by eauto|]. split; [done|lia].
Qed.
Lemma agree_run h f : ordinary h → ∀ ww u, agree ww u →
  let '(ww', res) := run_handler false wrapped_call h ww in
  run_handler f net_call h u = (ResponseWriter ww', res) ∧ (res = Done tt → agree ww' (ResponseWriter ww')).
Proof.
  induction h as [|why|c k IH|k IH]; intros Hord ww u Ha; cbn [run_handler].
  - destruct Ha as (<- & Ha). split; [done|]. intros _. by split.
  - destruct Ha as (<- & Ha). by split.
  - destruct c as [code|n|]; cbn [wrapped_call net_call ordinary] in *; [| |done].
    + destruct Hord as (Hi & Hval & Hk). pose proof (agree_WriteHeader ww u code Ha Hi) as H.
      destruct (wrapped_WriteHeader code ww) as [ww1 res]. destruct H as [-> [(-> & Ha1 & _)|[Hc [why ->]]]].
      * by apply IH.
      * destruct Hval as [Hval|Hval]; [lia|]. destruct (Hval why) as [why' ->]. by split.
    + pose proof (agree_Write ww u n Ha) as H. destruct (wrapped_Write n ww) as [ww1 res].
      destruct H as (-> & -> & Ha1). by apply IH.
  - destruct Hord as [Heq Hk]. replace (k f) with (k false) by (by destruct f). by apply IH.
Qed.

Definition fresh (w : Writer) : Prop := w_status w = None ∧ w_written w = 0.

(** C37: a handler that sends no informational code, does not depend on whether its
    writer can flush and does not go on after an invalid status code it sent, but
    may otherwise do what it likes, return early, panic or recover from panics,
    has the same effect on the client with and without the middleware, and ends
    in the same way; the span has the status and the size the client received, is
    marked as failed exactly from 400 on, and ends last, also after a panic. Each
    condition is needed: [informational_hides_status], [flushing_handler_differs]
    and [recovered_code_hides_status]. *)
Theorem middleware_transparent (StatusText : Z → string) (serviceName : string) (duration : Z)
    (handler : Handler) (r : Request) (w : Writer) (Hw : fresh w) (Hord : ordinary handler) :
  let '(w', res, (sp, calls)) := HTTPMiddleware_Handler StatusText serviceName duration handler r w in
  (w', res) = serve handler w
  ∧ last calls = Some End_
  ∧ (res = Done tt →
     effective (concat (omap (λ c, match c with SetAttributes l => Some l | _ => None end) calls))
       "http.status_code" = Some (VInt (final_status w'))
     ∧ effective (concat (omap (λ c, match c with SetAttributes l => Some l | _ => None end) calls))
       "http.response_size" = Some (VInt (w_written w'))
     ∧ (SetStatus CodeError (StatusText (final_status w')) ∈ calls ↔ 400 ≤ final_status w')).
Proof.
  destruct Hw as [Hw1 Hw2].
  assert (agree (mkWrapped w 200 0 false) w) as Ha.
  { split_and!; [done| |cbn; unfold final_status; by rewrite Hw1|done]. rewrite Hw1. split; [done|by intros []]. }
  pose proof (agree_run handler (flusher w) Hord _ _ Ha) as H.
  unfold HTTPMiddleware_Handler, serve, wrapped_flusher.
  destruct (run_handler false wrapped_call handler (mkWrapped w 200 0 false)) as [ww res].
  destruct H as [-> Hagree]. destruct res as [[]|why]; [|by split_and!].
  destruct (Hagree eq_refl) as (_ & _ & Hs & Hb). rewrite <-Hs, <-Hb.
  split; [done|]. split; [by rewrite last_snoc|]. intros _. unfold after_handler.
  destruct (Z.leb_spec 400 (statusCode ww)) as [H4|H4], (Z.leb_spec 500 (statusCode ww)) as [H5|H5]; try lia;
    cbn; (split; [done|]); (split; [done|]); set_solver by lia.
Qed.

(** Remark: an informational code uses up the wrapper's only status: the status
    the handler sends next is dropped, the client gets 200, and the span the
    informational code. *)
Theorem informational_hides_status (StatusText : Z → string) (serviceName : string) (duration : Z)
    (r : Request) (w : Writer) (code status : Z)
    (Hw : fresh w) (Hc : is_informational code = true) (Hs : 200 ≤ status ≤ 999) :
  let handler := then_ (WriteHeader code) (then_ (WriteHeader status) Return_) in
  let '(w', res, (_, calls)) := HTTPMiddleware_Handler StatusText serviceName duration handler r w in
  res = Done tt ∧ final_status w' = 200
  ∧ (∃ rest, SetAttributes (("http.status_code", VInt code) :: rest) ∈ calls)
  ∧ final_status (serve handler w).1 = status.
Proof.
  destruct Hw as [Hw _]. unfold HTTPMiddleware_Handler, serve, then_. cbn zeta.
  cbn [run_handler wrapped_call net_call].
  unfold wrapped_WriteHeader, net_WriteHeader. cbn [headerWritten ResponseWriter]. rewrite Hw.
  assert ((code <? 100) || (999 <? code) = false) as ->.
  { unfold is_informational in Hc. zbool; lia. }
  rewrite Hc. cbn [run_handler headerWritten ResponseWriter w_status net_call wrapped_call].
  unfold net_WriteHeader, wrapped_WriteHeader. cbn [headerWritten ResponseWriter w_status].
  assert ((status <? 100) || (999 <? status) = false) as -> by (zbool; lia).
  assert (is_informational status = false) as -> by (unfold is_informational; zbool; lia).
  cbn [run_handler fst]. split_and!; [done|done| |done]. eexists. unfold after_handler. cbn. left.
Qed.

(** Remark: an invalid code that the handler recovers from uses it up as well: the
    status it sends instead is dropped and the client gets 200. *)
Theorem recovered_code_hides_status (StatusText : Z → string) (serviceName : string) (duration : Z)
    (r : Request) (w : Writer) (code status : Z)
    (Hw : fresh w) (Hc : code < 100 ∨ 999 < code) (Hs : 200 ≤ status ≤ 999) :
  let handler := Call (WriteHeader code) (λ _, then_ (WriteHeader status) Return_) in
  let '(w', res, _) := HTTPMiddleware_Handler StatusText serviceName duration handler r w in
  res = Done tt ∧ final_status w' = 200
  ∧ final_status (serve handler w).1 = status ∧ (serve handler w).2 = Done tt.
Proof.
  destruct Hw as [Hw _]. unfold HTTPMiddleware_Handler, serve, then_. cbn zeta.
  cbn [run_handler wrapped_call net_call].
  unfold wrapped_WriteHeader, net_WriteHeader. cbn [headerWritten ResponseWriter]. rewrite Hw.
  assert ((code <? 100) || (999 <? code) = true) as ->.
  { apply orb_true_iff. destruct Hc; [left|right]; by apply Z.ltb_lt. }
  cbn [run_handler headerWritten ResponseWriter w_status net_call wrapped_call].
  unfold net_WriteHeader, wrapped_WriteHeader. cbn [headerWritten ResponseWriter w_status]. rewrite Hw.
  assert ((status <? 100) || (999 <? status) = false) as -> by (zbool; lia).
  assert (is_informational status = false) as -> by (unfold is_informational; zbool; lia).
  cbn. unfold final_status. rewrite Hw. by split_and!.
Qed.

(** Remark: a handler that streams when it can and otherwise answers an error, as
    the event stream does, answers the error behind the middleware although the
    server's writer can flush. *)
Theorem flushing_handler_differs (StatusText : Z → string) (serviceName : string) (duration : Z)
    (r : Request) (w : Writer) (n : Z) (Hw : fresh w) (Hf : flusher w = true) :
  let handler := AskFlusher (λ can, if can then then_ (Write n) (then_ Flush Return_)
                                    else then_ (WriteHeader 500) Return_) in
  final_status (HTTPMiddleware_Handler StatusText serviceName duration handler r w).1.1 = 500
  ∧ final_status (serve handler w).1 = 200.
Proof.
  destruct Hw as [Hw _]. unfold HTTPMiddleware_Handler, serve, then_. cbn zeta.
  cbn [run_handler wrapped_flusher]. rewrite Hf. unfold wrapped_flusher.
  cbn [run_handler wrapped_call net_call].
  unfold wrapped_WriteHeader, net_Write, with_header, net_WriteHeader. cbn [headerWritten ResponseWriter].
  rewrite Hw. cbn. rewrite Hf. split; reflexivity.
Qed.

(** Remark: no handler behind the middleware can flush, whatever the server's
    writer can: the event stream, which without the middleware starts, refuses
    every request. *)
Theorem tracing_ends_streams (w : Writer) {St} {FT : Sse.FrameText} {ES : Interfaces.EventStore St}
    reg batch (script : list (CtxView * St)) (Hf : flusher w = true) :
  (∀ cur, Sse.Handler reg (wrapped_flusher (mkWrapped w 200 0 false)) cur batch script
          = Sse.Refused "streaming unsupported" 500)
  ∧ ∃ text ph, Sse.Handler reg (flusher w) "" batch script = Sse.Streaming text ph.
Proof.
  split; [done|]. rewrite Hf. unfold Sse.Handler. cbn.
  destruct (Sse.rounds reg script batch (Sse.Running None)) as [text ph]. by exists text, ph.
Qed.

(** ** Attributes *)

Lemma substring_prefix_length n s : (n ≤ String.length s)%nat → String.length (String.substring 0 n s) = n.
Proof.
  revert s. induction n as [|n IH]; intros s Hn; [by destruct s|]. destruct s as [|c s]; cbn in *; [lia|].
  rewrite IH by lia. done.
Qed.
Lemma append_length (a b : string) : String.length (a +:+ b) = (String.length a + String.length b)%nat.
Proof. induction a as [|c a IH]; [done|]. change (S (String.length (a +:+ b)) = S (String.length a) + String.length b)%nat. by rewrite IH. Qed.

(** Remark: a sanitised text is never longer than its limit and a text within
    the limit is left as it is, so that sanitising twice changes nothing; the
    call panics exactly for a limit below three that the text exceeds. *)
Lemma SanitizeStringAttribute_bounds (value : string) (maxLength : Z) :
  match SanitizeStringAttribute value maxLength with
  | Done r => Z.of_nat (String.length r) ≤ maxLength
      ∧ (Z.of_nat (String.length value) ≤ maxLength → r = value)
      ∧ SanitizeStringAttribute r maxLength = Done r
  | Panic _ => maxLength < 3 ∧ maxLength < Z.of_nat (String.length value)
  end.
Proof.
  unfold SanitizeStringAttribute. destruct (Z.leb_spec (Z.of_nat (String.length value)) maxLength) as [Hle|Hgt].
  - split_and!; [done|done|]. by destruct (Z.leb_spec (Z.of_nat (String.length value)) maxLength); [|lia].
  - destruct (Z.ltb_spec (maxLength - 3) 0) as [Hneg|Hpos]; [lia|].
    assert (Z.of_nat (String.length (String.substring 0 (Z.to_nat (maxLength - 3)) value +:+ "...")) = maxLength) as Hl.
    { rewrite append_length, substring_prefix_length by lia. cbn. lia. }
    rewrite Hl. split_and!; [lia|lia|]. by rewrite Z.leb_refl.
Qed.
(** Remark: the attributes of transport and conflict spans are always built, with
    values among the documented ones. *)
Theorem span_attributes_built (a b c : string) :
  (∃ e, TransportAttributes a b c = Done
     [(TransportTypeKey, VString (ValidateTransportType a)); (TransportOperationKey, VString b);
      (TransportEndpointKey, VString e); (ComponentKey, VString "transport")] ∧ (String.length e ≤ 100)%nat)
  ∧ (∃ r, ConflictAttributes a b c = Done
     [(ConflictStrategyKey, VString (ValidateConflictStrategy a)); (ConflictDecisionKey, VString b);
      (ConflictReasonKey, VString r); (ComponentKey, VString "conflict-resolver")] ∧ (String.length r ≤ 200)%nat)
  ∧ ValidateTransportType a ∈ "unknown" :: transport_types
  ∧ ValidateConflictStrategy a ∈ conflict_strategies
  ∧ ValidateSyncOperation a ∈ sync_operations ∧ ValidateStorageType a ∈ "unknown" :: storage_types.
Proof.
  unfold TransportAttributes, ConflictAttributes.
  pose proof (SanitizeStringAttribute_bounds c 100) as H1.
  pose proof (SanitizeStringAttribute_bounds c 200) as H2.
  destruct (SanitizeStringAttribute c 100) as [e|w1]; [|lia].
  destruct (SanitizeStringAttribute c 200) as [r|w2]; [|lia]. cbn [obind].
  split_and!; [eexists; split; [done|lia]|eexists; split; [done|lia]|..];
    unfold ValidateTransportType, ValidateConflictStrategy, ValidateSyncOperation, ValidateStorageType, one_of;
    case_bool_decide; set_solver.
Qed.

(** *** The tracer *)
Definition gives (k : string) (attrs : list KeyValue) : Prop := is_Some (effective attrs k).
Lemma effective_app attrs attrs' k :
  effective (attrs ++ attrs') k = match effective attrs' k with Some v => Some v | None => effective attrs k end.
Proof. unfold effective. rewrite omap_app, last_app. done. Qed.

(** Remark: what the tracer was given wins over what a span says of itself: an
    attribute of [WithAttributes] under one of the span's own keys replaces its
    value in every span. *)
Theorem tracer_attributes_win t k v (Hk : effective (attributes t) k = Some v) (a b : string) :
  Forall (λ sp, effective (span_attributes sp) k = Some v)
    [StartSyncOperation a t; StartTransportOperation a b t; StartStorageOperation a b t; StartConflictResolution a t].
Proof. repeat constructor; cbn [span_attributes StartSyncOperation StartTransportOperation StartStorageOperation
  StartConflictResolution]; by rewrite effective_app, Hk. Qed.

(** Remark: the service name of a tracer and of its spans is that of the last
    option that sets one, or the constructor's, unless free attributes carry
    that key. *)
Theorem tracer_service_name (name : string) (opts : list TracerOption)
    (Hfree : ∀ attrs, WithAttributes attrs ∈ opts → effective attrs "service.name" = None) :
  let t := NewTracer name opts in
  effective (attributes t) "service.name" = Some (VString (serviceName t))
  ∧ serviceName t = default name (last (omap (λ o, match o with WithServiceName n => Some n | _ => None end) opts)).
Proof.
  unfold NewTracer. set (t0 := mkTracer _ _ _).
  assert (effective (attributes t0) "service.name" = Some (VString (serviceName t0))) as H0 by done.
  change name with (serviceName t0). clearbody t0. clear name.
  revert t0 H0. induction opts as [|o opts IH]; intros t0 H0; [done|]. cbn [fold_left].
  destruct (IH (λ attrs Ha, Hfree attrs (list_elem_of_further _ _ _ Ha)) (apply_tracer_option t0 o)) as [H1 H2].
  - destruct o as [n|v|attrs]; cbn [apply_tracer_option attributes serviceName]; rewrite effective_app.
    + done.
    + exact H0.
    + rewrite (Hfree attrs) by left. exact H0.
  - split; [exact H1|]. rewrite H2. destruct o as [n|v|attrs]; cbn; [|done..].
    destruct (omap _ opts) as [|x l] eqn:E; [done|]. cbn. by destruct (last (x :: l)) eqn:El; [|apply last_None in El].
Qed.

(** ** The client *)

(** Remark: the transport writes the propagated headers into the caller's own
    request: a second request made from it starts with them, and a request
    without a header map panics as soon as there is something to propagate. *)
Theorem RoundTrip_changes_request (StatusText : Z → string) injected duration base r (h : gomap string) :
  let '(h', res, (_, calls)) := RoundTrip StatusText injected duration base r h in
  last calls = Some End_
  ∧ ((∃ why, res = Panic why) ↔ h = None ∧ injected ≠ [])
  ∧ (∀ resp, res = Done resp → resp = base r h'
     ∧ ∀ k, k ∈ injected.*1 → is_Some (map_of h' !! k))
  ∧ ∀ k, k ∉ injected.*1 → map_of h' !! k = map_of h !! k.
Proof.
  unfold RoundTrip, Inject. destruct injected as [|kv kvs].
  { cbn. split_and!; [by rewrite last_snoc|naive_solver|intros ? [= <-]; set_solver|done]. }
  destruct h as [h|]; [|cbn; split_and!; try done; naive_solver].
  set (l := kv :: kvs). split_and!; [by rewrite last_snoc|naive_solver| |].
  - intros resp [= <-]. split; [done|]. intros k. unfold map_of, default, from_option, id. generalize h. clear. 
    induction l as [|[k' v] l IH] using rev_ind; intros h; [set_solver|].
    rewrite fold_left_app. cbn. rewrite fmap_app, elem_of_app. intros [Hk|Hk].
    + destruct (decide (k' = k)) as [->|Hne]; [by rewrite lookup_insert_eq|]. rewrite lookup_insert_ne by done. by apply IH.
    + apply list_elem_of_singleton in Hk as ->. by rewrite lookup_insert_eq.
  - intros k Hk. unfold map_of, default, from_option, id. revert h. clearbody l. induction l as [|[k' v] l IH]; intros h; [done|].
    cbn. rewrite IH by set_solver. rewrite lookup_insert_ne; [done|]. set_solver.
Qed.

(** ** A run *)
Definition demo_text (code : Z) : string := if code =? 404 then "Not Found" else "".
Definition demo_request : Request := mkRequest "GET" "/sync" "" "host" "" "/sync" "curl".
(** The second status is dropped by the writer itself. *)
Definition demo_handler : Handler :=
  then_ (WriteHeader 404) (then_ (Write 9) (then_ (WriteHeader 200) Return_)).
Lemma middleware_transparent_witness :
  let '(w', res, (_, calls)) :=
    HTTPMiddleware_Handler demo_text "svc" 5 demo_handler demo_request (mkWriter [] None 0 true) in
  (w', res) = (mkWriter [] (Some 404) 9 true, Done tt) ∧ last calls = Some End_.
Proof.
  assert (ordinary demo_handler) as Hord.
  { cbn. split_and!; [done|left; lia|]. intros [[]|why]; [|done]. intros [[]|why]; [|done].
    split_and!; [done|left; lia|]. by intros [[]|why]. }
  pose proof (middleware_transparent demo_text "svc" 5 demo_handler
    demo_request (mkWriter [] None 0 true) (conj eq_refl eq_refl) Hord) as H.
  split; [exact (proj1 H)|exact (proj1 (proj2 H))].
Defined.
