(* ===== verification/KeyValue.v ===== *)
(** * The generic storage and transport with their in-memory implementations
    (src/storage/storage.go, src/transport/transport.go)

    Byte slices live in a heap and are handed around by reference, as the
    methods copy them so that callers cannot change what is stored: a caller
    owns the slices it made and those it was given, and may write to them at any
    time.  The storage is then related to a map from keys to contents, the
    transport to a queue of messages. *)
From S2P Require Import Prelude Types Json Errors.
From stdpp Require Import options.

(** ** Slices *)
Record Heap := mkHeap { cells : gmap nat (list Z); next_ref : nat }.
Definition make (bs : list Z) (h : Heap) : Heap * nat :=
  (mkHeap (<[next_ref h := bs]> (cells h)) (S (next_ref h)), next_ref h).
Definition read (r : nat) (h : Heap) : list Z := default [] (cells h !! r).
(** [s[i] = b], for an index in range. *)
Definition write (r : nat) (i : nat) (b : Z) (h : Heap) : Heap :=
  mkHeap (alter (λ bs, <[i := b]> bs) r (cells h)) (next_ref h).
Definition copy_slice (r : nat) (h : Heap) : Heap * nat := make (read r h) h.

(** ** storage.go *)
Definition ErrKeyNotFound : error := ErrMsg "key not found".
Definition ErrStorageClosed : error := ErrMsg "storage is closed".
Definition ErrInvalidKey : error := ErrMsg "invalid key".
Definition ErrInvalidValue : error := ErrMsg "invalid value".

(** [data] is nil after [Close]. *)
Record MemoryStorage := mkStorage { data : gomap nat; closed : bool }.
Definition NewMemoryStorage : MemoryStorage := mkStorage (Some ∅) false.
Implicit Types (m : MemoryStorage) (h : Heap).

(** The checks all methods make, in their order. *)
Definition guard (ctx : CtxView) (key : string) m : option error :=
  if closed m then Some ErrStorageClosed
  else if bool_decide (key = "") then Some ErrInvalidKey
  else ErrCtx <$> ctx 0%nat.

Definition Get (ctx : CtxView) (key : string) m h : Heap * result error nat :=
  match guard ctx key m with
  | Some e => (h, Err e)
  | None =>
      match map_of (data m) !! key with
      | None => (h, Err ErrKeyNotFound)
      | Some value => let '(h, result) := copy_slice value h in (h, Ok result)
      end
  end.
(** A nil slice is refused before the context is looked at; an assignment into
    the nil map panics, but a closed storage returns first. *)
Definition Put (ctx : CtxView) (key : string) (value : option nat) m h
    : outcome (MemoryStorage * Heap * option error) :=
  if closed m then Done (m, h, Some ErrStorageClosed)
  else if bool_decide (key = "") then Done (m, h, Some ErrInvalidKey)
  else match value with
       | None => Done (m, h, Some ErrInvalidValue)
       | Some v =>
           match ctx 0%nat with
           | Some e => Done (m, h, Some (ErrCtx e))
           | None =>
               let '(h, stored) := copy_slice v h in
               match data m with
               | None => Panic "assignment to entry in nil map"
               | Some d => Done (mkStorage (Some (<[key := stored]> d)) (closed m), h, None)
               end
           end
       end.
Definition Delete (ctx : CtxView) (key : string) m : MemoryStorage * option error :=
  match guard ctx key m with
  | Some e => (m, Some e)
  | None => (mkStorage (delete key <$> data m) (closed m), None)
  end.
Definition Exists_ (ctx : CtxView) (key : string) m : result error bool :=
  match guard ctx key m with
  | Some e => Err e
  | None => Ok (bool_decide (is_Some (map_of (data m) !! key)))
  end.
Definition Close_ m : MemoryStorage * option error := (mkStorage None true, None).

(** *** Callers *)
Inductive Op :=
  | OpGet (ctx : CtxView) (key : string)
  | OpPut (ctx : CtxView) (key : string) (value : option nat)
  | OpDelete (ctx : CtxView) (key : string)
  | OpExists (ctx : CtxView) (key : string)
  | OpClose
  | OpMake (bs : list Z)
  | OpWrite (r i : nat) (b : Z).
(** What a call answers, with the contents of a returned slice. *)
Inductive Reply := RNone | RErr (e : option error) | RBytes (b : result error (list Z)) | RBool (b : result error bool).
(** [owned] are the slices callers hold. *)
Record World := mkWorld { store : MemoryStorage; heap : Heap; owned : list nat }.
Definition run_op (op : Op) (w : World) : outcome (World * Reply) :=
  match op with
  | OpGet ctx key =>
      match Get ctx key (store w) (heap w) with
      | (h, Ok r) => Done (mkWorld (store w) h (r :: owned w), RBytes (Ok (read r h)))
      | (h, Err e) => Done (mkWorld (store w) h (owned w), RBytes (Err e))
      end
  | OpPut ctx key value =>
      let* (mh, e) := Put ctx key value (store w) (heap w) in
      Done (mkWorld mh.1 mh.2 (owned w), RErr e)
  | OpDelete ctx key => let '(m, e) := Delete ctx key (store w) in Done (mkWorld m (heap w) (owned w), RErr e)
  | OpExists ctx key => Done (w, RBool (Exists_ ctx key (store w)))
  | OpClose => let '(m, e) := Close_ (store w) in Done (mkWorld m (heap w) (owned w), RErr e)
  | OpMake bs => let '(h, r) := make bs (heap w) in Done (mkWorld (store w) h (r :: owned w), RNone)
  | OpWrite r i b => Done (mkWorld (store w) (write r i b (heap w)) (owned w), RNone)
  end.
(** A caller uses the slices it owns. *)
Definition allowed (op : Op) (w : World) : Prop :=
  match op with
  | OpPut _ _ (Some r) => r ∈ owned w
  | OpWrite r _ _ => r ∈ owned w
  | _ => True
  end.

(** ** The specification: a map from keys to contents *)
Abbreviation KV := (option (gmap string (list Z))).
Definition spec_guard (ctx : CtxView) (key : string) (kv : KV) : option error :=
  match kv with
  | None => Some ErrStorageClosed
  | Some _ => if bool_decide (key = "") then Some ErrInvalidKey else ErrCtx <$> ctx 0%nat
  end.
(** [bytes] are the contents of the slices callers hold. *)
Definition spec_op (bytes : nat → list Z) (op : Op) (kv : KV) : KV * Reply :=
  match op with
  | OpGet ctx key =>
      (kv, RBytes (match spec_guard ctx key kv with
                   | Some e => Err e
                   | None => match map_of kv !! key with Some b => Ok b | None => Err ErrKeyNotFound end
                   end))
  | OpPut ctx key value =>
      match spec_guard background key kv, value with
      | Some e, _ => (kv, RErr (Some e))
      | None, None => (kv, RErr (Some ErrInvalidValue))
      | None, Some r =>
          match ctx 0%nat with
          | Some e => (kv, RErr (Some (ErrCtx e)))
          | None => (<[key := bytes r]> <$> kv, RErr None)
          end
      end
  | OpDelete ctx key =>
      match spec_guard ctx key kv with
      | Some e => (kv, RErr (Some e))
      | None => (delete key <$> kv, RErr None)
      end
  | OpExists ctx key =>
      (kv, RBool (match spec_guard ctx key kv with
                  | Some e => Err e
                  | None => Ok (bool_decide (is_Some (map_of kv !! key)))
                  end))
  | OpClose => (None, RErr None)
  | OpMake _ | OpWrite _ _ _ => (kv, RNone)
  end.

(** ** The refinement *)
Definition contents (w : World) : KV :=
  match data (store w) with
  | Some d => Some ((λ r, read r (heap w)) <$> d)
  | None => None
  end.
(** Stored slices are the storage's own, and a closed storage has no map. *)
Definition separated (w : World) : Prop :=
  (closed (store w) = true ↔ data (store w) = None)
  ∧ (∀ r, r ∈ owned w → (r < next_ref (heap w))%nat)
  ∧ ∀ key r, map_of (data (store w)) !! key = Some r → r ∉ owned w ∧ (r < next_ref (heap w))%nat.

Lemma read_make bs h r : (r < next_ref h)%nat → read r (make bs h).1 = read r h.
Proof. intros Hr. unfold read. cbn. by rewrite lookup_insert_ne by lia. Qed.
Lemma read_made bs h : read (make bs h).2 (make bs h).1 = bs.
Proof. unfold read. cbn. by rewrite lookup_insert_eq. Qed.
Lemma read_write r r' i b h : r ≠ r' → read r (write r' i b h) = read r h.
Proof. intros Hr. unfold read. cbn. by rewrite lookup_alter_ne. Qed.

Lemma spec_guard_contents ctx key w : separated w → spec_guard ctx key (contents w) = guard ctx key (store w).
Proof.
  intros (Hc & _). unfold contents, guard, spec_guard. destruct (closed (store w)).
  - by rewrite (proj1 Hc).
  - destruct (data (store w)); [done|]. by discriminate (proj2 Hc eq_refl).
Qed.
Lemma contents_lookup key w : map_of (contents w) !! key = (λ r, read r (heap w)) <$> map_of (data (store w)) !! key.
Proof. unfold contents. destruct (data (store w)); [apply lookup_fmap|done]. Qed.
(** Nothing but the stored slices matters. *)
Lemma contents_ext w m h o : separated w → m = store w →
  (∀ r, (r < next_ref (heap w))%nat → r ∉ owned w → read r h = read r (heap w)) →
  contents (mkWorld m h o) = contents w.
Proof.
  intros (_ & _ & Hs) -> Hr. unfold contents. cbn. destruct (data (store w)) as [d|]; [|done]. cbn. f_equal.
  apply map_eq. intros k. rewrite !lookup_fmap. destruct (d !! k) as [r|] eqn:E; [|done]. cbn. f_equal.
  destruct (Hs k r E). by apply Hr.
Qed.

Lemma separated_make w bs : separated w →
  separated (mkWorld (store w) (make bs (heap w)).1 ((make bs (heap w)).2 :: owned w))
  ∧ contents (mkWorld (store w) (make bs (heap w)).1 ((make bs (heap w)).2 :: owned w)) = contents w.
Proof.
  intros Hsep. split.
  - destruct Hsep as (Hc & Ho & Hs). split_and!; cbn [store heap owned]; [done| |].
    + intros r. cbn. intros [->|Hr]%elem_of_cons; [lia|]. pose proof (Ho r Hr). lia.
    + intros key r Hk. destruct (Hs key r Hk) as [Hr Hlt]. cbn. split; [|lia].
      intros [->|?]%elem_of_cons; [lia|done].
  - apply contents_ext; [done|done|]. intros r Hr _. by apply read_make.
Qed.
Lemma separated_write w r i b : separated w → r ∈ owned w →
  separated (mkWorld (store w) (write r i b (heap w)) (owned w))
  ∧ contents (mkWorld (store w) (write r i b (heap w)) (owned w)) = contents w.
Proof.
  intros Hsep Hr. split; [exact Hsep|]. apply contents_ext; [done|done|].
  intros r' _ Hr'. apply read_write. by intros ->.
Qed.
Lemma separated_put w key r d : separated w → data (store w) = Some d → r ∈ owned w →
  let h := (copy_slice r (heap w)).1 in
  let w' := mkWorld (mkStorage (Some (<[key := next_ref (heap w)]> d)) (closed (store w))) h (owned w) in
  separated w' ∧ contents w' = <[key := read r (heap w)]> <$> contents w.
Proof.
  intros (Hc & Ho & Hs) Hd Hr. cbn zeta. rewrite Hd in Hs. unfold map_of in Hs. cbn in Hs. split.
  - split_and!; cbn.
    + rewrite Hc, Hd. split; done.
    + intros r' Hr'. pose proof (Ho r' Hr'). lia.
    + intros k r'. destruct (decide (key = k)) as [->|Hne].
      * rewrite lookup_insert_eq. intros [= <-]. split; [|lia]. intros Hn%Ho. lia.
      * rewrite lookup_insert_ne by done. intros Hk. destruct (Hs k r' Hk). split; [done|lia].
  - unfold contents. cbn [store data heap]. rewrite Hd. cbn. f_equal. rewrite fmap_insert. f_equal.
    + by apply (read_made (read r (heap w)) (heap w)).
    + apply map_eq. intros k. rewrite !lookup_fmap. destruct (d !! k) as [r'|] eqn:E; [|done]. cbn. f_equal.
      destruct (Hs k r' E). by apply read_make.
Qed.
Lemma separated_delete w key d : separated w → data (store w) = Some d →
  let w' := mkWorld (mkStorage (Some (delete key d)) (closed (store w))) (heap w) (owned w) in
  separated w' ∧ contents w' = delete key <$> contents w.
Proof.
  intros (Hc & Ho & Hs) Hd. cbn zeta. rewrite Hd in Hs. unfold map_of in Hs. cbn in Hs. split.
  - split_and!; cbn; [by rewrite Hc, Hd|done|]. intros k r' Hk%lookup_delete_Some. apply (Hs k r'), Hk.
  - unfold contents. cbn [store data heap]. rewrite Hd. cbn. by rewrite fmap_delete.
Qed.
Lemma guard_open ctx key w : separated w → guard ctx key (store w) = None → ∃ d, data (store w) = Some d.
Proof.
  intros (Hc & _) Hg. unfold guard in Hg. destruct (closed (store w)); [done|].
  destruct (data (store w)) as [d|]; [by exists d|]. by discriminate (proj2 Hc eq_refl).
Qed.

Lemma op_refines op w : separated w → allowed op w →
  ∃ w' reply, run_op op w = Done (w', reply) ∧ separated w'
    ∧ spec_op (λ r, read r (heap w)) op (contents w) = (contents w', reply).
Proof.
  intros Hsep Hal. destruct op as [ctx key|ctx key value|ctx key|ctx key| |bs|r i b]; cbn [run_op spec_op].
  - unfold Get. rewrite spec_guard_contents, contents_lookup by done.
    destruct (guard ctx key (store w)) as [e|]; [by eexists _, _|].
    destruct (map_of (data (store w)) !! key) as [r|] eqn:E; [|by eexists _, _].
    destruct (separated_make w (read r (heap w)) Hsep) as [H1 H2].
    eexists _, _. split; [reflexivity|]. split; [exact H1|].
    f_equal; [exact (eq_sym H2)|]. do 2 f_equal. symmetry. exact (read_made (read r (heap w)) (heap w)).
  - unfold Put. rewrite spec_guard_contents by done. unfold guard. cbn.
    destruct (closed (store w)) eqn:Hcl; [eexists _, _; cbn; destruct w; by split_and!|].
    destruct (bool_decide (key = "")); [eexists _, _; cbn; destruct w; by split_and!|].
    destruct value as [r|]; [|eexists _, _; cbn; destruct w; by split_and!].
    destruct (ctx 0%nat) as [e|]; [eexists _, _; cbn; destruct w; by split_and!|]. cbn [fmap option_fmap option_map].
    destruct (data (store w)) as [d|] eqn:Hd.
    + destruct (separated_put w key r d Hsep Hd Hal) as [H1 H2]. rewrite Hcl in H1, H2.
      eexists _, _. split; [reflexivity|]. split; [exact H1|].
      f_equal. exact (eq_sym H2).
    + destruct Hsep as [Hc _]. by rewrite (proj2 Hc Hd) in Hcl.
  - unfold Delete. rewrite spec_guard_contents by done.
    destruct (guard ctx key (store w)) as [e|] eqn:Hg; [eexists _, _; cbn; destruct w; by split_and!|].
    destruct (guard_open ctx key w Hsep Hg) as [d Hd].
    destruct (separated_delete w key d Hsep Hd) as [H1 H2].
    eexists _, _. split; [reflexivity|]. rewrite Hd. split; [exact H1|].
      f_equal. exact (eq_sym H2).
  - unfold Exists_. rewrite spec_guard_contents, contents_lookup by done. eexists _, _. split; [reflexivity|].
    split; [done|]. f_equal. f_equal. destruct (guard ctx key (store w)); [done|]. f_equal.
    apply bool_decide_ext. by rewrite fmap_is_Some.
  - eexists _, _. split; [reflexivity|]. split; [|done]. destruct Hsep as (_ & Ho & _).
    split_and!; cbn; [done|exact Ho|]. intros k r Hk. by rewrite lookup_empty in Hk.
  - destruct (separated_make w bs Hsep) as [H1 H2]. eexists _, _. split; [reflexivity|]. split; [exact H1|].
    f_equal. exact (eq_sym H2).
  - destruct (separated_write w r i b Hsep Hal) as [H1 H2]. eexists _, _. split; [reflexivity|]. split; [exact H1|].
    f_equal. exact (eq_sym H2).
Qed.

(** Remark: the storage refines a map from keys to contents: no operation panics,
    each answers what the map answers, errors in the same order included, and
    the slices callers hold stay apart from the stored ones, so that writing to
    a slice before or after it was stored or returned changes nothing. *)
Theorem storage_refines_map (op : Op) (w : World) (Hsep : separated w) (Hal : allowed op w) :
  ∃ w' reply, run_op op w = Done (w', reply) ∧ separated w'
    ∧ spec_op (λ r, read r (heap w)) op (contents w) = (contents w', reply).
Proof. by apply op_refines. Qed.

(** Runs of callers that respect the discipline. *)
Inductive runs : list Op → World → World → Prop :=
  | runs_nil w : runs [] w w
  | runs_cons op ops w w1 w2 reply :
      allowed op w → run_op op w = Done (w1, reply) → runs ops w1 w2 → runs (op :: ops) w w2.
Definition touches (key : string) (op : Op) : Prop :=
  match op with OpPut _ k _ | OpDelete _ k => k = key | OpClose => True | _ => False end.

(** Remark: what was put under a key is what [Get] returns after any operations
    that neither put nor delete that key nor close the storage, writes to the
    slice that was put and to slices that were returned included. *)
Theorem put_then_get (key : string) (r : nat) (ops : list Op) (w w1 w2 : World) (reply : Reply) (bs : list Z)
    (Hsep : separated w) (Hr : r ∈ owned w) (Hbs : read r (heap w) = bs)
    (Hput : run_op (OpPut background key (Some r)) w = Done (w1, RErr None))
    (Hrun : runs ops w1 w2) (Hq : Forall (λ op, ¬ touches key op) ops) :
  ∃ w3, run_op (OpGet background key) w2 = Done (w3, RBytes (Ok bs)).
Proof.
  destruct (op_refines (OpPut background key (Some r)) w Hsep Hr) as (w1' & rep & H1 & Hsep1 & Hspec).
  rewrite Hput in H1. injection H1 as <- <-. cbn [spec_op] in Hspec.
  destruct (spec_guard background key (contents w)) as [e|] eqn:Hg; [done|]. cbn in Hspec. injection Hspec as Hc.
  assert (∃ kv, contents w1 = Some kv ∧ kv !! key = Some bs) as Hk.
  { unfold spec_guard in Hg. destruct (contents w) as [kv|]; [|done]. rewrite Hbs in Hc. cbn in Hc.
    exists (<[key := bs]> kv). by rewrite lookup_insert_eq. }
  assert (key ≠ "") as Hne.
  { intros ->. unfold spec_guard in Hg. by destruct (contents w). }
  clear Hc Hg Hput Hsep Hr Hbs w. 
  induction Hrun as [w|op ops w w1 w2 rep Hal Hop Hrun IH].
  - destruct (op_refines (OpGet background key) w Hsep1 I) as (w3 & rep & H1 & _ & Hspec).
    exists w3. rewrite H1. f_equal. f_equal. cbn [spec_op] in Hspec. injection Hspec as _ <-.
    destruct Hk as (kv & -> & Hk). cbn. rewrite bool_decide_eq_false_2 by done. cbn. by rewrite Hk.
  - apply Forall_cons in Hq as [Hq Hqs]. apply IH; [done| |].
    + destruct (op_refines op w Hsep1 Hal) as (w1' & rep' & H1 & Hsep2 & _). rewrite Hop in H1. by injection H1 as <- _.
    + destruct (op_refines op w Hsep1 Hal) as (w1' & rep' & H1 & _ & Hspec). rewrite Hop in H1. injection H1 as <- _.
      destruct Hk as (kv & Hkv & Hk). rewrite Hkv in Hspec. clear IH Hop.
      destruct op as [c k|c k value|c k|c k| |bs'|r' i b]; cbn [spec_op touches] in Hspec, Hq;
        try (injection Hspec as <- _; by exists kv).
      * destruct (spec_guard background k (Some kv)); [injection Hspec as <- _; by exists kv|].
        destruct value as [v|]; [|injection Hspec as <- _; by exists kv].
        destruct (c 0%nat); injection Hspec as <- _; [by exists kv|]. eexists. split; [reflexivity|].
        by rewrite lookup_insert_ne.
      * destruct (spec_guard c k (Some kv)); injection Hspec as <- _; [by exists kv|]. eexists. split; [reflexivity|].
        by rewrite lookup_delete_ne.
Qed.

(** ** transport.go

    [Send] copies the bytes and nobody keeps the copy, so messages hold their
    contents. *)
Definition ErrTransportClosed : error := ErrMsg "transport is closed".
Definition ErrConnectionFailed : error := ErrMsg "connection failed".
Definition ErrInvalidPeer : error := ErrMsg "invalid peer".
Definition ErrTransportTimeout : error := ErrMsg "transport operation timeout".
Definition ErrPeerNotFound : error := ErrMsg "peer not found".
Record Message := mkMessage { Peer : string; Data : list Z; Timestamp : Z }.
(** [peers] is nil after [Close]. *)
Record MockTransport := mkMock {
  peers : gomap bool; messageQueue : list Message; mock_closed : bool
}.
Definition NewMockTransport : MockTransport := mkMock (Some ∅) [] false.
Implicit Type t : MockTransport.

(** A missing peer reads as false. *)
Definition connected (peer : string) t : bool := default false (map_of (peers t) !! peer).
Definition Connect (ctx : CtxView) (peer : string) t : outcome (MockTransport * option error) :=
  if bool_decide (peer = "") then Done (t, Some ErrInvalidPeer)
  else if mock_closed t then Done (t, Some ErrTransportClosed)
  else match ctx 0%nat with
       | Some e => Done (t, Some (ErrCtx e))
       | None => match peers t with
                 | None => Panic "assignment to entry in nil map"
                 | Some p => Done (mkMock (Some (<[peer := true]> p)) (messageQueue t) (mock_closed t), None)
                 end
       end.
Definition Disconnect (ctx : CtxView) (peer : string) t : MockTransport * option error :=
  if bool_decide (peer = "") then (t, Some ErrInvalidPeer)
  else if mock_closed t then (t, Some ErrTransportClosed)
  else match ctx 0%nat with
       | Some e => (t, Some (ErrCtx e))
       | None => (mkMock (delete peer <$> peers t) (messageQueue t) (mock_closed t), None)
       end.
Definition Send (ctx : CtxView) (now : Z) (peer : string) (bytes : list Z) t : MockTransport * option error :=
  if bool_decide (peer = "") then (t, Some ErrInvalidPeer)
  else if mock_closed t then (t, Some ErrTransportClosed)
  else if negb (connected peer t) then (t, Some ErrPeerNotFound)
  else match ctx 0%nat with
       | Some e => (t, Some (ErrCtx e))
       | None => (mkMock (peers t) (messageQueue t ++ [mkMessage peer bytes now]) (mock_closed t), None)
       end.
(** No message is an empty peer without an error. *)
Definition Receive (ctx : CtxView) t : MockTransport * result error (string * list Z) :=
  if mock_closed t then (t, Err ErrTransportClosed)
  else match ctx 0%nat with
       | Some e => (t, Err (ErrCtx e))
       | None => match messageQueue t with
                 | message :: rest => (mkMock (peers t) rest (mock_closed t), Ok (Peer message, Data message))
                 | [] => (t, Ok ("", []))
                 end
       end.
Definition IsConnected (peer : string) t : bool := if mock_closed t then false else connected peer t.
Definition GetConnectedPeers `{!MapRange} t : list string :=
  if mock_closed t then [] else (range (map_of (peers t))).*1.
Definition MockTransport_Close t : MockTransport * option error := (mkMock None [] true, None).

Inductive TransportOp :=
  | TConnect (ctx : CtxView) (peer : string)
  | TDisconnect (ctx : CtxView) (peer : string)
  | TSend (ctx : CtxView) (now : Z) (peer : string) (bytes : list Z)
  | TReceive (ctx : CtxView)
  | TClose.
(** The transport, what it has accepted and what it has handed out. *)
Record TransportRun := mkRun {
  transport : MockTransport; accepted : list (string * list Z); received : list (string * list Z)
}.
Definition transport_op (op : TransportOp) (s : TransportRun) : outcome TransportRun :=
  let t := transport s in
  match op with
  | TConnect ctx peer => let* (t, _) := Connect ctx peer t in Done (mkRun t (accepted s) (received s))
  | TDisconnect ctx peer => Done (mkRun (Disconnect ctx peer t).1 (accepted s) (received s))
  | TSend ctx now peer bytes =>
      let '(t, err) := Send ctx now peer bytes t in
      Done (mkRun t (match err with None => accepted s ++ [(peer, bytes)] | Some _ => accepted s end) (received s))
  | TReceive ctx =>
      let '(t, res) := Receive ctx t in
      Done (mkRun t (accepted s)
        (match res with
         | Ok (peer, bytes) => if bool_decide (peer = "") then received s else received s ++ [(peer, bytes)]
         | Err _ => received s
         end))
  | TClose => Done (mkRun (MockTransport_Close t).1 (accepted s) (received s))
  end.
Fixpoint transport_run (ops : list TransportOp) (s : TransportRun) : outcome TransportRun :=
  match ops with [] => Done s | op :: ops => let* s := transport_op op s in transport_run ops s end.

Definition pending (t : MockTransport) : list (string * list Z) := (λ msg, (Peer msg, Data msg)) <$> messageQueue t.
Definition queue_inv (s : TransportRun) : Prop :=
  (mock_closed (transport s) = true ↔ peers (transport s) = None)
  ∧ Forall (λ msg, Peer msg ≠ "") (messageQueue (transport s))
  ∧ received s `prefix_of` accepted s
  ∧ (mock_closed (transport s) = false → accepted s = received s ++ pending (transport s)).

Lemma transport_op_inv op s : queue_inv s → ∃ s', transport_op op s = Done s' ∧ queue_inv s'.
Proof.
  intros Hinv. assert (queue_inv (mkRun (transport s) (accepted s) (received s))) as Hsame by exact Hinv.
  assert (∃ s', Done (mkRun (transport s) (accepted s) (received s)) = Done s' ∧ queue_inv s') as Hun
    by exact (ex_intro _ _ (conj eq_refl Hsame)).
  destruct Hinv as (Hc & Hne & Hp & Hq).
  destruct op as [ctx peer|ctx peer|ctx now peer bytes|ctx|]; cbn [transport_op].
  - unfold Connect. destruct (bool_decide (peer = "")); [exact Hun|].
    destruct (mock_closed (transport s)) eqn:E; [exact Hun|]. destruct (ctx 0%nat); [exact Hun|].
    destruct (peers (transport s)) as [p|] eqn:Ep; [|by discriminate (proj2 Hc eq_refl)].
    eexists. split; [reflexivity|]. by split_and!.
  - unfold Disconnect. destruct (bool_decide (peer = "")); [exact Hun|].
    destruct (mock_closed (transport s)) eqn:E; [exact Hun|]. destruct (ctx 0%nat); [exact Hun|].
    eexists. split; [reflexivity|]. split_and!; cbn; try done. by destruct (peers (transport s)).
  - unfold Send. case_bool_decide as Hpeer; [exact Hun|].
    destruct (mock_closed (transport s)) eqn:E; [exact Hun|].
    destruct (connected peer (transport s)); cbn [negb]; [|exact Hun]. destruct (ctx 0%nat); [exact Hun|].
    eexists. split; [reflexivity|]. split_and!; cbn; [done| | |].
    + apply Forall_app. split; [done|]. by apply Forall_singleton.
    + by apply prefix_app_r.
    + intros _. rewrite Hq by done. unfold pending. cbn. by rewrite fmap_app, app_assoc.
  - unfold Receive. destruct (mock_closed (transport s)) eqn:E; [exact Hun|]. destruct (ctx 0%nat); [exact Hun|].
    destruct (messageQueue (transport s)) as [|msg rest] eqn:Em; [exact Hun|].
    apply Forall_cons in Hne as [Hm Hne]. eexists. split; [reflexivity|]. rewrite bool_decide_eq_false_2 by done.
    specialize (Hq eq_refl). unfold pending in Hq. rewrite Em in Hq. cbn in Hq.
    split_and!; cbn; [done|done| |].
    + rewrite Hq. apply prefix_app. by exists ((λ msg, (Peer msg, Data msg)) <$> rest).
    + intros _. rewrite Hq. unfold pending. cbn. by rewrite <-app_assoc.
  - eexists. split; [reflexivity|]. cbn. by split_and!.
Qed.

(** Remark: messages come out in the order they went in, each once and none that
    was not sent, whatever is connected, disconnected and closed in between; until
    the transport is closed, what is missing is waiting in the queue.  No
    operation panics. *)
Theorem transport_fifo (ops : list TransportOp) :
  ∃ s, transport_run ops (mkRun NewMockTransport [] []) = Done s
    ∧ received s `prefix_of` accepted s
    ∧ (mock_closed (transport s) = false → accepted s = received s ++ pending (transport s)).
Proof.
  assert (∀ s, queue_inv s → ∃ s', transport_run ops s = Done s' ∧ queue_inv s') as Hrun.
  { induction ops as [|op ops IH]; intros s Hs; [by exists s|]. cbn [transport_run].
    destruct (transport_op_inv op s Hs) as (s1 & -> & Hs1). apply IH, Hs1. }
  destruct (Hrun (mkRun NewMockTransport [] [])) as (s & Hs & _ & _ & H1 & H2); [by split_and!|].
  by exists s.
Qed.

(** ** Runs *)
Definition demo_world : World :=
  mkWorld (mkStorage (Some {["a" := 0%nat]}) false) (mkHeap {[0%nat := [1; 2]; 1%nat := [3]]} 2) [1%nat].
Lemma demo_separated : separated demo_world.
Proof.
  split_and!; [by split| |].
  - intros r. cbn. intros ->%list_elem_of_singleton. lia.
  - intros key r. cbn. intros [<- <-]%lookup_singleton_Some. split; [set_solver|lia].
Qed.
Lemma storage_refines_map_witness :
  ∃ w' reply, run_op (OpPut background "b" (Some 1%nat)) demo_world = Done (w', reply) ∧ separated w'
    ∧ spec_op (λ r, read r (heap demo_world)) (OpPut background "b" (Some 1%nat)) (contents demo_world)
      = (contents w', reply).
Proof.
  apply (storage_refines_map (OpPut background "b" (Some 1%nat)) demo_world demo_separated). by left.
Defined.
