(* ===== verification/Logging.v ===== *)
(** * Logging (src/logging: logger.go, config.go)

    The configuration from the environment, loggers as a threshold with a
    handler and attributes, what each function adds to the records written, and
    the default logger.  Records are kept before a handler renders them; a
    [LogValuer] is resolved. *)
From S2P Require Import Prelude Types Json Text Errors.
From stdpp Require Import options.

(** ** Levels ([slog.Level]) *)
Definition LevelDebug : Z := -4.
Definition LevelInfo : Z := 0.
Definition LevelWarn : Z := 4.
Definition LevelError : Z := 8.
Definition LevelTrace : Z := LevelDebug - 4.
Definition LevelFatal : Z := LevelError + 4.
(** [slog.Level.String]. *)
Definition with_offset (base : string) (val : Z) : string :=
  if val =? 0 then base else base +:+ (if 0 <? val then "+" else "") +:+ format_int val.
Definition slog_Level_String (l : Z) : string :=
  if l <? LevelInfo then with_offset "DEBUG" (l - LevelDebug)
  else if l <? LevelWarn then with_offset "INFO" (l - LevelInfo)
  else if l <? LevelError then with_offset "WARN" (l - LevelWarn)
  else with_offset "ERROR" (l - LevelError).
Definition CustomLevel_String (l : Z) : string :=
  if l =? LevelTrace then "TRACE" else if l =? LevelFatal then "FATAL" else slog_Level_String l.

(** ** Configuration *)
Record Config := mkConfig { Level : string; Format : string; AddSource : bool; Environment : string }.
Definition DefaultConfig : Config := mkConfig "info" "json" true "dev".
Definition EnvDevelopment : string := "development".
Definition EnvProduction : string := "production".
Definition EnvTest : string := "test".

(** An unset variable reads as the empty text. *)
Definition environment_defaults (config : Config) : Config :=
  let fill (format level : string) (source : bool) :=
    mkConfig (if bool_decide (Level config = "") then level else Level config)
      (if bool_decide (Format config = "") then format else Format config) source (Environment config) in
  if bool_decide (Environment config = EnvProduction) then fill "json" "info" false
  else if bool_decide (Environment config = EnvTest) then fill "text" "debug" false
  else if bool_decide (Environment config = EnvDevelopment) then fill "text" "debug" true
  else config.
Definition GetConfigFromEnv (getenv : string → string) : Config :=
  let config := DefaultConfig in
  let level := getenv "LOG_LEVEL" in
  let config := if bool_decide (level = "") then config
                else mkConfig (ToLower level) (Format config) (AddSource config) (Environment config) in
  let format := getenv "LOG_FORMAT" in
  let config := if bool_decide (format = "") then config
                else mkConfig (Level config) (ToLower format) (AddSource config) (Environment config) in
  let env := getenv "ENVIRONMENT" in
  let config := if bool_decide (env = "") then config
                else mkConfig (Level config) (Format config) (AddSource config) (ToLower env) in
  let addSource := getenv "LOG_ADD_SOURCE" in
  let config := if bool_decide (addSource = "") then config
                else mkConfig (Level config) (Format config) (bool_decide (ToLower addSource = "true"))
                       (Environment config) in
  environment_defaults config.

(** ** Loggers *)
Inductive LogValue :=
  | LString (s : string) | LBool (b : bool) | LInt (z : Z) | LDuration (d : Z) | LTime (t : Z) | LAny (a : any)
  | LGroup (attrs : list (string * LogValue)).
Abbreviation LogAttr := (string * LogValue)%type.
Inductive HandlerKind := TextHandler | JSONHandler.
(** A level variable is shared by reference. *)
Inductive Threshold := Fixed (level : Z) | Dynamic (var : nat).
Record Logger := mkLogger {
  handler : HandlerKind; threshold : Threshold; source : bool; context_attrs : list LogAttr
}.
Record LogRecord := mkRecord { r_level : Z; r_msg : string; r_attrs : list LogAttr; r_source : bool }.

(** The default logger, the level variables, the records written so far and the
    code the program has exited with. *)
Record World := mkWorld {
  defaultLogger : option Logger; level_vars : gmap nat Z; next_var : nat;
  records : list LogRecord; exited : option Z
}.
Implicit Types (w : World) (l : Logger).

Definition NewLogger_level (level : string) : Z :=
  if bool_decide (level = "debug") then LevelDebug
  else if bool_decide (level = "info") then LevelInfo
  else if bool_decide (level = "warn") then LevelWarn
  else if bool_decide (level = "error") then LevelError
  else LevelInfo.
Definition handler_of (config : Config) : HandlerKind :=
  if bool_decide (Format config = "text") || bool_decide (Environment config = "dev")
  then TextHandler else JSONHandler.
Definition NewLogger (config : Config) : Logger :=
  mkLogger (handler_of config) (Fixed (NewLogger_level (Level config))) (AddSource config) [].
Definition Init (config : Config) w : World :=
  mkWorld (Some (NewLogger config)) (level_vars w) (next_var w) (records w) (exited w).
Definition Default w : World * Logger :=
  match defaultLogger w with
  | Some l => (w, l)
  | None => (Init DefaultConfig w, NewLogger DefaultConfig)
  end.

Definition minimum w l : Z :=
  match threshold l with Fixed level => level | Dynamic v => default LevelInfo (level_vars w !! v) end.
Definition Enabled w l (level : Z) : bool := minimum w l <=? level.
Definition Log (level : Z) (msg : string) (attrs : list LogAttr) l w : World :=
  if Enabled w l level
  then mkWorld (defaultLogger w) (level_vars w) (next_var w)
         (records w ++ [mkRecord level msg (context_attrs l ++ attrs) (source l)]) (exited w)
  else w.
Definition With (attrs : list LogAttr) l : Logger :=
  mkLogger (handler l) (threshold l) (source l) (context_attrs l ++ attrs).

Definition WithOperation (op : string) l : Logger := With [("operation", LString op)] l.
Definition WithComponent (component : string) l : Logger := With [("component", LString component)] l.
(** [value] reads the context. *)
Definition WithContext (value : string → option any) (attrs : list LogAttr) l : Logger :=
  let of_context key := match value key with Some v => [(key, LString (sprintf_v v))] | None => [] end in
  With (of_context "request_id" ++ of_context "trace_id" ++ attrs) l.

(** The error kinds carry no metadata here, so the group has no such entry. *)
Definition SyncErrorValuer_LogValue (op component : string) (err : error) (retryable : bool) (code kind : string)
    : LogValue :=
  LGroup [("operation", LString op); ("component", LString component); ("code", LString code);
          ("kind", LString kind); ("retryable", LBool retryable); ("error", LString (error_string err))].
(** [caller] is what the runtime knows of the caller. *)
Definition LogError (caller : option (list LogAttr)) (err : option error) (msg : string) (attrs : list LogAttr) l w
    : outcome World :=
  let* error_attrs :=
    match err with
    | None => Panic "invalid memory address or nil pointer dereference"
    | Some (SyncError op component e retryable code kind) =>
        Done [("sync_error", SyncErrorValuer_LogValue op component e retryable code kind)]
    | Some e => Done [("error", LString (error_string e))]
    end in
  let stack := match caller with Some c => [("caller", LGroup c)] | None => [] end in
  Done (Log LevelError msg (error_attrs ++ stack ++ attrs) l w).
(** [fn] may do anything to the world; [start] and [duration] are clock readings. *)
Definition LogOperation (caller : option (list LogAttr)) (start duration : Z) (op component : string)
    (fn : World → World * option error) l w : outcome (World * option error) :=
  let opLogger := WithComponent component (WithOperation op l) in
  let w := Log LevelInfo "operation started" [("start_time", LTime start)] opLogger w in
  let '(w, err) := fn w in
  match err with
  | Some e =>
      let* w := LogError caller (Some e) "operation failed"
                  [("duration", LDuration duration); ("success", LBool false)] opLogger w in
      Done (w, Some e)
  | None =>
      Done (Log LevelInfo "operation completed" [("duration", LDuration duration); ("success", LBool true)]
              opLogger w, None)
  end.

(** ** The functions on the default logger *)
Definition on_default (level : Z) (msg : string) (attrs : list LogAttr) w : World :=
  let '(w, l) := Default w in Log level msg attrs l w.
Definition Debug : string → list LogAttr → World → World := on_default LevelDebug.
Definition Info : string → list LogAttr → World → World := on_default LevelInfo.
Definition Warn : string → list LogAttr → World → World := on_default LevelWarn.
Definition Error_ : string → list LogAttr → World → World := on_default LevelError.
Definition Trace : string → list LogAttr → World → World := on_default LevelTrace.
(** Nothing runs after the exit. *)
Definition Fatal (msg : string) (attrs : list LogAttr) w : World :=
  let w := on_default LevelFatal msg attrs w in
  mkWorld (defaultLogger w) (level_vars w) (next_var w) (records w) (Some 1).
Definition Default_LogError (caller : option (list LogAttr)) (err : option error) (msg : string)
    (attrs : list LogAttr) w : outcome World :=
  let '(w, l) := Default w in LogError caller err msg attrs l w.
Definition Default_LogOperation (caller : option (list LogAttr)) (start duration : Z) (op component : string)
    (fn : World → World * option error) w : outcome (World * option error) :=
  let '(w, l) := Default w in LogOperation caller start duration op component fn l w.

(** ** Levels changed at run time *)
Definition NewDynamicLevelVar (initialLevel : Z) w : World * nat :=
  (mkWorld (defaultLogger w) (<[next_var w := initialLevel]> (level_vars w)) (S (next_var w)) (records w) (exited w),
   next_var w).
Definition level_named (level : string) : option Z :=
  let level := ToLower level in
  if bool_decide (level = "trace") then Some LevelTrace
  else if bool_decide (level = "debug") then Some LevelDebug
  else if bool_decide (level = "info") then Some LevelInfo
  else if bool_decide (level ∈ ["warn"; "warning"]) then Some LevelWarn
  else if bool_decide (level = "error") then Some LevelError
  else if bool_decide (level = "fatal") then Some LevelFatal
  else None.
Definition SetFromString (var : nat) (level : string) w : World * bool :=
  match level_named level with
  | Some z => (mkWorld (defaultLogger w) (<[var := z]> (level_vars w)) (next_var w) (records w) (exited w), true)
  | None => (w, false)
  end.
(** The level of the configuration is not read. *)
Definition NewLoggerWithDynamicLevel (config : Config) w : World * (Logger * nat) :=
  let '(w, levelVar) := NewDynamicLevelVar LevelInfo w in
  (w, (mkLogger (handler_of config) (Dynamic levelVar) (AddSource config) [], levelVar)).

(** ** Properties *)
Lemma ToLower_nonempty s : s ≠ "" → ToLower s ≠ "".
Proof. intros Hs. destruct s as [|a [|b [|c r]]]; cbn; repeat case_match; done. Qed.

(** Remark: what the environment configures: a variable that is set decides its
    field, and the level and format meant for each environment are never used,
    since the defaults fill both fields first; the environment decides the source
    option alone, against the variable for it. *)
Theorem GetConfigFromEnv_exact (getenv : string → string) :
  let config := GetConfigFromEnv getenv in
  let or v d := if bool_decide (getenv v = "") then d else ToLower (getenv v) in
  Level config = or "LOG_LEVEL" "info" ∧ Format config = or "LOG_FORMAT" "json"
  ∧ Environment config = or "ENVIRONMENT" "dev"
  ∧ AddSource config =
      (if bool_decide (Environment config ∈ [EnvProduction; EnvTest]) then false
       else if bool_decide (Environment config = EnvDevelopment) then true
       else if bool_decide (getenv "LOG_ADD_SOURCE" = "") then true
       else bool_decide (ToLower (getenv "LOG_ADD_SOURCE") = "true")).
Proof.
  cbv zeta. unfold GetConfigFromEnv.
  set (level := getenv "LOG_LEVEL"). set (format := getenv "LOG_FORMAT").
  set (env := getenv "ENVIRONMENT"). set (add := getenv "LOG_ADD_SOURCE").
  set (config := if bool_decide (add = "") then _ else _).
  set (lv := if bool_decide (level = "") then "info" else ToLower level).
  set (fm := if bool_decide (format = "") then "json" else ToLower format).
  set (en := if bool_decide (env = "") then "dev" else ToLower env).
  set (src := if bool_decide (add = "") then true else bool_decide (ToLower add = "true")).
  assert (config = mkConfig lv fm src en) as ->.
  { unfold config, lv, fm, en, src.
    destruct (bool_decide (level = "")), (bool_decide (format = "")), (bool_decide (env = "")), (bool_decide (add = "")); done. }
  assert (lv ≠ "" ∧ fm ≠ "") as [Hlv Hfm].
  { unfold lv, fm. split; case_bool_decide; try done; by apply ToLower_nonempty. }
  unfold environment_defaults. cbn [Level Format Environment AddSource].
  rewrite !(bool_decide_eq_false_2 (lv = "")), !(bool_decide_eq_false_2 (fm = "")) by done.
  destruct (decide (en = EnvProduction)) as [E|H1]; [rewrite bool_decide_eq_true_2 by done; rewrite E; by split_and!|].
  rewrite (bool_decide_eq_false_2 (en = EnvProduction)) by done.
  destruct (decide (en = EnvTest)) as [E|H2]; [rewrite bool_decide_eq_true_2 by done; rewrite E; by split_and!|].
  rewrite (bool_decide_eq_false_2 (en = EnvTest)) by done.
  destruct (decide (en = EnvDevelopment)) as [E|H3]; [rewrite bool_decide_eq_true_2 by done; rewrite E; by split_and!|].
  rewrite (bool_decide_eq_false_2 (en = EnvDevelopment)) by done.
  cbn [Level Format Environment AddSource]. rewrite (bool_decide_eq_false_2 (en ∈ _)) by set_solver.
  rewrite (bool_decide_eq_false_2 (en = EnvDevelopment)) by done. by split_and!.
Qed.

(** Remark: a level only the dynamic variable knows gives a fixed logger the
    level of information: asking for traces writes fewer records than asking for
    debug records.  A fixed logger writes exactly the records from its level on. *)
Theorem levels_of_the_loggers (config : Config) (level : Z) (msg : string) (attrs : list LogAttr) w :
  (Log level msg attrs (NewLogger config) w ≠ w ↔ NewLogger_level (Level config) ≤ level)
  ∧ NewLogger_level "trace" = LevelInfo ∧ level_named "trace" = Some LevelTrace
  ∧ NewLogger_level "warning" = LevelInfo ∧ level_named "warning" = Some LevelWarn
  ∧ NewLogger_level "fatal" = LevelInfo ∧ level_named "fatal" = Some LevelFatal
  ∧ (handler (NewLogger config) = TextHandler ↔ Format config = "text" ∨ Environment config = "dev").
Proof.
  split_and!; try reflexivity.
  - unfold Log, Enabled, minimum. cbn [threshold NewLogger].
    destruct (Z.leb_spec (NewLogger_level (Level config)) level) as [Hle|Hgt].
    + split; [done|]. intros _ E. apply (f_equal (λ w, length (records w))) in E. cbn in E.
      rewrite length_app in E. cbn in E. lia.
    + split; [done|lia].
  - unfold handler, NewLogger, handler_of. do 2 case_bool_decide; naive_solver.
Qed.

(** Remark: a logger with a dynamic level starts at information whatever the
    configuration says; setting its variable by name governs all its records, and
    those of the loggers derived from it, from then on. *)
Theorem dynamic_level_governs (config : Config) (name : string) (z level : Z) (msg : string)
    (attrs extra : list LogAttr) w (Hz : level_named name = Some z) :
  let '(w1, (l, v)) := NewLoggerWithDynamicLevel config w in
  let '(w2, ok) := SetFromString v name w1 in
  ok = true
  ∧ (Enabled w1 l level = true ↔ LevelInfo ≤ level)
  ∧ (Enabled w2 l level = true ↔ z ≤ level)
  ∧ records (Log level msg attrs (With extra l) w2) =
      records w ++ (if z <=? level then [mkRecord level msg (extra ++ attrs) (AddSource config)] else []).
Proof.
  unfold NewLoggerWithDynamicLevel, NewDynamicLevelVar, SetFromString. rewrite Hz.
  unfold Log, Enabled, minimum, With. cbn. rewrite !lookup_insert_eq. cbn.
  split_and!; [done|apply Z.leb_le|apply Z.leb_le|]. destruct (z <=? level); cbn; [done|by rewrite app_nil_r].
Qed.

(** Remark: an operation runs once and its error is returned as it is, between a
    record of its start and one of its end that says which it was; each of the
    two is written only from the logger's level on. *)
Theorem LogOperation_outcome caller (start duration : Z) (op component : string)
    (fn : World → World * option error) l w :
  let opLogger := WithComponent component (WithOperation op l) in
  let w0 := Log LevelInfo "operation started" [("start_time", LTime start)] opLogger w in
  ∃ w', LogOperation caller start duration op component fn l w = Done (w', (fn w0).2)
    ∧ ∃ attrs, records w' = records (fn w0).1
        ++ (let level := match (fn w0).2 with Some _ => LevelError | None => LevelInfo end in
            if Enabled (fn w0).1 l level
            then [mkRecord level (match (fn w0).2 with Some _ => "operation failed" | None => "operation completed" end)
                    (context_attrs opLogger ++ attrs) (source l)]
            else [])
      ∧ ("success", LBool (match (fn w0).2 with Some _ => false | None => true end)) ∈ attrs.
Proof.
  cbv zeta. unfold LogOperation. set (opLogger := WithComponent component (WithOperation op l)).
  set (w0 := Log _ _ _ _ w). destruct (fn w0) as [w1 [e|]]; cbn [fst snd].
  - assert (∃ error_attrs, LogError caller (Some e) "operation failed"
      [("duration", LDuration duration); ("success", LBool false)] opLogger w1 =
      Done (Log LevelError "operation failed" (error_attrs ++ [("duration", LDuration duration); ("success", LBool false)]) opLogger w1))
      as [ea Hea].
    { unfold LogError. destruct e; cbn [obind]; eexists (_ :: match caller with Some c => [("caller", LGroup c)] | None => [] end);
        cbn [app]; reflexivity. }
    rewrite Hea. cbn [obind]. eexists. split; [reflexivity|].
    exists (ea ++ [("duration", LDuration duration); ("success", LBool false)]). split; [|set_solver].
    unfold Log. change (Enabled w1 opLogger LevelError) with (Enabled w1 l LevelError).
    destruct (Enabled w1 l LevelError); [done|]. cbn. by rewrite app_nil_r.
  - eexists. split; [reflexivity|]. exists [("duration", LDuration duration); ("success", LBool true)].
    split; [|set_solver]. unfold Log. change (Enabled w1 opLogger LevelInfo) with (Enabled w1 l LevelInfo).
    destruct (Enabled w1 l LevelInfo); [done|]. cbn. by rewrite app_nil_r.
Qed.

(** Remark: the default logger comes into being with the default configuration at
    its first use and is then the one last set; a fatal record ends the program
    with code 1 also when the logger does not write it, and is written under the
    standard name of its level, not under its own. *)
Theorem default_logger (config : Config) (msg : string) (attrs : list LogAttr) w :
  (Default (Default w).1).2 = (Default w).2
  ∧ (defaultLogger w = None → (Default w).2 = NewLogger DefaultConfig)
  ∧ (Default (Init config w)).2 = NewLogger config
  ∧ exited (Fatal msg attrs w) = Some 1
  ∧ slog_Level_String LevelFatal = "ERROR+4" ∧ CustomLevel_String LevelFatal = "FATAL"
  ∧ slog_Level_String LevelTrace = "DEBUG-4" ∧ CustomLevel_String LevelTrace = "TRACE".
Proof.
  split_and!; try reflexivity; unfold Default; destruct (defaultLogger w) eqn:E; cbn; rewrite ?E; done.
Qed.

Lemma dynamic_level_governs_witness :
  let w := mkWorld None ∅ 0 [] None in
  let '(w1, (l, v)) := NewLoggerWithDynamicLevel (mkConfig "debug" "json" true "prod") w in
  let '(w2, ok) := SetFromString v "WARNING" w1 in
  ok = true ∧ (Enabled w2 l LevelInfo = true ↔ LevelWarn ≤ LevelInfo).
Proof.
  pose proof (dynamic_level_governs (mkConfig "debug" "json" true "prod") "WARNING" LevelWarn LevelInfo "m" [] []
    (mkWorld None ∅ 0 [] None) eq_refl) as H.
  exact (conj (proj1 H) (proj1 (proj2 (proj2 H)))).
Defined.
