(* ===== verification/MachineExport.v ===== *)
(** * What a state machine shows of itself (src/synckit/statemachine: machine.go
    ExportDOT, types.go AtomicState, persistence.go JSONStatePersistence;
    src/synckit/sync_state.go StateAwareSyncResult)

    The graph in DOT format, the atomic cell that holds the state, the persistence
    that does not persist yet, and the part of the history a synchronisation is
    responsible for. *)
From S2P Require Import Prelude Types Json Errors StateMachine SyncState.
From S2P Require Manager.
From stdpp Require Import options.

(** ** ExportDOT *)

(** The order of [for range] over maps whose keys are states. *)
Class StateRange (T : Type) `{Countable T} := {
  range_rules : gmap T (list T) → list (T * list T);
  range_rules_perm : ∀ r, range_rules r ≡ₚ map_to_list r;
  range_states : gset T → list T;
  range_states_perm : ∀ s, range_states s ≡ₚ elements s
}.

Definition dq : string := String (ch 34) "".
Definition nl : string := String (ch 10) "".
Definition tab : string := String (ch 9) "".
Definition quoted (s : string) : string := dq +:+ s +:+ dq.
Definition concat_all (l : list string) : string := foldr String.append "" l.

Section dot.
Context {T : Type} `{EqDecision0 : EqDecision T} `{!Countable T} {SK : StateKind T} {SR : StateRange T}.
Implicit Type m : machine T.

Definition rules_of m : gmap T (list T) := default ∅ (Rules (config m)).
Definition statesMap m : gset T :=
  {[InitialState (config m); Current m]} ∪
  list_to_set ((range_rules (rules_of m)) ≫= λ ft, ft.1 :: ft.2).
Definition node_colors m (s : T) : string * string :=
  if decide (s = Current m) then ("red", "lightcoral")
  else if decide (s = InitialState (config m)) then ("green", "lightgreen")
  else ("black", "lightblue").
Definition node_line m (s : T) : string :=
  let stateStr := show_state s in
  let '(color, fillColor) := node_colors m s in
  tab +:+ quoted stateStr +:+ " [color=" +:+ color +:+ ", fillcolor=" +:+ fillColor +:+ ", label="
  +:+ quoted stateStr +:+ "];" +:+ nl.
Definition edge_pairs m : list (T * T) :=
  (range_rules (rules_of m)) ≫= λ ft, (λ to, (ft.1, to)) <$> ft.2.
Definition edge_line (ft : T * T) : string :=
  tab +:+ quoted (show_state ft.1) +:+ " -> " +:+ quoted (show_state ft.2) +:+ ";" +:+ nl.
Definition dot_header m : string :=
  let graphName := if bool_decide (Name (config m) = "") then "StateMachine" else Name (config m) in
  "digraph " +:+ quoted graphName +:+ " {" +:+ nl +:+ tab +:+ "rankdir=LR;" +:+ nl
  +:+ tab +:+ "node [shape=circle, style=filled];" +:+ nl +:+ nl.
Definition legend_line (label color fillColor : string) : string :=
  tab +:+ tab +:+ quoted label +:+ " [color=" +:+ color +:+ ", fillcolor=" +:+ fillColor +:+ ", shape=circle];" +:+ nl.
Definition dot_legend : string :=
  nl +:+ tab +:+ "// Legend" +:+ nl +:+ tab +:+ "subgraph cluster_legend {" +:+ nl
  +:+ tab +:+ tab +:+ "label=" +:+ quoted "Legend" +:+ ";" +:+ nl +:+ tab +:+ tab +:+ "style=filled;" +:+ nl
  +:+ tab +:+ tab +:+ "color=lightgrey;" +:+ nl
  +:+ legend_line "Current State" "red" "lightcoral" +:+ legend_line "Initial State" "green" "lightgreen"
  +:+ legend_line "Other States" "black" "lightblue" +:+ tab +:+ "}" +:+ nl.
Definition ExportDOT m : string :=
  dot_header m +:+ concat_all (node_line m <$> range_states (statesMap m)) +:+ nl
  +:+ concat_all (edge_line <$> edge_pairs m) +:+ dot_legend +:+ "}".

Lemma range_rules_lookup m from tos : (from, tos) ∈ range_rules (rules_of m) ↔ rules_of m !! from = Some tos.
Proof. by rewrite range_rules_perm, elem_of_map_to_list. Qed.
Lemma Contains_edge m from to :
  Contains (Rules (config m)) from to = true ↔ ∃ tos, rules_of m !! from = Some tos ∧ to ∈ tos.
Proof.
  unfold Contains, rules_of. destruct (Rules (config m)) as [r|]; cbn.
  - destruct (r !! from) as [tos|]; cbn; [rewrite bool_decide_eq_true|]; naive_solver.
  - split; [done|]. intros (tos & H & _). by rewrite lookup_empty in H.
Qed.

(** Remark: the arrows drawn are exactly the transitions the rules allow; every
    state the machine starts in, is in or has a rule about gets one node and no
    other state does; the current state, and it alone, is drawn as current. *)
Theorem ExportDOT_draws_the_rules m :
  (∀ from to, (from, to) ∈ edge_pairs m ↔ Contains (Rules (config m)) from to = true)
  ∧ NoDup (range_states (statesMap m))
  ∧ (∀ s, s ∈ range_states (statesMap m) ↔
       s = InitialState (config m) ∨ s = Current m
       ∨ (∃ tos, rules_of m !! s = Some tos) ∨ ∃ from, Contains (Rules (config m)) from s = true)
  ∧ ∀ s, node_colors m s = ("red", "lightcoral") ↔ s = Current m.
Proof.
  split_and!.
  - intros from to. rewrite Contains_edge. unfold edge_pairs. rewrite list_elem_of_bind. split.
    + intros ([f tos] & Hin & Hr%range_rules_lookup). apply list_elem_of_fmap in Hin as (to' & [= -> ->] & Hto). by exists tos.
    + intros (tos & Hr & Hto). exists (from, tos). split; [|by apply range_rules_lookup].
      by apply (list_elem_of_fmap_2 (λ to, (from, to))).
  - rewrite range_states_perm. apply NoDup_elements.
  - intros s. rewrite range_states_perm, elem_of_elements. unfold statesMap.
    rewrite elem_of_union, elem_of_union, !elem_of_singleton, elem_of_list_to_set, list_elem_of_bind.
    split.
    + intros [[->| ->]|([f tos] & Hin & Hr%range_rules_lookup)]; [by left|by right; left|]. right. right.
      apply elem_of_cons in Hin as [->|Hin]; [left; by exists tos|]. right. exists f. apply Contains_edge. by exists tos.
    + intros [->|[->|[[tos Hr]|[from (tos & Hr & Hto)%Contains_edge]]]]; [by left; left|by left; right|..]; right.
      * exists (s, tos). split; [left|by apply range_rules_lookup].
      * exists (from, tos). split; [by right|by apply range_rules_lookup].
  - intros s. unfold node_colors. destruct (decide (s = Current m)); [done|].
    destruct (decide (s = InitialState (config m))); split; intros; simplify_eq.
Qed.
End dot.

(** Remark: maps are ranged over in any order: two exports of a machine have the
    same nodes and the same arrows, each as often, but not the same text. *)
Theorem ExportDOT_order {T} `{EqDecision0 : EqDecision T} `{!Countable T} {SK : StateKind T}
    (SR1 SR2 : StateRange T) (m : machine T) :
  edge_line <$> edge_pairs (SR := SR1) m ≡ₚ edge_line <$> edge_pairs (SR := SR2) m
  ∧ node_line m <$> range_states (StateRange := SR1) (statesMap (SR := SR1) m)
    ≡ₚ node_line m <$> range_states (StateRange := SR2) (statesMap (SR := SR2) m).
Proof.
  assert (range_rules (StateRange := SR1) (rules_of m) ≡ₚ range_rules (StateRange := SR2) (rules_of m)) as Hr
    by (by rewrite (range_rules_perm (StateRange := SR1)), (range_rules_perm (StateRange := SR2))).
  split.
  - apply fmap_Permutation. unfold edge_pairs. by apply bind_Permutation.
  - apply fmap_Permutation.
    rewrite (range_states_perm (StateRange := SR1)), (range_states_perm (StateRange := SR2)).
    assert (statesMap (SR := SR1) m = statesMap (SR := SR2) m) as ->; [|done].
    unfold statesMap. f_equal. apply leibniz_equiv, list_to_set_perm, bind_Permutation, Hr.
Qed.

(** ** AtomicState *)
Section atomic.
Context {T : Type} `{EqDecision0 : EqDecision T}.
Record AtomicState := mkAtomic { value : T }.
Definition NewAtomicState (initial : T) : AtomicState := mkAtomic initial.
Definition Load (a : AtomicState) : T := value a.
Definition Store (s : T) (a : AtomicState) : AtomicState := mkAtomic s.
Definition CompareAndSwap (old new : T) (a : AtomicState) : AtomicState * bool :=
  if decide (value a = old) then (mkAtomic new, true) else (a, false).
(** Callers that all swap from one state, in the order their swaps happen. *)
Fixpoint swap_all (old : T) (news : list T) (a : AtomicState) : AtomicState * list bool :=
  match news with
  | [] => (a, [])
  | new :: news =>
      let '(a, ok) := CompareAndSwap old new a in
      let '(a, oks) := swap_all old news a in (a, ok :: oks)
  end.

(** Remark: of callers that all leave the same state by a swap, the first
    succeeds and the others are told that they came too late; the machine loads
    and stores instead, which [StateMachine.concurrent_transitions_both_succeed]
    shows not to do that. *)
Theorem one_swap_succeeds (old : T) (new : T) (news : list T) (Hnew : old ∉ new :: news) :
  swap_all old (new :: news) (NewAtomicState old) = (mkAtomic new, true :: ((λ _, false) <$> news)).
Proof.
  cbn. unfold CompareAndSwap. cbn. rewrite decide_True by done.
  assert (∀ a, value a ≠ old → swap_all old news a = (a, (λ _, false) <$> news)) as H.
  { induction news as [|n news IH]; intros a Ha; [done|]. cbn. unfold CompareAndSwap.
    rewrite decide_False by done. rewrite IH; [done|set_solver|done]. }
  rewrite H; [done|]. cbn. set_solver.
Qed.
End atomic.

(** ** JSONStatePersistence *)
Section json.
Context {T : Type} `{EqDecision0 : EqDecision T} `{!Countable T} {SK : StateKind T}.
Record JSONStatePersistence := mkJSON { basePath : string }.
(** [marshal] is the error of [json.MarshalIndent], if any; the text is dropped. *)
Definition JSON_SaveState (marshal : StateMachineSnapshot T → option error) (machineID : string)
    (state : StateMachineSnapshot T) (jp : JSONStatePersistence) : JSONStatePersistence * option error :=
  match marshal state with Some e => (jp, Some e) | None => (jp, None) end.
Definition JSON_LoadState (machineID : string) (jp : JSONStatePersistence) : option (StateMachineSnapshot T) := None.
Definition JSON_DeleteState (machineID : string) (jp : JSONStatePersistence) : JSONStatePersistence * option error :=
  (jp, None).
Definition JSON_ListMachines (jp : JSONStatePersistence) : list string := [].

(** Remark: a machine that enables this persistence starts afresh whatever was
    saved before, although every save that can be encoded reports success. *)
Theorem JSON_persistence_forgets marshal (id : string) (snap : StateMachineSnapshot T) (p : nat) (cfg : PersistenceConfig)
    (jp : JSONStatePersistence) (m : machine T) :
  let '(jp', err) := JSON_SaveState marshal id snap jp in
  err = marshal snap ∧ JSON_ListMachines jp' = []
  ∧ let m' := EnablePersistence (Some p) (JSON_LoadState id jp') id cfg m in
    Current m' = Current m ∧ History m' = History m ∧ persistenceEnabled m' = true.
Proof. unfold JSON_SaveState. by destruct (marshal snap). Qed.
End json.

(** ** The part of the history that belongs to a synchronisation *)
Record StateAwareSyncResult := mkAware {
  aware_result : option Manager.SyncResult; StateTransitions : list (StateTransition SyncState);
  FinalState : SyncState; StateChanges : nat
}.
(** [Timestamp.After(start) || Timestamp.Equal(start)]. *)
Definition NewStateAwareSyncResult (result : option Manager.SyncResult) (stateMachine : machine SyncState)
    : StateAwareSyncResult :=
  let history := History stateMachine in
  let syncTransitions :=
    match result with
    | Some r => filter (λ tr, Manager.StartTime r ≤ Timestamp tr) history
    | None => []
    end in
  mkAware result syncTransitions (Current stateMachine) (length syncTransitions).

(** In a history in order of time the later entries are a tail. *)
Lemma filter_later {T} (start : Z) (l : list (StateTransition T)) :
  StronglySorted (λ a b, Timestamp a ≤ Timestamp b) l →
  ∃ k, filter (λ tr, start ≤ Timestamp tr) l = drop k l
    ∧ Forall (λ tr, Timestamp tr < start) (take k l).
Proof.
  induction l as [|x l IH]; intros Hs; [by exists 0%nat|].
  apply StronglySorted_inv in Hs as [Hs Hx]. rewrite filter_cons. destruct (decide (start ≤ Timestamp x)) as [Hle|Hgt].
  - exists 0%nat. split; [|constructor]. rewrite drop_0. f_equal. apply filter_all.
    intros y Hy. rewrite Forall_forall in Hx. specialize (Hx y Hy). lia.
  - destruct (IH Hs) as (k & -> & Hk). exists (S k). split; [done|]. cbn. constructor; [lia|done].
Qed.
Lemma chain_drop {T} (s t : T) k (l : list (StateTransition T)) :
  chain s l t → ∃ s', chain s' (drop k l) t.
Proof.
  revert s l. induction k as [|k IH]; intros s l Hc; [by exists s|].
  destruct l as [|x l]; [by exists s|]. cbn in *. destruct Hc as [_ Hc]. by apply (IH (To x)).
Qed.

(** Remark: over a history in order of time, what the result lists is the unbroken
    end of the history from the start of the synchronisation on, and it leads to
    the final state it names; an older transition is never listed. *)
Theorem aware_result_explains (now : Z) (m : machine SyncState) (r : Manager.SyncResult)
    (Hrun : rtc sm_step (new_sync_machine now) m)
    (Htime : StronglySorted (λ a b, Timestamp a ≤ Timestamp b) (History m)) :
  let aware := NewStateAwareSyncResult (Some r) m in
  StateTransitions aware `suffix_of` History m
  ∧ (∃ s, chain s (StateTransitions aware) (FinalState aware))
  ∧ Forall (λ tr, Manager.StartTime r ≤ Timestamp tr) (StateTransitions aware)
  ∧ StateChanges aware = length (StateTransitions aware).
Proof.
  cbn zeta. assert (explained sync_config m) as (_ & _ & _ & _ & full & Hch & _ & Hh).
  { assert (explained sync_config (new_sync_machine now)) as H0 by (by apply (explained_New now)).
    induction Hrun as [|m0 m1 m2 Hstep _ IH]; [done|]. apply IH; [done|]. by eapply explained_step. }
  cbn [StateTransitions FinalState StateChanges NewStateAwareSyncResult].
  destruct (filter_later (Manager.StartTime r) (History m) Htime) as (k & Hk & _).
  split_and!.
  - rewrite Hk. by exists (take k (History m)); rewrite take_drop.
  - rewrite Hk. unfold History. rewrite Hh. unfold keep. rewrite drop_drop. by eapply chain_drop.
  - apply Forall_forall. intros tr Htr. by apply list_elem_of_filter in Htr as [? _].
  - done.
Qed.
