(* ===== verification/ProjectionPool.v ===== *)
(** * The worker pool for projections (src/synckit/manager.go,
    runProjectionsAfterSync)

    One synchronisation starts a goroutine per runner; a channel of [MaxWorkers]
    slots, shared with runners of earlier synchronisations that have not returned
    yet, limits how many run; two buffered channels bring the answers back to the
    loop that waits for them until the deadline.  Goroutines, loop, deadline and
    the old runners move in any order: a step relation.  The state keeps how every
    [ApplySince] ended, and the last theorem compares what
    [Manager.runProjectionsAfterSync] reports, given the messages the loop took,
    with these outcomes. *)
From S2P Require Import Prelude Types Json Errors Interfaces StateMachine Manager.
From stdpp Require Import options.

(** Where a runner's goroutine is: before its select; in [ApplySince] with a
    slot; after its send, the deferred release still to come; at its end.  It
    keeps how [ApplySince] ended, or that it was never called. *)
Inductive ending := Completed | Failed (e : error) | NoSlot.
Inductive phase := Waiting | Running | Sent (o : ending) | Finished (o : ending).
(** An error in the channel: its runner, and the runner's error or, for [None],
    the message that no slot came free. *)
Record failure := mkFailure { runnerIndex : nat; cause : option error }.

(** [old] is the number of slots that runners of earlier synchronisations hold,
    [oldWaiting] the number of their goroutines still at the select (their
    context has ended, but a slot may be chosen as well), [received] what the
    loop has taken, in order, [returned] whether it has ended. *)
Record pool := mkPool {
  capacity : nat; old : nat; oldWaiting : nat; procs : list phase;
  errorChan : list failure; completedChan : nat; expired : bool;
  received : list ProjMsg; returned : bool
}.

(** What the loop knows. *)
Definition answer (m : ProjMsg) : bool := match m with ProjAnswer _ _ _ => true | ProjTimedOut => false end.
Definition completedCount (s : pool) : nat := length (filter answer (received s)).
Definition totalRunners (s : pool) : nat := length (procs s).
Definition failure_msg (f : failure) : ProjMsg :=
  match cause f with
  | Some e => ProjAnswer (runnerIndex f) true (Some e)
  | None => ProjAnswer (runnerIndex f) false None
  end.

Definition holds (p : phase) : nat := match p with Running | Sent _ => 1 | _ => 0 end.
Definition total_of (f : phase → nat) (ps : list phase) : nat := sum_list_with f ps.
(** The slots taken. *)
Definition slots (s : pool) : nat := (old s + total_of holds (procs s))%nat.

Definition set_proc (i : nat) (p : phase) (s : pool) : pool :=
  mkPool (capacity s) (old s) (oldWaiting s) (<[i := p]> (procs s)) (errorChan s) (completedChan s) (expired s)
    (received s) (returned s).
Definition set_errors (l : list failure) (s : pool) : pool :=
  mkPool (capacity s) (old s) (oldWaiting s) (procs s) l (completedChan s) (expired s) (received s) (returned s).
Definition set_completed (n : nat) (s : pool) : pool :=
  mkPool (capacity s) (old s) (oldWaiting s) (procs s) (errorChan s) n (expired s) (received s) (returned s).
Definition set_old (n m : nat) (s : pool) : pool :=
  mkPool (capacity s) n m (procs s) (errorChan s) (completedChan s) (expired s) (received s) (returned s).
Definition expire (s : pool) : pool :=
  mkPool (capacity s) (old s) (oldWaiting s) (procs s) (errorChan s) (completedChan s) true (received s) (returned s).
Definition receive (m : ProjMsg) (s : pool) : pool :=
  mkPool (capacity s) (old s) (oldWaiting s) (procs s) (errorChan s) (completedChan s) (expired s) (received s ++ [m]) (returned s).
(** The loop ends; the deferred [cancel] ends the context. *)
Definition return_ (s : pool) : pool :=
  mkPool (capacity s) (old s) (oldWaiting s) (procs s) (errorChan s) (completedChan s) true (received s) true.

(** Both channels have room for every runner. *)
Inductive step : pool → pool → Prop :=
  | st_acquire i s : procs s !! i = Some Waiting → (slots s < capacity s)%nat → step s (set_proc i Running s)
  | st_give_up i s : procs s !! i = Some Waiting → expired s = true →
      (length (errorChan s) < totalRunners s)%nat →
      step s (set_proc i (Finished NoSlot) (set_errors (errorChan s ++ [mkFailure i None]) s))
  | st_fail i e s : procs s !! i = Some Running → (length (errorChan s) < totalRunners s)%nat →
      step s (set_proc i (Sent (Failed e)) (set_errors (errorChan s ++ [mkFailure i (Some e)]) s))
  | st_complete i s : procs s !! i = Some Running → (completedChan s < totalRunners s)%nat →
      step s (set_proc i (Sent Completed) (set_completed (S (completedChan s)) s))
  | st_release i o s : procs s !! i = Some (Sent o) → step s (set_proc i (Finished o) s)
  | st_old_acquire n s : oldWaiting s = S n → (slots s < capacity s)%nat → step s (set_old (S (old s)) n s)
  | st_old_give_up n s : oldWaiting s = S n → step s (set_old (old s) n s)
  | st_old_release n s : old s = S n → step s (set_old n (oldWaiting s) s)
  | st_deadline s : expired s = false → step s (expire s)
  | st_recv_completed n s : returned s = false → (completedCount s < totalRunners s)%nat →
      completedChan s = S n →
      step s (receive (ProjAnswer 0 true None) (set_completed n s))
  | st_recv_error f l s : returned s = false → (completedCount s < totalRunners s)%nat →
      errorChan s = f :: l → step s (receive (failure_msg f) (set_errors l s))
  | st_recv_done s : returned s = false → (completedCount s < totalRunners s)%nat →
      expired s = true → step s (return_ (receive ProjTimedOut s))
  | st_all_received s : returned s = false → completedCount s = totalRunners s → step s (return_ s).

(** Before the loop: every runner at its select. *)
Definition start (cap old_ waiting n : nat) : pool := mkPool cap old_ waiting (replicate n Waiting) [] 0 false [] false.

(** ** Counting over the goroutines *)
Lemma total_of_insert f i p q ps : ps !! i = Some p →
  (total_of f (<[i := q]> ps) + f p = total_of f ps + f q)%nat.
Proof.
  unfold total_of. revert i. induction ps as [|x ps IH]; intros [|i] Hi; [done|done| |].
  - injection Hi as ->. cbn. lia.
  - specialize (IH i Hi).
    change (f x + sum_list_with f (<[i := q]> ps) + f p = f x + sum_list_with f ps + f q)%nat. lia.
Qed.
Lemma total_replicate f n p : total_of f (replicate n p) = (n * f p)%nat.
Proof. unfold total_of. induction n as [|n IH]; [done|]. cbn. rewrite IH. lia. Qed.
Lemma total_lookup f i p ps : ps !! i = Some p → (f p ≤ total_of f ps)%nat.
Proof.
  unfold total_of. revert i. induction ps as [|x ps IH]; intros [|i] Hi; cbn in *; [done|done| |].
  - injection Hi as ->. lia.
  - specialize (IH i Hi). lia.
Qed.
Definition sent (p : phase) : nat := match p with Sent _ | Finished _ => 1 | _ => 0 end.
Lemma total_sent_le ps : (total_of sent ps ≤ length ps)%nat.
Proof. unfold total_of. induction ps as [|p ps IH]; cbn; [lia|]. destruct p; cbn; lia. Qed.
Lemma some_unsent ps : (total_of sent ps < length ps)%nat →
  ∃ i p, ps !! i = Some p ∧ (p = Waiting ∨ p = Running).
Proof.
  unfold total_of. induction ps as [|p ps IH]; cbn; [lia|]. intros Hlt.
  destruct p; [by exists 0%nat, Waiting; auto|by exists 0%nat, Running; auto|..];
    cbn in Hlt; (destruct IH as (i & q & Hi & Hq); [lia|]); by exists (S i), q.
Qed.

Definition succeeded (p : phase) : nat := match p with Sent Completed | Finished Completed => 1 | _ => 0 end.
Lemma all_sent ps : total_of sent ps = length ps →
  ∀ i p, ps !! i = Some p → ∃ o, p = Sent o ∨ p = Finished o.
Proof.
  induction ps as [|x ps IH]; intros Heq [|i] p Hi; [done|done| |]; pose proof (total_sent_le ps); unfold total_of in *;
    cbn in Heq.
  - injection Hi as ->. destruct p; cbn in Heq; [lia|lia|eauto..].
  - apply (IH) with (i := i); [|done]. destruct x; cbn in Heq; lia.
Qed.

(** ** The invariant *)
Definition is_success (m : ProjMsg) : nat := match m with ProjAnswer _ true None => 1 | _ => 0 end.
Definition successes (ms : list ProjMsg) : nat := sum_list_with is_success ms.
Abbreviation answers ms := (Forall (λ m, answer m = true) ms).
(** What the loop has taken: answers of fewer than [n] runners before a timeout,
    or of all, or, still going, of some. *)
Definition messages_ok (n : nat) (ret : bool) (ms : list ProjMsg) : Prop :=
  (answers ms ∧ (ret = true → length ms = n))
  ∨ (ret = true ∧ ∃ l, ms = l ++ [ProjTimedOut] ∧ answers l ∧ (length l < n)%nat).

Record pool_inv (cap n : nat) (s : pool) : Prop := {
  inv_cap : capacity s = cap;
  inv_n : length (procs s) = n;
  inv_slots : (slots s ≤ cap)%nat;
  inv_sends : (length (errorChan s) + completedChan s + completedCount s = total_of sent (procs s))%nat;
  inv_successes : (completedChan s + successes (received s) = total_of succeeded (procs s))%nat;
  inv_messages : messages_ok n (returned s) (received s)
}.

Lemma filter_answers ms : answers ms → filter answer ms = ms.
Proof.
  intros Hall. apply filter_all. intros m Hm. rewrite Forall_forall in Hall. by rewrite (Hall m Hm).
Qed.
Lemma completedCount_receive m s :
  completedCount (receive m s) = (completedCount s + if answer m then 1 else 0)%nat.
Proof.
  unfold completedCount. cbn [receive received]. rewrite filter_app, length_app. f_equal.
  rewrite filter_cons. destruct m; done.
Qed.
Lemma successes_app ms m : successes (ms ++ [m]) = (successes ms + is_success m)%nat.
Proof. unfold successes. rewrite sum_list_with_app. cbn. lia. Qed.
Lemma failure_answer f : answer (failure_msg f) = true.
Proof. unfold failure_msg. by destruct (cause f). Qed.
Lemma failure_no_success f : is_success (failure_msg f) = 0%nat.
Proof. unfold failure_msg. by destruct (cause f). Qed.
Lemma messages_open n ms m : messages_ok n false ms → answer m = true → messages_ok n false (ms ++ [m]).
Proof.
  intros [[Ha _]|[? _]] Hm; [|done]. left. split; [|done]. apply Forall_app. split; [done|].
  by apply Forall_singleton.
Qed.
Lemma open_answers n ms : messages_ok n false ms → answers ms.
Proof. by intros [[Ha _]|[? _]]. Qed.

Lemma pool_inv_start cap old_ waiting n : (old_ ≤ cap)%nat → pool_inv cap n (start cap old_ waiting n).
Proof.
  intros Hold. split; cbn; try done.
  - by rewrite length_replicate.
  - unfold slots. cbn. rewrite total_replicate. cbn. lia.
  - rewrite total_replicate. cbn. lia.
  - rewrite total_replicate. cbn. lia.
  - by left.
Qed.

(** A goroutine's step keeps the sums. *)
#[local] Arguments total_of : simpl never.
#[local] Arguments successes : simpl never.
Ltac count_proc i p q Hi :=
  pose proof (total_of_insert holds i p q _ Hi); pose proof (total_of_insert sent i p q _ Hi);
  pose proof (total_of_insert succeeded i p q _ Hi); cbn in *.
Ltac pool_sums :=
  split; cbn in *; try done; unfold slots, completedCount in *; cbn in *;
  rewrite ?length_insert, ?length_app; cbn; try lia.

Lemma pool_inv_procs cap n s s' : pool_inv cap n s → step s s' → received s' = received s →
  returned s' = returned s → pool_inv cap n s'.
Proof.
  intros [Hc Hn Hs Hsum Hok Hm] Hst Hrec Hret.
  destruct Hst as [i s Hi Hlt|i s Hi He Hr|i e s Hi Hr|i s Hi Hr|i o s Hi|k s Hold Hlt|k s Hold|k s Hold|s He
    |k s Hr Hlt Hk|f l s Hr Hlt Hl|s Hr Hlt He|s Hr Hall].
  - count_proc i Waiting Running Hi. pool_sums.
  - count_proc i Waiting (Finished NoSlot) Hi. pool_sums.
  - count_proc i Running (Sent (Failed e)) Hi. pool_sums.
  - count_proc i Running (Sent Completed) Hi. pool_sums.
  - count_proc i (Sent o) (Finished o) Hi. destruct o; pool_sums.
  - pool_sums.
  - pool_sums.
  - pool_sums.
  - pool_sums.
  - cbn in Hrec. apply (f_equal length) in Hrec. rewrite length_app in Hrec. cbn in Hrec. lia.
  - cbn in Hrec. apply (f_equal length) in Hrec. rewrite length_app in Hrec. cbn in Hrec. lia.
  - cbn in Hrec. apply (f_equal length) in Hrec. rewrite length_app in Hrec. cbn in Hrec. lia.
  - cbn in Hret. congruence.
Qed.
(** A message keeps them too: it has left its channel. *)
Lemma pool_inv_message cap n s m e c : pool_inv cap n s → returned s = false → answer m = true →
  (S (e + c) = length (errorChan s) + completedChan s)%nat →
  (c + is_success m = completedChan s)%nat →
  ∀ l, length l = e → pool_inv cap n (receive m (set_completed c (set_errors l s))).
Proof.
  intros [Hc Hn Hs Hsum Hok Hm] Hret Ha Hec Hsu l <-.
  split; try done.
  - rewrite completedCount_receive, Ha. unfold completedCount in *. cbn in *. lia.
  - cbn [received receive]. rewrite successes_app. cbn. lia.
  - cbn. rewrite Hret in *. by apply messages_open.
Qed.
Lemma pool_inv_step cap n s s' : pool_inv cap n s → step s s' → pool_inv cap n s'.
Proof.
  intros Hinv Hst. pose proof Hst as Hst'. pose proof Hinv as [Hc Hn Hs Hsum Hok Hm].
  destruct Hst as [i s Hi Hlt|i s Hi He Hr|i e s Hi Hr|i s Hi Hr|i o s Hi|k s Hold Hlt|k s Hold|k s Hold|s He
    |k s Hr Hlt Hk|f l s Hr Hlt Hl|s Hr Hlt He|s Hr Hall]; try (by eapply pool_inv_procs).
  - by apply (pool_inv_message cap n s (ProjAnswer 0 true None) (length (errorChan s)) k Hinv Hr eq_refl)
      with (l := errorChan s); cbn; try lia.
  - by apply (pool_inv_message cap n s (failure_msg f) (length l) (completedChan s) Hinv Hr (failure_answer f))
      with (l := l); rewrite ?Hl, ?failure_no_success; cbn; try lia.
  - split; try done.
    + change (completedCount (return_ (receive ProjTimedOut s))) with (completedCount (receive ProjTimedOut s)).
      rewrite completedCount_receive. unfold completedCount in *. cbn in *. lia.
    + cbn [received receive return_]. rewrite successes_app. cbn. lia.
    + cbn. rewrite Hr in Hm. apply open_answers in Hm. right. split; [done|]. exists (received s). split_and!; [done..|].
      unfold completedCount in Hlt. rewrite filter_answers in Hlt by done. unfold totalRunners in Hlt. lia.
  - split; try done. cbn. rewrite Hr in Hm. apply open_answers in Hm. left. split; [done|]. intros _.
    unfold completedCount in Hall. rewrite filter_answers in Hall by done. unfold totalRunners in Hall. lia.
Qed.
Lemma pool_inv_reachable cap old_ waiting n s : (old_ ≤ cap)%nat →
  rtc step (start cap old_ waiting n) s → pool_inv cap n s.
Proof.
  intros Hold Hr. apply (pool_inv_start _ _ waiting n) in Hold. revert Hold.
  induction Hr as [|x y z Hstep _ IH]; [done|]. intros H. by eapply IH, pool_inv_step.
Qed.

(** ** The pool while a synchronisation uses it *)
Lemma unsent_room cap n s i p : pool_inv cap n s → procs s !! i = Some p → sent p = 0%nat →
  (length (errorChan s) < totalRunners s ∧ completedChan s < totalRunners s)%nat.
Proof.
  intros [_ _ _ Hsum _ _] Hi Hp.
  assert ((total_of sent (procs s) < length (procs s))%nat).
  { pose proof (total_of_insert sent i p (Sent Completed) _ Hi) as Ht. rewrite Hp in Ht. cbn [sent] in Ht.
    pose proof (total_sent_le (<[i := Sent Completed]> (procs s))) as Hle. rewrite length_insert in Hle. lia. }
  unfold totalRunners. lia.
Qed.
Section theorems.
Context {TT : TimeText}.

(** Remark: No more runners hold a slot of the worker pool than it has, those of
    earlier synchronisations included; a runner that has not answered finds room
    in either channel, so its send never blocks, also after the loop has gone. *)
Theorem workers_bounded cap old_ waiting n s :
  (old_ ≤ cap)%nat → rtc step (start cap old_ waiting n) s →
  (slots s ≤ cap)%nat
  ∧ (∀ i, procs s !! i = Some Waiting ∨ procs s !! i = Some Running →
       (length (errorChan s) < totalRunners s ∧ completedChan s < totalRunners s)%nat).
Proof.
  intros Hold Hr. pose proof (pool_inv_reachable _ _ _ _ _ Hold Hr) as Hinv.
  split; [apply Hinv|]. by intros i [Hi|Hi]; eapply unsent_room.
Qed.
Definition weight (p : phase) : nat := match p with Waiting => 3 | Running => 2 | Sent _ => 1 | Finished _ => 0 end.
Definition work (s : pool) : nat :=
  (total_of weight (procs s) + old s + 2 * oldWaiting s + (if expired s then 0 else 1)
   + (if returned s then 0 else S (totalRunners s - completedCount s)))%nat.
Lemma step_works s s' : step s s' → (work s' < work s)%nat.
Proof.
  unfold work, totalRunners. intros Hst.
  destruct Hst as [i s Hi Hlt|i s Hi He Hr|i e s Hi Hr|i s Hi Hr|i o s Hi|k s Hold Hlt|k s Hold|k s Hold|s He
    |k s Hr Hlt Hk|f l s Hr Hlt Hl|s Hr Hlt He|s Hr Hall];
    rewrite ?completedCount_receive, ?failure_answer; unfold totalRunners in *;
    try match goal with Hi : procs _ !! _ = Some ?p |- context [set_proc _ ?q _] =>
      pose proof (total_of_insert weight _ p q _ Hi) end;
    unfold completedCount in *; cbn in *; rewrite ?length_insert; try rewrite Hr; try rewrite He; try lia.
  all: destruct (expired s), (returned s); lia.
Qed.
Lemma steps_work m s s' : nsteps step m s s' → (m + work s' ≤ work s)%nat.
Proof. induction 1 as [|m x y z Hst _ IH]; [lia|]. apply step_works in Hst. lia. Qed.
(** A state in which nothing moves. *)
Lemma stuck_at_end cap n s : pool_inv cap n s → (∀ s', ¬ step s s') →
  returned s = true ∧ oldWaiting s = 0%nat ∧ old s = 0%nat
  ∧ ∀ i p, procs s !! i = Some p → ∃ o, p = Finished o.
Proof.
  intros Hinv Hstuck. pose proof Hinv as [_ Hn _ Hsum _ Hm].
  assert (expired s = true) as He.
  { destruct (expired s) eqn:He; [done|]. by destruct (Hstuck _ (st_deadline s He)). }
  split_and!.
  - destruct (returned s) eqn:Hret; [done|]. pose proof (total_sent_le (procs s)).
    destruct (decide (completedCount s = totalRunners s)) as [Hall|Hne].
    + by destruct (Hstuck _ (st_all_received s Hret Hall)).
    + destruct (Hstuck _ (st_recv_done s Hret ltac:(unfold totalRunners in *; lia) He)).
  - destruct (oldWaiting s) as [|k] eqn:Hw; [done|]. by destruct (Hstuck _ (st_old_give_up k s Hw)).
  - destruct (old s) as [|k] eqn:Ho; [done|]. by destruct (Hstuck _ (st_old_release k s Ho)).
  - intros i [| |o|o] Hi; [| | |by eexists].
    + destruct (unsent_room _ _ _ _ _ Hinv Hi eq_refl) as [Hr _]. by destruct (Hstuck _ (st_give_up i s Hi He Hr)).
    + destruct (unsent_room _ _ _ _ _ Hinv Hi eq_refl) as [_ Hr]. by destruct (Hstuck _ (st_complete i s Hi Hr)).
    + by destruct (Hstuck _ (st_release i o s Hi)).
Qed.

(** C39: The pool ends: however goroutines, loop, deadline and the runners of
    earlier synchronisations interleave, a run has a bounded number of steps;
    one that cannot go on has returned, with every goroutine at its end and
    every slot free; and once the deadline has passed the loop can return
    whatever the runners do. *)
Theorem pool_ends cap old_ waiting n m s :
  (old_ ≤ cap)%nat → nsteps step m (start cap old_ waiting n) s →
  (m ≤ 4 * n + old_ + 2 * waiting + 2)%nat
  ∧ ((∀ s', ¬ step s s') → returned s = true ∧ slots s = 0%nat ∧ oldWaiting s = 0%nat
       ∧ ∀ i, (i < n)%nat → ∃ o, procs s !! i = Some (Finished o))
  ∧ (expired s = true → returned s = false → ∃ s', step s s' ∧ returned s' = true ∧ procs s' = procs s).
Proof.
  intros Hold Hrun. pose proof (steps_work _ _ _ Hrun) as Hw.
  assert (pool_inv cap n s) as Hinv by (eapply pool_inv_reachable; [done|]; by eapply rtc_nsteps_2).
  split; [|split].
  - unfold work in Hw. cbn [start procs old oldWaiting expired returned] in Hw. unfold totalRunners in Hw.
    cbn [start procs] in Hw. rewrite total_replicate, length_replicate in Hw. cbn in Hw. lia.
  - intros Hstuck. destruct (stuck_at_end _ _ _ Hinv Hstuck) as (Hret & Hwait & Ho & Hfin).
    split_and!; [done| |done|].
    + unfold slots. rewrite Ho. clear -Hfin. induction (procs s) as [|p ps IH]; [done|].
      destruct (Hfin 0%nat p eq_refl) as [o ->]. apply IH. intros i q Hq. by apply (Hfin (S i)).
    + intros i Hi. destruct (lookup_lt_is_Some_2 (procs s) i) as [p Hp]; [by rewrite (inv_n _ _ _ Hinv)|].
      destruct (Hfin i p Hp) as [o ->]. by exists o.
  - intros He Hret. pose proof (total_sent_le (procs s)). pose proof (inv_sends _ _ _ Hinv).
    destruct (decide (completedCount s = totalRunners s)) as [Hall|Hne].
    + exists (return_ s). split; [by apply st_all_received|done].
    + eexists. split; [apply st_recv_done; [done|unfold totalRunners in *; lia|done]|done].
Qed.

(** ** What was taken is what happened *)
Definition failure_of (m : ProjMsg) : option failure :=
  match m with
  | ProjAnswer i true (Some e) => Some (mkFailure i (Some e))
  | ProjAnswer i false _ => Some (mkFailure i None)
  | _ => None
  end.
Definition failures (ms : list ProjMsg) : list failure := omap failure_of ms.
(** The runner of a failure ended like that. *)
Definition happened (ps : list phase) (f : failure) : Prop :=
  match cause f with
  | Some e => ps !! runnerIndex f = Some (Sent (Failed e)) ∨ ps !! runnerIndex f = Some (Finished (Failed e))
  | None => ps !! runnerIndex f = Some (Finished NoSlot)
  end.
Definition how (p : phase) : option (option error) :=
  match p with
  | Sent (Failed e) | Finished (Failed e) => Some (Some e)
  | Finished NoSlot => Some None
  | _ => None
  end.
Lemma happened_how ps f : happened ps f ↔ ∃ p, ps !! runnerIndex f = Some p ∧ how p = Some (cause f).
Proof.
  unfold happened. destruct (cause f) as [e|]; split.
  - intros [H|H]; by eexists.
  - intros (p & Hp & Hh). rewrite Hp. destruct p as [| |[]|[]]; try done; cbn in Hh; injection Hh as ->; auto.
  - intros H; by eexists.
  - intros (p & Hp & Hh). rewrite Hp. by destruct p as [| |[]|[]].
Qed.
(** Sent and not taken yet, or taken. *)
Definition told (s : pool) : list failure := errorChan s ++ failures (received s).
Record truthful (s : pool) : Prop := {
  truth_once : NoDup (runnerIndex <$> told s);
  truth_told : ∀ f, f ∈ told s ↔ happened (procs s) f;
  truth_slot : ∀ i, procs s !! i ≠ Some (Sent NoSlot)
}.
Lemma slot_insert (ps : list phase) (i : nat) q : (∀ j : nat, ps !! j ≠ Some (Sent NoSlot)) → q ≠ Sent NoSlot →
  ∀ j : nat, <[i := q]> ps !! j ≠ Some (Sent NoSlot).
Proof. intros H Hq j [(_ & Heq & _)|[_ Hj]]%list_lookup_insert_Some; [done|by apply (H j)]. Qed.
Lemma failures_snoc ms m : failures (ms ++ [m]) = failures ms ++ option_list (failure_of m).
Proof. unfold failures. rewrite omap_app. cbn. by destruct (failure_of m). Qed.
Lemma failure_of_msg f : failure_of (failure_msg f) = Some f.
Proof. by destruct f as [i [e|]]. Qed.
Lemma truthful_perm s s' : truthful s → told s' ≡ₚ told s → procs s' = procs s → truthful s'.
Proof.
  intros [H1 H2 H3] Hp Hps. split; [by rewrite Hp| |by rewrite Hps]. intros f. rewrite Hps, <-H2. by rewrite Hp.
Qed.
Lemma truthful_silent i p q s s' : truthful s → procs s !! i = Some p → how p = how q → q ≠ Sent NoSlot →
  told s' = told s → procs s' = <[i := q]> (procs s) → truthful s'.
Proof.
  intros [H1 H2 H3] Hi Hq Hs Ht Hps. split; [by rewrite Ht| |rewrite Hps; by apply slot_insert]. intros f. rewrite Ht, H2, !happened_how, Hps.
  destruct (decide (runnerIndex f = i)) as [->|Hne]; [|by rewrite list_lookup_insert_ne].
  rewrite list_lookup_insert_eq by (by eapply lookup_lt_Some). rewrite Hi.
  split; intros (r & [= <-] & Hr); eexists; (split; [done|congruence]).
Qed.
Lemma truthful_fails i p q c s s' : truthful s → procs s !! i = Some p → how p = None → how q = Some c → q ≠ Sent NoSlot →
  told s' ≡ₚ mkFailure i c :: told s → procs s' = <[i := q]> (procs s) → truthful s'.
Proof.
  intros [H1 H2 H3] Hi Hp Hq Hs Ht Hps. split; [| |rewrite Hps; by apply slot_insert].
  - rewrite Ht. cbn. apply NoDup_cons. split; [|done]. intros (f & Hf & Hin)%list_elem_of_fmap.
    apply H2, happened_how in Hin as (r & Hr & Hh). rewrite <-Hf in Hr. congruence.
  - intros f. rewrite Ht, elem_of_cons, H2, !happened_how, Hps.
    destruct (decide (runnerIndex f = i)) as [Hf|Hne].
    + rewrite Hf, Hi, list_lookup_insert_eq by (by eapply lookup_lt_Some). split.
      * intros [->|(r & [= <-] & Hr)]; [by eexists|congruence].
      * intros (r & [= <-] & Hr). left. destruct f as [j d]. cbn in *. congruence.
    + rewrite list_lookup_insert_ne by done. split; [|by right]. by intros [->|?].
Qed.
Lemma truthful_step s s' : truthful s → step s s' → truthful s'.
Proof.
  intros Hs Hst.
  destruct Hst as [i s Hi Hlt|i s Hi He Hr|i e s Hi Hr|i s Hi Hr|i o s Hi|k s Hold Hlt|k s Hold|k s Hold|s He
    |k s Hr Hlt Hk|f l s Hr Hlt Hl|s Hr Hlt He|s Hr Hall].
  - by apply (truthful_silent i Waiting Running s).
  - apply (truthful_fails i Waiting (Finished NoSlot) None s); [done|done|done|done|done| |done].
    unfold told. cbn. rewrite <-app_assoc. symmetry. apply Permutation_middle.
  - apply (truthful_fails i Running (Sent (Failed e)) (Some e) s); [done|done|done|done|done| |done].
    unfold told. cbn. rewrite <-app_assoc. symmetry. apply Permutation_middle.
  - by apply (truthful_silent i Running (Sent Completed) s).
  - apply (truthful_silent i (Sent o) (Finished o) s); [done|done| | |done|done].
    + by destruct o as [| |]; [| |destruct (truth_slot _ Hs i)].
    + done.
  - by eapply truthful_perm.
  - by eapply truthful_perm.
  - by eapply truthful_perm.
  - by eapply truthful_perm.
  - eapply truthful_perm; [done| |done]. unfold told. cbn. by rewrite failures_snoc, app_nil_r.
  - eapply truthful_perm; [done| |done]. unfold told. cbn. rewrite failures_snoc, failure_of_msg, Hl. cbn.
    by rewrite app_assoc, <-Permutation_cons_append.
  - eapply truthful_perm; [done| |done]. unfold told. cbn. by rewrite failures_snoc, app_nil_r.
  - by eapply truthful_perm.
Qed.
Lemma truthful_reachable cap old_ waiting n s : rtc step (start cap old_ waiting n) s → truthful s.
Proof.
  intros Hr. assert (truthful (start cap old_ waiting n)) as H.
  { split; [constructor|intros f; rewrite happened_how; cbn [start procs]; split|].
    - by intros ?%elem_of_nil.
    - intros (p & Hp & Hh). by apply lookup_replicate in Hp as [-> _].
    - by intros i [? _]%lookup_replicate. }
  revert H. induction Hr as [|x y z Hst _ IH]; [done|]. intros H. by eapply IH, truthful_step.
Qed.

(** ** What the synchronisation reports *)
Definition failure_error (f : failure) : error :=
  match cause f with
  | Some e => ErrWrap ("projection runner " +:+ format_int (Z.of_nat (runnerIndex f)) +:+ " failed") e
  | None => ErrMsg ("projection runner " +:+ format_int (Z.of_nat (runnerIndex f)) +:+ " timed out waiting for worker slot")
  end.
Lemma goroutine_reports i slot a :
  option_list (projection_goroutine i slot a) = failure_error <$> option_list (failure_of (ProjAnswer i slot a)).
Proof. by destruct slot, a. Qed.
Definition pending_error (timeout : Z) (pending : nat) : error :=
  ErrMsg ("projection execution timed out with " +:+ format_int (Z.of_nat pending)
    +:+ " runners still pending after " +:+ duration_string timeout).
(** The loop over answers, and over answers cut off by the deadline. *)
Lemma wait_answers {St T} timeout env ms : answers ms → ∀ n errs (w : World St T), (length ms ≤ n)%nat →
  (∀ k m, ms !! k = Some m → e_projection env (w_tick w + k)%nat = m) →
  ∃ w', w_tick w' = (w_tick w + length ms)%nat
    ∧ wait_projections timeout n errs env w
      = wait_projections timeout (n - length ms) (errs ++ (failure_error <$> failures ms)) env w'.
Proof.
  induction 1 as [|m ms Hm _ IH]; intros n errs w Hle Henv.
  - exists w. rewrite app_nil_r. cbn. by rewrite Nat.sub_0_r, Nat.add_0_r.
  - destruct n as [|n]; [cbn in Hle; lia|]. pose proof (Henv 0%nat m eq_refl) as H0. rewrite Nat.add_0_r in H0.
    destruct m as [i slot a|]; [|done]. cbn [wait_projections]. rewrite H0.
    destruct (IH n (errs ++ option_list (projection_goroutine i slot a)) (tick w)) as (w' & Ht & Heq).
    + cbn in Hle. lia.
    + intros k m Hk. rewrite <-(Henv (S k) m Hk). cbn. f_equal. lia.
    + exists w'. split; [cbn in *; lia|]. cbn [length]. replace (S n - S (length ms))%nat with (n - length ms)%nat by lia.
      replace (errs ++ (failure_error <$> failures (ProjAnswer i slot a :: ms)))
        with ((errs ++ option_list (projection_goroutine i slot a)) ++ (failure_error <$> failures ms)).
      * rewrite <-Heq. f_equal. destruct (projection_goroutine i slot a); [done|]. by rewrite app_nil_r.
      * rewrite goroutine_reports, <-app_assoc, <-fmap_app. do 2 f_equal. unfold failures. cbn.
        by destruct (match slot with true => _ | false => _ end).
Qed.
Lemma wait_reports {St T} timeout env n ms (w : World St T) : messages_ok n true ms →
  (∀ k m, ms !! k = Some m → e_projection env (w_tick w + k)%nat = m) →
  let k := length (filter answer ms) in
  ∃ w', wait_projections timeout n [] env w
    = Done (w', (failure_error <$> failures ms) ++ (if (k <? n)%nat then [pending_error timeout (n - k)] else [])).
Proof.
  intros Hok Henv. cbn zeta. destruct Hok as [[Ha Hl]|(_ & l & -> & Ha & Hlt)].
  - rewrite filter_answers by done. specialize (Hl eq_refl).
    destruct (wait_answers timeout env ms Ha n [] w ltac:(lia) Henv) as (w' & _ & ->).
    rewrite Hl, Nat.sub_diag, Nat.ltb_irrefl, app_nil_r. by eexists.
  - destruct (wait_answers timeout env l Ha n [] w ltac:(lia)) as (w' & Ht & ->).
    { intros k m Hk. apply Henv. by apply lookup_app_l_Some. }
    assert (length (filter answer (l ++ [ProjTimedOut])) = length l) as ->.
    { rewrite filter_app, filter_answers by done. by rewrite length_app, Nat.add_0_r. }
    destruct (Nat.ltb_spec (length l) n) as [_|]; [|lia].
    assert (e_projection env (w_tick w') = ProjTimedOut) as Hto.
    { rewrite Ht. apply Henv. by apply list_lookup_middle. }
    destruct (n - length l)%nat as [|r] eqn:Hr; [lia|]. cbn [wait_projections]. rewrite Hto.
    rewrite failures_snoc, app_nil_r. by eexists.
Qed.
Lemma answers_split ms : length (filter answer ms) = (length (failures ms) + successes ms)%nat.
Proof.
  induction ms as [|m ms IH]; [done|]. unfold failures, successes in *. rewrite filter_cons.
  destruct m as [i [] [e|]|]; cbn in *; case_decide; cbn; done || lia.
Qed.
Lemma failure_error_text f : error_string (failure_error f) =
  "projection runner " +:+ format_int (Z.of_nat (runnerIndex f)) +:+
  match cause f with Some e => " failed: " +:+ error_string e | None => " timed out waiting for worker slot" end.
Proof.
  unfold failure_error. destruct (cause f) as [e|]; [|done]. cbn [error_string]. by rewrite !strings_app_assoc.
Qed.

(** C38: What a synchronisation reports of its projections is what happened to
    them, whatever the order in which goroutines, worker pool, deadline and loop
    moved.  Each runner whose [ApplySince] failed, or that got no slot, is
    reported at most once, under its own index, with its own error or the text
    about the slot, and nothing else is reported of runners.  If the loop has
    taken the answers of all runners, all these failures are reported and nothing
    more, and the result is nil exactly when every [ApplySince] succeeded;
    otherwise the deadline ended it and the last text counts the runners whose
    answers it had not taken. *)
Theorem projection_reports {St T} cap old_ waiting n s cfg env (w : World St T)
    (Hold : (old_ ≤ cap)%nat) (Hr : rtc step (start cap old_ waiting n) s) (Hret : returned s = true)
    (Hcfg : projectionConfig (w_mgr w) = Some cfg) (Hon : RunOnSync cfg = true)
    (Hn : Runners cfg = n) (Hpos : (0 < n)%nat)
    (Henv : ∀ k m, received s !! k = Some m → e_projection env (w_tick w + k)%nat = m) :
  let text f := "projection runner " +:+ format_int (Z.of_nat (runnerIndex f)) +:+
    match cause f with
    | Some e => " failed: " +:+ error_string e
    | None => " timed out waiting for worker slot"
    end in
  let failed l := Some (ErrMsg ("projection execution failed: " +:+ join "; " l)) in
  ∃ w' fs completed,
    NoDup (runnerIndex <$> fs)
    ∧ (∀ f, f ∈ fs →
         match cause f with
         | Some e => procs s !! runnerIndex f = Some (Sent (Failed e))
                     ∨ procs s !! runnerIndex f = Some (Finished (Failed e))
         | None => procs s !! runnerIndex f = Some (Finished NoSlot)
         end)
    ∧ (length fs + completed)%nat = completedCount s
    ∧ (((length fs + completed)%nat = n
        ∧ completed = total_of succeeded (procs s)
        ∧ (∀ f, happened (procs s) f → f ∈ fs)
        ∧ runProjectionsAfterSync env w
          = Done (w', match fs with [] => None | _ => failed (map text fs) end))
       ∨ ((length fs + completed < n)%nat
        ∧ (completed ≤ total_of succeeded (procs s))%nat
        ∧ runProjectionsAfterSync env w
          = Done (w', failed (map text fs ++ ["projection execution timed out with "
              +:+ format_int (Z.of_nat (n - (length fs + completed))) +:+ " runners still pending after "
              +:+ duration_string (ProjTimeout cfg)])))).
Proof.
  cbv zeta. pose proof (pool_inv_reachable _ _ _ _ _ Hold Hr) as [_ Hlen _ Hsends Hsucc Hm].
  destruct (truthful_reachable _ _ _ _ _ Hr) as [Honce Htold _]. unfold told in Honce, Htold.
  rewrite Hret in Hm. destruct (wait_reports (ProjTimeout cfg) env n (received s) w Hm Henv) as [w' Hw].
  fold (completedCount s) in Hw.
  assert (completedCount s = (length (failures (received s)) + successes (received s))%nat) as Hk by apply answers_split.
  assert (runProjectionsAfterSync env w = Done (w',
    match map error_string ((failure_error <$> failures (received s))
          ++ (if (completedCount s <? n)%nat then [pending_error (ProjTimeout cfg) (n - completedCount s)] else [])) with
    | [] => None
    | l => Some (ErrMsg ("projection execution failed: " +:+ join "; " l))
    end)) as Hrun.
  { unfold runProjectionsAfterSync, get_mgr, mbind, mret. rewrite Hcfg, Hon, Hn.
    destruct n as [|n']; [lia|]. cbn [negb orb Nat.eqb]. rewrite Hw. by destruct ((failure_error <$> failures (received s)) ++ _). }
  assert (∀ fs, map error_string (failure_error <$> fs) = map (λ f, "projection runner "
    +:+ format_int (Z.of_nat (runnerIndex f)) +:+ match cause f with Some e => " failed: " +:+ error_string e
    | None => " timed out waiting for worker slot" end) fs) as Htext.
  { intros fs. induction fs as [|f fs IH]; [done|]. cbn. f_equal; [apply failure_error_text|exact IH]. }
  exists w', (failures (received s)), (successes (received s)). split_and!.
  - rewrite fmap_app in Honce. by apply NoDup_app in Honce as (_ & _ & ?).
  - intros f Hf. apply (proj1 (Htold f)). by apply elem_of_app; right.
  - done.
  - rewrite <-Hk, Hrun, map_app, Htext. pose proof (total_sent_le (procs s)).
    destruct (Nat.ltb_spec (completedCount s) n) as [Hlt|Hge]; [right|left]; split_and!; [done|lia| |lia|lia| |].
    + by destruct (failures (received s)).
    + intros f Hf. apply Htold in Hf. destruct (errorChan s); [done|cbn in *; lia].
    + rewrite app_nil_r. by destruct (failures (received s)).
Qed.
End theorems.

(** ** Runs *)
#[local] Instance plain_text : TimeText := {| rfc3339 := format_int; duration_string := format_int |}.
(** One step of a given kind. *)
Ltac go c := eapply nsteps_l; [apply c; first [reflexivity | vm_compute; lia]|].
Abbreviation refused_msg := (ProjAnswer 1 false None).

(** Two runners, one worker: the first completes, the deadline passes, the
    second gives up, the loop takes both answers and returns. *)
Lemma two_runners :
  nsteps step 8 (start 1 0 0 2)
    (mkPool 1 0 0 [Finished Completed; Finished NoSlot] [] 0 true [ProjAnswer 0 true None; refused_msg] true).
Proof.
  go (st_acquire 0). go (st_complete 0). go (st_recv_completed 0). go st_deadline.
  go (st_give_up 1). go (st_recv_error (mkFailure 1 None) []). go (st_release 0 Completed).
  go st_all_received. apply nsteps_O.
Qed.

(** Three runners, one worker: the first completes, the second fails, the third
    still waits for the slot when the deadline ends the loop. *)
Definition boom : error := ErrMsg "boom".
Definition mixed : pool :=
  mkPool 1 0 0 [Finished Completed; Sent (Failed boom); Waiting] [] 0 true
    [ProjAnswer 0 true None; ProjAnswer 1 true (Some boom); ProjTimedOut] true.
Lemma mixed_run : nsteps step 9 (start 1 0 0 3) mixed.
Proof.
  go (st_acquire 0). go (st_complete 0). go (st_release 0 Completed). go (st_recv_completed 0).
  go (st_acquire 1). go (st_fail 1 boom). go (st_recv_error (mkFailure 1 (Some boom)) []).
  go st_deadline. go st_recv_done. apply nsteps_O.
Qed.

Lemma workers_bounded_witness :
  (slots mixed ≤ 1)%nat
  ∧ (∀ i, procs mixed !! i = Some Waiting ∨ procs mixed !! i = Some Running →
       (length (errorChan mixed) < totalRunners mixed ∧ completedChan mixed < totalRunners mixed)%nat).
Proof. apply (workers_bounded 1 0 0 3); [lia|]. eapply rtc_nsteps_2. exact mixed_run. Defined.

Lemma pool_ends_witness :
  let s := mkPool 1 0 0 [Finished Completed; Finished NoSlot] [] 0 true [ProjAnswer 0 true None; refused_msg] true in
  (8 ≤ 4 * 2 + 0 + 2 * 0 + 2)%nat
  ∧ ((∀ s', ¬ step s s') → returned s = true ∧ slots s = 0%nat ∧ oldWaiting s = 0%nat
       ∧ ∀ i, (i < 2)%nat → ∃ o, procs s !! i = Some (Finished o))
  ∧ (expired s = true → returned s = false → ∃ s', step s s' ∧ returned s' = true ∧ procs s' = procs s).
Proof. cbv zeta. apply (pool_ends 1 0 0 2 8); [lia|exact two_runners]. Defined.

(** A synchronisation that hears [ms]. *)
Definition hearing (ms : list ProjMsg) : Env :=
  mkEnv (λ _, background) Z.of_nat (λ _, "t") (λ k, default ProjTimedOut (ms !! k)).
Definition with_runners (n : nat) : World () () :=
  let m := sample_manager (sample_options false false None None 0) in
  mkWorld () () (mkManager (options m) (stateMachine m) None 0 [] false (Some (mkProjection n true 1 30))) [] 0 [] [].
Lemma projection_reports_witness :
  ∃ w' fs, (∀ f, f ∈ fs → f = mkFailure 1 (Some boom))
    ∧ runProjectionsAfterSync (hearing (received mixed)) (with_runners 3)
      = Done (w', Some (ErrMsg ("projection execution failed: " +:+ join "; "
          (map (λ f, "projection runner " +:+ format_int (Z.of_nat (runnerIndex f)) +:+
             match cause f with
             | Some e => " failed: " +:+ error_string e
             | None => " timed out waiting for worker slot"
             end) fs ++ ["projection execution timed out with 1 runners still pending after 30"])))).
Proof.
  destruct (projection_reports 1 0 0 3 mixed (mkProjection 3 true 1 30) (hearing (received mixed)) (with_runners 3))
    as (w' & fs & completed & Honce & Hfs & Hcount & Hcase);
    [lia|eapply rtc_nsteps_2; exact mixed_run|reflexivity|reflexivity|reflexivity|reflexivity|lia| |].
  { intros k m Hk. unfold hearing. cbn [e_projection w_tick with_runners Nat.add]. by rewrite Hk. }
  change (completedCount mixed) with 2%nat in Hcount. rewrite Hcount in Hcase.
  destruct Hcase as [[H _]|(_ & _ & Hrun)]; [discriminate H|].
  exists w', fs. split; [|exact Hrun]. intros [i c] Hf. specialize (Hfs _ Hf). cbn in Hfs.
  destruct c as [e|], i as [|[|[|[|i]]]]; cbn in Hfs; first [by destruct Hfs as [[=]|[=]]; subst | discriminate Hfs].
Defined.

(** Remark: When the last answer and the deadline are both there, the loop may take
    the deadline: every runner has succeeded and the synchronisation still
    reports a timeout with a runner pending. *)
Example completed_reported_pending :
  ∃ s w', rtc step (start 1 0 0 1) s ∧ returned s = true ∧ procs s = [Finished Completed]
    ∧ runProjectionsAfterSync (hearing (received s)) (with_runners 1) = Done (w',
        Some (ErrMsg "projection execution failed: projection execution timed out with 1 runners still pending after 30")).
Proof.
  eexists _, _. split.
  - eapply (rtc_nsteps_2 5). go (st_acquire 0). go (st_complete 0). go (st_release 0 Completed). go st_deadline.
    go st_recv_done. apply nsteps_O.
  - split_and!; reflexivity.
Qed.

(** Remark: A runner of an earlier synchronisation that has not come back keeps its
    slot, and the runner of this one gets none although it is the only one. *)
Example earlier_runner_blocks :
  ∃ s w', rtc step (start 1 1 0 1) s ∧ returned s = true ∧ procs s = [Finished NoSlot]
    ∧ runProjectionsAfterSync (hearing (received s)) (with_runners 1) = Done (w',
        Some (ErrMsg "projection execution failed: projection runner 0 timed out waiting for worker slot"))
    ∧ ¬ ∃ s', rtc step (start 1 1 0 1) s' ∧ old s' = 1%nat ∧ procs s' = [Running].
Proof.
  eexists _, _. split; [|split_and!].
  - eapply (rtc_nsteps_2 4). go st_deadline. go (st_give_up 0). go (st_recv_error (mkFailure 0 None) []). go st_all_received. apply nsteps_O.
  - reflexivity.
  - reflexivity.
  - reflexivity.
  - intros (s' & Hr & Ho & Hp). apply (pool_inv_reachable 1) in Hr; [|lia].
    pose proof (inv_slots _ _ _ Hr) as Hs. unfold slots in Hs. rewrite Ho, Hp in Hs. cbv in Hs. lia.
Qed.
