(* ===== verification/Backoff.v ===== *)
(** * Exponential back-off in floating point
    (src/synckit/manager.go, exponentialBackoff; src/synckit/realtime.go,
    ExponentialBackoff)

    [float64] is the binary64 of [SpecFloat]: sign, mantissa and exponent as
    integers, rounding to nearest even.  The conversion of a [float64] that no
    [int64] represents is left to the implementation by the language: a class.
    For the multiplier 2, the default everywhere, every product is exact, which
    gives both delays in closed form. *)
From S2P Require Import Prelude Types Json Errors StateMachine SyncState Resolvers Interfaces Detect Manager Realtime.
From Stdlib Require Import SpecFloat.
From stdpp Require Import options.

(** ** float64 *)
Abbreviation float64 := spec_float.
Definition fmul (x y : float64) : float64 := SFmul 53 1024 x y.
Definition float_of_int (z : Z) : float64 := binary_normalize 53 1024 z 0 false.
(** The power of two [2^k], for the exponents of normal numbers. *)
Definition power_of_two (k : Z) : float64 := S754_finite false 4503599627370496 (k - 52).
Definition float_two : float64 := power_of_two 1.

(** [int64(f)]: towards zero, and [implementation f] where the result is no
    [int64]. *)
Class Conversion := {
  implementation : float64 → Z;
  implementation_int64 f : - 2 ^ 63 ≤ implementation f < 2 ^ 63
}.
Definition magnitude (m : positive) (e : Z) : Z := if 0 <=? e then Zpos m * 2 ^ e else Zpos m / 2 ^ (- e).
Definition int64_of {C : Conversion} (f : float64) : Z :=
  match f with
  | S754_zero _ => 0
  | S754_finite s m e =>
      let z := if s then - magnitude m e else magnitude m e in
      if (- 2 ^ 63 <=? z) && (z <? 2 ^ 63) then z else implementation f
  | _ => implementation f
  end.
(** amd64 answers the smallest integer, arm64 the nearest one. *)
Definition amd64 : Conversion.
Proof. refine {| implementation := λ _, - 2 ^ 63 |}. lia. Defined.
Definition arm64 : Conversion.
Proof.
  refine {| implementation := λ f, match f with
    | S754_nan => 0
    | S754_infinity true | S754_finite true _ _ => - 2 ^ 63
    | _ => 2 ^ 63 - 1
    end |}. intros [| [|]| |[|]]; lia.
Defined.

(** ** The back-off of the manager *)
Record exponentialBackoff := mkExponential { initialDelay : Z; maxDelay : Z; multiplier : float64 }.
Fixpoint multiply (n : nat) (mult delay : float64) : float64 :=
  match n with
  | O => delay
  | S n => multiply n mult (fmul delay mult)
  end.
Definition nextDelay {C : Conversion} (attempt : Z) (eb : exponentialBackoff) : Z :=
  let attempt := if attempt <? 0 then 0 else attempt in
  let delay := float_of_int (initialDelay eb) in
  let delay := if 0 <? attempt then multiply (Z.to_nat attempt) (multiplier eb) delay else delay in
  let result := int64_of delay in
  if maxDelay eb <? result then maxDelay eb else result.

(** ** The back-off of real-time synchronisation

    [math.Pow] with an integral exponent; powers of two are exact up to the
    largest exponent and infinite beyond. *)
Class Pow := { pow : float64 → Z → float64 }.
Class PowLaw `{Pow} : Prop := {
  pow_two k : 0 < k → pow float_two k = if k <=? 1023 then power_of_two k else S754_infinity false
}.
#[global] Instance float_pow {P : Pow} {C : Conversion} : FloatPow := {|
  float := float64;
  two := float_two;
  scaled d m n := int64_of (fmul (float_of_int d) (pow m n))
|}.
(** [pow] by repeated multiplication. *)
Definition repeated : Pow := {| pow m n := multiply (Z.to_nat n) m (float_of_int 1) |}.

(** ** Products with powers of two are exact *)
Lemma digits2_size p : digits2_pos p = Pos.size p.
Proof. by induction p as [p IH|p IH|]; cbn; rewrite ?IH. Qed.
(** A mantissa of 53 digits. *)
Definition full (m : positive) : Prop := Zpos (digits2_pos m) = 53.
Lemma full_range m : full m ↔ 2 ^ 52 ≤ Zpos m < 2 ^ 53.
Proof.
  unfold full. rewrite digits2_size. pose proof (Pos.size_gt m) as Hgt. pose proof (Pos.size_le m) as Hle.
  apply Pos2Z.pos_lt_pos in Hgt. apply Pos2Z.pos_le_pos in Hle.
  rewrite Pos2Z.inj_pow in Hgt, Hle. change (Zpos m~0) with (2 * Zpos m) in Hle.
  split.
  - intros Hs. rewrite Hs in *. change (2 ^ 53) with (2 * 2 ^ 52) in *. lia.
  - intros [H1 H2].
    assert (52 < Zpos (Pos.size m)) by (apply (Z.pow_lt_mono_r_iff 2); lia).
    assert (Zpos (Pos.size m) - 1 < 53); [|lia].
    apply (Z.pow_lt_mono_r_iff 2); [lia..|].
    apply Z.le_lt_trans with (Zpos m); [|done].
    replace (Zpos (Pos.size m)) with (Z.succ (Zpos (Pos.size m) - 1)) in Hle by lia.
    rewrite Z.pow_succ_r in Hle by lia. lia.
Qed.
Lemma shr_none m e : full m → -1074 ≤ e →
  shr_fexp 53 1024 (Zpos m) e loc_Exact = (Build_shr_record (Zpos m) false false, e).
Proof.
  unfold full, shr_fexp, SpecFloat.fexp, emin. intros Hm He. cbn [Zdigits2]. rewrite Hm.
  replace (Z.max (53 + e - 53) (3 - 1024 - 53) - e) with 0 by lia. reflexivity.
Qed.
Definition finite_or_inf (m : positive) (e : Z) : float64 :=
  if e <=? 971 then S754_finite false m e else S754_infinity false.
Lemma fmul_power m e k : full m → -1074 ≤ e + k →
  fmul (S754_finite false m e) (power_of_two k) = finite_or_inf m (e + k).
Proof.
  intros Hm He. unfold fmul, power_of_two, SFmul. cbn [xorb].
  rewrite Pos.mul_comm. unfold binary_round_aux.
  assert (shr_fexp 53 1024 (Zpos (4503599627370496 * m)) (e + (k - 52)) loc_Exact
    = (Build_shr_record (Zpos m) false false, e + k)) as ->.
  { unfold shr_fexp, SpecFloat.fexp, emin.
    assert (Zdigits2 (Zpos (4503599627370496 * m)) = 105) as ->.
    { cbv [Pos.mul]. cbn [Zdigits2 digits2_pos]. rewrite !Pos2Z.inj_succ. unfold full in Hm. rewrite Hm. reflexivity. }
    replace (Z.max (105 + (e + (k - 52)) - 53) (3 - 1024 - 53) - (e + (k - 52))) with 52 by lia.
    cbv [Pos.mul]. cbn. f_equal. lia. }
  cbn [shr_m loc_of_shr_record round_nearest_even]. rewrite shr_none by done. reflexivity.
Qed.
Lemma fmul_inf k : fmul (S754_infinity false) (power_of_two k) = S754_infinity false.
Proof. reflexivity. Qed.

(** ** Integers below [2 ^ 53] are exact *)
Lemma iter_double p q : Zpos (Pos.iter xO p q) = Zpos p * 2 ^ Zpos q.
Proof.
  induction q as [|q IH] using Pos.peano_ind.
  - cbn. lia.
  - rewrite Pos.iter_succ. change (Zpos (Pos.iter xO p q)~0) with (2 * Zpos (Pos.iter xO p q)).
    rewrite IH, Pos2Z.inj_succ, Z.pow_succ_r by lia. lia.
Qed.
(** The mantissa and the exponent of [d]. *)
Definition normal (d : Z) (m : positive) : Prop := full m ∧ Zpos m = d * 2 ^ (52 - Z.log2 d).
Lemma normal_exists d : 0 < d < 2 ^ 53 → ∃ m, normal d m.
Proof.
  intros Hd. pose proof (Z.log2_spec d) as Hl. pose proof (Z.log2_nonneg d).
  assert (Z.log2 d < 53) by (apply (Z.pow_lt_mono_r_iff 2); lia).
  assert (2 ^ 52 ≤ d * 2 ^ (52 - Z.log2 d) < 2 ^ 53) as Hr.
  { replace 52 with (Z.log2 d + (52 - Z.log2 d)) at 1 by lia.
    replace (2 ^ 53) with (2 ^ (Z.succ (Z.log2 d)) * 2 ^ (52 - Z.log2 d))
      by (rewrite <- Z.pow_add_r by lia; f_equal; lia).
    rewrite Z.pow_add_r by lia. assert (0 < 2 ^ (52 - Z.log2 d)) by (apply Z.pow_pos_nonneg; lia). nia. }
  exists (Z.to_pos (d * 2 ^ (52 - Z.log2 d))). unfold normal.
  rewrite full_range, Z2Pos.id by lia. done.
Qed.
Lemma float_of_int_normal d m : 0 < d < 2 ^ 53 → normal d m →
  float_of_int d = S754_finite false m (Z.log2 d - 52).
Proof.
  intros Hd [Hf Hm]. pose proof (Z.log2_nonneg d).
  assert (Z.log2 d < 53) by (apply (Z.pow_lt_mono_r_iff 2); pose proof (Z.log2_spec d); lia).
  unfold float_of_int, binary_normalize. destruct d as [|p|p]; [lia| |lia].
  unfold binary_round, SpecFloat.fexp, emin.
  assert (Zpos (digits2_pos p) = Z.log2 (Zpos p) + 1) as ->.
  { rewrite digits2_size. destruct p; cbn; lia. }
  set (l := Z.log2 (Zpos p)) in *.
  replace (Z.max (l + 1 + 0 - 53) (3 - 1024 - 53)) with (l - 52) by lia.
  assert (shl_align p 0 (l - 52) = (m, l - 52)) as ->.
  { unfold shl_align. rewrite Z.sub_0_r. destruct (l - 52) as [|q|q] eqn:Hq; [|lia|].
    - f_equal. replace (52 - l) with 0 in Hm by lia. rewrite Z.mul_1_r in Hm. congruence.
    - f_equal. apply (inj Zpos). rewrite iter_double, Hm. f_equal. f_equal. lia. }
  unfold binary_round_aux. rewrite shr_none by (done || lia).
  cbn [shr_m loc_of_shr_record round_nearest_even]. rewrite shr_none by (done || lia). cbn [shr_m].
  destruct (Z.leb_spec (l - 52) (1024 - 53)); [done|lia].
Qed.

(** ** Doubling *)
Lemma multiply_doubles n : ∀ m e, full m → -1074 ≤ e →
  multiply n float_two (finite_or_inf m e) = finite_or_inf m (e + Z.of_nat n).
Proof.
  induction n as [|n IH]; intros m e Hm He; cbn [multiply].
  - by rewrite Z.add_0_r.
  - assert (fmul (finite_or_inf m e) float_two = finite_or_inf m (e + 1)) as ->.
    { unfold finite_or_inf at 1. destruct (Z.leb_spec e 971).
      - apply fmul_power; [done|lia].
      - unfold finite_or_inf. by destruct (Z.leb_spec (e + 1) 971); [lia|]. }
    rewrite IH by (done || lia). f_equal. lia.
Qed.
(** [d * 2 ^ k] as a float: the integer, where it is one of 64 bits. *)
Definition scaled_float (d k : Z) (f : float64) : Prop :=
  ∃ m, normal d m ∧ f = finite_or_inf m (Z.log2 d - 52 + k).
Lemma int64_of_scaled `{Conversion} d k f : 0 < d < 2 ^ 53 → 0 ≤ k → scaled_float d k f →
  int64_of f = if d * 2 ^ k <? 2 ^ 63 then d * 2 ^ k else implementation f.
Proof.
  intros Hd Hk (m & [Hf Hm] & Hv). pose proof (Z.log2_nonneg d). pose proof (Z.log2_spec d ltac:(lia)) as [Hl _].
  assert (Z.log2 d < 53) by (apply (Z.pow_lt_mono_r_iff 2); lia).
  assert (0 < 2 ^ k) by (apply Z.pow_pos_nonneg; lia).
  unfold finite_or_inf in Hv. destruct (Z.leb_spec (Z.log2 d - 52 + k) 971).
  - assert (magnitude m (Z.log2 d - 52 + k) = d * 2 ^ k) as Hmag.
    { unfold magnitude. rewrite Hm. destruct (Z.leb_spec 0 (Z.log2 d - 52 + k)).
      - rewrite <- Z.mul_assoc, <- Z.pow_add_r by lia. f_equal. f_equal. lia.
      - replace (52 - Z.log2 d) with (k + - (Z.log2 d - 52 + k)) by lia.
        rewrite Z.pow_add_r, Z.mul_assoc, Z.div_mul by (try apply Z.pow_nonzero; lia). done. }
    rewrite Hv. cbn [int64_of]. rewrite Hmag. destruct (Z.leb_spec (- 2 ^ 63) (d * 2 ^ k)); [done|nia].
  - rewrite Hv. cbn [int64_of]. destruct (Z.ltb_spec (d * 2 ^ k) (2 ^ 63)) as [Hlt|]; [|done]. exfalso.
    assert (2 ^ 63 ≤ 2 ^ (Z.log2 d + k)) by (apply Z.pow_le_mono_r; lia).
    rewrite Z.pow_add_r in * by lia. nia.
Qed.
Lemma multiply_scaled d k : 0 < d < 2 ^ 53 → 0 ≤ k →
  scaled_float d k (multiply (Z.to_nat k) float_two (float_of_int d)).
Proof.
  intros Hd Hk. destruct (normal_exists d Hd) as [m Hm]. exists m. split; [done|].
  pose proof (Z.log2_nonneg d).
  assert (Z.log2 d < 53) by (apply (Z.pow_lt_mono_r_iff 2); pose proof (Z.log2_spec d); lia).
  rewrite (float_of_int_normal d m Hd Hm).
  replace (S754_finite false m (Z.log2 d - 52)) with (finite_or_inf m (Z.log2 d - 52)).
  - rewrite multiply_doubles by (apply Hm || lia). f_equal. lia.
  - unfold finite_or_inf. by destruct (Z.leb_spec (Z.log2 d - 52) 971); [|lia].
Qed.
Lemma product_scaled `{PowLaw} d k : 0 < d < 2 ^ 53 → 0 < k →
  scaled_float d k (fmul (float_of_int d) (pow float_two k)).
Proof.
  intros Hd Hk. destruct (normal_exists d Hd) as [m Hm]. exists m. split; [done|].
  pose proof (Z.log2_nonneg d). rewrite (float_of_int_normal d m Hd Hm), pow_two by done.
  destruct (Z.leb_spec k 1023).
  - apply fmul_power; [apply Hm|lia].
  - unfold finite_or_inf. destruct (Z.leb_spec (Z.log2 d - 52 + k) 971); [|done]. lia.
Qed.

(** ** The delays *)
Lemma nextDelay_cap `{Conversion} attempt eb : nextDelay attempt eb ≤ maxDelay eb.
Proof. unfold nextDelay. destruct (Z.ltb_spec (maxDelay eb) (int64_of
  (if 0 <? (if attempt <? 0 then 0 else attempt) then multiply (Z.to_nat (if attempt <? 0 then 0 else attempt))
     (multiplier eb) (float_of_int (initialDelay eb)) else float_of_int (initialDelay eb)))); lia. Qed.
(** The manager's delay for the multiplier 2. *)
Lemma nextDelay_doubled {C : Conversion} attempt d cap : 0 < d < 2 ^ 53 →
  let k := Z.max 0 attempt in
  ∃ f, scaled_float d k f ∧
    nextDelay attempt (mkExponential d cap float_two)
    = Z.min (if d * 2 ^ k <? 2 ^ 63 then d * 2 ^ k else implementation f) cap.
Proof.
  intros Hd k. exists (multiply (Z.to_nat k) float_two (float_of_int d)).
  assert (0 ≤ k) as Hk by lia. pose proof (multiply_scaled d k Hd Hk) as Hs. split; [done|].
  unfold nextDelay. cbn [initialDelay maxDelay multiplier].
  replace (if attempt <? 0 then 0 else attempt) with k by (destruct (Z.ltb_spec attempt 0); lia).
  replace (if 0 <? k then multiply (Z.to_nat k) float_two (float_of_int d) else float_of_int d)
    with (multiply (Z.to_nat k) float_two (float_of_int d)).
  - rewrite (int64_of_scaled d k _ Hd Hk Hs). case_match; lia.
  - destruct (Z.ltb_spec 0 k); [done|]. by replace k with 0 by lia.
Qed.
(** That of real-time synchronisation. *)
Lemma NextDelay_doubled `{PowLaw} {C : Conversion} attempt d cap : 0 < d < 2 ^ 53 →
  let k := Z.max 0 attempt in
  ∃ f, (0 < k → scaled_float d k f) ∧
    NextDelay attempt (mkBackoff d cap float_two)
    = if (d * 2 ^ k <? 2 ^ 63) || (attempt <=? 0) then Z.min (d * 2 ^ k) cap
      else if (cap <? implementation f) || (implementation f <? 0) then cap else implementation f.
Proof.
  intros Hd k. exists (fmul (float_of_int d) (pow float_two k)).
  unfold NextDelay. cbn [InitialDelay MaxDelay Multiplier scaled float_pow].
  destruct (Z.leb_spec attempt 0).
  - split; [lia|]. rewrite orb_true_r. replace k with 0 by lia. by rewrite Z.mul_1_r.
  - rewrite orb_false_r. replace attempt with k by lia. assert (0 < k) as Hk by lia.
    pose proof (product_scaled d k Hd Hk) as Hs. split; [done|].
    rewrite (int64_of_scaled d k _ Hd ltac:(lia) Hs). destruct (Z.ltb_spec (d * 2 ^ k) (2 ^ 63)); [|done].
    assert (0 < d * 2 ^ k) by (apply Z.mul_pos_pos; [|apply Z.pow_pos_nonneg]; lia).
    destruct (Z.ltb_spec cap (d * 2 ^ k)), (Z.ltb_spec (d * 2 ^ k) 0); cbn; lia.
Qed.
Lemma finite_or_inf_arm m e : implementation (Conversion := arm64) (finite_or_inf m e) = 2 ^ 63 - 1.
Proof. unfold finite_or_inf. by case_match. Qed.

(** C40: The two back-offs compared, for the multiplier 2, any initial delay of
    104 days at most and any attempt.  That of real-time synchronisation is the
    initial delay doubled [attempt] times, no more than the maximum, on both
    platforms.  So is the manager's where the float is no [int64] and the
    conversion saturates (arm64); on amd64 the conversion gives the smallest
    integer, below the cap, and the manager retries without waiting. *)
Theorem backoffs_compared `{PowLaw} attempt d cap : 0 < d < 2 ^ 53 → 0 ≤ cap < 2 ^ 63 →
  let k := Z.max 0 attempt in
  let ideal := Z.min (d * 2 ^ k) cap in
  let realtime C := NextDelay (FP := float_pow (C := C)) attempt (mkBackoff d cap float_two) in
  let manager C := nextDelay (C := C) attempt (mkExponential d cap float_two) in
  realtime amd64 = ideal ∧ realtime arm64 = ideal ∧ manager arm64 = ideal
  ∧ manager amd64 = if d * 2 ^ k <? 2 ^ 63 then ideal else - 2 ^ 63.
Proof.
  intros Hd Hcap k ideal. cbv zeta. split_and!.
  - destruct (NextDelay_doubled (C := amd64) attempt d cap Hd) as (f & _ & Hn). rewrite Hn.
    change (@implementation amd64 f) with (- 2 ^ 63). fold k.
    destruct (Z.ltb_spec (d * 2 ^ k) (2 ^ 63)); [done|]. cbn [orb]. destruct (Z.leb_spec attempt 0); [done|].
    destruct (Z.ltb_spec (- 2 ^ 63) 0); [|lia]. rewrite orb_true_r. lia.
  - destruct (NextDelay_doubled (C := arm64) attempt d cap Hd) as (f & Hf & Hn). rewrite Hn. fold k.
    destruct (Z.ltb_spec (d * 2 ^ k) (2 ^ 63)); [done|]. cbn [orb]. destruct (Z.leb_spec attempt 0); [done|].
    destruct Hf as (m & _ & ->); [lia|]. rewrite finite_or_inf_arm.
    destruct (Z.ltb_spec cap (2 ^ 63 - 1)), (Z.ltb_spec (2 ^ 63 - 1) 0); cbn; lia.
  - destruct (nextDelay_doubled (C := arm64) attempt d cap Hd) as (f & (m & _ & ->) & Hn). rewrite Hn, finite_or_inf_arm.
    fold k. destruct (Z.ltb_spec (d * 2 ^ k) (2 ^ 63)); lia.
  - destruct (nextDelay_doubled (C := amd64) attempt d cap Hd) as (f & _ & Hn). rewrite Hn.
    change (@implementation amd64 f) with (- 2 ^ 63). fold k.
    destruct (Z.ltb_spec (d * 2 ^ k) (2 ^ 63)); lia.
Qed.

#[local] Existing Instance repeated.
#[local] Instance repeated_law : PowLaw.
Proof.
  split. intros k Hk. cbn [pow repeated].
  change (float_of_int 1) with (finite_or_inf 4503599627370496 (-52)).
  rewrite multiply_doubles by (done || lia). unfold finite_or_inf, power_of_two.
  rewrite Z2Nat.id by lia.
  destruct (Z.leb_spec (-52 + k) 971), (Z.leb_spec k 1023); try lia; [|done]. f_equal. lia.
Qed.

(** One second, at most a minute, 40 attempts. *)
Lemma backoffs_compared_witness :
  let FP := float_pow (P := repeated) (C := amd64) in
  NextDelay (FP := FP) 40 (mkBackoff (FP := FP) 1000000000 60000000000 float_two) = 60000000000
  ∧ nextDelay (C := amd64) 40 (mkExponential 1000000000 60000000000 float_two) = - 2 ^ 63.
Proof.
  assert (0 < 1000000000 < 2 ^ 53) as Hd by lia. assert (0 ≤ 60000000000 < 2 ^ 63) as Hc by lia.
  destruct (backoffs_compared 40 1000000000 60000000000 Hd Hc) as (H1 & _ & _ & H4).
  cbv zeta. split; [rewrite H1|rewrite H4]; reflexivity.
Defined.

(** ** The waits of a retried operation *)

(** The delay before each retry of [syncWithRetry], in order. *)
Definition waits {C : Conversion} (maxAttempts : Z) (eb : exponentialBackoff) : list Z :=
  (λ i : nat, nextDelay (Z.of_nat i) eb) <$> seq 0 (Z.to_nat (maxAttempts - 1)).
Definition default_retry : exponentialBackoff := mkExponential 100000000 5000000000 float_two.
(** The defaults of [NewSyncManager]: three attempts. *)
Example default_waits : waits (C := amd64) 3 default_retry = [100000000; 200000000].
Proof. reflexivity. Qed.
(** With more attempts: five seconds from the seventh retry, none from the 38th. *)
Example many_waits :
  drop 5 (waits (C := amd64) 41 default_retry) = [3200000000] ++ replicate 31 5000000000 ++ replicate 3 (- 2 ^ 63).
Proof. vm_compute. reflexivity. Qed.
